(* ===== verification/_CoqProject ===== *)
-Q . S2P
Prelude.v
CMonad.v
CArray.v
Machine.v
Alu.v
Ops.v
Opcodes.v
Operations.v
Decode.v
Stable.v
Views.v
AluFacts.v
RunFacts.v
ControlFacts.v
StackFacts.v
CallFacts.v
ArithFacts.v
BitFacts.v
DataFacts.v
DecimalFacts.v
Safety.v
FatName.v
FatNameFacts.v
Bitmap.v
BitmapFacts.v
RbTree.v
RbSpec.v
RbHeap.v
RbInsert.v
RbIter.v
RbDelete.v
RbTreeFacts.v
Md5.v
Md5Facts.v
Threads.v
ThreadsInv.v
ThreadsSteps.v
ThreadsFacts.v
ThreadsSync.v
ThreadsWake.v
Completion.v
Buddy.v
BuddyFacts.v
BuddyInit.v
Aml.v
AmlTree.v
AmlSafe.v
AmlCode.v
AmlLoad.v
AmlSpec.v
AmlFacts.v
Net.v
NetSum.v
Tcp.v
TcpWire.v
TcpOpen.v
TcpShake.v
TcpStep.v
TcpData.v
TcpFacts.v
Arp.v
ArpTable.v
ArpWire.v
ArpFacts.v
ArpThreads.v
