(* ===== verification/Prelude.v ===== *)
(** * Horizon-Operating-System: a verification library

    ** The program

    Horizon is an x86-64 kernel in C and Rust.  Its C part consists of a BIOS
    emulator (src/arch/x86/bios_emu), a FAT file system over a block cache
    (src/fs), a network stack (src/driver/network), storage, frame buffer and
    input layers (src/driver), an object manager (src/objects), a small C library
    (src/lib) and device drivers (src/arch/x86/drivers, src/drivers).  Memory
    management, threads, ACPI and the red-black trees are written in Rust.

    This library covers, of the C part, the BIOS emulator completely, the network stack
    with TCP, UDP, ICMP, IPv4, ARP and Ethernet, the names of the FAT file system and the MD5
    routine; of the Rust part the bitmap allocator
    with the per-CPU chunks on top of it, the red-black tree, the buddy allocator of
    page frames, the kernel threads with their scheduler, wait queues and
    completions, and the loader of ACPI tables.

    The emulator is the real-mode interpreter with which the kernel calls BIOS
    services once it has left real mode.
    [bios_emu_init] sets the machine up, [emu_interrupt] builds an interrupt frame
    and runs the handler, [emu_run] executes instructions until one of them raises
    an event, and each instruction is decoded by two nested switches into the
    operations of src/arch/x86/bios_emu/ops.

    The FAT driver keeps names in UTF-8 and stores them as UTF-16 in long-name
    entries, tied by a checksum to a short 8.3 entry; src/fs/fat/name.c converts
    and checks them and the directory iterator of dir.c collects the pieces.  The
    bitmap allocator (src/lib/rust/bitmap.rs) hands out runs of units and keeps,
    beside the bits of the units in use, a bit for each boundary of a run, so that
    freeing needs only the offset; src/kernel/memory/percpu/chunk.rs allocates
    per-CPU variables from it.  The red-black tree (src/lib/rust/rbtree.rs and
    rbtree/) is intrusive: the nodes belong to the caller, parent pointers carry
    the colour in their lowest bit.

    The page frames of physical memory are described by an array of frame structures
    (src/kernel/memory/frame.rs).  The buddy allocator (frame/buddy.rs) keeps free
    blocks of 2^0 to 2^10 frames in a list per zone and order, splits a larger block
    when it needs to, and takes blocks back when the last reference to them
    (frame/reference.rs) is dropped.

    Each processor runs a scheduler with its own ready queue
    (src/kernel/thread/scheduler.rs).  A thread waits on a queue (wait_queue.rs) by
    taking the lock of the condition it waits for, then the lock of the queue, and
    blocking; another thread changes the condition and wakes one or all of the
    waiters, which may have to wait until a processor has left the stack of the
    woken thread.  Completions (src/kernel/sync/completion.rs) and the joining of
    threads are built on it.

    A connection of the network stack (src/driver/network/conn.c) owns one packet buffer
    (buffer.c), in which each layer reserves room for its header; a packet is wrapped by
    the layers from TCP or UDP down to Ethernet and handed to the device.  A frame that
    arrives goes up: [eth_recv] notes its sender in the table of neighbours or gives it to
    ARP (neighbour.c, arp.c, acd.c), [ipv4_recv] checks the header and gives the packet to [udp_recv],
    [icmp_recv] or [tcp_recv], which looks for the connection it is for.  The states of
    TCP, its windows, options and retransmission are in protocols/tcp.c.

    ACPI tables contain byte code, AML, that declares a tree of named objects.  The
    parser (src/acpi/aml/parser.rs and parser/) reads a table once and enters what it
    declares into the name space (namespace.rs); the bodies of methods are kept as
    bytes.

    ** Files

    - [Prelude]: machine integers ([wrap], [sext]), bit fields, byte memory, and
      the tactics and lemmas the other files share.
    - [CMonad]: C statements as state transformers with three outcomes: a value and
      the next state, undefined behaviour, or fuel spent; the judgements [spec]
      ([keeps I m]: [m] keeps [I]), [wp] (total correctness) and [wlp] (partial
      correctness from one state) with their automation.
    - [CArray]: arrays and blocks of memory with their bounds.
    - [Machine]: BiosEmuEnvironment of environment.h as the record [env] together
      with the memory the emulator works on and the trace of port accesses;
      registers and their overlapping names, flags.h, stack.h, segment.c, mod_rm.h,
      mod_rm.c, and [bios_emu_init] of bios_emu.c.
    - [Alu]: ops/alu.c.  [Ops]: ops/mov.c, xchg.c, bt.c, segment.c, conditions.c,
      jmp.c, call.c, stack.c, int.c.  [Operations]: operations.c and the operand
      decoders of decode.c.  [Opcodes]: instructions_1.h, instructions_2.h and
      prefix.h.  [Decode]: the switches, the prefix loop and the run loop of
      decode.c and [emu_interrupt].
    - [Stable]: the interface between instructions and invariants.  A property of
      the state that survives the primitive updates (class [Stable]) is kept by
      every instruction, by the run loop and by an interrupt call.
    - [Views]: pure readings and updates of the state, and for every accessor the
      equation that says what it does to them; the tactic [go] runs code with them.
    - [AluFacts], [ArithFacts], [BitFacts], [DecimalFacts], [DataFacts],
      [ControlFacts], [StackFacts], [CallFacts], [RunFacts], [Safety]: the theorems
      about the emulator.
    - [FatName]: name.c, the entry structures of dir.h and name.h, and the long-name
      part of dir.c; [FatNameFacts]: the theorems about them.
    - [Bitmap]: bitmap.rs and chunk.rs; [BitmapFacts]: the abstract allocator, a set
      of disjoint blocks, and the proof that the bitmap implements it.
    - [RbTree]: the pointer code of rbtree.rs, insert.rs, delete.rs, misc.rs and
      iter.rs over a memory of nodes.  [RbSpec]: trees and paths as values, what the
      repairs after insertion and deletion do to them, and the red-black invariant.
      [RbHeap]: when nodes in memory represent a tree, and rules for the pointer
      operations in the style of separation logic.  [RbInsert], [RbIter],
      [RbDelete]: the pointer code implements the operations on values.
      [RbTreeFacts]: the theorems, in terms of the sorted sequence of nodes.
    - [Md5]: lib/md5.c; [Md5Facts]: a reference after RFC 1321 and the proof that the
      code computes it.
    - [Buddy]: frame.rs and buddy.rs, reference.rs, zone.rs, number.rs, options.rs of
      frame/.  [BuddyFacts]: the invariant of frames, free lists and blocks handed
      out, and allocation and release; [BuddyInit]: start-up and references.
    - [Threads]: the scheduler, wait queues and thread state as atomic actions of
      processors, for any client of the wait queues (class [Client]).
      [ThreadsInv], [ThreadsSteps], [ThreadsFacts]: the invariant of threads,
      queues and processors, and that actions keep it.  [ThreadsSync],
      [ThreadsWake]: locks, and the balance of wake-ups owed and given.
      [Completion]: completions as a client, and the theorems.
    - [Aml]: the byte code, opcodes, parser and name space of acpi/aml.  [AmlTree]: the
      invariant of the name space, insertion and lookup.  [AmlSafe]: rules for parsers
      and the measure with which they end.  [AmlCode]: an encoder for the items of the
      byte code, read back by the parser; [AmlLoad]: declarations as values, what they
      do to the name space, and that parsing performs them; [AmlSpec]: what they mean by the
      specification, and where the parser departs from it; [AmlFacts]: the theorems.

    - [Net]: packet buffers, checksums, timers, the records of connections, Ethernet,
      IPv4, ICMP and UDP.  [Tcp]: tcp.c, over one connection ([World]) and over all
      connections of a host ([Net]).  [NetSum]: RFC 1071 and the checksums.  [TcpWire]:
      packets as they lie in memory, sending and delivery of a segment.  [TcpOpen],
      [TcpShake]: the steps of the handshake.  [TcpStep]: the diagram of states in tcp.h,
      and all operations as a step relation.  [TcpData]: options, resets, round-trip times and the
      receive window as a queue.  [TcpFacts]: the theorems.
    - [Arp]: neighbour.c, arp.c, acd.c, the reception of Ethernet frames and the functions
      of ipv4.c that use the table; the state is a host, its device and its connections.
      [ArpTable]: the table as a map from addresses.  [ArpWire]: messages as they lie in
      memory, and the runs of requests and answers.  [ArpFacts]: the theorems.
      [ArpThreads]: the operations on the table cut into the sections that are done under
      one lock, and the interleavings of several threads.

    A C function keeps its name; a family of functions that differ in the operand
    width ([add_8], [add_16], [add_32]) is one definition with the width as an
    argument ([add_op]), and a [match] on the width marks each place where the copies
    differ.  A pointer into the register file, into emulated memory or to a local
    variable is a [loc].

    ** Theorems

    - Whole runs ([Stable], [Safety], [RunFacts]): every object keeps a value of its
      type; no program changes the emulator's configuration or the port trace
      behind it; every instruction outside ten opcodes has defined behaviour
      whatever its operands, and each of the ten reaches undefined behaviour on a
      concrete program; prefixes are consumed in order; fuel is only a bound.
    - The two-operand instructions ([AluFacts]), multiplication and division
      ([ArithFacts]), shifts, rotates, bit tests and scans ([BitFacts]), decimal
      adjustment ([DecimalFacts]): the value and the flags against a reference, for
      all operands and widths, and what else may change.
    - Moves, exchanges, sign extension, block moves, stack frames and start-up
      ([DataFacts]); conditions, jumps and ModRM addresses against the tables of the
      instruction set ([ControlFacts]).
    - The stack as a list ([StackFacts]): PUSH refines cons and POP uncons, and
      PUSHA and POPA are inverse; on top of it calls and returns, stack faults,
      interrupts and the kernel's BIOS call ([CallFacts]).

    - Names ([FatNameFacts]): the conversion between UTF-16 and UTF-8 is a round trip
      on the basic multilingual plane, for a caller that provides two NULs and room, and
      stays inside its blocks; the entries of a
      long name, in the order of a directory, put it together; the checksum detects
      every change of one byte; what passes as a short name.
    - The bitmap allocator ([BitmapFacts]): allocation, freeing and construction
      refine operations on a set of disjoint blocks, errors included, and never
      panic.
    - The red-black tree ([RbTreeFacts]): insertion, deletion, search and iteration
      refine operations on a sorted sequence (insertion for keys that are not in the tree),
      keep the red-black invariant, never fail, and leave the memory outside of the tree alone; a search takes at most
      [2 * log2 (n + 1)] steps; the code's own assertions and its [validation] pass.
    - MD5 ([Md5Facts]): the digest is that of RFC 1321 for every length that leaves
      room for the padding in the last block, and what the code does otherwise.
    - Page frames ([BuddyFacts], [BuddyInit]): allocation and release refine
      operations on the lists of block numbers; no sequence of requests loses a frame
      or hands one out twice; what the start-up scan enters; shared references are
      counted.  The code never merges blocks, panics on the last shared reference, and
      faults when a block is released behind which, twice its size further on, a frame is
      not mapped or is shared ([readable]); the theorems say so.
    - Threads ([Completion]): in every interleaving of at most two processors no
      thread runs twice, no panic is reached and queues and states agree; with
      more processors the same until one particular race, which is exhibited; in these
      executions ([execution]) locks exclude, and no wake-up of a completion or of a join
      is lost.
    - AML ([AmlFacts]): parsing the byte code of declarations with constant data, without
      aliases and access fields, enters what they mean by the specification, up to the bit
      positions of fields; on any bytes the name space stays a tree and only grows, and the
      parser ends on declarations with constant data and on any bytes among which the codes
      of the reference operators do not occur; insertion and lookup agree;
      opcodes are read exactly.  What the parser does with nested references and with
      names in packages is stated as it is.

    - The network ([TcpFacts]): all checksums are the ones of RFC 1071; a segment that is
      sent is delivered to the connection it is for, with its numbers and its data; two
      hosts complete the handshake and agree on the sequence numbers; the receive window
      is a queue of bytes until it wraps; segments move a connection along the diagram of
      tcp.h or reset it, and LAST_ACK of that diagram is never reached; the timeout of
      retransmission is bounded for round-trip times up to 2^24.  Options of length zero
      make the handler loop, a segment after a reset frees the windows again, also when
      their pages have a new owner, and one that comes before the opening thread has run
      divides by zero.
    - Neighbours ([ArpFacts]): an address of the subnet is resolved by one request and its
      answer; one after the other, the operations keep one entry for each address; in every
      interleaving of threads ([ArpThreads]) a search finds an entry exactly if there is
      one, but two threads can create two entries for an address, and one of them then
      waits for ever; a message for another host leaves the entry of its sender locked.

    Where the code departs from the instruction set, or from what it means to do, the theorem
    states what the code does; the departures are listed in the manifest of the library.

    ** Bounds and fuel

    Two loops of the emulator are not bounded by the language: the prefix loop and
    the run loop.  They take fuel, one unit per prefix byte and one per
    instruction.  [RunFacts.emu_run_more] shows that more fuel never changes the
    result of a run that ends, [RunFacts.prefixes_decoded] that one unit more than
    the number of prefixes is enough.  The loops of string instructions, scans and
    the software division are bounded by their counters and need no fuel.

    The loops of the bitmap take one unit of fuel per bit and the character loops of
    names one per byte.  Walks along tree pointers take one unit per node in
    memory, and the height of a tree or the length of a path is never more.  The
    loops of the buddy allocator take one unit per order, or per frame of the range
    that is entered; the merge loop ends in its first round.  The AML parser takes two
    units per byte of the table, which [AmlFacts.parse_terminates] shows to be enough.  The loop over the options of a
    segment takes one unit per option, and [TcpFacts.options_terminate] shows that 41 are
    enough unless it does not end at all; the folding of a checksum has fuel for 16 rounds
    and needs at most two.  In all of them the theorems state the result, so the fuel is enough.

    ** Modelling decisions

    Pointers, [size_t] and [usize] are 64 bits wide, as on the target.  Signed shifts and
    conversions behave as GCC defines them.  A shift by the width of the type or
    more, an overflow of [int] in a product or a negation, an index outside a table, an access outside a register cell, an
    uninitialised pointer and a division by zero are [Undef].  Emulated memory does
    not overlap the environment structure.  What the program gets from outside,
    the answers of ports and the order in which the compiler evaluates arguments,
    is the record [Operations.host]; the host's flag register at start-up is an
    argument of [bios_emu_init].

    Processors interleave: one step is one atomic action of one processor, and
    memory is sequentially consistent.  What is done under one lock is one step, a
    processor that spins leaves the state alone.  The ready queues and wait queues
    are lists of threads; the value of the preemption counter, saved registers and
    the list of all threads are not part of the state.

    The frame structures are a map from frame numbers, and a frame whose structure is
    not mapped cannot be read; a free list is the list of the frame numbers whose nodes
    it links, with the flag of each node that says it is linked.  The mapped pages of
    the array at start-up are an argument of [Buddy.populate_zones], and what dropping
    a shared page table does to the tables is one of [Buddy.drop_shared].

    A node of the ACPI name space is its position in the list of all nodes, since nodes
    are leaked when they are added; a pointer to the object of a node is the node.

    A packet buffer is a memory with its size and three positions; an access outside of it
    is [Undef], and a buffer that was freed has no room.  A window of TCP is null, an
    allocated block, a freed one, or one whose pages were freed and have a new owner:
    [kfree] refuses what is free already, and freeing the pages of somebody else is [Undef].  What is handed to the device and the wake-ups of
    waiting threads are recorded.  An operation that waits is split at the wait
    ([Tcp.tcp_connect_start], [Tcp.tcp_opened]).  Of a timer in the sorted list of its
    device only whether it is in the list is kept.  In [Tcp], what the table of neighbours
    answers for an address is an argument; in [Arp] the lock of an entry is a flag of it,
    taking a lock that is taken does not return, and the locks of the buckets, which are
    held for one search or one insertion, make these the sections of [ArpThreads].  The frequency of the timer, the
    answers of [kmalloc] and the bytes at the address that [tcp_connect] hashes are
    arguments.

    A Rust panic is [Undef] as well: an index out of range, an overflow, a failed
    [unwrap], [expect] or assertion, debug assertions included, and so is a
    dereferenced pointer to no node.  Whether the kernel allocator has memory is an
    argument of [Bitmap.try_new].  The tree is the one without augmentation, whose
    hooks are empty, with any lawful order of the keys (class [Ord]).

    ** Not modelled, and the order of further work

    + The C library (src/lib: strings, dynamic arrays, formatting) and the
      kernel's FIFO: functional specifications and bounds.
    + The rest of the FAT file system with the block cache and the storage queue:
      cluster chains and directory entries on disk, the cache as a refinement of
      the disk; [long_name2short_name], which searches the directory.
    + The rest of the network stack: the DHCP client, the queues of UDP connections and of
      network devices.
    + The object manager and the driver core: the object tree and its permissions.

    + In Rust: the list and the augmentation of the tree (rbtree/linked.rs), the
      slab allocator, page tables, fixed assignment of frames, the AML evaluator and
      executor, which run methods on memory regions and ports.

    Device drivers (port and memory-mapped I/O), the console and fonts, start-up
    code and build tools are outside the scope of the library. *)

From Stdlib Require Export ZArith Lia Bool.
From Stdlib Require Import FunctionalExtensionality.
From stdpp Require Import base tactics list numbers functions.

Local Open Scope Z_scope.

(** ** Machine integers

    A C object of an unsigned type of [w] bits is a [Z] between [0] and
    [2^w - 1]; storing a value into it truncates ([wrap]).  Reading it through
    the signed type of the same size is [sext]. *)

Definition wrap (w x : Z) : Z := x mod 2 ^ w.
Definition u8 (x : Z) : Z := wrap 8 x.
Definition u16 (x : Z) : Z := wrap 16 x.
Definition u32 (x : Z) : Z := wrap 32 x.
Definition u64 (x : Z) : Z := wrap 64 x.

Definition sext (w x : Z) : Z :=
  if wrap w x <? 2 ^ (w - 1) then wrap w x else wrap w x - 2 ^ w.
Definition s8 (x : Z) : Z := sext 8 x.
Definition s16 (x : Z) : Z := sext 16 x.
Definition s32 (x : Z) : Z := sext 32 x.
Definition s64 (x : Z) : Z := sext 64 x.

(** [BIT(n)] of include/bits.h. *)
Definition BIT (n : Z) : Z := Z.shiftl 1 n.

(** The truth value of an integer used as a condition, and the integer a
    comparison yields. *)
Definition truth (x : Z) : bool := negb (x =? 0).

(** [n] bits at offset [off] of [x], and [x] with those bits replaced. *)
Definition get_field (off w x : Z) : Z := wrap w (Z.shiftr x off).
Definition put_field (off w x v : Z) : Z :=
  Z.lor (Z.ldiff x (Z.shiftl (Z.ones w) off)) (Z.shiftl (wrap w v) off).

Create HintDb cint discriminated.
#[export] Hint Constants Opaque : cint.

Lemma wrap_range w x : 0 <= w -> 0 <= wrap w x < 2 ^ w.
Proof. intros. apply Z.mod_pos_bound. apply Z.pow_pos_nonneg; lia. Qed.

Lemma wrap_small w x : 0 <= x < 2 ^ w -> wrap w x = x.
Proof. apply Z.mod_small. Qed.

Lemma wrap_neg w x : - 2 ^ w <= x < 0 -> wrap w x = x + 2 ^ w.
Proof. intros. unfold wrap. rewrite <- (Z_mod_plus_full x 1), Z.mod_small; lia. Qed.

Lemma wrap_over w x : 2 ^ w <= x < 2 * 2 ^ w -> wrap w x = x - 2 ^ w.
Proof. intros. unfold wrap. rewrite <- (Z_mod_plus_full x (-1)). rewrite Z.mod_small; lia. Qed.

Lemma wrap_wrap w x : wrap w (wrap w x) = wrap w x.
Proof. apply Z.mod_mod_divide, Z.divide_refl. Qed.

(** A narrower truncation absorbs a wider one. *)
Lemma wrap_narrow w1 w2 x : 0 <= w1 <= w2 -> wrap w1 (wrap w2 x) = wrap w1 x.
Proof.
  intros. apply Z.mod_mod_divide. exists (2 ^ (w2 - w1)).
  rewrite <- Z.pow_add_r by lia. f_equal. lia.
Qed.

Lemma wrap_ones w x : 0 <= w -> wrap w x = Z.land x (Z.ones w).
Proof. intros. by rewrite Z.land_ones. Qed.

Lemma testbit_wrap w x i :
  0 <= w -> 0 <= i -> Z.testbit (wrap w x) i = (i <? w) && Z.testbit x i.
Proof.
  intros. rewrite wrap_ones, Z.land_spec by lia.
  destruct (Z.ltb_spec i w).
  - rewrite Z.ones_spec_low by lia. apply andb_true_r.
  - rewrite Z.ones_spec_high by lia. apply andb_false_r.
Qed.

Lemma wrap_add_l w a b : wrap w (wrap w a + b) = wrap w (a + b).
Proof. apply Zplus_mod_idemp_l. Qed.

Lemma wrap_add_r w a b : wrap w (a + wrap w b) = wrap w (a + b).
Proof. apply Zplus_mod_idemp_r. Qed.

Lemma wrap_sub_l w a b : wrap w (wrap w a - b) = wrap w (a - b).
Proof. apply Zminus_mod_idemp_l. Qed.

Lemma wrap_sub_r w a b : wrap w (a - wrap w b) = wrap w (a - b).
Proof. apply Zminus_mod_idemp_r. Qed.

Lemma sext_range w x : 1 <= w -> - 2 ^ (w - 1) <= sext w x < 2 ^ (w - 1).
Proof.
  intros. pose proof (wrap_range w x ltac:(lia)). unfold sext.
  assert (2 ^ w = 2 * 2 ^ (w - 1)).
  { rewrite <- Z.pow_succ_r by lia. f_equal. lia. }
  destruct (Z.ltb_spec (wrap w x) (2 ^ (w - 1))); lia.
Qed.

Lemma wrap_sext w x : 0 <= w -> wrap w (sext w x) = wrap w x.
Proof.
  intros. unfold sext. case_match; [apply wrap_wrap|].
  rewrite wrap_sub_l. unfold wrap. rewrite <- (Z_mod_plus_full x (-1) (2 ^ w)).
  f_equal; lia.
Qed.

(** ** Bit fields *)

Lemma sext_small w x : 1 <= w -> - 2 ^ (w - 1) <= x < 2 ^ (w - 1) -> sext w x = x.
Proof.
  intros Hw Hx. assert (2 ^ w = 2 * 2 ^ (w - 1)) by (rewrite <- Z.pow_succ_r by lia; f_equal; lia).
  unfold sext. destruct (decide (0 <= x)).
  - rewrite wrap_small by lia. by replace (x <? 2 ^ (w - 1)) with true by lia.
  - rewrite wrap_neg by lia. replace (x + 2 ^ w <? 2 ^ (w - 1)) with false by lia. lia.
Qed.

Lemma sext_wrap w x : sext w (wrap w x) = sext w x.
Proof. unfold sext. by rewrite wrap_wrap. Qed.

Lemma land_ffff_wrap x : Z.land x 0xffff = wrap 16 x.
Proof. by apply (Z.land_ones x 16). Qed.
Lemma land_ffffffff_wrap x : Z.land x 0xffffffff = wrap 32 x.
Proof. by apply (Z.land_ones x 32). Qed.

Lemma testbit_put_field off w x v i :
  0 <= off -> 0 <= w -> 0 <= i ->
  Z.testbit (put_field off w x v) i =
    if (off <=? i) && (i <? off + w) then Z.testbit v (i - off) else Z.testbit x i.
Proof.
  intros. unfold put_field.
  rewrite Z.lor_spec, Z.ldiff_spec, !Z.shiftl_spec by lia.
  destruct (Z.leb_spec off i); simpl.
  - rewrite testbit_wrap by lia.
    destruct (Z.ltb_spec i (off + w)).
    + rewrite Z.ones_spec_low by lia.
      replace (i - off <? w) with true by lia.
      by rewrite andb_false_r.
    + rewrite Z.ones_spec_high by lia.
      replace (i - off <? w) with false by lia.
      by rewrite andb_true_r, orb_false_r.
  - rewrite (Z.testbit_neg_r (Z.ones w)), (Z.testbit_neg_r (wrap w v)) by lia.
    simpl. by rewrite andb_true_r, orb_false_r.
Qed.

Lemma testbit_get_field off w x i :
  0 <= off -> 0 <= w -> 0 <= i ->
  Z.testbit (get_field off w x) i = (i <? w) && Z.testbit x (i + off).
Proof. intros. unfold get_field. by rewrite testbit_wrap, Z.shiftr_spec by lia. Qed.

Lemma get_field_range off w x : 0 <= w -> 0 <= get_field off w x < 2 ^ w.
Proof. apply wrap_range. Qed.

Ltac bits_eq :=
  apply Z.bits_inj'; let i := fresh "i" in intros i ?;
  repeat first
    [ rewrite testbit_put_field by lia
    | rewrite testbit_get_field by lia
    | rewrite testbit_wrap by lia
    | rewrite Z.lor_spec | rewrite Z.land_spec | rewrite Z.ldiff_spec
    | rewrite Z.lxor_spec
    | rewrite Z.shiftr_spec by lia | rewrite Z.shiftl_spec by lia ].

Lemma get_put_same off w x v :
  0 <= off -> 0 <= w -> get_field off w (put_field off w x v) = wrap w v.
Proof.
  intros. bits_eq. destruct (Z.ltb_spec i w); simpl; [|done].
  replace (off <=? i + off) with true by lia.
  replace (i + off <? off + w) with true by lia. simpl. f_equal. lia.
Qed.

(** Reading a field that does not overlap the one written. *)
Lemma get_put_other off w off' w' x v :
  0 <= off -> 0 <= w -> 0 <= off' -> 0 <= w' ->
  off + w <= off' \/ off' + w' <= off ->
  get_field off' w' (put_field off w x v) = get_field off' w' x.
Proof.
  intros. bits_eq. destruct (Z.ltb_spec i w'); simpl; [|done].
  by replace ((off <=? i + off') && (i + off' <? off + w)) with false by lia.
Qed.

(** Reading a field that lies inside the one written. *)
Lemma get_put_inside off w off' w' x v :
  0 <= off -> 0 <= w -> 0 <= w' -> off <= off' -> off' + w' <= off + w ->
  get_field off' w' (put_field off w x v) = get_field (off' - off) w' v.
Proof.
  intros. bits_eq. destruct (Z.ltb_spec i w'); simpl; [|done].
  replace (off <=? i + off') with true by lia.
  replace (i + off' <? off + w) with true by lia. simpl. f_equal. lia.
Qed.

Lemma bounded_by_bits n x :
  0 <= n -> (forall i, n <= i -> Z.testbit x i = false) -> 0 <= x < 2 ^ n.
Proof.
  intros Hn Hb.
  assert (x = wrap n x) as ->.
  { bits_eq. destruct (Z.ltb_spec i n); simpl; [done|]. apply Hb. lia. }
  by apply wrap_range.
Qed.

Lemma testbit_small n x i : 0 <= x < 2 ^ n -> n <= i -> Z.testbit x i = false.
Proof.
  intros Hx Hi. destruct (decide (0 <= n)).
  - rewrite <- (wrap_small n x) by done. rewrite testbit_wrap by lia.
    by replace (i <? n) with false by lia.
  - rewrite Z.pow_neg_r in Hx by lia. lia.
Qed.

Lemma put_field_range off w n x v :
  0 <= off -> 0 <= w -> off + w <= n -> 0 <= x < 2 ^ n ->
  0 <= put_field off w x v < 2 ^ n.
Proof.
  intros. apply bounded_by_bits; [lia|]. intros i Hi.
  rewrite testbit_put_field by lia.
  replace ((off <=? i) && (i <? off + w)) with false by lia.
  by apply (testbit_small n).
Qed.

Lemma get_field_full w x : 0 <= x < 2 ^ w -> get_field 0 w x = x.
Proof. intros. unfold get_field. rewrite Z.shiftr_0_r. by apply wrap_small. Qed.

(** A whole-register write. *)
Lemma put_field_full w x v : 0 <= w -> 0 <= x < 2 ^ w -> put_field 0 w x v = wrap w v.
Proof.
  intros Hw Hx. bits_eq. rewrite Z.sub_0_r, Z.add_0_l.
  replace (0 <=? i) with true by lia.
  destruct (Z.ltb_spec i w); simpl; [done|]. by apply (testbit_small w).
Qed.

(** Joining two halves. *)
Lemma lor_shiftl_add k a b : 0 <= k -> 0 <= a < 2 ^ k -> Z.lor (Z.shiftl b k) a = b * 2 ^ k + a.
Proof.
  intros Hk Ha. rewrite Z.shiftl_mul_pow2 by done. symmetry. apply Z.add_nocarry_lor.
  apply Z.bits_inj'. intros i Hi. rewrite Z.land_spec, Z.bits_0.
  destruct (decide (i < k)).
  - by rewrite Z.mul_pow2_bits_low by lia.
  - by rewrite (testbit_small k a), andb_false_r by (done || lia).
Qed.

(** A 32-bit value is determined by its halves. *)
Lemma halves_eq x y :
  get_field 0 16 x = get_field 0 16 y -> get_field 16 16 x = get_field 16 16 y ->
  get_field 0 32 x = get_field 0 32 y.
Proof.
  intros Hl Hh. bits_eq. rewrite Z.add_0_r. destruct (Z.ltb_spec i 32); simpl; [|done].
  destruct (Z.ltb_spec i 16).
  - apply (f_equal (fun z => Z.testbit z i)) in Hl. rewrite !testbit_get_field in Hl by lia.
    replace (i <? 16) with true in Hl by lia. by rewrite Z.add_0_r in Hl.
  - apply (f_equal (fun z => Z.testbit z (i - 16))) in Hh. rewrite !testbit_get_field in Hh by lia.
    replace (i - 16 <? 16) with true in Hh by lia. by replace (i - 16 + 16) with i in Hh by lia.
Qed.

(** Writing a field twice, and writing back what it holds. *)
Lemma put_put off w x v v' :
  0 <= off -> 0 <= w -> put_field off w (put_field off w x v') v = put_field off w x v.
Proof. intros. bits_eq. by destruct ((off <=? i) && (i <? off + w)). Qed.

Lemma put_get off w x : 0 <= off -> 0 <= w -> put_field off w x (get_field off w x) = x.
Proof.
  intros. bits_eq. destruct (Z.leb_spec off i), (Z.ltb_spec i (off + w)); simpl; try done.
  rewrite testbit_get_field by lia. replace (i - off <? w) with true by lia. simpl. f_equal. lia.
Qed.

#[export] Hint Resolve wrap_range get_field_range : cint.

(** Prove a closed decidable proposition by evaluation. *)
Ltac by_decide := apply (bool_decide_unpack _); vm_compute; exact Logic.I.

(** ** Function updates *)

Section updates.
Context {A B : Type} `{EqDecision A}.
Implicit Types (f : A -> B).

Lemma fn_insert_insert a x y f : <[a := x]> (<[a := y]> f) = <[a := x]> f.
Proof.
  extensionality b. destruct (decide (a = b)) as [<-|].
  - by rewrite !fn_lookup_insert.
  - by rewrite !fn_lookup_insert_ne.
Qed.

Lemma fn_insert_comm a b x y f :
  a <> b -> <[a := x]> (<[b := y]> f) = <[b := y]> (<[a := x]> f).
Proof.
  intros. extensionality c. destruct (decide (a = c)), (decide (b = c)); subst; try done;
    by repeat first [rewrite fn_lookup_insert | rewrite fn_lookup_insert_ne by done].
Qed.

Lemma fn_insert_id a f : <[a := f a]> f = f.
Proof.
  extensionality b. destruct (decide (a = b)) as [<-|].
  - by rewrite fn_lookup_insert.
  - by rewrite fn_lookup_insert_ne.
Qed.
End updates.

(** ** Little-endian memory

    Physical memory is a byte at every address. *)

Fixpoint mem_load (n : nat) (m : Z -> Z) (a : Z) : Z :=
  match n with
  | O => 0
  | S n => m a + 256 * mem_load n m (a + 1)
  end.

Fixpoint mem_store (n : nat) (m : Z -> Z) (a v : Z) : Z -> Z :=
  match n with
  | O => m
  | S n => <[a := v mod 256]> (mem_store n m (a + 1) (v / 256))
  end.

Definition byte_mem (m : Z -> Z) : Prop := forall a, 0 <= m a < 256.

Lemma mem_store_byte_mem n : forall m a v, byte_mem m -> byte_mem (mem_store n m a v).
Proof.
  induction n as [|n IH]; intros m a v Hm; simpl; [done|]. intros b.
  destruct (decide (a = b)) as [<-|].
  - rewrite fn_lookup_insert. apply Z.mod_pos_bound. lia.
  - rewrite fn_lookup_insert_ne by done. by apply IH.
Qed.

Lemma mem_load_range n : forall m a, byte_mem m -> 0 <= mem_load n m a < 2 ^ (8 * Z.of_nat n).
Proof.
  induction n as [|n IH]; intros m a Hm; [simpl; lia|].
  cbn [mem_load]. specialize (IH m (a + 1) Hm). pose proof (Hm a).
  replace (8 * Z.of_nat (S n)) with (8 + 8 * Z.of_nat n) by lia.
  rewrite Z.pow_add_r by lia. change (2 ^ 8) with 256. lia.
Qed.

(** A store changes only the [n] bytes from [a] on. *)
Lemma mem_store_outside n : forall m a v b,
  (b < a \/ a + Z.of_nat n <= b) -> mem_store n m a v b = m b.
Proof.
  induction n as [|n IH]; intros m a v b Hb; [done|].
  cbn [mem_store]. rewrite fn_lookup_insert_ne by lia. apply IH. lia.
Qed.

Lemma mem_load_ext n : forall m m' a,
  (forall b, a <= b < a + Z.of_nat n -> m b = m' b) -> mem_load n m a = mem_load n m' a.
Proof.
  induction n as [|n IH]; intros m m' a H; [done|].
  cbn [mem_load]. rewrite (H a) by lia. f_equal. f_equal. apply IH. intros. apply H. lia.
Qed.

Lemma mem_load_store_same n : forall m a v,
  mem_load n (mem_store n m a v) a = wrap (8 * Z.of_nat n) v.
Proof.
  induction n as [|n IH]; intros m a v.
  - simpl. unfold wrap. simpl. by rewrite Z.mod_1_r.
  - cbn [mem_load mem_store]. rewrite fn_lookup_insert.
    rewrite (mem_load_ext n _ (mem_store n m (a + 1) (v / 256))).
    + rewrite IH. unfold wrap.
      replace (8 * Z.of_nat (S n)) with (8 + 8 * Z.of_nat n) by lia.
      rewrite Z.pow_add_r by lia. change (2 ^ 8) with 256.
      rewrite Z.rem_mul_r; lia.
    + intros b Hb. apply fn_lookup_insert_ne. lia.
Qed.

Lemma mem_load_store_other n k m a b v :
  (b + Z.of_nat n <= a \/ a + Z.of_nat k <= b) ->
  mem_load n (mem_store k m a v) b = mem_load n m b.
Proof. intros. apply mem_load_ext. intros. apply mem_store_outside. lia. Qed.
