(* ===== verification/CMonad.v ===== *)
(** * C statements as state transformers

    A C function that works on a state [S] is a function from [S] to a result:
    [Ok] with a value and the next state; [Undef] when the C code has no defined
    meaning there (an out-of-range index, an uninitialised pointer, a shift by
    the width of the type, a division by zero); [NoFuel] when a loop that the
    language does not bound was cut by the model.

    The file also holds the partial-correctness judgement [spec] used for the
    invariants of a whole component, with its rules in the hint database
    [spec], and the total-correctness judgement [wp]. *)

From S2P Require Import Prelude.
From stdpp Require Import base tactics.
Local Open Scope Z_scope.

Inductive res (A : Type) : Type :=
| Ok (a : A)
| Undef
| NoFuel.
Arguments Ok {A} _.
Arguments Undef {A}.
Arguments NoFuel {A}.

Definition M (S A : Type) : Type := S -> res (A * S).

Definition ret {S A} (a : A) : M S A := fun s => Ok (a, s).
Definition bind {S A B} (m : M S A) (k : A -> M S B) : M S B := fun s =>
  match m s with
  | Ok (a, s') => k a s'
  | Undef => Undef
  | NoFuel => NoFuel
  end.

Declare Scope c_scope.
Delimit Scope c_scope with c.
Notation "x ← y ; z" := (bind y (fun x => z))
  (at level 20, y at level 100, z at level 200, only parsing) : c_scope.
Notation "' x ← y ; z" := (bind y (fun x => z))
  (at level 20, x pattern, y at level 100, z at level 200, only parsing) : c_scope.
Notation "x ;; z" := (bind x (fun _ => z)) : c_scope.
Open Scope c_scope.

Section operations.
Context {S : Type}.

Definition undef {A} : M S A := fun _ => Undef.
Definition no_fuel {A} : M S A := fun _ => NoFuel.
Definition gets {A} (f : S -> A) : M S A := fun s => Ok (f s, s).
Definition modify (f : S -> S) : M S unit := fun s => Ok (tt, f s).

(** Execution goes on only when [b] holds. *)
Definition defined_if (b : bool) : M S unit := if b then ret tt else undef.

Definition of_option {A} (o : option A) : M S A :=
  match o with Some a => ret a | None => undef end.

Definition when (b : bool) (m : M S unit) : M S unit := if b then m else ret tt.

(** [for (i = 0; i < n; i++) body]. *)
Fixpoint repeat_m (n : nat) (body : M S unit) : M S unit :=
  match n with
  | O => ret tt
  | Datatypes.S n => body ;; repeat_m n body
  end.
End operations.

(** ** Evaluation *)

Lemma bind_ok {S A B} (m : M S A) (k : A -> M S B) s a s' :
  m s = Ok (a, s') -> (bind m k) s = k a s'.
Proof. intros H. unfold bind. by rewrite H. Qed.

Lemma bind_inv {S A B} (m : M S A) (k : A -> M S B) s b s' :
  (bind m k) s = Ok (b, s') -> exists a s1, m s = Ok (a, s1) /\ k a s1 = Ok (b, s').
Proof. unfold bind. destruct (m s) as [[a s1]| |]; naive_solver. Qed.

Lemma bind_assoc {S A B C} (m : M S A) (k : A -> M S B) (h : B -> M S C) s :
  (bind (bind m k) h) s = (bind m (fun a => bind (k a) h)) s.
Proof. unfold bind. by destruct (m s) as [[a s1]| |]. Qed.

(** ** Partial correctness

    [spec P m Q]: from a state in [P], if [m] has a defined result then [Q]
    holds of the value and the state reached. *)

Definition spec {S A} (P : S -> Prop) (m : M S A) (Q : A -> S -> Prop) : Prop :=
  forall s a s', P s -> m s = Ok (a, s') -> Q a s'.

(** [m] keeps the invariant [I]. *)
Abbreviation keeps I m := (spec I%function m (fun _ => I%function)) (only parsing).

Section rules.
Context {S : Type}.
Implicit Types P I : S -> Prop.

Lemma spec_bind {A B} P (m : M S A) (k : A -> M S B) Q R :
  spec P m Q -> (forall a, spec (Q a) (k a) R) -> spec P (bind m k) R.
Proof. intros Hm Hk s b s' HP Hb. apply bind_inv in Hb as (a & s1 & ? & ?).
  by eapply Hk; [eapply Hm|]. Qed.

Lemma spec_ret {A} P (a : A) (Q : A -> S -> Prop) :
  (forall s, P s -> Q a s) -> spec P (ret a) Q.
Proof. intros HQ s b s' HP [= <- <-]. by apply HQ. Qed.

Lemma spec_weaken {A} P (m : M S A) (Q Q' : A -> S -> Prop) :
  spec P m Q -> (forall a s, Q a s -> Q' a s) -> spec P m Q'.
Proof. intros Hm HQ s a s' HP Ha. by eapply HQ, Hm. Qed.

Lemma spec_pre {A} P P' (m : M S A) (Q : A -> S -> Prop) :
  (forall s, P' s -> P s) -> spec P m Q -> spec P' m Q.
Proof. intros HP Hm s a s' HP' Ha. eapply Hm; [by apply HP|done]. Qed.

Lemma keeps_bind {A B} I (m : M S A) (k : A -> M S B) :
  keeps I m -> (forall a, keeps I (k a)) -> keeps I (bind m k).
Proof. intros. by eapply spec_bind. Qed.

Lemma keeps_ret {A} I (a : A) : keeps I (ret a).
Proof. by apply spec_ret. Qed.

Lemma keeps_undef {A} P (Q : A -> S -> Prop) : spec P undef Q.
Proof. by intros s a s' HP [=]. Qed.

Lemma keeps_no_fuel {A} P (Q : A -> S -> Prop) : spec P no_fuel Q.
Proof. by intros s a s' HP [=]. Qed.

Lemma keeps_gets {A} I (f : S -> A) : keeps I (gets f).
Proof. by intros s a s' HP [= <- <-]. Qed.

Lemma keeps_modify I f : (forall s, I s -> I (f s)) -> keeps I (modify f).
Proof. intros Hf s a s' HP [= <- <-]. by apply Hf. Qed.

Lemma keeps_if {A} I (b : bool) (m1 m2 : M S A) :
  keeps I m1 -> keeps I m2 -> keeps I (if b then m1 else m2).
Proof. by destruct b. Qed.

Lemma keeps_defined_if I b : keeps I (defined_if b).
Proof. destruct b; [apply keeps_ret|apply keeps_undef]. Qed.

Lemma keeps_when I b m : keeps I m -> keeps I (when b m).
Proof. intros. destruct b; [done|apply keeps_ret]. Qed.

Lemma keeps_of_option {A} I (o : option A) : keeps I (of_option o).
Proof. destruct o; [apply keeps_ret|apply keeps_undef]. Qed.

Lemma keeps_repeat I n body : keeps I body -> keeps I (repeat_m n body).
Proof. intros Hb. induction n; simpl; [apply keeps_ret|by apply keeps_bind]. Qed.
End rules.

Create HintDb spec discriminated.
#[export] Hint Constants Opaque : spec.
#[export] Hint Resolve keeps_ret keeps_undef keeps_no_fuel keeps_gets keeps_defined_if
  keeps_of_option : spec.

(** Split a goal [keeps I m] along the structure of [m] and close the leaves
    with the database. *)
Ltac keeps_step :=
  lazymatch goal with
  | |- spec _ (bind _ _) _ => apply keeps_bind; [|intros]
  | |- spec _ (if _ then _ else _) _ => apply keeps_if
  | |- spec _ (when _ _) _ => apply keeps_when
  | |- spec _ (repeat_m _ _) _ => apply keeps_repeat
  | |- spec _ (match ?x with _ => _ end) _ => destruct x
  | |- forall _, _ => intro
  end.
Ltac keeps_auto := repeat first [ solve [eauto 2 with spec nocore] | progress keeps_step ].

(** Run the monadic code in a goal. *)
Ltac run := unfold bind, ret, gets, modify, defined_if, when, undef, no_fuel.

(** ** Total correctness

    [wp m s Q]: from [s], [m] has a defined result and [Q] holds of it. *)

Definition wp {S A} (m : M S A) (s : S) (Q : A -> S -> Prop) : Prop :=
  exists a s', m s = Ok (a, s') /\ Q a s'.

Section wp_rules.
Context {S : Type}.
Implicit Types s : S.

Lemma wp_bind {A B} (m : M S A) (k : A -> M S B) s (Q : B -> S -> Prop) :
  wp m s (fun a s' => wp (k a) s' Q) -> wp (bind m k) s Q.
Proof. intros (a & s' & Hm & Hk). unfold wp. by rewrite (bind_ok _ _ _ _ _ Hm). Qed.

Lemma wp_bind_assoc {A B C} (m : M S A) (k : A -> M S B) (h : B -> M S C) s (Q : C -> S -> Prop) :
  wp (bind m (fun a => bind (k a) h)) s Q -> wp (bind (bind m k) h) s Q.
Proof. unfold wp. by setoid_rewrite bind_assoc. Qed.

Lemma wp_mono {A} (m : M S A) s (Q Q' : A -> S -> Prop) :
  wp m s Q -> (forall a s', Q a s' -> Q' a s') -> wp m s Q'.
Proof. intros (a & s' & ? & ?) HQ. exists a, s'. auto. Qed.

Lemma wp_ret {A} (a : A) s (Q : A -> S -> Prop) : Q a s -> wp (ret a) s Q.
Proof. intros HQ. by exists a, s. Qed.

Lemma wp_gets {A} (f : S -> A) s (Q : A -> S -> Prop) : Q (f s) s -> wp (gets f) s Q.
Proof. intros HQ. by exists (f s), s. Qed.

Lemma wp_modify f s (Q : unit -> S -> Prop) : Q tt (f s) -> wp (modify f) s Q.
Proof. intros HQ. by exists tt, (f s). Qed.

Lemma wp_defined_if b s (Q : unit -> S -> Prop) : b = true -> Q tt s -> wp (defined_if b) s Q.
Proof. intros -> HQ. by apply wp_ret. Qed.

Lemma wp_of_option {A} (a : A) s (Q : A -> S -> Prop) : Q a s -> wp (of_option (Some a)) s Q.
Proof. apply wp_ret. Qed.
End wp_rules.

(** ** Partial correctness from one state

    [wlp m s Q]: from [s], if [m] has a defined result then [Q] holds of it. *)

Definition wlp {S A} (m : M S A) (s : S) (Q : A -> S -> Prop) : Prop :=
  forall a s', m s = Ok (a, s') -> Q a s'.

Section wlp_rules.
Context {S : Type}.
Implicit Types s : S.

Lemma wlp_bind {A B} (m : M S A) (k : A -> M S B) s (Q : B -> S -> Prop) :
  wlp m s (fun a s' => wlp (k a) s' Q) -> wlp (bind m k) s Q.
Proof. intros Hm b s' (a & s1 & Ha & Hb)%bind_inv. by apply (Hm a s1). Qed.

Lemma wlp_bind_assoc {A B C} (m : M S A) (k : A -> M S B) (h : B -> M S C) s (Q : C -> S -> Prop) :
  wlp (bind m (fun a => bind (k a) h)) s Q -> wlp (bind (bind m k) h) s Q.
Proof. unfold wlp. by setoid_rewrite bind_assoc. Qed.

Lemma wlp_mono {A} (m : M S A) s (Q Q' : A -> S -> Prop) :
  wlp m s Q -> (forall a s', Q a s' -> Q' a s') -> wlp m s Q'.
Proof. intros Hm HQ a s' Ha. by apply HQ, Hm. Qed.

Lemma wlp_ret {A} (a : A) s (Q : A -> S -> Prop) : Q a s -> wlp (ret a) s Q.
Proof. by intros HQ b s' [= <- <-]. Qed.

Lemma wlp_gets {A} (f : S -> A) s (Q : A -> S -> Prop) : Q (f s) s -> wlp (gets f) s Q.
Proof. by intros HQ b s' [= <- <-]. Qed.

Lemma wlp_modify f s (Q : unit -> S -> Prop) : Q tt (f s) -> wlp (modify f) s Q.
Proof. by intros HQ b s' [= <- <-]. Qed.

Lemma wlp_undef {A} s (Q : A -> S -> Prop) : wlp undef s Q.
Proof. by intros b s' [=]. Qed.

Lemma wlp_defined_if b s (Q : unit -> S -> Prop) : (b = true -> Q tt s) -> wlp (defined_if b) s Q.
Proof. intros HQ. destruct b; [by apply wlp_ret, HQ|apply wlp_undef]. Qed.

Lemma wlp_of_option {A} (o : option A) s (Q : A -> S -> Prop) :
  (forall a, o = Some a -> Q a s) -> wlp (of_option o) s Q.
Proof. intros HQ. destruct o; [by apply wlp_ret, HQ|apply wlp_undef]. Qed.
End wlp_rules.
