(* ===== verification/CArray.v ===== *)
(** * Arrays and blocks of memory in C

    An array that the code only reads is the list of its accessible elements.
    A block the code fills is a [buffer]: its cells are [None] until they are
    written.  Reading or writing outside of either is undefined, as is reading
    a cell that was never written. *)

From stdpp Require Import base tactics list numbers.
From S2P Require Import Prelude CMonad.
Local Open Scope Z_scope.

(** [text[i]]. *)
Definition elem {S} (text : list Z) (i : Z) : M S Z :=
  if i <? 0 then undef else of_option (text !! Z.to_nat i).

(** The [n] elements from [i] on. *)
Definition slice {S} (text : list Z) (i n : Z) : M S (list Z) :=
  defined_if ((0 <=? i) && (0 <=? n) && (i + n <=? Z.of_nat (length text))) ;;
  ret (take (Z.to_nat n) (drop (Z.to_nat i) text)).

Definition buffer : Type := list (option Z).

(** [q[0] = v] through a pointer to cell [i]. *)
Definition poke (i : nat) (v : Z) : M buffer unit :=
  n ← gets length ; defined_if (i <? n)%nat ;; modify <[i := Some v]>.

Fixpoint poke_all (q : nat) (vs : list Z) : M buffer nat :=
  match vs with
  | [] => ret q
  | v :: vs => poke q v ;; poke_all (q + 1) vs
  end.

(** [memcpy(q, p, n)] and [memset(q, v, n)]: [q] is cell [off]; the range may end
    with the block. *)
Definition memcpy_to (off : Z) (vs : list Z) : M buffer unit :=
  n ← gets length ;
  defined_if ((0 <=? off) && (off + Z.of_nat (length vs) <=? Z.of_nat n)) ;;
  modify (fun b => take (Z.to_nat off) b ++ map Some vs ++ drop (Z.to_nat off + length vs) b).
Definition memset_at (off v n : Z) : M buffer unit :=
  defined_if (0 <=? n) ;; memcpy_to off (replicate (Z.to_nat n) v).

(** All cells of a block, when each of them has been written. *)
Definition whole : M buffer (list Z) := b ← gets (mapM id) ; of_option b.

(** Work on a block of [n] cells fresh from [kmalloc], or a local array, and keep
    its contents. *)
Definition with_block {S A} (n : nat) (m : M buffer A) : M S (A * buffer) := fun s =>
  match m (replicate n None) with
  | Ok r => Ok (r, s)
  | Undef => Undef
  | NoFuel => NoFuel
  end.

(** ** Rules *)

Lemma elem_nat {S} (l : list Z) n (s : S) : elem l (Z.of_nat n) s = of_option (l !! n) s.
Proof.
  unfold elem. destruct (Z.ltb_spec (Z.of_nat n) 0); [lia|]. by rewrite Nat2Z.id.
Qed.

Lemma poke_ok (a : buffer) (x : option Z) (b : buffer) i v :
  i = length a -> poke i v (a ++ x :: b) = Ok (tt, a ++ Some v :: b).
Proof.
  intros ->. unfold poke. run. rewrite length_app. simpl.
  replace (length a <? length a + S (length b))%nat with true by (symmetry; apply Nat.ltb_lt; lia).
  simpl. by rewrite insert_app_r_alt, Nat.sub_diag by lia.
Qed.

Lemma poke_out i v (b : buffer) : (length b <= i)%nat -> poke i v b = Undef.
Proof.
  intros. unfold poke. run. by replace (i <? length b)%nat with false by (symmetry; apply Nat.ltb_ge; lia).
Qed.

(** A run of stores that fits. *)
Lemma poke_all_ok vs : forall (a b : buffer) q,
  q = length a -> (length vs <= length b)%nat ->
  poke_all q vs (a ++ b) =
    Ok ((q + length vs)%nat, a ++ map Some vs ++ drop (length vs) b).
Proof.
  induction vs as [|v vs IH]; intros a b q -> Hb; simpl in *.
  - run. by rewrite Nat.add_0_r, drop_0.
  - destruct b as [|x b]; simpl in *; [lia|].
    rewrite (bind_ok _ _ _ _ _ (poke_ok a x b _ v eq_refl)).
    rewrite (cons_middle _ a b), app_assoc.
    rewrite (IH _ b (length a + 1)%nat) by (rewrite ?length_app; simpl; lia).
    rewrite <- app_assoc. simpl. do 2 f_equal. lia.
Qed.

Lemma slice_ok {S} l i n (s : S) : 0 <= i -> 0 <= n -> i + n <= Z.of_nat (length l) ->
  slice l i n s = Ok (take (Z.to_nat n) (drop (Z.to_nat i) l), s).
Proof.
  intros. unfold slice. run.
  by rewrite (proj2 (Z.leb_le 0 i)), (proj2 (Z.leb_le 0 n)), (proj2 (Z.leb_le (i + n) _)) by lia.
Qed.

Lemma memcpy_to_ok (a b c : buffer) off vs :
  off = Z.of_nat (length a) -> length b = length vs ->
  memcpy_to off vs (a ++ b ++ c) = Ok (tt, a ++ map Some vs ++ c).
Proof.
  intros -> Hb. unfold buffer in *. unfold memcpy_to. run. rewrite !length_app.
  rewrite (proj2 (andb_true_iff _ _)) by (split; apply Z.leb_le; lia).
  unfold ret. rewrite Nat2Z.id, (take_app_length a), <- Hb. do 4 f_equal.
  by rewrite app_assoc, drop_app_length' by (by rewrite length_app).
Qed.

Lemma memset_at_ok (a b c : buffer) off v n :
  off = Z.of_nat (length a) -> Z.of_nat (length b) = n ->
  memset_at off v n (a ++ b ++ c) = Ok (tt, a ++ replicate (length b) (Some v) ++ c).
Proof.
  intros Ho <-. unfold memset_at. run.
  rewrite (proj2 (Z.leb_le 0 _)) by lia.
  unfold ret. rewrite memcpy_to_ok; [|done|by rewrite length_replicate, Nat2Z.id].
  do 4 f_equal. rewrite Nat2Z.id. apply (fmap_replicate Some).
Qed.

Lemma memset_at_out (b : buffer) off v n :
  0 <= n -> Z.of_nat (length b) < off + n -> memset_at off v n b = Undef.
Proof.
  intros. unfold memset_at, memcpy_to. run. rewrite (proj2 (Z.leb_le 0 n)) by lia.
  unfold ret. rewrite length_replicate, Z2Nat.id by lia.
  rewrite (proj2 (Z.leb_gt (off + n) _)) by lia. by rewrite andb_false_r.
Qed.

Lemma whole_ok vs : whole (map Some vs) = Ok (vs, map Some vs).
Proof.
  unfold whole. run. assert (mapM id (map Some vs) = Some vs) as ->; [|done].
  induction vs as [|v vs IH]; [done|]. cbn [map mapM]. unfold mbind, option_bind in *. simpl.
  by rewrite IH.
Qed.
