(* ===== verification/Machine.v ===== *)
(** * The state of the BIOS emulator

    src/arch/x86/include/bios_emu/environment.h and the headers of
    src/arch/x86/bios_emu/includes: the CPU state, the pointers the emulator
    keeps into it, the flag, segment, stack and ModRM macros. *)

From S2P Require Import Prelude CMonad.
From stdpp Require Import base tactics list numbers functions.
Local Open Scope Z_scope.
Local Open Scope c_scope.

(** ** Exceptions (exceptions.h) *)
Inductive BiosEmuExceptions :=
| DivideError | DebugException | NMIInterrupt | Breakpoint | Overflow
| BOUNDRangeExceeded | InvalidOpcode | DeviceNotAvailable | DoubleFault
| _Reserved1 | _InvalidTSS | _SegmentNotPresent | StackFault | GeneralProtection
| _PageFault | _Reserved2 | FloatPointError | _AlignmentCheck | MachineCheck
| NoException | EventInterruptDone | EventHalted.

#[global] Instance BiosEmuExceptions_eq_dec : EqDecision BiosEmuExceptions.
Proof. solve_decision. Defined.

(** ** Registers

    The [regs] structure is sixteen 32-bit cells; the unions give the low half
    and, for the four general registers, its two bytes. *)
Inductive reg :=
| EAX | EBX | ECX | EDX | ESI | EDI | EBP | ESP | EFLAGS | EIP
| CS | DS | ES | FS | GS | SS.

#[global] Instance reg_eq_dec : EqDecision reg.
Proof. solve_decision. Defined.

Inductive width := W8 | W16 | W32.

Definition bits (w : width) : Z := match w with W8 => 8 | W16 => 16 | W32 => 32 end.
Definition bytes (w : width) : nat := match w with W8 => 1 | W16 => 2 | W32 => 4 end.

(** What the port instructions did: the hardware behind the ports is not part
    of the program, so a port read is answered by [port_in] below. *)
Inductive io_event :=
| PortIn (w : width) (port value : Z)
| PortOut (w : width) (port value : Z)
| HostCli
| HostSti.

Inductive stop_cond := IntDone.

(** [BiosEmuEnvironment] with the memory it works on.  [default_ss] points into
    [regs]; the register lookup tables never change after [bios_emu_init] and
    are the functions [reg_lut_r8], [reg_lut_r16], [reg_lut_r32] below. *)
Record env := Env {
  regs : reg -> Z;
  mem : Z -> Z;
  cur_ip : Z;
  stack_bottom : Z;
  ivt : Z;
  f_repeat : bool;
  f_rep_e_ne : bool;
  f_stack_size : bool;
  f_operand_size : bool;
  f_default_operand_size : bool;
  f_address_size : bool;
  f_default_address_size : bool;
  default_ss : reg;
  stop_condition : stop_cond;
  int_entry_stack : Z;
  io : list io_event
}.

Definition upd_regs (f : (reg -> Z) -> reg -> Z) (e : env) : env :=
  Env (f (regs e)) (mem e) (cur_ip e) (stack_bottom e) (ivt e) (f_repeat e) (f_rep_e_ne e)
    (f_stack_size e) (f_operand_size e) (f_default_operand_size e) (f_address_size e)
    (f_default_address_size e) (default_ss e) (stop_condition e) (int_entry_stack e) (io e).
Definition upd_mem (f : (Z -> Z) -> Z -> Z) (e : env) : env :=
  Env (regs e) (f (mem e)) (cur_ip e) (stack_bottom e) (ivt e) (f_repeat e) (f_rep_e_ne e)
    (f_stack_size e) (f_operand_size e) (f_default_operand_size e) (f_address_size e)
    (f_default_address_size e) (default_ss e) (stop_condition e) (int_entry_stack e) (io e).
Definition upd_cur_ip (f : Z -> Z) (e : env) : env :=
  Env (regs e) (mem e) (u64 (f (cur_ip e))) (stack_bottom e) (ivt e) (f_repeat e)
    (f_rep_e_ne e) (f_stack_size e) (f_operand_size e) (f_default_operand_size e)
    (f_address_size e) (f_default_address_size e) (default_ss e) (stop_condition e)
    (int_entry_stack e) (io e).
Definition set_stack_bottom (v : Z) (e : env) : env :=
  Env (regs e) (mem e) (cur_ip e) (u32 v) (ivt e) (f_repeat e) (f_rep_e_ne e)
    (f_stack_size e) (f_operand_size e) (f_default_operand_size e) (f_address_size e)
    (f_default_address_size e) (default_ss e) (stop_condition e) (int_entry_stack e) (io e).
Definition set_ivt (v : Z) (e : env) : env :=
  Env (regs e) (mem e) (cur_ip e) (stack_bottom e) v (f_repeat e) (f_rep_e_ne e)
    (f_stack_size e) (f_operand_size e) (f_default_operand_size e) (f_address_size e)
    (f_default_address_size e) (default_ss e) (stop_condition e) (int_entry_stack e) (io e).
Definition set_repeat (v : bool) (e : env) : env :=
  Env (regs e) (mem e) (cur_ip e) (stack_bottom e) (ivt e) v (f_rep_e_ne e) (f_stack_size e)
    (f_operand_size e) (f_default_operand_size e) (f_address_size e)
    (f_default_address_size e) (default_ss e) (stop_condition e) (int_entry_stack e) (io e).
Definition set_rep_e_ne (v : bool) (e : env) : env :=
  Env (regs e) (mem e) (cur_ip e) (stack_bottom e) (ivt e) (f_repeat e) v (f_stack_size e)
    (f_operand_size e) (f_default_operand_size e) (f_address_size e)
    (f_default_address_size e) (default_ss e) (stop_condition e) (int_entry_stack e) (io e).
Definition set_stack_size (v : bool) (e : env) : env :=
  Env (regs e) (mem e) (cur_ip e) (stack_bottom e) (ivt e) (f_repeat e) (f_rep_e_ne e) v
    (f_operand_size e) (f_default_operand_size e) (f_address_size e)
    (f_default_address_size e) (default_ss e) (stop_condition e) (int_entry_stack e) (io e).
Definition set_operand_size (v : bool) (e : env) : env :=
  Env (regs e) (mem e) (cur_ip e) (stack_bottom e) (ivt e) (f_repeat e) (f_rep_e_ne e)
    (f_stack_size e) v (f_default_operand_size e) (f_address_size e)
    (f_default_address_size e) (default_ss e) (stop_condition e) (int_entry_stack e) (io e).
Definition set_default_operand_size (v : bool) (e : env) : env :=
  Env (regs e) (mem e) (cur_ip e) (stack_bottom e) (ivt e) (f_repeat e) (f_rep_e_ne e)
    (f_stack_size e) (f_operand_size e) v (f_address_size e) (f_default_address_size e)
    (default_ss e) (stop_condition e) (int_entry_stack e) (io e).
Definition set_address_size (v : bool) (e : env) : env :=
  Env (regs e) (mem e) (cur_ip e) (stack_bottom e) (ivt e) (f_repeat e) (f_rep_e_ne e)
    (f_stack_size e) (f_operand_size e) (f_default_operand_size e) v
    (f_default_address_size e) (default_ss e) (stop_condition e) (int_entry_stack e) (io e).
Definition set_default_address_size (v : bool) (e : env) : env :=
  Env (regs e) (mem e) (cur_ip e) (stack_bottom e) (ivt e) (f_repeat e) (f_rep_e_ne e)
    (f_stack_size e) (f_operand_size e) (f_default_operand_size e) (f_address_size e) v
    (default_ss e) (stop_condition e) (int_entry_stack e) (io e).
Definition set_default_ss (v : reg) (e : env) : env :=
  Env (regs e) (mem e) (cur_ip e) (stack_bottom e) (ivt e) (f_repeat e) (f_rep_e_ne e)
    (f_stack_size e) (f_operand_size e) (f_default_operand_size e) (f_address_size e)
    (f_default_address_size e) v (stop_condition e) (int_entry_stack e) (io e).
Definition set_stop_condition (v : stop_cond) (e : env) : env :=
  Env (regs e) (mem e) (cur_ip e) (stack_bottom e) (ivt e) (f_repeat e) (f_rep_e_ne e)
    (f_stack_size e) (f_operand_size e) (f_default_operand_size e) (f_address_size e)
    (f_default_address_size e) (default_ss e) v (int_entry_stack e) (io e).
Definition set_int_entry_stack (v : Z) (e : env) : env :=
  Env (regs e) (mem e) (cur_ip e) (stack_bottom e) (ivt e) (f_repeat e) (f_rep_e_ne e)
    (f_stack_size e) (f_operand_size e) (f_default_operand_size e) (f_address_size e)
    (f_default_address_size e) (default_ss e) (stop_condition e) v (io e).
Definition log_io (ev : io_event) (e : env) : env :=
  Env (regs e) (mem e) (cur_ip e) (stack_bottom e) (ivt e) (f_repeat e) (f_rep_e_ne e)
    (f_stack_size e) (f_operand_size e) (f_default_operand_size e) (f_address_size e)
    (f_default_address_size e) (default_ss e) (stop_condition e) (int_entry_stack e)
    (ev :: (io e)).

Abbreviation E := (M env).

(** ** Pointers

    A [void *] of the emulator points into [regs] ([LReg], with a byte
    offset), into emulated memory ([LMem]) or to a local of the calling
    function ([LTmp], whose value is all a callee reads through it). *)
Inductive loc :=
| LReg (r : reg) (off : Z)
| LMem (a : Z)
| LTmp (v : Z).

Definition loc_add (l : loc) (d : Z) : loc :=
  match l with
  | LReg r off => LReg r (off + d)
  | LMem a => LMem (u64 (a + d))
  | LTmp v => LTmp (Z.shiftr v (8 * d))
  end.

(** An access through a register pointer stays inside the 32-bit cell. *)
Definition reg_access_ok (w : width) (off : Z) : bool :=
  (0 <=? off) && (off + Z.of_nat (bytes w) <=? 4).

Definition load (w : width) (l : loc) : E Z :=
  match l with
  | LReg r off =>
      defined_if (reg_access_ok w off) ;;
      gets (fun e => get_field (8 * off) (bits w) (regs e r))
  | LMem a => gets (fun e => mem_load (bytes w) (mem e) a)
  | LTmp v => ret (wrap (bits w) v)
  end.

Definition put_reg (w : width) (r : reg) (off v : Z) (e : env) : env :=
  upd_regs (fun f => <[r := put_field (8 * off) (bits w) (f r) v]> f) e.

Definition put_mem (w : width) (a v : Z) (e : env) : env :=
  upd_mem (fun m => mem_store (bytes w) m a v) e.

Definition store (w : width) (l : loc) (v : Z) : E unit :=
  match l with
  | LReg r off => defined_if (reg_access_ok w off) ;; modify (put_reg w r off v)
  | LMem a => modify (put_mem w a v)
  | LTmp _ => ret tt
  end.

(** Named parts of the registers, as in [env->regs.al], [.ah], [.ax], [.eax]. *)
Definition lo (r : reg) : loc := LReg r 0.
Definition hi (r : reg) : loc := LReg r 1.
Definition reg_val (w : width) (r : reg) (e : env) : Z := get_field 0 (bits w) (regs e r).

Definition get8 (r : reg) : E Z := load W8 (lo r).
Definition get8h (r : reg) : E Z := load W8 (hi r).
Definition get16 (r : reg) : E Z := load W16 (lo r).
Definition get32 (r : reg) : E Z := load W32 (lo r).
Definition set8 (r : reg) (v : Z) : E unit := store W8 (lo r) v.
Definition set8h (r : reg) (v : Z) : E unit := store W8 (hi r) v.
Definition set16 (r : reg) (v : Z) : E unit := store W16 (lo r) v.
Definition set32 (r : reg) (v : Z) : E unit := store W32 (lo r) v.

(** [env->flags.operand_size] and the other mode bits. *)
Definition operand_size : E bool := gets f_operand_size.
Definition address_size : E bool := gets f_address_size.
Definition stack_size : E bool := gets f_stack_size.

(** The register lookup tables filled by [bios_emu_init]; an index outside the
    eight entries is outside the array. *)
Definition reg_lut_r8 (i : Z) : option loc :=
  match i with
  | 0 => Some (lo EAX) | 1 => Some (lo ECX) | 2 => Some (lo EDX) | 3 => Some (lo EBX)
  | 4 => Some (hi EAX) | 5 => Some (hi ECX) | 6 => Some (hi EDX) | 7 => Some (hi EBX)
  | _ => None
  end.
Definition reg_lut_r16 (i : Z) : option loc :=
  match i with
  | 0 => Some (lo EAX) | 1 => Some (lo ECX) | 2 => Some (lo EDX) | 3 => Some (lo EBX)
  | 4 => Some (lo ESP) | 5 => Some (lo EBP) | 6 => Some (lo ESI) | 7 => Some (lo EDI)
  | _ => None
  end.
Definition reg_lut_r32 (i : Z) : option loc :=
  match i with
  | 0 => Some (lo EAX) | 1 => Some (lo ECX) | 2 => Some (lo EDX) | 3 => Some (lo EBX)
  | 4 => Some (lo ESP) | 5 => Some (lo EBP) | 6 => Some (lo ESI) | 7 => Some (lo EDI)
  | _ => None
  end.
Definition reg_lut (w : width) (i : Z) : E loc :=
  of_option (match w with
               | W8 => reg_lut_r8 i | W16 => reg_lut_r16 i | W32 => reg_lut_r32 i
               end).

(** ** Flags (flags.h) *)
Definition CarryFlagBit : Z := 0.
Definition ParityFlagBit : Z := 2.
Definition AuxiliaryCarryFlagBit : Z := 4.
Definition ZeroFlagBit : Z := 6.
Definition SignFlagBit : Z := 7.
Definition TrapFlagBit : Z := 8.
Definition InterruptEnableFlagBit : Z := 9.
Definition DirectionFlagBit : Z := 10.
Definition OverflowFlagBit : Z := 11.
Definition AlignmentCheckFlagBit : Z := 18.

(** The 16-bit [env->regs.flags]. *)
Definition flags : E Z := get16 EFLAGS.
Definition set_flags (v : Z) : E unit := set16 EFLAGS v.

(** [env->regs.flags & BIT(bit)] used as a condition. *)
Definition flag_set (bit : Z) : E bool :=
  fl ← flags; ret (truth (Z.land fl (BIT bit))).

Definition flag_or (mask : Z) : E unit := fl ← flags; set_flags (Z.lor fl mask).
Definition flag_clear (mask : Z) : E unit := fl ← flags; set_flags (Z.land fl (Z.lnot mask)).

Definition SET_FLAG (x : bool) (bit : Z) : E unit :=
  if x then flag_or (BIT bit) else flag_clear (BIT bit).
Definition SET_CARRY_FLAG (x : bool) : E unit := SET_FLAG x CarryFlagBit.
Definition SET_OVERFLOW_FLAG (x : bool) : E unit := SET_FLAG x OverflowFlagBit.
Definition SET_SIGN_FLAG (x : bool) : E unit := SET_FLAG x SignFlagBit.
(** [SIGN_FLAG8], [SIGN_FLAG16], [SIGN_FLAG32]. *)
Definition SIGN_FLAG (w : width) (x : Z) : E unit :=
  SET_SIGN_FLAG (truth (Z.shiftr x (bits w - 1))).

(** ** The instruction pointer

    [cur_ip] is the host address of the next byte, [eip] the emulated
    register; the C code advances them separately. *)
Definition peek (w : width) : E Z := ip ← gets cur_ip; load w (LMem ip).
Definition inc_cur_ip (n : Z) : E unit := modify (upd_cur_ip (fun ip => ip + n)).
Definition inc_eip (n : Z) : E unit := v ← get32 EIP; set32 EIP (v + n).
Definition skip (n : Z) : E unit := inc_cur_ip n ;; inc_eip n.
Definition fetch (w : width) : E Z := v ← peek w; skip (Z.of_nat (bytes w)) ;; ret v.

(** [env->regs.eip &= 0xffff]. *)
Definition mask_eip : E unit := v ← get32 EIP; set32 EIP (Z.land v 0xffff).
Definition set_cur_ip (a : Z) : E unit := modify (upd_cur_ip (fun _ => a)).
(** [env->cur_ip = (void * )((env->regs.cs << 4) + env->regs.eip)]. *)
Definition resync_ip : E unit :=
  cs ← get32 CS; ip ← get32 EIP; set_cur_ip (u32 (u32 (Z.shiftl cs 4) + ip)).

(** ** Segments (segment.c) *)
Definition get_segment_base (segment : Z) : Z := u32 (Z.shiftl segment 4).
Definition get_phy_addr (segment addr : Z) : Z := u64 (get_segment_base segment + addr).
(** The return type of all three is [uint8_t]. *)
Definition fetch_data_8 (segment addr : Z) : E Z :=
  v ← load W8 (LMem (get_phy_addr segment addr)); ret (u8 v).
Definition fetch_data_16 (segment addr : Z) : E Z :=
  v ← load W16 (LMem (get_phy_addr segment addr)); ret (u8 v).
Definition fetch_data_32 (segment addr : Z) : E Z :=
  v ← load W32 (LMem (get_phy_addr segment addr)); ret (u8 v).
(** [*env->default_ss]. *)
Definition default_segment : E Z := r ← gets default_ss; get32 r.

(** [GET_REG_POINTER(env, segment, reg)] and [GET_REG_ADDR(env, reg)]. *)
Definition GET_REG_POINTER (segment r : reg) : E loc :=
  os ← operand_size;
  sg ← get32 segment;
  v ← (if os then get32 r else get16 r);
  ret (LMem (get_phy_addr sg v)).
Definition GET_REG_ADDR (r : reg) : loc := lo r.

(** ** The stack (stack.h)

    The pushed expression is evaluated after the stack pointer has moved, and
    the popped value is assigned before it moves. *)
Definition STACK_POINTER16 : E Z :=
  ss ← get32 SS; sp ← get16 ESP; ret (u32 (u32 (Z.shiftl ss 4) + sp)).
Definition STACK_POINTER32 : E Z := get32 ESP.

Definition add_sp (n : Z) : E unit := sp ← get16 ESP; set16 ESP (sp + n).
Definition add_esp (n : Z) : E unit := sp ← get32 ESP; set32 ESP (sp + n).

Definition PUSH16 (data : E Z) (size : width) : E unit :=
  add_sp (- Z.of_nat (bytes size)) ;;
  p ← STACK_POINTER16; v ← data; store size (LMem p) v.
Definition PUSH32 (data : E Z) (size : width) : E unit :=
  add_esp (- Z.of_nat (bytes size)) ;;
  p ← STACK_POINTER32; v ← data; store size (LMem p) v.
Definition POP16 (data : Z -> E unit) (size : width) : E unit :=
  p ← STACK_POINTER16; v ← load size (LMem p); data v ;;
  add_sp (Z.of_nat (bytes size)).
Definition POP32 (data : Z -> E unit) (size : width) : E unit :=
  p ← STACK_POINTER32; v ← load size (LMem p); data v ;;
  add_esp (Z.of_nat (bytes size)).
Definition PUSH (data : E Z) (size : width) : E unit :=
  ss ← stack_size; if ss then PUSH32 data size else PUSH16 data size.
Definition POP (data : Z -> E unit) (size : width) : E unit :=
  ss ← stack_size; if ss then POP32 data size else POP16 data size.
Definition PUSH_SREG (sreg : reg) : E unit :=
  os ← operand_size;
  if os then PUSH (get32 sreg) W32 else PUSH (get32 sreg) W16.
(** The segment registers are [uint32_t]: a 16-bit pop clears the high half. *)
Definition POP_SREG (sreg : reg) : E unit :=
  os ← operand_size;
  if os then POP (set32 sreg) W32 else POP (set32 sreg) W16.

(** ** ModRM addressing (mod_rm.h, mod_rm.c) *)
Definition MOD_BASE : Z := 0.
Definition MOD_BASE_DISP8 : Z := 1.
Definition MOD_BASE_DISP16 : Z := 2.
Definition MOD_BASE_DISP32 : Z := MOD_BASE_DISP16.
Definition MOD_REG : Z := 3.

Definition modrm_mod (modrm : Z) : Z := Z.land (Z.shiftr modrm 6) 3.
Definition modrm_reg (modrm : Z) : Z := Z.land (Z.shiftr modrm 3) 7.
Definition modrm_rm (modrm : Z) : Z := Z.land modrm 7.

(** The first switch of [decode_rm_address_16]; [offset] is a [uint16_t]. *)
Definition rm_base_16 (rm : Z) : E Z :=
  match rm with
  | 0 => bx ← get16 EBX; si ← get16 ESI; ret (u16 (bx + si))
  | 1 => bx ← get16 EBX; di ← get16 EDI; ret (u16 (bx + di))
  | 2 => bp ← get16 EBP; si ← get16 ESI; ret (u16 (bp + si))
  | 3 => bp ← get16 EBP; di ← get16 EDI; ret (u16 (bp + di))
  | 4 => get16 ESI
  | 5 => get16 EDI
  | 6 => get16 EBP
  | 7 => get16 EBX
  | _ => undef
  end.

Definition decode_rm_address_16 (modrm : Z) : E Z :=
  let md := modrm_mod modrm in
  let rm := modrm_rm modrm in
  offset ← rm_base_16 rm;
  if md =? MOD_BASE then
    if rm =? 6 then
      d ← peek W16; skip 2 ;; mask_eip ;; resync_ip ;; ret d
    else if rm =? 7 then get16 EBX
    else ret offset
  else if md =? MOD_BASE_DISP8 then
    d ← peek W8; skip 1 ;; mask_eip ;; resync_ip ;; ret (u16 (offset + s8 d))
  else if md =? MOD_BASE_DISP16 then
    d ← peek W16; skip 2 ;; mask_eip ;; resync_ip ;; ret (u16 (offset + d))
  else ret offset.

(** The first switch of [decode_rm_address_32]: there is no case for 4 (the
    SIB byte), where [offset] keeps its initial 0. *)
Definition rm_base_32 (rm : Z) : E Z :=
  match rm with
  | 0 => get32 EAX
  | 1 => get32 ECX
  | 2 => get32 EDX
  | 3 => get32 EBX
  | 5 => get32 EBP
  | 6 => get32 ESI
  | 7 => get32 EDI
  | _ => ret 0
  end.

Definition decode_rm_address_32 (modrm : Z) : E Z :=
  let md := modrm_mod modrm in
  let rm := modrm_rm modrm in
  offset ← (if md =? MOD_REG then ret 0 else rm_base_32 rm);
  if md =? MOD_BASE then
    if rm =? 5 then d ← peek W32; skip 4 ;; ret d else ret offset
  else if md =? MOD_BASE_DISP8 then
    d ← peek W8; skip 1 ;; ret (u32 (offset + s8 d))
  else if md =? MOD_BASE_DISP32 then
    d ← peek W32; skip 4 ;; ret (u32 (offset + d))
  else ret offset.

Definition decode_rm_address (modrm : Z) : E Z :=
  az ← address_size;
  if az then decode_rm_address_32 modrm else decode_rm_address_16 modrm.

(** The memory arm shared by [RM_ADDR], [RM_ADDR16] and [RM_ADDR32]. *)
Definition RM_MEM (modrm : Z) : E loc :=
  sg ← default_segment;
  off ← decode_rm_address modrm;
  ret (LMem (u64 (get_segment_base sg + off))).

Definition RM_ADDR (modrm : Z) : E loc :=
  if Z.shiftr modrm 6 =? 3 then
    os ← operand_size;
    if os then reg_lut W32 (modrm_rm modrm) else reg_lut W16 (modrm_rm modrm)
  else RM_MEM modrm.
Definition RM_ADDR16 (modrm : Z) : E loc :=
  if Z.shiftr modrm 6 =? 3 then reg_lut W16 (modrm_rm modrm) else RM_MEM modrm.
Definition RM_ADDR32 (modrm : Z) : E loc :=
  if Z.shiftr modrm 6 =? 3 then reg_lut W32 (modrm_rm modrm) else RM_MEM modrm.

(** Selectors 6 and 7 leave the pointer uninitialised. *)
Definition RM_SREG (r : Z) : E loc :=
  match Z.land r 7 with
  | 0 => ret (lo ES)
  | 1 => ret (lo CS)
  | 2 => ret (lo SS)
  | 3 => ret (lo DS)
  | 4 => ret (lo FS)
  | 5 => ret (lo GS)
  | _ => undef
  end.

(** ** Initialisation (bios_emu.c)

    [host_eflags] is what [io_load_eflags] returns.  [ss], the memory and the
    other fields keep their value. *)
Definition bios_emu_init (host_eflags : Z) : E unit :=
  set32 CS 0 ;; set32 DS 0 ;; set32 ES 0 ;; set32 FS 0 ;; set32 GS 0 ;;
  set32 EIP 0 ;; set32 EFLAGS host_eflags ;;
  set32 EAX 0 ;; set32 EBX 0 ;; set32 ECX 0 ;; set32 EDX 0 ;;
  set32 ESI 0 ;; set32 EDI 0 ;; set32 EBP 0 ;; set32 ESP 0x7c00 ;;
  modify (set_default_ss DS) ;;
  modify (set_ivt 0) ;;
  set_cur_ip 0 ;;
  p ← STACK_POINTER16;
  modify (set_stack_bottom (p - 0x2000)) ;;
  modify (set_stack_size false) ;;
  modify (set_operand_size false) ;;
  modify (set_default_operand_size false) ;;
  modify (set_address_size false) ;;
  modify (set_default_address_size false).
