(* ===== verification/Alu.v ===== *)
(** * The arithmetic unit of the BIOS emulator

    src/arch/x86/bios_emu/ops/alu.c.  The source has one copy of each operation
    per operand width; here the width is an argument and a [match] on it marks
    every place where the copies differ.  The integer promotions of C are
    written out: an 8- or 16-bit operand is an [int] inside an expression. *)

From S2P Require Import Prelude CMonad Machine.
From stdpp Require Import base tactics list numbers functions.
Local Open Scope Z_scope.
Local Open Scope c_scope.

Inductive CalcIndex :=
| CALC_ADD | CALC_ADC | CALC_AND | CALC_XOR | CALC_OR | CALC_SUB | CALC_SBB
| CALC_CMP | CALC_TEST.

#[global] Instance CalcIndex_eq_dec : EqDecision CalcIndex.
Proof. solve_decision. Defined.

(** ** Flags of a result *)

Definition calc_parity (x : Z) : Z :=
  let x := u8 x in
  let x := Z.lxor x (Z.shiftr x 4) in
  let x := Z.land x 0x0F in
  Z.land (Z.shiftr 0x6996 x) 1.

Definition set_zf_pf (x : Z) : E unit :=
  SET_FLAG (x =? 0) ZeroFlagBit ;;
  SET_FLAG (truth (calc_parity x)) ParityFlagBit.

Definition set_test_flag (x : Z) : E unit :=
  SET_FLAG (x =? 0) ZeroFlagBit ;;
  SET_FLAG (truth (calc_parity x)) ParityFlagBit ;;
  flag_clear (BIT CarryFlagBit) ;;
  flag_clear (BIT OverflowFlagBit).

(** ** The two-operand operations *)

Definition test_op (w : width) (dst : loc) (src : Z) : E unit :=
  d ← load w dst;
  let temp := Z.land d src in
  SIGN_FLAG w temp ;;
  set_test_flag temp.

(** [*dst > ~src]: for 8 and 16 bits [~src] is a negative [int]; for 32 bits it
    is an [unsigned]. *)
Definition add_carry (w : width) (d src : Z) : bool :=
  match w with
  | W8 | W16 => d >? Z.lnot src
  | W32 => d >? u32 (Z.lnot src)
  end.

Definition add_op (w : width) (dst : loc) (src : Z) : E unit :=
  d ← load w dst;
  let ans := wrap (bits w) (d + src) in
  let overflow := 2 ^ bits w <=? d + src in
  SET_CARRY_FLAG (add_carry w d src) ;;
  SET_OVERFLOW_FLAG overflow ;;
  SIGN_FLAG w ans ;;
  set_zf_pf ans ;;
  store w dst ans.

Definition carry_in : E Z := c ← flag_set CarryFlagBit; ret (Z.b2z c).

Definition adc_op (w : width) (dst : loc) (src : Z) : E unit :=
  carry ← carry_in; add_op w dst (wrap (bits w) (src + carry)).

Definition sub_op (w : width) (dst : loc) (src : Z) : E unit :=
  d ← load w dst;
  let ans := wrap (bits w) (d - src) in
  let overflow := d - src <? 0 in
  SET_CARRY_FLAG (d <? src) ;;
  SET_OVERFLOW_FLAG overflow ;;
  SIGN_FLAG w ans ;;
  set_zf_pf ans ;;
  store w dst ans.

Definition sbb_op (w : width) (dst : loc) (src : Z) : E unit :=
  carry ← carry_in; sub_op w dst (wrap (bits w) (src + carry)).

Definition logic_op (f : Z -> Z -> Z) (w : width) (dst : loc) (src : Z) : E unit :=
  d ← load w dst;
  let ans := f d src in
  SIGN_FLAG w ans ;;
  set_test_flag ans ;;
  store w dst ans.
Definition and_op : width -> loc -> Z -> E unit := logic_op Z.land.
Definition xor_op : width -> loc -> Z -> E unit := logic_op Z.lxor.
Definition or_op : width -> loc -> Z -> E unit := logic_op Z.lor.

(** [cmp_8] computes its difference in a [uint16_t] and takes the sign of that. *)
Definition cmp_width (w : width) : width := match w with W8 => W16 | _ => w end.

Definition cmp_op (w : width) (dst : loc) (src : Z) : E unit :=
  d ← load w dst;
  let ans := wrap (bits (cmp_width w)) (d - src) in
  let overflow := d - src <? 0 in
  SET_CARRY_FLAG (d <? src) ;;
  SET_OVERFLOW_FLAG overflow ;;
  SIGN_FLAG (cmp_width w) ans ;;
  set_zf_pf ans.

(** The tables [calc8], [calc16], [calc32]. *)
Definition calc (w : width) (index : CalcIndex) : loc -> Z -> E unit :=
  match index with
  | CALC_ADD => add_op w
  | CALC_ADC => adc_op w
  | CALC_AND => and_op w
  | CALC_XOR => xor_op w
  | CALC_OR => or_op w
  | CALC_SBB => sbb_op w
  | CALC_SUB => sub_op w
  | CALC_CMP => cmp_op w
  | CALC_TEST => test_op w
  end.

(** ** Their addressing forms *)

Definition calc_a_imm8 (index : CalcIndex) : E unit :=
  imm ← fetch W8; calc W8 index (lo EAX) imm.

Definition calc_a_imm (index : CalcIndex) : E unit :=
  os ← operand_size;
  if os then imm ← fetch W32; calc W32 index (lo EAX) imm
  else imm ← fetch W16; calc W16 index (lo EAX) imm.

Definition calc_rm_imm_8 (index : CalcIndex) : E unit :=
  modrm ← fetch W8;
  dst ← RM_ADDR modrm;
  imm ← fetch W8;
  calc W8 index dst imm.

Definition calc_rm_imm (index : CalcIndex) : E unit :=
  modrm ← fetch W8;
  os ← operand_size;
  if os then dst ← RM_ADDR modrm; imm ← fetch W32; calc W32 index dst imm
  else dst ← RM_ADDR modrm; imm ← fetch W16; calc W16 index dst imm.

Definition calc_rm_imm8 (index : CalcIndex) : E unit :=
  modrm ← fetch W8;
  os ← operand_size;
  if os then dst ← RM_ADDR modrm; imm ← fetch W8; calc W32 index dst imm
  else dst ← RM_ADDR modrm; imm ← fetch W8; calc W16 index dst imm.

Definition calc_rm_r_8 (index : CalcIndex) : E unit :=
  modrm ← fetch W8;
  dst ← RM_ADDR modrm;
  src ← reg_lut W8 (modrm_reg modrm);
  v ← load W8 src;
  calc W8 index dst v.

Definition calc_rm_r (index : CalcIndex) : E unit :=
  modrm ← fetch W8;
  os ← operand_size;
  let w := if os : bool then W32 else W16 in
  dst ← RM_ADDR modrm;
  src ← reg_lut w (modrm_reg modrm);
  v ← load w src;
  calc w index dst v.

Definition calc_r_rm_8 (index : CalcIndex) : E unit :=
  modrm ← fetch W8;
  dst ← reg_lut W8 (modrm_reg modrm);
  src ← RM_ADDR modrm;
  v ← load W8 src;
  calc W8 index dst v.

Definition calc_r_rm (index : CalcIndex) : E unit :=
  modrm ← fetch W8;
  os ← operand_size;
  let w := if os : bool then W32 else W16 in
  dst ← reg_lut w (modrm_reg modrm);
  src ← RM_ADDR modrm;
  v ← load w src;
  calc w index dst v.

(** ** INC and DEC

    [__builtin_add_overflow( *dst, 1, dst )] followed by the flag updates. *)
Definition inc_loc (w : width) (dst : loc) : E unit :=
  d ← load w dst;
  store w dst (d + 1) ;;
  SET_OVERFLOW_FLAG (2 ^ bits w <=? d + 1) ;;
  d' ← load w dst;
  set_zf_pf d'.
Definition dec_loc (w : width) (dst : loc) : E unit :=
  d ← load w dst;
  store w dst (d - 1) ;;
  SET_OVERFLOW_FLAG (d - 1 <? 0) ;;
  d' ← load w dst;
  set_zf_pf d'.

(** The 32-bit arm increments twice. *)
Definition decode_inc_r (opcode : Z) : E unit :=
  os ← operand_size;
  if os then
    dst ← reg_lut W32 (Z.land opcode 7);
    d ← load W32 dst; store W32 dst (d + 1) ;;
    inc_loc W32 dst
  else dst ← reg_lut W16 (Z.land opcode 7); inc_loc W16 dst.

Definition decode_dec_r (opcode : Z) : E unit :=
  os ← operand_size;
  if os then dst ← reg_lut W32 (Z.land opcode 7); dec_loc W32 dst
  else dst ← reg_lut W16 (Z.land opcode 7); dec_loc W16 dst.

Definition decode_inc_rm : E unit :=
  modrm ← fetch W8;
  os ← operand_size;
  if Z.shiftr modrm 6 =? 3 then
    if os : bool then dst ← reg_lut W32 (modrm_rm modrm); inc_loc W32 dst
    else dst ← reg_lut W16 (modrm_rm modrm); inc_loc W16 dst
  else
    if os : bool then dst ← RM_ADDR32 modrm; inc_loc W32 dst
    else dst ← RM_ADDR16 modrm; inc_loc W16 dst.

Definition decode_dec_rm : E unit :=
  modrm ← fetch W8;
  os ← operand_size;
  if Z.shiftr modrm 6 =? 3 then
    if os : bool then dst ← reg_lut W32 (modrm_rm modrm); dec_loc W32 dst
    else dst ← reg_lut W16 (modrm_rm modrm); dec_loc W16 dst
  else
    if os : bool then dst ← RM_ADDR32 modrm; dec_loc W32 dst
    else dst ← RM_ADDR16 modrm; dec_loc W16 dst.

Definition decode_inc_rm8 : E unit :=
  modrm ← fetch W8;
  if Z.shiftr modrm 6 =? 3 then dst ← reg_lut W8 (modrm_rm modrm); inc_loc W8 dst
  else dst ← RM_ADDR modrm; inc_loc W8 dst.

Definition decode_dec_rm8 : E unit :=
  modrm ← fetch W8;
  if Z.shiftr modrm 6 =? 3 then dst ← reg_lut W8 (modrm_rm modrm); dec_loc W8 dst
  else dst ← RM_ADDR modrm; dec_loc W8 dst.

(** ** Decimal adjustment *)

Definition decode_aaa : E unit :=
  al ← get8 EAX; af ← flag_set AuxiliaryCarryFlagBit;
  if (al >? 0x9f) || af then
    ax ← get16 EAX; set16 EAX (ax + 0x106) ;;
    SET_FLAG true AuxiliaryCarryFlagBit
  else SET_FLAG false AuxiliaryCarryFlagBit.

(** The flags [decode_aad] and [decode_aam] set from AL. *)
Definition al_flags : E unit :=
  al ← get8 EAX;
  SIGN_FLAG W8 al ;;
  SET_FLAG (al =? 0) ZeroFlagBit ;;
  SET_FLAG (truth (calc_parity al)) ParityFlagBit.

Definition decode_aad : E unit :=
  base ← fetch W8;
  al ← get8 EAX; ah ← get8h EAX;
  set8 EAX (Z.land (al + ah * base) 0xff) ;;
  set8h EAX 0 ;;
  al_flags.

(** Division by a zero base has no defined result. *)
Definition decode_aam : E unit :=
  base ← fetch W8;
  defined_if (negb (base =? 0)) ;;
  al ← get8 EAX;
  set8h EAX (al / base) ;;
  al ← get8 EAX;
  set8 EAX (al mod base) ;;
  al_flags.

Definition decode_aas : E unit :=
  al ← get8 EAX; af ← flag_set AuxiliaryCarryFlagBit;
  if (al >? 0x0f) || af then
    set8 EAX (al - 6) ;;
    ah ← get8h EAX; set8h EAX (ah - 1) ;;
    al ← get8 EAX; set8 EAX (Z.land al 0x0f) ;;
    flag_or (Z.lor (BIT AuxiliaryCarryFlagBit) (BIT CarryFlagBit))
  else
    flag_clear (Z.lor (BIT AuxiliaryCarryFlagBit) (BIT CarryFlagBit)) ;;
    set8 EAX (Z.land al 0x0f).

Definition decode_daa : E unit :=
  old_al ← get8 EAX;
  fl ← flags;
  let old_cf := u8 (Z.land fl (BIT CarryFlagBit)) in
  SET_CARRY_FLAG false ;;
  af ← flag_set AuxiliaryCarryFlagBit;
  (if (Z.land old_al 0x0f >? 9) || af then
     set8 EAX (old_al + 6) ;;
     flag_or (Z.lor old_cf (BIT AuxiliaryCarryFlagBit)) ;;
     SET_CARRY_FLAG (old_al >? u8 (Z.lnot 6))
   else SET_FLAG false AuxiliaryCarryFlagBit) ;;
  al ← get8 EAX;
  if (al >? 0x99) || truth old_cf then
    set8 EAX (al + 0x60) ;; SET_CARRY_FLAG true
  else SET_CARRY_FLAG false.

Definition decode_das : E unit :=
  old_al ← get8 EAX;
  fl ← flags;
  let old_cf := u8 (Z.land fl (BIT CarryFlagBit)) in
  SET_CARRY_FLAG false ;;
  af ← flag_set AuxiliaryCarryFlagBit;
  (if (Z.land old_al 0x0f >? 9) || af then
     set8 EAX (old_al - 6) ;;
     flag_or (Z.lor old_cf (BIT AuxiliaryCarryFlagBit)) ;;
     SET_CARRY_FLAG (old_al <? u8 (- 6))
   else SET_FLAG false AuxiliaryCarryFlagBit) ;;
  al ← get8 EAX;
  when ((al >? 0x99) || truth old_cf)
    (set8 EAX (al - 0x60) ;; SET_CARRY_FLAG true).

(** ** Division *)

(** [div_8] divides AX by AL: the operand is only tested against zero. *)
Definition div_8 (value : Z) : E BiosEmuExceptions :=
  if value =? 0 then ret DivideError else
  dividend ← get16 EAX;
  divisor ← get8 EAX;
  defined_if (negb (divisor =? 0)) ;;
  let temp1 := dividend / divisor in
  let temp2 := dividend mod divisor in
  if temp1 >? 0xff then ret DivideError
  else set8 EAX temp1 ;; set8h EAX temp2 ;; ret NoException.

Definition div_16 (value : Z) : E BiosEmuExceptions :=
  if value =? 0 then ret DivideError else
  dx ← get16 EDX; ax ← get16 EAX;
  let dividend := u32 (Z.lor (Z.shiftl dx 16) ax) in
  let temp1 := dividend / value in
  let temp2 := u16 (dividend mod value) in
  if temp1 >? 0xffff then ret DivideError
  else set16 EAX temp1 ;; set16 EDX temp2 ;; ret NoException.

(** The inner [do ... while] of [div_64_32]: the value of [j] when it stops.
    [b << j] is a 32-bit shift, undefined from 32 on; [n] bounds the number of
    iterations and 33 are enough, since the 33rd shift is undefined. *)
Fixpoint div_scan (n : nat) (a b j : Z) : option Z :=
  match n with
  | O => None
  | S n =>
      if 32 <=? j then None
      else if (u32 (Z.shiftl b j) <? a) && (j + 1 <? 64) then div_scan n a b (j + 1)
      else Some (j + 1)
  end.

(** The outer loop: [n] iterations are left. *)
Fixpoint div_loop (n : nat) (a b ans : Z) : option (Z * Z) :=
  match n with
  | O => Some (ans, a)
  | S n =>
      match div_scan 33 a b 0 with
      | None => None
      | Some j' =>
          let j := j' - 1 in
          if j =? 0 then Some (ans, a)
          else div_loop n (u64 (a - u32 (Z.shiftl b (j - 1)))) b
                 (s32 (Z.lor ans (Z.shiftl 1 (j - 1))))
      end
  end.

(** The quotient is an [int] converted to [uint64_t]. *)
Definition div_64_32 (a b : Z) : option (Z * Z) :=
  if b >? a then Some (0, u32 a)
  else match div_loop 64 a b 0 with
       | Some (ans, a') => Some (u64 ans, u32 a')
       | None => None
       end.

Definition div_32 (value : Z) : E BiosEmuExceptions :=
  if value =? 0 then ret DivideError else
  edx ← get32 EDX; eax ← get32 EAX;
  let dividend := Z.lor (Z.shiftl edx 32) eax in
  qr ← of_option (div_64_32 dividend value);
  let '(temp1, temp2) := qr in
  if temp1 >? 0xffffffff then ret DivideError
  else set32 EAX temp1 ;; set32 EDX temp2 ;; ret NoException.

(** The signed forms divide the unsigned values; [temp1 >> k != -1] compares an
    unsigned value and always holds. *)
Definition idiv_8 (value : Z) : E BiosEmuExceptions :=
  if value =? 0 then ret DivideError else
  dividend ← get16 EAX;
  divisor ← get8 EAX;
  defined_if (negb (divisor =? 0)) ;;
  let temp1 := dividend / divisor in
  let temp2 := dividend mod divisor in
  if truth (Z.shiftr temp1 7) then ret DivideError
  else set8 EAX temp1 ;; set8h EAX temp2 ;; ret NoException.

Definition idiv_16 (value : Z) : E BiosEmuExceptions :=
  if value =? 0 then ret DivideError else
  dx ← get16 EDX; ax ← get16 EAX;
  let dividend := u32 (Z.lor (Z.shiftl dx 16) ax) in
  let temp1 := dividend / value in
  let temp2 := u16 (dividend mod value) in
  if truth (Z.shiftr temp1 15) then ret DivideError
  else set16 EAX temp1 ;; set16 EDX temp2 ;; ret NoException.

Definition idiv_32 (value : Z) : E BiosEmuExceptions :=
  if value =? 0 then ret DivideError else
  edx ← get32 EDX; eax ← get32 EAX;
  let dividend := Z.lor (Z.shiftl edx 32) eax in
  qr ← of_option (div_64_32 dividend value);
  let '(temp1, temp2) := qr in
  if truth (Z.shiftr temp1 31) then ret DivideError
  else set32 EAX temp1 ;; set32 EDX temp2 ;; ret NoException.

(** ** Multiplication *)

Definition mul_8 (value : Z) : E unit :=
  al ← get8 EAX;
  let ans := u16 (al * value) in
  set16 EAX ans ;;
  SET_OVERFLOW_FLAG (truth (Z.shiftr ans 8)).

(** The factors are promoted to [int], whose product may overflow. *)
Definition mul_16 (value : Z) : E unit :=
  ax ← get16 EAX;
  defined_if (ax * value <? 2 ^ 31) ;;
  let ans := u32 (ax * value) in
  set16 EAX (Z.land ans 0xffff) ;;
  set16 EDX (Z.shiftr ans 16) ;;
  SET_OVERFLOW_FLAG (truth (Z.shiftr ans 16)).

(** The product is taken in [uint32_t] and stored through the 16-bit names. *)
Definition mul_32 (value : Z) : E unit :=
  eax ← get32 EAX;
  let ans := u32 (eax * value) in
  set16 EAX (Z.land ans 0xffffffff) ;;
  set16 EDX (Z.shiftr ans 32) ;;
  SET_OVERFLOW_FLAG (truth (Z.shiftr ans 32)).

Definition imul_8 (value : Z) : E unit :=
  al ← get8 EAX;
  let ans := s16 (s8 al * s8 value) in
  set16 EAX ans ;;
  SET_OVERFLOW_FLAG (negb (Z.shiftr ans 7 =? 0) && negb (Z.shiftr ans 7 =? -1)).

Definition imul_16 (dst_hi dst_lo : loc) (src1 src2 : Z) : E unit :=
  let ans := s32 (s16 src1 * s16 src2) in
  store W16 dst_hi (Z.shiftr ans 16) ;;
  store W16 dst_lo (Z.land ans 0xffff) ;;
  SET_OVERFLOW_FLAG (negb (Z.shiftr ans 15 =? 0) && negb (Z.shiftr ans 15 =? -1)).

Definition imul_32 (dst_hi dst_lo : loc) (src1 src2 : Z) : E unit :=
  let ans := s64 (s32 src1 * s32 src2) in
  store W32 dst_hi (Z.shiftr ans 32) ;;
  store W32 dst_lo (Z.land ans 0xffffffff) ;;
  SET_OVERFLOW_FLAG (negb (Z.shiftr ans 31 =? 0) && negb (Z.shiftr ans 31 =? -1)).

(** The immediate is read before [RM_ADDR] consumes a displacement. *)
Definition decode_imul_r_rm_imm8 : E unit :=
  modrm ← fetch W8;
  imm ← fetch W8;
  os ← operand_size;
  if os then
    dst ← reg_lut W32 (modrm_reg modrm);
    value ← RM_ADDR modrm; v ← load W32 value;
    imul_32 (LTmp 0) dst v imm
  else
    dst ← reg_lut W16 (modrm_reg modrm);
    value ← RM_ADDR modrm; v ← load W16 value;
    imul_16 (LTmp 0) dst v imm.

Definition decode_imul_r_rm_imm16 : E unit :=
  modrm ← fetch W8;
  os ← operand_size;
  if os then
    dst ← reg_lut W32 (modrm_reg modrm);
    value ← RM_ADDR modrm;
    imm ← fetch W32;
    v ← load W32 value;
    imul_32 (LTmp 0) dst v imm
  else
    dst ← reg_lut W16 (modrm_reg modrm);
    value ← RM_ADDR modrm;
    imm ← fetch W16;
    v ← load W16 value;
    imul_16 (LTmp 0) dst v imm.

Definition decode_imul_r_rm : E unit :=
  modrm ← fetch W8;
  os ← operand_size;
  if os then
    dst ← reg_lut W32 (modrm_reg modrm);
    value ← RM_ADDR modrm;
    d ← load W32 dst; v ← load W32 value;
    imul_32 (LTmp 0) dst d v
  else
    dst ← reg_lut W16 (modrm_reg modrm);
    value ← RM_ADDR modrm;
    d ← load W16 dst; v ← load W16 value;
    imul_16 (LTmp 0) dst d v.

(** [neg_8], [neg_16], [neg_32]; the negative of the smallest [int] is undefined. *)
Definition neg_op (w : width) (value : loc) : E unit :=
  v ← load w value;
  defined_if (match w with W32 => negb (v =? 2 ^ 31) | _ => true end) ;;
  let ans := sext (bits w) (0 - v) in
  SET_CARRY_FLAG (ans =? 0) ;;
  store w value ans.

(** ** Rotates and shifts

    A shift of a 32-bit operand by 32 is undefined; 8- and 16-bit operands are
    promoted to [int] and have room. *)
Definition shift_ok (w : width) (c : Z) : bool :=
  match w with W32 => c <? 32 | _ => true end.

Definition rotate_count (w : width) (count : Z) : Z := Z.land count 0x1f mod (bits w + 1).
(** [rol_32] and [ror_32] reduce the count modulo 17. *)
Definition rol_count (w : width) (count : Z) : Z :=
  match w with W32 => Z.land count 0x1f mod 17 | _ => rotate_count w count end.

(** [rcl_16] and [rcl_32] keep only the low byte of the shifted operand. *)
Definition rcl_shifted (w : width) (v tc : Z) : Z :=
  match w with
  | W8 => Z.shiftl v tc
  | W16 | W32 => Z.land (Z.shiftl v tc) 0xff
  end.

Definition rcl_op (w : width) (value : loc) (count : Z) : E unit :=
  let tc := rotate_count w count in
  if tc =? 0 then ret tt else
  fl ← flags;
  v ← load w value;
  let old_carry := Z.land (Z.shiftr fl CarryFlagBit) 1 in
  let new_carry := Z.land (Z.shiftr v (bits w - tc)) 1 in
  let ans := wrap (bits w) (Z.lor (rcl_shifted w v tc) (Z.shiftl old_carry (tc - 1))) in
  defined_if (shift_ok w (bits w - tc + 1)) ;;
  let ans := wrap (bits w) (Z.lor ans (Z.shiftr v (bits w - tc + 1))) in
  SET_CARRY_FLAG (truth new_carry) ;;
  when (Z.land count 0x1f =? 1)
    (SET_OVERFLOW_FLAG (truth (Z.lxor (Z.shiftr ans (bits w - 1)) new_carry))) ;;
  store w value ans.

Definition rcr_op (w : width) (value : loc) (count : Z) : E unit :=
  let tc := rotate_count w count in
  if tc =? 0 then ret tt else
  fl ← flags;
  v ← load w value;
  let old_carry := Z.land (Z.shiftr fl CarryFlagBit) 1 in
  let new_carry := Z.land (Z.shiftr v (tc - 1)) 1 in
  let ans := wrap (bits w) (Z.lor (Z.shiftr v tc) (Z.shiftl old_carry (bits w - tc))) in
  defined_if (shift_ok w (bits w - tc + 1)) ;;
  let ans := wrap (bits w) (Z.lor ans (Z.shiftl v (bits w - tc + 1))) in
  SET_CARRY_FLAG (truth new_carry) ;;
  when (Z.land v 0x1f =? 1)
    (SET_OVERFLOW_FLAG (truth (Z.lxor (Z.shiftr ans (bits w - 1)) old_carry))) ;;
  store w value ans.

Definition rol_op (w : width) (value : loc) (count : Z) : E unit :=
  let tc := rol_count w count in
  if tc =? 0 then ret tt else
  v ← load w value;
  let ans := wrap (bits w) (Z.lor (Z.shiftl v tc) (Z.shiftr v (bits w - tc))) in
  when (truth (Z.land ans 0x1f))
    (SET_CARRY_FLAG (truth (Z.land ans 1)) ;;
     when (Z.land ans 0x1f =? 1)
       (SET_OVERFLOW_FLAG
          (truth (Z.lxor (Z.shiftr ans (bits w - 1)) (Z.land ans 1))))) ;;
  store w value ans.

Definition ror_op (w : width) (value : loc) (count : Z) : E unit :=
  let tc := rol_count w count in
  if tc =? 0 then ret tt else
  v ← load w value;
  let ans := wrap (bits w) (Z.lor (Z.shiftr v tc) (Z.shiftl v (bits w - tc))) in
  let msb := Z.shiftr ans (bits w - 1) in
  when (truth (Z.land ans 0x1f))
    (SET_CARRY_FLAG (truth msb) ;;
     when (Z.land ans 0x1f =? 1)
       (SET_OVERFLOW_FLAG (truth (Z.lxor msb (Z.shiftr ans (bits w - 2)))))) ;;
  store w value ans.

(** [shl_sal_32] keeps its result in a [uint16_t]. *)
Definition shl_ans_bits (w : width) : Z := match w with W32 => 16 | _ => bits w end.

Definition shl_sal_op (w : width) (value : loc) (count : Z) : E unit :=
  let tc := rotate_count w count in
  if tc =? 0 then ret tt else
  v ← load w value;
  let ans := wrap (shl_ans_bits w) (Z.shiftl v tc) in
  let carry := Z.land (Z.shiftr v (bits w - tc)) 1 in
  SET_CARRY_FLAG (truth carry) ;;
  when (Z.land count 0x1f =? 1)
    (SET_OVERFLOW_FLAG (truth (Z.lxor (Z.shiftr ans (bits w - 1)) carry))) ;;
  store w value ans.

Definition shr_op (w : width) (value : loc) (count : Z) : E unit :=
  let tc := rotate_count w count in
  if tc =? 0 then ret tt else
  v ← load w value;
  let ans := Z.shiftr v tc in
  let carry := Z.land (Z.shiftr v (tc - 1)) 1 in
  SET_CARRY_FLAG (truth carry) ;;
  when (Z.land count 0x1f =? 1) (SET_OVERFLOW_FLAG (truth (Z.shiftr v (bits w - 1)))) ;;
  store w value ans.

Definition sar_op (w : width) (value : loc) (count : Z) : E unit :=
  let tc := rotate_count w count in
  if tc =? 0 then ret tt else
  v ← load w value;
  let ans := wrap (bits w) (Z.shiftr (sext (bits w) v) tc) in
  let carry := Z.land (Z.shiftr (sext (bits w) v) (tc - 1)) 1 in
  SET_CARRY_FLAG (truth carry) ;;
  when (Z.land count 0x1f =? 1) (SET_OVERFLOW_FLAG false) ;;
  store w value ans.

(** [shld_16_16_8], [shld_32_32_8], [shrd_16_16_8], [shrd_32_32_8]. *)
Definition shld_op (w : width) (dest : loc) (r count : Z) : E BiosEmuExceptions :=
  let tc := count mod 32 in
  if (tc =? 0) || (count >? bits w) then ret NoException else
  d ← load w dest;
  let ans := wrap (bits w) (Z.lor (Z.shiftl d tc) (Z.shiftr r (bits w - tc))) in
  let carry := Z.land (Z.shiftr r (bits w - tc)) 1 in
  SET_CARRY_FLAG (truth carry) ;;
  set_zf_pf ans ;;
  store w dest ans ;;
  ret NoException.

Definition shrd_op (w : width) (dest : loc) (r count : Z) : E BiosEmuExceptions :=
  let tc := count mod 32 in
  if (tc =? 0) || (count >? bits w) then ret NoException else
  d ← load w dest;
  let ans := wrap (bits w) (Z.lor (Z.shiftr d tc) (Z.shiftl r (bits w - tc))) in
  let carry := Z.land (Z.shiftr r (tc - 1)) 1 in
  SET_CARRY_FLAG (truth carry) ;;
  set_zf_pf ans ;;
  store w dest ans ;;
  ret NoException.

(** ** String comparison *)

(** [cmps_16] compares 32 bits at [dst] with 16 bits at [src]. *)
Definition cmps_dst_width (w : width) : width := match w with W8 => W8 | _ => W32 end.

(** The loop of [cmps_8], [cmps_16], [cmps_32] with [n] rounds to go; the
    result is the value of [i] on exit. *)
Fixpoint cmps_loop (w : width) (n : nat) (dst : loc) (delta_dst : Z) (src : loc)
    (delta_src : Z) : E Z :=
  match n with
  | O => ret 0
  | S n =>
      v ← load w src;
      cmp_op (cmps_dst_width w) dst v ;;
      zf ← flag_set ZeroFlagBit;
      re ← gets f_rep_e_ne;
      if Bool.eqb zf re
      then cmps_loop w n (loc_add dst delta_dst) delta_dst (loc_add src delta_src) delta_src
      else ret (Z.of_nat n)
  end.

Definition cmps_op (w : width) (dst : loc) (delta_dst : Z) (src : loc) (delta_src : Z)
    (repeat_times : Z) : E unit :=
  i ← (if 0 <? repeat_times
       then cmps_loop w (Z.to_nat repeat_times) dst delta_dst src delta_src
       else ret repeat_times);
  rep ← gets f_repeat;
  when rep (match w with W32 => set32 ECX i | _ => set16 ECX i end).
