(* ===== verification/Ops.v ===== *)
(** * Data movement, control transfer and interrupts of the BIOS emulator

    src/arch/x86/bios_emu/ops: mov.c, xchg.c, bt.c, segment.c, conditions.c,
    jmp.c, call.c, stack.c, int.c. *)

From S2P Require Import Prelude CMonad Machine Alu.
From stdpp Require Import base tactics list numbers functions.
Local Open Scope Z_scope.
Local Open Scope c_scope.

(** ** MOV (mov.c) *)

(** [mov_8_8], [mov_16_16], [mov_32_32]. *)
Definition mov_op (w : width) (dst src : loc) : E BiosEmuExceptions :=
  v ← load w src; store w dst v ;; ret NoException.

Definition decode_mov_rm_sreg : E unit :=
  modrm ← fetch W8;
  dst ← RM_ADDR modrm;
  os ← operand_size;
  src ← RM_SREG (modrm_reg modrm);
  if os then v ← load W32 src; store W32 dst v
  else v ← load W16 src; store W16 dst v.

Definition decode_mov_sreg_rm : E unit :=
  modrm ← fetch W8;
  dst ← RM_SREG (modrm_reg modrm);
  src ← RM_ADDR modrm;
  v ← load W16 src; store W16 dst v.

(** The address every [moffs] form computes. *)
Definition moffs_addr : E loc :=
  segment ← default_segment;
  az ← address_size;
  offset ← (if az then fetch W32 else fetch W16);
  ret (LMem (u64 (get_segment_base segment + offset))).

Definition decode_mov_r_moffs_8 : E unit :=
  src ← moffs_addr; v ← load W8 src; set8 EAX v.

Definition decode_mov_r_moffs : E unit :=
  src ← moffs_addr;
  os ← operand_size;
  if os then v ← load W32 src; set32 EAX v else v ← load W16 src; set16 EAX v.

Definition decode_mov_moffs_r_8 : E unit :=
  dst ← moffs_addr; v ← get8 EAX; store W8 dst v.

Definition decode_mov_moffs_r : E unit :=
  dst ← moffs_addr;
  os ← operand_size;
  if os then v ← get32 EAX; store W32 dst v else v ← get16 EAX; store W16 dst v.

Definition decode_mov_r_imm8 (opcode : Z) : E unit :=
  r ← reg_lut W8 (Z.land opcode 7);
  v ← peek W8; store W8 r v ;; skip 1.

Definition decode_mov_r_imm (opcode : Z) : E unit :=
  os ← operand_size;
  if os then r ← reg_lut W32 (Z.land opcode 7); v ← peek W32; store W32 r v ;; skip 4
  else r ← reg_lut W16 (Z.land opcode 7); v ← peek W16; store W16 r v ;; skip 2.

Definition decode_mov_rm_imm : E unit :=
  modrm ← fetch W8;
  os ← operand_size;
  if os then l ← RM_ADDR32 modrm; v ← peek W32; store W32 l v ;; skip 4
  else l ← RM_ADDR16 modrm; v ← peek W16; store W16 l v ;; skip 2.

Definition decode_movzx_r_rm8 : E unit :=
  modrm ← fetch W8;
  os ← operand_size;
  if os then
    dst ← reg_lut W32 (modrm_reg modrm);
    src ← RM_ADDR32 modrm; v ← load W8 src; store W32 dst v
  else
    dst ← reg_lut W16 (modrm_reg modrm);
    src ← RM_ADDR16 modrm; v ← load W8 src; store W16 dst v.

Definition decode_movzx_r_rm16 : E unit :=
  modrm ← fetch W8;
  dst ← reg_lut W32 (modrm_reg modrm);
  src ← RM_ADDR32 modrm; v ← load W16 src; store W32 dst v.

Definition decode_movsx_r_rm8 : E unit :=
  modrm ← fetch W8;
  os ← operand_size;
  if os then
    dst ← reg_lut W32 (modrm_reg modrm);
    src ← RM_ADDR32 modrm; v ← load W8 src; store W32 dst (s8 v)
  else
    dst ← reg_lut W16 (modrm_reg modrm);
    src ← RM_ADDR16 modrm; v ← load W8 src; store W16 dst (s8 v).

Definition decode_movsx_r_rm16 : E unit :=
  modrm ← fetch W8;
  dst ← reg_lut W32 (modrm_reg modrm);
  src ← RM_ADDR32 modrm; v ← load W16 src; store W32 dst (s16 v).

(** [movs_8], [movs_16], [movs_32] with [n] rounds to go. *)
Fixpoint movs_loop (w : width) (n : nat) (dst : loc) (delta_dst : Z) (src : loc)
    (delta_src : Z) : E unit :=
  match n with
  | O => ret tt
  | S n =>
      v ← load w src; store w dst v ;;
      movs_loop w n (loc_add dst delta_dst) delta_dst (loc_add src delta_src) delta_src
  end.
Definition movs_op (w : width) (dst : loc) (delta_dst : Z) (src : loc) (delta_src : Z)
    (repeat_times : Z) : E unit :=
  movs_loop w (Z.to_nat repeat_times) dst delta_dst src delta_src.

(** ** Exchange (xchg.c) *)

(** [xchg_32_32] is declared for [uint16_t] pointers. *)
Definition xchg_width (w : width) : width := match w with W32 => W16 | _ => w end.

Definition xchg_op (w : width) (addr1 addr2 : loc) : E BiosEmuExceptions :=
  tmp ← load (xchg_width w) addr1;
  v ← load (xchg_width w) addr2;
  store (xchg_width w) addr1 v ;;
  store (xchg_width w) addr2 tmp ;;
  ret NoException.

Definition cmpxchg_op (w : width) (addr1 addr2 : loc) : E BiosEmuExceptions :=
  v1 ← load w addr1; v2 ← load w addr2;
  (if v1 =? v2 then store w (lo EAX) v2 ;; SET_FLAG true ZeroFlagBit
   else store w (lo EAX) v1 ;; SET_FLAG false ZeroFlagBit) ;;
  ret NoException.

Definition xadd_op (w : width) (addr1 addr2 : loc) : E BiosEmuExceptions :=
  tmp ← load w addr1;
  v2 ← load w addr2;
  store w addr1 (v2 + tmp) ;;
  store w addr2 tmp ;;
  ret NoException.

Definition bswap_value (tmp : Z) : Z :=
  Z.lor (Z.lor (Z.lor
    (u32 (Z.shiftl (Z.land tmp 0x000000FF) 24))
    (u32 (Z.shiftl (Z.land tmp 0x0000FF00) 8)))
    (Z.shiftr (Z.land tmp 0x00FF0000) 8))
    (Z.shiftr (Z.land tmp 0xFF000000) 24).
Definition bswap_32 (addr : loc) : E BiosEmuExceptions :=
  tmp ← load W32 addr; store W32 addr (bswap_value tmp) ;; ret NoException.

(** ** Bit tests (bt.c) *)

Definition bt_mask (w : width) (bit : Z) : Z :=
  match w with
  | W32 => u32 (Z.shiftl 1 (Z.land bit 0x1f))
  | _ => u16 (Z.shiftl 1 (Z.land bit 0x0f))
  end.

Definition bt_carry (w : width) (addr : loc) (mask : Z) : E unit :=
  flag_clear (BIT CarryFlagBit) ;;
  v ← load w addr;
  when (truth (Z.land v mask)) (flag_or (BIT CarryFlagBit)).

Definition bt_op (w : width) (addr bit : loc) : E BiosEmuExceptions :=
  b ← load w bit;
  bt_carry w addr (bt_mask w b) ;; ret NoException.
Definition btc_op (w : width) (addr bit : loc) : E BiosEmuExceptions :=
  b ← load w bit;
  bt_carry w addr (bt_mask w b) ;;
  v ← load w addr; store w addr (Z.lxor v (bt_mask w b)) ;; ret NoException.
Definition btr_op (w : width) (addr bit : loc) : E BiosEmuExceptions :=
  b ← load w bit;
  bt_carry w addr (bt_mask w b) ;;
  v ← load w addr; store w addr (Z.land v (Z.lnot (bt_mask w b))) ;; ret NoException.
Definition bts_op (w : width) (addr bit : loc) : E BiosEmuExceptions :=
  b ← load w bit;
  bt_carry w addr (bt_mask w b) ;;
  v ← load w addr; store w addr (Z.lor v (bt_mask w b)) ;; ret NoException.

(** ** LDS, LSS, LES, LFS, LGS (segment.c)

    The 16-bit form loads the segment register from the first word; the 32-bit
    form of all five loads DS and nothing else. *)
Definition lxs_16_16 (sreg : reg) (r addr : loc) : E BiosEmuExceptions :=
  v ← load W16 addr; set32 sreg v ;;
  o ← load W16 (loc_add addr 2); store W16 r o ;;
  ret NoException.
Definition lxs_32_32 (r addr : loc) : E BiosEmuExceptions :=
  v ← load W16 addr; set32 DS v ;; ret NoException.

(** ** Conditions (conditions.c) *)

Definition fl_bit (bit fl : Z) : bool := truth (Z.land fl (BIT bit)).

Definition condition_o (fl : Z) : bool := fl_bit OverflowFlagBit fl.
Definition condition_no (fl : Z) : bool := negb (fl_bit OverflowFlagBit fl).
Definition condition_b_c_nae (fl : Z) : bool := fl_bit CarryFlagBit fl.
Definition condition_ae_nb_nc (fl : Z) : bool := negb (fl_bit CarryFlagBit fl).
Definition condition_e_z (fl : Z) : bool := fl_bit ZeroFlagBit fl.
Definition condition_ne_nz (fl : Z) : bool := negb (fl_bit ZeroFlagBit fl).
Definition condition_be_na (fl : Z) : bool := fl_bit CarryFlagBit fl && fl_bit ZeroFlagBit fl.
Definition condition_a_nbe (fl : Z) : bool :=
  negb (fl_bit CarryFlagBit fl) && negb (fl_bit ZeroFlagBit fl).
Definition condition_s (fl : Z) : bool := fl_bit SignFlagBit fl.
Definition condition_ns (fl : Z) : bool := negb (fl_bit SignFlagBit fl).
Definition condition_p_pe (fl : Z) : bool := fl_bit ParityFlagBit fl.
Definition condition_np_po (fl : Z) : bool := negb (fl_bit ParityFlagBit fl).
Definition condition_l_nge (fl : Z) : bool :=
  negb (Bool.eqb (fl_bit SignFlagBit fl) (fl_bit OverflowFlagBit fl)).
Definition condition_nl_ge (fl : Z) : bool :=
  Bool.eqb (fl_bit SignFlagBit fl) (fl_bit OverflowFlagBit fl).
Definition condition_le_ng (fl : Z) : bool :=
  fl_bit ZeroFlagBit fl || negb (Bool.eqb (fl_bit SignFlagBit fl) (fl_bit OverflowFlagBit fl)).
Definition condition_nle_g (fl : Z) : bool :=
  negb (fl_bit ZeroFlagBit fl) && Bool.eqb (fl_bit SignFlagBit fl) (fl_bit OverflowFlagBit fl).

Definition condition_table : list (Z -> bool) :=
  [condition_o; condition_no; condition_b_c_nae; condition_ae_nb_nc;
   condition_e_z; condition_ne_nz; condition_be_na; condition_a_nbe;
   condition_s; condition_ns; condition_p_pe; condition_np_po;
   condition_l_nge; condition_nl_ge; condition_le_ng; condition_nle_g].

Definition condition (i : Z) : E bool :=
  f ← of_option (condition_table !! Z.to_nat (Z.land i 0x0f));
  fl ← flags; ret (f fl).

(** ** Jumps (jmp.c) *)

Definition decode_jcc_8 (cond : bool) : E unit :=
  b ← peek W8;
  let offset := s8 b in
  skip 1 ;;
  os ← operand_size;
  if os then when cond (skip offset)
  else when cond (skip offset ;; mask_eip ;; resync_ip).

Definition decode_jcc (cond : bool) : E unit :=
  az ← address_size;
  if az then
    d ← peek W32;
    let offset := s32 d in
    skip 4 ;; when cond (skip offset)
  else
    d ← peek W16;
    let offset := s16 d in
    skip 2 ;; when cond (skip offset ;; mask_eip ;; resync_ip).

Definition decode_jmp8 : E unit :=
  b ← peek W8;
  let offset := s8 b in
  skip 1 ;; skip offset ;;
  os ← operand_size;
  when (negb os) (mask_eip ;; resync_ip).

Definition decode_jmp_near (offset : Z) : E unit :=
  os ← operand_size;
  if os then skip offset else skip offset ;; mask_eip ;; resync_ip.

Definition decode_jmp_far (segment offset : Z) : E unit :=
  set32 CS segment ;;
  os ← operand_size;
  if os then
    set32 EIP offset ;; ip ← get32 EIP; set_cur_ip ip
  else
    set32 EIP (Z.land offset 0xffff) ;;
    ip ← get32 EIP; set_cur_ip (u32 (Z.shiftl segment 4 + ip)).

Definition decode_jmp : E unit :=
  az ← address_size;
  if az then d ← peek W32; skip 4 ;; decode_jmp_near (s32 d)
  else d ← peek W16; skip 2 ;; decode_jmp_near (s16 d).

Definition decode_long_jmp_ptr16 : E unit :=
  segment ← peek W16; skip 2 ;;
  os ← operand_size;
  if os then offset ← peek W32; skip 4 ;; decode_jmp_far segment offset
  else
    offset ← peek W16; skip 2 ;; mask_eip ;; resync_ip ;;
    decode_jmp_far segment offset.

(** ** Calls and returns (call.c) *)

(** operations.c: the limit check is commented out and always succeeds. *)
Definition ptr_within_code_segment_limit (address : Z) : bool := true.

(** [STACK_POINTERnn(env) < env->stack_bottom + n] for the current stack size. *)
Definition stack_below (n : Z) : E bool :=
  ss ← stack_size;
  sp ← (if ss then STACK_POINTER32 else STACK_POINTER16);
  sb ← gets stack_bottom;
  ret (sp <? u32 (sb + n)).

Definition decode_call_near (address : Z) : E BiosEmuExceptions :=
  os ← operand_size;
  if os then
    if negb (ptr_within_code_segment_limit address) then ret GeneralProtection else
    low ← stack_below 4;
    if low : bool then ret StackFault else
    PUSH (get32 EIP) W32 ;;
    set_cur_ip address ;;
    set32 EIP address ;;
    ret NoException
  else
    if negb (ptr_within_code_segment_limit address) then ret GeneralProtection else
    low ← stack_below 2;
    if low : bool then ret StackFault else
    PUSH (get16 EIP) W16 ;;
    cs ← get32 CS;
    set_cur_ip (u32 (u32 (Z.shiftl cs 4) + address)) ;;
    set32 EIP address ;;
    ret NoException.

Definition decode_call : E BiosEmuExceptions :=
  os ← operand_size;
  if os then
    offset ← peek W32; skip 4 ;;
    ip ← get32 EIP; decode_call_near (u32 (ip + offset))
  else
    offset ← peek W16; skip 2 ;; mask_eip ;; resync_ip ;;
    ip ← get32 EIP; decode_call_near (Z.land (u32 (ip + offset)) 0xffff).

Definition decode_call_far (segment offset : Z) : E BiosEmuExceptions :=
  os ← operand_size;
  ss ← stack_size;
  if os then
    if negb (Z.shiftr offset 16 =? 0) then ret GeneralProtection else
    low ← stack_below 6;
    if low : bool then ret StackFault else
    (if ss : bool then PUSH32 (get32 CS) W32 ;; PUSH32 (get32 EIP) W32
     else PUSH16 (get32 CS) W32 ;; PUSH16 (get32 EIP) W32) ;;
    set32 CS segment ;;
    set32 EIP offset ;;
    ip ← get32 EIP; set_cur_ip ip ;;
    ret NoException
  else
    low ← stack_below 4;
    if low : bool then ret StackFault else
    (if ss : bool then PUSH32 (get32 CS) W16 ;; PUSH32 (get16 EIP) W16
     else PUSH16 (get32 CS) W16 ;; PUSH16 (get16 EIP) W16) ;;
    set32 CS segment ;;
    set32 EIP (Z.land offset 0xffff) ;;
    ip ← get32 EIP; set_cur_ip (u32 (Z.shiftl segment 4 + ip)) ;;
    ret NoException.

(** [*(uint16_t * )(env->cur_ip + 2)]. *)
Definition peek_at (d : Z) (w : width) : E Z :=
  ip ← gets cur_ip; load w (LMem (u64 (ip + d))).

Definition decode_call_ptr : E BiosEmuExceptions :=
  segment ← peek W16;
  os ← operand_size;
  if os then
    offset ← peek W32; skip 6 ;; decode_call_far segment offset
  else
    offset ← peek_at 2 W16; skip 4 ;; mask_eip ;; resync_ip ;;
    decode_call_far segment offset.

(** [POP16(env, x, size)] and [POP32(env, x, size)] into a local [x]. *)
Definition POP16_local (size : width) : E Z :=
  p ← STACK_POINTER16; v ← load size (LMem p); add_sp (Z.of_nat (bytes size)) ;; ret v.
Definition POP32_local (size : width) : E Z :=
  p ← STACK_POINTER32; v ← load size (LMem p); add_esp (Z.of_nat (bytes size)) ;; ret v.

Definition decode_ret_near (n : Z) : E BiosEmuExceptions :=
  os ← operand_size;
  ss ← stack_size;
  if os then
    low ← stack_below 4;
    if low : bool then ret StackFault else
    temp_eip ← (if ss then v ← POP32_local W32; add_esp n ;; ret v
                else v ← POP16_local W32; add_sp n ;; ret v);
    set32 EIP temp_eip ;;
    ip ← get32 EIP; set_cur_ip ip ;;
    ret NoException
  else
    low ← stack_below 2;
    if low : bool then ret StackFault else
    v ← (if ss then v ← POP32_local W16; add_esp n ;; ret v
         else v ← POP16_local W16; add_sp n ;; ret v);
    let temp_eip := Z.land v 0xffff in
    if negb (ptr_within_code_segment_limit temp_eip) then ret GeneralProtection else
    set32 EIP temp_eip ;;
    resync_ip ;;
    ret NoException.

Definition decode_ret_far (n : Z) : E BiosEmuExceptions :=
  os ← operand_size;
  ss ← stack_size;
  if os then
    low ← stack_below 8;
    if low : bool then ret StackFault else
    segment ← (if ss then POP32 (set32 EIP) W32 ;; v ← POP32_local W32; add_esp n ;; ret (u16 v)
               else POP16 (set32 EIP) W32 ;; v ← POP16_local W32; add_sp n ;; ret (u16 v));
    set32 CS segment ;;
    ip ← get32 EIP; set_cur_ip ip ;;
    ret NoException
  else
    low ← stack_below 4;
    if low : bool then ret StackFault else
    p ← (if ss then a ← POP32_local W16; s ← POP32_local W16; add_esp n ;; ret (a, s)
         else a ← POP16_local W16; s ← POP16_local W16; add_sp n ;; ret (a, s));
    let temp_eip := Z.land (fst p) 0xffff in
    let segment := snd p in
    if negb (ptr_within_code_segment_limit temp_eip) then ret GeneralProtection else
    set32 CS segment ;;
    set32 EIP temp_eip ;;
    ip ← get32 EIP; set_cur_ip (u32 (Z.shiftl segment 4 + ip)) ;;
    ret NoException.

Definition decode_ret_imm16 : E BiosEmuExceptions :=
  offset ← peek W16; skip 2 ;; decode_ret_near offset.
Definition decode_ret_far_imm16 : E BiosEmuExceptions :=
  offset ← peek W16; skip 2 ;; decode_ret_far offset.

(** ** PUSHA, POPA, POP (stack.c) *)

Definition decode_pusha_pushad : E unit :=
  os ← operand_size;
  ss ← stack_size;
  if os then
    temp_esp ← get32 ESP;
    if ss : bool then
      PUSH32 (get32 EAX) W32 ;; PUSH32 (get32 ECX) W32 ;; PUSH32 (get32 EDX) W32 ;;
      PUSH32 (get32 EBX) W32 ;; PUSH32 (ret temp_esp) W32 ;; PUSH32 (get32 EBP) W32 ;;
      PUSH32 (get32 ESI) W32 ;; PUSH32 (get32 EDI) W32
    else
      PUSH16 (get32 EAX) W32 ;; PUSH16 (get32 ECX) W32 ;; PUSH16 (get32 EDX) W32 ;;
      PUSH16 (get32 EBX) W32 ;; PUSH16 (ret temp_esp) W32 ;; PUSH16 (get32 EBP) W32 ;;
      PUSH16 (get32 ESI) W32 ;; PUSH16 (get32 EDI) W32
  else
    temp_sp ← get16 ESP;
    if ss : bool then
      PUSH32 (get32 EAX) W16 ;; PUSH32 (get32 ECX) W16 ;; PUSH32 (get32 EDX) W16 ;;
      PUSH32 (get32 EBX) W16 ;; PUSH32 (ret temp_sp) W16 ;; PUSH32 (get32 EBP) W16 ;;
      PUSH32 (get32 ESI) W16 ;; PUSH32 (get32 EDI) W16
    else
      PUSH16 (get16 EAX) W16 ;; PUSH16 (get16 ECX) W16 ;; PUSH16 (get16 EDX) W16 ;;
      PUSH16 (get16 EBX) W16 ;; PUSH16 (ret temp_sp) W16 ;; PUSH16 (get16 EBP) W16 ;;
      PUSH16 (get16 ESI) W16 ;; PUSH16 (get16 EDI) W16.

Definition decode_pop_rm : E unit :=
  modrm ← fetch W8;
  os ← operand_size;
  if os then addr ← RM_ADDR32 modrm; POP (store W32 addr) W32
  else addr ← RM_ADDR16 modrm; POP (store W16 addr) W16.

Definition decode_pop_r (opcode : Z) : E unit :=
  os ← operand_size;
  if os then dst ← reg_lut W32 (Z.land opcode 7); POP (store W32 dst) W32
  else dst ← reg_lut W16 (Z.land opcode 7); POP (store W16 dst) W16.

Definition decode_popa_popad : E unit :=
  os ← operand_size;
  ss ← stack_size;
  if os then
    if ss : bool then
      POP32 (set32 EDI) W32 ;; POP32 (set32 ESI) W32 ;; POP32 (set32 EBP) W32 ;;
      add_esp 4 ;;
      POP32 (set32 EBX) W32 ;; POP32 (set32 EDX) W32 ;; POP32 (set32 ECX) W32 ;;
      POP32 (set32 EAX) W32
    else
      POP16 (set32 EDI) W32 ;; POP16 (set32 ESI) W32 ;; POP16 (set32 EBP) W32 ;;
      add_sp 4 ;;
      POP16 (set32 EBX) W32 ;; POP16 (set32 EDX) W32 ;; POP16 (set32 ECX) W32 ;;
      POP16 (set32 EAX) W32
  else
    if ss : bool then
      POP32 (set16 EDI) W16 ;; POP32 (set16 ESI) W16 ;; POP32 (set16 EBP) W16 ;;
      add_esp 2 ;;
      POP32 (set16 EBX) W16 ;; POP32 (set16 EDX) W16 ;; POP32 (set16 ECX) W16 ;;
      POP32 (set16 EAX) W16
    else
      POP16 (set16 EDI) W16 ;; POP16 (set16 ESI) W16 ;; POP16 (set16 EBP) W16 ;;
      add_sp 2 ;;
      POP16 (set16 EBX) W16 ;; POP16 (set16 EDX) W16 ;; POP16 (set16 ECX) W16 ;;
      POP16 (set16 EAX) W16.

(** ** Interrupts (int.c) *)

(** [vector] is a [uint8_t], so the test [vector > 255] never holds. *)
Definition decode_int (vector : Z) : E BiosEmuExceptions :=
  inc_eip 1 ;;
  if vector >? 255 then ret GeneralProtection else
  sb ← gets stack_bottom;
  sp ← STACK_POINTER16;
  if u32 (sb + 6) >? sp then ret StackFault else
  PUSH flags W16 ;;
  flag_clear (Z.lor (Z.lor (BIT InterruptEnableFlagBit) (BIT TrapFlagBit))
                (BIT AlignmentCheckFlagBit)) ;;
  PUSH (get32 CS) W16 ;;
  PUSH (get16 EIP) W16 ;;
  table ← gets ivt;
  segment ← load W16 (LMem (u64 (table + 4 * vector + 2)));
  set32 CS segment ;;
  offset ← load W16 (LMem (u64 (table + 4 * vector)));
  set16 EIP offset ;;
  cs ← get32 CS; ip ← get16 EIP;
  set_cur_ip (u32 (u32 (Z.shiftl cs 4) + ip)) ;;
  ret NoException.

(** [cur_ip] is not updated. *)
Definition decode_iret : E BiosEmuExceptions :=
  os ← operand_size;
  ss ← stack_size;
  (if os then
     if ss : bool then
       POP32 (set32 EIP) W32 ;; POP32 (set32 CS) W32 ;;
       temp_eflags ← POP32_local W32;
       old ← get32 EFLAGS;
       set32 EFLAGS (Z.lor (Z.land temp_eflags 0x257FD5) (Z.land old 0x1A0000))
     else POP16 (set32 EIP) W32 ;; POP16 (set32 CS) W32 ;; POP16 (set32 EFLAGS) W32
   else
     if ss : bool then
       POP32 (set32 EIP) W16 ;; POP32 (set32 CS) W16 ;; POP32 (set16 EFLAGS) W16
     else POP16 (set32 EIP) W16 ;; POP16 (set32 CS) W16 ;; POP16 (set16 EFLAGS) W16) ;;
  entry ← gets int_entry_stack;
  sp ← STACK_POINTER16;
  ret (if entry =? sp then EventInterruptDone else NoException).
