(* ===== verification/Opcodes.v ===== *)
(** * Opcode numbers of the BIOS emulator

    The enumerations of src/arch/x86/bios_emu/includes/instructions_1.h,
    instructions_2.h and prefix.h: the names as inductive types, their numbers as
    coercions into [Z]. *)

From Stdlib Require Import ZArith.
Local Open Scope Z_scope.

(** ** One-byte opcodes *)

Inductive OneByteOpcodes :=
| OP_AAA | OP_AAD | OP_AAM | OP_AAS | OP_ADC_imm8 | OP_ADC_imm | OP_ADC_rm_r_8
| OP_ADC_rm_r | OP_ADC_r_rm_8 | OP_ADC_r_rm | OP_ADC_ADD_rm_imm_8 | OP_ADC_ADD_rm_imm
| OP_ADC_ADD_rm_imm8 | OP_ADD_imm8 | OP_ADD_imm | OP_ADD_rm_r_8 | OP_ADD_rm_r
| OP_ADD_r_rm_8 | OP_ADD_r_rm | OP_AND_imm8 | OP_AND_imm | OP_AND_rm_r_8 | OP_AND_rm_r
| OP_AND_r_rm_8 | OP_AND_r_rm | OP_BOUND | OP_CALL | OP_CALL_ptr | OP_CBW_CWDE | OP_CLC
| OP_CLD | OP_CLI | OP_CMC | OP_CMP_imm8 | OP_CMP_imm | OP_CMP_rm_r_8 | OP_CMP_rm_r
| OP_CMP_r_rm_8 | OP_CMP_r_rm | OP_CMPS8 | OP_CMPS | OP_CWD_CDQ | OP_DAA | OP_DAS | OP_DEC8
| OP_DEC_rm | OP_DEC | OP_DIV8 | OP_DIV | OP_ENTER | OP_HLT | OP_IDIV8 | OP_IDIV | OP_IMUL8
| OP_IMUL | OP_IMUL_imm8 | OP_IMUL_imm16 | OP_IN8 | OP_IN | OP_IN8_dx | OP_IN_dx | OP_INC8
| OP_INC_rm16 | OP_INC_rm32 | OP_INC | OP_INS8 | OP_INS | OP_INT3 | OP_INT | OP_INTO
| OP_INT1 | OP_IRET_IRETD | OP_JCXZ_JECXZ_JRCXZ | OP_JE_JZ_8 | OP_JG_JNLE_8 | OP_JGE_JNL_8
| OP_JL_JNGE_8 | OP_JLE_JNG_8 | OP_JBE_JNA_8 | OP_JB_JC_JNAE_8 | OP_JAE_JNB_JNC_8
| OP_JA_JNBE_8 | OP_JNE_JNZ_8 | OP_JNO_8 | OP_JNP_JPO_8 | OP_JNS_8 | OP_JO_8 | OP_JP_JPE_8
| OP_JS_8 | OP_JMP8 | OP_JMP | OP_JMP_rm | OP_LongJMP | OP_LongJMPm | OP_LAHF | OP_LDS
| OP_LES | OP_LEA | OP_LEAVE | OP_LODS8 | OP_LODS | OP_LOOP | OP_LOOPE | OP_LOOPNE
| OP_MOV_rm_r8 | OP_MOV_rm_r | OP_MOV_r_rm8 | OP_MOV_r_rm | OP_MOV_rm_sreg | OP_MOV_sreg_rm
| OP_MOV_a_moffs8 | OP_MOV_a_moffs | OP_MOV_moffs8_a | OP_MOV_moffs_a | OP_MOV_r_imm8
| OP_MOV_r_imm | OP_MOV_rm_imm8 | OP_MOV_rm_imm | OP_MOVS8 | OP_MOVS | OP_MUL8 | OP_MUL
| OP_NEG8 | OP_NEG | OP_NOP | OP_NOT8 | OP_NOT | OP_OR_rm_imm_8 | OP_OR_rm_imm
| OP_OR_rm_imm8 | OP_OR_imm8 | OP_OR_imm | OP_OR_rm_r_8 | OP_OR_rm_r | OP_OR_r_rm_8
| OP_OR_r_rm | OP_OUT8 | OP_OUT | OP_OUT8_dx | OP_OUT_dx | OP_OUTS8 | OP_OUTS | OP_POP_rm
| OP_POP_r | OP_POP_DS | OP_POP_ES | OP_POP_SS | OP_POPA_POPAD | OP_POPF_POPFD | OP_PUSH_rm
| OP_PUSH_r | OP_PUSH_imm8 | OP_PUSH_imm | OP_PUSH_CS | OP_PUSH_SS | OP_PUSH_DS
| OP_PUSH_ES | OP_PUSHA_PUSHAD | OP_PUSHF_PUSHFD | OP_RET | OP_LongRET | OP_RET_imm16
| OP_LongRET_imm16 | OP_SAHF | OP_SAL_SAR_SHL_SHR_8_1 | OP_SAL_SAR_SHL_SHR_8_cl
| OP_SAL_SAR_SHL_SHR_8_imm8 | OP_SAL_SAR_SHL_SHR_1 | OP_SAL_SAR_SHL_SHR_cl
| OP_SAL_SAR_SHL_SHR_imm8 | OP_SBB_rm_imm_8 | OP_SBB_rm_imm | OP_SBB_rm_imm8 | OP_SBB_imm8
| OP_SBB_imm | OP_SBB_rm_r_8 | OP_SBB_rm_r | OP_SBB_r_rm_8 | OP_SBB_r_rm | OP_SCAS8
| OP_SCAS | OP_STC | OP_STD | OP_STI | OP_STOS8 | OP_STOS | OP_SUB_rm_imm_8 | OP_SUB_rm_imm
| OP_SUB_rm_imm8 | OP_SUB_imm8 | OP_SUB_imm | OP_SUB_rm_r_8 | OP_SUB_rm_r | OP_SUB_r_rm_8
| OP_SUB_r_rm | OP_TEST_imm8 | OP_TEST_imm | OP_TEST_rm_imm8 | OP_TEST_rm_imm
| OP_TEST_rm_r_8 | OP_TEST_rm_r | OP_WAIT_FWAIT | OP_XCHG_r | OP_XCHG_8 | OP_XCHG | OP_XLAT
| OP_XOR_rm_imm_8 | OP_XOR_rm_imm | OP_XOR_rm_imm8 | OP_XOR_imm8 | OP_XOR_imm
| OP_XOR_rm_r_8 | OP_XOR_rm_r | OP_XOR_r_rm_8 | OP_XOR_r_rm | OP_TWO_BYTES.

Definition one_byte_code (op : OneByteOpcodes) : Z :=
  match op with
  | OP_AAA => 0x37 | OP_AAD => 0xD5 | OP_AAM => 0xD4 | OP_AAS => 0x3F | OP_ADC_imm8 => 0x14
  | OP_ADC_imm => 0x15 | OP_ADC_rm_r_8 => 0x10 | OP_ADC_rm_r => 0x11 | OP_ADC_r_rm_8 => 0x12
  | OP_ADC_r_rm => 0x13 | OP_ADC_ADD_rm_imm_8 => 0x80 | OP_ADC_ADD_rm_imm => 0x81
  | OP_ADC_ADD_rm_imm8 => 0x83 | OP_ADD_imm8 => 0x04 | OP_ADD_imm => 0x05
  | OP_ADD_rm_r_8 => 0x00 | OP_ADD_rm_r => 0x01 | OP_ADD_r_rm_8 => 0x02
  | OP_ADD_r_rm => 0x03 | OP_AND_imm8 => 0x24 | OP_AND_imm => 0x25 | OP_AND_rm_r_8 => 0x20
  | OP_AND_rm_r => 0x21 | OP_AND_r_rm_8 => 0x22 | OP_AND_r_rm => 0x23 | OP_BOUND => 0x62
  | OP_CALL => 0xE8 | OP_CALL_ptr => 0x9A | OP_CBW_CWDE => 0x98 | OP_CLC => 0xF8
  | OP_CLD => 0xFC | OP_CLI => 0xFA | OP_CMC => 0xF5 | OP_CMP_imm8 => 0x3c
  | OP_CMP_imm => 0x3d | OP_CMP_rm_r_8 => 0x38 | OP_CMP_rm_r => 0x39 | OP_CMP_r_rm_8 => 0x3A
  | OP_CMP_r_rm => 0x3B | OP_CMPS8 => 0xA6 | OP_CMPS => 0xA7 | OP_CWD_CDQ => 0x99
  | OP_DAA => 0x27 | OP_DAS => 0x2F | OP_DEC8 => 0xFE | OP_DEC_rm => 0xFF | OP_DEC => 0x48
  | OP_DIV8 => 0xF6 | OP_DIV => 0xF6 | OP_ENTER => 0xC8 | OP_HLT => 0xF4 | OP_IDIV8 => 0xF6
  | OP_IDIV => 0xF7 | OP_IMUL8 => 0xF6 | OP_IMUL => 0xF7 | OP_IMUL_imm8 => 0x6B
  | OP_IMUL_imm16 => 0x69 | OP_IN8 => 0xE4 | OP_IN => 0xE5 | OP_IN8_dx => 0xEC
  | OP_IN_dx => 0xED | OP_INC8 => 0xFE | OP_INC_rm16 => 0xFF | OP_INC_rm32 => 0xFF
  | OP_INC => 0x40 | OP_INS8 => 0x6C | OP_INS => 0x6D | OP_INT3 => 0xCC | OP_INT => 0xCD
  | OP_INTO => 0xCE | OP_INT1 => 0xF1 | OP_IRET_IRETD => 0xCF | OP_JCXZ_JECXZ_JRCXZ => 0xE3
  | OP_JE_JZ_8 => 0x74 | OP_JG_JNLE_8 => 0x7F | OP_JGE_JNL_8 => 0x7D | OP_JL_JNGE_8 => 0x7C
  | OP_JLE_JNG_8 => 0x7E | OP_JBE_JNA_8 => 0x76 | OP_JB_JC_JNAE_8 => 0x72
  | OP_JAE_JNB_JNC_8 => 0x73 | OP_JA_JNBE_8 => 0x77 | OP_JNE_JNZ_8 => 0x75
  | OP_JNO_8 => 0x71 | OP_JNP_JPO_8 => 0x7B | OP_JNS_8 => 0x79 | OP_JO_8 => 0x70
  | OP_JP_JPE_8 => 0x7A | OP_JS_8 => 0x78 | OP_JMP8 => 0xEB | OP_JMP => 0xE9
  | OP_JMP_rm => 0xFF | OP_LongJMP => 0xEA | OP_LongJMPm => 0xFF | OP_LAHF => 0x9F
  | OP_LDS => 0xC5 | OP_LES => 0xC4 | OP_LEA => 0x8D | OP_LEAVE => 0xC9 | OP_LODS8 => 0xAC
  | OP_LODS => 0xAD | OP_LOOP => 0xE2 | OP_LOOPE => 0xE1 | OP_LOOPNE => 0xE0
  | OP_MOV_rm_r8 => 0x88 | OP_MOV_rm_r => 0x89 | OP_MOV_r_rm8 => 0x8A | OP_MOV_r_rm => 0x8B
  | OP_MOV_rm_sreg => 0x8C | OP_MOV_sreg_rm => 0x8E | OP_MOV_a_moffs8 => 0xA0
  | OP_MOV_a_moffs => 0xA1 | OP_MOV_moffs8_a => 0xA2 | OP_MOV_moffs_a => 0xA3
  | OP_MOV_r_imm8 => 0xB0 | OP_MOV_r_imm => 0xB8 | OP_MOV_rm_imm8 => 0xC6
  | OP_MOV_rm_imm => 0xC7 | OP_MOVS8 => 0xA4 | OP_MOVS => 0xA5 | OP_MUL8 => 0xF6
  | OP_MUL => 0xF7 | OP_NEG8 => 0xF6 | OP_NEG => 0xF7 | OP_NOP => 0x90 | OP_NOT8 => 0xF6
  | OP_NOT => 0xF7 | OP_OR_rm_imm_8 => 0x80 | OP_OR_rm_imm => 0x81 | OP_OR_rm_imm8 => 0x83
  | OP_OR_imm8 => 0x0C | OP_OR_imm => 0x0D | OP_OR_rm_r_8 => 0x08 | OP_OR_rm_r => 0x09
  | OP_OR_r_rm_8 => 0x0A | OP_OR_r_rm => 0x0B | OP_OUT8 => 0xE6 | OP_OUT => 0xE7
  | OP_OUT8_dx => 0xEE | OP_OUT_dx => 0xEF | OP_OUTS8 => 0x6E | OP_OUTS => 0x6F
  | OP_POP_rm => 0x8F | OP_POP_r => 0x58 | OP_POP_DS => 0x1F | OP_POP_ES => 0x07
  | OP_POP_SS => 0x17 | OP_POPA_POPAD => 0x61 | OP_POPF_POPFD => 0x9D | OP_PUSH_rm => 0xFF
  | OP_PUSH_r => 0x50 | OP_PUSH_imm8 => 0x6A | OP_PUSH_imm => 0x68 | OP_PUSH_CS => 0x0E
  | OP_PUSH_SS => 0x16 | OP_PUSH_DS => 0x1E | OP_PUSH_ES => 0x06 | OP_PUSHA_PUSHAD => 0x60
  | OP_PUSHF_PUSHFD => 0x9C | OP_RET => 0xC3 | OP_LongRET => 0xCB | OP_RET_imm16 => 0xC2
  | OP_LongRET_imm16 => 0xCA | OP_SAHF => 0x9E | OP_SAL_SAR_SHL_SHR_8_1 => 0xD0
  | OP_SAL_SAR_SHL_SHR_8_cl => 0xD2 | OP_SAL_SAR_SHL_SHR_8_imm8 => 0xC0
  | OP_SAL_SAR_SHL_SHR_1 => 0xD1 | OP_SAL_SAR_SHL_SHR_cl => 0xD3
  | OP_SAL_SAR_SHL_SHR_imm8 => 0xC1 | OP_SBB_rm_imm_8 => 0x80 | OP_SBB_rm_imm => 0x81
  | OP_SBB_rm_imm8 => 0x83 | OP_SBB_imm8 => 0x1C | OP_SBB_imm => 0x1D
  | OP_SBB_rm_r_8 => 0x18 | OP_SBB_rm_r => 0x19 | OP_SBB_r_rm_8 => 0x1A
  | OP_SBB_r_rm => 0x1B | OP_SCAS8 => 0xAE | OP_SCAS => 0xAF | OP_STC => 0xF9
  | OP_STD => 0xFD | OP_STI => 0xFB | OP_STOS8 => 0xAA | OP_STOS => 0xAB
  | OP_SUB_rm_imm_8 => 0x80 | OP_SUB_rm_imm => 0x81 | OP_SUB_rm_imm8 => 0x83
  | OP_SUB_imm8 => 0x2C | OP_SUB_imm => 0x2D | OP_SUB_rm_r_8 => 0x28 | OP_SUB_rm_r => 0x29
  | OP_SUB_r_rm_8 => 0x2A | OP_SUB_r_rm => 0x2B | OP_TEST_imm8 => 0xA8 | OP_TEST_imm => 0xA9
  | OP_TEST_rm_imm8 => 0xF6 | OP_TEST_rm_imm => 0xF7 | OP_TEST_rm_r_8 => 0x84
  | OP_TEST_rm_r => 0x85 | OP_WAIT_FWAIT => 0x9B | OP_XCHG_r => 0x90 | OP_XCHG_8 => 0x86
  | OP_XCHG => 0x87 | OP_XLAT => 0xD7 | OP_XOR_rm_imm_8 => 0x80 | OP_XOR_rm_imm => 0x81
  | OP_XOR_rm_imm8 => 0x83 | OP_XOR_imm8 => 0x34 | OP_XOR_imm => 0x35
  | OP_XOR_rm_r_8 => 0x30 | OP_XOR_rm_r => 0x31 | OP_XOR_r_rm_8 => 0x32
  | OP_XOR_r_rm => 0x33 | OP_TWO_BYTES => 0x0F
  end.
Coercion one_byte_code : OneByteOpcodes >-> Z.

(** ** Two-byte opcodes *)

Inductive TwoBytesOpcodes :=
| OP_LAR | OP_LSL | OP_SYSCALL | OP_CLTS | OP_SYSRET | OP_INVD | OP_WBINVD
| OP_BNDCL_BNDCU_BNDLDX_BNDMOV | OP_BNDCN_BNDMK_BNDSTX_BNDMOV | OP_NOP_rm | OP_MOV_r_cr
| OP_MOV_cr_r | OP_MOV_r_dr | OP_MOV_dr_r | OP_WRMSR | OP_RDTSC | OP_RDMSR | OP_RDPMC
| OP_SYSENTER | OP_SYSEXIT | OP_GETSEC | OP_CMOVcc | OP_MOVD_mm_rm32 | OP_MOVD_rm32_mm
| OP_Jcc | OP_SETcc | OP_POP_FS | OP_POP_GS | OP_PUSH_FS | OP_PUSH_GS | OP_CPUID | OP_BT
| OP_SHLD_imm8 | OP_SHLD_cl | OP_RSM | OP_BTS | OP_SHRD_imm8 | OP_SHRD_cl | OP_IMUL_r_rm
| OP_CMPXCHG8 | OP_CMPXCHG | OP_LSS | OP_BTR | OP_LFS | OP_LGS | OP_MOVZX_r_rm8
| OP_MOVZX_r_rm16 | OP_MOVSX_r_rm8 | OP_MOVSX_r_rm16 | OP_POPCNT | OP_BTC | OP_BSF_TZCNT
| OP_BSR_LZCNT | OP_BSWAP | OP_XADD_rm_r_8 | OP_XADD_rm_r.

Definition two_bytes_code (op : TwoBytesOpcodes) : Z :=
  match op with
  | OP_LAR => 0x02 | OP_LSL => 0x03 | OP_SYSCALL => 0x05 | OP_CLTS => 0x06
  | OP_SYSRET => 0x07 | OP_INVD => 0x08 | OP_WBINVD => 0x09
  | OP_BNDCL_BNDCU_BNDLDX_BNDMOV => 0x1A | OP_BNDCN_BNDMK_BNDSTX_BNDMOV => 0x1B
  | OP_NOP_rm => 0x1F | OP_MOV_r_cr => 0x20 | OP_MOV_cr_r => 0x22 | OP_MOV_r_dr => 0x21
  | OP_MOV_dr_r => 0x23 | OP_WRMSR => 0x30 | OP_RDTSC => 0x31 | OP_RDMSR => 0x32
  | OP_RDPMC => 0x33 | OP_SYSENTER => 0x34 | OP_SYSEXIT => 0x35 | OP_GETSEC => 0x36
  | OP_CMOVcc => 0x40 | OP_MOVD_mm_rm32 => 0x6E | OP_MOVD_rm32_mm => 0x7E | OP_Jcc => 0x80
  | OP_SETcc => 0x90 | OP_POP_FS => 0xA1 | OP_POP_GS => 0xA9 | OP_PUSH_FS => 0xA0
  | OP_PUSH_GS => 0xA8 | OP_CPUID => 0xA2 | OP_BT => 0xA3 | OP_SHLD_imm8 => 0xA4
  | OP_SHLD_cl => 0xA5 | OP_RSM => 0xAA | OP_BTS => 0xAB | OP_SHRD_imm8 => 0xAC
  | OP_SHRD_cl => 0xAD | OP_IMUL_r_rm => 0xAF | OP_CMPXCHG8 => 0xB0 | OP_CMPXCHG => 0xB1
  | OP_LSS => 0xB2 | OP_BTR => 0xB3 | OP_LFS => 0xB4 | OP_LGS => 0xB5
  | OP_MOVZX_r_rm8 => 0xB6 | OP_MOVZX_r_rm16 => 0xB7 | OP_MOVSX_r_rm8 => 0xBE
  | OP_MOVSX_r_rm16 => 0xBF | OP_POPCNT => 0xB8 | OP_BTC => 0xBB | OP_BSF_TZCNT => 0xBC
  | OP_BSR_LZCNT => 0xBD | OP_BSWAP => 0xC8 | OP_XADD_rm_r_8 => 0xC0 | OP_XADD_rm_r => 0xC1
  end.
Coercion two_bytes_code : TwoBytesOpcodes >-> Z.

(** ** Prefixes *)

Inductive BiosEmuPrefixes :=
| PREFIX_LOCK | PREFIX_REPNE_REPNZ_BND | PREFIX_REP_REPE_REPZ
| PREFIX_CS_OVERRIDE_BRANCH_NOT_TAKEN | PREFIX_SS_OVERRIDE
| PREFIX_DS_OVERRIDE_BRANCH_TAKEN | PREFIX_ES_OVERRIDE | PREFIX_FS_OVERRIDE
| PREFIX_GS_OVERRIDE | PREFIX_OPERAND_SIZE_OVERRIDE | PREFIX_ADDRSIZE_OVERRIDE.

Definition prefix_code (op : BiosEmuPrefixes) : Z :=
  match op with
  | PREFIX_LOCK => 0xF0 | PREFIX_REPNE_REPNZ_BND => 0xF2 | PREFIX_REP_REPE_REPZ => 0xF3
  | PREFIX_CS_OVERRIDE_BRANCH_NOT_TAKEN => 0x2E | PREFIX_SS_OVERRIDE => 0x36
  | PREFIX_DS_OVERRIDE_BRANCH_TAKEN => 0x3E | PREFIX_ES_OVERRIDE => 0x26
  | PREFIX_FS_OVERRIDE => 0x64 | PREFIX_GS_OVERRIDE => 0x65
  | PREFIX_OPERAND_SIZE_OVERRIDE => 0x66 | PREFIX_ADDRSIZE_OVERRIDE => 0x67
  end.
Coercion prefix_code : BiosEmuPrefixes >-> Z.
