(* ===== verification/Operations.v ===== *)
(** * Group opcodes, ports, frames and bit scans of the BIOS emulator

    src/arch/x86/bios_emu/operations.c, and the operand decoders of decode.c
    that it calls. *)

From S2P Require Import Prelude CMonad Machine Alu Ops.
From stdpp Require Import base tactics list numbers functions.
Local Open Scope Z_scope.
Local Open Scope c_scope.

(** ** The host

    What the emulator gets from outside the program: the value a port read
    returns, given the port traffic so far (newest first), and the order in
    which the compiler evaluates the arguments of a call ([true]: left to
    right), which C leaves open. *)
Record host := Host {
  port_in : list io_event -> width -> Z -> Z;
  args_ltr : bool
}.

(** ** Operand decoders (decode.c) *)

Abbreviation Op1 := (loc -> E BiosEmuExceptions).
Abbreviation Op2 := (loc -> loc -> E BiosEmuExceptions).
Abbreviation Op3 := (loc -> Z -> Z -> E BiosEmuExceptions).

Definition nop_16 : Op1 := fun _ => ret NoException.

(** The whole byte indexes the eight-entry table. *)
Definition decode_r (func16 func32 : Op1) : E BiosEmuExceptions :=
  r ← fetch W8;
  os ← operand_size;
  if os then l ← reg_lut W32 r; func32 l else l ← reg_lut W16 r; func16 l.

Definition decode_rm8_r8 (func : Op2) : E BiosEmuExceptions :=
  modrm ← fetch W8;
  rm ← RM_ADDR modrm;
  r8 ← reg_lut W8 (modrm_reg modrm);
  func rm r8.

Definition decode_rm_r (func16 func32 : Op2) : E BiosEmuExceptions :=
  modrm ← fetch W8;
  rm ← RM_ADDR modrm;
  os ← operand_size;
  if os then r32 ← reg_lut W32 (modrm_reg modrm); func32 rm r32
  else r16 ← reg_lut W16 (modrm_reg modrm); func16 rm r16.

Definition decode_rm_imm8 (func16 func32 : Op2) : E BiosEmuExceptions :=
  modrm ← fetch W8;
  rm ← RM_ADDR modrm;
  value ← fetch W8;
  os ← operand_size;
  if os then func32 rm (LTmp value) else func16 rm (LTmp value).

Definition decode_r8_rm8 (func : Op2) : E BiosEmuExceptions :=
  modrm ← fetch W8;
  rm ← RM_ADDR modrm;
  r8 ← reg_lut W8 (modrm_reg modrm);
  func r8 rm.

Definition decode_r_rm (func16 func32 : Op2) : E BiosEmuExceptions :=
  modrm ← fetch W8;
  os ← operand_size;
  if os then r ← reg_lut W32 (modrm_reg modrm); rm ← RM_ADDR modrm; func32 r rm
  else r ← reg_lut W16 (modrm_reg modrm); rm ← RM_ADDR modrm; func16 r rm.

(** Only [cur_ip] moves past the immediate. *)
Definition decode_rm_r_imm8 (func16 func32 : Op3) : E BiosEmuExceptions :=
  modrm ← fetch W8;
  rm ← RM_ADDR modrm;
  os ← operand_size;
  let w := if os : bool then W32 else W16 in
  r ← reg_lut w (modrm_reg modrm);
  v ← load w r;
  imm ← peek W8; inc_cur_ip 1 ;;
  if os then func32 rm v imm else func16 rm v imm.

Definition decode_rm_r_cl (func16 func32 : Op3) : E BiosEmuExceptions :=
  modrm ← fetch W8;
  rm ← RM_ADDR modrm;
  os ← operand_size;
  let w := if os : bool then W32 else W16 in
  r ← reg_lut w (modrm_reg modrm);
  v ← load w r;
  cl ← get8 ECX;
  if os then func32 rm v cl else func16 rm v cl.

(** A statement that raises nothing. *)
Definition void (m : E unit) : E BiosEmuExceptions := m ;; ret NoException.
(** A call whose result the C code drops. *)
Definition ignore {A} (m : E A) : E BiosEmuExceptions := m ;; ret NoException.

(** [env->cur_ip--; env->regs.eip--]. *)
Definition unread : E unit := skip (-1).

(** ** Group opcodes *)

Definition index_table (sel : Z) : CalcIndex :=
  match sel with
  | 0 => CALC_ADD | 1 => CALC_OR | 2 => CALC_ADC | 3 => CALC_SBB
  | 4 => CALC_AND | 5 => CALC_SUB | 6 => CALC_XOR | _ => CALC_CMP
  end.

Definition decode_0x80_0x83 (opcode : Z) : E BiosEmuExceptions :=
  modrm ← peek W8;
  let index := index_table (modrm_reg modrm) in
  match Z.land opcode 3 with
  | 0 => void (calc_rm_imm_8 index)
  | 1 => void (calc_rm_imm index)
  | 2 => ret InvalidOpcode
  | _ => void (calc_rm_imm8 index)
  end.

Definition decode_0xba : E BiosEmuExceptions :=
  modrm ← peek W8;
  match modrm_reg modrm with
  | 4 => ignore (decode_rm_imm8 (bt_op W16) (bt_op W32))
  | 5 => ignore (decode_rm_imm8 (bts_op W16) (bts_op W32))
  | 6 => ignore (decode_rm_imm8 (btr_op W16) (btr_op W32))
  | 7 => ignore (decode_rm_imm8 (btc_op W16) (btc_op W32))
  | _ => unread ;; ret InvalidOpcode
  end.

(** The tables [rotate_shift_8], [rotate_shift16], [rotate_shift32]. *)
Definition rotate_shift (w : width) (sel : Z) : loc -> Z -> E unit :=
  match sel with
  | 0 => rol_op w | 1 => ror_op w | 2 => rcl_op w | 3 => rcr_op w
  | 4 => shl_sal_op w | 5 => shr_op w | 6 => shl_sal_op w | _ => sar_op w
  end.

(** [f(env, RM_ADDR(env, modrm), *(uint8_t * )env->cur_ip)]: both orders of
    evaluating the two arguments. *)
Definition rm_and_count (h : host) (modrm : Z) : E (loc * Z) :=
  if args_ltr h then l ← RM_ADDR modrm; c ← peek W8; ret (l, c)
  else c ← peek W8; l ← RM_ADDR modrm; ret (l, c).

Definition decode_0xc0 (h : host) : E BiosEmuExceptions :=
  modrm ← fetch W8;
  a ← rm_and_count h modrm;
  rotate_shift W8 (modrm_reg modrm) (fst a) (snd a) ;;
  skip 1 ;; ret NoException.

Definition decode_0xc1 (h : host) : E BiosEmuExceptions :=
  modrm ← fetch W8;
  os ← operand_size;
  let w := if os : bool then W32 else W16 in
  a ← rm_and_count h modrm;
  rotate_shift w (modrm_reg modrm) (fst a) (snd a) ;;
  skip 1 ;; ret NoException.

Definition decode_0xd0 : E BiosEmuExceptions :=
  modrm ← fetch W8;
  l ← RM_ADDR modrm;
  rotate_shift W8 (modrm_reg modrm) l 1 ;; ret NoException.

Definition decode_0xd1 : E BiosEmuExceptions :=
  modrm ← fetch W8;
  os ← operand_size;
  let w := if os : bool then W32 else W16 in
  l ← RM_ADDR modrm;
  rotate_shift w (modrm_reg modrm) l 1 ;; ret NoException.

Definition decode_0xd2 : E BiosEmuExceptions :=
  modrm ← fetch W8;
  l ← RM_ADDR modrm;
  cl ← get8 ECX;
  rotate_shift W8 (modrm_reg modrm) l cl ;; ret NoException.

Definition decode_0xd3 : E BiosEmuExceptions :=
  modrm ← fetch W8;
  os ← operand_size;
  let w := if os : bool then W32 else W16 in
  l ← RM_ADDR modrm;
  cl ← get8 ECX;
  rotate_shift w (modrm_reg modrm) l cl ;; ret NoException.

(** [(uint8_t * )((env->regs.cs << 4) + (size_t)p)]: moving a pointer into
    [regs] by a non-zero amount leaves the structure. *)
Definition cs_relative (p : loc) : E loc :=
  cs ← get32 CS;
  let d := u32 (Z.shiftl cs 4) in
  match p with
  | LMem a => ret (LMem (u64 (d + a)))
  | _ => defined_if (d =? 0) ;; ret p
  end.

Definition decode_0xf6 : E BiosEmuExceptions :=
  modrm ← fetch W8;
  let sel := modrm_reg modrm in
  if sel =? 0 then unread ;; calc_rm_imm8 CALC_TEST ;; ret NoException else
  p ← RM_ADDR modrm;
  os ← operand_size;
  addr ← (if os then ret p else cs_relative p);
  match sel with
  | 2 => v ← load W8 addr; store W8 addr (Z.lnot v) ;; ret NoException
  | 3 => neg_op W8 addr ;; ret NoException
  | 4 => v ← load W8 addr; mul_8 v ;; ret NoException
  | 5 => v ← load W8 addr; imul_8 v ;; ret NoException
  | 6 => v ← load W8 addr; div_8 v
  | 7 => v ← load W8 addr; idiv_8 v
  | _ => ret NoException
  end.

Definition decode_0xf7 : E BiosEmuExceptions :=
  modrm ← fetch W8;
  p ← RM_ADDR modrm;
  os ← operand_size;
  let w := if os : bool then W32 else W16 in
  match modrm_reg modrm with
  | 0 => unread ;; calc_rm_imm CALC_TEST ;; ret NoException
  | 2 => v ← load w p; store w p (Z.lnot v) ;; ret NoException
  | 3 => neg_op w p ;; ret NoException
  | 4 => v ← load w p; (if os then mul_32 v else mul_16 v) ;; ret NoException
  | 5 =>
      (* the 32-bit form also reads a 16-bit operand *)
      v ← load W16 p;
      (if os then a ← get32 EAX; imul_32 (lo EDX) (lo EAX) a v
       else a ← get16 EAX; imul_16 (lo EDX) (lo EAX) a v) ;; ret NoException
  | 6 => v ← load w p; if os then div_32 v else div_16 v
  | 7 => v ← load w p; if os then idiv_32 v else idiv_16 v
  | _ => ret NoException
  end.

(** The callee reads a second ModRM byte. *)
Definition decode_0xfe : E BiosEmuExceptions :=
  modrm ← fetch W8;
  match modrm_reg modrm with
  | 0 => decode_inc_rm8 ;; ret NoException
  | 1 => decode_dec_rm8 ;; ret NoException
  | _ => unread ;; ret InvalidOpcode
  end.

(** The near target of [0xff]: a register, or what [fetch_data_16] and
    [fetch_data_32] read. *)
Definition ff_operand (modrm : Z) : E Z :=
  os ← operand_size;
  if Z.shiftr modrm 6 =? 3 then
    if os : bool then l ← reg_lut W32 (modrm_rm modrm); load W32 l
    else l ← reg_lut W16 (modrm_rm modrm); load W16 l
  else
    if os : bool then
      a ← decode_rm_address_32 modrm; sg ← default_segment; fetch_data_32 sg (u32 a)
    else
      a ← decode_rm_address_16 modrm; sg ← default_segment; fetch_data_16 sg (u16 a).

(** The far target: [address] is overwritten by the fetched offset before the
    segment is fetched behind it. *)
Definition ff_far_operand (modrm : Z) : E (Z * Z) :=
  os ← operand_size;
  if os then
    a ← decode_rm_address_32 modrm; sg ← default_segment;
    address ← fetch_data_32 sg (u32 a);
    segment ← fetch_data_32 sg (u32 (address + 4));
    ret (u16 segment, address)
  else
    a ← decode_rm_address_16 modrm; sg ← default_segment;
    address ← fetch_data_16 sg (u16 a);
    segment ← fetch_data_16 sg (address + 2);
    ret (u16 segment, address).

(** A memory target of a near jump is converted to [int16_t] or [int32_t]; a
    register target to [int32_t]. *)
Definition ff_jmp_offset (os : bool) (modrm v : Z) : Z :=
  if Z.shiftr modrm 6 =? 3 then s32 v else if os then s32 v else s16 v.

(** PUSH r/m evaluates a register after the stack pointer has moved, and a
    memory operand before. *)
Definition ff_push (modrm : Z) : E unit :=
  os ← operand_size;
  let w := if os : bool then W32 else W16 in
  if Z.shiftr modrm 6 =? 3 then l ← reg_lut w (modrm_rm modrm); PUSH (load w l) w
  else v ← ff_operand modrm; PUSH (ret v) w.

Definition decode_0xff : E BiosEmuExceptions :=
  modrm ← fetch W8;
  match modrm_reg modrm with
  | 0 => void decode_inc_rm
  | 1 => void decode_dec_rm
  | 2 => v ← ff_operand modrm; ignore (decode_call_near v)
  | 3 => t ← ff_far_operand modrm; ignore (decode_call_far (fst t) (snd t))
  | 4 => os ← operand_size; v ← ff_operand modrm;
         void (decode_jmp_near (ff_jmp_offset os modrm v))
  | 5 => t ← ff_far_operand modrm; void (decode_jmp_far (fst t) (snd t))
  | 6 => void (ff_push modrm)
  | _ => unread ;; ret InvalidOpcode
  end.

(** ** Ports *)

Definition io_in (h : host) (w : width) (port : Z) : E Z :=
  tr ← gets io;
  let v := wrap (bits w) (port_in h tr w port) in
  modify (log_io (PortIn w port v)) ;; ret v.
Definition io_out (w : width) (port v : Z) : E unit := modify (log_io (PortOut w port v)).

(** The port of the 8-bit forms is a [uint8_t]. *)
Definition decode_in8 (h : host) (port : Z) : E unit :=
  v ← io_in h W8 (u8 port); set8 EAX v.
Definition decode_in (h : host) (port : Z) : E unit :=
  os ← operand_size;
  if os then v ← io_in h W32 port; set32 EAX v else v ← io_in h W16 port; set16 EAX v.
Definition decode_out8 (port : Z) : E unit := v ← get8 EAX; io_out W8 (u8 port) v.
Definition decode_out (port : Z) : E unit :=
  os ← operand_size;
  if os then v ← get32 EAX; io_out W32 port v else v ← get16 EAX; io_out W16 port v.

(** [cld; rep ins] and [cld; rep outs] on the host: the count is CX (ECX for
    32 bits) whatever the prefix, the port is DX. *)
Fixpoint ins_loop (h : host) (w : width) (n : nat) (port : Z) (dst : loc) : E unit :=
  match n with
  | O => ret tt
  | S n => v ← io_in h w port; store w dst v ;;
           ins_loop h w n port (loc_add dst (Z.of_nat (bytes w)))
  end.
Fixpoint outs_loop (w : width) (n : nat) (port : Z) (src : loc) : E unit :=
  match n with
  | O => ret tt
  | S n => v ← load w src; io_out w port v ;;
           outs_loop w n port (loc_add src (Z.of_nat (bytes w)))
  end.
Definition rep_count (w : width) : E Z := match w with W32 => get32 ECX | _ => get16 ECX end.

(** ** The remaining instructions of operations.c *)

Definition decode_lea : E BiosEmuExceptions :=
  modrm ← fetch W8;
  if Z.shiftr modrm 6 =? 3 then ret InvalidOpcode else
  address ← decode_rm_address modrm;
  os ← operand_size;
  if os then dst ← reg_lut W32 (modrm_reg modrm); store W32 dst address ;; ret NoException
  else dst ← reg_lut W16 (modrm_reg modrm); store W16 dst address ;; ret NoException.

Definition decode_setcc (cond : bool) : E unit :=
  modrm ← fetch W8;
  addr ← RM_ADDR modrm;
  store W8 addr (if cond then 1 else 0).

Definition decode_cbw_cwde : E unit :=
  os ← operand_size;
  if os then ax ← get16 EAX; set32 EAX (s16 ax) else al ← get8 EAX; set16 EAX (s8 al).

Definition decode_cwd_cdq : E unit :=
  os ← operand_size;
  if os then
    eax ← get32 EAX; set32 EDX (if truth (Z.shiftr eax 31) then 0xffffffff else 0)
  else ax ← get16 EAX; set16 EDX (Z.shiftr (s16 ax) 16).

(** [for (i = 0; i < n; i++) { if (x & 1) found i; x >>= 1; }]. *)
Fixpoint bsf_scan (n : nat) (i x : Z) : option Z :=
  match n with
  | O => None
  | S n => if truth (Z.land x 1) then Some i else bsf_scan n (i + 1) (Z.shiftr x 1)
  end.
(** [for (i = n - 1; i >= 0; i--) if (x >> i) found i]. *)
Fixpoint bsr_scan (n : nat) (x : Z) : option Z :=
  match n with
  | O => None
  | S n => if truth (Z.shiftr x (Z.of_nat n)) then Some (Z.of_nat n) else bsr_scan n x
  end.

Definition bsf_op (w : width) (dst src : loc) : E BiosEmuExceptions :=
  x ← load w src;
  match bsf_scan (Z.to_nat (bits w)) 0 x with
  | Some i => store w dst i ;; ret NoException
  | None => ret NoException
  end.
Definition bsr_op (w : width) (dst src : loc) : E BiosEmuExceptions :=
  x ← load w src;
  match bsr_scan (Z.to_nat (bits w)) x with
  | Some i => store w dst i ;; ret NoException
  | None => ret NoException
  end.

Definition add_reg16 (r : reg) (n : Z) : E unit := v ← get16 r; set16 r (v + n).
Definition add_reg32 (r : reg) (n : Z) : E unit := v ← get32 r; set32 r (v + n).

Definition decode_enter : E BiosEmuExceptions :=
  alloc_size ← fetch W16;
  nesting_level ← fetch W8;
  os ← operand_size;
  frame_temp ← (if os then PUSH (get32 EBP) W32 ;; get32 ESP
                else PUSH (get16 EBP) W16 ;; get16 ESP);
  (if nesting_level =? 0 then ret tt else
   let times := Z.to_nat (nesting_level - 1) in
   ss ← stack_size;
   if os then
     if ss : bool then
       repeat_m times (add_reg32 EBP (-4) ;; PUSH32 (get32 EBP) W32) ;;
       PUSH32 (ret frame_temp) W32
     else
       repeat_m times (add_reg16 EBP (-4) ;; PUSH16 (get16 EBP) W16) ;;
       PUSH16 (ret frame_temp) W32
   else
     if ss : bool then
       repeat_m times (add_reg32 EBP (-2) ;; PUSH32 (get32 EBP) W32) ;;
       PUSH32 (ret frame_temp) W16
     else
       repeat_m times (add_reg16 EBP (-2) ;; PUSH16 (get16 EBP) W16) ;;
       PUSH16 (ret frame_temp) W16) ;;
  (if os then set32 EBP frame_temp ;; add_esp (- alloc_size)
   else set16 EBP frame_temp ;; add_sp (- alloc_size)) ;;
  ret NoException.

Definition decode_leave : E BiosEmuExceptions :=
  os ← operand_size;
  (if os then bp ← get32 EBP; set32 ESP bp ;; POP (set32 EBP) W32
   else bp ← get16 EBP; set16 ESP bp ;; POP (set16 EBP) W16) ;;
  ret NoException.

(** [bound_16_16], [bound_32_32]. *)
Definition bound_op (w : width) (r src : loc) : E BiosEmuExceptions :=
  lower_bound ← load w src;
  upper_bound ← load w (loc_add src (Z.of_nat (bytes w)));
  v ← load w r;
  ret (if (v <? lower_bound) || (v >? upper_bound) then BOUNDRangeExceeded else NoException).
