(* ===== verification/Decode.v ===== *)
(** * The instruction decoder of the BIOS emulator

    src/arch/x86/bios_emu/decode.c: the string instructions, the one- and
    two-byte opcode switches, the prefix loop and the run loop, and
    [emu_interrupt] of ops/int.c. *)

From S2P Require Import Prelude CMonad Machine Alu Ops Operations Opcodes.
From stdpp Require Import base tactics list numbers functions.
Local Open Scope Z_scope.
Local Open Scope c_scope.

(** ** Switches

    A [switch] with disjoint cases is the list of its cases, each with the test
    that selects it. *)
Definition cases : Type := list (bool * E BiosEmuExceptions).

Fixpoint switch (l : cases) (default : E BiosEmuExceptions) : E BiosEmuExceptions :=
  match l with
  | [] => default
  | (b, m) :: l => if b then m else switch l default
  end.

(** [case base ... (base + n)]. *)
Definition within (op base n : Z) : bool := (base <=? op) && (op <=? base + n).

(** ** String instructions *)

Abbreviation OpStr := (loc -> Z -> loc -> Z -> Z -> E unit).

Definition ins_op (h : host) (w : width) : OpStr := fun dst _ src _ _ =>
  n ← rep_count w; port ← get16 EDX; ins_loop h w (Z.to_nat n) port dst.
Definition outs_op (w : width) : OpStr := fun dst _ src _ _ =>
  n ← rep_count w; port ← get16 EDX; outs_loop w (Z.to_nat n) port src.

(** [(env->flags.repeat) ? env->regs.cx : 1] as an [int]. *)
Definition repeat_times : E Z :=
  os ← operand_size;
  rep ← gets f_repeat;
  if rep then (if os : bool then n ← get32 ECX; ret (s32 n) else get16 ECX) else ret 1.

Definition decode_string_instructions_8 (dst : loc) (delta_dst : Z) (src : loc)
    (delta_src : Z) (opstr_8 : OpStr) : E unit :=
  df ← flag_set DirectionFlagBit;
  let delta_dst := if df : bool then - delta_dst else delta_dst in
  let delta_src := if df : bool then - delta_src else delta_src in
  n ← repeat_times;
  opstr_8 dst delta_dst src delta_src n.

(** Only the destination step is scaled to the operand size. *)
Definition decode_string_instructions_16 (dst : loc) (delta_dst : Z) (src : loc)
    (delta_src : Z) (opstr_16 opstr_32 : OpStr) : E unit :=
  df ← flag_set DirectionFlagBit;
  let delta_dst := if df : bool then - delta_dst else delta_dst in
  let delta_src := if df : bool then - delta_src else delta_src in
  os ← operand_size;
  n ← repeat_times;
  if os then opstr_32 dst (Z.shiftl delta_dst 2) src delta_src n
  else opstr_16 dst (Z.shiftl delta_dst 1) src delta_src n.

(** ** Two-byte opcodes *)

Definition two_bytes_cases (op : Z) : cases :=
  [ (op =? OP_BSF_TZCNT, ignore (decode_rm_r (bsf_op W16) (bsf_op W32)));
    (op =? OP_BSR_LZCNT, ignore (decode_rm_r (bsr_op W16) (bsr_op W32)));
    (op =? OP_BSWAP, modify (set_operand_size true) ;; ignore (decode_r nop_16 bswap_32));
    (op =? OP_BT, ignore (decode_rm_r (bt_op W16) (bt_op W32)));
    (op =? OP_BTC, ignore (decode_rm_r (btc_op W16) (btc_op W32)));
    (op =? OP_BTR, ignore (decode_rm_r (btr_op W16) (btr_op W32)));
    (op =? OP_BTS, ignore (decode_rm_r (bts_op W16) (bts_op W32)));
    (op =? OP_CMPXCHG8, ignore (decode_rm8_r8 (cmpxchg_op W8)));
    (op =? OP_CMPXCHG, ignore (decode_rm_r (cmpxchg_op W16) (cmpxchg_op W32)));
    (op =? 0xba, ignore decode_0xba);
    (op =? OP_IMUL_r_rm, void decode_imul_r_rm);
    (within op OP_Jcc 15, c ← condition op; void (decode_jcc c));
    (op =? OP_LSS, ignore (decode_rm_r (lxs_16_16 SS) lxs_32_32));
    (op =? OP_LFS, ignore (decode_rm_r (lxs_16_16 FS) lxs_32_32));
    (op =? OP_LGS, ignore (decode_rm_r (lxs_16_16 GS) lxs_32_32));
    (op =? OP_MOVZX_r_rm8, void decode_movzx_r_rm8);
    (op =? OP_MOVZX_r_rm16, void decode_movzx_r_rm16);
    (op =? OP_MOVSX_r_rm8, void decode_movsx_r_rm8);
    (op =? OP_MOVSX_r_rm16, void decode_movsx_r_rm16);
    (op =? OP_PUSH_FS, void (PUSH_SREG FS));
    (op =? OP_PUSH_GS, void (PUSH_SREG GS));
    (op =? OP_POP_FS, void (POP_SREG FS));
    (op =? OP_POP_GS, void (POP_SREG GS));
    (within op OP_SETcc 15, c ← condition op; void (decode_setcc c));
    (op =? OP_SHLD_imm8, ignore (decode_rm_r_imm8 (shld_op W16) (shld_op W32)));
    (op =? OP_SHLD_cl, ignore (decode_rm_r_cl (shld_op W16) (shld_op W32)));
    (op =? OP_SHRD_imm8, ignore (decode_rm_r_imm8 (shrd_op W16) (shrd_op W32)));
    (op =? OP_SHRD_cl, ignore (decode_rm_r_cl (shrd_op W16) (shrd_op W32)));
    (op =? OP_XADD_rm_r_8, ignore (decode_rm8_r8 (xadd_op W8)));
    (op =? OP_XADD_rm_r, ignore (decode_rm_r (xadd_op W16) (xadd_op W32))) ].

Definition decode_two_bytes_opcode : E BiosEmuExceptions :=
  op ← fetch W8;
  switch (two_bytes_cases op) (ret InvalidOpcode).

(** ** One-byte opcodes *)

Definition one_byte_cases_A_I (h : host) (op : Z) : cases :=
  [ (op =? OP_AAA, void decode_aaa);
    (op =? OP_AAD, void decode_aad);
    (op =? OP_AAM, void decode_aam);
    (op =? OP_AAS, void decode_aas);
    (op =? OP_BOUND, decode_r_rm (bound_op W16) (bound_op W32));
    (op =? OP_CALL, decode_call);
    (op =? OP_CALL_ptr, decode_call_ptr);
    (op =? OP_CBW_CWDE, void decode_cbw_cwde);
    (op =? OP_CLC, void (flag_clear (BIT CarryFlagBit)));
    (op =? OP_CLD, void (flag_clear (BIT DirectionFlagBit)));
    (op =? OP_CLI, flag_clear (BIT InterruptEnableFlagBit) ;; void (modify (log_io HostCli)));
    (op =? OP_CMC, fl ← flags; void (set_flags (Z.lxor fl (BIT CarryFlagBit))));
    (op =? OP_CMPS8,
      src ← GET_REG_POINTER DS ESI; dst ← GET_REG_POINTER ES EDI;
      void (decode_string_instructions_8 dst 1 src 1 (cmps_op W8)));
    (op =? OP_CMPS,
      src ← GET_REG_POINTER DS ESI; dst ← GET_REG_POINTER ES EDI;
      void (decode_string_instructions_16 dst 1 src 1 (cmps_op W16) (cmps_op W32)));
    (op =? OP_CWD_CDQ, void decode_cwd_cdq);
    (op =? OP_ENTER, decode_enter);
    (op =? OP_DAA, void decode_daa);
    (op =? OP_DAS, void decode_das);
    (within op OP_DEC 7, void (decode_dec_r op));
    (op =? OP_HLT, ret EventHalted);
    (op =? OP_IMUL_imm8, void decode_imul_r_rm_imm8);
    (op =? OP_IMUL_imm16, void decode_imul_r_rm_imm16);
    (op =? OP_IN8, p ← peek W8; decode_in8 h p ;; void (skip 1));
    (op =? OP_IN, p ← peek W8; decode_in h p ;; void (skip 2));
    (op =? OP_IN8_dx, dx ← get16 EDX; void (decode_in8 h dx));
    (op =? OP_IN_dx, dx ← get16 EDX; void (decode_in h dx));
    (op =? OP_INS8,
      dst ← GET_REG_POINTER DS ESI;
      void (decode_string_instructions_8 dst 0 (lo EDX) 1 (ins_op h W8)));
    (op =? OP_INS,
      dst ← GET_REG_POINTER DS ESI;
      void (decode_string_instructions_16 dst 0 (lo EDX) 1 (ins_op h W16) (ins_op h W32)));
    (within op OP_INC 7, void (decode_inc_r op));
    (op =? OP_INT, v ← peek W8; inc_cur_ip 1 ;; decode_int v);
    (op =? OP_INTO,
      o ← flag_set OverflowFlagBit; if o then decode_int 4 else ret NoException);
    (op =? OP_IRET_IRETD, decode_iret) ].

(** [env->regs.cx--; count = env->regs.cx] at the operand size. *)
Definition loop_count : E Z :=
  os ← operand_size;
  if os then add_reg32 ECX (-1) ;; get32 ECX else add_reg16 ECX (-1) ;; get16 ECX.

Definition one_byte_cases_J_M (op : Z) : cases :=
  [ (within op OP_JO_8 15, c ← condition op; void (decode_jcc_8 c));
    (op =? OP_JMP8, void decode_jmp8);
    (op =? OP_JMP, void decode_jmp);
    (op =? OP_LongJMP, void decode_long_jmp_ptr16);
    (op =? OP_LAHF, fl ← flags; void (set8h EAX (Z.lor 2 (Z.land fl 0xd5))));
    (op =? OP_LDS, ignore (decode_r_rm (lxs_16_16 DS) lxs_32_32));
    (op =? OP_LEA, decode_lea);
    (op =? OP_LEAVE, ignore decode_leave);
    (op =? OP_LES, ignore (decode_r_rm (lxs_16_16 ES) lxs_32_32));
    (op =? OP_LODS8,
      src ← GET_REG_POINTER DS ESI;
      void (decode_string_instructions_8 (lo EAX) 0 src 1 (movs_op W8)));
    (op =? OP_LODS,
      src ← GET_REG_POINTER DS ESI;
      void (decode_string_instructions_16 (GET_REG_ADDR EAX) 0 src 1
              (movs_op W16) (movs_op W32)));
    (op =? OP_LOOP, n ← loop_count; void (when (truth n) decode_jmp8));
    (op =? OP_LOOPE,
      n ← loop_count; void (when (truth n) (c ← condition 4; decode_jcc c)));
    (op =? OP_LOOPNE,
      n ← loop_count; void (when (truth n) (c ← condition 5; decode_jcc c)));
    (op =? OP_MOV_rm_r8, decode_rm8_r8 (mov_op W8));
    (op =? OP_MOV_rm_r, decode_rm_r (mov_op W16) (mov_op W32));
    (op =? OP_MOV_r_rm8, decode_r8_rm8 (mov_op W8));
    (op =? OP_MOV_r_rm, decode_r_rm (mov_op W16) (mov_op W32));
    (op =? OP_MOV_rm_sreg, void decode_mov_rm_sreg);
    (op =? OP_MOV_sreg_rm, void decode_mov_sreg_rm);
    (op =? OP_MOV_a_moffs8, void decode_mov_r_moffs_8);
    (op =? OP_MOV_a_moffs, void decode_mov_r_moffs);
    (op =? OP_MOV_moffs8_a, void decode_mov_moffs_r_8);
    (op =? OP_MOV_moffs_a, void decode_mov_moffs_r);
    (within op OP_MOV_r_imm8 7, void (decode_mov_r_imm8 op));
    (within op OP_MOV_r_imm 7, void (decode_mov_r_imm op));
    (op =? OP_MOV_rm_imm8, decode_rm_imm8 (mov_op W16) (mov_op W32));
    (op =? OP_MOV_rm_imm, void decode_mov_rm_imm);
    (op =? OP_MOVS8,
      src ← GET_REG_POINTER DS ESI; dst ← GET_REG_POINTER ES EDI;
      void (decode_string_instructions_8 dst 1 src 1 (movs_op W8)));
    (op =? OP_MOVS,
      src ← GET_REG_POINTER DS ESI; dst ← GET_REG_POINTER ES EDI;
      void (decode_string_instructions_16 dst 1 src 1 (movs_op W16) (movs_op W32))) ].

(** PUSH imm8 moves [eip] past the immediate but not [cur_ip]. *)
Definition one_byte_cases_N_R (op : Z) : cases :=
  [ (op =? OP_NOP, ret NoException);
    (op =? OP_OUT8, p ← peek W8; decode_out8 p ;; void (skip 1));
    (op =? OP_OUT, p ← peek W8; decode_out p ;; void (skip 2));
    (op =? OP_OUT8_dx, dx ← get16 EDX; void (decode_out8 dx));
    (op =? OP_OUT_dx, dx ← get16 EDX; void (decode_out dx));
    (op =? OP_OUTS8,
      src ← GET_REG_POINTER DS ESI;
      void (decode_string_instructions_8 (lo EDX) 1 src 0 (outs_op W8)));
    (op =? OP_OUTS,
      src ← GET_REG_POINTER DS ESI;
      void (decode_string_instructions_16 (lo EDX) 1 src 0 (outs_op W16) (outs_op W32)));
    (op =? OP_POP_rm, void decode_pop_rm);
    (within op OP_POP_r 7, void (decode_pop_r op));
    (op =? OP_POP_DS, void (POP_SREG DS));
    (op =? OP_POP_ES, void (POP_SREG ES));
    (op =? OP_POP_SS, void (POP_SREG SS));
    (op =? OP_POPA_POPAD, void decode_popa_popad);
    (op =? OP_POPF_POPFD,
      os ← operand_size;
      void (if os then POP (set32 EFLAGS) W32 else POP set_flags W16));
    (op =? OP_PUSH_CS, void (PUSH_SREG CS));
    (op =? OP_PUSH_SS, void (PUSH_SREG SS));
    (op =? OP_PUSH_DS, void (PUSH_SREG DS));
    (op =? OP_PUSH_ES, void (PUSH_SREG ES));
    (op =? OP_PUSH_imm8, PUSH (peek W8) W8 ;; void (inc_eip 1));
    (op =? OP_PUSH_imm,
      os ← operand_size;
      if os then PUSH (peek W32) W32 ;; void (skip 4)
      else PUSH (peek W16) W16 ;; void (skip 2));
    (within op OP_PUSH_r 7,
      os ← operand_size;
      if os then r ← reg_lut W32 (Z.land op 7); void (PUSH (load W32 r) W32)
      else r ← reg_lut W16 (Z.land op 7); void (PUSH (load W16 r) W16));
    (op =? OP_PUSHA_PUSHAD, void decode_pusha_pushad);
    (op =? OP_PUSHF_PUSHFD,
      os ← operand_size;
      void (if os then PUSH (v ← get32 EFLAGS; ret (Z.land v 0x00fcffff)) W32
            else PUSH flags W16));
    (op =? OP_RET, decode_ret_near 0);
    (op =? OP_LongRET, decode_ret_far 0);
    (op =? OP_RET_imm16, decode_ret_imm16);
    (op =? OP_LongRET_imm16, decode_ret_far_imm16) ].

(** [ALU_CASE(name)] of alu.h. *)
Definition alu_cases (op : Z) (index : CalcIndex)
    (imm8 imm rm_r_8 rm_r r_rm_8 r_rm : Z) : cases :=
  [ (op =? imm8, void (calc_a_imm8 index));
    (op =? imm, void (calc_a_imm index));
    (op =? rm_r_8, void (calc_rm_r_8 index));
    (op =? rm_r, void (calc_rm_r index));
    (op =? r_rm_8, void (calc_r_rm_8 index));
    (op =? r_rm, void (calc_r_rm index)) ].

Definition one_byte_alu_cases (op : Z) : cases :=
  alu_cases op CALC_ADC OP_ADC_imm8 OP_ADC_imm OP_ADC_rm_r_8 OP_ADC_rm_r OP_ADC_r_rm_8 OP_ADC_r_rm ++
  alu_cases op CALC_ADD OP_ADD_imm8 OP_ADD_imm OP_ADD_rm_r_8 OP_ADD_rm_r OP_ADD_r_rm_8 OP_ADD_r_rm ++
  alu_cases op CALC_AND OP_AND_imm8 OP_AND_imm OP_AND_rm_r_8 OP_AND_rm_r OP_AND_r_rm_8 OP_AND_r_rm ++
  alu_cases op CALC_XOR OP_XOR_imm8 OP_XOR_imm OP_XOR_rm_r_8 OP_XOR_rm_r OP_XOR_r_rm_8 OP_XOR_r_rm ++
  alu_cases op CALC_OR OP_OR_imm8 OP_OR_imm OP_OR_rm_r_8 OP_OR_rm_r OP_OR_r_rm_8 OP_OR_r_rm ++
  alu_cases op CALC_SBB OP_SBB_imm8 OP_SBB_imm OP_SBB_rm_r_8 OP_SBB_rm_r OP_SBB_r_rm_8 OP_SBB_r_rm ++
  alu_cases op CALC_SUB OP_SUB_imm8 OP_SUB_imm OP_SUB_rm_r_8 OP_SUB_rm_r OP_SUB_r_rm_8 OP_SUB_r_rm ++
  alu_cases op CALC_CMP OP_CMP_imm8 OP_CMP_imm OP_CMP_rm_r_8 OP_CMP_rm_r OP_CMP_r_rm_8 OP_CMP_r_rm.

Definition one_byte_cases_S_X (h : host) (op : Z) : cases :=
  [ (op =? OP_SAHF, ah ← get8h EAX; void (set_flags (Z.lor 2 (Z.land ah 0x3e))));
    (op =? OP_SCAS8,
      src ← GET_REG_POINTER ES EDI;
      void (decode_string_instructions_8 (lo EAX) 0 src 1 (cmps_op W8)));
    (op =? OP_SCAS,
      src ← GET_REG_POINTER ES EDI;
      void (decode_string_instructions_16 (GET_REG_ADDR EAX) 0 src 1
              (cmps_op W16) (cmps_op W32)));
    (op =? OP_STC, void (flag_or (BIT CarryFlagBit)));
    (op =? OP_STD, void (flag_or (BIT DirectionFlagBit)));
    (op =? OP_STI, flag_or (BIT InterruptEnableFlagBit) ;; void (modify (log_io HostSti)));
    (op =? OP_STOS8,
      es ← get32 ES; di ← get16 EDI;
      void (decode_string_instructions_8 (LMem (get_phy_addr es di)) 1 (lo EAX) 0 (movs_op W8)));
    (op =? OP_STOS,
      es ← get32 ES; di ← get16 EDI;
      void (decode_string_instructions_16 (LMem (get_phy_addr es di)) 1 (GET_REG_ADDR EAX) 0
              (movs_op W16) (movs_op W32)));
    (op =? OP_TEST_imm8, void (calc_a_imm8 CALC_TEST));
    (op =? OP_TEST_imm, void (calc_a_imm CALC_TEST));
    (op =? OP_TEST_rm_r_8, void (calc_rm_r_8 CALC_TEST));
    (op =? OP_TEST_rm_r, void (calc_rm_r CALC_TEST));
    (within op (OP_XCHG_r + 1) 6, decode_r_rm (xchg_op W16) (xchg_op W32));
    (op =? OP_XCHG_8, decode_rm8_r8 (xchg_op W8));
    (op =? OP_XCHG, decode_rm_r (xchg_op W16) (xchg_op W32));
    (op =? OP_XLAT,
      os ← operand_size;
      ds ← get32 DS; al ← get8 EAX;
      if os then
        ebx ← get32 EBX; v ← load W32 (LMem (get_phy_addr ds (u32 (ebx + al)))); void (set8 EAX v)
      else
        bx ← get16 EBX; v ← load W8 (LMem (get_phy_addr ds (bx + al))); void (set8 EAX v)) ].

Definition one_byte_group_cases (h : host) (op : Z) : cases :=
  [ (op =? OP_TWO_BYTES, decode_two_bytes_opcode);
    (within op 0x80 3, decode_0x80_0x83 op);
    (op =? 0xc0, decode_0xc0 h);
    (op =? 0xc1, decode_0xc1 h);
    (op =? 0xd0, decode_0xd0);
    (op =? 0xd1, decode_0xd1);
    (op =? 0xd2, decode_0xd2);
    (op =? 0xd3, decode_0xd3);
    (op =? 0xf6, decode_0xf6);
    (op =? 0xf7, decode_0xf7);
    (op =? 0xfe, decode_0xfe);
    (op =? 0xff, decode_0xff) ].

Definition one_byte_cases (h : host) (op : Z) : cases :=
  one_byte_cases_A_I h op ++ one_byte_cases_J_M op ++ one_byte_cases_N_R op ++
  one_byte_cases_S_X h op ++ one_byte_alu_cases op ++ one_byte_group_cases h op.

Definition decode_one_byte_opcode (h : host) : E BiosEmuExceptions :=
  op ← fetch W8;
  switch (one_byte_cases h op) (unread ;; ret InvalidOpcode).

(** ** Running *)

Inductive prefix_kind := PrefixEffect (m : E unit) | NotPrefix.

Definition prefix_action (b : Z) : prefix_kind :=
  if b =? PREFIX_LOCK then PrefixEffect (ret tt)
  else if b =? PREFIX_REPNE_REPNZ_BND then
    PrefixEffect (modify (set_repeat true) ;; modify (set_rep_e_ne false))
  else if b =? PREFIX_REP_REPE_REPZ then
    PrefixEffect (modify (set_repeat true) ;; modify (set_rep_e_ne true))
  else if b =? PREFIX_CS_OVERRIDE_BRANCH_NOT_TAKEN then PrefixEffect (modify (set_default_ss CS))
  else if b =? PREFIX_SS_OVERRIDE then PrefixEffect (modify (set_default_ss SS))
  else if b =? PREFIX_DS_OVERRIDE_BRANCH_TAKEN then PrefixEffect (modify (set_default_ss DS))
  else if b =? PREFIX_ES_OVERRIDE then PrefixEffect (modify (set_default_ss ES))
  else if b =? PREFIX_FS_OVERRIDE then PrefixEffect (modify (set_default_ss FS))
  else if b =? PREFIX_GS_OVERRIDE then PrefixEffect (modify (set_default_ss GS))
  else if b =? PREFIX_OPERAND_SIZE_OVERRIDE then
    PrefixEffect (os ← operand_size; modify (set_operand_size (negb os)))
  else if b =? PREFIX_ADDRSIZE_OVERRIDE then
    PrefixEffect (az ← address_size; modify (set_address_size (negb az)))
  else NotPrefix.

(** The prefix loop; [fuel] bounds the number of prefix bytes. *)
Fixpoint prefix_loop (fuel : nat) : E unit :=
  match fuel with
  | O => no_fuel
  | S fuel =>
      b ← fetch W8;
      match prefix_action b with
      | PrefixEffect m => m ;; prefix_loop fuel
      | NotPrefix => unread
      end
  end.

Definition emu_run_instruction (h : host) (fuel : nat) : E BiosEmuExceptions :=
  modify (set_default_ss DS) ;;
  dos ← gets f_default_operand_size; modify (set_operand_size dos) ;;
  das ← gets f_default_address_size; modify (set_address_size das) ;;
  modify (set_repeat false) ;;
  prefix_loop fuel ;;
  decode_one_byte_opcode h.

(** The run loop: [steps] bounds the instructions, [fuel] the prefixes of each. *)
Fixpoint emu_run (h : host) (fuel steps : nat) : E BiosEmuExceptions :=
  match steps with
  | O => no_fuel
  | S steps =>
      ex ← emu_run_instruction h fuel;
      if decide (ex = NoException) then emu_run h fuel steps else ret ex
  end.

Definition emu_interrupt (h : host) (fuel steps : nat) (vector : Z) : E BiosEmuExceptions :=
  modify (set_stop_condition IntDone) ;;
  sp ← STACK_POINTER16;
  modify (set_int_entry_stack sp) ;;
  decode_int (u8 vector) ;;
  emu_run h fuel steps.
