(* ===== verification/Stable.v ===== *)
(** * Invariants of the whole emulator

    The interface [Stable] says what a property of the emulator state must
    survive: the few primitive updates the C code makes.  Every operation of
    the emulator is built from these updates, so every stable property is kept
    by every instruction, by the run loop and by the string loops; the proofs
    are made once, against the interface.  The instances are well-formedness of
    the machine integers, the configuration fields that no instruction changes,
    and the port trace that only grows. *)

From S2P Require Import Prelude CMonad Machine Alu Ops Operations Opcodes Decode.
From stdpp Require Import base tactics list numbers functions.
Local Open Scope Z_scope.
Local Open Scope c_scope.

Class Stable (I : env -> Prop) : Prop := {
  stable_reg w r off v e : reg_access_ok w off = true -> I e -> I (put_reg w r off v e);
  stable_mem w a v e : I e -> I (put_mem w a v e);
  stable_ip f e : I e -> I (upd_cur_ip f e);
  stable_default_ss r e : I e -> I (set_default_ss r e);
  stable_operand_size b e : I e -> I (set_operand_size b e);
  stable_address_size b e : I e -> I (set_address_size b e);
  stable_repeat b e : I e -> I (set_repeat b e);
  stable_rep_e_ne b e : I e -> I (set_rep_e_ne b e);
  stable_log ev e : I e -> I (log_io ev e)
}.

(** Unfold the function at the head of the program of a [spec] goal. *)
Ltac head_of t := lazymatch t with ?f _ => head_of f | _ => t end.
Ltac keeps_unfold :=
  lazymatch goal with
  | |- spec _ ?m _ => let h := head_of m in unfold h; cbv beta zeta
  end.
Ltac keeps_deep :=
  repeat first [ solve [eauto 2 with spec nocore] | progress keeps_step
               | progress keeps_unfold ].

Section stable.
Context (I : env -> Prop) `{!Stable I}.

Lemma keeps_load w l : keeps I (load w l).
Proof. destruct l; unfold load; keeps_auto. Qed.

Lemma keeps_store w l v : keeps I (store w l v).
Proof.
  destruct l as [r off|a|t]; unfold store; [|by apply keeps_modify, stable_mem|keeps_auto].
  intros e u e' He H. apply bind_inv in H as (? & e1 & Hd & [= _ <-]).
  unfold defined_if in Hd. destruct (reg_access_ok w off) eqn:Hok; [|done].
  injection Hd as _ <-. by apply stable_reg.
Qed.

Lemma keeps_ip f : keeps I (modify (upd_cur_ip f)).
Proof. apply keeps_modify, stable_ip. Qed.
Lemma keeps_default_ss r : keeps I (modify (set_default_ss r)).
Proof. apply keeps_modify, stable_default_ss. Qed.
Lemma keeps_operand_size b : keeps I (modify (set_operand_size b)).
Proof. apply keeps_modify, stable_operand_size. Qed.
Lemma keeps_address_size b : keeps I (modify (set_address_size b)).
Proof. apply keeps_modify, stable_address_size. Qed.
Lemma keeps_set_repeat b : keeps I (modify (set_repeat b)).
Proof. apply keeps_modify, stable_repeat. Qed.
Lemma keeps_rep_e_ne b : keeps I (modify (set_rep_e_ne b)).
Proof. apply keeps_modify, stable_rep_e_ne. Qed.
Lemma keeps_log ev : keeps I (modify (log_io ev)).
Proof. apply keeps_modify, stable_log. Qed.
End stable.

#[export] Hint Resolve keeps_load keeps_store keeps_ip keeps_default_ss keeps_operand_size
  keeps_address_size keeps_set_repeat keeps_rep_e_ne keeps_log : spec.
#[export] Hint Extern 1 (Stable _) => assumption : spec.

Section operations.
Context (I : env -> Prop) `{!Stable I}.

Lemma keeps_SET_FLAG b k : keeps I (SET_FLAG b k).
Proof. keeps_deep. Qed.
Lemma keeps_skip n : keeps I (skip n).
Proof. keeps_deep. Qed.
Lemma keeps_fetch w : keeps I (fetch w).
Proof. keeps_deep. Qed.
#[local] Hint Resolve keeps_SET_FLAG keeps_skip keeps_fetch : spec.

Lemma keeps_RM_ADDR modrm : keeps I (RM_ADDR modrm).
Proof. keeps_deep. Qed.
Lemma keeps_RM_ADDR16 modrm : keeps I (RM_ADDR16 modrm).
Proof. keeps_deep. Qed.
Lemma keeps_RM_ADDR32 modrm : keeps I (RM_ADDR32 modrm).
Proof. keeps_deep. Qed.
#[local] Hint Resolve keeps_RM_ADDR keeps_RM_ADDR16 keeps_RM_ADDR32 : spec.

Lemma keeps_calc w index dst src : keeps I (calc w index dst src).
Proof. destruct index; unfold calc; keeps_deep. Qed.
Lemma keeps_rotate_shift w sel l c : keeps I (rotate_shift w sel l c).
Proof.
  unfold rotate_shift.
  repeat match goal with |- context[match ?x with _ => _ end] => is_var x; destruct x end;
    keeps_deep.
Qed.
#[local] Hint Resolve keeps_calc keeps_rotate_shift : spec.

Lemma keeps_movs_loop w n : forall dst dd src ds, keeps I (movs_loop w n dst dd src ds).
Proof. induction n; intros; simpl; keeps_auto. Qed.
Lemma keeps_cmps_loop w n : forall dst dd src ds, keeps I (cmps_loop w n dst dd src ds).
Proof. induction n; intros; simpl; keeps_deep. Qed.
Lemma keeps_ins_loop h w n : forall port dst, keeps I (ins_loop h w n port dst).
Proof. induction n; intros; simpl; keeps_deep. Qed.
Lemma keeps_outs_loop w n : forall port src, keeps I (outs_loop w n port src).
Proof. induction n; intros; simpl; keeps_deep. Qed.
#[local] Hint Resolve keeps_movs_loop keeps_cmps_loop keeps_ins_loop keeps_outs_loop : spec.

(** A switch keeps what each of its cases keeps. *)
Lemma keeps_switch l d :
  Forall (fun c => keeps I (snd c)) l -> keeps I d -> keeps I (switch l d).
Proof. intros Hl ?. induction Hl as [|[[] m] l]; simpl in *; auto. Qed.

Lemma keeps_two_bytes : keeps I decode_two_bytes_opcode.
Proof.
  unfold decode_two_bytes_opcode. apply keeps_bind; [auto with spec|intros op].
  apply keeps_switch; [|keeps_auto].
  unfold two_bytes_cases. repeat constructor; simpl; keeps_deep.
Qed.
#[local] Hint Resolve keeps_two_bytes : spec.

Lemma keeps_cases_A_I h op : Forall (fun c => keeps I (snd c)) (one_byte_cases_A_I h op).
Proof. repeat constructor; simpl; keeps_deep. Qed.
Lemma keeps_cases_J_M op : Forall (fun c => keeps I (snd c)) (one_byte_cases_J_M op).
Proof. repeat constructor; simpl; keeps_deep. Qed.
Lemma keeps_cases_N_R op : Forall (fun c => keeps I (snd c)) (one_byte_cases_N_R op).
Proof. repeat constructor; simpl; keeps_deep. Qed.
Lemma keeps_cases_S_X h op : Forall (fun c => keeps I (snd c)) (one_byte_cases_S_X h op).
Proof. repeat constructor; simpl; keeps_deep. Qed.
Lemma keeps_cases_alu op : Forall (fun c => keeps I (snd c)) (one_byte_alu_cases op).
Proof. repeat constructor; simpl; keeps_deep. Qed.
Lemma keeps_cases_group h op : Forall (fun c => keeps I (snd c)) (one_byte_group_cases h op).
Proof. repeat constructor; simpl; keeps_deep. Qed.

Lemma keeps_one_byte h : keeps I (decode_one_byte_opcode h).
Proof.
  unfold decode_one_byte_opcode. apply keeps_bind; [auto with spec|intros op].
  apply keeps_switch; [|keeps_deep]. unfold one_byte_cases. rewrite !Forall_app.
  auto 10 using keeps_cases_A_I, keeps_cases_J_M, keeps_cases_N_R, keeps_cases_S_X,
    keeps_cases_alu, keeps_cases_group.
Qed.
#[local] Hint Resolve keeps_one_byte : spec.

Lemma keeps_prefix_action b m : prefix_action b = PrefixEffect m -> keeps I m.
Proof.
  unfold prefix_action. repeat case_match; intros [= <-]; keeps_deep.
Qed.

Lemma keeps_prefix_loop fuel : keeps I (prefix_loop fuel).
Proof.
  induction fuel as [|fuel IH]; simpl; [keeps_auto|].
  apply keeps_bind; [auto with spec|intros b].
  destruct (prefix_action b) eqn:Hb; [|keeps_deep].
  apply keeps_bind; [by eapply keeps_prefix_action|done].
Qed.
#[local] Hint Resolve keeps_prefix_loop : spec.

Lemma keeps_run_instruction h fuel : keeps I (emu_run_instruction h fuel).
Proof. keeps_deep. Qed.
#[local] Hint Resolve keeps_run_instruction : spec.

Lemma keeps_emu_run h fuel steps : keeps I (emu_run h fuel steps).
Proof.
  induction steps as [|n IH]; simpl; [keeps_auto|].
  apply keeps_bind; [auto with spec|intros ex]. by case_decide; keeps_auto.
Qed.

Lemma keeps_decode_int v : keeps I (decode_int v).
Proof. keeps_deep. Qed.
End operations.

(** ** Well-formed states *)

(** Every C object of the state holds a value of its type. *)
Record wf (e : env) : Prop := {
  wf_regs r : 0 <= regs e r < 2 ^ 32;
  wf_mem : byte_mem (mem e);
  wf_ip : 0 <= cur_ip e < 2 ^ 64;
  wf_bottom : 0 <= stack_bottom e < 2 ^ 32
}.

Lemma reg_access_ok_spec w off :
  reg_access_ok w off = true <-> 0 <= off /\ 8 * off + bits w <= 32.
Proof. unfold reg_access_ok. rewrite andb_true_iff, !Z.leb_le. destruct w; cbn [bytes bits]; lia. Qed.

#[global] Instance wf_stable : Stable wf.
Proof.
  split; intros *; try solve [intros [? ? ? ?]; by split].
  - rewrite reg_access_ok_spec. intros [? ?] [Hr ? ? ?]. split; simpl; auto.
    intros r'. destruct (decide (r = r')) as [<-|].
    + rewrite fn_lookup_insert. apply put_field_range; auto; destruct w; simpl in *; lia.
    + by rewrite fn_lookup_insert_ne.
  - intros [? ? ? ?]; split; simpl; auto using mem_store_byte_mem.
  - intros [? ? ? ?]; split; simpl; auto. by apply wrap_range.
Qed.

(** ** The fields no instruction writes *)

Definition config (e : env) :=
  (stack_bottom e, ivt e, f_stack_size e, f_default_operand_size e,
   f_default_address_size e, stop_condition e, int_entry_stack e).

#[global] Instance config_stable c : Stable (fun e => config e = c).
Proof. by split. Qed.

(** ** The port trace *)

#[global] Instance trace_stable tr : Stable (fun e => tr `suffix_of` io e).
Proof. split; try done. intros ev e ?. simpl. by apply suffix_cons_r. Qed.

Lemma keeps_interrupt_wf h fuel steps v : keeps wf (emu_interrupt h fuel steps v).
Proof.
  unfold emu_interrupt.
  apply keeps_bind; [by apply keeps_modify; intros e [? ? ? ?]; split|intros _].
  apply keeps_bind; [keeps_deep|intros sp].
  apply keeps_bind; [by apply keeps_modify; intros e [? ? ? ?]; split|intros _].
  apply keeps_bind; [apply keeps_decode_int, wf_stable|intros _].
  apply keeps_emu_run, wf_stable.
Qed.

(** ** Sample states

    Code bytes from address 0 on and zeros elsewhere, in 16-bit mode, with the
    stack pointer at [sp]. *)
Definition code (l : list Z) (a : Z) : Z :=
  if a <? 0 then 0 else default 0 (l !! Z.to_nat a).
Definition sample_regs (sp : Z) (r : reg) : Z := match r with ESP => sp | _ => 0 end.
Definition sample (sp : Z) (l : list Z) : env :=
  Env (sample_regs sp) (code l) 0 0 0 false false false false false false false DS IntDone 0 [].
Definition sample_host : host := Host (fun _ _ _ => 0) true.

Lemma code_byte_mem l : Forall (fun b => 0 <= b < 256) l -> byte_mem (code l).
Proof.
  intros Hl a. unfold code. destruct (a <? 0); [lia|].
  destruct (l !! Z.to_nat a) eqn:Ha; simpl; [|lia]. by eapply Forall_lookup_1 in Hl.
Qed.

Lemma sample_wf sp l :
  0 <= sp < 2 ^ 32 -> Forall (fun b => 0 <= b < 256) l -> wf (sample sp l).
Proof. intros. split; simpl; [by intros []|by apply code_byte_mem|done|done]. Qed.

(** ** Properties *)

(** The run loop and the interrupt entry keep every register a 32-bit
    value, every memory cell a byte, and both pointers in range, whatever the
    emulated code does and whatever the ports answer. *)
Theorem emu_run_wf h fuel steps e :
  wf e ->
  (forall ex e', emu_run h fuel steps e = Ok (ex, e') -> wf e') /\
  (forall v ex e', emu_interrupt h fuel steps v e = Ok (ex, e') -> wf e').
Proof.
  intros He. split; intros.
  - by eapply (keeps_emu_run wf).
  - by eapply keeps_interrupt_wf.
Qed.

Lemma emu_run_wf_witness : exists e', emu_run sample_host 4 4 (sample 0x7c00 [0x90; 0x40; 0xf4]) = Ok (EventHalted, e') /\ wf e'.
Proof.
  eexists. split; [vm_compute; reflexivity|].
  eapply (proj1 (emu_run_wf sample_host 4 4 (sample 0x7c00 [0x90; 0x40; 0xf4])
    (sample_wf 0x7c00 [0x90; 0x40; 0xf4] ltac:(lia) ltac:(repeat constructor; lia)))).
  vm_compute. reflexivity.
Defined.

(** No emulated program can change the emulator's own configuration (the
    stack limit, the interrupt table, the default modes, the stop condition and
    the entry stack that ends an interrupt call), and it never rewrites the
    record of port accesses: it only adds to it. *)
Theorem emu_run_config h fuel steps e ex e' :
  emu_run h fuel steps e = Ok (ex, e') -> config e' = config e /\ io e `suffix_of` io e'.
Proof.
  intros Hr. split.
  - by eapply (keeps_emu_run (fun s => config s = config e)).
  - by eapply (keeps_emu_run (fun s => io e `suffix_of` io s)).
Qed.

Lemma emu_run_config_witness : exists e',
  emu_run sample_host 4 4 (sample 0x7c00 [0xee; 0xfa; 0xf4]) = Ok (EventHalted, e') /\
  config e' = config (sample 0x7c00 []) /\ io e' = [HostCli; PortOut W8 0 0].
Proof.
  eexists. split; [vm_compute; reflexivity|]. split; [|vm_compute; reflexivity].
  eapply (proj1 (emu_run_config sample_host 4 4 (sample 0x7c00 [0xee; 0xfa; 0xf4]) EventHalted _
    ltac:(vm_compute; reflexivity))).
Defined.
