(* ===== verification/Views.v ===== *)
(** * Reading and writing the emulator state

    Pure views of the state ([read], [flag]) and pure updates ([write],
    [with_flag]), what the monadic accessors do in terms of them, and the laws
    that relate them.  The database [run] holds the evaluation lemmas
    [m e = Ok (a, e')]; the tactic [go] runs a program with it. *)

From S2P Require Import Prelude CMonad Machine Stable.
From stdpp Require Import base tactics list numbers functions.
Local Open Scope Z_scope.
Local Open Scope c_scope.

(** ** Locations *)

Definition read (w : width) (l : loc) (e : env) : Z :=
  match l with
  | LReg r off => get_field (8 * off) (bits w) (regs e r)
  | LMem a => mem_load (bytes w) (mem e) a
  | LTmp v => wrap (bits w) v
  end.
Definition write (w : width) (l : loc) (v : Z) (e : env) : env :=
  match l with
  | LReg r off => put_reg w r off v e
  | LMem a => put_mem w a v e
  | LTmp _ => e
  end.

(** A pointer that an access of width [w] may go through. *)
Definition loc_ok (w : width) (l : loc) : bool :=
  match l with LReg _ off => reg_access_ok w off | _ => true end.

(** An operand of an instruction: memory, or a register other than EFLAGS and EIP. *)
Definition operand (w : width) (l : loc) : bool :=
  match l with
  | LReg r off => reg_access_ok w off && negb (bool_decide (r = EFLAGS))
                    && negb (bool_decide (r = EIP))
  | LMem _ => true
  | LTmp _ => false
  end.

Lemma operand_ok w l : operand w l = true -> loc_ok w l = true.
Proof. destruct l; simpl; rewrite ?andb_true_iff; tauto. Qed.

Lemma bits_pos w : 8 <= bits w.
Proof. by destruct w. Qed.
Lemma bits_bytes w : bits w = 8 * Z.of_nat (bytes w).
Proof. by destruct w. Qed.

Lemma load_run w l e : loc_ok w l = true -> load w l e = Ok (read w l e, e).
Proof. destruct l; simpl; intros H; [|done..]. run. by rewrite H. Qed.

Lemma store_run w l v e : loc_ok w l = true -> store w l v e = Ok (tt, write w l v e).
Proof. destruct l; simpl; intros H; [|done..]. run. by rewrite H. Qed.

Create HintDb run discriminated.
#[export] Hint Constants Opaque : run.

(** ** Flags *)

Definition flag (k : Z) (e : env) : bool := Z.testbit (regs e EFLAGS) k.
Definition with_flag (k : Z) (b : bool) (e : env) : env :=
  upd_regs (fun f => <[EFLAGS := put_field k 1 (f EFLAGS) (Z.b2z b)]> f) e.

Lemma b2z_testbit b i : 0 <= i -> Z.testbit (Z.b2z b) i = b && (i =? 0).
Proof.
  intros. destruct (Z.eqb_spec i 0) as [->|]; [by rewrite Z.b2z_bit0, andb_true_r|].
  rewrite andb_false_r. apply (testbit_small 1); [by destruct b|lia].
Qed.

Lemma testbit_BIT k i : 0 <= k -> 0 <= i -> Z.testbit (BIT k) i = (k =? i).
Proof.
  intros. unfold BIT. rewrite Z.shiftl_1_l.
  destruct (Z.eqb_spec k i) as [->|]; [by apply Z.pow2_bits_true|by apply Z.pow2_bits_false].
Qed.

Lemma truth_BIT x k : 0 <= k -> truth (Z.land x (BIT k)) = Z.testbit x k.
Proof.
  intros. unfold truth, BIT. rewrite Z.shiftl_1_l.
  destruct (Z.testbit x k) eqn:Hb, (Z.eqb_spec (Z.land x (2 ^ k)) 0) as [H0|H0]; try done.
  - apply (f_equal (fun z => Z.testbit z k)) in H0.
    rewrite Z.land_spec, Hb, Z.pow2_bits_true, Z.bits_0 in H0 by lia. done.
  - destruct H0. apply Z.bits_inj'. intros i ?. rewrite Z.land_spec, Z.bits_0.
    destruct (decide (k = i)) as [<-|]; [by rewrite Hb|].
    by rewrite Z.pow2_bits_false, andb_false_r.
Qed.

(** The flag word with one bit set or cleared, stored back through the 16-bit
    name, is EFLAGS with that bit replaced. *)
Lemma put_flag_or k x :
  0 <= k < 16 -> put_field 0 16 x (Z.lor (get_field 0 16 x) (BIT k)) = put_field k 1 x 1.
Proof.
  intros. bits_eq. rewrite ?testbit_BIT, !Z.sub_0_r, !Z.add_0_r by lia.
  destruct (Z.leb_spec 0 i), (Z.ltb_spec i (0 + 16)), (Z.leb_spec k i), (Z.ltb_spec i (k + 1)),
    (Z.eqb_spec k i), (Z.ltb_spec i 16); simpl; try lia;
    rewrite ?orb_true_r, ?orb_false_r; try done.
  by replace (i - k) with 0 by lia.
Qed.

Lemma put_flag_clear k x :
  0 <= k < 16 ->
  put_field 0 16 x (Z.land (get_field 0 16 x) (Z.lnot (BIT k))) = put_field k 1 x 0.
Proof.
  intros. bits_eq. rewrite ?Z.lnot_spec, ?testbit_BIT, ?Z.sub_0_r, ?Z.add_0_r, ?Z.bits_0 by lia.
  destruct (Z.leb_spec 0 i), (Z.ltb_spec i (0 + 16)), (Z.leb_spec k i), (Z.ltb_spec i (k + 1)),
    (Z.eqb_spec k i), (Z.ltb_spec i 16); simpl; try lia;
    rewrite ?andb_true_r, ?andb_false_r; done.
Qed.

Lemma flags_run e : flags e = Ok (read W16 (lo EFLAGS) e, e).
Proof. by apply load_run. Qed.

Lemma flag_or_run k e : 0 <= k < 16 -> flag_or (BIT k) e = Ok (tt, with_flag k true e).
Proof.
  intros. unfold flag_or, set_flags. rewrite (bind_ok _ _ _ _ _ (flags_run e)).
  unfold set16. rewrite store_run by done. unfold write, put_reg, with_flag. simpl.
  unfold upd_regs. by rewrite put_flag_or.
Qed.

Lemma flag_clear_run k e : 0 <= k < 16 -> flag_clear (BIT k) e = Ok (tt, with_flag k false e).
Proof.
  intros. unfold flag_clear, set_flags. rewrite (bind_ok _ _ _ _ _ (flags_run e)).
  unfold set16. rewrite store_run by done. unfold write, put_reg, with_flag. simpl.
  unfold upd_regs. by rewrite put_flag_clear.
Qed.

Lemma SET_FLAG_run b k e : 0 <= k < 16 -> SET_FLAG b k e = Ok (tt, with_flag k b e).
Proof. intros. destruct b; simpl; [by apply flag_or_run|by apply flag_clear_run]. Qed.

Lemma flag_set_run k e : 0 <= k < 16 -> flag_set k e = Ok (flag k e, e).
Proof.
  intros. unfold flag_set. rewrite (bind_ok _ _ _ _ _ (flags_run e)). unfold ret.
  rewrite truth_BIT by lia. simpl. rewrite testbit_get_field by lia.
  replace (k <? 16) with true by lia. by rewrite Z.add_0_r.
Qed.

Lemma flag_with_flag k j b e :
  0 <= k -> 0 <= j -> flag k (with_flag j b e) = if decide (j = k) then b else flag k e.
Proof.
  intros. unfold flag, with_flag. simpl. rewrite fn_lookup_insert, testbit_put_field by lia.
  case_decide as Hd.
  - subst. replace ((k <=? k) && (k <? k + 1)) with true by lia.
    rewrite Z.sub_diag. by destruct b.
  - by replace ((j <=? k) && (k <? j + 1)) with false by lia.
Qed.

Lemma flag_write k w l v e : operand w l = true -> flag k (write w l v e) = flag k e.
Proof.
  destruct l as [r off|a|t]; simpl; [|done..]. rewrite !andb_true_iff.
  intros [[_ Hr] _]. apply negb_true_iff, bool_decide_eq_false in Hr.
  unfold flag. simpl. by rewrite fn_lookup_insert_ne by done.
Qed.

Lemma read_with_flag w l k b e :
  operand w l = true -> read w l (with_flag k b e) = read w l e.
Proof.
  destruct l as [r off|a|t]; simpl; [|done..]. rewrite !andb_true_iff.
  intros [[_ Hr] _]. apply negb_true_iff, bool_decide_eq_false in Hr.
  by rewrite fn_lookup_insert_ne by done.
Qed.

Lemma regs_EIP_write w l v e : operand w l = true -> regs (write w l v e) EIP = regs e EIP.
Proof.
  destruct l as [r off|a|t]; simpl; [|done..]. rewrite !andb_true_iff.
  intros [_ Hr]. apply negb_true_iff, bool_decide_eq_false in Hr.
  by rewrite fn_lookup_insert_ne by done.
Qed.

Lemma regs_with_flag r k b e : r <> EFLAGS -> regs (with_flag k b e) r = regs e r.
Proof. intros. simpl. by rewrite fn_lookup_insert_ne by done. Qed.

(** Evaluate the flags of a state built from flag updates and operand writes. *)
Ltac decide_const :=
  match goal with
  | |- context [decide (?a = ?b)] =>
      first [rewrite (decide_True _ _ (eq_refl : a = b)) | rewrite (decide_False (P := a = b)) by done]
  end.
Ltac flag_simp :=
  repeat (rewrite flag_write by done); repeat (rewrite flag_with_flag by done);
  repeat decide_const.

(** ** Reading after writing *)

Lemma read_write w l v e : operand w l = true -> read w l (write w l v e) = wrap (bits w) v.
Proof.
  destruct l as [r off|a|t]; simpl; [|intros _|done].
  - rewrite !andb_true_iff. intros [[Hok _] _]. apply reg_access_ok_spec in Hok.
    rewrite fn_lookup_insert. apply get_put_same; [lia|by destruct w].
  - by rewrite mem_load_store_same, bits_bytes.
Qed.

Lemma read_write_lo w r v e : read w (lo r) (write w (lo r) v e) = wrap (bits w) v.
Proof. simpl. rewrite fn_lookup_insert. by apply get_put_same; destruct w. Qed.

Lemma read_range w l e : wf e -> 0 <= read w l e < 2 ^ bits w.
Proof.
  intros [Hr Hm _ _]. destruct l as [r off|a|t]; simpl.
  - apply get_field_range. by destruct w.
  - rewrite bits_bytes. by apply mem_load_range.
  - apply wrap_range. by destruct w.
Qed.

(** Accesses that do not overlap. *)
Definition apart (w1 : width) (l1 : loc) (w2 : width) (l2 : loc) : Prop :=
  match l1, l2 with
  | LReg r1 o1, LReg r2 o2 =>
      r1 <> r2 \/ 8 * o1 + bits w1 <= 8 * o2 \/ 8 * o2 + bits w2 <= 8 * o1
  | LMem a1, LMem a2 => a1 + Z.of_nat (bytes w1) <= a2 \/ a2 + Z.of_nat (bytes w2) <= a1
  | _, _ => True
  end.

Lemma read_write_apart w1 l1 w2 l2 v e :
  loc_ok w1 l1 = true -> loc_ok w2 l2 = true -> apart w1 l1 w2 l2 ->
  read w1 l1 (write w2 l2 v e) = read w1 l1 e.
Proof.
  destruct l1 as [r1 o1|a1|t1], l2 as [r2 o2|a2|t2]; simpl; try done.
  - intros H1%reg_access_ok_spec H2%reg_access_ok_spec Ha.
    destruct (decide (r2 = r1)) as [->|]; [|by rewrite fn_lookup_insert_ne by done].
    rewrite fn_lookup_insert. apply get_put_other; try lia; [by destruct w2|by destruct w1|].
    destruct Ha as [?|?]; [done|lia].
  - intros _ _ Ha. apply mem_load_store_other. lia.
Qed.

(** ** The instruction pointer *)

Definition move_ip (n : Z) (e : env) : env :=
  write W32 (lo EIP) (read W32 (lo EIP) e + n) (upd_cur_ip (fun ip => ip + n) e).

Lemma skip_run n e : skip n e = Ok (tt, move_ip n e).
Proof. done. Qed.
Lemma peek_run w e : peek w e = Ok (read w (LMem (cur_ip e)) e, e).
Proof. done. Qed.
Lemma fetch_run w e :
  fetch w e = Ok (read w (LMem (cur_ip e)) e, move_ip (Z.of_nat (bytes w)) e).
Proof. done. Qed.

Lemma read_lo_wrap w r e : read w (lo r) e = wrap (bits w) (regs e r).
Proof. simpl. unfold get_field. by rewrite Z.shiftr_0_r. Qed.

Lemma read32 r e : wf e -> read W32 (lo r) e = regs e r.
Proof. intros He. apply get_field_full, He. Qed.

(** A whole-register store. *)
Lemma write32 r v e : wf e -> write W32 (lo r) v e = upd_regs (fun f => <[r := u32 v]> f) e.
Proof.
  intros He. unfold write, lo, put_reg, upd_regs. simpl.
  rewrite put_field_full; [done|done|apply He].
Qed.

Lemma wf_write w l v e : loc_ok w l = true -> wf e -> wf (write w l v e).
Proof.
  intros Hl He. destruct l; simpl; [by apply stable_reg|by apply stable_mem|done].
Qed.
Lemma wf_with_flag k b e : 0 <= k < 16 -> wf e -> wf (with_flag k b e).
Proof.
  intros ? He. eapply (keeps_SET_FLAG wf b k); [exact He|by apply SET_FLAG_run].
Qed.
Lemma wf_move_ip n e : wf e -> wf (move_ip n e).
Proof. intros. by apply wf_write, stable_ip. Qed.

(** Moving the pointers in two steps. *)
Lemma move_ip_move_ip n m e : wf e -> move_ip m (move_ip n e) = move_ip (n + m) e.
Proof.
  intros He. pose proof (wf_move_ip n e He) as Hn. revert Hn. unfold move_ip.
  rewrite (read32 _ e) by done. intros Hn. rewrite (read32 _ _ Hn).
  rewrite (write32 _ _ (upd_cur_ip _ (write _ _ _ _))) by by apply stable_ip.
  rewrite !(write32 _ _ (upd_cur_ip _ e)) by by apply stable_ip.
  unfold upd_regs, upd_cur_ip. simpl. rewrite fn_lookup_insert, fn_insert_insert.
  unfold u32, u64. by rewrite !wrap_add_l, !Z.add_assoc.
Qed.

Lemma move_ip_0 e : wf e -> move_ip 0 e = e.
Proof.
  intros He. unfold move_ip. rewrite read32 by done. rewrite write32 by by apply stable_ip.
  unfold upd_regs, upd_cur_ip. simpl. rewrite !Z.add_0_r.
  unfold u32, u64. rewrite !wrap_small; [|apply He..].
  rewrite fn_insert_id. by destruct e.
Qed.

Lemma get8_run r e : get8 r e = Ok (read W8 (lo r) e, e).
Proof. done. Qed.
Lemma get8h_run r e : get8h r e = Ok (read W8 (hi r) e, e).
Proof. done. Qed.
Lemma get16_run r e : get16 r e = Ok (read W16 (lo r) e, e).
Proof. done. Qed.
Lemma get32_run r e : get32 r e = Ok (read W32 (lo r) e, e).
Proof. done. Qed.
Lemma set8_run r v e : set8 r v e = Ok (tt, write W8 (lo r) v e).
Proof. done. Qed.
Lemma set8h_run r v e : set8h r v e = Ok (tt, write W8 (hi r) v e).
Proof. done. Qed.
Lemma set16_run r v e : set16 r v e = Ok (tt, write W16 (lo r) v e).
Proof. done. Qed.
Lemma set32_run r v e : set32 r v e = Ok (tt, write W32 (lo r) v e).
Proof. done. Qed.
#[export] Hint Resolve get8_run get8h_run get16_run get32_run set8_run set8h_run set16_run
  set32_run : run.

#[export] Hint Resolve skip_run peek_run fetch_run load_run store_run flags_run SET_FLAG_run flag_or_run flag_clear_run
  flag_set_run operand_ok : run.
#[export] Hint Extern 1 (loc_ok _ _ = true) => reflexivity : run.
#[export] Hint Extern 1 (_ <= _ < _) => done : run.
#[export] Hint Extern 1 (ret _ _ = _) => reflexivity : run.
#[export] Hint Extern 1 (gets _ _ = _) => reflexivity : run.
#[export] Hint Extern 1 (modify _ _ = _) => reflexivity : run.

(** Run the first statement of a goal [m e = _]. *)
Ltac go1 :=
  lazymatch goal with
  | |- bind (bind _ _) _ _ = _ => rewrite bind_assoc
  | |- bind _ _ _ = _ =>
      etransitivity; [eapply bind_ok; solve [eauto 4 with run nocore]|cbv beta]
  | |- _ = _ => solve [eauto 4 with run nocore]
  end.
Ltac go := repeat go1.
