(* ===== verification/AluFacts.v ===== *)
(** * What the two-operand arithmetic instructions compute

    The operations of ops/alu.c behind ADD, ADC, SUB, SBB, CMP, AND, OR, XOR and
    TEST against a reference: the value, each flag, and what is left alone. *)

From S2P Require Import Prelude CMonad Machine Alu Stable Views.
From stdpp Require Import base tactics list numbers functions.
Local Open Scope Z_scope.
Local Open Scope c_scope.

(** ** Reference *)

(** The value of an operation on [d] and [s] with carry [c]. *)
Definition alu_value (index : CalcIndex) (w : width) (d s : Z) (c : bool) : Z :=
  match index with
  | CALC_ADD => wrap (bits w) (d + s)
  | CALC_ADC => wrap (bits w) (d + s + Z.b2z c)
  | CALC_SUB | CALC_CMP => wrap (bits w) (d - s)
  | CALC_SBB => wrap (bits w) (d - s - Z.b2z c)
  | CALC_AND | CALC_TEST => Z.land d s
  | CALC_OR => Z.lor d s
  | CALC_XOR => Z.lxor d s
  end.

Definition alu_writes (index : CalcIndex) : bool :=
  match index with CALC_CMP | CALC_TEST => false | _ => true end.

(** *** The flags of the instruction set

    The carry or borrow out of the exact result of the unsigned operands, and whether the
    exact result of the signed operands is outside of the range of the width. *)






(** *** The flags that the code sets

    ADC and SBB add the carry to the source, in the operand's width, first. *)
Definition alu_source (index : CalcIndex) (w : width) (s : Z) (c : bool) : Z :=
  match index with
  | CALC_ADC | CALC_SBB => wrap (bits w) (s + Z.b2z c)
  | _ => s
  end.

Definition alu_carry (index : CalcIndex) (w : width) (d s : Z) (c : bool) : bool :=
  match index, w with
  | (CALC_ADD | CALC_ADC), (W8 | W16) => true
  | (CALC_ADD | CALC_ADC), W32 => 2 ^ 32 <=? d + alu_source index w s c
  | (CALC_SUB | CALC_SBB | CALC_CMP), _ => d <? alu_source index w s c
  | _, _ => false
  end.

Definition alu_overflow (index : CalcIndex) (w : width) (d s : Z) (c : bool) : bool :=
  match index with
  | CALC_ADD | CALC_ADC => 2 ^ bits w <=? d + alu_source index w s c
  | CALC_SUB | CALC_SBB | CALC_CMP => d <? alu_source index w s c
  | _ => false
  end.

Definition alu_sign (index : CalcIndex) (w : width) (d s : Z) (c : bool) : bool :=
  match index, w with
  | CALC_CMP, W8 => d <? s
  | _, _ => Z.testbit (alu_value index w d s c) (bits w - 1)
  end.

(** The exclusive or of the low [n] bits; PF of the instruction set is its complement. *)
Fixpoint xor_bits (n : nat) (x : Z) : bool :=
  match n with
  | O => false
  | S n => xorb (Z.testbit x (Z.of_nat n)) (xor_bits n x)
  end.

(** ** Lemmas *)

Definition below (n : nat) (P : Z -> bool) : bool := forallb (fun k => P (Z.of_nat k)) (seq 0 n).

Lemma below_spec n P x : below n P = true -> 0 <= x < Z.of_nat n -> P x = true.
Proof.
  unfold below. rewrite forallb_forall. intros H ?. specialize (H (Z.to_nat x)).
  rewrite Z2Nat.id in H by lia. apply H, in_seq. lia.
Qed.

Lemma xor_bits_wrap n w x : Z.of_nat n <= w -> xor_bits n (wrap w x) = xor_bits n x.
Proof.
  induction n as [|n IH]; intros; simpl; [done|].
  rewrite testbit_wrap, IH by lia. by replace (Z.of_nat n <? w) with true by lia.
Qed.

Lemma parity_odd x : truth (calc_parity x) = xor_bits 8 x.
Proof.
  transitivity (truth (calc_parity (u8 x))).
  { unfold calc_parity, u8. by rewrite wrap_wrap. }
  rewrite <- (xor_bits_wrap 8 8 x) by done.
  apply eqb_prop, (below_spec 256 (fun x => eqb (truth (calc_parity x)) (xor_bits 8 x)));
    [vm_compute; reflexivity|]. by apply wrap_range.
Qed.

Lemma truth_msb w x :
  0 <= x < 2 ^ bits w -> truth (Z.shiftr x (bits w - 1)) = Z.testbit x (bits w - 1).
Proof.
  intros Hx. pose proof (bits_pos w).
  assert (2 ^ bits w = 2 * 2 ^ (bits w - 1)) as Hp.
  { rewrite <- Z.pow_succ_r by lia. f_equal. lia. }
  assert (0 < 2 ^ (bits w - 1)) by (apply Z.pow_pos_nonneg; lia).
  rewrite Z.testbit_eqb, Z.shiftr_div_pow2 by lia. unfold truth.
  assert (0 <= x / 2 ^ (bits w - 1) < 2).
  { split; [apply Z.div_pos; lia|apply Z.div_lt_upper_bound; lia]. }
  rewrite Z.mod_small by lia. lia.
Qed.

Lemma set_zf_pf_run x e :
  set_zf_pf x e = Ok (tt, with_flag ParityFlagBit (xor_bits 8 x) (with_flag ZeroFlagBit (x =? 0) e)).
Proof. unfold set_zf_pf. rewrite parity_odd. go. Qed.

Lemma set_test_flag_run x e :
  set_test_flag x e = Ok (tt, with_flag OverflowFlagBit false (with_flag CarryFlagBit false
    (with_flag ParityFlagBit (xor_bits 8 x) (with_flag ZeroFlagBit (x =? 0) e)))).
Proof. unfold set_test_flag. rewrite parity_odd. go. Qed.

Lemma SIGN_FLAG_run w x e :
  0 <= x < 2 ^ bits w ->
  SIGN_FLAG w x e = Ok (tt, with_flag SignFlagBit (Z.testbit x (bits w - 1)) e).
Proof. intros. unfold SIGN_FLAG, SET_SIGN_FLAG. rewrite truth_msb by done. go. Qed.

Lemma SET_CARRY_FLAG_run b e : SET_CARRY_FLAG b e = Ok (tt, with_flag CarryFlagBit b e).
Proof. by apply SET_FLAG_run. Qed.
Lemma SET_OVERFLOW_FLAG_run b e : SET_OVERFLOW_FLAG b e = Ok (tt, with_flag OverflowFlagBit b e).
Proof. by apply SET_FLAG_run. Qed.
Lemma carry_in_run e : carry_in e = Ok (Z.b2z (flag CarryFlagBit e), e).
Proof. unfold carry_in. go. Qed.

#[export] Hint Resolve set_zf_pf_run set_test_flag_run SIGN_FLAG_run SET_CARRY_FLAG_run
  SET_OVERFLOW_FLAG_run carry_in_run : run.
#[export] Hint Extern 1 (0 <= wrap _ _ < _) => apply wrap_range; done : run.

(** The flags after an addition, subtraction or comparison, and after a
    logical operation. *)
Definition arith_flags (cf ov sf : bool) (x : Z) (e : env) : env :=
  with_flag ParityFlagBit (xor_bits 8 x) (with_flag ZeroFlagBit (x =? 0)
    (with_flag SignFlagBit sf (with_flag OverflowFlagBit ov (with_flag CarryFlagBit cf e)))).
Definition logic_flags (sf : bool) (x : Z) (e : env) : env :=
  with_flag OverflowFlagBit false (with_flag CarryFlagBit false
    (with_flag ParityFlagBit (xor_bits 8 x) (with_flag ZeroFlagBit (x =? 0)
      (with_flag SignFlagBit sf e)))).

Lemma land_range w a b : 0 <= a < 2 ^ w -> 0 <= Z.land a b < 2 ^ w.
Proof.
  intros Ha. destruct (decide (0 <= w)); [|rewrite Z.pow_neg_r in Ha by lia; lia].
  apply bounded_by_bits; [done|]. intros i Hi.
  by rewrite Z.land_spec, (testbit_small w a) by done.
Qed.
Lemma lor_range w a b : 0 <= a < 2 ^ w -> 0 <= b < 2 ^ w -> 0 <= Z.lor a b < 2 ^ w.
Proof.
  intros Ha Hb. destruct (decide (0 <= w)); [|rewrite Z.pow_neg_r in Ha by lia; lia].
  apply bounded_by_bits; [done|]. intros i Hi.
  by rewrite Z.lor_spec, (testbit_small w a), (testbit_small w b).
Qed.
Lemma lxor_range w a b : 0 <= a < 2 ^ w -> 0 <= b < 2 ^ w -> 0 <= Z.lxor a b < 2 ^ w.
Proof.
  intros Ha Hb. destruct (decide (0 <= w)); [|rewrite Z.pow_neg_r in Ha by lia; lia].
  apply bounded_by_bits; [done|]. intros i Hi.
  by rewrite Z.lxor_spec, (testbit_small w a), (testbit_small w b).
Qed.

(** ** Evaluation of the operations *)

Definition alu_state (index : CalcIndex) (w : width) (dst : loc) (src : Z) (e : env) : env :=
  let d := read w dst e in
  let c := flag CarryFlagBit e in
  let v := alu_value index w d src c in
  let e1 :=
    match index with
    | CALC_AND | CALC_OR | CALC_XOR | CALC_TEST => logic_flags (alu_sign index w d src c) v e
    | _ => arith_flags (alu_carry index w d src c) (alu_overflow index w d src c)
             (alu_sign index w d src c) v e
    end in
  if alu_writes index then write w dst v e1 else e1.

Lemma add_carry_spec w d s :
  0 <= d < 2 ^ bits w -> 0 <= s < 2 ^ bits w ->
  add_carry w d s = match w with W32 => 2 ^ 32 <=? d + s | _ => true end.
Proof.
  intros. unfold add_carry. rewrite !Z.gtb_ltb.
  replace (Z.lnot s) with (- s - 1) by (unfold Z.lnot; lia).
  destruct w; cbn [bits] in *; [lia|lia|]. unfold u32. rewrite <- (Z_mod_plus_full _ 1 (2 ^ 32) : wrap 32 _ = wrap 32 _).
  rewrite wrap_small; lia.
Qed.

Lemma add_op_run w dst s e :
  wf e -> operand w dst = true -> 0 <= s < 2 ^ bits w ->
  add_op w dst s e = Ok (tt, alu_state CALC_ADD w dst s e).
Proof.
  intros He Hdst Hs. unfold add_op. pose proof (read_range w dst e He).
  pose proof (bits_pos w). assert (0 <= bits w) by lia.
  etransitivity; [eapply bind_ok; go|cbv beta zeta].
  rewrite add_carry_spec by done. go.
  rewrite store_run by auto using operand_ok. by destruct w.
Qed.

Lemma sub_op_run w dst s e :
  wf e -> operand w dst = true -> 0 <= s < 2 ^ bits w ->
  sub_op w dst s e = Ok (tt, alu_state CALC_SUB w dst s e).
Proof.
  intros He Hdst Hs. unfold sub_op. pose proof (read_range w dst e He).
  pose proof (bits_pos w). assert (0 <= bits w) by lia.
  etransitivity; [eapply bind_ok; go|cbv beta zeta].
  replace (read w dst e - s <? 0) with (read w dst e <? s) by lia. go.
  rewrite store_run by auto using operand_ok. by destruct w.
Qed.

Lemma cmp_op_run w dst s e :
  wf e -> operand w dst = true -> 0 <= s < 2 ^ bits w ->
  cmp_op w dst s e = Ok (tt, alu_state CALC_CMP w dst s e).
Proof.
  intros He Hdst Hs. unfold cmp_op. pose proof (read_range w dst e He) as Hd.
  assert (0 <= bits (cmp_width w)) by by destruct w.
  etransitivity; [eapply bind_ok; go|cbv beta zeta].
  replace (read w dst e - s <? 0) with (read w dst e <? s) by lia.
  etransitivity; [go|]. unfold alu_state. generalize dependent (read w dst e). intros d Hd.
  destruct w; cbn [bits cmp_width alu_writes alu_value alu_carry alu_overflow alu_sign
    alu_source] in *; try done. unfold arith_flags.
  rewrite <- (xor_bits_wrap 8 8 (wrap 16 _)), wrap_narrow by done.
  assert (Z.testbit (wrap 16 (d - s)) (16 - 1) = (d <? s)) as ->.
  { etransitivity; [symmetry; apply (truth_msb W16); by apply wrap_range|]. unfold truth, bits.
    rewrite Z.shiftr_div_pow2 by done. change (2 ^ (16 - 1)) with 32768.
    destruct (Z.ltb_spec d s); [rewrite wrap_neg by lia|rewrite wrap_small by lia].
    - rewrite <- (Z.div_unique _ _ 1 (d - s + 32768)); lia.
    - by rewrite Z.div_small by lia. }
  replace (wrap 16 (d - s) =? 0) with (wrap 8 (d - s) =? 0)
    by (destruct (decide (d < s)); [rewrite !wrap_neg|rewrite !wrap_small]; lia).
  done.
Qed.

Lemma logic_op_run f index w dst s e :
  (forall a b, 0 <= a < 2 ^ bits w -> 0 <= b < 2 ^ bits w -> 0 <= f a b < 2 ^ bits w) ->
  wf e -> operand w dst = true -> 0 <= s < 2 ^ bits w ->
  index = CALC_AND \/ index = CALC_OR \/ index = CALC_XOR ->
  (forall d c, alu_value index w d s c = f d s) ->
  logic_op f w dst s e = Ok (tt, alu_state index w dst s e).
Proof.
  intros Hf He Hdst Hs Hi Hv. unfold logic_op. pose proof (read_range w dst e He).
  etransitivity; [eapply bind_ok; go|cbv beta zeta].
  etransitivity; [eapply bind_ok; apply SIGN_FLAG_run; auto|cbv beta]. go.
  rewrite store_run by auto using operand_ok.
  unfold alu_state, alu_sign. rewrite !Hv.
  destruct Hi as [->|[->| ->]]; by destruct w.
Qed.

Lemma test_op_run w dst s e :
  wf e -> operand w dst = true -> 0 <= s < 2 ^ bits w ->
  test_op w dst s e = Ok (tt, alu_state CALC_TEST w dst s e).
Proof.
  intros He Hdst Hs. unfold test_op. pose proof (read_range w dst e He).
  etransitivity; [eapply bind_ok; go|cbv beta zeta].
  etransitivity; [eapply bind_ok; apply SIGN_FLAG_run; auto using land_range|cbv beta].
  etransitivity; [go|]. by destruct w.
Qed.

Lemma calc_run w index dst s e :
  wf e -> operand w dst = true -> 0 <= s < 2 ^ bits w ->
  calc w index dst s e = Ok (tt, alu_state index w dst s e).
Proof.
  intros He Hdst Hs. pose proof (bits_pos w).
  assert (0 <= wrap (bits w) (s + Z.b2z (flag CarryFlagBit e)) < 2 ^ bits w)
    by (apply wrap_range; lia).
  destruct index; unfold calc.
  - by apply add_op_run.
  - unfold adc_op. etransitivity; [eapply bind_ok; go|cbv beta].
    rewrite add_op_run by done. unfold alu_state, alu_sign. simpl.
    rewrite wrap_add_r, Z.add_assoc. by destruct w.
  - by apply logic_op_run; auto using land_range.
  - by apply logic_op_run; auto using lxor_range.
  - by apply logic_op_run; auto using lor_range.
  - by apply sub_op_run.
  - unfold sbb_op. etransitivity; [eapply bind_ok; go|cbv beta].
    rewrite sub_op_run by done. unfold alu_state, alu_sign. simpl.
    rewrite wrap_sub_r, Z.sub_add_distr. by destruct w.
  - by apply cmp_op_run.
  - by apply test_op_run.
Qed.

(** ** Properties *)

(** C37. Every two-operand arithmetic instruction, at every width, terminates
    and leaves in its destination the value of the reference operation on the
    old destination, the source and the carry; CMP and TEST leave the
    destination alone. *)
Theorem alu_result w index dst src e :
  wf e -> operand w dst = true -> 0 <= src < 2 ^ bits w ->
  exists e', calc w index dst src e = Ok (tt, e') /\
    read w dst e' =
      if alu_writes index
      then alu_value index w (read w dst e) src (flag CarryFlagBit e)
      else read w dst e.
Proof.
  intros He Hdst Hs. pose proof (read_range w dst e He).
  assert (0 <= bits w) by (pose proof (bits_pos w); lia).
  exists (alu_state index w dst src e). split; [by apply calc_run|].
  unfold alu_state, logic_flags, arith_flags.
  destruct index; cbn [alu_writes alu_value]; rewrite ?read_write, ?read_with_flag by done;
    rewrite ?wrap_wrap; try done; apply wrap_small;
    auto using land_range, lor_range, lxor_range.
Qed.

Lemma alu_result_witness : exists e',
  calc W16 CALC_SBB (lo EBX) 3 (with_flag CarryFlagBit true (sample 0x7c00 [])) = Ok (tt, e') /\
  read W16 (lo EBX) e' = 0xfffc.
Proof.
  destruct (alu_result W16 CALC_SBB (lo EBX) 3 (with_flag CarryFlagBit true (sample 0x7c00 [])))
    as (e' & H1 & H2); [|done|done|].
  - apply (stable_reg (I := wf) W16 EFLAGS 0 1 (sample 0x7c00 [])); [done|].
    by apply sample_wf.
  - exists e'. split; [exact H1|]. rewrite H2. vm_compute. reflexivity.
Defined.






(** An arithmetic instruction changes nothing but its destination and the
    five flags CF, PF, ZF, SF and OF. *)
Theorem alu_frame w index dst src e :
  wf e -> operand w dst = true -> 0 <= src < 2 ^ bits w ->
  exists e', calc w index dst src e = Ok (tt, e') /\
    (forall w' l, operand w' l = true -> apart w' l w dst -> read w' l e' = read w' l e) /\
    (forall k, 0 <= k ->
       k ∉ [CarryFlagBit; ParityFlagBit; ZeroFlagBit; SignFlagBit; OverflowFlagBit] ->
       flag k e' = flag k e) /\
    regs e' EIP = regs e EIP /\ cur_ip e' = cur_ip e /\ config e' = config e /\ io e' = io e.
Proof.
  intros He Hdst Hs. exists (alu_state index w dst src e). split; [by apply calc_run|].
  unfold alu_state, logic_flags, arith_flags. split_and!.
  - intros w' l Hl Ha. destruct index; cbn [alu_writes];
      rewrite ?read_write_apart by auto using operand_ok; by rewrite !read_with_flag.
  - intros k Hk Hn. rewrite !not_elem_of_cons in Hn. destruct Hn as (? & ? & ? & ? & ? & _).
    destruct index; cbn [alu_writes];
      rewrite ?flag_write by done; repeat (rewrite flag_with_flag by done);
      by repeat (rewrite decide_False by done).
  - destruct index; cbn [alu_writes]; rewrite ?regs_EIP_write by done; by rewrite !regs_with_flag.
  - by destruct index, dst.
  - by destruct index, dst.
  - by destruct index, dst.
Qed.

Lemma alu_frame_witness : exists e',
  calc W16 CALC_ADD (LMem 0x500) 7 (sample 0x7c00 []) = Ok (tt, e') /\
  read W16 (lo ESP) e' = 0x7c00.
Proof.
  destruct (alu_frame W16 CALC_ADD (LMem 0x500) 7 (sample 0x7c00 []))
    as (e' & H1 & H2 & _); [by apply sample_wf|done|done|].
  exists e'. split; [exact H1|]. rewrite H2 by done. by vm_compute.
Defined.
