(* ===== verification/RunFacts.v ===== *)
(** * Prefixes and the run loop

    The two loops of the emulator whose length depends on the emulated code:
    the prefix loop of [emu_run_instruction] and the loop of [emu_run]. *)

From S2P Require Import Prelude CMonad Machine Alu Ops Operations Opcodes Decode Stable Views.
From stdpp Require Import base tactics list numbers functions.
Local Open Scope Z_scope.
Local Open Scope c_scope.

(** ** Code in memory *)

(** The bytes at the instruction pointer are [l]. *)
Definition code_at (l : list Z) (e : env) : Prop :=
  cur_ip e + Z.of_nat (length l) < 2 ^ 64 /\
  forall i b, l !! i = Some b -> mem e (cur_ip e + Z.of_nat i) = b.

Lemma read8_mem a e : read W8 (LMem a) e = mem e a.
Proof. simpl. lia. Qed.

Lemma cur_ip_move n e : cur_ip (move_ip n e) = u64 (cur_ip e + n).
Proof. done. Qed.
Lemma mem_move n e : mem (move_ip n e) = mem e.
Proof. done. Qed.

Lemma code_at_head b l e : code_at (b :: l) e -> read W8 (LMem (cur_ip e)) e = b.
Proof.
  intros [_ H]. rewrite read8_mem. specialize (H 0%nat b eq_refl). by rewrite Z.add_0_r in H.
Qed.

Lemma code_at_tail b l e : wf e -> code_at (b :: l) e -> code_at l (move_ip 1 e).
Proof.
  intros He [Hb H]. simpl in Hb. unfold code_at. rewrite cur_ip_move, mem_move.
  pose proof (wf_ip e He). unfold u64. rewrite wrap_small by lia.
  split; [lia|]. intros i c Hi. specialize (H (S i) c Hi). rewrite <- H. f_equal. lia.
Qed.

(** ** Prefixes *)

(** The effect of the prefix bytes of the instruction set. *)
Definition apply_prefix (b : Z) (e : env) : env :=
  match b with
  | 0xf2 => set_rep_e_ne false (set_repeat true e)
  | 0xf3 => set_rep_e_ne true (set_repeat true e)
  | 0x2e => set_default_ss CS e
  | 0x36 => set_default_ss SS e
  | 0x3e => set_default_ss DS e
  | 0x26 => set_default_ss ES e
  | 0x64 => set_default_ss FS e
  | 0x65 => set_default_ss GS e
  | 0x66 => set_operand_size (negb (f_operand_size e)) e
  | 0x67 => set_address_size (negb (f_address_size e)) e
  | _ => e
  end.
Definition prefix_bytes : list Z :=
  [0xf0; 0xf2; 0xf3; 0x2e; 0x36; 0x3e; 0x26; 0x64; 0x65; 0x66; 0x67].
Definition apply_prefixes (ps : list Z) (e : env) : env := fold_left (fun e b => apply_prefix b e) ps e.

Lemma prefix_action_yes b :
  b ∈ prefix_bytes ->
  exists m, prefix_action b = PrefixEffect m /\ forall e, m e = Ok (tt, apply_prefix b e).
Proof.
  unfold prefix_bytes. intros Hb.
  repeat (apply elem_of_cons in Hb as [->|Hb]; [by eexists; split; [reflexivity|]|]).
  by apply elem_of_nil in Hb.
Qed.

Lemma prefix_action_no b : b ∉ prefix_bytes -> prefix_action b = NotPrefix.
Proof.
  unfold prefix_bytes. rewrite !not_elem_of_cons. intros H. destruct_and! H.
  unfold prefix_action.
  repeat (case_match; [lazymatch goal with H : (_ =? _) = true |- _ =>
    apply Z.eqb_eq in H; exfalso; cbv in H; congruence end|]). done.
Qed.

(** A prefix does not touch what the instruction pointer depends on. *)
Lemma apply_prefix_cases (P : env -> Prop) b e :
  P e -> (forall v, P (set_rep_e_ne v (set_repeat true e))) ->
  (forall r, P (set_default_ss r e)) -> (forall v, P (set_operand_size v e)) ->
  (forall v, P (set_address_size v e)) -> P (apply_prefix b e).
Proof. intros. unfold apply_prefix. repeat case_match; auto. Qed.

Lemma wf_apply_prefix b e : wf e -> wf (apply_prefix b e).
Proof. intros [? ? ? ?]. by apply apply_prefix_cases; intros; split. Qed.

Lemma code_at_apply_prefix l b e : code_at l e -> code_at l (apply_prefix b e).
Proof. intros H. by apply apply_prefix_cases. Qed.

Lemma apply_prefix_move b n e : apply_prefix b (move_ip n e) = move_ip n (apply_prefix b e).
Proof. unfold apply_prefix. by repeat case_match. Qed.

Lemma apply_prefixes_move ps n : forall e,
  apply_prefixes ps (move_ip n e) = move_ip n (apply_prefixes ps e).
Proof.
  induction ps as [|b ps IH]; intros e; [done|]. simpl. by rewrite apply_prefix_move, IH.
Qed.

Lemma wf_apply_prefixes ps : forall e, wf e -> wf (apply_prefixes ps e).
Proof. induction ps; intros; simpl; auto using wf_apply_prefix. Qed.

Lemma apply_prefixes_frame ps : forall e,
  mem (apply_prefixes ps e) = mem e /\ cur_ip (apply_prefixes ps e) = cur_ip e.
Proof.
  induction ps as [|b ps IH]; intros e; [done|]. simpl. destruct (IH (apply_prefix b e)) as [-> ->].
  by apply apply_prefix_cases.
Qed.

Lemma unread_run e : wf e -> unread (move_ip 1 e) = Ok (tt, e).
Proof.
  intros. unfold unread. rewrite skip_run, move_ip_move_ip by done.
  by rewrite move_ip_0.
Qed.

Lemma prefix_loop_run ps b : forall fuel e,
  wf e -> code_at (ps ++ [b]) e -> Forall (fun p => p ∈ prefix_bytes) ps ->
  b ∉ prefix_bytes -> (length ps < fuel)%nat ->
  prefix_loop fuel e = Ok (tt, move_ip (Z.of_nat (length ps)) (apply_prefixes ps e)).
Proof.
  induction ps as [|p ps IH]; intros [|fuel] e He Hc Hp Hb Hf; simpl in Hf; try lia;
    cbn [prefix_loop]; rewrite (bind_ok _ _ _ _ _ (fetch_run W8 e));
    rewrite (code_at_head _ _ _ Hc).
  - rewrite (prefix_action_no b Hb). change (Z.of_nat (bytes W8)) with 1.
    rewrite unread_run by done. simpl. by rewrite move_ip_0.
  - apply Forall_cons_1 in Hp as [Hp Hps].
    destruct (prefix_action_yes p Hp) as (m & -> & Hm).
    rewrite (bind_ok _ _ _ _ _ (Hm _)). change (Z.of_nat (bytes W8)) with 1.
    rewrite IH; auto using wf_apply_prefix, wf_move_ip; [|by apply code_at_apply_prefix, code_at_tail with p|lia].
    change (apply_prefixes (p :: ps) e) with (apply_prefixes ps (apply_prefix p e)).
    rewrite apply_prefix_move, apply_prefixes_move, move_ip_move_ip
      by auto using wf_apply_prefix, wf_apply_prefixes.
    do 3 f_equal. simpl length. lia.
Qed.

(** ** One instruction *)

(** The modes [emu_run_instruction] starts from. *)
Definition reset (e : env) : env :=
  set_repeat false (set_address_size (f_default_address_size e)
    (set_operand_size (f_default_operand_size e) (set_default_ss DS e))).

Lemma wf_reset e : wf e -> wf (reset e).
Proof. intros [? ? ? ?]. by split. Qed.
Lemma code_at_reset l e : code_at l e -> code_at l (reset e).
Proof. done. Qed.
Lemma reset_move n e : reset (move_ip n e) = move_ip n (reset e).
Proof. done. Qed.
Lemma reset_reset e : reset (reset e) = reset e.
Proof. done. Qed.

Lemma run_instruction_prefixes h ps b fuel e :
  wf e -> code_at (ps ++ [b]) e -> Forall (fun p => p ∈ prefix_bytes) ps ->
  b ∉ prefix_bytes -> (length ps < fuel)%nat ->
  emu_run_instruction h fuel e =
    decode_one_byte_opcode h (move_ip (Z.of_nat (length ps)) (apply_prefixes ps (reset e))).
Proof.
  intros He Hc Hp Hb Hf.
  change (emu_run_instruction h fuel e)
    with (bind (prefix_loop fuel) (fun _ => decode_one_byte_opcode h) (reset e)).
  by rewrite (bind_ok _ _ _ _ _ (prefix_loop_run ps b fuel (reset e) (wf_reset e He) Hc Hp Hb Hf)).
Qed.

(** The case the one-byte switch selects. *)
Definition select (h : host) (op : Z) : E BiosEmuExceptions :=
  switch (one_byte_cases h op) (unread ;; ret InvalidOpcode).

(** An instruction without prefixes. *)
Lemma run_instruction_plain h b fuel e :
  wf e -> code_at [b] e -> b ∉ prefix_bytes -> (0 < fuel)%nat ->
  emu_run_instruction h fuel e = select h b (move_ip 1 (reset e)).
Proof.
  intros He Hc Hb Hf.
  rewrite (run_instruction_prefixes h [] b) by auto.
  simpl. rewrite move_ip_0 by by apply wf_reset.
  unfold decode_one_byte_opcode. rewrite (bind_ok _ _ _ _ _ (fetch_run W8 _)).
  by rewrite (code_at_head b [] (reset e)).
Qed.

(** ** Fuel *)

Lemma prefix_loop_more f : forall f' e r,
  prefix_loop f e = Ok r -> (f <= f')%nat -> prefix_loop f' e = Ok r.
Proof.
  induction f as [|f IH]; intros [|f'] e r Hr Hf; try done; try lia.
  revert Hr. cbn [prefix_loop]. rewrite !(bind_ok _ _ _ _ _ (fetch_run W8 e)).
  destruct (prefix_action _) as [m|]; [intros Hr|done].
  destruct r as [u e']. apply bind_inv in Hr as (u1 & e1 & Hm & Hr).
  rewrite (bind_ok _ _ _ _ _ Hm). apply IH; [done|lia].
Qed.

Lemma run_instruction_more h f f' e r :
  emu_run_instruction h f e = Ok r -> (f <= f')%nat -> emu_run_instruction h f' e = Ok r.
Proof.
  intros Hr Hf. destruct r as [ex e'].
  change (bind (prefix_loop f) (fun _ => decode_one_byte_opcode h) (reset e) = Ok (ex, e')) in Hr.
  change (bind (prefix_loop f') (fun _ => decode_one_byte_opcode h) (reset e) = Ok (ex, e')).
  apply bind_inv in Hr as (u & e1 & Hp & Hr).
  by rewrite (bind_ok _ _ _ _ _ (prefix_loop_more _ _ _ _ Hp Hf)).
Qed.

Lemma emu_run_step h f s e ex e1 :
  emu_run_instruction h f e = Ok (ex, e1) ->
  emu_run h f (S s) e = if decide (ex = NoException) then emu_run h f s e1 else Ok (ex, e1).
Proof. intros H. cbn [emu_run]. rewrite (bind_ok _ _ _ _ _ H). by case_decide. Qed.

Lemma code_at_app l1 l2 e : code_at (l1 ++ l2) e -> code_at l1 e.
Proof.
  intros [H1 H2]. rewrite length_app in H1. split; [lia|].
  intros i b Hi. apply H2. by apply lookup_app_l_Some.
Qed.

(** One NOP. *)
Lemma run_nop h l s e :
  wf e -> code_at ((OP_NOP : Z) :: l) e -> emu_run h 1 (S s) e = emu_run h 1 s (move_ip 1 (reset e)).
Proof.
  intros He Hc. rewrite (emu_run_step _ _ _ _ NoException (move_ip 1 (reset e))); [done|].
  rewrite (run_instruction_plain h OP_NOP); [done|done| |by_decide|lia].
  by apply (code_at_app [OP_NOP : Z] l).
Qed.

Lemma code_at_nop l e : wf e -> code_at ((OP_NOP : Z) :: l) e -> code_at l (move_ip 1 (reset e)).
Proof. intros. by apply code_at_tail with OP_NOP; [apply wf_reset|]. Qed.

Lemma run_nops h : forall n e,
  wf e -> code_at (replicate n (OP_NOP : Z) ++ [OP_HLT : Z]) e ->
  emu_run h 1 (S n) e = Ok (EventHalted, move_ip (Z.of_nat (S n)) (reset e)).
Proof.
  induction n as [|n IH]; intros e He Hc.
  - rewrite (emu_run_step _ _ _ _ EventHalted (move_ip 1 (reset e))); [done|].
    rewrite (run_instruction_plain h OP_HLT); [done|done|done|by_decide|lia].
  - rewrite (run_nop _ (replicate n (OP_NOP : Z) ++ [OP_HLT : Z])) by done.
    rewrite IH by eauto using wf_move_ip, wf_reset, code_at_nop.
    rewrite reset_move, reset_reset, move_ip_move_ip by by apply wf_reset. do 3 f_equal. lia.
Qed.

Lemma run_nops_short h l : forall n e,
  wf e -> code_at (replicate n (OP_NOP : Z) ++ l) e -> emu_run h 1 n e = NoFuel.
Proof.
  induction n as [|n IH]; intros e He Hc; [done|].
  rewrite (run_nop _ (replicate n (OP_NOP : Z) ++ l)) by done.
  apply IH; eauto using wf_move_ip, wf_reset, code_at_nop.
Qed.

(** ** Properties *)

(** Any prefixes in front of the instruction. *)
Lemma run_instruction_select h ps b fuel e :
  wf e -> code_at (ps ++ [b]) e -> Forall (fun p => p ∈ prefix_bytes) ps ->
  b ∉ prefix_bytes -> (length ps < fuel)%nat ->
  emu_run_instruction h fuel e =
    select h b (move_ip (Z.of_nat (length ps) + 1) (apply_prefixes ps (reset e))).
Proof.
  intros He Hc Hp Hb Hf. rewrite (run_instruction_prefixes h ps b) by done.
  assert (wf (apply_prefixes ps (reset e))) by auto using wf_apply_prefixes, wf_reset.
  unfold decode_one_byte_opcode. rewrite (bind_ok _ _ _ _ _ (fetch_run W8 _)).
  change (Z.of_nat (bytes W8)) with 1. rewrite move_ip_move_ip by done.
  rewrite read8_mem, cur_ip_move, mem_move.
  destruct (apply_prefixes_frame ps (reset e)) as [-> ->]. simpl mem. simpl cur_ip.
  destruct Hc as [Hl Hm]. rewrite length_app in Hl. simpl in Hl.
  pose proof (wf_ip e He). unfold u64. rewrite wrap_small by lia.
  by rewrite (Hm (length ps) b) by by rewrite list_lookup_middle.
Qed.

(** An instruction with any number of prefix bytes: with more fuel than
    prefixes the prefix loop ends, the prefixes take effect in order on the
    default modes, both instruction pointers have moved past them, and the
    opcode behind them is the one decoded. *)
Theorem prefixes_decoded h ps b fuel e :
  wf e -> code_at (ps ++ [b]) e -> Forall (fun p => p ∈ prefix_bytes) ps ->
  b ∉ prefix_bytes -> (length ps < fuel)%nat ->
  emu_run_instruction h fuel e =
    select h b (move_ip (Z.of_nat (length ps) + 1) (apply_prefixes ps (reset e))).
Proof. apply run_instruction_select. Qed.

Lemma prefixes_decoded_witness :
  emu_run_instruction sample_host 4 (sample 0x7c00 [0x26; 0x66; 0xf3; 0x98]) =
  select sample_host 0x98
    (move_ip 4 (apply_prefixes [0x26; 0x66; 0xf3] (reset (sample 0x7c00 [0x26; 0x66; 0xf3; 0x98])))).
Proof.
  apply (prefixes_decoded sample_host [0x26; 0x66; 0xf3] 0x98 4
           (sample 0x7c00 [0x26; 0x66; 0xf3; 0x98])).
  - apply sample_wf; [lia|repeat constructor; lia].
  - split; [vm_compute; reflexivity|]. intros i b Hi.
    do 4 (destruct i as [|i]; [injection Hi as <-; reflexivity|]). discriminate Hi.
  - by_decide.
  - by_decide.
  - simpl. lia.
Defined.

(** Fuel is only a bound: a run that ends keeps its result and its final
    state when both bounds are raised, so two runs that end agree. *)
Theorem emu_run_more h : forall f s f' s' e r,
  emu_run h f s e = Ok r -> (f <= f')%nat -> (s <= s')%nat -> emu_run h f' s' e = Ok r.
Proof.
  intros f s. induction s as [|s IH]; intros f' [|s'] e r Hr Hf Hs; try done; try lia.
  destruct r as [ex e']. cbn [emu_run] in Hr. apply bind_inv in Hr as (ex1 & e1 & H1 & Hr).
  rewrite (emu_run_step _ _ _ _ _ _ (run_instruction_more _ _ _ _ _ H1 Hf)).
  case_decide; [|done]. apply IH; [done..|lia].
Qed.

Lemma emu_run_more_witness : exists e',
  emu_run sample_host 9 9 (sample 0x7c00 [0x90; 0xf4]) = Ok (EventHalted, e').
Proof.
  eexists. eapply (emu_run_more sample_host 1 2 9 9); [vm_compute; reflexivity|lia|lia].
Defined.

(** A run of any number of NOPs that ends in HLT stops with the halt event
    after exactly that many instructions plus one; both instruction pointers
    are behind the HLT and nothing else but the per-instruction modes changed. *)
Theorem run_to_halt h n e :
  wf e -> code_at (replicate n (OP_NOP : Z) ++ [OP_HLT : Z]) e ->
  emu_run h 1 (S n) e = Ok (EventHalted, move_ip (Z.of_nat n + 1) (reset e)) /\
  emu_run h 1 n e = NoFuel.
Proof.
  intros He Hc. split.
  - rewrite run_nops by done. do 3 f_equal. lia.
  - by apply run_nops_short with [OP_HLT : Z].
Qed.

Lemma run_to_halt_witness :
  emu_run sample_host 1 3 (sample 0x7c00 [0x90; 0x90; 0xf4]) =
  Ok (EventHalted, move_ip 3 (reset (sample 0x7c00 [0x90; 0x90; 0xf4]))).
Proof.
  apply (run_to_halt sample_host 2 (sample 0x7c00 [0x90; 0x90; 0xf4])).
  - apply sample_wf; [lia|repeat constructor; lia].
  - split; [vm_compute; reflexivity|]. intros i b Hi.
    do 3 (destruct i as [|i]; [injection Hi as <-; reflexivity|]). discriminate Hi.
Defined.
