(* ===== verification/ControlFacts.v ===== *)
(** * Conditions, jumps and ModRM addresses

    conditions.c, jmp.c and mod_rm.c against the tables of the instruction set. *)

From S2P Require Import Prelude CMonad Machine Alu Ops Operations Opcodes Decode Stable Views.
From S2P Require Import AluFacts RunFacts.
From stdpp Require Import base tactics list numbers functions.
Local Open Scope Z_scope.
Local Open Scope c_scope.

(** ** Conditions *)

(** The sixteen conditions of the instruction set: eight tests and their
    negations at the odd numbers. *)
Definition x86_condition (i : Z) (e : env) : bool :=
  let cf := flag CarryFlagBit e in
  let zf := flag ZeroFlagBit e in
  let sf := flag SignFlagBit e in
  let ov := flag OverflowFlagBit e in
  let pf := flag ParityFlagBit e in
  let test := match i / 2 with
              | 0 => ov | 1 => cf | 2 => zf | 3 => cf || zf
              | 4 => sf | 5 => pf | 6 => xorb sf ov | _ => zf || xorb sf ov
              end in
  xorb (Z.odd i) test.

(** The condition as the table computes it. *)
Definition emu_condition (i : Z) (e : env) : bool :=
  if i =? 6 then flag CarryFlagBit e && flag ZeroFlagBit e else x86_condition i e.

Lemma fl_bit_flag k e : 0 <= k < 16 -> fl_bit k (read W16 (lo EFLAGS) e) = flag k e.
Proof.
  intros. unfold fl_bit. rewrite truth_BIT by lia. simpl. rewrite testbit_get_field by lia.
  replace (k <? 16) with true by lia. by rewrite Z.add_0_r.
Qed.

Lemma condition_run i e : 0 <= i -> condition i e = Ok (emu_condition (i mod 16) e, e).
Proof.
  intros. unfold condition. replace (Z.land i 15) with (i mod 16) by (symmetry; by apply (Z.land_ones i 4)).
  pose proof (Z.mod_pos_bound i 16 ltac:(lia)) as Hk. generalize dependent (i mod 16).
  intros k Hk. assert (k = 0 \/ k = 1 \/ k = 2 \/ k = 3 \/ k = 4 \/ k = 5 \/ k = 6 \/ k = 7 \/
    k = 8 \/ k = 9 \/ k = 10 \/ k = 11 \/ k = 12 \/ k = 13 \/ k = 14 \/ k = 15) as Hc by lia.
  destruct_or! Hc; subst k;
    unfold bind; simpl of_option; unfold ret; rewrite flags_run;
    unfold condition_o, condition_no, condition_b_c_nae, condition_ae_nb_nc, condition_e_z,
      condition_ne_nz, condition_be_na, condition_a_nbe, condition_s, condition_ns,
      condition_p_pe, condition_np_po, condition_l_nge, condition_nl_ge, condition_le_ng,
      condition_nle_g;
    rewrite ?fl_bit_flag by done; unfold emu_condition, x86_condition; cbn -[flag];
    repeat match goal with |- context [flag ?k e] => destruct (flag k e) end; done.
Qed.
#[export] Hint Resolve condition_run : run.

(** Of the sixteen conditions used by Jcc, SETcc and LOOPcc all but one are
    the conditions of the instruction set; number 6 (below or equal) asks for
    the carry and the zero flag together. *)
Theorem condition_correct i e :
  0 <= i ->
  condition i e =
    Ok (if i mod 16 =? 6 then flag CarryFlagBit e && flag ZeroFlagBit e
        else x86_condition (i mod 16) e, e).
Proof. intros. by rewrite condition_run. Qed.

Lemma condition_correct_witness :
  condition 0x7c (with_flag OverflowFlagBit true (sample 0 [])) =
  Ok (true, with_flag OverflowFlagBit true (sample 0 [])).
Proof. rewrite (condition_correct 0x7c) by lia. reflexivity. Defined.

(** After CMP the unsigned conditions compare the operands: JB, JAE, JE,
    JNE and JA are taken exactly when destination and source stand in that
    relation.  JBE is never taken, and after an 8-bit CMP neither is JL. *)
Theorem cmp_then_condition w dst src e :
  wf e -> operand w dst = true -> 0 <= src < 2 ^ bits w ->
  exists e', calc w CALC_CMP dst src e = Ok (tt, e') /\
    let d := read w dst e in
    condition 2 e' = Ok (d <? src, e') /\
    condition 3 e' = Ok (src <=? d, e') /\
    condition 4 e' = Ok (d =? src, e') /\
    condition 5 e' = Ok (negb (d =? src), e') /\
    condition 6 e' = Ok (false, e') /\
    condition 7 e' = Ok (src <? d, e') /\
    (w = W8 -> condition 12 e' = Ok (false, e')).
Proof.
  intros He Hdst Hs. pose proof (read_range w dst e He) as Hd.
  exists (alu_state CALC_CMP w dst src e). split; [by apply calc_run|].
  assert ((wrap (bits w) (read w dst e - src) =? 0) = (read w dst e =? src)) as Hz.
  { destruct (decide (read w dst e < src)); [rewrite wrap_neg|rewrite wrap_small]; lia. }
  cbv zeta. unfold alu_state, arith_flags.
  split_and!; [| | | | | |intros ->];
    rewrite condition_run by done;
    unfold emu_condition, x86_condition; cbn -[flag with_flag bits wrap read]; flag_simp;
    rewrite ?Hz; do 2 f_equal; try by destruct w.
  all: try (destruct (read _ dst e <? src) eqn:?, (read _ dst e =? src) eqn:?; simpl; lia).
Qed.

Lemma cmp_then_condition_witness : exists e',
  calc W16 CALC_CMP (lo ESP) 0x7c01 (sample 0x7c00 []) = Ok (tt, e') /\
  condition 2 e' = Ok (true, e').
Proof.
  destruct (cmp_then_condition W16 (lo ESP) 0x7c01 (sample 0x7c00 [])) as (e' & H1 & H2 & _);
    [by apply sample_wf|done|done|]. exists e'. split; [exact H1|]. exact H2.
Defined.

(** ** Relative jumps *)

(** The state after a 16-bit transfer to offset [t] of the code segment. *)
Definition goto (t : Z) (e : env) : env :=
  write W32 (lo EIP) t (upd_cur_ip (fun _ => u32 (u32 (Z.shiftl (regs e CS) 4) + t)) e).

Lemma mask_eip_run e :
  mask_eip e = Ok (tt, write W32 (lo EIP) (Z.land (read W32 (lo EIP) e) 0xffff) e).
Proof. done. Qed.
Lemma resync_ip_run e :
  resync_ip e = Ok (tt, upd_cur_ip
    (fun _ => u32 (u32 (Z.shiftl (read W32 (lo CS) e) 4) + read W32 (lo EIP) e)) e).
Proof. done. Qed.
#[export] Hint Resolve mask_eip_run resync_ip_run : run.

Lemma land_ffff x : Z.land x 0xffff = u16 x.
Proof. by apply (Z.land_ones x 16). Qed.

Lemma u16_u32 x : u16 (u32 x) = u16 x.
Proof. by apply wrap_narrow. Qed.

(** [env->regs.eip &= 0xffff; env->cur_ip = ...] behind a relative move. *)
Lemma wrap_ip_run n e :
  wf e ->
  (mask_eip ;; resync_ip) (move_ip n e) = Ok (tt, goto (u16 (regs e EIP + n)) e).
Proof.
  intros He. pose proof (wf_move_ip n e He) as Hn.
  rewrite (bind_ok _ _ _ _ _ (mask_eip_run _)), resync_ip_run. do 2 f_equal.
  rewrite (read32 EIP (move_ip n e)) by done.
  assert (regs (move_ip n e) EIP = u32 (regs e EIP + n)) as ->.
  { unfold move_ip. rewrite read32, write32 by (done || by apply stable_ip). simpl.
    by rewrite fn_lookup_insert. }
  rewrite land_ffff, u16_u32. set (t := u16 _).
  assert (0 <= t < 2 ^ 16) by (by apply wrap_range).
  rewrite !read32 by (apply wf_write; done). unfold goto.
  rewrite !write32 by (done || by apply stable_ip). unfold move_ip.
  rewrite write32 by by apply stable_ip.
  unfold upd_regs, upd_cur_ip. simpl.
  rewrite fn_insert_insert, fn_lookup_insert, fn_lookup_insert_ne by done.
  unfold u32. by rewrite (wrap_small 32 t) by lia.
Qed.

Lemma decode_jcc_8_run c e :
  wf e -> f_operand_size e = false ->
  decode_jcc_8 c e =
    Ok (tt, if c then goto (u16 (regs e EIP + 1 + s8 (mem e (cur_ip e)))) e else move_ip 1 e).
Proof.
  intros He Ho. unfold decode_jcc_8. go.
  rewrite (bind_ok _ _ _ (f_operand_size (move_ip 1 e)) (move_ip 1 e)) by done.
  change (f_operand_size (move_ip 1 e)) with (f_operand_size e). rewrite Ho.
  destruct c; cbn [when]; [|done].
  rewrite (bind_ok _ _ _ _ _ (skip_run _ _)), move_ip_move_ip by done.
  rewrite wrap_ip_run by done. rewrite read8_mem. by rewrite Z.add_assoc.
Qed.

Lemma decode_jmp8_run e :
  wf e -> f_operand_size e = false ->
  decode_jmp8 e = Ok (tt, goto (u16 (regs e EIP + 1 + s8 (mem e (cur_ip e)))) e).
Proof.
  intros He Ho. unfold decode_jmp8. go. rewrite move_ip_move_ip by done.
  rewrite (bind_ok _ _ _ (f_operand_size e) (move_ip (1 + s8 (read W8 (LMem (cur_ip e)) e)) e)) by done.
  rewrite Ho. cbn [when negb]. rewrite wrap_ip_run by done. rewrite read8_mem. by rewrite Z.add_assoc.
Qed.

Lemma decode_jmp_run e :
  wf e -> f_operand_size e = false -> f_address_size e = false ->
  decode_jmp e =
    Ok (tt, goto (u16 (regs e EIP + 2 + s16 (read W16 (LMem (cur_ip e)) e))) e).
Proof.
  intros He Ho Ha. unfold decode_jmp.
  rewrite (bind_ok _ _ _ (f_address_size e) e) by done. rewrite Ha. go.
  unfold decode_jmp_near. rewrite (bind_ok _ _ _ (f_operand_size e) (move_ip 2 e)) by done.
  rewrite Ho, (bind_ok _ _ _ _ _ (skip_run _ _)), move_ip_move_ip by done.
  rewrite wrap_ip_run by done. by rewrite Z.add_assoc.
Qed.

(** The case selected for the short conditional jumps. *)
Lemma select_jcc h i :
  0 <= i < 16 -> select h (0x70 + i) = (c ← condition (0x70 + i); void (decode_jcc_8 c)).
Proof.
  intros. assert (i = 0 \/ i = 1 \/ i = 2 \/ i = 3 \/ i = 4 \/ i = 5 \/ i = 6 \/ i = 7 \/
    i = 8 \/ i = 9 \/ i = 10 \/ i = 11 \/ i = 12 \/ i = 13 \/ i = 14 \/ i = 15) as Hc by lia.
  by destruct_or! Hc; subst i.
Qed.

Lemma jcc_not_prefix i : 0 <= i < 16 -> 0x70 + i ∉ prefix_bytes.
Proof. intros. unfold prefix_bytes. rewrite !not_elem_of_cons. split_and!; [lia..|apply not_elem_of_nil]. Qed.

Lemma code_at_second a b l e : code_at (a :: b :: l) e -> mem e (cur_ip e + 1) = b.
Proof. intros [_ H]. by apply (H 1%nat b). Qed.

(** The instruction pointers after the opcode byte. *)
Lemma after_opcode e l :
  wf e -> code_at l e -> (1 <= length l)%nat ->
  cur_ip (move_ip 1 (reset e)) = cur_ip e + 1 /\
  regs (move_ip 1 (reset e)) EIP = u32 (regs e EIP + 1).
Proof.
  intros He [Hl _] Hn. pose proof (wf_ip e He). split.
  - rewrite cur_ip_move. apply wrap_small. simpl. lia.
  - unfold move_ip. rewrite read32, write32; [simpl; by rewrite fn_lookup_insert| |by apply wf_reset].
    by apply stable_ip, wf_reset.
Qed.

Lemma goto_move t n e : wf e -> goto t (move_ip n e) = goto t e.
Proof.
  intros He. unfold goto, move_ip.
  rewrite !write32; [|by apply stable_ip|by apply stable_ip|by apply stable_ip, wf_write, stable_ip].
  unfold upd_regs, upd_cur_ip. simpl. rewrite fn_insert_insert.
  by rewrite fn_lookup_insert_ne by done.
Qed.

(** The sixteen short conditional jumps, decoded and executed in 16-bit
    mode: when the condition holds, control is at the end of the two-byte
    instruction plus the signed displacement, modulo 2^16, with the host
    pointer at the matching linear address; otherwise at the next instruction.
    Nothing else changes. *)
Theorem jcc_instruction h i d e :
  wf e -> f_default_operand_size e = false -> 0 <= i < 16 -> code_at [0x70 + i; d] e ->
  emu_run_instruction h 1 e =
    Ok (NoException,
        if emu_condition i e then goto (u16 (regs e EIP + 2 + s8 d)) (reset e)
        else move_ip 2 (reset e)).
Proof.
  intros He Ho Hi Hc. pose proof (wf_reset e He) as Hr.
  rewrite (run_instruction_plain h (0x70 + i)); auto using jcc_not_prefix;
    [|by apply (code_at_app [0x70 + i] [d])].
  rewrite select_jcc by done.
  rewrite (bind_ok _ _ _ _ _ (condition_run (0x70 + i) _ ltac:(lia))).
  replace ((0x70 + i) mod 16) with i by (rewrite <- Z.add_mod_idemp_l by done; by rewrite Z.mod_small).
  unfold void. rewrite (bind_ok _ _ _ _ _ (decode_jcc_8_run _ _ (wf_move_ip _ _ Hr) Ho)).
  change (emu_condition i (move_ip 1 (reset e))) with (emu_condition i e).
  unfold ret. do 2 f_equal. destruct (emu_condition i e); [|by rewrite move_ip_move_ip].
  destruct (after_opcode e _ He Hc ltac:(simpl; lia)) as [-> ->].
  rewrite goto_move by done. change (mem (move_ip 1 (reset e))) with (mem e).
  rewrite (code_at_second _ _ _ _ Hc). unfold u16, u32.
  rewrite <- (wrap_narrow 16 32 (wrap 32 _ + _ + _)), <- Z.add_assoc, wrap_add_l by done.
  rewrite wrap_narrow by done. do 2 f_equal. lia.
Qed.

Lemma jcc_instruction_witness : exists e',
  emu_run_instruction sample_host 1 (sample 0x7c00 [0x75; 0xfc]) = Ok (NoException, e') /\
  regs e' EIP = 0xfffe.
Proof.
  rewrite (jcc_instruction sample_host 5 0xfc (sample 0x7c00 [0x75; 0xfc])).
  - eexists. split; [reflexivity|]. vm_compute. reflexivity.
  - apply sample_wf; [lia|repeat constructor; lia].
  - reflexivity.
  - lia.
  - split; [vm_compute; reflexivity|]. intros i b Hi.
    do 2 (destruct i as [|i]; [injection Hi as <-; reflexivity|]). discriminate Hi.
Defined.

(** ** ModRM operands *)

(** The 16-bit addressing table: which registers are added. *)
Definition ea_regs (md rm : Z) : list reg :=
  match rm with
  | 0 => [EBX; ESI] | 1 => [EBX; EDI] | 2 => [EBP; ESI] | 3 => [EBP; EDI]
  | 4 => [ESI] | 5 => [EDI] | 6 => if md =? 0 then [] else [EBP] | _ => [EBX]
  end.
(** The number of displacement bytes and the displacement. *)
Definition ea_disp_len (md rm : Z) : Z :=
  if md =? 1 then 1 else if (md =? 2) || ((md =? 0) && (rm =? 6)) then 2 else 0.
Definition ea_disp (n : Z) (e : env) : Z :=
  match n with
  | 0 => 0
  | 1 => s8 (read W8 (LMem (cur_ip e)) e)
  | _ => read W16 (LMem (cur_ip e)) e
  end.
Definition ea_sum (l : list reg) (e : env) : Z :=
  fold_right Z.add 0 (map (fun r => read W16 (lo r) e) l).
Definition effective_address (modrm : Z) (e : env) : Z :=
  let md := modrm / 64 in
  let rm := modrm mod 8 in
  u16 (ea_sum (ea_regs md rm) e + ea_disp (ea_disp_len md rm) e).
(** The code pointer behind the displacement. *)
Definition skip_disp (modrm : Z) (e : env) : env :=
  let n := ea_disp_len (modrm / 64) (modrm mod 8) in
  if n =? 0 then e else goto (u16 (regs e EIP + n)) e.

Lemma modrm_rm_mod modrm : modrm_rm modrm = modrm mod 8.
Proof. by apply (Z.land_ones modrm 3). Qed.
Lemma modrm_mod_div modrm : 0 <= modrm < 256 -> modrm_mod modrm = modrm / 64.
Proof.
  intros. unfold modrm_mod. rewrite (Z.land_ones (Z.shiftr modrm 6) 2 ltac:(done) : Z.land _ 3 = _).
  rewrite Z.shiftr_div_pow2 by done. apply Z.mod_small.
  split; [apply Z.div_pos; lia|apply Z.div_lt_upper_bound; lia].
Qed.

Lemma rm_base_16_run rm e :
  wf e -> 0 <= rm < 8 -> rm_base_16 rm e = Ok (u16 (ea_sum (ea_regs 1 rm) e), e).
Proof.
  intros He Hrm. unfold ea_sum.
  assert (rm = 0 \/ rm = 1 \/ rm = 2 \/ rm = 3 \/ rm = 4 \/ rm = 5 \/ rm = 6 \/ rm = 7) as Hc by lia.
  destruct_or! Hc; subst rm; cbn [rm_base_16 ea_regs map fold_right Z.eqb];
    go; rewrite ?get16_run; rewrite !Z.add_0_r; try done;
    unfold u16; (rewrite wrap_small; [done|apply (read_range W16 _ _ He)]).
Qed.

Lemma decode_rm_address_16_run modrm e :
  wf e -> 0 <= modrm < 192 ->
  decode_rm_address_16 modrm e = Ok (effective_address modrm e, skip_disp modrm e).
Proof.
  intros He Hm. unfold decode_rm_address_16. cbv zeta.
  rewrite modrm_rm_mod, modrm_mod_div by lia.
  pose proof (Z.mod_pos_bound modrm 8 ltac:(lia)) as Hrm.
  assert (0 <= modrm / 64 < 3) as Hmd
    by (split; [apply Z.div_pos; lia|apply Z.div_lt_upper_bound; lia]).
  rewrite (bind_ok _ _ _ _ _ (rm_base_16_run _ _ He Hrm)).
  unfold effective_address, skip_disp. cbv zeta.
  generalize dependent (modrm / 64). generalize dependent (modrm mod 8). intros rm Hrm md Hmd.
  assert (md = 0 \/ md = 1 \/ md = 2) as Hc by lia. destruct_or! Hc; subst md.
  - unfold MOD_BASE. cbn [Z.eqb]. unfold ea_disp_len. cbn [Z.eqb orb andb].
    destruct (Z.eqb_spec rm 6) as [->|H6].
    + rewrite (bind_ok _ _ _ _ _ (peek_run W16 e)), (bind_ok _ _ _ _ _ (skip_run 2 e)).
      rewrite <- bind_assoc, (bind_ok _ _ _ _ _ (wrap_ip_run 2 e He)).
      unfold ret, ea_sum, u16. cbn -[read goto regs cur_ip wrap].
      by rewrite Z.add_0_l, (wrap_small 16 (read _ _ _)) by apply (read_range W16 _ _ He).
    + replace (ea_regs 0 rm) with (ea_regs 1 rm)
        by (unfold ea_regs; repeat (case_match; try done)).
      unfold ea_disp. rewrite Z.add_0_r. destruct (Z.eqb_spec rm 7) as [->|]; [|done].
      rewrite get16_run. unfold ea_sum. cbn -[read]. rewrite Z.add_0_r.
      unfold u16. by rewrite wrap_small by apply (read_range W16 _ _ He).
  - cbn [MOD_BASE MOD_BASE_DISP8 Z.eqb Pos.eqb].
    rewrite (bind_ok _ _ _ _ _ (peek_run W8 e)), (bind_ok _ _ _ _ _ (skip_run 1 e)).
    rewrite <- bind_assoc, (bind_ok _ _ _ _ _ (wrap_ip_run 1 e He)).
    unfold ret, u16. by rewrite wrap_add_l.
  - cbn [MOD_BASE MOD_BASE_DISP8 MOD_BASE_DISP16 Z.eqb Pos.eqb].
    rewrite (bind_ok _ _ _ _ _ (peek_run W16 e)), (bind_ok _ _ _ _ _ (skip_run 2 e)).
    rewrite <- bind_assoc, (bind_ok _ _ _ _ _ (wrap_ip_run 2 e He)).
    unfold ret, u16. by rewrite wrap_add_l.
Qed.

(** The location a ModRM byte denotes. *)
Definition rm_location (w : width) (modrm : Z) (e : env) : option loc :=
  if modrm <? 192
  then Some (LMem (u32 (16 * regs e (default_ss e)) + effective_address modrm e))
  else match w with W32 => reg_lut_r32 (modrm mod 8) | _ => reg_lut_r16 (modrm mod 8) end.

Lemma shiftr6_mem modrm : 0 <= modrm < 192 -> (Z.shiftr modrm 6 =? 3) = false.
Proof.
  intros. rewrite Z.shiftr_div_pow2 by done. apply Z.eqb_neq.
  assert (modrm / 2 ^ 6 < 3) by (apply Z.div_lt_upper_bound; lia). lia.
Qed.
Lemma shiftr6_reg modrm : 192 <= modrm < 256 -> (Z.shiftr modrm 6 =? 3) = true.
Proof.
  intros. rewrite Z.shiftr_div_pow2 by done. apply Z.eqb_eq.
  symmetry. apply (Z.div_unique _ _ 3 (modrm - 192)); lia.
Qed.

Lemma RM_MEM_run modrm e :
  wf e -> f_address_size e = false -> 0 <= modrm < 192 ->
  RM_MEM modrm e =
    Ok (LMem (u32 (16 * regs e (default_ss e)) + effective_address modrm e), skip_disp modrm e).
Proof.
  intros He Ha Hm. unfold RM_MEM.
  rewrite (bind_ok _ _ _ (regs e (default_ss e)) e);
    [|unfold default_segment, bind, gets; by rewrite <- read32].
  unfold decode_rm_address.
  rewrite bind_assoc, (bind_ok _ _ _ (f_address_size e) e) by done. rewrite Ha.
  rewrite (bind_ok _ _ _ _ _ (decode_rm_address_16_run _ _ He Hm)). unfold ret, get_segment_base.
  do 3 f_equal. rewrite Z.shiftl_mul_pow2, (Z.mul_comm _ (2 ^ 4)) by done.
  change (2 ^ 4) with 16. unfold u64. apply wrap_small.
  assert (0 <= u32 (16 * regs e (default_ss e)) < 2 ^ 32) by (by apply wrap_range).
  assert (0 <= effective_address modrm e < 2 ^ 16) by (by apply wrap_range). lia.
Qed.

(** ModRM decoding with 16-bit addresses: a memory operand is the byte at
    the selected segment times 16 plus the effective address of the addressing
    table (registers and displacement, modulo 2^16), the displacement bytes are
    consumed, and a register operand is the one of the register table. *)
Theorem modrm_operand modrm e :
  wf e -> f_address_size e = false -> 0 <= modrm < 256 ->
  let w := if f_operand_size e then W32 else W16 in
  exists l, rm_location w modrm e = Some l /\
    RM_ADDR modrm e = Ok (l, if modrm <? 192 then skip_disp modrm e else e).
Proof.
  intros He Ha Hm w. unfold rm_location, RM_ADDR. destruct (Z.ltb_spec modrm 192).
  - rewrite shiftr6_mem by lia. rewrite RM_MEM_run by (done || lia). eauto.
  - rewrite shiftr6_reg by lia.
    rewrite (bind_ok _ _ _ (f_operand_size e) e) by done. rewrite modrm_rm_mod.
    pose proof (Z.mod_pos_bound modrm 8 ltac:(lia)) as Hrm. generalize dependent (modrm mod 8).
    intros k Hk.
    assert (k = 0 \/ k = 1 \/ k = 2 \/ k = 3 \/ k = 4 \/ k = 5 \/ k = 6 \/ k = 7) as Hc by lia.
    subst w. destruct (f_operand_size e); destruct_or! Hc; subst k; by eexists.
Qed.

Lemma modrm_operand_witness : exists e',
  RM_ADDR 0x46 (sample 0x7c00 [0xfe]) = Ok (LMem 0xfffe, e') /\ regs e' EIP = 1.
Proof.
  destruct (modrm_operand 0x46 (sample 0x7c00 [0xfe])) as (l & H1 & H2);
    [apply sample_wf; [lia|repeat constructor; lia]|reflexivity|lia|].
  injection H1 as <-. rewrite H2. eexists. split; [reflexivity|]. vm_compute. reflexivity.
Defined.
