(* ===== verification/StackFacts.v ===== *)
(** * The stack, calls and interrupts

    stack.h, stack.c, call.c and int.c.  The memory at the stack pointer is
    abstracted to the list of values on the stack ([stack_is]); PUSH and POP are
    shown to be cons and uncons on it, and the instructions are proved against
    that abstraction. *)

From S2P Require Import Prelude CMonad Machine Alu Ops Operations Opcodes Decode Stable Views.
From S2P Require Import AluFacts RunFacts ControlFacts.
From stdpp Require Import base tactics list numbers functions.
Local Open Scope Z_scope.
Local Open Scope c_scope.

(** ** The stack pointer *)

Definition sp_width (e : env) : width := if f_stack_size e then W32 else W16.
Definition sp_val (e : env) : Z := read (sp_width e) (lo ESP) e.
Definition nbytes (w : width) : Z := Z.of_nat (bytes w).

(** The linear address of the top of the stack. *)
Definition stack_top (e : env) : Z :=
  if f_stack_size e then regs e ESP
  else u32 (u32 (Z.shiftl (regs e SS) 4) + read W16 (lo ESP) e).

Definition move_sp (n : Z) (e : env) : env := write (sp_width e) (lo ESP) (sp_val e + n) e.
Definition pushed (w : width) (v : Z) (e : env) : env :=
  let e1 := move_sp (- nbytes w) e in put_mem w (stack_top e1) v e1.
Definition top_value (w : width) (e : env) : Z := mem_load (bytes w) (mem e) (stack_top e).

Lemma wf_move_sp n e : wf e -> wf (move_sp n e).
Proof. intros. apply wf_write; [by unfold sp_width; destruct (f_stack_size e)|done]. Qed.
Lemma wf_pushed w v e : wf e -> wf (pushed w v e).
Proof. intros. by apply stable_mem, wf_move_sp. Qed.

Lemma STACK_POINTER16_run e :
  wf e -> STACK_POINTER16 e = Ok (u32 (u32 (Z.shiftl (regs e SS) 4) + read W16 (lo ESP) e), e).
Proof. intros He. unfold STACK_POINTER16. rewrite <- (read32 SS e He). done. Qed.

Lemma STACK_POINTER32_run e : wf e -> STACK_POINTER32 e = Ok (regs e ESP, e).
Proof. intros He. by rewrite <- (read32 ESP e He). Qed.

Lemma move_sp_32 n e : f_stack_size e = true -> add_esp n e = Ok (tt, move_sp n e).
Proof. intros Hs. unfold move_sp, sp_val, sp_width. by rewrite Hs. Qed.
Lemma move_sp_16 n e : f_stack_size e = false -> add_sp n e = Ok (tt, move_sp n e).
Proof. intros Hs. unfold move_sp, sp_val, sp_width. by rewrite Hs. Qed.

Lemma PUSH_run data w v e :
  wf e -> data (move_sp (- nbytes w) e) = Ok (v, move_sp (- nbytes w) e) ->
  PUSH data w e = Ok (tt, pushed w v e).
Proof.
  intros He Hd. pose proof (wf_move_sp (- nbytes w) e He) as He1.
  unfold PUSH, pushed, stack_top. rewrite (bind_ok _ _ _ (f_stack_size e) e) by done.
  change (f_stack_size (move_sp (- nbytes w) e)) with (f_stack_size e).
  destruct (f_stack_size e) eqn:Hs; unfold PUSH32, PUSH16.
  - rewrite (bind_ok _ _ _ _ _ (move_sp_32 _ _ Hs)).
    rewrite (bind_ok _ _ _ _ _ (STACK_POINTER32_run _ He1)). by rewrite (bind_ok _ _ _ _ _ Hd).
  - rewrite (bind_ok _ _ _ _ _ (move_sp_16 _ _ Hs)).
    rewrite (bind_ok _ _ _ _ _ (STACK_POINTER16_run _ He1)). by rewrite (bind_ok _ _ _ _ _ Hd).
Qed.

Lemma POP_run f w e e1 :
  wf e -> f (top_value w e) e = Ok (tt, e1) -> f_stack_size e1 = f_stack_size e ->
  POP f w e = Ok (tt, move_sp (nbytes w) e1).
Proof.
  intros He Hf Hs. unfold POP, top_value, stack_top in *.
  rewrite (bind_ok _ _ _ (f_stack_size e) e) by done.
  destruct (f_stack_size e); unfold POP32, POP16.
  - rewrite (bind_ok _ _ _ _ _ (STACK_POINTER32_run _ He)).
    rewrite (bind_ok _ _ _ _ _ (load_run w (LMem _) e eq_refl)).
    by rewrite (bind_ok _ _ _ _ _ Hf), move_sp_32.
  - rewrite (bind_ok _ _ _ _ _ (STACK_POINTER16_run _ He)).
    rewrite (bind_ok _ _ _ _ _ (load_run w (LMem _) e eq_refl)).
    by rewrite (bind_ok _ _ _ _ _ Hf), move_sp_16.
Qed.

(** ** The stack as a list *)

Fixpoint holds (l : list (width * Z)) (a : Z) (m : Z -> Z) : Prop :=
  match l with
  | [] => True
  | (w, v) :: l => mem_load (bytes w) m a = v /\ holds l (a + nbytes w) m
  end.
Fixpoint stack_bytes (l : list (width * Z)) : Z :=
  match l with [] => 0 | (w, _) :: l => nbytes w + stack_bytes l end.

Definition stack_base (e : env) : Z := if f_stack_size e then 0 else 16 * regs e SS.

(** From the top on, the stack holds the values [l]; it lies inside the stack
    segment, and a 16-bit stack segment starts in the first megabyte. *)
Definition stack_is (l : list (width * Z)) (e : env) : Prop :=
  (f_stack_size e = false -> regs e SS < 2 ^ 16) /\
  sp_val e + stack_bytes l < 2 ^ bits (sp_width e) /\
  holds l (stack_base e + sp_val e) (mem e).

Lemma stack_bytes_nonneg l : 0 <= stack_bytes l.
Proof. induction l as [|[w v] l IH]; simpl; [lia|]. unfold nbytes. lia. Qed.

Lemma sp_width_bits e : 16 <= bits (sp_width e) <= 32.
Proof. unfold sp_width. destruct (f_stack_size e); simpl; lia. Qed.

Lemma sp_val_range e : wf e -> 0 <= sp_val e < 2 ^ bits (sp_width e).
Proof. apply read_range. Qed.

Lemma nbytes_range w : 1 <= nbytes w <= 4.
Proof. destruct w; unfold nbytes; simpl; lia. Qed.

Lemma sp_ok e : operand (sp_width e) (lo ESP) = true.
Proof. unfold sp_width. by destruct (f_stack_size e). Qed.

Lemma sp_val_move n e :
  0 <= sp_val e + n < 2 ^ bits (sp_width e) -> sp_val (move_sp n e) = sp_val e + n.
Proof.
  intros H. unfold move_sp, sp_val at 1. change (sp_width (write _ _ _ e)) with (sp_width e).
  rewrite read_write by apply sp_ok. by apply wrap_small.
Qed.

Lemma regs_move_sp n r e : r <> ESP -> regs (move_sp n e) r = regs e r.
Proof. intros. simpl. by rewrite fn_lookup_insert_ne by done. Qed.

Lemma top_base l e : wf e -> stack_is l e -> stack_top e = stack_base e + sp_val e.
Proof.
  intros He (Hs & Hb & _). pose proof (sp_val_range e He) as Hr. pose proof (stack_bytes_nonneg l).
  pose proof (wf_regs e He SS). revert Hr Hb. unfold stack_top, stack_base, sp_val, sp_width.
  destruct (f_stack_size e); [by rewrite read32|]. intros Hr Hb. specialize (Hs eq_refl).
  rewrite Z.shiftl_mul_pow2 by done. change (2 ^ 4) with 16. change (bits W16) with 16 in *.
  unfold u32. rewrite (wrap_small 32 (regs e SS * 16)), wrap_small; lia.
Qed.

Lemma holds_store l : forall a m n b v,
  b + Z.of_nat n <= a -> holds l a m -> holds l a (mem_store n m b v).
Proof.
  induction l as [|[w x] l IH]; intros a m n b v Hb; [done|]. intros [<- Hl]. split.
  - apply mem_load_store_other. lia.
  - apply IH; [pose proof (nbytes_range w); lia|done].
Qed.

(** Only the stack pointer, its segment, the mode and the memory matter. *)
Lemma stack_is_same l e e' :
  f_stack_size e' = f_stack_size e -> regs e' ESP = regs e ESP -> regs e' SS = regs e SS ->
  mem e' = mem e -> stack_is l e -> stack_is l e'.
Proof.
  intros Hf Hsp Hss Hm. unfold stack_is, sp_val, sp_width, stack_base. simpl.
  by rewrite Hf, Hsp, Hss, Hm.
Qed.

(** Moving the stack pointer without wrap-around keeps the other conditions. *)
Lemma stack_is_moved l n e :
  wf e -> 0 <= sp_val e + n -> sp_val e + n + stack_bytes l < 2 ^ bits (sp_width e) ->
  (f_stack_size e = false -> regs e SS < 2 ^ 16) ->
  holds l (stack_base e + (sp_val e + n)) (mem e) -> stack_is l (move_sp n e).
Proof.
  intros He H0 H1 Hs Hl. pose proof (stack_bytes_nonneg l). unfold stack_is.
  rewrite sp_val_move by lia. rewrite regs_move_sp by done.
  change (sp_width (move_sp n e)) with (sp_width e). split_and!; [done|done|].
  unfold stack_base. by rewrite regs_move_sp by done.
Qed.

Lemma stack_is_pushed l w v e :
  wf e -> stack_is l e -> nbytes w <= sp_val e ->
  stack_is ((w, wrap (bits w) v) :: l) (pushed w v e).
Proof.
  intros He Hst Hsp. pose proof Hst as (Hs & Hb & Hl).
  pose proof (nbytes_range w). pose proof (sp_val_range e He). pose proof (stack_bytes_nonneg l).
  assert (stack_is [] (move_sp (- nbytes w) e)) as Hm
    by (apply stack_is_moved; simpl; done || lia).
  unfold pushed. rewrite (top_base [] _ (wf_move_sp _ _ He) Hm).
  set (e1 := move_sp (- nbytes w) e) in *.
  assert (sp_val e1 = sp_val e - nbytes w) as Hv by (subst e1; rewrite sp_val_move; lia).
  assert (stack_base e1 = stack_base e) as Hbase
    by (subst e1; unfold stack_base; by rewrite regs_move_sp by done).
  split_and!; [apply Hm| |].
  - change (sp_val (put_mem _ _ _ e1)) with (sp_val e1).
    change (sp_width (put_mem _ _ _ e1)) with (sp_width e). simpl stack_bytes. lia.
  - change (sp_val (put_mem _ _ _ e1)) with (sp_val e1).
    change (stack_base (put_mem w ?a v e1)) with (stack_base e1). simpl. rewrite Hv, Hbase. split.
    + rewrite mem_load_store_same. by rewrite bits_bytes.
    + apply holds_store; [unfold nbytes; lia|]. change (mem e1) with (mem e).
      by replace (stack_base e + (sp_val e - nbytes w) + nbytes w) with (stack_base e + sp_val e) by lia.
Qed.

Lemma stack_is_popped l w v e :
  wf e -> stack_is ((w, v) :: l) e ->
  top_value w e = v /\ stack_is l (move_sp (nbytes w) e).
Proof.
  intros He Hst. pose proof Hst as (Hs & Hb & Hv & Hl). simpl in Hb.
  pose proof (nbytes_range w). pose proof (sp_val_range e He). pose proof (stack_bytes_nonneg l). split.
  - unfold top_value. by rewrite (top_base _ _ He Hst).
  - apply stack_is_moved; try done; try lia. by rewrite Z.add_assoc.
Qed.

Lemma stack_bytes_app l1 l2 : stack_bytes (l1 ++ l2) = stack_bytes l1 + stack_bytes l2.
Proof. induction l1 as [|[w v] l1 IH]; simpl; lia. Qed.

Lemma holds_app l1 l2 : forall a m,
  holds (l1 ++ l2) a m -> holds l1 a m /\ holds l2 (a + stack_bytes l1) m.
Proof.
  induction l1 as [|[w v] l1 IH]; intros a m; simpl; [by rewrite Z.add_0_r|].
  intros [Hv Hl]. apply IH in Hl as [H1 H2]. by rewrite <- Z.add_assoc in H2.
Qed.

(** Dropping a prefix of the list. *)
Lemma stack_is_dropped l1 l2 e :
  wf e -> stack_is (l1 ++ l2) e ->
  stack_is l2 (move_sp (stack_bytes l1) e) /\
  sp_val (move_sp (stack_bytes l1) e) = sp_val e + stack_bytes l1.
Proof.
  intros He (Hs & Hb & Hl). rewrite stack_bytes_app in Hb. apply holds_app in Hl as [_ Hl].
  pose proof (sp_val_range e He). pose proof (stack_bytes_nonneg l1).
  pose proof (stack_bytes_nonneg l2). split; [|rewrite sp_val_move; lia].
  apply stack_is_moved; try done; try lia. by rewrite Z.add_assoc.
Qed.

(** ** Steps on the stack

    [like e0 bot e]: [e] is [e0] up to the stack pointer and the bytes between
    [bot] and the top of [e0]'s stack. *)
Definition same_rest (e0 e : env) : Prop :=
  upd_mem (fun _ => mem e0) (upd_regs (fun _ => regs e0) e) = e0.
Record like (e0 : env) (bot : Z) (e : env) : Prop := {
  like_rest : same_rest e0 e;
  like_regs r : r <> ESP -> regs e r = regs e0 r;
  like_mem a : a < bot \/ stack_top e0 <= a -> mem e a = mem e0 a;
  like_esp : f_stack_size e0 = false ->
    get_field 16 16 (regs e ESP) = get_field 16 16 (regs e0 ESP)
}.

Lemma same_rest_refl e : same_rest e e.
Proof. by destruct e. Qed.

Lemma like_refl e bot : like e bot e.
Proof. split; [apply same_rest_refl|done..]. Qed.

Lemma same_rest_fields e0 e :
  same_rest e0 e ->
  f_stack_size e = f_stack_size e0 /\ f_operand_size e = f_operand_size e0 /\
  cur_ip e = cur_ip e0 /\ stack_bottom e = stack_bottom e0 /\ ivt e = ivt e0 /\
  int_entry_stack e = int_entry_stack e0.
Proof. intros H. rewrite <- H. done. Qed.

(** The high half of ESP does not move on a 16-bit stack. *)
Lemma esp_high_move e0 n e :
  same_rest e0 e -> f_stack_size e0 = false ->
  get_field 16 16 (regs (move_sp n e) ESP) = get_field 16 16 (regs e ESP).
Proof.
  intros (Hs & _)%same_rest_fields Hf. unfold move_sp, sp_width. rewrite Hs, Hf. simpl.
  rewrite fn_lookup_insert. apply get_put_other; lia.
Qed.

Lemma like_sp e0 bot e :
  wf e0 -> wf e -> like e0 bot e -> sp_val e = sp_val e0 -> forall r, regs e r = regs e0 r.
Proof.
  intros He0 He [Hrest Hregs _ Hesp] Hsp r. destruct (decide (r = ESP)) as [->|]; [|by apply Hregs].
  destruct (same_rest_fields _ _ Hrest) as (Hs & _).
  revert Hsp. unfold sp_val, sp_width. rewrite Hs. destruct (f_stack_size e0); [by rewrite !read32|].
  intros Hlo. specialize (Hesp eq_refl). simpl in Hlo.
  rewrite <- (get_field_full 32 (regs e ESP)), <- (get_field_full 32 (regs e0 ESP)) by (by apply wf_regs).
  by apply halves_eq.
Qed.

(** A program that yields a word of the state it is started in, whatever the
    stack pointer and the stack contents. *)
Definition yields (e0 : env) (data : E Z) (w : width) (v : Z) : Prop :=
  forall e, (forall r, r <> ESP -> regs e r = regs e0 r) ->
    exists x, data e = Ok (x, e) /\ wrap (bits w) x = wrap (bits w) v.

Lemma yields_reg w' e0 w r :
  wf e0 -> r <> ESP -> bits w <= bits w' -> yields e0 (load w' (lo r)) w (regs e0 r).
Proof.
  intros He Hr Hw e Hregs. eexists. split; [apply load_run; by destruct w'|].
  rewrite read_lo_wrap, Hregs by done. apply wrap_narrow. by destruct w.
Qed.
Lemma yields_ret e0 w v : yields e0 (ret v) w v.
Proof. by intros e _; eexists. Qed.

Lemma push_step e0 bot l data w v e :
  wf e -> like e0 bot e -> stack_is l e -> nbytes w <= sp_val e ->
  bot <= stack_base e + sp_val e - nbytes w -> stack_base e + sp_val e <= stack_top e0 ->
  yields e0 data w v ->
  exists e1, PUSH data w e = Ok (tt, e1) /\ wf e1 /\ like e0 bot e1 /\
    stack_is ((w, wrap (bits w) v) :: l) e1 /\ sp_val e1 = sp_val e - nbytes w /\
    stack_base e1 = stack_base e.
Proof.
  intros He [Hrest Hregs Hmem Hesp] Hst Hsp Hbot Htop Hd.
  pose proof (nbytes_range w). pose proof (sp_val_range e He).
  destruct (Hd (move_sp (- nbytes w) e)) as (x & Hx & Hxv).
  { intros r Hr. by rewrite regs_move_sp, Hregs. }
  exists (pushed w x e). split; [by apply PUSH_run|]. split; [by apply wf_pushed|].
  assert (stack_is [] (move_sp (- nbytes w) e)) as Hm.
  { apply stack_is_moved; simpl; try done; try lia. apply Hst. }
  assert (stack_top (move_sp (- nbytes w) e) = stack_base e + sp_val e - nbytes w) as Ht.
  { rewrite (top_base [] _ (wf_move_sp _ _ He) Hm), sp_val_move by lia.
    unfold stack_base. rewrite regs_move_sp by done. simpl. lia. }
  assert (stack_base (pushed w x e) = stack_base e) as Hb.
  { unfold stack_base. change (regs (pushed w x e) SS) with (regs (move_sp (- nbytes w) e) SS).
    by rewrite regs_move_sp. }
  split_and!; [split|by rewrite <- Hxv; apply stack_is_pushed| |done].
  - exact Hrest.
  - intros r Hr. change (regs (pushed w x e) r) with (regs (move_sp (- nbytes w) e) r).
    by rewrite regs_move_sp, Hregs.
  - intros a Ha. unfold pushed. cbn [mem put_mem upd_mem]. rewrite Ht.
    rewrite mem_store_outside; [by apply Hmem|unfold nbytes in *; lia].
  - intros Hf. rewrite <- Hesp by done. by apply (esp_high_move e0).
  - change (sp_val (pushed w x e)) with (sp_val (move_sp (- nbytes w) e)).
    rewrite sp_val_move; lia.
Qed.

(** Popping into a register what it already holds. *)
Lemma pop_step e0 bot l w r e :
  wf e -> like e0 bot e -> stack_is ((w, wrap (bits w) (regs e0 r)) :: l) e -> r <> ESP ->
  exists e1, POP (store w (lo r)) w e = Ok (tt, e1) /\ wf e1 /\ like e0 bot e1 /\
    stack_is l e1 /\ sp_val e1 = sp_val e + nbytes w /\ stack_base e1 = stack_base e.
Proof.
  intros He [Hrest Hregs Hmem Hesp] Hst Hr.
  pose proof (nbytes_range w). pose proof (sp_val_range e He).
  destruct (stack_is_popped _ _ _ _ He Hst) as [Hv Hpop].
  assert (write w (lo r) (top_value w e) e = e) as Hw.
  { rewrite Hv, <- (Hregs r Hr), <- read_lo_wrap. unfold write, lo, put_reg, upd_regs. simpl.
    rewrite put_get, fn_insert_id by (done || by destruct w). by destruct e. }
  exists (move_sp (nbytes w) e). split_and!.
  - apply POP_run; [done| |done]. rewrite store_run by (by destruct w). by rewrite Hw.
  - by apply wf_move_sp.
  - split; [exact Hrest|intros r' Hr'; by rewrite regs_move_sp, Hregs|exact Hmem|].
    intros Hf. rewrite <- Hesp by done. by apply (esp_high_move e0).
  - done.
  - destruct Hst as (_ & Hb & _). simpl in Hb. pose proof (stack_bytes_nonneg l).
    rewrite sp_val_move; lia.
  - unfold stack_base. by rewrite regs_move_sp.
Qed.

(** Dropping the top. *)
Lemma drop_step e0 bot l w v e :
  wf e -> like e0 bot e -> stack_is ((w, v) :: l) e ->
  wf (move_sp (nbytes w) e) /\ like e0 bot (move_sp (nbytes w) e) /\
  stack_is l (move_sp (nbytes w) e) /\ sp_val (move_sp (nbytes w) e) = sp_val e + nbytes w /\
  stack_base (move_sp (nbytes w) e) = stack_base e.
Proof.
  intros He [Hrest Hregs Hmem Hesp] Hst. pose proof (nbytes_range w). pose proof (sp_val_range e He).
  split_and!.
  - by apply wf_move_sp.
  - split; [exact Hrest|intros r' Hr'; by rewrite regs_move_sp, Hregs|exact Hmem|].
    intros Hf. rewrite <- Hesp by done. by apply (esp_high_move e0).
  - by eapply stack_is_popped.
  - destruct Hst as (_ & Hb & _). simpl in Hb. pose proof (stack_bytes_nonneg l).
    rewrite sp_val_move; lia.
  - unfold stack_base. by rewrite regs_move_sp.
Qed.

Lemma PUSH32_is data w e : f_stack_size e = true -> PUSH32 data w e = PUSH data w e.
Proof. intros Hs. unfold PUSH, stack_size, bind, gets. by rewrite Hs. Qed.
Lemma PUSH16_is data w e : f_stack_size e = false -> PUSH16 data w e = PUSH data w e.
Proof. intros Hs. unfold PUSH, stack_size, bind, gets. by rewrite Hs. Qed.
Lemma POP32_is f w e : f_stack_size e = true -> POP32 f w e = POP f w e.
Proof. intros Hs. unfold POP, stack_size, bind, gets. by rewrite Hs. Qed.
Lemma POP16_is f w e : f_stack_size e = false -> POP16 f w e = POP f w e.
Proof. intros Hs. unfold POP, stack_size, bind, gets. by rewrite Hs. Qed.

Lemma like_stack_size e0 bot e b :
  like e0 bot e -> f_stack_size e0 = b -> f_stack_size e = b.
Proof. intros [Hr _ _ _] <-. by destruct (same_rest_fields _ _ Hr) as (? & _). Qed.

(** ** Sequences of pushes and pops *)

Fixpoint seq_all {A} (P : A -> E unit) (l : list A) : E unit :=
  match l with
  | [] => ret tt
  | [x] => P x
  | x :: l => P x ;; seq_all P l
  end.

Lemma seq_all_cons {A} (P : A -> E unit) x l e :
  seq_all P (x :: l) e = (P x ;; seq_all P l) e.
Proof. destruct l; [|done]. unfold bind. simpl. by destruct (P x e) as [[[] ?]| |]. Qed.

Lemma push_all_run e0 bot w P ds vs : forall l e,
  (forall d e, f_stack_size e = f_stack_size e0 -> P d e = PUSH d w e) ->
  Forall2 (fun d v => yields e0 d w v) ds vs ->
  wf e -> like e0 bot e -> stack_is l e ->
  nbytes w * Z.of_nat (length ds) <= sp_val e ->
  bot <= stack_base e + sp_val e - nbytes w * Z.of_nat (length ds) ->
  stack_base e + sp_val e <= stack_top e0 ->
  exists e1, seq_all P ds e = Ok (tt, e1) /\ wf e1 /\ like e0 bot e1 /\
    stack_is (rev_append (map (fun v => (w, wrap (bits w) v)) vs) l) e1 /\
    sp_val e1 = sp_val e - nbytes w * Z.of_nat (length ds) /\ stack_base e1 = stack_base e.
Proof.
  intros l e HP Hds. revert l e. pose proof (nbytes_range w).
  induction Hds as [|d v ds vs Hd Hds IH]; intros l e He Hl Hst Hsp Hbot Htop.
  { exists e. split_and!; try done. simpl. lia. }
  cbn [length] in *.
  destruct (push_step e0 bot l d w v e) as (e1 & H1 & He1 & Hl1 & Hst1 & Hsp1 & Hb1); try done; try lia.
  destruct (IH ((w, wrap (bits w) v) :: l) e1) as (e2 & H2 & ? & ? & ? & ? & ?);
    try done; try (rewrite ?Hb1, ?Hsp1; lia).
  exists e2. split_and!; try done; try congruence; [|lia].
  rewrite seq_all_cons. rewrite <- (HP d e) in H1 by by eapply like_stack_size.
  by rewrite (bind_ok _ _ _ _ _ H1).
Qed.

(** [Some r]: pop into [r] what it holds already; [None]: drop a word. *)
Lemma pop_all_run e0 bot w P rs : forall l e,
  (forall r e, f_stack_size e = f_stack_size e0 -> P (Some r) e = POP (store w (lo r)) w e) ->
  (forall e, f_stack_size e = f_stack_size e0 -> P None e = Ok (tt, move_sp (nbytes w) e)) ->
  Forall (fun p => fst p = Some ESP -> False) rs ->
  wf e -> like e0 bot e ->
  stack_is (map (fun p => (w, match fst p with Some r => wrap (bits w) (regs e0 r) | None => snd p end)) rs ++ l) e ->
  exists e1, seq_all P (map fst rs) e = Ok (tt, e1) /\ wf e1 /\ like e0 bot e1 /\ stack_is l e1 /\
    sp_val e1 = sp_val e + nbytes w * Z.of_nat (length rs).
Proof.
  intros l e HS HN Hrs. revert e. pose proof (nbytes_range w).
  induction Hrs as [|[[r|] x] rs Hr Hrs IH]; intros e He Hl Hst; cbn [map fst app] in *.
  - exists e. split_and!; try done. simpl. lia.
  - destruct (pop_step e0 bot _ w r e He Hl Hst) as (e1 & H1 & He1 & Hl1 & Hst1 & Hsp1 & _);
      [by intros ->; apply Hr|].
    destruct (IH e1 He1 Hl1 Hst1) as (e2 & H2 & ? & ? & ? & ?).
    exists e2. split_and!; try done; [|simpl length; lia].
    rewrite seq_all_cons. rewrite <- HS in H1 by by eapply like_stack_size.
    by rewrite (bind_ok _ _ _ _ _ H1).
  - destruct (drop_step e0 bot _ w x e He Hl Hst) as (He1 & Hl1 & Hst1 & Hsp1 & _).
    destruct (IH _ He1 Hl1 Hst1) as (e2 & H2 & ? & ? & ? & ?).
    exists e2. split_and!; try done; [|simpl length; lia].
    rewrite seq_all_cons.
    by rewrite (bind_ok _ _ _ _ _ (HN e ltac:(by eapply like_stack_size))).
Qed.

(** The words PUSHA leaves on the stack of [e], top first. *)
Definition pusha_words (w : width) (e : env) : list (width * Z) :=
  map (fun r => (w, wrap (bits w) (regs e r))) [EDI; ESI; EBP; ESP; EBX; EDX; ECX; EAX].

Definition op_width (e : env) : width := if f_operand_size e then W32 else W16.

Lemma stack_is_nil e :
  wf e -> (f_stack_size e = false -> regs e SS < 2 ^ 16) -> stack_is [] e.
Proof. intros He Hs. pose proof (sp_val_range e He). split_and!; simpl; [done|lia|done]. Qed.

(** Eight pushes of the words of PUSHA, in any of its four forms. *)
Lemma pusha_seq e P (g : reg -> E Z) (w' : width) :
  wf e -> (f_stack_size e = false -> regs e SS < 2 ^ 16) -> 8 * nbytes (op_width e) <= sp_val e ->
  (forall d e', f_stack_size e' = f_stack_size e -> P d e' = PUSH d (op_width e) e') ->
  (forall r, g r = load w' (lo r)) -> bits (op_width e) <= bits w' ->
  exists e1,
    seq_all P [g EAX; g ECX; g EDX; g EBX; ret (read (op_width e) (lo ESP) e); g EBP; g ESI; g EDI] e
      = Ok (tt, e1) /\ wf e1 /\
    like e (stack_top e - 8 * nbytes (op_width e)) e1 /\
    stack_is (pusha_words (op_width e) e) e1 /\ sp_val e1 = sp_val e - 8 * nbytes (op_width e).
Proof.
  intros He Hss Hsp HP Hg Hw. pose proof (stack_is_nil e He Hss) as Hst.
  pose proof (top_base [] e He Hst) as Ht. rewrite !Hg.
  destruct (push_all_run e (stack_top e - 8 * nbytes (op_width e)) (op_width e) P
    [load w' (lo EAX); load w' (lo ECX); load w' (lo EDX); load w' (lo EBX);
     ret (read (op_width e) (lo ESP) e); load w' (lo EBP); load w' (lo ESI); load w' (lo EDI)]
    (map (regs e) [EAX; ECX; EDX; EBX; ESP; EBP; ESI; EDI]) [] e)
    as (e1 & ? & ? & ? & ? & ? & ?); try done; cbn [length]; try lia.
  - repeat apply Forall2_cons_2; try apply Forall2_nil_2; try by apply yields_reg.
    intros e' _. eexists. split; [done|]. by rewrite read_lo_wrap, wrap_wrap.
  - apply like_refl.
  - exists e1. split_and!; try done. cbn [length] in *. lia.
Qed.

Lemma pusha_run e :
  wf e -> (f_stack_size e = false -> regs e SS < 2 ^ 16) -> 8 * nbytes (op_width e) <= sp_val e ->
  exists e1, decode_pusha_pushad e = Ok (tt, e1) /\ wf e1 /\
    like e (stack_top e - 8 * nbytes (op_width e)) e1 /\
    stack_is (pusha_words (op_width e) e) e1 /\ sp_val e1 = sp_val e - 8 * nbytes (op_width e).
Proof.
  intros He Hss Hsp. pose proof (fun P g w' => pusha_seq e P g w' He Hss Hsp) as Hrun.
  cbn [seq_all] in Hrun. unfold decode_pusha_pushad, op_width in *.
  rewrite (bind_ok _ _ _ (f_operand_size e) e), (bind_ok _ _ _ (f_stack_size e) e) by done.
  destruct (f_operand_size e) eqn:Ho, (f_stack_size e) eqn:Hs.
  - rewrite (bind_ok _ _ _ _ _ (load_run W32 (lo ESP) e eq_refl)).
    apply (Hrun (fun d => PUSH32 d W32) get32 W32); try done. intros. by apply PUSH32_is.
  - rewrite (bind_ok _ _ _ _ _ (load_run W32 (lo ESP) e eq_refl)).
    apply (Hrun (fun d => PUSH16 d W32) get32 W32); try done. intros. by apply PUSH16_is.
  - rewrite (bind_ok _ _ _ _ _ (load_run W16 (lo ESP) e eq_refl)).
    apply (Hrun (fun d => PUSH32 d W16) get32 W32); try done. intros. by apply PUSH32_is.
  - rewrite (bind_ok _ _ _ _ _ (load_run W16 (lo ESP) e eq_refl)).
    apply (Hrun (fun d => PUSH16 d W16) get16 W16); try done. intros. by apply PUSH16_is.
Qed.

(** The pops of POPA, in any of its four forms. *)
Lemma popa_seq e0 bot w P e :
  (forall r e, f_stack_size e = f_stack_size e0 -> P (Some r) e = POP (store w (lo r)) w e) ->
  (forall e, f_stack_size e = f_stack_size e0 -> P None e = Ok (tt, move_sp (nbytes w) e)) ->
  wf e -> like e0 bot e -> stack_is (pusha_words w e0) e ->
  exists e1,
    seq_all P [Some EDI; Some ESI; Some EBP; None; Some EBX; Some EDX; Some ECX; Some EAX] e
      = Ok (tt, e1) /\ wf e1 /\ like e0 bot e1 /\ sp_val e1 = sp_val e + 8 * nbytes w.
Proof.
  intros HS HN He Hl Hst. set (x := wrap (bits w) (regs e0 ESP)).
  destruct (pop_all_run e0 bot w P
    (map (fun o => (o, x)) [Some EDI; Some ESI; Some EBP; None; Some EBX; Some EDX; Some ECX; Some EAX])
    [] e) as (e1 & ? & ? & ? & _ & ?); try done.
  - repeat constructor; done.
  - exists e1. split_and!; try done. cbn [length map] in *. lia.
Qed.

Lemma popa_run e0 bot e :
  wf e -> like e0 bot e -> stack_is (pusha_words (op_width e0) e0) e ->
  exists e1, decode_popa_popad e = Ok (tt, e1) /\ wf e1 /\ like e0 bot e1 /\
    sp_val e1 = sp_val e + 8 * nbytes (op_width e0).
Proof.
  intros He Hl Hst. pose proof Hl as [Hrest _ _ _].
  destruct (same_rest_fields _ _ Hrest) as (Hs & Ho & _).
  pose proof (fun P => popa_seq e0 bot (op_width e0) P e) as Hrun.
  cbn [seq_all] in Hrun. unfold decode_popa_popad, op_width in *.
  rewrite (bind_ok _ _ _ (f_operand_size e) e), (bind_ok _ _ _ (f_stack_size e) e) by done.
  rewrite Ho, Hs.
  destruct (f_operand_size e0) eqn:Ho0, (f_stack_size e0) eqn:Hs0.
  - apply (Hrun (fun o => match o with Some r => POP32 (set32 r) W32 | None => add_esp 4 end)); try done;
      intros; [by apply POP32_is|by apply move_sp_32].
  - apply (Hrun (fun o => match o with Some r => POP16 (set32 r) W32 | None => add_sp 4 end)); try done;
      intros; [by apply POP16_is|by apply move_sp_16].
  - apply (Hrun (fun o => match o with Some r => POP32 (set16 r) W16 | None => add_esp 2 end)); try done;
      intros; [by apply POP32_is|by apply move_sp_32].
  - apply (Hrun (fun o => match o with Some r => POP16 (set16 r) W16 | None => add_sp 2 end)); try done;
      intros; [by apply POP16_is|by apply move_sp_16].
Qed.

(** PUSHA followed by POPA, in any of the four combinations of operand and
    stack size: PUSHA leaves the eight registers on the stack with the old stack
    pointer in its place, POPA ignores that word, and together they give back
    every register; no memory outside the eight words below the old top changes,
    and nothing else. *)
Theorem pusha_popa e :
  wf e -> (f_stack_size e = false -> regs e SS < 2 ^ 16) -> 8 * nbytes (op_width e) <= sp_val e ->
  exists e1 e2,
    decode_pusha_pushad e = Ok (tt, e1) /\ stack_is (pusha_words (op_width e) e) e1 /\
    decode_popa_popad e1 = Ok (tt, e2) /\
    (forall r, regs e2 r = regs e r) /\ same_rest e e2 /\
    (forall a, a < stack_top e - 8 * nbytes (op_width e) \/ stack_top e <= a -> mem e2 a = mem e a).
Proof.
  intros He Hss Hsp. destruct (pusha_run e He Hss Hsp) as (e1 & H1 & He1 & Hl1 & Hst1 & Hsp1).
  destruct (popa_run e _ e1 He1 Hl1 Hst1) as (e2 & H2 & He2 & Hl2 & Hsp2).
  exists e1, e2. split_and!; try done.
  - apply (like_sp e _ e2 He He2 Hl2). lia.
  - apply Hl2.
  - apply Hl2.
Qed.

Lemma pusha_popa_witness : exists e1 e2,
  decode_pusha_pushad (sample 0x7c00 []) = Ok (tt, e1) /\ decode_popa_popad e1 = Ok (tt, e2) /\
  regs e2 ESP = 0x7c00.
Proof.
  destruct (pusha_popa (sample 0x7c00 [])) as (e1 & e2 & H1 & _ & H2 & H3 & _).
  - by apply sample_wf.
  - done.
  - vm_compute. discriminate.
  - exists e1, e2. split; [exact H1|]. split; [exact H2|]. apply H3.
Defined.

(** ** PUSH and POP refine cons and uncons *)

Lemma regs_pushed w v r e : r <> ESP -> regs (pushed w v e) r = regs e r.
Proof. apply regs_move_sp. Qed.

Lemma sp_val_pushed w v e :
  wf e -> nbytes w <= sp_val e -> sp_val (pushed w v e) = sp_val e - nbytes w.
Proof.
  intros He H. pose proof (sp_val_range e He). pose proof (nbytes_range w).
  change (sp_val (pushed w v e)) with (sp_val (move_sp (- nbytes w) e)).
  rewrite sp_val_move; lia.
Qed.

Lemma mem_pushed l w v e a :
  wf e -> stack_is l e -> nbytes w <= sp_val e -> a < stack_top e - nbytes w \/ stack_top e <= a ->
  mem (pushed w v e) a = mem e a.
Proof.
  intros He Hst Hsp Ha. destruct (push_step e (stack_top e - nbytes w) l (ret v) w v e)
    as (e1 & H1 & _ & Hl & _); auto using like_refl, yields_ret.
  - rewrite (top_base l) by done. lia.
  - rewrite (top_base l) by done. lia.
  - rewrite (PUSH_run (ret v) w v e) in H1 by done. injection H1 as <-. by apply Hl.
Qed.

(** PUSH is cons on the list of values the stack holds and POP is uncons:
    for every operand width, on a 16- or 32-bit stack, a pushed value is the new
    head, and popping a head puts it into the destination register and restores
    the list, the stack pointer and every other register. *)
Theorem push_pop_refine l w v r e :
  wf e -> stack_is l e -> nbytes w <= sp_val e -> r <> ESP -> r <> SS ->
  exists e1 e2,
    PUSH (ret v) w e = Ok (tt, e1) /\ stack_is ((w, wrap (bits w) v) :: l) e1 /\
    POP (store w (lo r)) w e1 = Ok (tt, e2) /\ stack_is l e2 /\
    read w (lo r) e2 = wrap (bits w) v /\ sp_val e2 = sp_val e /\
    (forall r', r' <> r -> r' <> ESP -> regs e2 r' = regs e r') /\
    (forall a, a < stack_top e - nbytes w \/ stack_top e <= a -> mem e2 a = mem e a).
Proof.
  intros He Hst Hsp Hr Hss. pose proof (stack_is_pushed l w v e He Hst Hsp) as Hst1.
  pose proof (wf_pushed w v e He) as He1. pose proof (sp_val_pushed w v e He Hsp) as Hsp1.
  pose proof (sp_val_range e He). pose proof (nbytes_range w).
  destruct (stack_is_popped _ _ _ _ He1 Hst1) as [Hv _].
  set (e1 := pushed w v e) in *. set (e2 := write w (lo r) (wrap (bits w) v) e1).
  assert (sp_val e2 = sp_val e1) as Hsp2.
  { unfold sp_val. apply read_write_apart; [apply operand_ok, sp_ok|by destruct w|].
    left. by intros <-. }
  assert (stack_is ((w, wrap (bits w) v) :: l) e2) as Hst2.
  { apply (stack_is_same _ e1); try done; simpl; by rewrite fn_lookup_insert_ne. }
  assert (wf e2) as He2 by (apply wf_write; [by destruct w|done]).
  exists e1, (move_sp (nbytes w) e2). split_and!.
  - by apply PUSH_run.
  - done.
  - apply POP_run; [done| |done]. rewrite Hv. apply store_run. by destruct w.
  - by eapply stack_is_popped.
  - unfold move_sp. rewrite read_write_apart; [|by destruct w|apply operand_ok, sp_ok|by left].
    unfold e2. rewrite read_write_lo. apply wrap_wrap.
  - rewrite sp_val_move; [lia|]. rewrite Hsp2. change (sp_width e2) with (sp_width e). lia.
  - intros r' Hr' Hsp'. rewrite regs_move_sp by done. unfold e2. simpl.
    rewrite fn_lookup_insert_ne by done. exact (regs_pushed w v r' e Hsp').
  - intros a Ha. change (mem (move_sp (nbytes w) e2)) with (mem e1). by apply (mem_pushed l).
Qed.

Lemma push_pop_refine_witness : exists e1 e2,
  PUSH (ret 0x12345) W16 (sample 0x7c00 []) = Ok (tt, e1) /\
  POP (store W16 (lo EBX)) W16 e1 = Ok (tt, e2) /\ read W16 (lo EBX) e2 = 0x2345.
Proof.
  destruct (push_pop_refine [] W16 0x12345 EBX (sample 0x7c00 []))
    as (e1 & e2 & H1 & _ & H2 & _ & H3 & _).
  - by apply sample_wf.
  - by apply stack_is_nil; [apply sample_wf|].
  - vm_compute. discriminate.
  - discriminate.
  - discriminate.
  - exists e1, e2. split; [exact H1|]. split; [exact H2|]. exact H3.
Defined.
