(* ===== verification/CallFacts.v ===== *)
(** * Calls, returns and interrupts

    call.c and int.c on top of the stack abstraction. *)

From S2P Require Import Prelude CMonad Machine Alu Ops Operations Opcodes Decode Stable Views.
From S2P Require Import AluFacts RunFacts ControlFacts StackFacts.
From stdpp Require Import base tactics list numbers functions.
Local Open Scope Z_scope.
Local Open Scope c_scope.

Lemma stack_below_run n e :
  wf e -> stack_below n e = Ok (stack_top e <? u32 (stack_bottom e + n), e).
Proof.
  intros He. unfold stack_below, stack_top. rewrite (bind_ok _ _ _ (f_stack_size e) e) by done.
  destruct (f_stack_size e).
  - by rewrite (bind_ok _ _ _ _ _ (STACK_POINTER32_run e He)).
  - by rewrite (bind_ok _ _ _ _ _ (STACK_POINTER16_run e He)).
Qed.

(** The code address of offset [t] at the current operand size. *)
Definition code_address (t : Z) (e : env) : Z :=
  if f_operand_size e then t else u32 (u32 (Z.shiftl (regs e CS) 4) + t).

Lemma upd_cur_ip_write w l v f e : upd_cur_ip f (write w l v e) = write w l v (upd_cur_ip f e).
Proof. by destruct l. Qed.

Lemma decode_call_near_run t e :
  wf e -> u32 (stack_bottom e + nbytes (op_width e)) <= stack_top e ->
  exists v, wrap (bits (op_width e)) v = wrap (bits (op_width e)) (regs e EIP) /\
  decode_call_near t e = Ok (NoException,
    write W32 (lo EIP) t (upd_cur_ip (fun _ => code_address t e) (pushed (op_width e) v e))).
Proof.
  intros He Hsb. unfold decode_call_near, code_address, op_width in *.
  rewrite (bind_ok _ _ _ (f_operand_size e) e) by done. cbn [negb ptr_within_code_segment_limit].
  destruct (f_operand_size e).
  - exists (read W32 (lo EIP) e). split; [by rewrite read_lo_wrap, wrap_wrap|].
    rewrite (bind_ok _ _ _ _ _ (stack_below_run 4 e He)).
    replace (stack_top e <? u32 (stack_bottom e + 4)) with false by (change (nbytes W32) with 4 in Hsb; lia).
    rewrite (bind_ok _ _ _ _ _ (PUSH_run (get32 EIP) W32 (read W32 (lo EIP) e) e He ltac:(done))).
    done.
  - exists (read W16 (lo EIP) e). split; [by rewrite read_lo_wrap, wrap_wrap|].
    rewrite (bind_ok _ _ _ _ _ (stack_below_run 2 e He)).
    replace (stack_top e <? u32 (stack_bottom e + 2)) with false by (change (nbytes W16) with 2 in Hsb; lia).
    rewrite (bind_ok _ _ _ _ _ (PUSH_run (get16 EIP) W16 (read W16 (lo EIP) e) e He ltac:(done))).
    rewrite (bind_ok _ _ _ (read W32 (lo CS) (pushed W16 (read W16 (lo EIP) e) e)) _) by done.
    rewrite read32 by by apply wf_pushed. by rewrite regs_pushed by done.
Qed.

(** A pop into a local, followed by the release of [n] more bytes. *)
Lemma pop_local_run w n e :
  wf e ->
  (if f_stack_size e then v ← POP32_local w; add_esp n ;; ret v
   else v ← POP16_local w; add_sp n ;; ret v) e =
  Ok (top_value w e, move_sp n (move_sp (nbytes w) e)).
Proof.
  intros He. unfold top_value, stack_top. destruct (f_stack_size e) eqn:Hs.
  - unfold POP32_local. rewrite bind_assoc, (bind_ok _ _ _ _ _ (STACK_POINTER32_run e He)).
    rewrite bind_assoc, (bind_ok _ _ _ _ _ (load_run w (LMem _) e eq_refl)).
    rewrite bind_assoc, (bind_ok _ _ _ _ _ (move_sp_32 (nbytes w) e Hs)).
    by rewrite (bind_ok _ _ _ (mem_load (bytes w) (mem e) (regs e ESP)) (move_sp (nbytes w) e)),
      (bind_ok _ _ _ _ _ (move_sp_32 n (move_sp (nbytes w) e) Hs)).
  - unfold POP16_local. rewrite bind_assoc, (bind_ok _ _ _ _ _ (STACK_POINTER16_run e He)).
    rewrite bind_assoc, (bind_ok _ _ _ _ _ (load_run w (LMem _) e eq_refl)).
    rewrite bind_assoc, (bind_ok _ _ _ _ _ (move_sp_16 (nbytes w) e Hs)).
    by erewrite (bind_ok _ _ _ _ (move_sp (nbytes w) e)),
      (bind_ok _ _ _ _ _ (move_sp_16 n (move_sp (nbytes w) e) Hs)) by done.
Qed.

Lemma decode_ret_near_run n e :
  wf e -> u32 (stack_bottom e + nbytes (op_width e)) <= stack_top e ->
  let t := top_value (op_width e) e in
  decode_ret_near n e = Ok (NoException,
    write W32 (lo EIP) t (upd_cur_ip (fun _ => code_address t e)
      (move_sp n (move_sp (nbytes (op_width e)) e)))).
Proof.
  intros He Hsb t. pose proof (wf_move_sp n _ (wf_move_sp (nbytes (op_width e)) e He)) as He2.
  pose proof (read_range (op_width e) (LMem (stack_top e)) e He) as Ht.
  change (read (op_width e) (LMem (stack_top e)) e) with t in Ht.
  unfold decode_ret_near, code_address. subst t. unfold op_width in *.
  rewrite (bind_ok _ _ _ (f_operand_size e) e), (bind_ok _ _ _ (f_stack_size e) e) by done.
  destruct (f_operand_size e) eqn:Ho.
  - rewrite (bind_ok _ _ _ _ _ (stack_below_run 4 e He)).
    replace (stack_top e <? u32 (stack_bottom e + 4)) with false by (change (nbytes W32) with 4 in Hsb; lia).
    rewrite (bind_ok _ _ _ _ _ (pop_local_run W32 n e He)). set (e2 := move_sp n _) in *.
    rewrite (bind_ok _ _ _ tt (write W32 (lo EIP) (top_value W32 e) e2)) by done.
    rewrite (bind_ok _ _ _ (top_value W32 e) (write W32 (lo EIP) (top_value W32 e) e2)); [done|].
    unfold get32. rewrite load_run by done. rewrite read_write_lo. by rewrite wrap_small.
  - rewrite (bind_ok _ _ _ _ _ (stack_below_run 2 e He)).
    replace (stack_top e <? u32 (stack_bottom e + 2)) with false by (change (nbytes W16) with 2 in Hsb; lia).
    rewrite (bind_ok _ _ _ _ _ (pop_local_run W16 n e He)). set (e2 := move_sp n _) in *.
    cbv zeta. cbn [negb ptr_within_code_segment_limit].
    rewrite land_ffff. unfold u16. rewrite (wrap_small 16 (top_value W16 e)) by done.
    rewrite (bind_ok _ _ _ tt (write W32 (lo EIP) (top_value W16 e) e2)) by done.
    rewrite (bind_ok _ _ _ _ _ (resync_ip_run _)), read_write_lo.
    rewrite (wrap_small _ (top_value W16 e)) by (change (bits W16) with 16 in Ht; simpl; lia).
    rewrite read_write_apart by (done || by left). rewrite read32 by done.
    unfold e2. by rewrite !regs_move_sp by done.
Qed.

(** ** Near calls *)

Lemma regs_write32 r v e : wf e -> 0 <= v < 2 ^ 32 -> regs (write W32 (lo r) v e) r = v.
Proof. intros He Hv. rewrite write32 by done. simpl. rewrite fn_lookup_insert. by apply wrap_small. Qed.
Lemma regs_write_ne w r r' v e : r <> r' -> regs (write w (lo r) v e) r' = regs e r'.
Proof. intros. simpl. by rewrite fn_lookup_insert_ne. Qed.
Lemma regs_move_ip n r e : r <> EIP -> regs (move_ip n e) r = regs e r.
Proof. intros. unfold move_ip. by rewrite regs_write_ne. Qed.
Lemma read_move_ip w r off n e : r <> EIP -> read w (LReg r off) (move_ip n e) = read w (LReg r off) e.
Proof. intros. unfold read. by rewrite regs_move_ip. Qed.

Lemma regs_write_same w r v e :
  regs (write w (lo r) v e) r = put_field 0 (bits w) (regs e r) v.
Proof. simpl. by rewrite fn_lookup_insert. Qed.

Lemma code_address_range t e : 0 <= t < 2 ^ 32 -> u64 (code_address t e) = code_address t e.
Proof.
  intros Ht. apply wrap_small. unfold code_address. destruct (f_operand_size e); [lia|].
  pose proof (wrap_range 32 (u32 (Z.shiftl (regs e CS) 4) + t) ltac:(lia)). unfold u32 at 1 3. lia.
Qed.

(** Moving the code pointers does not touch the stack. *)
Lemma stack_is_eip l v f e :
  stack_is l e -> stack_is l (write W32 (lo EIP) v (upd_cur_ip f e)).
Proof. apply stack_is_same; done. Qed.

Lemma call_step l t e :
  wf e -> stack_is l e -> nbytes (op_width e) <= sp_val e ->
  u32 (stack_bottom e + nbytes (op_width e)) <= stack_top e -> 0 <= t < 2 ^ 32 ->
  exists e1, decode_call_near t e = Ok (NoException, e1) /\ wf e1 /\
    regs e1 EIP = t /\ cur_ip e1 = code_address t e /\
    stack_is ((op_width e, wrap (bits (op_width e)) (regs e EIP)) :: l) e1 /\
    sp_val e1 = sp_val e - nbytes (op_width e) /\
    f_operand_size e1 = f_operand_size e /\ f_stack_size e1 = f_stack_size e /\
    stack_bottom e1 = stack_bottom e /\
    (forall r, r <> EIP -> r <> ESP -> regs e1 r = regs e r).
Proof.
  intros He Hst Hsp Hsb Ht.
  destruct (decode_call_near_run t e He Hsb) as (v & Hv & Hcall).
  pose proof (wf_pushed (op_width e) v e He) as Hp.
  eexists. split; [exact Hcall|]. split_and!; try done.
  - by apply wf_write, stable_ip.
  - apply regs_write32; [by apply stable_ip|done].
  - by apply code_address_range.
  - apply stack_is_eip. rewrite <- Hv. by apply stack_is_pushed.
  - by apply sp_val_pushed.
  - intros r Hr Hr'. rewrite regs_write_ne by done. by apply regs_pushed.
Qed.

Lemma ret_step v args l e :
  wf e -> stack_is ((op_width e, v) :: args ++ l) e ->
  u32 (stack_bottom e + nbytes (op_width e)) <= stack_top e ->
  exists e1, decode_ret_near (stack_bytes args) e = Ok (NoException, e1) /\
    regs e1 EIP = v /\ cur_ip e1 = code_address v e /\ stack_is l e1 /\
    sp_val e1 = sp_val e + nbytes (op_width e) + stack_bytes args /\
    (forall r, r <> EIP -> r <> ESP -> regs e1 r = regs e r).
Proof.
  intros He Hst Hsb. pose proof (decode_ret_near_run (stack_bytes args) e He Hsb) as Hret.
  destruct (stack_is_popped _ _ _ _ He Hst) as [Hv Hst1]. rewrite Hv in Hret.
  pose proof (stack_is_dropped [(op_width e, v)] _ e He Hst) as [_ Hsp1].
  pose proof (wf_move_sp (nbytes (op_width e)) e He) as He1.
  destruct (stack_is_dropped args l _ He1 Hst1) as [Hst2 Hsp2].
  assert (0 <= v < 2 ^ 32) as Hrange.
  { rewrite <- Hv. pose proof (read_range (op_width e) (LMem (stack_top e)) e He) as Hr.
    change (read _ _ e) with (top_value (op_width e) e) in Hr. destruct (op_width e); simpl in *; lia. }
  eexists. split; [exact Hret|]. split_and!; try done.
  - by apply regs_write32; [apply stable_ip, wf_move_sp|].
  - by apply code_address_range.
  - simpl in Hsp1. rewrite Z.add_0_r in Hsp1. rewrite <- Hsp1. exact Hsp2.
  - intros r Hr Hr'. rewrite regs_write_ne by done. cbn [regs upd_cur_ip]. by rewrite !regs_move_sp.
Qed.

(** A near call and the return it is paired with: the call puts the return
    offset on the stack and goes to its target; the return takes it off together
    with the arguments it was told to release, goes back to the instruction
    after the call (modulo the operand size), and the rest of the stack and all
    other registers are as before. *)
Theorem call_ret args l t e :
  wf e -> stack_is (args ++ l) e -> nbytes (op_width e) <= sp_val e ->
  u32 (stack_bottom e + nbytes (op_width e)) <= stack_top e - nbytes (op_width e) ->
  0 <= t < 2 ^ 32 ->
  let w := op_width e in
  let back := wrap (bits w) (regs e EIP) in
  exists e1 e2,
    decode_call_near t e = Ok (NoException, e1) /\
    regs e1 EIP = t /\ cur_ip e1 = code_address t e /\ stack_is ((w, back) :: args ++ l) e1 /\
    decode_ret_near (stack_bytes args) e1 = Ok (NoException, e2) /\
    regs e2 EIP = back /\ cur_ip e2 = code_address back e /\ stack_is l e2 /\
    sp_val e2 = sp_val e + stack_bytes args /\
    (forall r, r <> EIP -> r <> ESP -> regs e2 r = regs e r).
Proof.
  intros He Hst Hsp Hsb Ht w back. pose proof (nbytes_range w).
  destruct (call_step (args ++ l) t e) as (e1 & H1 & He1 & Hip1 & Hc1 & Hst1 & Hsp1 & Ho1 & Hf1 & Hb1 & Hr1);
    try done; [fold w in Hsb |- *; lia|].
  assert (op_width e1 = w) as Hw by (unfold w, op_width; by rewrite Ho1).
  assert (stack_top e1 = stack_top e - nbytes w) as Htop.
  { rewrite (top_base _ _ He1 Hst1), (top_base _ _ He Hst), Hsp1. fold w.
    unfold stack_base. rewrite Hr1, Hf1 by done. lia. }
  destruct (ret_step back args l e1) as (e2 & H2 & Hip2 & Hc2 & Hst2 & Hsp2 & Hr2);
    rewrite ?Hw, ?Hb1, ?Htop; try done.
  exists e1, e2. split_and!; try done.
  - rewrite Hc2. unfold code_address. by rewrite Ho1, Hr1.
  - rewrite Hsp2, Hsp1, Hw. fold w. lia.
  - intros r Hr Hr'. by rewrite Hr2, Hr1.
Qed.

Lemma call_ret_witness : exists e1 e2,
  decode_call_near 0x500 (sample 0x7c00 []) = Ok (NoException, e1) /\ regs e1 EIP = 0x500 /\
  decode_ret_near 0 e1 = Ok (NoException, e2) /\ regs e2 EIP = 0 /\ sp_val e2 = 0x7c00.
Proof.
  destruct (call_ret [] [] 0x500 (sample 0x7c00 []))
    as (e1 & e2 & H1 & H2 & _ & _ & H3 & H4 & _ & _ & H5 & _).
  - by apply sample_wf.
  - by apply stack_is_nil; [apply sample_wf|].
  - vm_compute. discriminate.
  - vm_compute. discriminate.
  - lia.
  - exists e1, e2. split; [exact H1|]. split; [exact H2|]. split; [exact H3|].
    split; [exact H4|exact H5].
Defined.

(** Stack limits: when the stack pointer is below the limit plus the bytes
    an instruction is about to move, a near or far call or return reports a
    stack fault and changes nothing at all.  (The 32-bit far call asks for six
    bytes although it pushes eight.) *)
Theorem stack_fault seg t n e :
  wf e ->
  let w := op_width e in
  let low k := stack_top e < u32 (stack_bottom e + k) in
  (low (nbytes w) -> decode_call_near t e = Ok (StackFault, e)) /\
  (low (nbytes w) -> decode_ret_near n e = Ok (StackFault, e)) /\
  (low (2 * nbytes w) -> decode_ret_far n e = Ok (StackFault, e)) /\
  (0 <= t < 2 ^ 16 -> low (if f_operand_size e then 6 else 4) ->
     decode_call_far seg t e = Ok (StackFault, e)).
Proof.
  intros He w low. subst w. unfold low, op_width. clear low.
  assert (forall k, stack_top e < u32 (stack_bottom e + k) -> forall (K : bool -> E BiosEmuExceptions),
    bind (stack_below k) K e = K true e) as Hlow.
  { intros k Hk K. rewrite (bind_ok _ _ _ _ _ (stack_below_run k e He)).
    by replace (stack_top e <? u32 (stack_bottom e + k)) with true by lia. }
  unfold decode_call_near, decode_ret_near, decode_ret_far, decode_call_far.
  rewrite !(bind_ok operand_size _ e (f_operand_size e) e) by done.
  rewrite !(bind_ok stack_size _ e (f_stack_size e) e) by done.
  destruct (f_operand_size e); cbn [negb ptr_within_code_segment_limit];
    split_and!; intros; try by rewrite Hlow.
  rewrite Z.shiftr_div_pow2, Z.div_small by (done || lia). cbn [Z.eqb negb]. by rewrite Hlow.
Qed.

Lemma stack_fault_witness :
  decode_call_near 0 (set_stack_bottom 0x7bff (sample 0x7c00 [])) =
  Ok (StackFault, set_stack_bottom 0x7bff (sample 0x7c00 [])).
Proof.
  refine (proj1 (stack_fault 0 0 0 (set_stack_bottom 0x7bff (sample 0x7c00 [])) _) _).
  - by destruct (sample_wf 0x7c00 [] ltac:(lia) ltac:(constructor)).
  - vm_compute. reflexivity.
Defined.

(** ** Interrupts *)

(** The handler the interrupt table names. *)
Definition vector_segment (v : Z) (e : env) : Z := read W16 (LMem (ivt e + 4 * v + 2)) e.
Definition vector_offset (v : Z) (e : env) : Z := read W16 (LMem (ivt e + 4 * v)) e.

(** The flags an interrupt clears. *)
Definition int_mask : Z :=
  Z.lor (Z.lor (BIT InterruptEnableFlagBit) (BIT TrapFlagBit)) (BIT AlignmentCheckFlagBit).

(** The state in which the three words have been pushed. *)
Definition int_pushed (e : env) : env :=
  let e1 := write W32 (lo EIP) (regs e EIP + 1) e in
  let e2 := pushed W16 (read W16 (lo EFLAGS) e) e1 in
  let e3 := write W16 (lo EFLAGS) (Z.land (read W16 (lo EFLAGS) e) (Z.lnot int_mask)) e2 in
  let e4 := pushed W16 (regs e CS) e3 in
  pushed W16 (u16 (regs e EIP + 1)) e4.

Lemma int_sp e :
  wf e -> stack_is [] e -> 6 <= sp_val e ->
  wf (int_pushed e) /\
  stack_is [(W16, u16 (regs e EIP + 1)); (W16, u16 (regs e CS)); (W16, read W16 (lo EFLAGS) e)]
    (int_pushed e) /\
  sp_val (int_pushed e) = sp_val e - 6.
Proof.
  intros He Hst Hsp. unfold int_pushed. cbv zeta.
  set (e1 := write W32 (lo EIP) _ e). assert (wf e1) as He1 by by apply wf_write.
  assert (stack_is [] e1) as Hst1 by (by apply (stack_is_same _ e)).
  set (e2 := pushed W16 _ e1). assert (wf e2) as He2 by by apply wf_pushed.
  pose proof (stack_is_pushed _ W16 (read W16 (lo EFLAGS) e) e1 He1 Hst1
    ltac:(change (sp_val e1) with (sp_val e); unfold nbytes; simpl; lia)) as Hst2.
  pose proof (sp_val_pushed W16 (read W16 (lo EFLAGS) e) e1 He1
    ltac:(change (sp_val e1) with (sp_val e); unfold nbytes; simpl; lia)) as Hsp2.
  fold e2 in Hst2, Hsp2. change (sp_val e1) with (sp_val e) in Hsp2. change (nbytes W16) with 2 in Hsp2.
  set (e3 := write W16 (lo EFLAGS) _ e2). assert (wf e3) as He3 by by apply wf_write.
  assert (stack_is [(W16, wrap (bits W16) (read W16 (lo EFLAGS) e))] e3) as Hst3
    by (by apply (stack_is_same _ e2)).
  pose proof (stack_is_pushed _ W16 (regs e CS) e3 He3 Hst3
    ltac:(change (sp_val e3) with (sp_val e2); change (nbytes W16) with 2; lia)) as Hst4.
  pose proof (sp_val_pushed W16 (regs e CS) e3 He3
    ltac:(change (sp_val e3) with (sp_val e2); change (nbytes W16) with 2; lia)) as Hsp4.
  set (e4 := pushed W16 _ e3) in *. assert (wf e4) as He4 by by apply wf_pushed.
  change (sp_val e3) with (sp_val e2) in Hsp4. change (nbytes W16) with 2 in Hsp4.
  split_and!.
  - by apply wf_pushed.
  - pose proof (stack_is_pushed _ W16 (u16 (regs e EIP + 1)) e4 He4 Hst4
      ltac:(change (nbytes W16) with 2; lia)) as Hst5.
    change (bits W16) with 16 in Hst5. unfold u16 in *. rewrite wrap_wrap in Hst5.
    by rewrite (wrap_small 16 (read W16 _ e)) in Hst5 by apply (read_range W16 _ _ He).
  - rewrite sp_val_pushed by (done || (change (nbytes W16) with 2; lia)).
    change (nbytes W16) with 2. lia.
Qed.

Lemma int_mem e a :
  wf e -> stack_is [] e -> 6 <= sp_val e -> a < stack_top e - 6 \/ stack_top e <= a ->
  mem (int_pushed e) a = mem e a.
Proof.
  intros He Hst Hsp Ha. unfold int_pushed. cbv zeta.
  set (x1 := read W16 (lo EFLAGS) e). set (x3 := Z.land x1 _).
  set (e1 := write W32 (lo EIP) _ e). assert (wf e1) as He1 by by apply wf_write.
  assert (stack_is [] e1) as Hst1 by (by apply (stack_is_same _ e)).
  assert (nbytes W16 <= sp_val e1) as Hs1
    by (change (sp_val e1) with (sp_val e); change (nbytes W16) with 2; lia).
  pose proof (stack_is_pushed _ W16 x1 e1 He1 Hst1 Hs1) as Hst2.
  pose proof (sp_val_pushed W16 x1 e1 He1 Hs1) as Hsp2.
  pose proof (wf_pushed W16 x1 e1 He1) as He2.
  set (e3 := write W16 (lo EFLAGS) x3 (pushed W16 x1 e1)).
  assert (wf e3) as He3 by by apply wf_write.
  assert (stack_is [(W16, wrap (bits W16) x1)] e3) as Hst3 by (by apply (stack_is_same _ (pushed W16 x1 e1))).
  assert (sp_val e3 = sp_val e - 2) as Hv3 by exact Hsp2.
  assert (nbytes W16 <= sp_val e3) as Hs3 by (rewrite Hv3; change (nbytes W16) with 2; lia).
  pose proof (stack_is_pushed _ W16 (regs e CS) e3 He3 Hst3 Hs3) as Hst4.
  pose proof (sp_val_pushed W16 (regs e CS) e3 He3 Hs3) as Hsp4. change (nbytes W16) with 2 in Hsp4.
  pose proof (wf_pushed W16 (regs e CS) e3 He3) as He4.
  assert (stack_base e3 = stack_base e) as Hb3
    by (unfold stack_base; change (regs e3 SS) with (regs (pushed W16 x1 e1) SS);
        by rewrite regs_pushed by done).
  assert (stack_base (pushed W16 (regs e CS) e3) = stack_base e) as Hb4
    by (unfold stack_base; rewrite regs_pushed by done; exact Hb3).
  pose proof (top_base _ _ He Hst) as Ht.
  rewrite (mem_pushed _ _ _ _ _ He4 Hst4); change (nbytes W16) with 2;
    [|lia|rewrite (top_base _ _ He4 Hst4); lia].
  rewrite (mem_pushed _ _ _ _ _ He3 Hst3); change (nbytes W16) with 2;
    [|lia|rewrite (top_base _ _ He3 Hst3); lia].
  change (mem e3) with (mem (pushed W16 x1 e1)).
  rewrite (mem_pushed _ _ _ _ _ He1 Hst1); change (nbytes W16) with 2; [done|exact Hs1|].
  change (stack_top e1) with (stack_top e). lia.
Qed.

(** An interrupt can be taken: the stack is 16 bits wide with room for three
    words above its limit, and the table entry is not inside those words. *)
Record can_interrupt (v : Z) (e : env) : Prop := {
  ci_wf : wf e;
  ci_vector : 0 <= v < 256;
  ci_mode : f_stack_size e = false;
  ci_segment : regs e SS < 2 ^ 16;
  ci_room : 6 <= sp_val e;
  ci_limit : u32 (stack_bottom e + 6) <= stack_top e;
  ci_table : 0 <= ivt e /\ ivt e + 4 * v + 4 < 2 ^ 64;
  ci_apart : ivt e + 4 * v + 4 <= stack_top e - 6 \/ stack_top e <= ivt e + 4 * v
}.

Lemma ci_stack v e : can_interrupt v e -> stack_is [] e.
Proof. intros H. apply stack_is_nil; [apply H|intros _; apply H]. Qed.

Definition int_entered (v : Z) (e : env) : env :=
  upd_cur_ip (fun _ => 16 * vector_segment v e + vector_offset v e)
    (write W16 (lo EIP) (vector_offset v e)
      (write W32 (lo CS) (vector_segment v e) (int_pushed e))).

(** The part of [decode_int] behind the pushes. *)
Definition int_goto (v : Z) : E BiosEmuExceptions :=
  table ← gets ivt;
  segment ← load W16 (LMem (u64 (table + 4 * v + 2)));
  set32 CS segment ;;
  offset ← load W16 (LMem (u64 (table + 4 * v)));
  set16 EIP offset ;;
  cs ← get32 CS; ip ← get16 EIP;
  set_cur_ip (u32 (u32 (Z.shiftl cs 4) + ip)) ;;
  ret NoException.

Lemma decode_int_pushes v e :
  can_interrupt v e -> decode_int v e = int_goto v (int_pushed e).
Proof.
  intros [He Hv Hm Hss Hroom Hlim _ _].
  unfold decode_int. rewrite (bind_ok _ _ _ tt (write W32 (lo EIP) (regs e EIP + 1) e))
    by (unfold inc_eip; rewrite <- (read32 EIP e He); done).
  set (e1 := write W32 (lo EIP) (regs e EIP + 1) e). assert (wf e1) as He1 by by apply wf_write.
  rewrite Z.gtb_ltb. replace (255 <? v) with false by lia.
  rewrite (bind_ok _ _ _ (stack_bottom e) e1) by done.
  rewrite (bind_ok _ _ _ _ _ (STACK_POINTER16_run e1 He1)).
  assert (u32 (u32 (Z.shiftl (regs e1 SS) 4) + read W16 (lo ESP) e1) = stack_top e) as ->
    by (unfold stack_top; by rewrite Hm).
  rewrite Z.gtb_ltb. replace (stack_top e <? u32 (stack_bottom e + 6)) with false by lia.
  rewrite (bind_ok _ _ _ _ _ (PUSH_run flags W16 (read W16 (lo EFLAGS) e) e1 He1 eq_refl)).
  rewrite (bind_ok _ _ _ tt (write W16 (lo EFLAGS)
    (Z.land (read W16 (lo EFLAGS) e) (Z.lnot int_mask)) (pushed W16 (read W16 (lo EFLAGS) e) e1)))
    by done.
  set (e3 := write W16 (lo EFLAGS) _ _). assert (wf e3) as He3 by (by apply wf_write, wf_pushed).
  rewrite (bind_ok _ _ _ _ _ (PUSH_run (get32 CS) W16 (regs e CS) e3 He3
    ltac:(rewrite <- (read32 CS e He); done))).
  set (e4 := pushed W16 (regs e CS) e3). assert (wf e4) as He4 by by apply wf_pushed.
  assert (get16 EIP (move_sp (- nbytes W16) e4) =
    Ok (u16 (regs e EIP + 1), move_sp (- nbytes W16) e4)) as Hip.
  { rewrite get16_run. change (read W16 (lo EIP) (move_sp _ e4)) with (read W16 (lo EIP) e1).
    rewrite read_lo_wrap. unfold e1. rewrite write32 by done. simpl regs.
    rewrite fn_lookup_insert. unfold u16, u32. by rewrite wrap_narrow. }
  by rewrite (bind_ok _ _ _ _ _ (PUSH_run (get16 EIP) W16 (u16 (regs e EIP + 1)) e4 He4 Hip)).
Qed.

(** The table entry is read from memory the pushes have not touched. *)
Lemma vector_read v k e :
  can_interrupt v e -> (k = 0 \/ k = 2) ->
  read W16 (LMem (u64 (ivt e + 4 * v + k))) (int_pushed e) =
    read W16 (LMem (ivt e + 4 * v + k)) e.
Proof.
  intros H Hk. pose proof H as [He Hv _ _ Hroom _ [Hi0 Hi1] Ha].
  unfold u64. rewrite wrap_small by lia. apply mem_load_ext. intros b Hb. change (Z.of_nat (bytes W16)) with 2 in Hb.
  apply int_mem; [done|by apply (ci_stack v)|done|lia].
Qed.

Lemma int_goto_run v sg off x :
  wf x -> 0 <= sg < 2 ^ 16 -> 0 <= off < 2 ^ 16 ->
  read W16 (LMem (u64 (ivt x + 4 * v + 2))) x = sg ->
  read W16 (LMem (u64 (ivt x + 4 * v))) x = off ->
  int_goto v x = Ok (NoException, upd_cur_ip (fun _ => 16 * sg + off)
    (write W16 (lo EIP) off (write W32 (lo CS) sg x))).
Proof.
  intros Hx Hs Ho Hrs Hro. unfold int_goto. rewrite (bind_ok _ _ _ (ivt x) x) by done.
  rewrite (bind_ok _ _ _ _ _ (load_run W16 (LMem _) x eq_refl)), Hrs.
  rewrite (bind_ok _ _ _ tt (write W32 (lo CS) sg x)) by done.
  rewrite (bind_ok _ _ _ _ _ (load_run W16 (LMem _) _ eq_refl)).
  rewrite read_write_apart, Hro by done.
  rewrite (bind_ok _ _ _ tt (write W16 (lo EIP) off (write W32 (lo CS) sg x))) by done.
  rewrite (bind_ok _ _ _ _ _ (load_run W32 (lo CS) _ eq_refl)).
  rewrite read_write_apart, read_write_lo by (done || by left).
  rewrite (bind_ok _ _ _ _ _ (get16_run EIP _)), read_write_lo.
  change (bits W32) with 32. change (bits W16) with 16. rewrite !wrap_small by lia.
  rewrite Z.shiftl_mul_pow2 by done. change (2 ^ 4) with 16. unfold u32.
  rewrite (wrap_small 32 (sg * 16)), (wrap_small 32) by lia. by rewrite (Z.mul_comm sg).
Qed.

Lemma decode_int_run v e :
  can_interrupt v e -> decode_int v e = Ok (NoException, int_entered v e).
Proof.
  intros H. pose proof H as [He Hv Hm Hss Hroom Hlim Hi Ha].
  destruct (int_sp e He (ci_stack v e H) Hroom) as (Hw & _ & _).
  rewrite decode_int_pushes by done. apply int_goto_run; [done| | | |].
  - apply (read_range W16 (LMem _) e He).
  - apply (read_range W16 (LMem _) e He).
  - apply (vector_read v 2 e H). by right.
  - pose proof (vector_read v 0 e H ltac:(by left)) as H0. by rewrite Z.add_0_r in H0.
Qed.

(** ** Return from interrupt *)

Definition popped_into (w w' : width) (r : reg) (v : Z) (e : env) : env :=
  move_sp (nbytes w) (write w' (lo r) v e).

Lemma pop_into w w' v r l e :
  wf e -> stack_is ((w, v) :: l) e -> r <> ESP -> r <> SS ->
  POP (store w' (lo r)) w e = Ok (tt, popped_into w w' r v e) /\
  wf (popped_into w w' r v e) /\ stack_is l (popped_into w w' r v e) /\
  sp_val (popped_into w w' r v e) = sp_val e + nbytes w.
Proof.
  intros He Hst Hr Hs. destruct (stack_is_popped _ _ _ _ He Hst) as [Hv _].
  assert (loc_ok w' (lo r) = true) as Hok by by destruct w'.
  assert (wf (write w' (lo r) v e)) as He1 by by apply wf_write.
  assert (stack_is ([(w, v)] ++ l) (write w' (lo r) v e)) as Hst1
    by (apply (stack_is_same _ e); try done; by apply regs_write_ne).
  destruct (stack_is_dropped _ _ _ He1 Hst1) as [Hst2 Hsp2].
  cbn [stack_bytes] in Hst2, Hsp2. rewrite Z.add_0_r in Hst2, Hsp2. split_and!.
  - apply POP_run; [done| |done]. rewrite Hv. by apply store_run.
  - by apply wf_move_sp.
  - done.
  - unfold popped_into. rewrite Hsp2. unfold sp_val.
    change (sp_width (write w' (lo r) v e)) with (sp_width e).
    rewrite read_write_apart; [done|apply operand_ok, sp_ok|done|]. left. by intros <-.
Qed.

Lemma regs_popped_ne w w' r v r' e :
  r <> r' -> r' <> ESP -> regs (popped_into w w' r v e) r' = regs e r'.
Proof. intros. unfold popped_into. by rewrite regs_move_sp, regs_write_ne. Qed.
Lemma regs_popped32 w r v e :
  wf e -> 0 <= v < 2 ^ 32 -> r <> ESP -> regs (popped_into w W32 r v e) r = v.
Proof. intros. unfold popped_into. by rewrite regs_move_sp, regs_write32. Qed.

Definition iret_state (a b c : Z) (e : env) : env :=
  popped_into W16 W16 EFLAGS c (popped_into W16 W32 CS b (popped_into W16 W32 EIP a e)).

Lemma cur_ip_iret a b c e : cur_ip (iret_state a b c e) = cur_ip e.
Proof. done. Qed.

Lemma decode_iret_run a b c l e :
  wf e -> f_operand_size e = false -> f_stack_size e = false ->
  stack_is ((W16, a) :: (W16, b) :: (W16, c) :: l) e ->
  decode_iret e =
    Ok (if int_entry_stack e =? stack_top (iret_state a b c e) then EventInterruptDone else NoException,
        iret_state a b c e) /\
  wf (iret_state a b c e) /\ stack_is l (iret_state a b c e) /\
  sp_val (iret_state a b c e) = sp_val e + 6.
Proof.
  intros He Ho Hs Hst.
  destruct (pop_into W16 W32 a EIP _ e He Hst) as (H1 & He1 & Hst1 & Hsp1); [done..|].
  destruct (pop_into W16 W32 b CS _ _ He1 Hst1) as (H2 & He2 & Hst2 & Hsp2); [done..|].
  destruct (pop_into W16 W16 c EFLAGS _ _ He2 Hst2) as (H3 & He3 & Hst3 & Hsp3); [done..|].
  rewrite <- POP16_is in H1, H2, H3 by done. unfold iret_state. split_and!; try done.
  - unfold decode_iret.
    rewrite (bind_ok _ _ _ (f_operand_size e) e), (bind_ok _ _ _ (f_stack_size e) e) by done.
    rewrite Ho, Hs. rewrite bind_assoc, (bind_ok _ _ _ _ _ H1).
    rewrite bind_assoc, (bind_ok _ _ _ _ _ H2), (bind_ok _ _ _ _ _ H3).
    set (e3 := popped_into W16 W16 EFLAGS c _) in *.
    rewrite (bind_ok _ _ _ (int_entry_stack e) e3) by done.
    rewrite (bind_ok _ _ _ _ _ (STACK_POINTER16_run e3 He3)).
    assert (f_stack_size e3 = false) as Hs3 by exact Hs.
    unfold ret, stack_top. by rewrite Hs3.
  - rewrite Hsp3, Hsp2, Hsp1. change (nbytes W16) with 2. lia.
Qed.

(** ** An interrupt and its return *)

Lemma regs_int_pushed r e :
  r <> ESP -> r <> EIP -> r <> EFLAGS -> regs (int_pushed e) r = regs e r.
Proof.
  intros. unfold int_pushed. cbv zeta.
  by rewrite !regs_pushed, regs_write_ne, regs_pushed, regs_write_ne.
Qed.
Lemma eflags_int_pushed e :
  regs (int_pushed e) EFLAGS =
    put_field 0 16 (regs e EFLAGS) (Z.land (read W16 (lo EFLAGS) e) (Z.lnot int_mask)).
Proof.
  unfold int_pushed. cbv zeta. by rewrite !regs_pushed, regs_write_same, regs_pushed, regs_write_ne.
Qed.

Lemma regs_int_entered v r e :
  r <> EIP -> r <> CS -> regs (int_entered v e) r = regs (int_pushed e) r.
Proof.
  intros. unfold int_entered. generalize (int_pushed e). intros x. cbn [regs upd_cur_ip].
  by rewrite !regs_write_ne.
Qed.

Lemma int_entered_facts v e :
  can_interrupt v e ->
  wf (int_entered v e) /\
  stack_is [(W16, u16 (regs e EIP + 1)); (W16, u16 (regs e CS)); (W16, read W16 (lo EFLAGS) e)]
    (int_entered v e) /\
  sp_val (int_entered v e) = sp_val e - 6 /\
  regs (int_entered v e) CS = vector_segment v e /\
  read W16 (lo EIP) (int_entered v e) = vector_offset v e /\
  cur_ip (int_entered v e) = 16 * vector_segment v e + vector_offset v e.
Proof.
  intros H. pose proof H as [He Hv Hm Hss Hroom _ _ _].
  destruct (int_sp e He (ci_stack v e H) Hroom) as (Hw & Hst & Hsp).
  pose proof (read_range W16 (LMem (ivt e + 4 * v + 2)) e He) as Hsg.
  pose proof (read_range W16 (LMem (ivt e + 4 * v)) e He) as Hof.
  fold (vector_segment v e) in Hsg. fold (vector_offset v e) in Hof. change (bits W16) with 16 in *.
  unfold int_entered. generalize dependent (int_pushed e). intros x Hw Hst Hsp. split_and!.
  - by apply stable_ip, wf_write, wf_write.
  - by apply (stack_is_same _ x).
  - done.
  - cbn [regs upd_cur_ip]. rewrite regs_write_ne by done. apply regs_write32; [done|lia].
  - change (read W16 (lo EIP) (upd_cur_ip ?f ?y)) with (read W16 (lo EIP) y).
    rewrite read_write_lo. by apply wrap_small.
  - cbn [cur_ip upd_cur_ip write put_reg upd_regs lo]. apply wrap_small. lia.
Qed.

(** What IRET leaves of a state entered by an interrupt. *)
Lemma iret_regs a b c e :
  wf e -> stack_is [(W16, a); (W16, b); (W16, c)] e ->
  regs (iret_state a b c e) EIP = a /\ regs (iret_state a b c e) CS = b /\
  regs (iret_state a b c e) EFLAGS = put_field 0 16 (regs e EFLAGS) c /\
  (forall r, r <> ESP -> r <> EIP -> r <> CS -> r <> EFLAGS ->
     regs (iret_state a b c e) r = regs e r).
Proof.
  intros He Hst.
  assert (forall w v l x, wf x -> stack_is ((w, v) :: l) x -> 0 <= v < 2 ^ 32) as Hr.
  { intros w v l x Hx Hs. destruct (stack_is_popped _ _ _ _ Hx Hs) as [<- _].
    pose proof (read_range w (LMem (stack_top x)) x Hx) as Hr.
    change (read w (LMem (stack_top x)) x) with (top_value w x) in Hr. destruct w; simpl in *; lia. }
  pose proof (Hr _ _ _ _ He Hst) as Ha.
  destruct (pop_into W16 W32 a EIP _ e He Hst) as (_ & He1 & Hst1 & _); [done..|].
  pose proof (Hr _ _ _ _ He1 Hst1) as Hb.
  unfold iret_state. split_and!.
  - by rewrite 2!regs_popped_ne, regs_popped32.
  - by rewrite regs_popped_ne, regs_popped32.
  - unfold popped_into at 1. by rewrite regs_move_sp, regs_write_same, !regs_popped_ne.
  - intros. by rewrite !regs_popped_ne.
Qed.

(** An interrupt and its IRET, in 16-bit mode: the handler is entered at the
    address of the interrupt table with interrupts and single-stepping off and
    the flags, CS and the incremented IP on the stack; the return restores the
    flag register and the stack pointer, every general and data segment register
    is as before, and CS:IP is behind the interrupting instruction.  The fetch
    pointer [cur_ip] is not reloaded from the restored CS:IP. *)
Theorem int_iret v e :
  can_interrupt v e -> f_operand_size e = false ->
  exists e1 e2,
    decode_int v e = Ok (NoException, e1) /\
    regs e1 CS = vector_segment v e /\ read W16 (lo EIP) e1 = vector_offset v e /\
    cur_ip e1 = 16 * vector_segment v e + vector_offset v e /\
    flag InterruptEnableFlagBit e1 = false /\ flag TrapFlagBit e1 = false /\
    stack_is [(W16, u16 (regs e EIP + 1)); (W16, u16 (regs e CS)); (W16, read W16 (lo EFLAGS) e)] e1 /\
    decode_iret e1 =
      Ok (if int_entry_stack e =? stack_top e2 then EventInterruptDone else NoException, e2) /\
    regs e2 EIP = u16 (regs e EIP + 1) /\ regs e2 CS = u16 (regs e CS) /\
    regs e2 EFLAGS = regs e EFLAGS /\ sp_val e2 = sp_val e /\ cur_ip e2 = cur_ip e1 /\
    (forall r, r <> ESP -> r <> EIP -> r <> CS -> regs e2 r = regs e r).
Proof.
  intros H Ho. pose proof H as [He _ Hm _ _ _ _ _].
  destruct (int_entered_facts v e H) as (Hw & Hst & Hsp & Hcs & Hip & Hcur).
  destruct (decode_iret_run _ _ _ _ _ Hw Ho Hm Hst) as (Hret & _ & _ & Hsp2).
  destruct (iret_regs _ _ _ _ Hw Hst) as (Hr1 & Hr2 & Hr3 & Hr4).
  assert (regs (int_entered v e) EFLAGS =
    put_field 0 16 (regs e EFLAGS) (Z.land (read W16 (lo EFLAGS) e) (Z.lnot int_mask))) as Hfl
    by (by rewrite regs_int_entered, eflags_int_pushed).
  assert (forall k, Z.testbit int_mask k = true -> 0 <= k < 16 ->
    flag k (int_entered v e) = false) as Hflag.
  { intros k Hk Hr. unfold flag. rewrite Hfl, testbit_put_field, Z.land_spec, Z.lnot_spec by lia.
    rewrite Z.sub_0_r, Hk. by replace ((0 <=? k) && (k <? 0 + 16)) with true by lia; rewrite andb_false_r. }
  rewrite Hfl, put_put in Hr3 by done.
  eexists _, _. split; [by apply decode_int_run|].
  split_and!; lazymatch goal with |- cur_ip (iret_state _ _ _ _) = _ => idtac | _ => try done end.
  - by apply Hflag.
  - by apply Hflag.
  - rewrite Hr3. by apply put_get.
  - rewrite Hsp2, Hsp. lia.
  - apply cur_ip_iret.
  - intros r ? ? ?. destruct (decide (r = EFLAGS)) as [->|]; [rewrite Hr3; by apply put_get|].
    rewrite Hr4 by done. by rewrite regs_int_entered, regs_int_pushed.
Qed.

(** The sample state can take any interrupt whose handler entry is its zero table. *)
Lemma sample_can_interrupt l :
  Forall (fun b => 0 <= b < 256) l -> can_interrupt 0x10 (sample 0x7c00 l).
Proof.
  intros Hl. split.
  - by apply sample_wf.
  - lia.
  - done.
  - done.
  - vm_compute. discriminate.
  - vm_compute. discriminate.
  - vm_compute. split; [discriminate|done].
  - left. vm_compute. discriminate.
Qed.

Lemma int_iret_witness : exists e1 ex e2,
  decode_int 0x10 (sample 0x7c00 []) = Ok (NoException, e1) /\
  decode_iret e1 = Ok (ex, e2) /\ regs e2 EIP = 1 /\ sp_val e2 = 0x7c00.
Proof.
  destruct (int_iret 0x10 (sample 0x7c00 [])) as
    (e1 & e2 & H1 & _ & _ & _ & _ & _ & _ & H2 & H3 & _ & _ & H4 & _).
  - apply sample_can_interrupt. constructor.
  - reflexivity.
  - eexists e1, _, e2. split; [exact H1|]. split; [exact H2|]. split; [exact H3|exact H4].
Defined.

(** ** The interrupt call of the kernel *)

(** [emu_interrupt] before the loop. *)
Definition int_started (e : env) : env :=
  set_int_entry_stack (stack_top e) (set_stop_condition IntDone e).

Lemma can_interrupt_started v e : can_interrupt v e -> can_interrupt v (int_started e).
Proof. intros [He ? ? ? ? ? ? ?]. split; try done. destruct He. by split. Qed.

Lemma emu_interrupt_enter h fuel steps v e :
  can_interrupt v e ->
  emu_interrupt h fuel steps v e = emu_run h fuel steps (int_entered v (int_started e)).
Proof.
  intros H. pose proof H as [He Hv Hm _ _ _ _ _]. unfold emu_interrupt.
  rewrite (bind_ok _ _ _ tt (set_stop_condition IntDone e)) by done.
  assert (wf (set_stop_condition IntDone e)) as He' by (destruct He; by split).
  rewrite (bind_ok _ _ _ _ _ (STACK_POINTER16_run _ He')).
  rewrite (bind_ok _ _ _ tt (int_started e)) by (unfold int_started, stack_top; by rewrite Hm).
  unfold u8. rewrite wrap_small by lia.
  by rewrite (bind_ok _ _ _ _ _ (decode_int_run v _ (can_interrupt_started v e H))).
Qed.

(** Fields that writing EIP, CS and the code pointer leaves alone. *)
Lemma enter_fields f v1 v2 x :
  let y := upd_cur_ip f (write W16 (lo EIP) v1 (write W32 (lo CS) v2 x)) in
  mem y = mem x /\ f_default_operand_size y = f_default_operand_size x /\
  f_stack_size y = f_stack_size x /\ int_entry_stack y = int_entry_stack x.
Proof. done. Qed.

Lemma pushed_fields w v x :
  f_default_operand_size (pushed w v x) = f_default_operand_size x /\
  f_stack_size (pushed w v x) = f_stack_size x /\
  int_entry_stack (pushed w v x) = int_entry_stack x.
Proof. done. Qed.
Lemma write_lo_fields w r v x :
  f_default_operand_size (write w (lo r) v x) = f_default_operand_size x /\
  f_stack_size (write w (lo r) v x) = f_stack_size x /\
  int_entry_stack (write w (lo r) v x) = int_entry_stack x.
Proof. done. Qed.

Lemma mem_int_entered v e : mem (int_entered v e) = mem (int_pushed e).
Proof. exact (proj1 (enter_fields _ _ _ (int_pushed e))). Qed.

Lemma config_int_entered v e :
  f_default_operand_size (int_entered v e) = f_default_operand_size e /\
  f_stack_size (int_entered v e) = f_stack_size e /\
  int_entry_stack (int_entered v e) = int_entry_stack e.
Proof.
  destruct (enter_fields (fun _ => 16 * vector_segment v e + vector_offset v e)
    (vector_offset v e) (vector_segment v e) (int_pushed e)) as (_ & H1 & H2 & H3).
  unfold int_entered. rewrite H1, H2, H3. unfold int_pushed. cbv zeta.
  repeat match goal with
  | |- context [pushed ?w ?v ?x] =>
      destruct (pushed_fields w v x) as (-> & -> & ->)
  | |- context [write ?w (lo ?r) ?v ?x] =>
      destruct (write_lo_fields w r v x) as (-> & -> & ->)
  end. done.
Qed.

(** The handler's first byte is fetched from memory the pushes left alone. *)
Lemma handler_code b v e :
  can_interrupt v e ->
  let a := 16 * vector_segment v e + vector_offset v e in
  mem e a = b -> a < stack_top e - 6 \/ stack_top e <= a -> code_at [b] (int_entered v e).
Proof.
  intros H a Hb Ha. pose proof H as [He _ _ _ Hroom _ _ _].
  destruct (int_entered_facts v e H) as (_ & _ & _ & _ & _ & Hcur).
  pose proof (read_range W16 (LMem (ivt e + 4 * v + 2)) e He) as Hsg.
  pose proof (read_range W16 (LMem (ivt e + 4 * v)) e He) as Hof.
  fold (vector_segment v e) in Hsg. fold (vector_offset v e) in Hof. change (bits W16) with 16 in *.
  split; rewrite Hcur; [simpl; lia|]. intros [|i] c Hi; [|done]. injection Hi as <-.
  rewrite Z.add_0_r, mem_int_entered. by rewrite int_mem by (done || by apply (ci_stack v)).
Qed.

(** IRET as the first instruction of the run loop. *)
Lemma run_iret h fuel steps a b c e :
  wf e -> code_at [OP_IRET_IRETD : Z] e -> f_default_operand_size e = false ->
  f_stack_size e = false -> stack_is [(W16, a); (W16, b); (W16, c)] e ->
  let e' := iret_state a b c (move_ip 1 (reset e)) in
  stack_top e' = int_entry_stack e ->
  emu_run h (S fuel) (S steps) e = Ok (EventInterruptDone, e').
Proof.
  intros He Hc Hd Hs Hst e' Htop. set (e2 := move_ip 1 (reset e)).
  assert (wf e2) as He2 by by apply wf_move_ip, wf_reset.
  pose proof (stack_is_same _ e e2 eq_refl eq_refl eq_refl eq_refl Hst) as Hst2.
  destruct (decode_iret_run _ _ _ [] e2 He2 Hd Hs Hst2) as (Hret & _).
  fold e2 in e'. fold e' in Hret. rewrite (emu_run_step _ _ _ _ EventInterruptDone e'); [done|].
  rewrite (run_instruction_plain h OP_IRET_IRETD); [|done|done|by_decide|lia].
  change (select h OP_IRET_IRETD) with decode_iret. fold e2. rewrite Hret.
  change (int_entry_stack e2) with (int_entry_stack e). by rewrite Htop, Z.eqb_refl.
Qed.

(** The registers after IRET, seen from before the interrupt. *)
Lemma iret_back v e e1 :
  can_interrupt v e ->
  stack_is [(W16, u16 (regs e EIP + 1)); (W16, u16 (regs e CS)); (W16, read W16 (lo EFLAGS) e)] e1 ->
  wf e1 -> sp_val e1 = sp_val e - 6 -> f_stack_size e1 = false ->
  (forall r, r <> EIP -> r <> CS -> regs e1 r = regs (int_pushed e) r) ->
  let e' := iret_state (u16 (regs e EIP + 1)) (u16 (regs e CS)) (read W16 (lo EFLAGS) e) e1 in
  regs e' EIP = u16 (regs e EIP + 1) /\ regs e' CS = u16 (regs e CS) /\
  sp_val e' = sp_val e /\ stack_top e' = stack_top e /\
  (forall r, r <> ESP -> r <> EIP -> r <> CS -> regs e' r = regs e r).
Proof.
  intros H Hst He1 Hsp Hs Hr e'. pose proof H as [He _ Hm _ _ _ _ _].
  destruct (pop_into W16 W32 _ EIP _ e1 He1 Hst) as (_ & Hp1 & Hs1 & Hv1); [done..|].
  destruct (pop_into W16 W32 _ CS _ _ Hp1 Hs1) as (_ & Hp2 & Hs2 & Hv2); [done..|].
  destruct (pop_into W16 W16 _ EFLAGS _ _ Hp2 Hs2) as (_ & Hp3 & Hs3 & Hv3); [done..|].
  destruct (iret_regs _ _ _ e1 He1 Hst) as (Hr1 & Hr2 & Hr3 & Hr4). fold e' in Hr1, Hr2, Hr3, Hr4.
  assert (sp_val e' = sp_val e) as Hspe
    by (unfold e', iret_state; rewrite Hv3, Hv2, Hv1, Hsp; change (nbytes W16) with 2; lia).
  assert (forall r, r <> ESP -> r <> EIP -> r <> CS -> regs e' r = regs e r) as Hall.
  { intros r ? ? ?. destruct (decide (r = EFLAGS)) as [->|].
    - rewrite Hr3, Hr by done. rewrite eflags_int_pushed, put_put by done. by apply put_get.
    - rewrite Hr4, Hr by done. by apply regs_int_pushed. }
  split_and!; try done.
  rewrite (top_base [] e' Hp3 Hs3), (top_base [] e He (ci_stack v e H)), Hspe.
  unfold stack_base. change (f_stack_size e') with (f_stack_size e1). by rewrite Hs, Hm, Hall.
Qed.

(** The kernel's BIOS call: when the handler is a single IRET that lies
    outside the three stack words, [emu_interrupt] ends with the interrupt-done
    event after one emulated instruction, whatever the fuel; the flag register,
    the stack pointer and every general and data segment register are restored. *)
Theorem emu_interrupt_iret h fuel steps v e :
  can_interrupt v e -> f_default_operand_size e = false ->
  let a := 16 * vector_segment v e + vector_offset v e in
  mem e a = OP_IRET_IRETD -> a < stack_top e - 6 \/ stack_top e <= a ->
  exists e', emu_interrupt h (S fuel) (S steps) v e = Ok (EventInterruptDone, e') /\
    regs e' EIP = u16 (regs e EIP + 1) /\ regs e' CS = u16 (regs e CS) /\
    sp_val e' = sp_val e /\
    (forall r, r <> ESP -> r <> EIP -> r <> CS -> regs e' r = regs e r).
Proof.
  intros H Hd a Hop Ha. pose proof (can_interrupt_started v e H) as H0.
  pose proof H as [He _ Hm _ _ _ _ _]. rewrite emu_interrupt_enter by done.
  pose proof (handler_code OP_IRET_IRETD v (int_started e) H0 Hop Ha) as Hc.
  destruct (int_entered_facts v _ H0) as (Hw & Hst & Hsp & _ & _ & _).
  destruct (config_int_entered v (int_started e)) as (Hd1 & Hs1 & Hi1).
  pose proof (fun r => regs_int_entered v r (int_started e)) as Hre.
  generalize dependent (int_entered v (int_started e)).
  intros e1 Hc Hw Hst Hsp Hd1 Hs1 Hi1 Hre. set (e2 := move_ip 1 (reset e1)).
  assert (forall r, r <> EIP -> regs e2 r = regs e1 r) as He2r
    by (intros; unfold e2, move_ip; by rewrite regs_write_ne).
  destruct (iret_back v (int_started e) e2) as (Hr1 & Hr2 & Hr3 & Htop & Hr4); try done.
  - by apply wf_move_ip, wf_reset.
  - exact (eq_trans Hs1 Hm).
  - intros r ? ?. by rewrite He2r, Hre.
  - eexists. split; [|split_and!; [exact Hr1|exact Hr2|exact Hr3|exact Hr4]].
    apply run_iret; try done; [exact (eq_trans Hd1 Hd)|exact (eq_trans Hs1 Hm)|].
    transitivity (stack_top e); [exact Htop|by rewrite Hi1].
Qed.

Lemma emu_interrupt_iret_witness : exists e',
  emu_interrupt sample_host 8 8 0x10 (sample 0x7c00 [0xcf]) = Ok (EventInterruptDone, e') /\
  regs e' EIP = 1 /\ sp_val e' = 0x7c00.
Proof.
  destruct (emu_interrupt_iret sample_host 7 7 0x10 (sample 0x7c00 [0xcf]))
    as (e' & H1 & H2 & _ & H3 & _).
  - apply sample_can_interrupt. repeat constructor; lia.
  - reflexivity.
  - vm_compute. reflexivity.
  - left. vm_compute. reflexivity.
  - exists e'. split; [exact H1|]. split; [exact H2|exact H3].
Defined.
