(* ===== verification/ArithFacts.v ===== *)
(** * Multiplication and division

    The MUL, IMUL and DIV helpers of alu.c, among them the software division
    [div_64_32]. *)

From S2P Require Import Prelude CMonad Machine Alu Ops Operations Stable Views AluFacts RunFacts.
From stdpp Require Import base tactics list numbers functions.
Local Open Scope Z_scope.
Local Open Scope c_scope.

(** ** 64-bit by 32-bit division *)

Section division.
Context (b : Z) (Hb : 0 < b).

(** The scan stops at the first power of two that reaches the dividend. *)
Lemma div_scan_stop k : forall n a j,
  (forall i, j <= i < k -> b * 2 ^ i < a) -> a <= b * 2 ^ k -> 0 <= j <= k ->
  b * 2 ^ k < 2 ^ 32 -> k < 32 -> k - j < Z.of_nat n ->
  div_scan n a b j = Some (k + 1).
Proof.
  intros n. induction n as [|n IH]; intros a j Hlt Hge Hj Hw Hk Hn; [lia|].
  assert (forall i, 0 <= i <= k -> u32 (Z.shiftl b i) = b * 2 ^ i) as Hs.
  { intros i Hi. rewrite Z.shiftl_mul_pow2 by lia. apply wrap_small.
    assert (2 ^ i <= 2 ^ k) by (apply Z.pow_le_mono_r; lia).
    assert (0 < 2 ^ i) by (apply Z.pow_pos_nonneg; lia). nia. }
  cbn [div_scan]. replace (32 <=? j) with false by lia. rewrite Hs by lia.
  destruct (decide (j = k)) as [->|].
  - by replace (b * 2 ^ k <? a) with false by lia.
  - pose proof (Hlt j ltac:(lia)). replace (b * 2 ^ j <? a) with true by lia.
    replace (j + 1 <? 64) with true by lia. cbn [andb].
    apply IH; try done; try lia. intros i Hi. apply Hlt. lia.
Qed.

(** The dividend lies between the [k]-th power and the one below it. *)
Definition level (k a : Z) : Prop := a <= b * 2 ^ k /\ (0 < k -> b * 2 ^ (k - 1) < a).

Lemma level_exists m : forall a, 0 < a -> a <= b * 2 ^ Z.of_nat m -> exists k, 0 <= k <= Z.of_nat m /\ level k a.
Proof.
  induction m as [|m IH]; intros a Ha Hm.
  - exists 0. split; [lia|]. split; [done|lia].
  - destruct (decide (a <= b * 2 ^ Z.of_nat m)) as [Hle|Hgt].
    + destruct (IH a Ha Hle) as (k & Hk & Hl). exists k. split; [lia|done].
    + exists (Z.of_nat (S m)). split; [lia|]. split; [done|]. intros _.
      replace (Z.of_nat (S m) - 1) with (Z.of_nat m) by lia. lia.
Qed.

Lemma level_below k a i : level k a -> 0 <= i < k -> b * 2 ^ i < a.
Proof.
  intros [_ H] Hi. specialize (H ltac:(lia)).
  assert (2 ^ i <= 2 ^ (k - 1)) by (apply Z.pow_le_mono_r; lia). nia.
Qed.

Lemma lor_disjoint_add x k i : 0 <= i < k -> (2 ^ k | x) -> Z.lor x (2 ^ i) = x + 2 ^ i.
Proof.
  intros Hi [y ->]. symmetry. apply Z.add_nocarry_lor. apply Z.bits_inj'. intros n Hn.
  rewrite Z.land_spec, Z.bits_0. destruct (decide (n = i)) as [->|].
  - by rewrite Z.mul_pow2_bits_low by lia.
  - by rewrite Z.pow2_bits_false, andb_false_r by lia.
Qed.

(** One round takes the highest power of two off the dividend. *)
Lemma div_loop_run k : forall n a ans,
  0 <= k < 32 -> level k a -> 0 < a < 2 ^ 31 -> b * 2 ^ k < 2 ^ 32 -> k < Z.of_nat n ->
  0 <= ans -> (2 ^ k | ans) -> ans + 2 ^ k <= 2 ^ 31 ->
  div_loop n a b ans = Some (ans + (a - 1) / b, a - b * ((a - 1) / b)).
Proof.
  intros n. revert k. induction n as [|n IH]; intros k a ans Hk Hl Ha Hw Hn H0 Hd Hs; [lia|].
  cbn [div_loop]. rewrite (div_scan_stop k 33 a 0); try lia;
    [|intros i Hi; by apply (level_below k)|apply Hl].
  replace (k + 1 - 1) with k by lia. destruct (Z.eqb_spec k 0) as [->|Hk0].
  - destruct Hl as [Hl _]. rewrite Z.div_small by lia. do 2 f_equal; lia.
  - destruct Hl as [Hle Hgt]. specialize (Hgt ltac:(lia)).
    assert (2 ^ k = 2 * 2 ^ (k - 1)) as Hp by (rewrite <- Z.pow_succ_r by lia; f_equal; lia).
    assert (0 < 2 ^ (k - 1)) by (apply Z.pow_pos_nonneg; lia).
    rewrite Z.shiftl_mul_pow2, Z.shiftl_1_l by lia.
    unfold u32, u64. rewrite (wrap_small 32), (wrap_small 64) by nia.
    rewrite (lor_disjoint_add ans k) by (done || lia).
    assert (s32 (ans + 2 ^ (k - 1)) = ans + 2 ^ (k - 1)) as ->.
    { unfold s32, sext. rewrite wrap_small by lia.
      by replace (ans + 2 ^ (k - 1) <? 2 ^ (32 - 1)) with true by lia. }
    set (a' := a - b * 2 ^ (k - 1)).
    destruct (level_exists (Z.to_nat (k - 1)) a') as (k' & Hk' & Hl');
      [unfold a'; lia|rewrite Z2Nat.id by lia; unfold a'; nia|]. rewrite Z2Nat.id in Hk' by lia.
    assert (2 ^ k' <= 2 ^ (k - 1)) by (apply Z.pow_le_mono_r; lia).
    assert (0 < 2 ^ k') by (apply Z.pow_pos_nonneg; lia).
    assert ((2 ^ k' | 2 ^ (k - 1))) as Hdd.
    { exists (2 ^ (k - 1 - k')). rewrite <- Z.pow_add_r by lia. f_equal. lia. }
    assert (b * 2 ^ k' <= b * 2 ^ (k - 1)) by (apply Z.mul_le_mono_nonneg_l; lia).
    assert (0 < a' < 2 ^ 31) as Ha' by (unfold a'; lia).
    rewrite (IH k' a' (ans + 2 ^ (k - 1))); try done; try lia.
    + assert ((a - 1) / b = 2 ^ (k - 1) + (a' - 1) / b) as ->.
      { rewrite <- Z.div_add_l by lia. f_equal. unfold a'. lia. }
      do 2 f_equal; unfold a'; lia.
    + apply Z.divide_add_r; [|done]. etransitivity; [exact Hdd|].
      etransitivity; [|exact Hd]. exists 2. lia.
Qed.
End division.

(** The software division of a 64-bit by a 32-bit number, for dividends
    below 2^31: it always returns, and it returns the quotient and remainder
    except that an exact multiple of the divisor loses one from the quotient and
    leaves the divisor as remainder.  (No other case differs: a quotient
    [(a - 1) / b] is [a / b] unless [b] divides [a].) *)
Theorem div_64_32_result a b :
  0 < b < 2 ^ 32 -> 0 <= a < 2 ^ 31 ->
  let q := if a <? b then 0 else (a - 1) / b in
  div_64_32 a b = Some (q, a - b * q) /\
  (a mod b <> 0 -> q = a / b /\ a - b * q = a mod b) /\
  (a mod b = 0 -> 0 < a -> q = a / b - 1 /\ a - b * q = b).
Proof.
  intros Hb Ha q. split_and!.
  - unfold div_64_32, q. rewrite Z.gtb_ltb. destruct (Z.ltb_spec a b).
    + cbv iota. rewrite Z.mul_0_r, Z.sub_0_r. unfold u32. by rewrite wrap_small by lia.
    + destruct (level_exists b 31 a) as (k & Hk & Hl); [lia|nia|].
      assert (b * 2 ^ k < 2 ^ 32) as Hbk.
      { destruct (decide (k = 0)) as [->|]; [lia|]. destruct Hl as [_ Hgt]. specialize (Hgt ltac:(lia)).
        assert (2 ^ k = 2 * 2 ^ (k - 1)) by (rewrite <- Z.pow_succ_r by lia; f_equal; lia). nia. }
      assert (2 ^ k <= 2 ^ 31) by (apply Z.pow_le_mono_r; lia).
      rewrite (div_loop_run b ltac:(lia) k); try done; try lia; [|by exists 0].
      assert (0 <= (a - 1) / b < 2 ^ 31) by (split; [apply Z.div_pos; lia|apply Z.div_lt_upper_bound; nia]).
      assert (0 <= a - b * ((a - 1) / b) < 2 ^ 32) by (pose proof (Z.mul_div_le (a - 1) b ltac:(lia));
        pose proof (Z.mul_succ_div_gt (a - 1) b ltac:(lia)); lia).
      unfold u64, u32. by rewrite !wrap_small by lia.
  - intros Hm. pose proof (Z.div_mod a b ltac:(lia)) as Hdm.
    pose proof (Z.mod_pos_bound a b ltac:(lia)).
    assert (q = a / b) as ->.
    { unfold q. destruct (Z.ltb_spec a b); [by rewrite Z.div_small by lia|].
      symmetry. apply (Z.div_unique _ _ _ (a mod b - 1)); lia. }
    lia.
  - intros Hm H0. pose proof (Z.div_mod a b ltac:(lia)) as Hdm.
    assert (q = a / b - 1) as ->.
    { unfold q. destruct (Z.ltb_spec a b); [rewrite Z.mod_small in Hm; lia|].
      symmetry. apply (Z.div_unique _ _ _ (b - 1)); lia. }
    lia.
Qed.

Lemma div_64_32_result_witness :
  div_64_32 100 7 = Some (14, 2) /\ div_64_32 100 10 = Some (9, 10).
Proof.
  split.
  - exact (proj1 (div_64_32_result 100 7 ltac:(lia) ltac:(lia))).
  - exact (proj1 (div_64_32_result 100 10 ltac:(lia) ltac:(lia))).
Defined.

(** ** DIV *)

Definition dx_ax (e : env) : Z := 2 ^ 16 * read W16 (lo EDX) e + read W16 (lo EAX) e.

Lemma div_16_run v e :
  wf e -> 0 <= v < 2 ^ 16 ->
  div_16 v e =
    if v =? 0 then Ok (DivideError, e)
    else if 0xffff <? dx_ax e / v then Ok (DivideError, e)
    else Ok (NoException, write W16 (lo EDX) (dx_ax e mod v) (write W16 (lo EAX) (dx_ax e / v) e)).
Proof.
  intros He Hv. pose proof (read_range W16 (lo EDX) e He) as Hd.
  pose proof (read_range W16 (lo EAX) e He) as Ha. change (bits W16) with 16 in *.
  unfold div_16. destruct (Z.eqb_spec v 0); [done|].
  rewrite (bind_ok _ _ _ (read W16 (lo EDX) e) e), (bind_ok _ _ _ (read W16 (lo EAX) e) e) by done.
  cbv zeta. rewrite lor_shiftl_add by (done || lia). unfold u32. rewrite wrap_small by lia.
  replace (read W16 (lo EDX) e * 2 ^ 16 + read W16 (lo EAX) e) with (dx_ax e) by (unfold dx_ax; lia).
  rewrite Z.gtb_ltb. destruct (0xffff <? dx_ax e / v); [done|].
  pose proof (Z.mod_pos_bound (dx_ax e) v ltac:(lia)).
  unfold u16. by rewrite wrap_small by lia.
Qed.

(** DIV with a 16-bit operand divides DX:AX: a zero operand or a quotient
    that does not fit raises the divide error and changes nothing; otherwise AX
    is the quotient, DX the remainder, and nothing else changes. *)
Theorem div_16_correct v e :
  wf e -> 0 <= v < 2 ^ 16 ->
  (v = 0 \/ 2 ^ 16 * v <= dx_ax e -> div_16 v e = Ok (DivideError, e)) /\
  (v <> 0 -> dx_ax e < 2 ^ 16 * v ->
   exists e', div_16 v e = Ok (NoException, e') /\
     read W16 (lo EAX) e' * v + read W16 (lo EDX) e' = dx_ax e /\
     read W16 (lo EDX) e' < v /\
     (forall w l, operand w l = true -> apart w l W16 (lo EAX) -> apart w l W16 (lo EDX) ->
        read w l e' = read w l e) /\
     mem e' = mem e /\ regs e' EFLAGS = regs e EFLAGS).
Proof.
  intros He Hv. rewrite div_16_run by done. split.
  - intros Hc. destruct (Z.eqb_spec v 0); [done|]. destruct Hc; [done|].
    replace (0xffff <? dx_ax e / v) with true; [done|]. symmetry. apply Z.ltb_lt.
    pose proof (Z.div_le_lower_bound (dx_ax e) v (2 ^ 16) ltac:(lia) ltac:(lia)). lia.
  - intros H0 Hq. replace (v =? 0) with false by lia.
    assert (0 <= dx_ax e) by (pose proof (read_range W16 (lo EDX) e He);
      pose proof (read_range W16 (lo EAX) e He); unfold dx_ax; lia).
    pose proof (Z.div_lt_upper_bound (dx_ax e) v (2 ^ 16) ltac:(lia) ltac:(lia)) as Hlt.
    pose proof (Z.div_pos (dx_ax e) v ltac:(lia) ltac:(lia)).
    pose proof (Z.mod_pos_bound (dx_ax e) v ltac:(lia)). pose proof (Z.div_mod (dx_ax e) v H0).
    replace (0xffff <? dx_ax e / v) with false by lia.
    eexists. split; [done|].
    rewrite read_write_lo, read_write_apart, read_write_lo by (done || by left).
    change (bits W16) with 16. rewrite !wrap_small by lia. split_and!; try lia; try done.
    intros w l Hl Hap1 Hap2. by rewrite !read_write_apart by auto using operand_ok.
Qed.

Lemma div_16_correct_witness : exists e',
  div_16 7 (write W16 (lo EDX) 1 (sample 0x7c00 [])) = Ok (NoException, e') /\
  read W16 (lo EDX) e' < 7.
Proof.
  destruct (div_16_correct 7 (write W16 (lo EDX) 1 (sample 0x7c00 []))) as [_ H].
  - apply wf_write; [reflexivity|by apply sample_wf].
  - lia.
  - destruct H as (e' & H1 & _ & H2 & _); [lia|vm_compute; reflexivity|].
    exists e'. split; [exact H1|exact H2].
Defined.

(** ** MUL and IMUL *)

Lemma truth_high k x : 0 <= k -> 0 <= x -> truth (Z.shiftr x k) = negb (x <? 2 ^ k).
Proof.
  intros Hk Hx. assert (0 < 2 ^ k) by (by apply Z.pow_pos_nonneg).
  unfold truth. rewrite Z.shiftr_div_pow2 by done. f_equal.
  destruct (Z.ltb_spec x (2 ^ k)); [by rewrite Z.div_small|].
  pose proof (Z.div_le_lower_bound x (2 ^ k) 1 ltac:(lia) ltac:(lia)). lia.
Qed.

(** MUL with an 8- or 16-bit operand: AX, or DX:AX, is the exact product,
    and OF tells whether its upper half is non-zero.  A 16-bit product of 2^31 or more
    overflows the [int] in which it is computed. *)
Theorem mul_correct v e :
  wf e ->
  (0 <= v < 2 ^ 8 -> exists e', mul_8 v e = Ok (tt, e') /\
     read W16 (lo EAX) e' = read W8 (lo EAX) e * v /\
     flag OverflowFlagBit e' = negb (read W8 (lo EAX) e * v <? 2 ^ 8)) /\
  (0 <= v < 2 ^ 16 -> read W16 (lo EAX) e * v < 2 ^ 31 -> exists e', mul_16 v e = Ok (tt, e') /\
     dx_ax e' = read W16 (lo EAX) e * v /\
     flag OverflowFlagBit e' = negb (read W16 (lo EAX) e * v <? 2 ^ 16)).
Proof.
  intros He. split; [intros Hv|intros Hv Hint].
  - pose proof (read_range W8 (lo EAX) e He) as Ha. change (bits W8) with 8 in Ha.
    unfold mul_8. rewrite (bind_ok _ _ _ (read W8 (lo EAX) e) e) by done. cbv zeta.
    unfold u16. rewrite wrap_small by nia. rewrite truth_high by nia.
    eexists. split; [go|]. rewrite read_with_flag, read_write_lo by done.
    change (bits W16) with 16. rewrite wrap_small by nia. split; [done|]. by flag_simp.
  - pose proof (read_range W16 (lo EAX) e He) as Ha. change (bits W16) with 16 in Ha.
    unfold mul_16. rewrite (bind_ok _ _ _ (read W16 (lo EAX) e) e) by done. cbv zeta.
    rewrite (proj2 (Z.ltb_lt _ _)), (bind_ok _ _ _ tt e) by done.
    unfold u32. rewrite wrap_small by nia. rewrite truth_high by nia.
    set (p := read W16 (lo EAX) e * v). assert (0 <= p < 2 ^ 32) as Hp by (unfold p; nia).
    eexists. split; [go|]. split; [|by flag_simp]. unfold dx_ax.
    rewrite !read_with_flag, read_write_lo, read_write_apart, read_write_lo by (done || by left).
    change (Z.land p 0xffff) with (Z.land p (Z.ones 16)). rewrite Z.land_ones, Z.shiftr_div_pow2 by done.
    change (bits W16) with 16.
    rewrite (wrap_small 16 (p / 2 ^ 16)), (wrap_small 16 (p mod 2 ^ 16));
      [by rewrite <- Z.div_mod|by apply Z.mod_pos_bound|].
    split; [apply Z.div_pos; lia|apply Z.div_lt_upper_bound; lia].
Qed.

Lemma mul_correct_witness : exists e',
  mul_8 200 (write W8 (lo EAX) 200 (sample 0x7c00 [])) = Ok (tt, e') /\
  read W16 (lo EAX) e' = 40000.
Proof.
  destruct (mul_correct 200 (write W8 (lo EAX) 200 (sample 0x7c00 []))) as [H _].
  - apply wf_write; [reflexivity|by apply sample_wf].
  - destruct H as (e' & H1 & H2 & _); [lia|]. exists e'. split; [exact H1|exact H2].
Defined.

(** A signed product fits into [k + 1] bits exactly when the bits from [k] on
    are all equal. *)
Lemma fits_signed k p :
  0 <= k ->
  negb (Z.shiftr p k =? 0) && negb (Z.shiftr p k =? -1) =
  negb ((- 2 ^ k <=? p) && (p <? 2 ^ k)).
Proof.
  intros Hk. assert (0 < 2 ^ k) by (by apply Z.pow_pos_nonneg).
  rewrite Z.shiftr_div_pow2 by done. rewrite <- negb_orb. f_equal.
  pose proof (Z.div_mod p (2 ^ k) ltac:(lia)). pose proof (Z.mod_pos_bound p (2 ^ k) ltac:(lia)).
  generalize dependent (p / 2 ^ k). generalize dependent (p mod 2 ^ k). intros r Hr q ->.
  destruct (Z.eqb_spec q 0) as [->|]; [lia|]. destruct (Z.eqb_spec q (-1)) as [->|]; [lia|].
  simpl. assert (q <= -2 \/ 1 <= q) as [?|?] by lia; symmetry; apply andb_false_iff;
    [left; apply Z.leb_gt; nia|right; apply Z.ltb_ge; nia].
Qed.

Lemma mul_bounds k a b :
  0 <= k -> - 2 ^ k <= a < 2 ^ k -> - 2 ^ k <= b < 2 ^ k -> - 2 ^ (2 * k + 1) <= a * b < 2 ^ (2 * k + 1).
Proof.
  intros Hk Ha Hb. assert (0 < 2 ^ k) by (by apply Z.pow_pos_nonneg).
  replace (2 * k + 1) with (k + k + 1) by lia. rewrite !Z.pow_add_r by lia. nia.
Qed.

(** IMUL: the exact signed product, its low half in the low destination and
    its high half in the high one, for 16- and 32-bit operands; AX for 8-bit
    ones.  OF is set exactly when the product does not fit the low half. *)
Theorem imul_correct hi_loc lo_loc a b e :
  (exists e', imul_8 b e = Ok (tt, e') /\
     let p := s8 (read W8 (lo EAX) e) * s8 b in
     read W16 (lo EAX) e' = wrap 16 p /\
     flag OverflowFlagBit e' = negb ((- 2 ^ 7 <=? p) && (p <? 2 ^ 7))) /\
  (operand W16 hi_loc = true -> operand W16 lo_loc = true -> apart W16 hi_loc W16 lo_loc ->
   exists e', imul_16 hi_loc lo_loc a b e = Ok (tt, e') /\
     let p := s16 a * s16 b in
     read W16 lo_loc e' = wrap 16 p /\ read W16 hi_loc e' = wrap 16 (p / 2 ^ 16) /\
     flag OverflowFlagBit e' = negb ((- 2 ^ 15 <=? p) && (p <? 2 ^ 15))) /\
  (operand W32 hi_loc = true -> operand W32 lo_loc = true -> apart W32 hi_loc W32 lo_loc ->
   exists e', imul_32 hi_loc lo_loc a b e = Ok (tt, e') /\
     let p := s32 a * s32 b in
     read W32 lo_loc e' = wrap 32 p /\ read W32 hi_loc e' = wrap 32 (p / 2 ^ 32) /\
     flag OverflowFlagBit e' = negb ((- 2 ^ 31 <=? p) && (p <? 2 ^ 31))).
Proof.
  split_and!.
  - unfold imul_8. rewrite (bind_ok _ _ _ (read W8 (lo EAX) e) e) by done. cbv zeta.
    pose proof (sext_range 8 (read W8 (lo EAX) e) ltac:(lia)). pose proof (sext_range 8 b ltac:(lia)).
    pose proof (mul_bounds 7 (s8 (read W8 (lo EAX) e)) (s8 b) ltac:(lia) ltac:(done) ltac:(done)) as Hp.
    unfold s16. rewrite sext_small by (done || exact Hp). rewrite fits_signed by done.
    eexists. split; [go|]. rewrite read_with_flag, read_write_lo by done. split; [done|by flag_simp].
  - intros Hh Hl Ha. unfold imul_16. cbv zeta.
    pose proof (sext_range 16 a ltac:(lia)). pose proof (sext_range 16 b ltac:(lia)).
    pose proof (mul_bounds 15 (s16 a) (s16 b) ltac:(lia) ltac:(done) ltac:(done)) as Hp.
    unfold s32. rewrite sext_small by (done || exact Hp). rewrite fits_signed by done.
    eexists. split; [go|]. rewrite !read_with_flag, read_write by done.
    rewrite read_write_apart, read_write by auto using operand_ok.
    rewrite land_ffff_wrap, wrap_wrap, Z.shiftr_div_pow2 by done. split_and!; [done..|by flag_simp].
  - intros Hh Hl Ha. unfold imul_32. cbv zeta.
    pose proof (sext_range 32 a ltac:(lia)). pose proof (sext_range 32 b ltac:(lia)).
    pose proof (mul_bounds 31 (s32 a) (s32 b) ltac:(lia) ltac:(done) ltac:(done)) as Hp.
    unfold s64. rewrite sext_small by (done || exact Hp). rewrite fits_signed by done.
    eexists. split; [go|]. rewrite !read_with_flag, read_write by done.
    rewrite read_write_apart, read_write by auto using operand_ok.
    rewrite land_ffffffff_wrap, wrap_wrap, Z.shiftr_div_pow2 by done. split_and!; [done..|by flag_simp].
Qed.

Lemma imul_correct_witness : exists e',
  imul_16 (lo EDX) (lo EAX) 0xffff 2 (sample 0x7c00 []) = Ok (tt, e') /\
  read W16 (lo EAX) e' = 0xfffe /\ read W16 (lo EDX) e' = 0xffff.
Proof.
  destruct (imul_correct (lo EDX) (lo EAX) 0xffff 2 (sample 0x7c00 [])) as (_ & H & _).
  destruct H as (e' & H1 & H2 & H3 & _); [reflexivity|reflexivity|left; discriminate|].
  exists e'. split; [exact H1|]. rewrite H2, H3. split; vm_compute; reflexivity.
Defined.
