(* ===== verification/BitFacts.v ===== *)
(** * Shifts, rotates and bit scans

    The shifts and rotates of ops/alu.c against arithmetic and bit-level
    references, the bit tests of ops/bt.c, BSWAP, BSF and BSR. *)

From S2P Require Import Prelude CMonad Machine Alu Ops Operations Stable Views AluFacts.
From stdpp Require Import base tactics list numbers functions.
Local Open Scope Z_scope.
Local Open Scope c_scope.

(** ** Shifts *)

Lemma truth_bit v k : 0 <= k -> truth (Z.land (Z.shiftr v k) 1) = Z.testbit v k.
Proof.
  intros. change 1 with (BIT 0). rewrite truth_BIT, Z.shiftr_spec by lia. f_equal; lia.
Qed.

(** The top bit of an [n]-bit value is what is left of it after shifting out the others. *)
Lemma shiftr_top n v : 1 <= n -> 0 <= v < 2 ^ n -> Z.shiftr v (n - 1) = Z.b2z (Z.testbit v (n - 1)).
Proof.
  intros Hn Hv. rewrite Z.testbit_spec' by lia. rewrite Z.shiftr_div_pow2 by lia.
  symmetry. apply Z.mod_small. assert (2 ^ n = 2 ^ (n - 1) * 2) by
    (rewrite Z.mul_comm, <- Z.pow_succ_r by lia; f_equal; lia).
  split; [apply Z.div_pos; lia|]. apply Z.div_lt_upper_bound; lia.
Qed.

Lemma truth_b2z b : truth (Z.b2z b) = b.
Proof. by destruct b. Qed.

Lemma truth_lxor_b2z a b : truth (Z.lxor (Z.b2z a) (Z.b2z b)) = xorb a b.
Proof. by destruct a, b. Qed.

Lemma land_bit v k : 0 <= k -> Z.land (Z.shiftr v k) 1 = Z.b2z (Z.testbit v k).
Proof.
  intros. rewrite (Z.land_ones _ 1) by done. by rewrite Z.testbit_spec', Z.shiftr_div_pow2.
Qed.

Lemma land_1f count : Z.land count 0x1f = count mod 32.
Proof. by apply (Z.land_ones count 5). Qed.

(** Counts up to the width of the operand are not changed by the reduction. *)
Lemma rotate_count_small w count : count mod 32 <= bits w -> rotate_count w count = count mod 32.
Proof.
  intros. unfold rotate_count. rewrite land_1f.
  pose proof (Z.mod_pos_bound count 32). apply Z.mod_small. lia.
Qed.

Lemma when_run b (m : E unit) e e' : (b = true -> m e = Ok (tt, e')) -> when b m e = Ok (tt, if b then e' else e).
Proof. destruct b; simpl; [by intros ->|done]. Qed.
Lemma when_overflow_run b f e :
  when b (SET_OVERFLOW_FLAG f) e = Ok (tt, if b then with_flag OverflowFlagBit f e else e).
Proof. apply when_run. intros _. apply SET_OVERFLOW_FLAG_run. Qed.
Lemma defined_run (e : env) : defined_if true e = Ok (tt, e).
Proof. done. Qed.
#[export] Hint Resolve when_overflow_run defined_run : run.

(** The state after a shift: the carry, the overflow flag for single-bit
    shifts, then the result. *)
Definition shifted (w : width) (l : loc) (single carry overflow : bool) (v : Z) (e : env) : env :=
  write w l v
    (if single then with_flag OverflowFlagBit overflow (with_flag CarryFlagBit carry e)
     else with_flag CarryFlagBit carry e).

Lemma shifted_spec w l single carry overflow v e :
  operand w l = true ->
  read w l (shifted w l single carry overflow v e) = wrap (bits w) v /\
  flag CarryFlagBit (shifted w l single carry overflow v e) = carry /\
  flag OverflowFlagBit (shifted w l single carry overflow v e) =
    (if single then overflow else flag OverflowFlagBit e).
Proof.
  intros Hl. unfold shifted. rewrite read_write, !flag_write by done.
  split_and!; [done|destruct single; by flag_simp..].
Qed.

Section shifts.
Context (w : width) (l : loc) (count : Z) (e : env).
Context (Hl : operand w l = true) (He : wf e) (Hc : 0 < count mod 32 <= bits w).

Lemma shl_sal_op_run :
  shl_sal_op w l count e =
  Ok (tt, shifted w l (count mod 32 =? 1)
        (Z.testbit (read w l e) (bits w - count mod 32))
        (truth (Z.lxor (Z.shiftr (wrap (shl_ans_bits w) (Z.shiftl (read w l e) (count mod 32))) (bits w - 1))
                  (Z.land (Z.shiftr (read w l e) (bits w - count mod 32)) 1)))
        (wrap (shl_ans_bits w) (Z.shiftl (read w l e) (count mod 32))) e).
Proof.
  unfold shl_sal_op. rewrite rotate_count_small, land_1f by lia. cbv zeta.
  replace (count mod 32 =? 0) with false by lia.
  rewrite (bind_ok _ _ _ _ _ (load_run w l e (operand_ok _ _ Hl))). cbv beta.
  rewrite <- (truth_bit (read w l e)) by lia. unfold shifted. by go.
Qed.

Lemma shr_op_run :
  shr_op w l count e =
  Ok (tt, shifted w l (count mod 32 =? 1)
        (Z.testbit (read w l e) (count mod 32 - 1)) (Z.testbit (read w l e) (bits w - 1))
        (Z.shiftr (read w l e) (count mod 32)) e).
Proof.
  unfold shr_op. rewrite rotate_count_small, land_1f by lia. cbv zeta.
  replace (count mod 32 =? 0) with false by lia.
  rewrite (bind_ok _ _ _ _ _ (load_run w l e (operand_ok _ _ Hl))). cbv beta.
  rewrite truth_bit by lia.
  rewrite shiftr_top by first [by apply read_range|pose proof (bits_pos w); lia].
  rewrite truth_b2z. unfold shifted. by go.
Qed.

Lemma sar_op_run :
  sar_op w l count e =
  Ok (tt, shifted w l (count mod 32 =? 1)
        (Z.testbit (sext (bits w) (read w l e)) (count mod 32 - 1)) false
        (wrap (bits w) (Z.shiftr (sext (bits w) (read w l e)) (count mod 32))) e).
Proof.
  unfold sar_op. rewrite rotate_count_small, land_1f by lia. cbv zeta.
  replace (count mod 32 =? 0) with false by lia.
  rewrite (bind_ok _ _ _ _ _ (load_run w l e (operand_ok _ _ Hl))). cbv beta.
  rewrite truth_bit by lia. unfold shifted. by go.
Qed.
End shifts.

(** The overflow flag of a single-bit left shift. *)
Lemma shl_overflow w v :
  0 <= v < 2 ^ bits w ->
  truth (Z.lxor (Z.shiftr (wrap (shl_ans_bits w) (Z.shiftl v 1)) (bits w - 1))
           (Z.land (Z.shiftr v (bits w - 1)) 1)) =
  xorb (match w with W32 => false | _ => Z.testbit v (bits w - 2) end) (Z.testbit v (bits w - 1)).
Proof.
  intros Hv. rewrite land_bit by (by destruct w).
  rewrite <- truth_lxor_b2z. f_equal. f_equal.
  destruct w; simpl bits in *; simpl shl_ans_bits.
  1, 2: rewrite shiftr_top, testbit_wrap, Z.shiftl_spec by first [lia|by apply wrap_range]; done.
  rewrite Z.shiftr_div_pow2 by done. apply Z.div_small.
  pose proof (wrap_range 16 (Z.shiftl v 1)). lia.
Qed.

Lemma sext_shiftr w x c : 1 <= w -> 0 <= c -> sext w (Z.shiftr (sext w x) c) = sext w x / 2 ^ c.
Proof.
  intros. rewrite Z.shiftr_div_pow2 by done. apply sext_small; [done|].
  pose proof (sext_range w x ltac:(done)). assert (0 < 2 ^ c) by (by apply Z.pow_pos_nonneg).
  split; [apply Z.div_le_lower_bound; nia|apply Z.div_lt_upper_bound; nia].
Qed.

(** SHL, SHR and SAR by a masked count from 1 to the width of the operand:
    SHL multiplies by a power of two modulo the width (for a 32-bit operand only
    the low 16 bits of the product survive), SHR divides the unsigned value and SAR
    the signed value, rounding down.  CF is the last bit shifted out; OF changes
    only for single-bit shifts. *)
Theorem shift_correct w l count e :
  operand w l = true -> wf e -> 0 < count mod 32 <= bits w ->
  let c := count mod 32 in let v := read w l e in
  (exists e', shl_sal_op w l count e = Ok (tt, e') /\
     read w l e' = wrap (match w with W32 => 16 | _ => bits w end) (v * 2 ^ c) /\
     flag CarryFlagBit e' = Z.testbit v (bits w - c) /\
     flag OverflowFlagBit e' =
       if c =? 1 then xorb (match w with W32 => false | _ => Z.testbit v (bits w - 2) end)
                        (Z.testbit v (bits w - 1))
       else flag OverflowFlagBit e) /\
  (exists e', shr_op w l count e = Ok (tt, e') /\
     read w l e' = v / 2 ^ c /\
     flag CarryFlagBit e' = Z.testbit v (c - 1) /\
     flag OverflowFlagBit e' =
       if c =? 1 then Z.testbit v (bits w - 1) else flag OverflowFlagBit e) /\
  (exists e', sar_op w l count e = Ok (tt, e') /\
     sext (bits w) (read w l e') = sext (bits w) v / 2 ^ c /\
     flag CarryFlagBit e' = Z.testbit (sext (bits w) v) (c - 1) /\
     flag OverflowFlagBit e' = if c =? 1 then false else flag OverflowFlagBit e).
Proof.
  intros Hl He Hc c v. pose proof (read_range w l e He) as Hv. fold v in Hv.
  assert (0 < 2 ^ c) by (apply Z.pow_pos_nonneg; lia).
  split_and!.
  - eexists. split; [by apply shl_sal_op_run|]. fold c v.
    edestruct shifted_spec as (-> & -> & ->); [done|]. split_and!; [|done|].
    + rewrite Z.shiftl_mul_pow2 by lia. destruct w; simpl; rewrite ?wrap_wrap; [done..|].
      apply wrap_small. pose proof (wrap_range 16 (v * 2 ^ c)). lia.
    + destruct (Z.eqb_spec c 1) as [->|]; [by apply shl_overflow|done].
  - eexists. split; [by apply shr_op_run|]. fold c v.
    edestruct shifted_spec as (-> & -> & ->); [done|]. split_and!; [|done..].
    rewrite Z.shiftr_div_pow2 by lia. apply wrap_small.
    split; [apply Z.div_pos; lia|apply Z.div_lt_upper_bound; nia].
  - eexists. split; [by apply sar_op_run|]. fold c v.
    edestruct shifted_spec as (-> & -> & ->); [done|]. split_and!; [|done..].
    rewrite wrap_wrap, sext_wrap. apply sext_shiftr; [pose proof (bits_pos w); lia|lia].
Qed.

Lemma shift_correct_witness : exists e',
  sar_op W8 (LMem 0) 4 (sample 0x7c00 [0xf8]) = Ok (tt, e') /\
  s8 (read W8 (LMem 0) e') = -1 /\ flag CarryFlagBit e' = true.
Proof.
  destruct (shift_correct W8 (LMem 0) 4 (sample 0x7c00 [0xf8])) as (_ & _ & e' & H1 & H2 & H3 & _);
    [reflexivity|apply sample_wf; repeat constructor; lia|vm_compute; split; [reflexivity|discriminate]|].
  exists e'. split; [exact H1|]. split; [exact H2|exact H3].
Defined.


(** ** Rotates *)

(** An [n]-bit value rotated left by [c], bit by bit. *)
Lemma testbit_rotl n c v i :
  0 <= v < 2 ^ n -> 0 <= c <= n -> 0 <= i < n ->
  Z.testbit (wrap n (Z.lor (Z.shiftl v c) (Z.shiftr v (n - c)))) i = Z.testbit v ((i - c) mod n).
Proof.
  intros Hv Hc Hi. rewrite testbit_wrap, Z.lor_spec, Z.shiftl_spec, Z.shiftr_spec by lia.
  replace (i <? n) with true by lia. simpl. destruct (decide (c <= i)).
  - rewrite (testbit_small n v (i + (n - c))) by (done || lia).
    by rewrite orb_false_r, Z.mod_small by lia.
  - rewrite Z.testbit_neg_r by lia. simpl. f_equal.
    rewrite <- (Z_mod_plus_full _ 1), Z.mod_small by lia. lia.
Qed.

Lemma testbit_rotr n c v i :
  0 <= v < 2 ^ n -> 0 <= c <= n -> 0 <= i < n ->
  Z.testbit (wrap n (Z.lor (Z.shiftr v c) (Z.shiftl v (n - c)))) i = Z.testbit v ((i + c) mod n).
Proof.
  intros Hv Hc Hi. rewrite Z.lor_comm. replace (Z.shiftr v c) with (Z.shiftr v (n - (n - c))) by (f_equal; lia).
  rewrite testbit_rotl by lia. f_equal. rewrite <- (Z_mod_plus_full (i - (n - c)) 1). f_equal. lia.
Qed.

Definition rol_modulus (w : width) : Z := match w with W8 => 9 | _ => 17 end.

Lemma rol_count_eq w count : rol_count w count = count mod 32 mod rol_modulus w.
Proof. unfold rol_count, rotate_count. rewrite !land_1f. by destruct w. Qed.

Lemma rol_count_range w count : 0 <= count mod 32 mod rol_modulus w <= bits w.
Proof.
  pose proof (Z.mod_pos_bound (count mod 32) (rol_modulus w)). destruct w; simpl in *; lia.
Qed.

(** A rotate stores its result whatever it does to the flags. *)
Lemma when_store_run w l b v (m : E unit) e :
  operand w l = true -> (exists e', m e = Ok (tt, e')) ->
  exists e', (when b m ;; store w l v) e = Ok (tt, write w l v e').
Proof.
  intros Hl [e' He']. exists (if b then e' else e).
  rewrite (bind_ok _ _ _ _ _ (when_run b m e e' (fun _ => He'))). by apply store_run, operand_ok.
Qed.

(** ROL and ROR rotate the bits of the operand by the masked count reduced
    modulo 9 (8-bit operands) or 17 (16- and 32-bit operands): bit [i] of the
    result is bit [i - c], or [i + c], of the operand, modulo its width. *)
Theorem rotate_correct w l count e :
  operand w l = true -> wf e ->
  let c := count mod 32 mod (match w with W8 => 9 | _ => 17 end) in
  (exists e', rol_op w l count e = Ok (tt, e') /\
     forall i, 0 <= i < bits w ->
       Z.testbit (read w l e') i = Z.testbit (read w l e) ((i - c) mod bits w)) /\
  (exists e', ror_op w l count e = Ok (tt, e') /\
     forall i, 0 <= i < bits w ->
       Z.testbit (read w l e') i = Z.testbit (read w l e) ((i + c) mod bits w)).
Proof.
  intros Hl He. fold (rol_modulus w). set (v := read w l e). cbv zeta.
  pose proof (read_range w l e He) as Hv. fold v in Hv. pose proof (rol_count_range w count) as Hc.
  unfold rol_op, ror_op. rewrite rol_count_eq.
  generalize dependent (count mod 32 mod rol_modulus w). intros c Hc. cbv zeta.
  destruct (Z.eqb_spec c 0) as [->|Hc0].
  - split; exists e; (split; [done|]); intros i Hi; fold v;
      by rewrite ?Z.sub_0_r, ?Z.add_0_r, Z.mod_small by lia.
  - rewrite !(bind_ok _ _ _ _ _ (load_run w l e (operand_ok _ _ Hl))). fold v. cbv beta.
    split.
    + edestruct (when_store_run w l) as (e' & ->); [done|eexists; by go|]. eexists. split; [done|]. intros i Hi. rewrite read_write, wrap_wrap by done.
      by apply testbit_rotl.
    + edestruct (when_store_run w l) as (e' & ->); [done|eexists; by go|]. eexists. split; [done|]. intros i Hi. rewrite read_write, wrap_wrap by done.
      by apply testbit_rotr.
Qed.

Lemma rotate_correct_witness : exists e',
  rol_op W8 (LMem 0) 1 (sample 0x7c00 [0x81]) = Ok (tt, e') /\ Z.testbit (read W8 (LMem 0) e') 0 = true.
Proof.
  destruct (rotate_correct W8 (LMem 0) 1 (sample 0x7c00 [0x81])) as ((e' & H1 & H2) & _);
    [reflexivity|apply sample_wf; repeat constructor; lia|].
  exists e'. split; [exact H1|]. rewrite H2 by (simpl; lia). vm_compute. reflexivity.
Defined.

(** The operand with the carry on top of it. *)
Definition carry_word (w : width) (l : loc) (e : env) : Z :=
  Z.b2z (flag CarryFlagBit e) * 2 ^ bits w + read w l e.

Lemma testbit_carry_word n (b : bool) v i :
  0 <= n -> 0 <= v < 2 ^ n -> 0 <= i <= n ->
  Z.testbit (Z.b2z b * 2 ^ n + v) i = if decide (i = n) then b else Z.testbit v i.
Proof.
  intros. rewrite <- lor_shiftl_add, Z.lor_spec, Z.shiftl_spec by lia. case_decide.
  - subst. rewrite Z.sub_diag, Z.b2z_bit0, (testbit_small n) by (done || lia). apply orb_false_r.
  - by rewrite Z.testbit_neg_r by lia.
Qed.

Lemma old_carry_eq e :
  Z.land (Z.shiftr (read W16 (lo EFLAGS) e) CarryFlagBit) 1 = Z.b2z (flag CarryFlagBit e).
Proof. rewrite land_bit by done. unfold read, lo, bits. by rewrite testbit_get_field. Qed.

(** The two halves of a rotate through carry put together. *)
Lemma testbit_rcr n c b v i :
  0 <= v < 2 ^ n -> 1 <= c <= n -> 0 <= i <= n ->
  (if decide (i = n) then Z.testbit v (c - 1)
   else Z.testbit (wrap n (Z.lor (wrap n (Z.lor (Z.shiftr v c) (Z.shiftl (Z.b2z b) (n - c))))
                     (Z.shiftl v (n - c + 1)))) i) =
  Z.testbit (Z.b2z b * 2 ^ n + v) ((i + c) mod (n + 1)).
Proof.
  intros Hv Hc Hi. assert (0 <= (i + c) mod (n + 1) <= n).
  { pose proof (Z.mod_pos_bound (i + c) (n + 1)). lia. }
  rewrite testbit_carry_word by lia. destruct (decide (i + c <= n)) as [Hs|Hs].
  - rewrite !(Z.mod_small (i + c)) by lia. rewrite (decide_False (P := i = n)) by lia.
    rewrite testbit_wrap, Z.lor_spec, testbit_wrap, Z.lor_spec, Z.shiftr_spec, !Z.shiftl_spec by lia.
    rewrite (Z.testbit_neg_r v (i - (n - c + 1))) by lia. replace (i <? n) with true by lia. simpl. rewrite orb_false_r.
    case_decide.
    + replace (i - (n - c)) with 0 by lia. by rewrite Z.b2z_bit0, (testbit_small n) by (done || lia).
    + by rewrite (Z.testbit_neg_r (Z.b2z b)), orb_false_r by lia.
  - replace ((i + c) mod (n + 1)) with (i + c - (n + 1)) by
      (rewrite <- (Z_mod_plus_full _ (-1)), Z.mod_small by lia; lia).
    rewrite (decide_False (P := i + c - (n + 1) = n)) by lia. case_decide; [f_equal; lia|].
    rewrite testbit_wrap, Z.lor_spec, testbit_wrap, Z.lor_spec, Z.shiftr_spec, !Z.shiftl_spec by lia.
    replace (i <? n) with true by lia. simpl. rewrite (testbit_small n v (i + c)) by (done || lia).
    rewrite b2z_testbit by lia. replace (i - (n - c) =? 0) with false by lia.
    rewrite andb_false_r. simpl. f_equal. lia.
Qed.

Lemma testbit_rcl n c b v i :
  0 <= v < 2 ^ n -> 1 <= c <= n -> 0 <= i <= n ->
  (if decide (i = n) then Z.testbit v (n - c)
   else Z.testbit (wrap n (Z.lor (wrap n (Z.lor (Z.shiftl v c) (Z.shiftl (Z.b2z b) (c - 1))))
                     (Z.shiftr v (n - c + 1)))) i) =
  Z.testbit (Z.b2z b * 2 ^ n + v) ((i - c) mod (n + 1)).
Proof.
  intros Hv Hc Hi. replace ((i - c) mod (n + 1)) with ((i + (n + 1 - c)) mod (n + 1)) by
    (rewrite <- (Z_mod_plus_full (i - c) 1); f_equal; lia).
  rewrite <- testbit_rcr by lia. replace (n + 1 - c - 1) with (n - c) by lia.
  replace (n - (n + 1 - c) + 1) with c by lia. replace (n - (n + 1 - c)) with (c - 1) by lia.
  case_decide; [done|]. f_equal. bits_eq. replace (n + 1 - c) with (n - c + 1) by lia.
  by destruct (i0 <? n), (Z.testbit v (i0 - c)), (Z.testbit (Z.b2z b) (i0 - (c - 1))),
    (Z.testbit v (i0 + (n - c + 1))).
Qed.

Lemma rotate_count_eq w count : rotate_count w count = count mod 32 mod (bits w + 1).
Proof. unfold rotate_count. by rewrite land_1f. Qed.

(** The carry word after the flags and the operand of a rotate are written. *)
Lemma testbit_rotated w l b carry f v e i :
  operand w l = true -> 0 <= i <= bits w ->
  Z.testbit (carry_word w l (write w l (wrap (bits w) v)
    (if b : bool then with_flag OverflowFlagBit f (with_flag CarryFlagBit carry e)
     else with_flag CarryFlagBit carry e))) i =
  if decide (i = bits w) then carry else Z.testbit (wrap (bits w) v) i.
Proof.
  intros Hl Hi. unfold carry_word. rewrite read_write, wrap_wrap, flag_write by done.
  pose proof (bits_pos w). rewrite testbit_carry_word by first [lia|apply wrap_range; lia].
  case_decide; [|done]. by destruct b; flag_simp.
Qed.

(** RCR, and RCL for 8-bit operands, rotate the operand extended by the carry
    flag: with CF as bit [n] of an [n + 1]-bit word, bit [i] of the new word is bit
    [i + c], or [i - c], of the old one modulo [n + 1].  For 32-bit operands a count
    of one makes the code shift by 32, which C leaves undefined. *)
Theorem rotate_carry_correct w l count e :
  operand w l = true -> wf e ->
  let c := count mod 32 mod (bits w + 1) in
  (~ (w = W32 /\ c = 1) ->
   exists e', rcr_op w l count e = Ok (tt, e') /\
     forall i, 0 <= i <= bits w ->
       Z.testbit (carry_word w l e') i = Z.testbit (carry_word w l e) ((i + c) mod (bits w + 1))) /\
  (w = W8 ->
   exists e', rcl_op w l count e = Ok (tt, e') /\
     forall i, 0 <= i <= bits w ->
       Z.testbit (carry_word w l e') i = Z.testbit (carry_word w l e) ((i - c) mod (bits w + 1))) /\
  (w = W32 -> c = 1 -> rcl_op w l count e = Undef /\ rcr_op w l count e = Undef).
Proof.
  intros Hl He c. pose proof (read_range w l e He) as Hv. pose proof (bits_pos w).
  assert (Hc : 0 <= c <= bits w) by (pose proof (Z.mod_pos_bound (count mod 32) (bits w + 1)); lia).
  unfold rcr_op, rcl_op. rewrite rotate_count_eq. fold c. clearbody c. cbv zeta.
  split_and!.
  - intros Hu. destruct (Z.eqb_spec c 0) as [->|Hc0].
    { exists e. split; [done|]. intros i Hi. by rewrite Z.add_0_r, Z.mod_small by lia. }
    rewrite (bind_ok _ _ _ _ _ (flags_run e)), (bind_ok _ _ _ _ _ (load_run w l e (operand_ok _ _ Hl))).
    cbv beta. rewrite old_carry_eq. rewrite truth_bit by lia.
    replace (shift_ok w (bits w - c + 1)) with true.
    2: { destruct w; simpl in *; [done..|]. destruct (decide (c = 1)); [by destruct Hu|lia]. }
    eexists. split; [by go|]. intros i Hi. rewrite testbit_rotated by done. apply testbit_rcr; lia.
  - intros ->. destruct (Z.eqb_spec c 0) as [->|Hc0].
    { exists e. split; [done|]. intros i Hi. by rewrite Z.sub_0_r, Z.mod_small by lia. }
    rewrite (bind_ok _ _ _ _ _ (flags_run e)), (bind_ok _ _ _ _ _ (load_run W8 l e (operand_ok _ _ Hl))).
    cbv beta. rewrite old_carry_eq. rewrite truth_bit by lia.
    replace (shift_ok W8 (bits W8 - c + 1)) with true by done.
    eexists. split; [by go|]. intros i Hi. rewrite testbit_rotated by done. apply testbit_rcl; lia.
  - intros -> ->. simpl (1 =? 0). cbv iota.
    by rewrite !(bind_ok _ _ _ _ _ (flags_run e)), !(bind_ok _ _ _ _ _ (load_run W32 l e (operand_ok _ _ Hl))).
Qed.

Lemma rotate_carry_correct_witness : exists e',
  rcr_op W8 (LMem 0) 1 (sample 0x7c00 [0x81]) = Ok (tt, e') /\
  Z.testbit (carry_word W8 (LMem 0) e') 8 = true.
Proof.
  destruct (rotate_carry_correct W8 (LMem 0) 1 (sample 0x7c00 [0x81])) as (H & _);
    [reflexivity|apply sample_wf; repeat constructor; lia|].
  destruct H as (e' & H1 & H2); [intros [H _]; discriminate H|].
  exists e'. split; [exact H1|]. rewrite H2 by (simpl; lia). vm_compute. reflexivity.
Defined.

(** ** Bit tests *)

Lemma land_0f b : Z.land b 0x0f = b mod 16.
Proof. by apply (Z.land_ones b 4). Qed.

Lemma bt_mask_eq w b : w <> W8 -> bt_mask w b = BIT (b mod bits w).
Proof.
  intros Hw. assert (H : forall n k, 0 < k <= 2 ^ n -> 0 <= n ->
    wrap k (Z.shiftl 1 (b mod k)) = BIT (b mod k)).
  { intros n k Hk Hn. pose proof (Z.mod_pos_bound b k). unfold BIT. rewrite Z.shiftl_1_l.
    apply wrap_small. split; [by apply Z.pow_nonneg|apply Z.pow_lt_mono_r; lia]. }
  unfold bt_mask, u16, u32. rewrite land_0f, land_1f. destruct w; [done|by apply (H 4)|by apply (H 5)].
Qed.

Lemma bt_carry_run w l k e :
  operand w l = true -> 0 <= k -> bt_carry w l (BIT k) e =
    Ok (tt, with_flag CarryFlagBit (Z.testbit (read w l e) k) e).
Proof.
  intros Hl Hk. unfold bt_carry. rewrite (bind_ok _ _ _ _ _ (flag_clear_run CarryFlagBit e ltac:(done))).
  rewrite (bind_ok _ _ _ _ _ (load_run w l _ (operand_ok _ _ Hl))).
  rewrite read_with_flag, truth_BIT by done. destruct (Z.testbit _ _); [|done].
  unfold when. rewrite flag_or_run by done. unfold with_flag, upd_regs. simpl.
  by rewrite fn_lookup_insert, put_put, fn_insert_insert.
Qed.

(** Setting, clearing or complementing a bit below [n] stays below [2 ^ n]. *)
Lemma bit_update_range n v k :
  0 <= k < n -> 0 <= v < 2 ^ n ->
  (0 <= Z.setbit v k < 2 ^ n) /\ (0 <= Z.clearbit v k < 2 ^ n) /\ (0 <= Z.lxor v (2 ^ k) < 2 ^ n).
Proof.
  intros Hk Hv. assert (forall i, n <= i -> Z.testbit v i = false) by (intros; by eapply testbit_small).
  assert (forall i, n <= i -> Z.testbit (2 ^ k) i = false) by (intros; apply Z.pow2_bits_false; lia).
  split; [|split]; (apply bounded_by_bits; [lia|]); intros i Hi; unfold Z.setbit, Z.clearbit;
    by rewrite ?Z.shiftl_1_l, ?Z.lor_spec, ?Z.ldiff_spec, ?Z.lxor_spec, ?H, ?H0.
Qed.

(** BT, BTS, BTR and BTC: CF receives the addressed bit of the operand, the bit
    number taken modulo its width; BT leaves the operand, BTS sets, BTR clears
    and BTC complements that bit and nothing else. *)
Theorem bit_test_correct w l b_loc e :
  operand w l = true -> loc_ok w b_loc = true -> w <> W8 -> wf e ->
  let v := read w l e in let b := read w b_loc e mod bits w in
  Forall (fun '(op, v') => exists e',
      op w l b_loc e = Ok (NoException, e') /\ read w l e' = v' /\
      flag CarryFlagBit e' = Z.testbit v b)
    [(bt_op, v); (bts_op, Z.setbit v b); (btr_op, Z.clearbit v b); (btc_op, Z.lxor v (2 ^ b))].
Proof.
  intros Hl Hb Hw He v b. pose proof (read_range w l e He) as Hv. fold v in Hv.
  assert (0 <= b < bits w) as Hb' by (apply Z.mod_pos_bound; by destruct w).
  destruct (bit_update_range (bits w) v b Hb' Hv) as (Hs & Hc & Hx).
  assert (Hstart : forall {A} (k : Z -> E A), (x ← load w b_loc; k x) e = k (read w b_loc e) e).
  { intros A k. by rewrite (bind_ok _ _ _ _ _ (load_run w b_loc e Hb)). }
  pose proof (bt_carry_run w l b e Hl ltac:(lia)) as Hcarry. fold v in Hcarry.
  assert (Hload : load w l (with_flag CarryFlagBit (Z.testbit v b) e) =
    Ok (v, with_flag CarryFlagBit (Z.testbit v b) e)).
  { rewrite load_run, read_with_flag by auto using operand_ok. done. }
  repeat constructor; unfold bt_op, bts_op, btr_op, btc_op; rewrite Hstart, bt_mask_eq by done; fold b;
    rewrite (bind_ok _ _ _ _ _ Hcarry), ?(bind_ok _ _ _ _ _ Hload);
    (eexists; split; [by go|]); rewrite ?flag_write, ?read_write by done;
    (split; [|by flag_simp]).
  - by apply read_with_flag.
  - by apply wrap_small.
  - by rewrite <- Z.ldiff_land; apply wrap_small.
  - unfold BIT. rewrite Z.shiftl_1_l. by apply wrap_small.
Qed.

Lemma bit_test_correct_witness : exists e',
  bts_op W16 (LMem 0) (LTmp 17) (sample 0x7c00 [0x80]) = Ok (NoException, e') /\
  read W16 (LMem 0) e' = 0x82.
Proof.
  pose proof (bit_test_correct W16 (LMem 0) (LTmp 17) (sample 0x7c00 [0x80]) eq_refl eq_refl
    ltac:(discriminate) (sample_wf 0x7c00 [0x80] ltac:(lia) ltac:(repeat constructor; lia))) as H.
  destruct (List.Forall_inv (List.Forall_inv_tail H)) as (e' & H1 & H2 & _).
  exists e'. split; [exact H1|exact H2].
Defined.

(** ** BSWAP *)

Lemma testbit_bswap x i :
  0 <= i < 32 -> Z.testbit (bswap_value x) i = Z.testbit x (8 * (3 - i / 8) + i mod 8).
Proof.
  intros Hi. assert (exists n, (n < 32)%nat /\ i = Z.of_nat n) as (n & Hn & ->) by (exists (Z.to_nat i); lia).
  unfold bswap_value, u32.
  rewrite !Z.lor_spec, !testbit_wrap, !Z.shiftl_spec, !Z.shiftr_spec, !Z.land_spec by lia.
  do 32 (destruct n as [|n]; [simpl; by rewrite ?andb_false_r, ?andb_true_r, ?orb_false_r|]). lia.
Qed.

Lemma bswap_range x : 0 <= bswap_value x < 2 ^ 32.
Proof.
  apply bounded_by_bits; [done|]. intros i Hi. unfold bswap_value, u32.
  rewrite !Z.lor_spec, !testbit_wrap, !Z.shiftr_spec, !Z.land_spec by lia.
  rewrite (testbit_small 32 0x00FF0000), (testbit_small 32 0xFF000000) by (done || lia).
  replace (i <? 32) with false by lia. by rewrite !andb_false_r.
Qed.

Lemma bswap_involutive x : 0 <= x < 2 ^ 32 -> bswap_value (bswap_value x) = x.
Proof.
  intros Hx. apply Z.bits_inj'. intros i Hi. destruct (decide (i < 32)).
  - rewrite !testbit_bswap by (Z.div_mod_to_equations; lia). f_equal. Z.div_mod_to_equations; lia.
  - rewrite !(testbit_small 32) by (done || lia || apply bswap_range). done.
Qed.

(** BSWAP reverses the four bytes of its operand, and applying it twice
    restores the operand. *)
Theorem bswap_correct l e :
  operand W32 l = true -> wf e ->
  exists e1 e2, bswap_32 l e = Ok (NoException, e1) /\ bswap_32 l e1 = Ok (NoException, e2) /\
    (forall k, 0 <= k < 4 ->
       get_field (8 * k) 8 (read W32 l e1) = get_field (8 * (3 - k)) 8 (read W32 l e)) /\
    read W32 l e2 = read W32 l e.
Proof.
  intros Hl He. pose proof (read_range W32 l e He) as Hv. unfold bswap_32.
  do 2 eexists. split; [by go|]. split; [by go|].
  rewrite !read_write by done. rewrite !wrap_small by apply bswap_range. split.
  - intros k Hk. bits_eq. destruct (Z.ltb_spec i 8); simpl; [|done].
    rewrite testbit_bswap by lia. f_equal.
    Z.div_mod_to_equations; lia.
  - by apply bswap_involutive.
Qed.

Lemma bswap_correct_witness : exists e1,
  bswap_32 (LMem 0) (sample 0x7c00 [1; 2; 3; 4]) = Ok (NoException, e1) /\
  get_field 0 8 (read W32 (LMem 0) e1) = 4.
Proof.
  destruct (bswap_correct (LMem 0) (sample 0x7c00 [1; 2; 3; 4])) as (e1 & _ & H1 & _ & H2 & _);
    [reflexivity|apply sample_wf; repeat constructor; lia|].
  exists e1. split; [exact H1|]. exact (H2 0 ltac:(lia)).
Defined.

(** ** Bit scans *)

Lemma bsf_scan_spec n : forall i x,
  match bsf_scan n i x with
  | Some j => i <= j < i + Z.of_nat n /\ Z.testbit x (j - i) = true /\
              forall k, 0 <= k < j - i -> Z.testbit x k = false
  | None => forall k, 0 <= k < Z.of_nat n -> Z.testbit x k = false
  end.
Proof.
  induction n as [|n IH]; intros i x; simpl; [lia|].
  change 1 with (BIT 0) at 1. rewrite truth_BIT by done. destruct (Z.testbit x 0) eqn:H0.
  { rewrite Z.sub_diag. split_and!; [lia..|done|lia]. }
  specialize (IH (i + 1) (Z.shiftr x 1)).
  assert (Hk : forall k, 0 < k -> Z.testbit x k = Z.testbit (Z.shiftr x 1) (k - 1)).
  { intros k ?. rewrite Z.shiftr_spec by lia. f_equal. lia. }
  destruct (bsf_scan n (i + 1) (Z.shiftr x 1)) as [j|].
  - destruct IH as (Hj & Ht & Hl). split; [lia|]. split.
    + rewrite Hk by lia. by replace (j - i - 1) with (j - (i + 1)) by lia.
    + intros k ?. destruct (decide (k = 0)) as [->|]; [done|]. rewrite Hk by lia. apply Hl. lia.
  - intros k ?. destruct (decide (k = 0)) as [->|]; [done|]. rewrite Hk by lia. apply IH. lia.
Qed.

Lemma bsr_scan_spec n x :
  0 < x < 2 ^ Z.of_nat n -> bsr_scan n x = Some (Z.log2 x).
Proof.
  induction n as [|n IH]; intros Hx; simpl bsr_scan; [lia|].
  unfold truth. rewrite Z.shiftr_div_pow2 by lia.
  destruct (Z.eqb_spec (x / 2 ^ Z.of_nat n) 0) as [H0|H0]; simpl.
  - apply IH. split; [lia|]. apply Z.div_small_iff in H0; lia.
  - f_equal. symmetry. apply Z.log2_unique; [lia|]. split; [|rewrite <- Nat2Z.inj_succ; lia].
    apply Z.nlt_ge. intros ?. destruct H0. apply Z.div_small. lia.
Qed.

Lemma bsr_scan_0 n : bsr_scan n 0 = None.
Proof. induction n as [|n IH]; simpl; [done|]. by rewrite Z.shiftr_0_l. Qed.

(** BSF stores the index of the lowest set bit of the source and BSR that of
    the highest one, its base-two logarithm; a zero source leaves the whole state
    as it was. *)
Theorem bit_scan_correct w dst src e :
  operand w dst = true -> loc_ok w src = true -> wf e ->
  let x := read w src e in
  (x = 0 -> bsf_op w dst src e = Ok (NoException, e) /\ bsr_op w dst src e = Ok (NoException, e)) /\
  (x <> 0 -> exists e1 e2,
     bsf_op w dst src e = Ok (NoException, e1) /\ bsr_op w dst src e = Ok (NoException, e2) /\
     Z.testbit x (read w dst e1) = true /\
     (forall k, 0 <= k < read w dst e1 -> Z.testbit x k = false) /\
     read w dst e2 = Z.log2 x).
Proof.
  intros Hd Hs He x. pose proof (read_range w src e He) as Hx. fold x in Hx.
  pose proof (bits_pos w). assert (Hw : bits w < 2 ^ bits w) by (by destruct w).
  unfold bsf_op, bsr_op. rewrite !(bind_ok _ _ _ _ _ (load_run w src e Hs)). fold x.
  pose proof (bsf_scan_spec (Z.to_nat (bits w)) 0 x) as Hf. rewrite Z2Nat.id in Hf by lia. split.
  - intros H0. rewrite H0, bsr_scan_0 in *. split; [|done].
    destruct (bsf_scan _ 0 0) as [j|]; [|done]. destruct Hf as (_ & Hf & _). by rewrite Z.bits_0 in Hf.
  - intros H0. rewrite bsr_scan_spec by (rewrite Z2Nat.id; lia).
    destruct (bsf_scan _ 0 x) as [j|].
    2: { destruct H0. apply Z.bits_inj'. intros i Hi. rewrite Z.bits_0.
         destruct (decide (i < bits w)); [apply Hf; lia|eapply testbit_small; [done|lia]]. }
    rewrite Z.sub_0_r in Hf. destruct Hf as (Hj & Ht & Hl).
    pose proof (Z.log2_nonneg x). pose proof (proj1 (Z.log2_lt_pow2 x (bits w) ltac:(lia)) ltac:(lia)).
    do 2 eexists. split; [by go|]. split; [by go|]. rewrite !read_write by done.
    rewrite !wrap_small by lia. done.
Qed.

Lemma bit_scan_correct_witness : exists e1 e2,
  bsf_op W16 (lo EAX) (LMem 0) (sample 0x7c00 [0x28]) = Ok (NoException, e1) /\
  bsr_op W16 (lo EAX) (LMem 0) (sample 0x7c00 [0x28]) = Ok (NoException, e2) /\
  Z.testbit 0x28 (read W16 (lo EAX) e1) = true /\ read W16 (lo EAX) e2 = 5.
Proof.
  destruct (bit_scan_correct W16 (lo EAX) (LMem 0) (sample 0x7c00 [0x28])) as (_ & H);
    [reflexivity|reflexivity|apply sample_wf; repeat constructor; lia|].
  destruct H as (e1 & e2 & H1 & H2 & H3 & _ & H5); [vm_compute; discriminate|].
  exists e1, e2. split; [exact H1|]. split; [exact H2|]. split; [exact H3|exact H5].
Defined.
