(* ===== verification/DataFacts.v ===== *)
(** * Data movement, conversions and start-up

    What [bios_emu_init] establishes, the exchanges of ops/xchg.c, sign
    extension, the block move of ops/mov.c and stack frames. *)

From S2P Require Import Prelude CMonad Machine Alu Ops Operations Decode Stable Views AluFacts.
From S2P Require Import RunFacts StackFacts CallFacts BitFacts.
From stdpp Require Import base tactics list numbers functions.
Local Open Scope Z_scope.
Local Open Scope c_scope.

(** ** Start-up *)

(** The registers after [bios_emu_init]; SS is not assigned. *)
Definition initial_reg (host_eflags : Z) (e : env) (r : reg) : Z :=
  match r with
  | ESP => 0x7c00
  | EFLAGS => u32 host_eflags
  | SS => regs e SS
  | _ => 0
  end.

Record initialised (host_eflags : Z) (e e' : env) : Prop := {
  init_regs r : regs e' r = initial_reg host_eflags e r;
  init_mem : mem e' = mem e;
  init_ip : cur_ip e' = 0;
  init_bottom : stack_bottom e' = u32 (u32 (u32 (Z.shiftl (regs e SS) 4) + 0x7c00) - 0x2000);
  init_ivt : ivt e' = 0;
  init_modes :
    (f_stack_size e', f_operand_size e', f_default_operand_size e', f_address_size e',
     f_default_address_size e') = (false, false, false, false, false);
  init_default_ss : default_ss e' = DS
}.

(** A run of assignments to whole registers. *)
Fixpoint set_regs (l : list (reg * Z)) (k : E unit) : E unit :=
  match l with [] => k | (r, v) :: l => set32 r v ;; set_regs l k end.
Fixpoint assign (l : list (reg * Z)) (f : reg -> Z) : reg -> Z :=
  match l with [] => f | (r, v) :: l => assign l (<[r := u32 v]> f) end.

Lemma set_regs_run l k : forall e, wf e -> set_regs l k e = k (upd_regs (assign l) e).
Proof.
  induction l as [|[r v] l IH]; intros e He; simpl; [by destruct e|].
  rewrite (bind_ok _ _ _ _ _ (set32_run r v e)), IH by by apply wf_write. by rewrite write32.
Qed.

Definition init_list (host_eflags : Z) : list (reg * Z) :=
  [(CS, 0); (DS, 0); (ES, 0); (FS, 0); (GS, 0); (EIP, 0); (EFLAGS, host_eflags);
   (EAX, 0); (EBX, 0); (ECX, 0); (EDX, 0); (ESI, 0); (EDI, 0); (EBP, 0); (ESP, 0x7c00)].
(** [bios_emu_init] after the registers. *)
Definition init_rest : E unit :=
  modify (set_default_ss DS) ;; modify (set_ivt 0) ;; set_cur_ip 0 ;;
  p ← STACK_POINTER16;
  modify (set_stack_bottom (p - 0x2000)) ;; modify (set_stack_size false) ;;
  modify (set_operand_size false) ;; modify (set_default_operand_size false) ;;
  modify (set_address_size false) ;; modify (set_default_address_size false).

Lemma init_rest_run e :
  wf e -> exists e', init_rest e = Ok (tt, e') /\
    (regs e', mem e', cur_ip e', ivt e', default_ss e') = (regs e, mem e, 0, 0, DS) /\
    stack_bottom e' = u32 (u32 (u32 (Z.shiftl (regs e SS) 4) + read W16 (lo ESP) e) - 0x2000) /\
    (f_stack_size e', f_operand_size e', f_default_operand_size e', f_address_size e',
     f_default_address_size e') = (false, false, false, false, false).
Proof.
  intros He. set (e1 := upd_cur_ip (fun _ => 0) (set_ivt 0 (set_default_ss DS e))).
  assert (wf e1) as He1 by (destruct He; by split).
  unfold init_rest. do 2 (rewrite (bind_ok _ _ _ _ _ eq_refl)).
  rewrite (bind_ok _ _ _ tt e1) by done. rewrite (bind_ok _ _ _ _ _ (STACK_POINTER16_run e1 He1)).
  eexists. split; [reflexivity|]. done.
Qed.

Lemma bios_emu_init_run host_eflags e :
  wf e -> exists e', bios_emu_init host_eflags e = Ok (tt, e') /\ initialised host_eflags e e'.
Proof.
  intros He. change (bios_emu_init host_eflags e) with (set_regs (init_list host_eflags) init_rest e).
  rewrite set_regs_run by done.
  assert (Hr : forall r, assign (init_list host_eflags) (regs e) r = initial_reg host_eflags e r)
    by (by intros []).
  set (e1 := upd_regs _ e). assert (wf e1) as He1.
  { destruct He. split; try done. intros r. change (regs e1 r) with (assign (init_list host_eflags) (regs e) r).
    rewrite Hr. destruct r; simpl; try lia; [by apply wrap_range|auto]. }
  destruct (init_rest_run e1 He1) as (e' & He' & Heq & Hb & Hm). exists e'. split; [done|].
  injection Heq as Hregs Hmem Hip Hivt Hss. split; try done.
  intros r. by rewrite Hregs, <- Hr.
Qed.

(** [bios_emu_init] brings a zero-segment machine into the state in which the
    kernel calls the BIOS: every object holds a value of its type, the stack is
    empty with its limit 0x2000 below the top, and each of the 256 interrupts can be
    taken. *)
Theorem bios_emu_init_ready host_eflags e :
  wf e -> regs e SS = 0 ->
  exists e', bios_emu_init host_eflags e = Ok (tt, e') /\
    wf e' /\ mem e' = mem e /\ stack_is [] e' /\ stack_top e' = 0x7c00 /\ stack_bottom e' = 0x5c00 /\
    forall v, 0 <= v < 256 -> can_interrupt v e'.
Proof.
  intros He Hss. destruct (bios_emu_init_run host_eflags e He) as (e' & Hrun & Hi).
  exists e'. split; [done|]. pose proof Hi as [Hr Hm Hip Hb Hv Hmod _].
  rewrite Hss in Hb. change (u32 _) with 0x5c00 in Hb. injection Hmod as Hs _ _ _ _.
  assert (regs e' SS = 0) as Hss' by by rewrite Hr.
  assert (regs e' ESP = 0x7c00) as Hsp' by by rewrite Hr.
  assert (wf e') as He'.
  { split; [|rewrite Hm; apply He|by rewrite Hip|by rewrite Hb].
    intros r. rewrite Hr. destruct r; simpl; try lia. by apply wrap_range. }
  assert (sp_val e' = 0x7c00) as Hsp.
  { unfold sp_val, sp_width, read, lo. by rewrite Hs, Hsp'. }
  assert (stack_top e' = 0x7c00) as Htop.
  { unfold stack_top, read, lo. by rewrite Hs, Hss', Hsp'. }
  assert (forall v, 0 <= v < 256 -> can_interrupt v e') as Hci.
  { intros v Hv'. split; rewrite ?Hsp, ?Htop, ?Hb, ?Hss', ?Hv; try done; lia. }
  split_and!; try done. apply (ci_stack 0), Hci. lia.
Qed.

Lemma bios_emu_init_ready_witness : exists e',
  bios_emu_init 2 (sample 0 []) = Ok (tt, e') /\ can_interrupt 0x10 e'.
Proof.
  destruct (bios_emu_init_ready 2 (sample 0 [])) as (e' & H1 & _ & _ & _ & _ & _ & H2);
    [apply sample_wf; [lia|constructor]|reflexivity|].
  exists e'. split; [exact H1|apply H2; lia].
Defined.

(** ** Sign extension *)

Lemma sext_of_sext n m x : 1 <= n <= m -> sext m (sext n x) = sext n x.
Proof.
  intros. apply sext_small; [lia|]. pose proof (sext_range n x ltac:(lia)).
  assert (2 ^ (n - 1) <= 2 ^ (m - 1)) by (apply Z.pow_le_mono_r; lia). lia.
Qed.

Lemma testbit_sign n v : 1 <= n -> 0 <= v < 2 ^ n -> Z.testbit v (n - 1) = negb (v <? 2 ^ (n - 1)).
Proof.
  intros Hn Hv. pose proof (shiftr_top n v Hn Hv) as H. rewrite Z.shiftr_div_pow2 in H by lia.
  assert (0 < 2 ^ (n - 1)) by (apply Z.pow_pos_nonneg; lia).
  destruct (Z.ltb_spec v (2 ^ (n - 1))), (Z.testbit v (n - 1)); try done; simpl in H.
  - rewrite Z.div_small in H by lia. done.
  - apply Z.div_small_iff in H; lia.
Qed.

(** The sign of a value, as an [n]-bit high part. *)
Lemma sext_double n h v :
  1 <= n -> 0 <= v < 2 ^ n -> h = (if v <? 2 ^ (n - 1) then 0 else 2 ^ n - 1) ->
  sext (2 * n) (h * 2 ^ n + v) = sext n v.
Proof.
  intros Hn Hv ->. assert (2 ^ n = 2 * 2 ^ (n - 1)) by (rewrite <- Z.pow_succ_r by lia; f_equal; lia).
  assert (2 ^ (2 * n) = 2 ^ n * 2 ^ n) by (rewrite <- Z.pow_add_r by lia; f_equal; lia).
  assert (2 ^ (2 * n - 1) = 2 ^ n * 2 ^ (n - 1)) by (rewrite <- Z.pow_add_r by lia; f_equal; lia).
  unfold sext. rewrite (wrap_small n v) by done.
  destruct (Z.ltb_spec v (2 ^ (n - 1))).
  - rewrite Z.mul_0_l, Z.add_0_l, wrap_small by nia.
    by replace (v <? 2 ^ (2 * n - 1)) with true by (symmetry; apply Z.ltb_lt; nia).
  - rewrite wrap_small by nia. replace (_ <? 2 ^ (2 * n - 1)) with false by (symmetry; apply Z.ltb_ge; nia).
    nia.
Qed.

(** CBW, CWDE, CWD and CDQ keep the signed value: of AL in AX, of AX in EAX,
    of AX in DX:AX and of EAX in EDX:EAX. *)
Theorem sign_extension e :
  wf e ->
  (exists e', decode_cbw_cwde e = Ok (tt, e') /\
     if f_operand_size e then s32 (read W32 (lo EAX) e') = s16 (read W16 (lo EAX) e)
     else s16 (read W16 (lo EAX) e') = s8 (read W8 (lo EAX) e)) /\
  (exists e', decode_cwd_cdq e = Ok (tt, e') /\ regs e' EAX = regs e EAX /\
     if f_operand_size e
     then s64 (read W32 (lo EDX) e' * 2 ^ 32 + read W32 (lo EAX) e') = s32 (read W32 (lo EAX) e)
     else s32 (read W16 (lo EDX) e' * 2 ^ 16 + read W16 (lo EAX) e') = s16 (read W16 (lo EAX) e)).
Proof.
  intros He. unfold decode_cbw_cwde, decode_cwd_cdq, operand_size.
  rewrite !(bind_ok _ _ _ _ _ (eq_refl : gets f_operand_size e = _)).
  pose proof (read_range W16 (lo EAX) e He). pose proof (read_range W32 (lo EAX) e He).
  destruct (f_operand_size e) eqn:Hos; split; (eexists; split; [by go|]); rewrite ?read_write_lo.
  - apply (eq_trans (sext_wrap _ _)). by apply sext_of_sext.
  - rewrite regs_write_ne by done. split; [done|].
    rewrite (read_write_apart W32 (lo EAX)) by first [done|by left].
    apply (sext_double 32); [done..|]. rewrite (shiftr_top 32), truth_b2z by done.
    rewrite (testbit_sign 32) by done. by destruct (_ <? _).
  - apply (eq_trans (sext_wrap _ _)). by apply sext_of_sext.
  - rewrite regs_write_ne by done. split; [done|].
    rewrite (read_write_apart W16 (lo EAX)) by first [done|by left].
    apply (sext_double 16); [done..|]. unfold s16, sext. rewrite (wrap_small 16 (read W16 (lo EAX) e)) by done.
    simpl bits in *. rewrite Z.shiftr_div_pow2 by done.
    destruct (Z.ltb_spec (read W16 (lo EAX) e) (2 ^ (16 - 1))).
    + rewrite Z.div_small by lia. done.
    + replace (_ / 2 ^ 16) with (-1); [done|]. apply (Z.div_unique _ _ _ (read W16 (lo EAX) e)); lia.
Qed.

Lemma sign_extension_witness : exists e',
  decode_cbw_cwde (sample 0x7c00 []) = Ok (tt, e') /\ s16 (read W16 (lo EAX) e') = 0.
Proof.
  destruct (sign_extension (sample 0x7c00 [])) as ((e' & H1 & H2) & _);
    [apply sample_wf; [lia|constructor]|]. exists e'. split; [exact H1|exact H2].
Defined.

(** ** Exchange *)

Lemma operand_narrow w l : operand W32 l = true -> operand w l = true.
Proof.
  destruct l as [r off|a|t]; simpl; [|done..]. rewrite !andb_true_iff. intros [[H ?] ?]. split_and!; [|done..].
  apply reg_access_ok_spec in H. apply reg_access_ok_spec. destruct w; simpl in *; lia.
Qed.
Lemma apart_narrow w a b : apart W32 a W32 b -> apart w a w b.
Proof. destruct a, b, w; simpl; try done; try lia; (intros [?|?]; [by left|right; lia]). Qed.

(** Two operands written one after the other. *)
Lemma write_pair w a b x y e :
  operand w a = true -> operand w b = true -> apart w a w b ->
  let e' := write w b y (write w a x e) in
  read w a e' = wrap (bits w) x /\ read w b e' = wrap (bits w) y /\
  forall w' l, loc_ok w' l = true -> apart w' l w a -> apart w' l w b -> read w' l e' = read w' l e.
Proof.
  intros Ha Hb Hab e'. unfold e'. rewrite (read_write w b) by done.
  rewrite read_write_apart, read_write by auto using operand_ok. split_and!; [done..|].
  intros. by rewrite !read_write_apart by auto using operand_ok.
Qed.

(** XCHG swaps its two operands (of 32-bit operands only the low halves) and XADD
    leaves the sum in the first and the old first operand in the second; nothing
    that overlaps neither operand changes. *)
Theorem exchange_correct w a b e :
  operand w a = true -> operand w b = true -> apart w a w b -> wf e ->
  let u := match w with W32 => W16 | _ => w end in
  (exists e', xchg_op w a b e = Ok (NoException, e') /\
     read u a e' = read u b e /\ read u b e' = read u a e /\
     forall w' l, loc_ok w' l = true -> apart w' l u a -> apart w' l u b -> read w' l e' = read w' l e) /\
  (exists e', xadd_op w a b e = Ok (NoException, e') /\
     read w a e' = wrap (bits w) (read w a e + read w b e) /\ read w b e' = read w a e /\
     forall w' l, loc_ok w' l = true -> apart w' l w a -> apart w' l w b -> read w' l e' = read w' l e).
Proof.
  intros Ha Hb Hab He u.
  assert (operand u a = true /\ operand u b = true /\ apart u a u b) as (Hua & Hub & Huab).
  { unfold u. destruct w; [done..|]. by auto using operand_narrow, apart_narrow. }
  unfold xchg_op, xadd_op. change (xchg_width w) with u. split; eexists; (split; [by go|]).
  - destruct (write_pair u a b (read u b e) (read u a e) e) as (H1 & H2 & Hf); [done..|].
    rewrite wrap_small in H1, H2 by (by apply read_range). done.
  - destruct (write_pair w a b (read w b e + read w a e) (read w a e) e) as (H1 & H2 & Hf); [done..|].
    rewrite wrap_small in H2 by (by apply read_range). by rewrite (Z.add_comm (read w a e)).
Qed.

Lemma exchange_correct_witness : exists e',
  xchg_op W16 (LMem 0) (LMem 2) (sample 0x7c00 [1; 2; 3; 4]) = Ok (NoException, e') /\
  read W16 (LMem 0) e' = 0x403 /\ read W16 (LMem 2) e' = 0x201.
Proof.
  destruct (exchange_correct W16 (LMem 0) (LMem 2) (sample 0x7c00 [1; 2; 3; 4])) as ((e' & H1 & H2 & H3 & _) & _);
    [reflexivity|reflexivity|left; simpl; lia|apply sample_wf; repeat constructor; lia|].
  exists e'. split; [exact H1|]. split; [exact H2|exact H3].
Defined.

(** ** Block moves *)

Lemma movs_loop_run w n : forall a da b db e,
  wf e -> (forall i, 0 <= i <= Z.of_nat n -> 0 <= a + i * da < 2 ^ 64 /\ 0 <= b + i * db < 2 ^ 64) ->
  (forall i j, 0 <= i < j -> j < Z.of_nat n ->
     apart w (LMem (b + j * db)) w (LMem (a + i * da)) /\ apart w (LMem (a + i * da)) w (LMem (a + j * da))) ->
  exists m, movs_loop w n (LMem a) da (LMem b) db e = Ok (tt, upd_mem (fun _ => m) e) /\
    (forall i, 0 <= i < Z.of_nat n ->
       mem_load (bytes w) m (a + i * da) = read w (LMem (b + i * db)) e) /\
    (forall x, (forall i, 0 <= i < Z.of_nat n -> x < a + i * da \/ a + i * da + Z.of_nat (bytes w) <= x) ->
       m x = mem e x).
Proof.
  induction n as [|n IH]; intros a da b db e He Hr Hd.
  { exists (mem e). split_and!; [by destruct e|lia|done]. }
  simpl movs_loop. rewrite (bind_ok _ _ _ _ _ (load_run w (LMem b) e eq_refl)).
  set (v := read w (LMem b) e). rewrite (bind_ok _ _ _ _ _ (store_run w (LMem a) v e eq_refl)).
  set (e1 := write w (LMem a) v e). assert (wf e1) as He1 by by apply wf_write.
  destruct (Hr 1 ltac:(lia)) as [Ha Hb]. unfold u64. rewrite !wrap_small by lia.
  destruct (IH (a + da) da (b + db) db e1 He1) as (m & Hm & Hcopy & Hframe).
  { intros i Hi. specialize (Hr (i + 1) ltac:(lia)). lia. }
  { intros i j Hij Hj. specialize (Hd (i + 1) (j + 1) ltac:(lia) ltac:(lia)).
    by rewrite !Z.mul_add_distr_r, !Z.mul_1_l, !(Z.add_comm (_ * _)), !Z.add_assoc in Hd. }
  exists m. split; [exact Hm|]. split.
  - intros i Hi. destruct (decide (i = 0)) as [->|Hi0].
    + rewrite !Z.mul_0_l, !Z.add_0_r. transitivity (read w (LMem a) e1).
      * apply mem_load_ext. intros x Hx. apply Hframe. intros k Hk.
        destruct (Hd 0 (k + 1) ltac:(lia) ltac:(lia)) as [_ Hd']. simpl in Hd'. lia.
      * unfold e1. rewrite read_write by done. apply wrap_small. by apply read_range.
    + replace (a + i * da) with (a + da + (i - 1) * da) by lia. rewrite Hcopy by lia.
      replace (b + db + (i - 1) * db) with (b + i * db) by lia.
      unfold e1. apply read_write_apart; [done..|].
      destruct (Hd 0 i ltac:(lia) ltac:(lia)) as [Hd' _]. by rewrite Z.mul_0_l, Z.add_0_r in Hd'.
  - intros x Hx. rewrite Hframe.
    + apply mem_store_outside. specialize (Hx 0 ltac:(lia)). lia.
    + intros i Hi. specialize (Hx (i + 1) ltac:(lia)). lia.
Qed.

Lemma repeat_times_run e :
  repeat_times e = Ok (if f_repeat e then
    (if f_operand_size e then s32 (read W32 (lo ECX) e) else read W16 (lo ECX) e) else 1, e).
Proof.
  unfold repeat_times, operand_size. rewrite !(bind_ok _ _ _ _ _ eq_refl).
  by destruct (f_repeat e), (f_operand_size e).
Qed.

(** MOVSB, with or without REP and in either direction: byte [i] of the
    destination block is byte [i] of the source block for every round, provided no
    round overwrites a byte a later one reads; the rest of memory is untouched.  So
    are all registers: neither SI and DI nor CX is updated. *)
Theorem block_move a b e :
  wf e ->
  let s := if flag DirectionFlagBit e then -1 else 1 in
  let n := if f_repeat e then
             (if f_operand_size e then s32 (read W32 (lo ECX) e) else read W16 (lo ECX) e) else 1 in
  (forall i, 0 <= i <= Z.max 0 n -> 0 <= a + i * s < 2 ^ 64 /\ 0 <= b + i * s < 2 ^ 64) ->
  (forall i j, 0 <= i < j -> j < n -> b + j * s <> a + i * s) ->
  exists e', decode_string_instructions_8 (LMem a) 1 (LMem b) 1 (movs_op W8) e = Ok (tt, e') /\
    (forall i, 0 <= i < n -> mem e' (a + i * s) = mem e (b + i * s)) /\
    (forall x, (forall i, 0 <= i < n -> x <> a + i * s) -> mem e' x = mem e x) /\
    regs e' = regs e.
Proof.
  intros He s n Hr Hd. unfold decode_string_instructions_8.
  rewrite (bind_ok _ _ _ _ _ (flag_set_run DirectionFlagBit e ltac:(done))).
  rewrite (bind_ok _ _ _ _ _ (repeat_times_run e)). fold n. change (- 1) with (-1). fold s.
  assert (s = 1 \/ s = -1) as Hs by (unfold s; destruct (flag _ e); lia).
  destruct (movs_loop_run W8 (Z.to_nat n) a s b s e He) as (m & Hm & Hcopy & Hframe).
  - intros i Hi. apply Hr. lia.
  - intros i j Hij Hj. specialize (Hd i j Hij ltac:(lia)). simpl. nia.
  - eexists. split; [exact Hm|]. split_and!; [| |done].
    + intros i Hi. rewrite <- (read8_mem (b + i * s)), <- Hcopy by (done || lia).
      symmetry. apply (read8_mem _ (upd_mem (fun _ => m) e)).
    + intros x Hx. apply Hframe. intros i Hi. specialize (Hx i ltac:(lia)). simpl. lia.
Qed.

Lemma block_move_witness : exists e',
  decode_string_instructions_8 (LMem 16) 1 (LMem 0) 1 (movs_op W8) (sample 0x7c00 [7]) = Ok (tt, e') /\
  mem e' 16 = 7.
Proof.
  destruct (block_move 16 0 (sample 0x7c00 [7])) as (e' & H1 & H2 & _).
  - apply sample_wf; repeat constructor; lia.
  - intros i Hi. change (0 <= i <= 1) in Hi. change (flag _ _) with false. cbv iota. lia.
  - intros i j Hij Hj. change (j < 1) in Hj. lia.
  - exists e'. split; [exact H1|]. exact (H2 0 ltac:(split; [lia|reflexivity])).
Defined.

(** ** Stack frames *)

Lemma holds_ext l : forall a m m',
  (forall x, a <= x -> m' x = m x) -> holds l a m -> holds l a m'.
Proof.
  induction l as [|[w v] l IH]; intros a m m' Hm; [done|]. intros [<- Hl]. split.
  - apply mem_load_ext. intros x Hx. apply Hm. lia.
  - apply (IH _ m); [|done]. intros x Hx. apply Hm. pose proof (nbytes_range w). lia.
Qed.

(** ENTER with nesting level 0, and LEAVE, on operands as wide as the stack pointer. *)
Definition entered (w : width) (alloc : Z) (e : env) : env :=
  let e1 := pushed w (read w (lo EBP) e) e in
  move_sp (- alloc) (write w (lo EBP) (sp_val e1) e1).

Lemma decode_enter_run e :
  wf e -> f_operand_size e = f_stack_size e -> read W8 (LMem (u64 (cur_ip e + 2))) e = 0 ->
  decode_enter e = Ok (NoException, entered (sp_width e) (read W16 (LMem (cur_ip e)) e)
    (move_ip 1 (move_ip 2 e))).
Proof.
  intros He Hos Hlevel. unfold decode_enter. rewrite (bind_ok _ _ _ _ _ (fetch_run W16 e)).
  rewrite (bind_ok _ _ _ 0 (move_ip 1 (move_ip 2 e))) by (by rewrite fetch_run, <- Hlevel).
  set (alloc := read W16 (LMem (cur_ip e)) e). set (e0 := move_ip 1 (move_ip 2 e)).
  assert (wf e0) as He0 by by do 2 apply wf_move_ip. unfold operand_size.
  rewrite (bind_ok _ _ _ (f_stack_size e) e0) by (by rewrite <- Hos).
  set (w := sp_width e). set (e1 := pushed w (read w (lo EBP) e0) e0).
  assert (f_stack_size e1 = f_stack_size e) as Hs1 by done.
  rewrite (bind_ok _ _ _ (sp_val e1) e1).
  2: { unfold sp_val, sp_width. rewrite Hs1. unfold e1, w, sp_width. destruct (f_stack_size e);
       (rewrite (bind_ok _ _ _ tt (pushed _ _ e0)) by (apply PUSH_run; [done|]; unfold get32, get16;
          rewrite load_run by done; do 2 f_equal; simpl; by rewrite fn_lookup_insert_ne by done));
       done. }
  simpl (0 =? 0). cbv iota. rewrite (bind_ok _ _ _ tt e1) by done.
  unfold entered. fold e1. set (e2 := write w (lo EBP) (sp_val e1) e1).
  rewrite (bind_ok _ _ _ tt (move_sp (- alloc) e2)); [done|].
  unfold e2, w, sp_width. destruct (f_stack_size e) eqn:Hs.
  - rewrite (bind_ok _ _ _ _ _ (set32_run EBP (sp_val e1) e1)). by apply move_sp_32.
  - rewrite (bind_ok _ _ _ _ _ (set16_run EBP (sp_val e1) e1)). by apply move_sp_16.
Qed.

Definition left_frame (w : width) (e : env) : env :=
  let e1 := write w (lo ESP) (read w (lo EBP) e) e in
  move_sp (nbytes w) (write w (lo EBP) (top_value w e1) e1).

Lemma decode_leave_run e :
  wf e -> f_operand_size e = f_stack_size e ->
  decode_leave e = Ok (NoException, left_frame (sp_width e) e).
Proof.
  intros He Hos. unfold decode_leave, operand_size, left_frame, sp_width.
  rewrite (bind_ok _ _ _ (f_stack_size e) e) by (by rewrite <- Hos).
  assert (Hpop : forall w, w <> W8 -> POP (store w (lo EBP)) w (write w (lo ESP) (read w (lo EBP) e) e) =
    Ok (tt, left_frame w e)).
  { intros w Hw. apply POP_run; [apply wf_write; [by destruct w|done]|by destruct w|done]. }
  destruct (f_stack_size e) eqn:Hs; rewrite bind_assoc.
  - rewrite (bind_ok _ _ _ _ _ (get32_run EBP e)), bind_assoc, (bind_ok _ _ _ _ _ (set32_run ESP _ e)).
    by rewrite (bind_ok _ _ _ _ _ (Hpop W32 ltac:(done))).
  - rewrite (bind_ok _ _ _ _ _ (get16_run EBP e)), bind_assoc, (bind_ok _ _ _ _ _ (set16_run ESP _ e)).
    by rewrite (bind_ok _ _ _ _ _ (Hpop W16 ltac:(done))).
Qed.

Lemma sp_val_write w r v e : r <> ESP -> sp_val (write w (lo r) v e) = sp_val e.
Proof. intros. unfold sp_val, sp_width. simpl. by rewrite fn_lookup_insert_ne. Qed.

(** The state after ENTER. *)
Lemma entered_facts w alloc l e :
  wf e -> w = sp_width e -> stack_is l e -> 0 <= alloc -> nbytes w + alloc <= sp_val e ->
  let e1 := entered w alloc e in
  wf e1 /\ read w (lo EBP) e1 = sp_val e - nbytes w /\ sp_val e1 = sp_val e - nbytes w - alloc /\
  holds ((w, read w (lo EBP) e) :: l) (stack_base e + (sp_val e - nbytes w)) (mem e1) /\
  regs e1 SS = regs e SS.
Proof.
  intros He -> Hst Ha Hsp. set (w := sp_width e) in *. pose proof (nbytes_range w).
  pose proof (sp_val_range e He) as Hr. fold w in Hr.
  set (e1 := pushed w (read w (lo EBP) e) e). assert (wf e1) as He1 by by apply wf_pushed.
  assert (sp_val e1 = sp_val e - nbytes w) as Hsp1.
  { change (sp_val e1) with (sp_val (move_sp (- nbytes w) e)). rewrite sp_val_move; fold w; lia. }
  pose proof (stack_is_pushed l w (read w (lo EBP) e) e He Hst ltac:(lia)) as (_ & _ & Hh).
  fold e1 in Hh. rewrite Hsp1, wrap_small in Hh by (by apply read_range).
  assert (forall r, r <> ESP -> regs e1 r = regs e r) as Hregs by (intros; by apply regs_move_sp).
  assert (stack_base e1 = stack_base e) as Hbase by (unfold stack_base; by rewrite Hregs).
  rewrite Hbase in Hh. unfold entered. fold e1. set (e2 := write w (lo EBP) (sp_val e1) e1).
  assert (operand w (lo EBP) = true) as Hbp by (unfold w, sp_width; by destruct (f_stack_size e)).
  assert (wf e2) as He2 by (apply wf_write; [by apply operand_ok|done]).
  split_and!.
  - by apply wf_move_sp.
  - unfold read, lo. rewrite regs_move_sp by done. change (read w (lo EBP) e2 = sp_val e - nbytes w).
    unfold e2. rewrite read_write, Hsp1, wrap_small by (done || lia). done.
  - rewrite sp_val_move; unfold e2; rewrite sp_val_write by done; [lia|].
    change (sp_width (write _ _ _ e1)) with w. lia.
  - exact Hh.
  - rewrite regs_move_sp by done. unfold e2. rewrite regs_write_ne by done. by apply Hregs.
Qed.

(** LEAVE from a state whose frame pointer addresses the saved one. *)
Lemma left_frame_facts w v l e :
  wf e -> w = sp_width e -> (f_stack_size e = false -> regs e SS < 2 ^ 16) ->
  read w (lo EBP) e + nbytes w + stack_bytes l < 2 ^ bits w -> 0 <= v < 2 ^ bits w ->
  holds ((w, v) :: l) (stack_base e + read w (lo EBP) e) (mem e) ->
  let e1 := left_frame w e in
  read w (lo EBP) e1 = v /\ sp_val e1 = read w (lo EBP) e + nbytes w /\ stack_is l e1.
Proof.
  intros He -> Hss Hroom Hv Hh. set (w := sp_width e) in *.
  pose proof (read_range w (lo EBP) e He) as Hbp. pose proof (nbytes_range w). pose proof (stack_bytes_nonneg l).
  assert (forall r, operand w (lo r) = true \/ r = EFLAGS \/ r = EIP) as Hop
    by (intros []; unfold w, sp_width; destruct (f_stack_size e); auto).
  assert (operand w (lo ESP) = true) as Hspo by (destruct (Hop ESP) as [?|[?|?]]; done).
  assert (operand w (lo EBP) = true) as Hbpo by (destruct (Hop EBP) as [?|[?|?]]; done).
  set (e1 := write w (lo ESP) (read w (lo EBP) e) e). assert (wf e1) as He1 by (apply wf_write; [by apply operand_ok|done]).
  assert (sp_val e1 = read w (lo EBP) e) as Hsp1.
  { unfold sp_val. change (sp_width e1) with w. unfold e1. rewrite read_write by done. by apply wrap_small. }
  assert (stack_is ((w, v) :: l) e1) as Hst.
  { split_and!; [by unfold e1; rewrite regs_write_ne|..].
    - change (sp_width e1) with w. rewrite Hsp1. cbn [stack_bytes]. lia.
    - rewrite Hsp1. unfold stack_base, e1. rewrite regs_write_ne by done. exact Hh. }
  destruct (stack_is_popped l w v e1 He1 Hst) as [Htop Hpop].
  unfold left_frame. fold e1. rewrite Htop. set (e2 := write w (lo EBP) v e1).
  assert (regs e2 ESP = regs e1 ESP) as Hsp2 by (unfold e2; by rewrite regs_write_ne).
  split_and!.
  - unfold read, lo. rewrite regs_move_sp by done. change (read w (lo EBP) e2 = v).
    unfold e2. rewrite read_write by done. by apply wrap_small.
  - rewrite sp_val_move; unfold e2; rewrite sp_val_write, Hsp1 by done; [done|].
    change (sp_width (write _ _ _ e1)) with w. lia.
  - eapply stack_is_same; [..|exact Hpop]; try done.
Qed.

(** ENTER with nesting level 0 saves BP on the stack, points BP at it and
    reserves the requested bytes; LEAVE, from any later state with the same BP in
    which memory from the frame pointer upwards is intact, restores BP, SP and the
    stack of the caller. *)
Theorem enter_leave l e :
  wf e -> f_operand_size e = f_stack_size e -> stack_is l e ->
  read W8 (LMem (u64 (cur_ip e + 2))) e = 0 ->
  let w := sp_width e in let alloc := read W16 (LMem (cur_ip e)) e in
  nbytes w + alloc <= sp_val e ->
  exists e1, decode_enter e = Ok (NoException, e1) /\
    read w (lo EBP) e1 = sp_val e - nbytes w /\ sp_val e1 = sp_val e - nbytes w - alloc /\
    forall e2, wf e2 -> f_operand_size e2 = f_operand_size e -> f_stack_size e2 = f_stack_size e ->
      regs e2 SS = regs e1 SS -> read w (lo EBP) e2 = read w (lo EBP) e1 ->
      (forall x, stack_base e1 + read w (lo EBP) e1 <= x -> mem e2 x = mem e1 x) ->
      exists e3, decode_leave e2 = Ok (NoException, e3) /\
        read w (lo EBP) e3 = read w (lo EBP) e /\ sp_val e3 = sp_val e /\ stack_is l e3.
Proof.
  intros He Hos Hst Hlevel w alloc Hroom. pose proof (nbytes_range w).
  pose proof (read_range W16 (LMem (cur_ip e)) e He) as Ha. fold alloc in Ha.
  set (e0 := move_ip 1 (move_ip 2 e)). assert (wf e0) as He0 by by do 2 apply wf_move_ip.
  assert (forall r, r <> EIP -> regs e0 r = regs e r) as Hr0
    by (intros; unfold e0; by rewrite !regs_move_ip).
  assert (sp_val e0 = sp_val e) as Hsp0 by (unfold sp_val, read, lo; by rewrite Hr0).
  assert (read w (lo EBP) e0 = read w (lo EBP) e) as Hbp0 by (unfold read, lo; by rewrite Hr0).
  assert (stack_base e0 = stack_base e) as Hb0 by (unfold stack_base; by rewrite Hr0).
  assert (stack_is l e0) as Hst0 by (eapply stack_is_same; [..|exact Hst]; (done || by apply Hr0)).
  rewrite decode_enter_run by done. fold w alloc e0.
  destruct (entered_facts w alloc l e0 He0 eq_refl Hst0) as (He1 & Hbp1 & Hsp1 & Hh1 & Hss1); [lia..|].
  rewrite Hsp0 in Hbp1, Hsp1, Hh1. rewrite Hbp0, Hb0 in Hh1. rewrite Hr0 in Hss1 by done.
  eexists. split; [done|]. split; [done|]. split; [done|].
  intros e2 He2 Hos2 Hs2 Hss2 Hbp2 Hmem2. rewrite Hbp1 in Hbp2, Hmem2. rewrite Hss1 in Hss2.
  assert (sp_width e2 = w) as Hw2 by (unfold w, sp_width; by rewrite Hs2).
  rewrite decode_leave_run, Hw2 by congruence. eexists. split; [done|]. rewrite <- Hw2.
  destruct Hst as (Hss & Hb & _). fold w in Hb.
  destruct (left_frame_facts (sp_width e2) (read w (lo EBP) e) l e2) as (H1 & H2 & H3);
    rewrite ?Hw2, ?Hs2, ?Hss2, ?Hbp2 in *; try done; [lia|by apply read_range| |].
  - assert (stack_base e2 = stack_base e) as -> by (unfold stack_base; by rewrite Hs2, Hss2).
    eapply holds_ext; [|exact Hh1]. intros x Hx. apply Hmem2.
    revert Hx. unfold stack_base. by rewrite Hss1.
  - split_and!; [done|lia|done].
Qed.

Lemma enter_leave_witness : exists e1,
  decode_enter (sample 0x7c00 [4; 0; 0]) = Ok (NoException, e1) /\ sp_val e1 = 0x7bfa.
Proof.
  destruct (enter_leave [] (sample 0x7c00 [4; 0; 0])) as (e1 & H1 & _ & H2 & _).
  - apply sample_wf; repeat constructor; lia.
  - reflexivity.
  - split; [reflexivity|]. split; [reflexivity|exact Logic.I].
  - reflexivity.
  - vm_compute. discriminate.
  - exists e1. split; [exact H1|exact H2].
Defined.
