(* ===== verification/DecimalFacts.v ===== *)
(** * Decimal adjustment

    AAM, AAD and DAA of ops/alu.c on decimal operands. *)

From S2P Require Import Prelude CMonad Machine Alu Stable Views AluFacts RunFacts CallFacts BitFacts.
From stdpp Require Import base tactics list numbers functions.
Local Open Scope Z_scope.
Local Open Scope c_scope.

(** ** AAM and AAD *)

(** The flags follow AL and everything else stays. *)
Definition with_al_flags (e : env) : env :=
  let al := read W8 (lo EAX) e in
  with_flag ParityFlagBit (truth (calc_parity al)) (with_flag ZeroFlagBit (al =? 0)
    (with_flag SignFlagBit (Z.testbit al 7) e)).

Lemma al_flags_run e : wf e -> al_flags e = Ok (tt, with_al_flags e).
Proof.
  intros He. unfold al_flags. rewrite (bind_ok _ _ _ _ _ (get8_run EAX e)).
  rewrite (bind_ok _ _ _ _ _ (SIGN_FLAG_run W8 _ e (read_range W8 (lo EAX) e He))).
  unfold with_al_flags. by go.
Qed.

Lemma read_with_al_flags w l e : operand w l = true -> read w l (with_al_flags e) = read w l e.
Proof. intros. unfold with_al_flags. by rewrite !read_with_flag. Qed.
Lemma flag_with_al_flags e :
  let al := read W8 (lo EAX) e in
  flag ZeroFlagBit (with_al_flags e) = (al =? 0) /\ flag SignFlagBit (with_al_flags e) = Z.testbit al 7.
Proof. unfold with_al_flags. split; by flag_simp. Qed.
Lemma wf_with_al_flags e : wf e -> wf (with_al_flags e).
Proof. intros. unfold with_al_flags. by repeat apply wf_with_flag. Qed.

Lemma land_ff_wrap x : Z.land x 0xff = wrap 8 x.
Proof. by apply (Z.land_ones x 8). Qed.

(** The two halves of AX. *)
Lemma read_halves al ah e :
  let e' := write W8 (lo EAX) al (write W8 (hi EAX) ah e) in
  read W8 (lo EAX) e' = wrap 8 al /\ read W8 (hi EAX) e' = wrap 8 ah.
Proof.
  intros e'. unfold e'. rewrite read_write by done. split; [done|].
  rewrite read_write_apart, read_write by first [done|right; simpl; lia]. done.
Qed.

Lemma decode_aam_run b e :
  wf e -> mem e (cur_ip e) = b -> b <> 0 ->
  decode_aam e = Ok (tt, with_al_flags
    (write W8 (lo EAX) (read W8 (lo EAX) e mod b)
      (write W8 (hi EAX) (read W8 (lo EAX) e / b) (move_ip 1 e)))).
Proof.
  intros He Hb Hb0. unfold decode_aam. rewrite (bind_ok _ _ _ _ _ (fetch_run W8 e)), read8_mem, Hb.
  change (Z.of_nat (bytes W8)) with 1. replace (b =? 0) with false by lia.
  rewrite (bind_ok _ _ _ _ _ (defined_run _)), (bind_ok _ _ _ _ _ (get8_run EAX _)).
  rewrite (bind_ok _ _ _ _ _ (set8h_run EAX _ _)), (bind_ok _ _ _ _ _ (get8_run EAX _)).
  rewrite (bind_ok _ _ _ _ _ (set8_run EAX _ _)).
  rewrite (read_write_apart W8 (lo EAX)) by first [done|right; simpl; lia].
  rewrite (read_move_ip W8 EAX 0) by done. apply al_flags_run. do 2 (apply wf_write; [done|]). by apply wf_move_ip.
Qed.

Lemma decode_aad_run b e :
  wf e -> mem e (cur_ip e) = b ->
  decode_aad e = Ok (tt, with_al_flags
    (write W8 (hi EAX) 0 (write W8 (lo EAX)
      (Z.land (read W8 (lo EAX) e + read W8 (hi EAX) e * b) 0xff) (move_ip 1 e)))).
Proof.
  intros He Hb. unfold decode_aad. rewrite (bind_ok _ _ _ _ _ (fetch_run W8 e)), read8_mem, Hb.
  change (Z.of_nat (bytes W8)) with 1.
  rewrite (bind_ok _ _ _ _ _ (get8_run EAX _)), (bind_ok _ _ _ _ _ (get8h_run EAX _)).
  rewrite (bind_ok _ _ _ _ _ (set8_run EAX _ _)), (bind_ok _ _ _ _ _ (set8h_run EAX _ _)).
  unfold lo, hi. rewrite !read_move_ip by done. apply al_flags_run. do 2 (apply wf_write; [done|]). by apply wf_move_ip.
Qed.

(** AAM splits AL into quotient and remainder by its immediate base in AH and
    AL, with ZF and SF following AL (a zero base is undefined); AAD with the same base
    puts AL back together and clears AH. *)
Theorem aam_aad b e :
  wf e -> mem e (cur_ip e) = b ->
  let al := read W8 (lo EAX) e in
  (b = 0 -> decode_aam e = Undef) /\
  (b <> 0 -> exists e1, decode_aam e = Ok (tt, e1) /\
     read W8 (hi EAX) e1 = al / b /\ read W8 (lo EAX) e1 = al mod b /\
     flag ZeroFlagBit e1 = (al mod b =? 0) /\ flag SignFlagBit e1 = Z.testbit (al mod b) 7 /\
     (mem e (cur_ip e1) = b -> exists e2, decode_aad e1 = Ok (tt, e2) /\
        read W8 (lo EAX) e2 = al /\ read W8 (hi EAX) e2 = 0)).
Proof.
  intros He Hb al. pose proof (read_range W8 (lo EAX) e He) as Hal. fold al in Hal. simpl in Hal.
  split.
  - intros ->. unfold decode_aam. by rewrite (bind_ok _ _ _ _ _ (fetch_run W8 e)), read8_mem, Hb.
  - intros Hb0. pose proof (wf_mem e He (cur_ip e)) as Hbr. rewrite Hb in Hbr.
    eexists. split; [by apply (decode_aam_run b)|]. fold al.
    rewrite !read_with_al_flags by done. set (e1 := write W8 (lo EAX) _ _).
    destruct (read_halves (al mod b) (al / b) (move_ip 1 e)) as [H1 H2]. fold e1 in H1, H2.
    assert (0 <= al / b <= al) by (split; [apply Z.div_pos; lia|apply Z.div_le_upper_bound; nia]).
    pose proof (Z.mod_pos_bound al b ltac:(lia)). pose proof (Z.div_mod al b Hb0).
    rewrite wrap_small in H1, H2 by lia. destruct (flag_with_al_flags e1) as [-> ->].
    rewrite H1, H2. split_and!; [done..|]. intros Hm.
    assert (wf e1) by (do 2 (apply wf_write; [done|]); by apply wf_move_ip).
    eexists. split; [apply (decode_aad_run b); [by apply wf_with_al_flags|done]|].
    rewrite !read_with_al_flags, H1, H2 by done. rewrite (read_write W8 (hi EAX)) by done.
    split; [|done]. rewrite read_write_apart, read_write by first [done|right; simpl; lia].
    replace (al mod b + al / b * b) with al by lia. by rewrite land_ff_wrap, wrap_wrap, wrap_small.
Qed.

Lemma aam_aad_witness : exists e1,
  decode_aam (sample 0x7c00 [10; 10]) = Ok (tt, e1) /\ read W8 (hi EAX) e1 = 0.
Proof.
  destruct (aam_aad 10 (sample 0x7c00 [10; 10])) as (_ & H);
    [apply sample_wf; repeat constructor; lia|reflexivity|].
  destruct H as (e1 & H1 & H2 & _); [lia|]. exists e1. split; [exact H1|exact H2].
Defined.

(** ** DAA *)

Lemma flag_or_lor m k e :
  0 <= m < 2 ^ 16 -> flag_or (Z.lor m (BIT k)) e = (flag_or m ;; flag_or (BIT k)) e.
Proof.
  intros Hm. unfold flag_or, set_flags.
  rewrite (bind_ok _ _ _ _ _ (flags_run e)), bind_assoc, (bind_ok _ _ _ _ _ (flags_run e)).
  rewrite (bind_ok _ _ _ _ _ (set16_run EFLAGS _ e)). rewrite (bind_ok _ _ _ _ _ (flags_run _)).
  rewrite read_write_lo, !set16_run, Z.lor_assoc. do 2 f_equal.
  assert (0 <= Z.lor (read W16 (lo EFLAGS) e) m < 2 ^ 16) as Hr.
  { pose proof (get_field_range 0 16 (regs e EFLAGS) ltac:(done)). apply bounded_by_bits; [done|].
    intros i Hi. rewrite Z.lor_spec, !(testbit_small 16) by done. done. }
  change (bits W16) with 16. rewrite (wrap_small _ _ Hr). unfold write, lo, put_reg, upd_regs. simpl.
  by rewrite fn_lookup_insert, fn_insert_insert, put_put.
Qed.

(** [flag_or] of the old carry and AF. *)
Lemma flag_or_cf_af (cf : bool) e :
  flag_or (Z.lor (Z.b2z cf) (BIT AuxiliaryCarryFlagBit)) e =
  Ok (tt, with_flag AuxiliaryCarryFlagBit true (if cf then with_flag CarryFlagBit true e else e)).
Proof.
  destruct cf; [|by apply flag_or_run].
  rewrite flag_or_lor by done. change (Z.b2z true) with (BIT CarryFlagBit).
  rewrite (bind_ok _ _ _ _ _ (flag_or_run CarryFlagBit e ltac:(done))). by apply flag_or_run.
Qed.

Definition daa_low (al : Z) (af : bool) : bool := (Z.land al 0x0f >? 9) || af.
Definition daa_al (al : Z) (af : bool) : Z := if daa_low al af then wrap 8 (al + 6) else al.
Definition daa_result (al : Z) (cf af : bool) : Z * bool :=
  if (daa_al al af >? 0x99) || cf then (wrap 8 (daa_al al af + 0x60), true) else (daa_al al af, false).

Lemma decode_daa_run e :
  wf e -> exists e', decode_daa e = Ok (tt, e') /\
    (read W8 (lo EAX) e', flag CarryFlagBit e') =
      daa_result (read W8 (lo EAX) e) (flag CarryFlagBit e) (flag AuxiliaryCarryFlagBit e).
Proof.
  intros He. unfold decode_daa. set (al := read W8 (lo EAX) e). set (cf := flag CarryFlagBit e).
  rewrite (bind_ok _ _ _ _ _ (get8_run EAX e)), (bind_ok _ _ _ _ _ (flags_run e)). fold al.
  assert (u8 (Z.land (read W16 (lo EFLAGS) e) (BIT CarryFlagBit)) = Z.b2z cf) as ->.
  { rewrite <- (Z.shiftr_0_r (read W16 (lo EFLAGS) e)), old_carry_eq. by destruct (flag _ e). }
  cbv zeta. rewrite (bind_ok _ _ _ _ _ (SET_CARRY_FLAG_run false e)).
  rewrite (bind_ok _ _ _ _ _ (flag_set_run AuxiliaryCarryFlagBit _ ltac:(done))).
  rewrite flag_with_flag by done. rewrite decide_False by done.
  set (af := flag AuxiliaryCarryFlagBit e). fold (daa_low al af).
  set (e1 := with_flag CarryFlagBit false e).
  assert (exists e2, (if daa_low al af then
      set8 EAX (al + 6) ;; flag_or (Z.lor (Z.b2z cf) (BIT AuxiliaryCarryFlagBit)) ;;
      SET_CARRY_FLAG (al >? u8 (Z.lnot 6))
    else SET_FLAG false AuxiliaryCarryFlagBit) e1 = Ok (tt, e2) /\
    read W8 (lo EAX) e2 = daa_al al af) as (e2 & Hrun & Hal2).
  { unfold daa_al. destruct (daa_low al af); eexists.
    - split.
      + rewrite (bind_ok _ _ _ _ _ (set8_run EAX _ _)), (bind_ok _ _ _ _ _ (flag_or_cf_af cf _)).
        apply SET_CARRY_FLAG_run.
      + rewrite !read_with_flag by done. destruct cf; rewrite ?read_with_flag by done; by rewrite read_write.
    - split; [by apply SET_FLAG_run|]. by rewrite !read_with_flag. }
  rewrite (bind_ok _ _ _ _ _ Hrun), (bind_ok _ _ _ _ _ (get8_run EAX e2)), Hal2.
  unfold daa_result. replace (truth (Z.b2z cf)) with cf by (by destruct cf).
  destruct ((daa_al al af >? 0x99) || cf); eexists.
  - split; [rewrite (bind_ok _ _ _ _ _ (set8_run EAX _ _)); apply SET_CARRY_FLAG_run|].
    rewrite read_with_flag, read_write by done. f_equal. by flag_simp.
  - split; [apply SET_CARRY_FLAG_run|]. rewrite read_with_flag, Hal2 by done. f_equal. by flag_simp.
Qed.

(** Packed decimal. *)
Definition bcd (n : Z) : Z := n / 10 * 16 + n mod 10.

Definition daa_check (a b : Z) : bool :=
  let sum := bcd a + bcd b in
  let r := daa_result (wrap 8 sum) (256 <=? sum) (16 <=? a mod 10 + b mod 10) in
  if (0xfa <=? sum) && (sum <=? 0xff) then (fst r =? sum - 0xfa) && negb (snd r)
  else (fst r =? bcd ((a + b) mod 100)) && eqb (snd r) (100 <=? a + b).

Lemma daa_checked a b : 0 <= a < 100 -> 0 <= b < 100 -> daa_check a b = true.
Proof.
  intros Ha Hb. apply (below_spec 100 (daa_check a)); [|done].
  apply (below_spec 100 (fun a => below 100 (daa_check a))); [by vm_compute|done].
Qed.

(** DAA after the addition of two packed decimal bytes, with CF and AF as the
    addition leaves them: AL is the packed decimal sum modulo 100 and CF tells
    whether it exceeded 99 - except when the binary sum is from 0xfa to 0xff, where
    the first correction wraps AL around and the second one is lost. *)
Theorem daa_decimal a b e :
  wf e -> 0 <= a < 100 -> 0 <= b < 100 ->
  let sum := bcd a + bcd b in
  read W8 (lo EAX) e = wrap 8 sum -> flag CarryFlagBit e = (256 <=? sum) ->
  flag AuxiliaryCarryFlagBit e = (16 <=? a mod 10 + b mod 10) ->
  exists e', decode_daa e = Ok (tt, e') /\
    if (0xfa <=? sum) && (sum <=? 0xff)
    then read W8 (lo EAX) e' = sum - 0xfa /\ flag CarryFlagBit e' = false
    else read W8 (lo EAX) e' = bcd ((a + b) mod 100) /\ flag CarryFlagBit e' = (100 <=? a + b).
Proof.
  intros He Ha Hb sum Hal Hcf Haf. destruct (decode_daa_run e He) as (e' & Hrun & Hr).
  exists e'. split; [done|]. rewrite Hal, Hcf, Haf in Hr.
  pose proof (daa_checked a b Ha Hb) as Hc. unfold daa_check in Hc. fold sum in Hc. cbv zeta in Hc.
  rewrite <- Hr in Hc. cbn [fst snd] in Hc.
  destruct ((0xfa <=? sum) && (sum <=? 0xff)); apply andb_true_iff in Hc as [H1%Z.eqb_eq H2].
  - by apply negb_true_iff in H2.
  - by apply eqb_prop in H2.
Qed.

Lemma daa_decimal_witness : exists e',
  decode_daa (sample 0x7c00 []) = Ok (tt, e') /\ read W8 (lo EAX) e' = 0 /\ flag CarryFlagBit e' = false.
Proof.
  destruct (daa_decimal 0 0 (sample 0x7c00 [])) as (e' & H1 & H2 & H3);
    [apply sample_wf; [lia|constructor]|lia|lia|reflexivity|reflexivity|reflexivity|].
  exists e'. split; [exact H1|]. split; [exact H2|exact H3].
Defined.
