(* ===== verification/Safety.v ===== *)
(** * Where the emulator has defined behaviour

    [defined m Q]: from every state [m] returns, without meeting undefined C
    behaviour and without running out of fuel, a value in [Q].  The judgement is
    closed under the constructs of the code; the database [safe] holds it for the
    operations, and the tactic [safe] follows the structure of a handler. *)

From S2P Require Import Prelude CMonad Machine Alu Ops Operations Opcodes Decode Stable Views.
From S2P Require Import RunFacts BitFacts.
From stdpp Require Import base tactics list numbers functions.
Local Open Scope Z_scope.
Local Open Scope c_scope.

Definition defined {A} (m : E A) (Q : A -> Prop) : Prop :=
  forall e, exists a e', m e = Ok (a, e') /\ Q a.
Definition any {A} (_ : A) : Prop := True.

(** A pointer that every access of at most [w] bits may go through. *)
Definition points (w : width) (l : loc) : Prop :=
  forall w', bits w' <= bits w -> loc_ok w' l = true.

Section rules.
Lemma defined_bind {A B} (m : E A) (k : A -> E B) P Q :
  defined m P -> (forall a, P a -> defined (k a) Q) -> defined (bind m k) Q.
Proof.
  intros Hm Hk e. destruct (Hm e) as (a & e1 & He1 & Ha). destruct (Hk a Ha e1) as (b & e2 & He2 & Hb).
  exists b, e2. by rewrite (bind_ok _ _ _ _ _ He1).
Qed.

Lemma defined_ret {A} (a : A) (Q : A -> Prop) : Q a -> defined (ret a) Q.
Proof. intros Ha e. by exists a, e. Qed.
Lemma defined_gets {A} (f : env -> A) : defined (gets f) any.
Proof. intros e. by exists (f e), e. Qed.
Lemma defined_modify f : defined (modify f) any.
Proof. intros e. by exists tt, (f e). Qed.
Lemma defined_if_ {A} (b : bool) (m1 m2 : E A) Q :
  (b = true -> defined m1 Q) -> (b = false -> defined m2 Q) -> defined (if b then m1 else m2) Q.
Proof. destruct b; auto. Qed.
Lemma defined_when b m : (b = true -> defined m any) -> defined (when b m) any.
Proof. intros Hm. destruct b; [by apply Hm|by apply defined_ret]. Qed.
Lemma defined_repeat n m : defined m any -> defined (repeat_m n m) any.
Proof. intros Hm. induction n; simpl; [by apply defined_ret|by eapply defined_bind; [done|]]. Qed.
Lemma defined_weaken {A} (m : E A) (P Q : A -> Prop) :
  defined m P -> (forall a, P a -> Q a) -> defined m Q.
Proof. intros Hm HQ e. destruct (Hm e) as (a & e' & ? & ?). exists a, e'. auto. Qed.

Lemma points_ok w w' l : points w l -> bits w' <= bits w -> loc_ok w' l = true.
Proof. intros Hl. apply Hl. Qed.
Lemma bits_le_32 w : bits w <= bits W32.
Proof. by destruct w. Qed.
Lemma points_lo w r : points w (lo r).
Proof. by intros []. Qed.
Lemma points_mem w a : points w (LMem a).
Proof. done. Qed.
Lemma points_tmp w v : points w (LTmp v).
Proof. done. Qed.

Lemma defined_load w l : loc_ok w l = true -> defined (load w l) any.
Proof. intros Hl e. eexists _, e. by rewrite load_run. Qed.
Lemma defined_store w l v : loc_ok w l = true -> defined (store w l v) any.
Proof. intros Hl e. eexists _, _. by rewrite store_run. Qed.
End rules.

(** ** Operands *)

Lemma land_7_cases x :
  Z.land x 7 = 0 \/ Z.land x 7 = 1 \/ Z.land x 7 = 2 \/ Z.land x 7 = 3 \/
  Z.land x 7 = 4 \/ Z.land x 7 = 5 \/ Z.land x 7 = 6 \/ Z.land x 7 = 7.
Proof.
  assert (Z.land x 7 = x mod 8) as -> by (by apply (Z.land_ones x 3)).
  pose proof (Z.mod_pos_bound x 8 ltac:(done)). lia.
Qed.

(** The 16- and 32-bit tables name registers from their lowest byte. *)
Definition lut_width (w : width) : width := match w with W8 => W8 | _ => W32 end.
Lemma lut_width_le w : bits w <= bits (lut_width w).
Proof. by destruct w. Qed.

Lemma defined_reg_lut w x : defined (reg_lut w (Z.land x 7)) (points (lut_width w)).
Proof.
  intros e. unfold reg_lut. destruct (land_7_cases x) as [->|[->|[->|[->|[->|[->|[->| ->]]]]]]];
    destruct w; eexists _, e; (split; [reflexivity|]); try apply points_lo; by intros [].
Qed.

Lemma defined_rm_base_16 x : defined (rm_base_16 (Z.land x 7)) any.
Proof. destruct (land_7_cases x) as [->|[->|[->|[->|[->|[->|[->| ->]]]]]]]; intros e; eexists _, e; done. Qed.

Lemma defined_condition i : defined (condition i) any.
Proof.
  assert (0 <= Z.land i 0x0f < 16).
  { rewrite land_0f. apply Z.mod_pos_bound. done. }
  unfold condition. destruct (lookup_lt_is_Some_2 condition_table (Z.to_nat (Z.land i 0x0f))) as [f Hf].
  { simpl. lia. }
  rewrite Hf. intros e. eexists _, e. split; [reflexivity|done].
Qed.

Lemma defined_reg_lut_reg w m : defined (reg_lut w (modrm_reg m)) (points (lut_width w)).
Proof. apply defined_reg_lut. Qed.
Lemma defined_reg_lut_rm w m : defined (reg_lut w (modrm_rm m)) (points (lut_width w)).
Proof. apply defined_reg_lut. Qed.
Lemma defined_rm_base_16_rm m : defined (rm_base_16 (modrm_rm m)) any.
Proof. apply defined_rm_base_16. Qed.

Create HintDb safe discriminated.
#[export] Hint Constants Opaque : safe.
#[export] Hint Resolve defined_gets defined_modify defined_load defined_store defined_reg_lut
  defined_reg_lut_reg defined_reg_lut_rm defined_rm_base_16_rm defined_condition points_lo points_mem points_tmp : safe.
#[export] Hint Extern 1 (loc_ok _ _ = true) => reflexivity : safe.
#[export] Hint Extern 2 (loc_ok _ _ = true) => 
  solve [eapply points_ok; [eassumption|first [reflexivity|discriminate|apply bits_le_32|apply lut_width_le]]] : safe.
#[export] Hint Extern 1 (any _) => exact Logic.I : safe.
(** The second word of a double word. *)
Lemma points_second l : points W32 l -> loc_ok W16 (loc_add l 2) = true.
Proof.
  intros Hl. specialize (Hl W32 ltac:(done)). destruct l as [r off|a|t]; simpl in *; [|done..].
  apply reg_access_ok_spec in Hl. apply reg_access_ok_spec. simpl in *. lia.
Qed.
#[export] Hint Extern 2 (loc_ok W16 (loc_add _ 2) = true) =>
  solve [eapply points_second; eassumption] : safe.

(** Follow the program of a goal [defined m Q]; pointers are bound with what is
    known of them, other values with [any]. *)
Ltac safe_unfold :=
  lazymatch goal with
  | |- defined ?m _ => let h := head_of m in unfold h; cbv beta zeta
  end.
Ltac safe_step :=
  lazymatch goal with
  | |- defined (bind _ _) _ =>
      first [ eapply defined_bind; [solve [eauto 3 with safe nocore]|intros ? ?]
            | eapply (defined_bind _ _ any); [|intros ? _] ]
  | |- defined (ret _) _ => apply defined_ret; solve [eauto 3 with safe nocore]
  | |- defined (if _ then _ else _) _ => apply defined_if_; intros ?
  | |- defined (when _ _) _ => apply defined_when; intros ?
  | |- defined (repeat_m _ _) _ => apply defined_repeat
  | |- defined (match ?x with _ => _ end) _ => destruct x
  | |- forall _, _ => intro
  end.
Ltac safe :=
  repeat first [ solve [eauto 3 with safe nocore] | progress safe_step | progress safe_unfold ].

Lemma defined_fetch w : defined (fetch w) any.
Proof. intros e. eexists _, _. by rewrite fetch_run. Qed.
Lemma defined_skip n : defined (skip n) any.
Proof. intros e. eexists _, _. by rewrite skip_run. Qed.
#[export] Hint Resolve defined_fetch defined_skip : safe.

Lemma defined_RM_MEM modrm w : defined (RM_MEM modrm) (points w).
Proof. safe. Qed.
#[export] Hint Resolve defined_RM_MEM : safe.

Lemma defined_RM_ADDR modrm : defined (RM_ADDR modrm) (points W32).
Proof.
  unfold RM_ADDR. apply defined_if_; intros _; [|auto with safe].
  eapply defined_bind; [unfold operand_size; auto with safe|intros os _].
  by destruct os; apply defined_reg_lut_rm.
Qed.
Lemma defined_RM_ADDR16 modrm : defined (RM_ADDR16 modrm) (points W32).
Proof.
  unfold RM_ADDR16. apply defined_if_; intros _; [apply defined_reg_lut_rm|auto with safe].
Qed.
Lemma defined_RM_ADDR32 modrm : defined (RM_ADDR32 modrm) (points W32).
Proof.
  unfold RM_ADDR32. apply defined_if_; intros _; [apply defined_reg_lut_rm|auto with safe].
Qed.
(** The pointers of the string instructions address memory. *)
Definition is_mem (l : loc) : Prop := match l with LMem _ => True | _ => False end.
Lemma is_mem_mem a : is_mem (LMem a).
Proof. done. Qed.
#[export] Hint Resolve is_mem_mem : safe.
Lemma defined_GET_REG_POINTER s r : defined (GET_REG_POINTER s r) is_mem.
Proof. safe. Qed.
Lemma defined_moffs_addr : defined moffs_addr (points W32).
Proof. safe. Qed.
#[export] Hint Resolve defined_RM_ADDR defined_RM_ADDR16 defined_RM_ADDR32 defined_GET_REG_POINTER
  defined_moffs_addr : safe.

Lemma defined_SET_FLAG b k : defined (SET_FLAG b k) any.
Proof. safe. Qed.
Lemma defined_set_zf_pf x : defined (set_zf_pf x) any.
Proof. safe. Qed.
#[export] Hint Resolve defined_SET_FLAG defined_set_zf_pf : safe.

(** ** Arithmetic *)

Lemma defined_calc w index l v : loc_ok w l = true -> defined (calc w index l v) any.
Proof. intros. destruct index; unfold calc; safe. Qed.
#[export] Hint Resolve defined_calc : safe.

Lemma shift_ok_narrow w c : w <> W32 -> shift_ok w c = true.
Proof. by destruct w. Qed.

(** Every rotate and shift is defined for 8- and 16-bit operands. *)
Lemma defined_rotate_shift w sel l c :
  w <> W32 -> loc_ok w l = true -> defined (rotate_shift w sel l c) any.
Proof.
  intros Hw Hl. unfold rotate_shift.
  repeat match goal with |- context[match ?x with _ => _ end] => is_var x; destruct x end;
    unfold rcl_op, rcr_op; rewrite ?shift_ok_narrow by done; safe.
Qed.

Lemma defined_rotate_shift_8 sel l c : loc_ok W8 l = true -> defined (rotate_shift W8 sel l c) any.
Proof. by apply defined_rotate_shift. Qed.

Definition points_fst (p : loc * Z) : Prop := points W32 (fst p).
Lemma defined_rm_and_count h modrm : defined (rm_and_count h modrm) points_fst.
Proof. safe. Qed.
Lemma points_fst_ok w p : points_fst p -> loc_ok w (fst p) = true.
Proof. intros Hp. apply Hp, bits_le_32. Qed.
#[export] Hint Resolve defined_rotate_shift_8 defined_rm_and_count points_fst_ok : safe.

(** ** String loops *)

(** A pointer that may be stepped by [d]: into memory, or to a register with no step. *)
Definition steps (l : loc) (d : Z) : Prop :=
  match l with LMem _ => True | LReg _ off => off = 0 /\ d = 0 | LTmp _ => False end.

Lemma steps_ok w l d : steps l d -> loc_ok w l = true.
Proof. destruct l; simpl; [|done..]. intros [-> _]. by destruct w. Qed.
Lemma steps_add l d : steps l d -> steps (loc_add l d) d.
Proof. destruct l; simpl; [|done..]. by intros [-> ->]. Qed.
#[export] Hint Resolve steps_ok steps_add : safe.

Lemma defined_movs_loop w n : forall dst dd src ds,
  steps dst dd -> steps src ds -> defined (movs_loop w n dst dd src ds) any.
Proof.
  induction n as [|n IH]; intros; simpl; [by apply defined_ret|].
  do 2 safe_step. by apply IH; apply steps_add.
Qed.
Lemma defined_cmps_loop w n : forall dst dd src ds,
  steps dst dd -> steps src ds -> defined (cmps_loop w n dst dd src ds) any.
Proof.
  induction n as [|n IH]; intros dst dd src ds Hd Hs; simpl; [by apply defined_ret|].
  pose proof (steps_ok (cmps_dst_width w) _ _ Hd) as Hd'. pose proof (steps_ok w _ _ Hs).
  eapply (defined_bind _ _ any); [auto with safe|intros v _].
  eapply (defined_bind _ _ any); [by apply (defined_calc (cmps_dst_width w) CALC_CMP)|intros _ _].
  eapply (defined_bind _ _ any); [safe|intros zf _].
  eapply (defined_bind _ _ any); [safe|intros re _].
  apply defined_if_; intros _; [|by apply defined_ret]. by apply IH; apply steps_add.
Qed.
Lemma defined_ins_loop h w n : forall port a, defined (ins_loop h w n port (LMem a)) any.
Proof.
  induction n as [|n IH]; intros; simpl; [by apply defined_ret|].
  eapply (defined_bind _ _ any); [safe|intros v _].
  eapply (defined_bind _ _ any); [auto with safe|intros _ _]. apply IH.
Qed.
Lemma defined_outs_loop w n : forall port a, defined (outs_loop w n port (LMem a)) any.
Proof.
  induction n as [|n IH]; intros; simpl; [by apply defined_ret|].
  eapply (defined_bind _ _ any); [auto with safe|intros v _].
  eapply (defined_bind _ _ any); [safe|intros _ _]. apply IH.
Qed.

(** The string instructions: the two directions and the two operand sizes. *)
Definition string_safe (f : loc -> Z -> loc -> Z -> Z -> E unit) (dst : loc) (dd : Z) (src : loc) (ds : Z) : Prop :=
  forall k s n, k = 0 \/ k = 1 \/ k = 2 -> s = 1 \/ s = -1 ->
    defined (f dst (Z.shiftl (s * dd) k) src (s * ds) n) any.

Lemma defined_string_8 f dst dd src ds :
  string_safe f dst dd src ds -> defined (decode_string_instructions_8 dst dd src ds f) any.
Proof.
  intros Hf. unfold decode_string_instructions_8.
  eapply (defined_bind _ _ any); [safe|intros df _]. eapply (defined_bind _ _ any); [safe|intros n _].
  destruct df.
  - specialize (Hf 0 (-1) n ltac:(auto) ltac:(auto)). rewrite Z.shiftl_0_r in Hf.
    by replace (-1 * dd) with (- dd) in Hf by lia; replace (-1 * ds) with (- ds) in Hf by lia.
  - specialize (Hf 0 1 n ltac:(auto) ltac:(auto)). by rewrite Z.shiftl_0_r, !Z.mul_1_l in Hf.
Qed.

Lemma defined_string_16 f16 f32 dst dd src ds :
  string_safe f16 dst dd src ds -> string_safe f32 dst dd src ds ->
  defined (decode_string_instructions_16 dst dd src ds f16 f32) any.
Proof.
  intros H16 H32. unfold decode_string_instructions_16.
  eapply (defined_bind _ _ any); [safe|intros df _]. eapply (defined_bind _ _ any); [safe|intros os _].
  eapply (defined_bind _ _ any); [safe|intros n _].
  assert (exists s, (s = 1 \/ s = -1) /\ (if df then - dd else dd) = s * dd /\
    (if df then - ds else ds) = s * ds) as (s & Hs & -> & ->).
  { destruct df; [exists (-1)|exists 1]; split_and!; auto; lia. }
  destruct os; [apply H32; auto|apply H16; auto].
Qed.

(** What the decoder passes: a memory operand, or a register that is not stepped. *)
Definition steppable (l : loc) (d : Z) : Prop := is_mem l \/ (exists r, l = lo r) /\ d = 0.
Lemma steppable_mem l d : is_mem l -> steppable l d.
Proof. by left. Qed.
Lemma steppable_lo r : steppable (lo r) 0.
Proof. right. eauto. Qed.
Lemma steppable_reg r : steppable (GET_REG_ADDR r) 0.
Proof. apply steppable_lo. Qed.

Lemma steppable_steps l d s k : steppable l d -> steps l (s * d) /\ steps l (Z.shiftl (s * d) k).
Proof.
  intros [Hl|[[r ->] ->]]; [by destruct l|]. by rewrite Z.mul_0_r, Z.shiftl_0_l.
Qed.

Lemma string_movs w dst dd src ds :
  steppable dst dd -> steppable src ds -> string_safe (movs_op w) dst dd src ds.
Proof. intros Hd Hs k s n _ _. apply defined_movs_loop; by apply steppable_steps. Qed.
Lemma string_cmps w dst dd src ds :
  steppable dst dd -> steppable src ds -> string_safe (cmps_op w) dst dd src ds.
Proof.
  intros Hd Hs k s n _ _. unfold cmps_op. eapply (defined_bind _ _ any); [|intros i _; safe].
  apply defined_if_; intros _; [apply defined_cmps_loop; by apply steppable_steps|by apply defined_ret].
Qed.
Lemma string_ins h w dst dd src ds : is_mem dst -> string_safe (ins_op h w) dst dd src ds.
Proof.
  destruct dst as [|a|]; try done. intros _ k s n _ _. unfold ins_op.
  do 2 (eapply (defined_bind _ _ any); [safe|intros ? _]). apply defined_ins_loop.
Qed.
Lemma string_outs w dst dd src ds : is_mem src -> string_safe (outs_op w) dst dd src ds.
Proof.
  destruct src as [|a|]; try done. intros _ k s n _ _. unfold outs_op.
  do 2 (eapply (defined_bind _ _ any); [safe|intros ? _]). apply defined_outs_loop.
Qed.
#[export] Hint Resolve defined_string_8 defined_string_16 string_movs string_cmps string_ins string_outs
  steppable_mem steppable_lo steppable_reg : safe.

(** ** Handlers *)

Lemma defined_void m : defined m any -> defined (void m) any.
Proof. intros. unfold void. safe. Qed.
Lemma defined_ignore {A} (m : E A) : defined m any -> defined (ignore m) any.
Proof. intros. unfold ignore. eapply (defined_bind _ _ any); [done|intros; safe]. Qed.

(** A switch is defined when the case it selects is. *)
Definition case_safe (c : bool * E BiosEmuExceptions) : Prop := fst c = true -> defined (snd c) any.
Lemma defined_switch l d : Forall case_safe l -> defined d any -> defined (switch l d) any.
Proof. intros Hl Hd. induction Hl as [|[[] m] l Hc Hl IH]; simpl; [done|by apply Hc|done]. Qed.

(** The cases of a switch one by one: an excluded opcode contradicts its test. *)
Ltac safe_cases :=
  repeat (apply Forall_cons; [intros Hc; cbn [fst snd] in *|]); try apply Forall_nil;
  try (exfalso; lazymatch goal with
    | Hop : ?x ∉ _, Hc : (?x =? _) = true |- _ =>
        apply Z.eqb_eq in Hc; rewrite Hc in Hop; apply Hop; by_decide end);
  repeat first [ solve [eauto 9 with safe nocore] | progress safe_step | progress safe_unfold ].

(** The opcodes with an operand for which the code is undefined: two-byte opcodes,
    BOUND, MOV with a segment register, the 16- and 32-bit shift groups, AAM and
    the division groups. *)
Definition partial_opcodes : list Z :=
  map one_byte_code
    [OP_TWO_BYTES; OP_BOUND; OP_MOV_rm_sreg; OP_MOV_sreg_rm; OP_SAL_SAR_SHL_SHR_imm8;
     OP_SAL_SAR_SHL_SHR_1; OP_SAL_SAR_SHL_SHR_cl; OP_AAM; OP_DIV8; OP_IDIV].

Lemma safe_cases_A_I h op : op ∉ partial_opcodes -> Forall case_safe (one_byte_cases_A_I h op).
Proof. intros Hop. unfold one_byte_cases_A_I. safe_cases. Qed.
Lemma safe_cases_J_M op : op ∉ partial_opcodes -> Forall case_safe (one_byte_cases_J_M op).
Proof. intros Hop. unfold one_byte_cases_J_M. safe_cases. Qed.
Lemma safe_cases_N_R op : op ∉ partial_opcodes -> Forall case_safe (one_byte_cases_N_R op).
Proof. intros Hop. unfold one_byte_cases_N_R. safe_cases. Qed.
Lemma safe_cases_S_X h op : op ∉ partial_opcodes -> Forall case_safe (one_byte_cases_S_X h op).
Proof. intros Hop. unfold one_byte_cases_S_X. safe_cases. Qed.
Lemma safe_cases_alu op : op ∉ partial_opcodes -> Forall case_safe (one_byte_alu_cases op).
Proof. intros Hop. unfold one_byte_alu_cases, alu_cases. cbn [app]. safe_cases. Qed.
Lemma safe_cases_group h op : op ∉ partial_opcodes -> Forall case_safe (one_byte_group_cases h op).
Proof. intros Hop. unfold one_byte_group_cases. safe_cases. Qed.

Lemma defined_one_byte h op :
  op ∉ partial_opcodes -> defined (switch (one_byte_cases h op) (unread ;; ret InvalidOpcode)) any.
Proof.
  intros Hop. apply defined_switch; [|safe]. unfold one_byte_cases. rewrite !Forall_app.
  auto 10 using safe_cases_A_I, safe_cases_J_M, safe_cases_N_R, safe_cases_S_X, safe_cases_alu,
    safe_cases_group.
Qed.

(** Two-byte opcodes: all but BSWAP. *)
Lemma safe_two_bytes op : op ∉ [OP_BSWAP : Z] -> Forall case_safe (two_bytes_cases op).
Proof. intros Hop. unfold two_bytes_cases. safe_cases. Qed.

Lemma defined_two_bytes e :
  mem e (cur_ip e) <> OP_BSWAP -> exists r e', decode_two_bytes_opcode e = Ok (r, e').
Proof.
  intros Hop. assert (mem e (cur_ip e) ∉ [OP_BSWAP : Z]) as Hn
    by (apply not_elem_of_cons; split; [done|apply not_elem_of_nil]).
  unfold decode_two_bytes_opcode. rewrite (bind_ok _ _ _ _ _ (fetch_run W8 e)), read8_mem.
  destruct (defined_switch (two_bytes_cases (mem e (cur_ip e))) (ret InvalidOpcode)
    (safe_two_bytes _ Hn) ltac:(by apply defined_ret) (move_ip (Z.of_nat (bytes W8)) e))
    as (r & e' & He' & _). by exists r, e'.
Qed.

(** C3. Every instruction outside a list of ten opcodes has defined behaviour in
    every well-formed state, whatever its operands and prefixes: it reaches a
    well-formed state with a status code, without touching an object outside its
    bounds, shifting too far or dividing by zero.  Of the two-byte instructions
    this holds for all but BSWAP. *)
Theorem instruction_defined h ps op fuel e :
  wf e -> code_at (ps ++ [op]) e -> Forall (fun p => p ∈ prefix_bytes) ps ->
  op ∉ prefix_bytes -> (length ps < fuel)%nat ->
  (op ∉ partial_opcodes \/
   op = OP_TWO_BYTES /\ mem e (u64 (cur_ip e + Z.of_nat (length ps) + 1)) <> OP_BSWAP) ->
  exists r e', emu_run_instruction h fuel e = Ok (r, e') /\ wf e'.
Proof.
  intros He Hc Hp Hb Hf Hop.
  assert (exists r e', emu_run_instruction h fuel e = Ok (r, e')) as (r & e' & Hr).
  2: { exists r, e'. split; [done|]. by eapply (keeps_run_instruction wf h fuel). }
  rewrite (run_instruction_select h ps op) by done.
  set (e1 := move_ip _ _). destruct Hop as [Hop|[-> Hop]].
  - destruct (defined_one_byte h op Hop e1) as (r & e' & Hr & _). by exists r, e'.
  - apply defined_two_bytes. unfold e1. rewrite cur_ip_move, mem_move.
    destruct (apply_prefixes_frame ps (reset e)) as [-> ->]. by rewrite Z.add_assoc.
Qed.

Lemma instruction_defined_witness : exists r e',
  emu_run_instruction sample_host 3 (sample 0x7c00 [0x66; 0x0f; 0xb6; 0xc0]) = Ok (r, e') /\ wf e'.
Proof.
  apply (instruction_defined sample_host [0x66] 0x0f 3 (sample 0x7c00 [0x66; 0x0f; 0xb6; 0xc0])).
  - apply sample_wf; [lia|repeat constructor; lia].
  - split; [vm_compute; reflexivity|]. intros i b Hi.
    do 2 (destruct i as [|i]; [injection Hi as <-; reflexivity|]). discriminate Hi.
  - by_decide.
  - by_decide.
  - simpl. lia.
  - right. split; [reflexivity|]. vm_compute. discriminate.
Defined.

(** The list of ten opcodes is exact: each of them, and BSWAP, reaches undefined
    behaviour on some input.  In order: BSWAP with a further byte outside the
    register table, BOUND with a 32-bit register operand, MOV from and to segment
    register 6, a 32-bit RCL by 1 in its three forms, AAM with base 0, an 8-bit DIV
    with AL zero, and a 32-bit DIV whose quotient search shifts by 32. *)
Theorem undefined_reached :
  Forall (fun l => emu_run sample_host 4 4 (sample 0x7c00 l) = Undef)
    [[0x0f; 0xc8; 0xff]; [0x66; 0x62; 0xc0]; [0x8c; 0xf0]; [0x8e; 0xf0];
     [0x66; 0xc1; 0xd0; 1]; [0x66; 0xd1; 0xd0]; [0xb1; 1; 0x66; 0xd3; 0xd0]; [0xd4; 0];
     [0xf6; 0x36; 0; 0]; [0x66; 0xb8; 0xff; 0xff; 0xff; 0xff; 0x66; 0xf7; 0x36; 0; 0]].
Proof. repeat constructor; vm_compute; reflexivity. Qed.
