(* ===== verification/FatName.v ===== *)
(** * File names of the FAT file system (src/fs/fat/name.c)

    The checks on a name, the 8.3 short names and their checksum, the pieces of
    a long name kept in directory entries, and the conversions between UTF-8
    and UTF-16; with the part of the directory iterator of src/fs/fat/dir.c
    that collects a long name.

    [kmalloc] is taken to succeed: the code never tests its result here. *)

From stdpp Require Import base list.
From S2P Require Import Prelude CMonad CArray.
Local Open Scope Z_scope.

(** ** Data *)

Inductive FatType : Set := FAT_TYPE_FAT12 | FAT_TYPE_FAT16 | FAT_TYPE_FAT32 | FAT_TYPE_EXFAT.

Inductive NameType : Set := SHORT_NAME | LONG_NAME | INVALID_NAME_TYPE.

Inductive FsResult : Set :=
| FS_OK | FS_ERROR_UNSUPPORT | FS_ERROR_INVALID_PATH_OR_NAME | FS_ERROR_OUT_OF_MEMORY
| FS_ERROR_NO_SPARE_SPACE | FS_ERROR_CANNOT_FIND | FS_ERROR_ALREADY_EXISTS
| FS_ERROR_NOT_EMPTY | FS_ERROR_END_OF_FILE | FS_ERROR_ILLEGAL_DATA
| FS_ERROR_INVALID_PARAMS | FS_ERROR_NOT_MATCH | FS_ERROR_TRANSFER | FS_ERROR_OTHER.

(** [text] is what the pointer refers to; [str_length] is [None] when the code
    returns the structure without having set the field. *)
Record string_t : Type := String_t {
  str_length : option Z;
  max_length : Z;
  text : buffer
}.

Record ShortName : Type := Short_name { base : list Z; ext : list Z }.

Record ShortDir : Type := Short_dir {
  name : ShortName;
  attr : Z;
  nt_res : Z;
  crt_time_tenth : Z;
  crt_time : Z;
  crt_date : Z;
  last_access_date : Z;
  first_cluster_high : Z;
  write_time : Z;
  write_date : Z;
  first_cluster_low : Z;
  file_size : Z
}.

Record LongDir : Type := Long_dir {
  order : Z;
  name1 : list Z;
  long_attr : Z;
  type : Z;
  checksum : Z;
  name2 : list Z;
  first_cluster : Z;
  name3 : list Z
}.

Definition FAT32_BASE_L : Z := 0x08.
Definition FAT32_EXT_L : Z := 0x10.

(** ** Checks on a name *)

Definition is_lower (c : Z) : bool := (0x61 <=? c) && (c <=? 0x7a).
Definition is_upper (c : Z) : bool := (0x41 <=? c) && (c <=? 0x5a).

(** [n] iterations are left. *)
Fixpoint caps_loop {S} (text : list Z) (n : nat) (i caps flag : Z) : M S Z :=
  match n with
  | O => ret caps
  | Datatypes.S n =>
    c ← elem text i ;
    if c =? 0x2e then caps_loop text n (i + 1) caps 2 else
    caps_loop text n (i + 1)
      (if is_lower c then Z.lor caps (Z.shiftl 1 flag)
       else if is_upper c then Z.lor caps (Z.shiftl 2 flag) else caps) flag
  end.

Definition check_name_caps {S} (text : list Z) (len : Z) : M S Z :=
  caps_loop text (Z.to_nat len) 0 0 0.

Definition is_available_short_name_char (c : Z) : bool :=
  if 0x80 <=? c then false else
  if (0x5e <=? c) && (c <=? 0x7b) then true else
  if (0x40 <=? c) && (c <=? 0x5a) then true else
  if (0x30 <=? c) && (c <=? 0x39) then true else
  if (0x20 <=? c) && (c <=? 0x29) && negb (c =? 0x22) then true else
  if (c =? 0x2d) || (c =? 0x7d) || (c =? 0x7e) then true else false.

Definition is_available_long_name_char (c : Z) : bool :=
  if (0x40 <=? c) && (c <=? 0x5d) then true else
  if (0x5e <=? c) && (c <=? 0x7b) then true else
  if (0x30 <=? c) && (c <=? 0x39) then true else
  if (0x2b <=? c) && (c <=? 0x2e) then true else
  if (0x20 <=? c) && (c <=? 0x29) && negb (c =? 0x22) then true else
  if (c =? 0x3b) || (c =? 0x7d) || (c =? 0x7e) then true else false.

Fixpoint short_chars_loop {S} (text : list Z) (n : nat) (i dot : Z) : M S bool :=
  match n with
  | O => ret true
  | Datatypes.S n =>
    if i =? dot then short_chars_loop text n (i + 1) dot else
    c ← elem text i ;
    if negb (is_available_short_name_char c) then ret false
    else short_chars_loop text n (i + 1) dot
  end.

Definition check_short_name {S} (text : list Z) (len dot : Z) : M S bool :=
  if (8 <? dot) || (dot <? len - 3) then ret false else
  caps ← check_name_caps text len ;
  if truth (Z.land caps 0x03) || (Z.land caps 0x0c =? 0x0c) then ret false else
  short_chars_loop text (Z.to_nat len) 0 dot.

(** [text[i]] is read again after every change of [i].  [i] grows at every
    iteration, so [len] of them are enough. *)
Fixpoint long_chars_loop {S} (fuel : nat) (text : list Z) (i len : Z) : M S bool :=
  if i <? len then
    match fuel with
    | O => no_fuel
    | Datatypes.S fuel =>
      c ← elem text i ;
      if c =? 0 then ret true else
      if 0x80 <=? c then
        c0 ← elem text i ;
        let i := if Z.land c0 0xe0 =? 0xc0 then i + 1 else i in
        c1 ← elem text i ;
        let i := if Z.land c1 0xf0 =? 0xe0 then i + 2 else i in
        c2 ← elem text i ;
        let i := if Z.land c2 0xf8 =? 0xf0 then i + 3 else i in
        long_chars_loop fuel text (i + 1) len
      else if negb (is_available_long_name_char c) then ret false
      else long_chars_loop fuel text (i + 1) len
    end
  else ret true.

Definition check_long_name {S} (text : list Z) (len : Z) : M S bool :=
  long_chars_loop (Z.to_nat len) text 0 len.

(** [while (text[dot] != '.' && dot < len) dot++]. *)
Fixpoint find_dot {S} (fuel : nat) (text : list Z) (dot len : Z) : M S Z :=
  c ← elem text dot ;
  if negb (c =? 0x2e) && (dot <? len) then
    match fuel with
    | O => no_fuel
    | Datatypes.S fuel => find_dot fuel text (dot + 1) len
    end
  else ret dot.

Definition check_name {S} (type : FatType) (text : list Z) (len : Z) : M S NameType :=
  dot ← find_dot (Z.to_nat len) text 0 len ;
  short ← check_short_name text len dot ;
  if negb short then
    match type with
    | FAT_TYPE_FAT32 =>
      long ← check_long_name text len ;
      ret (if long : bool then LONG_NAME else INVALID_NAME_TYPE)
    | _ => ret INVALID_NAME_TYPE
    end
  else ret SHORT_NAME.

(** ** Short names *)

(** [while (text[dot] != '.' && dot >= 0) dot--]: [text[-1]] is read when no
    dot is found. *)
Fixpoint find_last_dot {S} (fuel : nat) (text : list Z) (dot : Z) : M S Z :=
  c ← elem text dot ;
  if negb (c =? 0x2e) && (0 <=? dot) then
    match fuel with
    | O => no_fuel
    | Datatypes.S fuel => find_last_dot fuel text (dot - 1)
    end
  else ret dot.

Definition to_upper (c : Z) : Z := if is_lower c then c - 32 else c.

(** The elements [f i], ..., [f (i + n - 1)], in this order. *)
Fixpoint fill {S} (n : nat) (i : Z) (f : Z -> M S Z) : M S (list Z) :=
  match n with
  | O => ret []
  | Datatypes.S n => c ← f i ; cs ← fill n (i + 1) f ; ret (c :: cs)
  end.

Definition short_name_new {S} (text : list Z) (len : Z) (short_name : ShortName)
    : M S (FsResult * ShortName) :=
  dot ← find_last_dot (Z.to_nat len) text (len - 1) ;
  ok ← check_short_name text len dot ;
  if negb ok then ret (FS_ERROR_INVALID_PATH_OR_NAME, short_name) else
  base ← fill 8 0 (fun i => if i <? dot then c ← elem text i ; ret (to_upper c) else ret 0x20) ;
  ext ← fill 3 0 (fun i =>
    if i <? len - dot then c ← elem text (dot + 1 + i) ; ret (to_upper c) else ret 0x20) ;
  ret (FS_OK, Short_name base ext).

(** One step of the loop: the sum is an [uint8_t]. *)
Definition checksum_step (sum c : Z) : Z :=
  u8 ((if truth (Z.land sum 1) then 0x80 else 0) + Z.shiftr sum 1 + c).

Definition fat_checksum (short_name : ShortName) : Z :=
  fold_left checksum_step (base short_name ++ ext short_name) 0.

(** The characters of an array of a short name that are not blank, appended
    from cell [j] on, in lower case when [lower] is set. *)
Fixpoint copy_short (lower : bool) (cs : list Z) (j : nat) : M buffer nat :=
  match cs with
  | [] => ret j
  | c :: cs =>
    if c =? 0x20 then copy_short lower cs j else
    poke j (if is_upper c then (if lower then c + 32 else c) else c) ;;
    copy_short lower cs (j + 1)
  end.

Definition read_short_name {S} (short_dir : ShortDir) : M S string_t :=
  '(length, block) ← with_block 13 (
    j ← copy_short (truth (Z.land (nt_res short_dir) FAT32_BASE_L)) (base (name short_dir)) 0 ;
    if forallb (Z.eqb 0x20) (ext (name short_dir)) then ret (Some (Z.of_nat j)) else
    poke j 0x2e ;;
    j ← copy_short (truth (Z.land (nt_res short_dir) FAT32_EXT_L)) (ext (name short_dir)) (j + 1) ;
    ret None) ;
  ret (String_t length 13 block).

(** ** Long names *)

(** One of the three loops: the units of [cs] up to [0xffff] or [0] are stored
    from [utf16_name + pos] on. *)
Fixpoint read_units (cs : list Z) (utf16_name pos : nat) : M buffer nat :=
  match cs with
  | [] => ret pos
  | c :: cs =>
    if (c =? 0xffff) || (c =? 0) then ret pos else
    poke (utf16_name + pos) c ;; read_units cs utf16_name (pos + 1)
  end.

Definition read_long_name (long_dir : LongDir) (utf16_name : nat) : M buffer nat :=
  pos ← read_units (name1 long_dir) utf16_name 0 ;
  pos ← read_units (name2 long_dir) utf16_name pos ;
  read_units (name3 long_dir) utf16_name pos.

(** ** Character encodings

    A pointer into an array that is read is the list of the elements from there
    on. *)

Definition hd {S} (p : list Z) : M S Z := of_option (head p).

Definition fat_utf16_to_unicode {S} (utf16 : list Z) : M S (Z * list Z) :=
  b0 ← hd utf16 ;
  if Z.land b0 0xfc00 =? 0xdc00 then
    b1 ← hd (tail utf16) ;
    if Z.land b1 0xfc00 =? 0xd800 then
      ret (Z.lor (Z.shiftl (Z.land b1 0x03ff) 16) (Z.land b0 0x03ff), drop 2 utf16)
    else ret (b0, drop 1 utf16)
  else ret (b0, drop 1 utf16).

Definition fat_utf8_to_unicode {S} (utf8 : list Z) : M S (Z * list Z) :=
  b0 ← elem utf8 0 ;
  if b0 <? 0x80 then ret (b0, drop 1 utf8) else
  if b0 <? 0xe0 then
    b1 ← elem utf8 1 ;
    ret (Z.lor (Z.shiftl (Z.land b0 0x1f) 6) (Z.land b1 0x3f), drop 2 utf8)
  else if b0 <? 0xf0 then
    b1 ← elem utf8 1 ; b2 ← elem utf8 2 ;
    ret (Z.lor (Z.lor (Z.shiftl (Z.land b0 0x0f) 12) (Z.shiftl (Z.land b1 0x3f) 6))
           (Z.land b2 0x3f), drop 3 utf8)
  else
    b1 ← elem utf8 1 ; b2 ← elem utf8 2 ; b3 ← elem utf8 3 ;
    ret (Z.lor (Z.lor (Z.lor (Z.shiftl (Z.land b0 0x07) 18) (Z.shiftl (Z.land b1 0x3f) 12))
           (Z.shiftl (Z.land b2 0x3f) 6)) (Z.land b3 0x3f), drop 4 utf8).

(** Returns the advanced pointer. *)
Definition fat_unicode_to_utf16 (unicode : Z) (utf16 : nat) : M buffer nat :=
  if unicode <? 0x10000 then poke utf16 (u16 unicode) ;; ret (utf16 + 1)%nat
  else
    poke utf16 (u16 (Z.lor 0xd800 (Z.land (Z.shiftr unicode 10) 0x03ff))) ;;
    poke (utf16 + 1) (u16 (Z.lor 0xdc00 (Z.land unicode 0x03ff))) ;;
    ret (utf16 + 2)%nat.

Definition utf8_size (unicode : Z) : Z :=
  if unicode <? 0x80 then 1 else
  if unicode <? 0x800 then 2 else
  if unicode <? 0x10000 then 3 else 4.

(** [i] runs to [utf16_length]; [n] iterations are left.  The length is an [int]. *)
Fixpoint count_loop {S} (n : nat) (p : list Z) (utf8_length : Z) : M S Z :=
  match n with
  | O => ret utf8_length
  | Datatypes.S n =>
    '(unicode, p) ← fat_utf16_to_unicode p ;
    defined_if (utf8_length + utf8_size unicode <? 2 ^ 31) ;;
    count_loop n p (utf8_length + utf8_size unicode)
  end.

Definition fat_utf16_count_utf8_length {S} (utf16 : list Z) (utf16_length : nat) : M S Z :=
  count_loop utf16_length utf16 0.

(** The bytes stored for one character. *)
Definition unicode_to_utf8 (unicode : Z) : list Z :=
  map u8 (
    if unicode <? 0x80 then [unicode] else
    if unicode <? 0x800 then
      [Z.lor 0xc0 (Z.shiftr unicode 6); Z.lor 0x80 (Z.land unicode 0x3f)]
    else if unicode <? 0x10000 then
      [Z.lor 0xe0 (Z.shiftr unicode 12); Z.lor 0x80 (Z.land (Z.shiftr unicode 6) 0x3f);
       Z.lor 0x80 (Z.land unicode 0x3f)]
    else
      [Z.lor 0xf0 (Z.shiftr unicode 18); Z.lor 0x80 (Z.land (Z.shiftr unicode 12) 0x3f);
       Z.lor 0x80 (Z.land (Z.shiftr unicode 6) 0x3f); Z.lor 0x80 (Z.land unicode 0x3f)]).

Fixpoint utf8_loop (n : nat) (p : list Z) (q : nat) : M buffer nat :=
  match n with
  | O => ret q
  | Datatypes.S n =>
    '(unicode, p) ← fat_utf16_to_unicode p ;
    q ← poke_all q (unicode_to_utf8 unicode) ;
    utf8_loop n p q
  end.

Definition fat_utf16_to_utf8 {S} (utf16 : list Z) (utf16_length : nat) : M S string_t :=
  utf8_length ← fat_utf16_count_utf8_length utf16 utf16_length ;
  defined_if (utf8_length + 1 <? 2 ^ 31) ;;
  '(_, block) ← with_block (Z.to_nat (utf8_length + 1)) (utf8_loop utf16_length utf16 0) ;
  ret (String_t (Some utf8_length) (utf8_length + 1) block).

(** [while ( *p != 0 || p[1] != 0)].  Every iteration moves [p] forward, so as
    many as there are bytes are enough. *)
Fixpoint utf16_loop (fuel : nat) (p : list Z) (q : nat) : M buffer (list Z * nat) :=
  b0 ← elem p 0 ;
  go_on ← (if negb (b0 =? 0) then ret true else b1 ← elem p 1 ; ret (negb (b1 =? 0))) ;
  if go_on : bool then
    match fuel with
    | O => no_fuel
    | Datatypes.S fuel =>
      '(unicode, p) ← fat_utf8_to_unicode p ;
      q ← fat_unicode_to_utf16 unicode q ;
      utf16_loop fuel p q
    end
  else ret (p, q).

(** The lengths of what was read and of what was written, each converted to an [int]. *)
Definition fat_utf8_to_utf16 (utf8 : list Z) : M buffer (Z * Z) :=
  '(p, q) ← utf16_loop (length utf8) utf8 0 ;
  ret (sext 32 (Z.of_nat (length utf8) - Z.of_nat (length p)), sext 32 (Z.of_nat q)).

(** ** Collecting a long name (src/fs/fat/dir.c)

    The fields of the iterator that these functions use. *)

Definition MAX_LONGNAME : nat := 256.

Record FatDirIterator : Type := Fat_dir_iterator {
  longname_buf : buffer;
  longname_len : Z;
  iter_checksum : Z;
  longname_valid : bool;
  longname_cluster : Z;
  longname_entry_index : Z
}.

(** What [fat_dir_iterator_init] leaves when [current_cluster] is the first
    cluster of the directory. *)
Definition fat_dir_iterator_init (current_cluster : Z) : FatDirIterator :=
  Fat_dir_iterator (replicate MAX_LONGNAME None) 0 0 false current_cluster 0.

Definition fat_dir_iterator_next (iter : FatDirIterator) : FatDirIterator :=
  Fat_dir_iterator (longname_buf iter) 0 (iter_checksum iter) false
    (longname_cluster iter) (longname_entry_index iter).

Definition process_long_entry (current_cluster current_entry_index : Z) (entry : LongDir)
    : M FatDirIterator unit := fun iter =>
  let order' := Z.land (order entry) 0x3f in
  if order' =? 0 then Ok (tt, iter) else
  let iter :=
    if truth (Z.land (order entry) 0x40) then
      Fat_dir_iterator (longname_buf iter) 0 (checksum entry) true
        current_cluster current_entry_index
    else iter in
  match read_long_name entry (Z.to_nat ((order' - 1) * 13)) (longname_buf iter) with
  | Ok (n, buf) =>
    Ok (tt, Fat_dir_iterator buf (longname_len iter + Z.of_nat n) (iter_checksum iter)
              (longname_valid iter) (longname_cluster iter) (longname_entry_index iter))
  | Undef => Undef
  | NoFuel => NoFuel
  end.

Definition process_short_entry (short_dir : ShortDir) : M FatDirIterator FsResult := fun iter =>
  let len :=
    if (0 <? longname_len iter) && negb (fat_checksum (name short_dir) =? iter_checksum iter)
    then 0 else longname_len iter in
  Ok (FS_OK, Fat_dir_iterator (longname_buf iter) len (iter_checksum iter)
               (longname_valid iter) (longname_cluster iter) (longname_entry_index iter)).
