(* ===== verification/FatNameFacts.v ===== *)
(** * File names of the FAT file system: theorems

    Names survive the conversion from the UTF-16 of the directory entries to
    UTF-8 and back; the pieces of a long name are put together in the right
    order; the checksum tells any two short names that differ in one byte
    apart; which names the 8.3 check lets through. *)

From Stdlib Require Import Btauto.
From stdpp Require Import base tactics list numbers.
From S2P Require Import Prelude CMonad CArray FatName.
Local Open Scope Z_scope.

(** ** UTF-8 *)

Lemma lor_low k a b c : 0 <= k -> a = c * 2 ^ k -> 0 <= b < 2 ^ k -> Z.lor a b = a + b.
Proof. intros ? -> ?. rewrite <- Z.shiftl_mul_pow2 by done. rewrite lor_shiftl_add by done.
  by rewrite Z.shiftl_mul_pow2. Qed.

Lemma land_low k x m : m = Z.ones k -> 0 <= k -> Z.land x m = x mod 2 ^ k.
Proof. intros ->. apply Z.land_ones. Qed.

Lemma u8_small x : 0 <= x < 256 -> u8 x = x.
Proof. by apply (wrap_small 8). Qed.

Lemma join2 a b : 0 <= b < 64 -> Z.lor (Z.shiftl a 6) b = a * 64 + b.
Proof. intros. by apply (lor_shiftl_add 6). Qed.
Lemma join3 a b c :
  0 <= b < 64 -> 0 <= c < 64 ->
  Z.lor (Z.lor (Z.shiftl a 12) (Z.shiftl b 6)) c = (a * 64 + b) * 64 + c.
Proof.
  intros. change 12 with (6 + 6). rewrite <- Z.shiftl_shiftl, <- Z.shiftl_lor by lia.
  by rewrite (join2 a b), join2.
Qed.
Lemma join4 a b c d :
  0 <= b < 64 -> 0 <= c < 64 -> 0 <= d < 64 ->
  Z.lor (Z.lor (Z.lor (Z.shiftl a 18) (Z.shiftl b 12)) (Z.shiftl c 6)) d =
    ((a * 64 + b) * 64 + c) * 64 + d.
Proof.
  intros. change 18 with (12 + 6). change (Z.shiftl b 12) with (Z.shiftl b (6 + 6)).
  rewrite <- !Z.shiftl_shiftl, <- !Z.shiftl_lor by lia.
  by rewrite join3, join2.
Qed.

(** The bytes of a character as arithmetic, and what decoding them gives. *)
Lemma decode1 {S} a rest (s : S) :
  0 <= a < 128 -> fat_utf8_to_unicode (a :: rest) s = Ok ((a, rest), s).
Proof. intros. unfold fat_utf8_to_unicode. run. simpl. by replace (a <? 128) with true by lia. Qed.

Lemma mod_high k c b m : m = c * 2 ^ k -> 0 <= b < 2 ^ k -> (m + b) mod 2 ^ k = b.
Proof. intros -> ?. rewrite Z.add_comm, Z_mod_plus_full. by apply Z.mod_small. Qed.

Lemma decode2 {S} a b rest (s : S) :
  0 <= a < 32 -> 0 <= b < 64 ->
  fat_utf8_to_unicode (0xc0 + a :: 0x80 + b :: rest) s = Ok ((a * 64 + b, rest), s).
Proof.
  intros. unfold fat_utf8_to_unicode. run. simpl.
  replace (0xc0 + a <? 128) with false by lia. replace (0xc0 + a <? 224) with true by lia.
  rewrite (land_low 5), (land_low 6), (mod_high 5 6), (mod_high 6 2) by (done || lia).
  by rewrite join2.
Qed.

Lemma decode3 {S} a b c rest (s : S) :
  0 <= a < 16 -> 0 <= b < 64 -> 0 <= c < 64 ->
  fat_utf8_to_unicode (0xe0 + a :: 0x80 + b :: 0x80 + c :: rest) s =
    Ok (((a * 64 + b) * 64 + c, rest), s).
Proof.
  intros. unfold fat_utf8_to_unicode. run. simpl.
  replace (0xe0 + a <? 128) with false by lia. replace (0xe0 + a <? 224) with false by lia.
  replace (0xe0 + a <? 240) with true by lia.
  rewrite (land_low 4), !(land_low 6), (mod_high 4 14), !(mod_high 6 2) by (done || lia).
  by rewrite join3.
Qed.

Lemma decode4 {S} a b c d rest (s : S) :
  0 <= a < 8 -> 0 <= b < 64 -> 0 <= c < 64 -> 0 <= d < 64 ->
  fat_utf8_to_unicode (0xf0 + a :: 0x80 + b :: 0x80 + c :: 0x80 + d :: rest) s =
    Ok ((((a * 64 + b) * 64 + c) * 64 + d, rest), s).
Proof.
  intros. unfold fat_utf8_to_unicode. run. simpl.
  replace (0xf0 + a <? 128) with false by lia. replace (0xf0 + a <? 224) with false by lia.
  replace (0xf0 + a <? 240) with false by lia.
  rewrite (land_low 3), !(land_low 6), (mod_high 3 30), !(mod_high 6 2) by (done || lia).
  by rewrite join4.
Qed.

Lemma unicode_to_utf8_bytes u :
  0 <= u < 0x200000 ->
  unicode_to_utf8 u =
    if u <? 0x80 then [u] else
    if u <? 0x800 then [0xc0 + u / 64; 0x80 + u mod 64] else
    if u <? 0x10000 then [0xe0 + u / 4096; 0x80 + u / 64 mod 64; 0x80 + u mod 64]
    else [0xf0 + u / 262144; 0x80 + u / 4096 mod 64; 0x80 + u / 64 mod 64; 0x80 + u mod 64].
Proof.
  intros Hu. unfold unicode_to_utf8. rewrite !Z.shiftr_div_pow2 by lia.
  rewrite !(land_low 6 _ 0x3f) by (done || lia).
  change (2 ^ 6) with 64. change (2 ^ 12) with 4096. change (2 ^ 18) with 262144.
  rewrite !(lor_low 6 0x80 _ 2) by (simpl; Z.div_mod_to_equations; lia).
  destruct (Z.ltb_spec u 0x80); [|destruct (Z.ltb_spec u 0x800);
    [|destruct (Z.ltb_spec u 0x10000)]].
  - simpl. by rewrite u8_small by lia.
  - rewrite (lor_low 6 0xc0 _ 3) by (simpl; Z.div_mod_to_equations; lia).
    simpl. by rewrite !u8_small by (Z.div_mod_to_equations; lia).
  - rewrite (lor_low 4 0xe0 _ 14) by (simpl; Z.div_mod_to_equations; lia).
    simpl. by rewrite !u8_small by (Z.div_mod_to_equations; lia).
  - rewrite (lor_low 3 0xf0 _ 30) by (simpl; Z.div_mod_to_equations; lia).
    simpl. by rewrite !u8_small by (Z.div_mod_to_equations; lia).
Qed.

Lemma utf8_decode_encode {S} u rest (s : S) :
  0 <= u < 0x200000 -> fat_utf8_to_unicode (unicode_to_utf8 u ++ rest) s = Ok ((u, rest), s).
Proof.
  intros Hu. rewrite unicode_to_utf8_bytes by done.
  destruct (Z.ltb_spec u 0x80); [|destruct (Z.ltb_spec u 0x800);
    [|destruct (Z.ltb_spec u 0x10000)]]; simpl app.
  - apply decode1. lia.
  - rewrite decode2 by (Z.div_mod_to_equations; lia). repeat f_equal. Z.div_mod_to_equations; lia.
  - rewrite decode3 by (Z.div_mod_to_equations; lia). repeat f_equal. Z.div_mod_to_equations; lia.
  - rewrite decode4 by (Z.div_mod_to_equations; lia). repeat f_equal. Z.div_mod_to_equations; lia.
Qed.

(** ** Whole names

    The characters of the basic multilingual plane, the end mark apart. *)
Definition bmp (u : Z) : Prop := 0 < u < 0xd800 \/ 0xe000 <= u < 0x10000.

Definition utf8_bytes (us : list Z) : list Z := concat (map unicode_to_utf8 us).

Lemma not_low_surrogate u : bmp u -> (Z.land u 0xfc00 =? 0xdc00) = false.
Proof.
  intros Hu. apply Z.eqb_neq. intros H. apply (f_equal (fun z => Z.shiftr z 10)) in H.
  rewrite Z.shiftr_land in H. change (Z.shiftr 0xfc00 10) with (Z.ones 6) in H.
  rewrite Z.land_ones, Z.shiftr_div_pow2 in H by lia. change (Z.shiftr 0xdc00 10) with 55 in H.
  change (2 ^ 10) with 1024 in H. change (2 ^ 6) with 64 in H.
  destruct Hu; Z.div_mod_to_equations; lia.
Qed.

Lemma utf16_bmp {S} u p (s : S) :
  bmp u -> fat_utf16_to_unicode (u :: p) s = Ok ((u, p), s).
Proof. intros. unfold fat_utf16_to_unicode. run. simpl. by rewrite not_low_surrogate. Qed.

Lemma bmp_range u : bmp u -> 0 < u < 0x10000.
Proof. intros []; lia. Qed.

Lemma utf8_size_length u : 0 <= u < 0x200000 -> utf8_size u = Z.of_nat (length (unicode_to_utf8 u)).
Proof. intros. rewrite unicode_to_utf8_bytes by done. unfold utf8_size. by repeat case_match. Qed.

Lemma utf8_first u : 0 < u < 0x200000 -> exists b bs, unicode_to_utf8 u = b :: bs /\ b <> 0.
Proof.
  intros. rewrite unicode_to_utf8_bytes by lia.
  repeat case_match; eexists _, _; (split; [done|]); Z.div_mod_to_equations; lia.
Qed.

Lemma utf8_bytes_cons u us : utf8_bytes (u :: us) = unicode_to_utf8 u ++ utf8_bytes us.
Proof. done. Qed.

Lemma count_loop_ok {S} us rest (s : S) : Forall bmp us -> forall n,
  n + Z.of_nat (length (utf8_bytes us)) < 2 ^ 31 ->
  count_loop (length us) (us ++ rest) n s = Ok (n + Z.of_nat (length (utf8_bytes us)), s).
Proof.
  induction 1 as [|u us Hu _ IH]; intros n Hn; cbn [length app count_loop].
  - run. by rewrite Z.add_0_r.
  - rewrite (bind_ok _ _ _ _ _ (utf16_bmp u _ s Hu)). rewrite utf8_bytes_cons, length_app in *.
    pose proof (bmp_range u Hu). rewrite utf8_size_length by lia.
    rewrite (proj2 (Z.ltb_lt _ _)), (bind_ok _ _ _ tt s) by (lia || done). rewrite IH by lia. do 2 f_equal. lia.
Qed.

Lemma utf8_loop_ok us rest : Forall bmp us -> forall (a b : buffer) q,
  q = length a -> (length (utf8_bytes us) <= length b)%nat ->
  utf8_loop (length us) (us ++ rest) q (a ++ b) =
    Ok ((q + length (utf8_bytes us))%nat,
        a ++ map Some (utf8_bytes us) ++ drop (length (utf8_bytes us)) b).
Proof.
  induction 1 as [|u us Hu _ IH]; intros a b q -> Hb; simpl.
  - run. by rewrite Nat.add_0_r, drop_0.
  - rewrite (bind_ok _ _ _ _ _ (utf16_bmp u _ _ Hu)). rewrite utf8_bytes_cons, length_app in *.
    rewrite (bind_ok _ _ _ _ _ (poke_all_ok (unicode_to_utf8 u) a b _ eq_refl ltac:(lia))), app_assoc.
    rewrite IH by (rewrite ?length_app, ?length_map, ?length_drop; lia).
    rewrite map_app, drop_drop, <- !app_assoc. do 2 f_equal. lia.
Qed.

Lemma fat_utf16_to_utf8_ok {S} us rest (s : S) : Forall bmp us -> Z.of_nat (length (utf8_bytes us)) + 1 < 2 ^ 31 ->
  fat_utf16_to_utf8 (us ++ rest) (length us) s =
    let n := Z.of_nat (length (utf8_bytes us)) in
    Ok (String_t (Some n) (n + 1) (map Some (utf8_bytes us) ++ [None]), s).
Proof.
  intros Hus Hn. unfold fat_utf16_to_utf8.
  rewrite (bind_ok _ _ _ _ _ (count_loop_ok us rest s Hus 0 ltac:(lia))). rewrite Z.add_0_l.
  rewrite (proj2 (Z.ltb_lt _ _)), (bind_ok _ _ _ tt s) by done.
  unfold with_block. run. set (n := length (utf8_bytes us)).
  replace (Z.to_nat (Z.of_nat n + 1)) with (n + 1)%nat by lia.
  pose proof (utf8_loop_ok us rest Hus [] (replicate (n + 1) None) 0 eq_refl) as Hl.
  rewrite app_nil_l in Hl. rewrite Hl by (rewrite length_replicate; fold n; lia). simpl app.
  fold n. rewrite drop_replicate. by replace (n + 1 - n)%nat with 1%nat by lia.
Qed.

(** One character of the other direction. *)
Lemma fat_unicode_to_utf16_bmp u (a : buffer) x b q :
  0 <= u < 0x10000 -> q = length a ->
  fat_unicode_to_utf16 u q (a ++ x :: b) = Ok ((q + 1)%nat, a ++ Some u :: b).
Proof.
  intros Hu ->. unfold fat_unicode_to_utf16. replace (u <? 0x10000) with true by lia.
  unfold u16. rewrite wrap_small by done. by rewrite (bind_ok _ _ _ _ _ (poke_ok a x b _ u eq_refl)).
Qed.

Lemma utf16_loop_ok us more : Forall bmp us -> forall fuel (a b : buffer) q,
  q = length a -> (length us <= length b)%nat -> (length us <= fuel)%nat ->
  utf16_loop fuel (utf8_bytes us ++ 0 :: 0 :: more) q (a ++ b) =
    Ok ((0 :: 0 :: more, (q + length us)%nat), a ++ map Some us ++ drop (length us) b).
Proof.
  induction 1 as [|u us Hu _ IH]; intros fuel a b q -> Hb Hf; simpl in *.
  - destruct fuel; simpl; run; by rewrite Nat.add_0_r, drop_0.
  - pose proof (bmp_range u Hu). destruct b as [|x b]; simpl in *; [lia|].
    destruct fuel as [|fuel]; [lia|]. rewrite utf8_bytes_cons, <- app_assoc.
    destruct (utf8_first u ltac:(lia)) as (c & cs & Hc & Hc0). cbn [utf16_loop].
    rewrite (bind_ok _ _ _ c (a ++ x :: b)) by (by rewrite Hc).
    rewrite (proj2 (Z.eqb_neq c 0) Hc0). simpl. unfold bind at 1, ret at 1.
    rewrite (bind_ok _ _ _ _ _ (utf8_decode_encode u _ (a ++ x :: b) ltac:(lia))).
    rewrite (bind_ok _ _ _ _ _ (fat_unicode_to_utf16_bmp u a x b _ ltac:(lia) eq_refl)).
    rewrite (cons_middle _ a b), app_assoc.
    rewrite IH by (rewrite ?length_app; simpl; lia). rewrite <- app_assoc. simpl.
    do 3 f_equal. lia.
Qed.

Lemma utf8_bytes_length us : Forall bmp us -> (length us <= length (utf8_bytes us))%nat.
Proof.
  induction 1 as [|u us Hu _ IH]; [done|]. rewrite utf8_bytes_cons, length_app. simpl.
  pose proof (bmp_range u Hu). destruct (utf8_first u ltac:(lia)) as (? & ? & -> & _). simpl. lia.
Qed.

Lemma utf8_bytes_range us : Forall bmp us -> Forall (fun c => 0 < c < 256) (utf8_bytes us).
Proof.
  induction 1 as [|u us Hu _ IH]; [constructor|]. rewrite utf8_bytes_cons. apply Forall_app_2; [|done].
  pose proof (bmp_range u Hu). rewrite unicode_to_utf8_bytes by lia.
  repeat case_match; repeat constructor; Z.div_mod_to_equations; lia.
Qed.

Lemma utf8_bytes_bound us : Forall bmp us -> (length (utf8_bytes us) <= 3 * length us)%nat.
Proof.
  induction 1 as [|u us Hu _ IH]; [done|]. rewrite utf8_bytes_cons, length_app. simpl.
  pose proof (bmp_range u Hu). rewrite unicode_to_utf8_bytes by lia. repeat case_match; simpl; lia.
Qed.

(** C17. A name of the basic multilingual plane, short enough for its lengths to be an [int],
    survives the conversion from the UTF-16 of a directory entry to UTF-8 and back: the first
    conversion never writes outside the block it allocates, fills all of it but the last
    byte with bytes that are not NUL, and reports their number; the second, on those bytes
    followed by two NULs (which the first does not write and a caller has to provide) and
    given a buffer with room for the name, stores the units of the name and nothing else,
    and reports both lengths. *)
Theorem name_round_trip {S} us rest more (b : buffer) (s : S) :
  Forall bmp us -> 3 * Z.of_nat (length us) + 1 < 2 ^ 31 -> (length us <= length b)%nat ->
  exists bytes,
    fat_utf16_to_utf8 (us ++ rest) (length us) s =
      (let n := Z.of_nat (length bytes) in
       Ok (String_t (Some n) (n + 1) (map Some bytes ++ [None]), s)) /\
    Forall (fun c => 0 < c < 256) bytes /\
    fat_utf8_to_utf16 (bytes ++ 0 :: 0 :: more) b =
      Ok ((Z.of_nat (length bytes), Z.of_nat (length us)),
          map Some us ++ drop (length us) b).
Proof.
  intros Hus Hlen Hb. pose proof (utf8_bytes_bound us Hus). pose proof (utf8_bytes_length us Hus).
  exists (utf8_bytes us). split; [apply fat_utf16_to_utf8_ok; [done|lia]|].
  split; [by apply utf8_bytes_range|]. unfold fat_utf8_to_utf16.
  pose proof (utf16_loop_ok us more Hus (length (utf8_bytes us ++ 0 :: 0 :: more)) [] b 0 eq_refl Hb
    ltac:(rewrite length_app; lia)) as Hl.
  rewrite app_nil_l in Hl. rewrite (bind_ok _ _ _ _ _ Hl). run. rewrite length_app. cbn [length].
  rewrite !sext_small by lia. do 3 f_equal. lia.
Qed.

Lemma name_round_trip_witness :
  exists bytes,
    fat_utf16_to_utf8 [0x48; 0xe9; 0x4e2d; 0x6587; 0xffff] 4 tt =
      (let n := Z.of_nat (length bytes) in
       Ok (String_t (Some n) (n + 1) (map Some bytes ++ [None]), tt)) /\
    Forall (fun c => 0 < c < 256) bytes /\
    fat_utf8_to_utf16 (bytes ++ [0; 0]) (replicate 6 None) =
      Ok ((Z.of_nat (length bytes), 4), map Some [0x48; 0xe9; 0x4e2d; 0x6587] ++ [None; None]).
Proof.
  apply (name_round_trip [0x48; 0xe9; 0x4e2d; 0x6587] [0xffff] [] (replicate 6 None) tt);
    [|simpl; lia|simpl; lia].
  repeat constructor; unfold bmp; lia.
Defined.

(** Outside of that plane the conversions disagree.  U+1F600 is stored as a
    pair that stands for U+2F600, since 0x10000 is not subtracted; a pair that
    another system stored is taken as two characters, since the halves are
    expected in the other order; and two such pairs in a row make the code read
    past the end of the name. *)
Lemma astral_stored :
  fat_utf8_to_utf16 [0xf0; 0x9f; 0x98; 0x80; 0; 0] [None; None] =
    Ok ((4, 2), [Some 0xd87d; Some 0xde00]).
Proof. reflexivity. Qed.

Lemma astral_read :
  fat_utf16_to_utf8 [0xd83d; 0xde00] 2 tt = Undef /\
  fat_utf16_to_utf8 [0xd83d; 0xde00; 0] 2 tt =
    Ok (String_t (Some 6) 7 (map Some [0xed; 0xa0; 0xbd; 0xed; 0xb8; 0x80] ++ [None]), tt).
Proof. split; reflexivity. Qed.

Lemma astral_overrun :
  fat_utf16_to_utf8 [0xd83d; 0xde00; 0xd83d; 0xde00] 4 tt = Undef /\
  fat_utf16_to_utf8 [0xd83d; 0xde00; 0xd83d; 0xde00; 0x41] 4 tt =
    Ok (String_t (Some 11) 12 (map Some
          [0xed; 0xa0; 0xbd; 0xff; 0x90; 0x88; 0x80; 0xed; 0xb8; 0x80; 0x41] ++ [None]), tt).
Proof. split; reflexivity. Qed.

Lemma utf16_loop_overflow us more : Forall bmp us -> forall fuel (a b : buffer) q,
  q = length a -> (length b < length us)%nat -> (length us <= fuel)%nat ->
  utf16_loop fuel (utf8_bytes us ++ 0 :: 0 :: more) q (a ++ b) = Undef.
Proof.
  induction 1 as [|u us Hu _ IH]; intros fuel a b q -> Hb Hf; simpl in *; [lia|].
  pose proof (bmp_range u Hu). destruct fuel as [|fuel]; [lia|].
  rewrite utf8_bytes_cons, <- app_assoc.
  destruct (utf8_first u ltac:(lia)) as (c & cs & Hc & Hc0). cbn [utf16_loop].
  rewrite (bind_ok _ _ _ c (a ++ b)) by (by rewrite Hc).
  rewrite (proj2 (Z.eqb_neq c 0) Hc0). simpl. unfold bind at 1, ret at 1.
  rewrite (bind_ok _ _ _ _ _ (utf8_decode_encode u _ (a ++ b) ltac:(lia))).
  destruct b as [|x b].
  - unfold fat_unicode_to_utf16. replace (u <? 0x10000) with true by lia.
    unfold bind. by rewrite poke_out by (rewrite length_app; simpl; lia).
  - rewrite (bind_ok _ _ _ _ _ (fat_unicode_to_utf16_bmp u a x b _ ltac:(lia) eq_refl)).
    rewrite (cons_middle _ a b), app_assoc. simpl in *.
    apply IH; rewrite ?length_app; simpl; lia.
Qed.

Lemma utf8_bytes_ascii us : Forall (fun c => 0 < c < 0x80) us -> utf8_bytes us = us.
Proof.
  induction 1 as [|u us Hu _ IH]; [done|]. rewrite utf8_bytes_cons, IH.
  rewrite unicode_to_utf8_bytes by lia. by replace (u <? 0x80) with true by lia.
Qed.

(** [fat_longname_entry_write] allocates as many bytes as the UTF-8 name has,
    half of what an ASCII name needs: the conversion writes past the block. *)
Lemma longname_block_overflow cs more :
  cs <> [] -> Forall (fun c => 0 < c < 0x80) cs ->
  fat_utf8_to_utf16 (cs ++ 0 :: 0 :: more) (replicate (length cs / 2) None) = Undef.
Proof.
  intros Hne Hcs. assert (Forall bmp cs) as Hb.
  { refine (List.Forall_impl _ _ Hcs). intros c Hc. left. cbv beta in Hc. lia. }
  unfold fat_utf8_to_utf16. unfold bind.
  pose proof (utf16_loop_overflow cs more Hb (length (cs ++ 0 :: 0 :: more)) []
    (replicate (length cs / 2) None) 0 eq_refl) as Hl.
  rewrite app_nil_l, utf8_bytes_ascii in Hl by done. rewrite Hl; [done| |].
  - rewrite length_replicate. destruct cs; [done|]. apply Nat.div_lt; simpl; lia.
  - rewrite length_app. lia.
Qed.

(** ** Long names

    The format on disk: the name is cut into pieces of 13 units, the last one
    ended by a 0 and filled up with 0xffff; a piece is spread over the three
    arrays of its entry, which carries the number of the piece from 1, with the
    bit 0x40 in the entry of the last piece. *)

Definition unit_ok (c : Z) : Prop := c <> 0 /\ c <> 0xffff.

Definition piece (us : list Z) (i : nat) : list Z := take 13 (drop (13 * i) us).

Definition pieces (us : list Z) : nat := ((length us + 12) / 13)%nat.

Definition padding : list Z := 0 :: replicate 12 0xffff.

Definition long_entry (us : list Z) (sum : Z) (last : bool) (i : nat) : LongDir :=
  let p := piece us i ++ take (13 - length (piece us i)) padding in
  Long_dir (Z.of_nat (S i) + (if last then 0x40 else 0)) (take 5 p) 0x0f 0 sum
    (take 6 (drop 5 p)) 0 (take 2 (drop 11 p)).

(** The entries of the first [k] pieces, met in the order they have in the
    directory: the last piece first. [pos] gives the place of an entry. *)
Fixpoint collect (pos : nat -> Z * Z) (us : list Z) (sum : Z) (k : nat) : M FatDirIterator unit :=
  match k with
  | O => ret tt
  | S i =>
    process_long_entry (fst (pos i)) (snd (pos i)) (long_entry us sum (S i =? pieces us)%nat i) ;;
    collect pos us sum i
  end.

Lemma read_units_ok us pad : Forall unit_ok us -> Forall (fun c => ~ unit_ok c) pad ->
  forall (a b : buffer) q pos, (q + pos)%nat = length a -> (length us <= length b)%nat ->
  read_units (us ++ pad) q pos (a ++ b) =
    Ok ((pos + length us)%nat, a ++ map Some us ++ drop (length us) b).
Proof.
  intros Hus Hpad. induction Hus as [|u us [Hu0 Huf] _ IH]; intros a b q pos Hq Hb; simpl in *.
  - rewrite Nat.add_0_r, drop_0. destruct Hpad as [|c pad Hc _]; [done|]. simpl.
    unfold unit_ok in Hc. by replace ((c =? 0xffff) || (c =? 0)) with true by lia.
  - replace ((u =? 0xffff) || (u =? 0)) with false by lia.
    destruct b as [|x b]; simpl in *; [lia|].
    rewrite (bind_ok _ _ _ _ _ (poke_ok a x b _ u Hq)), (cons_middle _ a b), app_assoc.
    rewrite IH by (rewrite ?length_app; simpl; lia). rewrite <- app_assoc. simpl.
    do 2 f_equal. lia.
Qed.

(** The three loops together, on a piece cut at 5 and at 11. *)
Lemma cut3 {A} (p : list A) :
  (length p <= 13)%nat -> p = take 5 p ++ take 6 (drop 5 p) ++ take 2 (drop 11 p).
Proof.
  intros. rewrite <- (take_drop 5 p) at 1. f_equal. rewrite <- (take_drop 6 (drop 5 p)) at 1. f_equal.
  rewrite drop_drop. symmetry. apply take_ge. rewrite length_drop. simpl. lia.
Qed.

Lemma read_long_name_ok d p pad (a b : buffer) q :
  name1 d = take 5 (p ++ pad) -> name2 d = take 6 (drop 5 (p ++ pad)) ->
  name3 d = take 2 (drop 11 (p ++ pad)) ->
  Forall unit_ok p -> Forall (fun c => ~ unit_ok c) pad -> (length p <= 13)%nat ->
  q = length a -> (length p <= length b)%nat ->
  read_long_name d q (a ++ b) = Ok (length p, a ++ map Some p ++ drop (length p) b).
Proof.
  intros H1 H2 H3 Hp Hpad Hl -> Hb. unfold read_long_name. rewrite H1, H2, H3.
  rewrite !drop_app, !take_app. pose proof (cut3 p Hl) as Hc.
  pose proof (f_equal length Hc) as Hn. rewrite !length_app in Hn.
  rewrite (bind_ok _ _ _ _ _ (read_units_ok (take 5 p) _ (Forall_take _ _ _ Hp)
    (Forall_take _ _ _ Hpad) a b (length a) 0 ltac:(lia) ltac:(lia))), app_assoc.
  rewrite (bind_ok _ _ _ _ _ (read_units_ok (take 6 (drop 5 p)) _
    (Forall_take _ _ _ (Forall_drop _ _ _ Hp)) (Forall_take _ _ _ (Forall_drop _ _ _ Hpad))
    (a ++ map Some (take 5 p)) (drop (length (take 5 p)) b) (length a) (0 + length (take 5 p))
    ltac:(rewrite length_app, length_map; lia) ltac:(rewrite length_drop; lia))), app_assoc.
  rewrite (read_units_ok (take 2 (drop 11 p)) _
    (Forall_take _ _ _ (Forall_drop _ _ _ Hp)) (Forall_take _ _ _ (Forall_drop _ _ _ Hpad)))
    by (rewrite ?length_app, ?length_map, ?length_drop; lia).
  assert (map Some p = map Some (take 5 p) ++ map Some (take 6 (drop 5 p)) ++
    map Some (take 2 (drop 11 p))) as -> by (rewrite <- !map_app; by f_equal).
  rewrite !drop_drop, <- !app_assoc. do 2 f_equal; [lia|]. by rewrite <- Hn.
Qed.

Lemma order_number i (last : bool) : (i < 20)%nat ->
  Z.land (Z.of_nat (S i) + (if last then 0x40 else 0)) 0x3f = Z.of_nat (S i) /\
  truth (Z.land (Z.of_nat (S i) + (if last then 0x40 else 0)) 0x40) = last.
Proof. intros Hi. do 20 (destruct i as [|i]; [by destruct last|]). lia. Qed.

Lemma piece_length us i : (length (piece us i) <= 13)%nat.
Proof. unfold piece. rewrite length_take. lia. Qed.

Lemma process_long_entry_ok us sum last i cluster index iter :
  let b := longname_buf iter in let n := length (piece us i) in
  Forall unit_ok us -> (i < 20)%nat -> (13 * i + n <= length b)%nat ->
  process_long_entry cluster index (long_entry us sum last i) iter =
    Ok (tt, Fat_dir_iterator (take (13 * i) b ++ map Some (piece us i) ++ drop (13 * i + n) b)
              ((if last then 0 else longname_len iter) + Z.of_nat n)
              (if last then sum else iter_checksum iter)
              (if last then true else longname_valid iter)
              (if last then cluster else longname_cluster iter)
              (if last then index else longname_entry_index iter)).
Proof.
  intros b n Hus Hi Hb. destruct (order_number i last Hi) as [Ho Hf].
  unfold process_long_entry. cbn [order long_entry checksum]. rewrite Ho, Hf.
  rewrite (proj2 (Z.eqb_neq (Z.of_nat (S i)) 0)) by lia.
  replace (Z.to_nat ((Z.of_nat (S i) - 1) * 13)) with (13 * i)%nat by lia.
  assert (read_long_name (long_entry us sum last i) (13 * i) b =
    Ok (n, take (13 * i) b ++ map Some (piece us i) ++ drop (13 * i + n) b)) as Hr.
  { rewrite <- (take_drop (13 * i) b) at 1. rewrite <- drop_drop.
    apply (read_long_name_ok _ (piece us i) (take (13 - length (piece us i)) padding)); try done.
    - by apply Forall_take, Forall_drop.
    - apply Forall_take. unfold padding, unit_ok. simpl. repeat constructor; lia.
    - apply piece_length.
    - rewrite length_take. lia.
    - rewrite length_drop. fold n. lia. }
  destruct last; cbn [longname_buf longname_len iter_checksum longname_valid longname_cluster
    longname_entry_index]; fold b; by rewrite Hr.
Qed.

(** The pieces before the last one. *)
Lemma collect_before_last pos us sum k : Forall unit_ok us -> (k < pieces us)%nat ->
  (k <= 20)%nat -> (13 * k <= length us)%nat -> forall iter,
  (13 * k <= length (longname_buf iter))%nat ->
  collect pos us sum k iter =
    Ok (tt, Fat_dir_iterator (map Some (take (13 * k) us) ++ drop (13 * k) (longname_buf iter))
              (longname_len iter + 13 * Z.of_nat k) (iter_checksum iter) (longname_valid iter)
              (longname_cluster iter) (longname_entry_index iter)).
Proof.
  intros Hus. induction k as [|i IH]; intros Hp Hk Hl [b n c v cl ix]; cbn [longname_buf
    longname_len iter_checksum longname_valid longname_cluster longname_entry_index]; intros Hb.
  - simpl. run. by rewrite drop_0, Z.add_0_r.
  - assert (length (piece us i) = 13%nat) as Hi
      by (unfold piece; rewrite length_take, length_drop; lia).
    cbn [collect]. rewrite (proj2 (Nat.eqb_neq (S i) (pieces us))) by lia.
    rewrite (bind_ok _ _ _ _ _ (process_long_entry_ok us sum false i _ _
      (Fat_dir_iterator b n c v cl ix) Hus ltac:(lia) ltac:(rewrite Hi; simpl; lia))).
    cbn [longname_buf longname_len iter_checksum longname_valid longname_cluster
      longname_entry_index]. rewrite Hi.
    rewrite IH by (cbn [longname_buf]; rewrite ?length_app, ?length_take; lia).
    cbn [longname_buf longname_len iter_checksum longname_valid longname_cluster
      longname_entry_index].
    rewrite (drop_app_length' (take _ b)) by (rewrite length_take; lia).
    rewrite app_assoc, <- map_app. unfold piece.
    replace (13 * S i)%nat with (13 * i + 13)%nat by lia. rewrite take_take_drop.
    do 3 f_equal. lia.
Qed.

Lemma pieces_succ us : us <> [] -> exists j, pieces us = S j /\
  (13 * j < length us)%nat /\ (length us <= 13 * j + 13)%nat.
Proof.
  intros Hne. assert (0 < length us)%nat by (destruct us; [done|simpl; lia]).
  exists ((length us - 1) / 13)%nat. unfold pieces.
  replace (length us + 12)%nat with (length us - 1 + 1 * 13)%nat by lia.
  rewrite Nat.div_add by lia.
  pose proof (Nat.div_mod_eq (length us - 1) 13).
  pose proof (Nat.mod_upper_bound (length us - 1) 13 ltac:(lia)). lia.
Qed.

(** The entries of a long name of at most 255 units, met in the order they
    have in a directory, leave the units of the name at the start of the
    iterator's buffer, whatever it held before, with the length, the checksum
    and the place of the first of them; no unit is written outside of the
    buffer.  The short entry that follows keeps the length when its checksum is
    the one of the long entries and sets it to 0 otherwise. *)
Theorem longname_collected pos us sum iter short_dir :
  us <> [] -> (length us <= 255)%nat -> Forall unit_ok us ->
  length (longname_buf iter) = MAX_LONGNAME ->
  let n := length us in
  let b := map Some us ++ drop n (longname_buf iter) in
  let first := pos (pieces us - 1)%nat in
  (collect pos us sum (pieces us) ;; process_short_entry short_dir) iter =
    Ok (FS_OK, Fat_dir_iterator b
                 (if fat_checksum (name short_dir) =? sum then Z.of_nat n else 0)
                 sum true (fst first) (snd first)).
Proof.
  intros Hne Hl Hus Hb n b first. destruct (pieces_succ us Hne) as (j & Hj & Hj1 & Hj2).
  unfold MAX_LONGNAME in Hb. subst first. rewrite Hj. cbn [collect]. rewrite Hj, Nat.eqb_refl.
  replace (S j - 1)%nat with j by lia.
  assert (piece us j = drop (13 * j) us) as Hp by (apply take_ge; rewrite length_drop; lia).
  assert (length (piece us j) = n - 13 * j)%nat as Hpl by (by rewrite Hp, length_drop).
  rewrite bind_assoc.
  rewrite (bind_ok _ _ _ _ _ (process_long_entry_ok us sum true j _ _ iter Hus
    ltac:(lia) ltac:(lia))). rewrite Hpl, Hp.
  erewrite bind_ok by (apply (collect_before_last pos us sum j Hus); try lia;
    cbn [longname_buf]; rewrite length_app, length_take; lia).
  unfold process_short_entry. cbn [longname_buf longname_len iter_checksum longname_valid
    longname_cluster longname_entry_index].
  rewrite drop_app_length' by (rewrite length_take; lia).
  rewrite app_assoc, <- map_app, take_drop.
  replace (13 * j + (n - 13 * j))%nat with n by lia. fold b.
  replace (0 + Z.of_nat (n - 13 * j) + 13 * Z.of_nat j) with (Z.of_nat n) by lia.
  rewrite (proj2 (Z.ltb_lt 0 (Z.of_nat n))) by lia.
  by destruct (fat_checksum (name short_dir) =? sum).
Qed.

Lemma longname_collected_witness :
  (collect (fun i => (5, Z.of_nat i)) (map Z.of_nat (seq 65 20)) 202 2 ;;
     process_short_entry (Short_dir (Short_name [65;66;67;68;69;70;126;49] [32;32;32])
       0 0 0 0 0 0 0 0 0 0 0)) (fat_dir_iterator_init 5) =
    Ok (FS_OK, Fat_dir_iterator (map Some (map Z.of_nat (seq 65 20)) ++ replicate 236 None)
                 20 202 true 5 1).
Proof.
  apply (longname_collected (fun i => (5, Z.of_nat i)) (map Z.of_nat (seq 65 20)) 202
    (fat_dir_iterator_init 5)
    (Short_dir (Short_name [65;66;67;68;69;70;126;49] [32;32;32]) 0 0 0 0 0 0 0 0 0 0 0));
    [done|simpl; lia| |done].
  repeat constructor; simpl; lia.
Defined.

(** The number in an entry is not compared with the size of the buffer. *)
Lemma long_entry_overrun :
  process_long_entry 2 0 (Long_dir 0x7f (replicate 5 0x41) 0x0f 0 0 (replicate 6 0x41) 0
    (replicate 2 0x41)) (fat_dir_iterator_init 2) = Undef.
Proof. reflexivity. Qed.

(** ** The checksum *)

Definition byte (c : Z) : Prop := 0 <= c < 256.

(** The rotation to the right by one. *)
Definition ror1 (sum : Z) : Z := (sum mod 2) * 128 + sum / 2.

Lemma checksum_step_ror1 sum c : byte sum -> checksum_step sum c = u8 (ror1 sum + c).
Proof.
  intros [Hs1 Hs2]. unfold checksum_step, ror1. rewrite Z.shiftr_div_pow2 by lia.
  rewrite (land_low 1) by (done || lia). change (2 ^ 1) with 2. f_equal. f_equal. f_equal.
  pose proof (Z.mod_pos_bound sum 2 ltac:(lia)). unfold truth.
  by assert (sum mod 2 = 0 \/ sum mod 2 = 1) as [-> | ->] by lia.
Qed.

Lemma checksum_step_byte sum c : byte (checksum_step sum c).
Proof. apply (wrap_range 8). lia. Qed.

Lemma u8_eq x y : u8 x = u8 y -> -256 < x - y < 256 -> x = y.
Proof. unfold u8, wrap. change (2 ^ 8) with 256. intros. Z.div_mod_to_equations. lia. Qed.

(** A step loses nothing of either argument. *)
Lemma checksum_step_inj_l s s' c :
  byte s -> byte s' -> checksum_step s c = checksum_step s' c -> s = s'.
Proof.
  intros Hs Hs'. rewrite !checksum_step_ror1 by done. intros H. apply u8_eq in H;
    unfold byte, ror1 in *; Z.div_mod_to_equations; lia.
Qed.

Lemma checksum_step_inj_r s c c' :
  byte c -> byte c' -> byte s -> checksum_step s c = checksum_step s c' -> c = c'.
Proof.
  intros Hc Hc' Hs. rewrite !checksum_step_ror1 by done. intros H. apply u8_eq in H;
    unfold byte in *; lia.
Qed.

Lemma checksum_fold_byte cs : forall s, byte s -> byte (fold_left checksum_step cs s).
Proof. induction cs as [|c cs IH]; intros s Hs; [done|]. apply IH, checksum_step_byte. Qed.

Lemma checksum_fold_inj cs : forall s s', byte s -> byte s' ->
  fold_left checksum_step cs s = fold_left checksum_step cs s' -> s = s'.
Proof.
  induction cs as [|c cs IH]; intros s s' Hs Hs' H; [done|]. simpl in H.
  apply IH in H; try apply checksum_step_byte. by eapply checksum_step_inj_l.
Qed.

(** The checksum that ties long entries to their short entry tells two short
    names apart whenever they differ in exactly one of their 11 bytes. *)
Theorem checksum_one_byte before after c c' n n' :
  base n ++ ext n = before ++ c :: after -> base n' ++ ext n' = before ++ c' :: after ->
  byte c -> byte c' -> c <> c' -> fat_checksum n <> fat_checksum n'.
Proof.
  intros Hn Hn' Hc Hc' Hne H. apply Hne. unfold fat_checksum in H.
  rewrite Hn, Hn', !fold_left_app in H. simpl in H.
  assert (byte 0) as H0 by (unfold byte; lia).
  apply checksum_fold_inj in H; try apply checksum_step_byte.
  eapply checksum_step_inj_r; [done..| |exact H]. by apply checksum_fold_byte.
Qed.

Lemma checksum_one_byte_witness :
  fat_checksum (Short_name [65;66;67;68;69;70;126;49] [84;88;84]) <>
  fat_checksum (Short_name [65;66;67;68;69;70;126;50] [84;88;84]).
Proof.
  apply (checksum_one_byte [65;66;67;68;69;70;126] [84;88;84] 49 50); done.
Defined.

(** ** The 8.3 check *)

(** The characters of the name before and after its first dot. *)
Fixpoint before_dot (cs : list Z) : list Z :=
  match cs with
  | [] => []
  | c :: cs => if c =? 0x2e then [] else c :: before_dot cs
  end.

Definition is_letter (c : Z) : bool := is_lower c || is_upper c.

Fixpoint after_dot (cs : list Z) : list Z :=
  match cs with
  | [] => []
  | c :: cs => if c =? 0x2e then cs else after_dot cs
  end.

(** The bits that letters of [cs] set. *)
Definition caps_of (flag : Z) (cs : list Z) : Z :=
  Z.lor (if existsb is_lower cs then Z.shiftl 1 flag else 0)
        (if existsb is_upper cs then Z.shiftl 2 flag else 0).

Definition caps_char (flag c : Z) : Z :=
  if is_lower c then Z.shiftl 1 flag else if is_upper c then Z.shiftl 2 flag else 0.

Lemma caps_of_cons flag c cs : caps_of flag (c :: cs) = Z.lor (caps_char flag c) (caps_of flag cs).
Proof.
  assert (is_lower c && is_upper c = false) by (unfold is_lower, is_upper; lia).
  unfold caps_of, caps_char. simpl. apply Z.bits_inj'. intros n _. rewrite !Z.lor_spec.
  destruct (is_lower c), (is_upper c), (existsb is_lower cs), (existsb is_upper cs);
    simpl in *; rewrite ?Z.bits_0; try done; btauto.
Qed.

Lemma caps_char_dot flag : caps_char flag 0x2e = 0.
Proof. done. Qed.

Lemma caps_step caps flag c :
  (if is_lower c then Z.lor caps (Z.shiftl 1 flag)
   else if is_upper c then Z.lor caps (Z.shiftl 2 flag) else caps) = Z.lor caps (caps_char flag c).
Proof. unfold caps_char. repeat case_match; by rewrite ?Z.lor_0_r. Qed.

Lemma lookup_mid (pre cs more : list Z) c : (pre ++ (c :: cs) ++ more) !! length pre = Some c.
Proof. by rewrite lookup_app_r, Nat.sub_diag by lia. Qed.

Lemma caps_loop_ext {S} cs more (s : S) : forall pre caps,
  caps_loop (pre ++ cs ++ more) (length cs) (Z.of_nat (length pre)) caps 2 s =
    Ok (Z.lor caps (caps_of 2 cs), s).
Proof.
  induction cs as [|c cs IH]; intros pre caps.
  - simpl. run. by rewrite Z.lor_0_r.
  - cbn [caps_loop length]. rewrite (bind_ok _ _ _ c s) by (by rewrite elem_nat, lookup_mid).
    specialize (IH (pre ++ [c])). rewrite <- app_assoc, length_app in IH. simpl in IH.
    replace (Z.of_nat (length pre + 1)) with (Z.of_nat (length pre) + 1) in IH by lia.
    rewrite caps_step, caps_of_cons. simpl app.
    destruct (Z.eqb_spec c 0x2e) as [->|]; rewrite IH, ?caps_char_dot, ?Z.lor_0_l, ?Z.lor_assoc; done.
Qed.

Lemma caps_loop_base {S} cs more (s : S) : forall pre caps,
  caps_loop (pre ++ cs ++ more) (length cs) (Z.of_nat (length pre)) caps 0 s =
    Ok (Z.lor caps (Z.lor (caps_of 0 (before_dot cs)) (caps_of 2 (after_dot cs))), s).
Proof.
  induction cs as [|c cs IH]; intros pre caps.
  - simpl. run. by rewrite Z.lor_0_r.
  - cbn [caps_loop length before_dot after_dot].
    rewrite (bind_ok _ _ _ c s) by (by rewrite elem_nat, lookup_mid).
    specialize (IH (pre ++ [c])). pose proof (caps_loop_ext cs more s (pre ++ [c])) as He.
    rewrite <- app_assoc, length_app in IH, He. simpl in IH, He.
    replace (Z.of_nat (length pre + 1)) with (Z.of_nat (length pre) + 1) in IH, He by lia.
    rewrite caps_step. simpl app. destruct (Z.eqb_spec c 0x2e) as [->|]; [by rewrite He|].
    by rewrite IH, caps_of_cons, !Z.lor_assoc.
Qed.

Lemma check_name_caps_ok {S} cs more (s : S) :
  check_name_caps (cs ++ more) (Z.of_nat (length cs)) s =
    Ok (Z.lor (caps_of 0 (before_dot cs)) (caps_of 2 (after_dot cs)), s).
Proof. unfold check_name_caps. rewrite Nat2Z.id. apply (caps_loop_base cs more s [] 0). Qed.

(** What the check makes of the bits. *)
Lemma caps_refused cs :
  (let caps := Z.lor (caps_of 0 (before_dot cs)) (caps_of 2 (after_dot cs)) in
   truth (Z.land caps 0x03) || (Z.land caps 0x0c =? 0x0c)) =
  existsb is_letter (before_dot cs) ||
    existsb is_lower (after_dot cs) && existsb is_upper (after_dot cs).
Proof.
  assert (forall l, existsb is_letter l = existsb is_lower l || existsb is_upper l) as ->.
  { induction l as [|c l IH]; [done|]. simpl. rewrite IH. unfold is_letter. btauto. }
  unfold caps_of.
  by destruct (existsb is_lower (before_dot cs)), (existsb is_upper (before_dot cs)),
    (existsb is_lower (after_dot cs)), (existsb is_upper (after_dot cs)).
Qed.

(** All characters but the one at [dot] are allowed ones. *)
Fixpoint chars_ok (dot i : Z) (cs : list Z) : bool :=
  match cs with
  | [] => true
  | c :: cs => ((i =? dot) || is_available_short_name_char c) && chars_ok dot (i + 1) cs
  end.

Lemma short_chars_loop_ok {S} cs more dot (s : S) : forall pre,
  short_chars_loop (pre ++ cs ++ more) (length cs) (Z.of_nat (length pre)) dot s =
    Ok (chars_ok dot (Z.of_nat (length pre)) cs, s).
Proof.
  induction cs as [|c cs IH]; intros pre; [done|]. cbn [short_chars_loop chars_ok length].
  specialize (IH (pre ++ [c])). rewrite <- app_assoc, length_app in IH. simpl in IH.
  replace (Z.of_nat (length pre + 1)) with (Z.of_nat (length pre) + 1) in IH by lia.
  destruct (Z.of_nat (length pre) =? dot); [done|].
  rewrite (bind_ok _ _ _ c s) by (by rewrite elem_nat, lookup_mid).
  by destruct (is_available_short_name_char c).
Qed.

Lemma chars_ok_iff dot cs : forall i,
  chars_ok dot i cs = true <->
  (forall j c, cs !! j = Some c -> i + Z.of_nat j <> dot -> is_available_short_name_char c = true).
Proof.
  induction cs as [|c cs IH]; intros i; simpl; [done|].
  rewrite andb_true_iff, orb_true_iff, Z.eqb_eq, IH. split.
  - intros [H1 H2] [|j] c' Hc Hj; simpl in Hc; simplify_eq.
    + destruct H1; [lia|done].
    + apply (H2 j); [done|lia].
  - intros H. split.
    + destruct (decide (i = dot)); [by left|right]. apply (H 0%nat); [done|lia].
    + intros j c' Hc Hj. apply (H (S j)); [done|lia].
Qed.

(** Which names pass the 8.3 check, for a dot at index [dot]: the dot is at
    most at index 8 and at most two characters follow it, no letter at all
    comes before the first dot, the letters after it are all in one case, and
    every character but the one at [dot] is one of those allowed. The check
    reads nothing outside of the name. *)
Theorem check_short_name_iff {S} cs more dot (s : S) :
  exists b, check_short_name (cs ++ more) (Z.of_nat (length cs)) dot s = Ok (b, s) /\
  (b = true <->
     dot <= 8 /\ Z.of_nat (length cs) - 1 - dot <= 2 /\
     (forall c, c ∈ before_dot cs -> is_letter c = false) /\
     ~ (existsb is_lower (after_dot cs) = true /\ existsb is_upper (after_dot cs) = true) /\
     (forall j c, cs !! j = Some c -> Z.of_nat j <> dot ->
        is_available_short_name_char c = true)).
Proof.
  assert (existsb is_letter (before_dot cs) = false <->
    (forall c, c ∈ before_dot cs -> is_letter c = false)) as Hl.
  { induction (before_dot cs) as [|c l IH]; simpl.
    - split; [|done]. intros _ c Hc. by apply not_elem_of_nil in Hc.
    - rewrite orb_false_iff, IH. split.
      + intros [? ?] c' [-> | ?]%elem_of_cons; auto.
      + intros H. split; [|intros]; apply H, elem_of_cons; auto. }
  setoid_rewrite <- Hl. clear Hl. unfold check_short_name.
  destruct (Z.ltb_spec 8 dot); [eexists; split; [done|]; split; [done|lia]|].
  destruct (Z.ltb_spec dot (Z.of_nat (length cs) - 3)); simpl.
  { eexists; split; [done|]; split; [done|lia]. }
  rewrite (bind_ok _ _ _ _ _ (check_name_caps_ok cs more s)). rewrite caps_refused.
  pose proof (short_chars_loop_ok cs more dot s []) as Hc. simpl in Hc. rewrite Nat2Z.id.
  destruct (existsb is_letter (before_dot cs)); simpl.
  { eexists; split; [done|]. split; [done|]. by intros (_ & _ & ? & _). }
  destruct (existsb is_lower (after_dot cs) && existsb is_upper (after_dot cs)) eqn:Hcase.
  { apply andb_true_iff in Hcase. eexists; split; [done|]. split; [done|].
    by intros (_ & _ & _ & [] & _). }
  eexists; split; [exact Hc|]. rewrite chars_ok_iff. split.
  - intros Hch. split_and!; [lia|lia|done| |exact Hch]. intros [H1 H2]. by rewrite H1, H2 in Hcase.
  - by intros (_ & _ & _ & _ & Hch).
Qed.
