(* ===== verification/Bitmap.v ===== *)
(** * The bitmap allocator (src/lib/rust/bitmap.rs)

    Units of a fixed size, one bit of [alloc_map] per unit, and one bit of
    [bound_map] at the first unit of every allocation and just after its last
    one; and the per-CPU chunk that is allocated from such a bitmap
    (src/kernel/memory/percpu/chunk.rs).

    The words are those of the 64-bit target.  A Rust panic (an index out of
    range, an arithmetic overflow, an [unwrap] of [None]) is [Undef]. *)

From stdpp Require Import base list.
From S2P Require Import Prelude CMonad.
Local Open Scope Z_scope.

Definition WORD_BITS : Z := 64.
Definition MAX_ALLOC_SIZE : Z := 16 * 1024.
Definition CACHELINE_SIZE : Z := 64.

Definition usize_MAX : Z := Z.ones WORD_BITS.

Inductive FrameError : Set := IncorrectFrameType | OutOfFrames | Conflict.

Inductive PageTableError : Set :=
| EntryAbsent | EntryAlreadyMapped | FrameAllocationFailed | InvalidLevel.

Inductive MemoryError : Set :=
| OutOfMemory
| AddressConflict
| UnavailableFrame
| ViolateConstraint
| InvalidVirtualAddress (addr : Z)
| InvalidPhysicalAddress (addr : Z)
| InvalidSize (size : Z)
| InvalidAllocationOffset (offset : Z)
| NotInitialized
| Frame_error (e : FrameError)
| PageTable_error (e : PageTableError)
| OtherError.

(** [Result<A, MemoryError>]. *)
Abbreviation Result A := (A + MemoryError)%type.
Abbreviation Success a := (inl a).
Abbreviation Err e := (inr e).

(** [u32] arithmetic with its overflow checks. *)
Definition u32_checked {S} (x : Z) : M S Z :=
  defined_if ((0 <=? x) && (x <? 2 ^ 32)) ;; ret x.

(** [a.div_ceil(b)] and [a.next_multiple_of(b)]. *)
Definition div_ceil (a b : Z) : Z := (a + b - 1) / b.
Definition next_multiple_of (a b : Z) : Z := div_ceil a b * b.

Definition word_count (bits : Z) : Z := div_ceil bits WORD_BITS.

(** The size and the alignment of a [core::alloc::Layout]. *)
Record Layout : Set := { layout_size : Z; layout_align : Z }.

Record AllocMap : Type := { alloc_map : list Z; bound_map : list Z }.

Record Bitmap : Type := {
  array : list Z;
  size : Z;
  alloc_words : Z;
  first_free : Z
}.

Record BitIndex : Set := { index : Z; bit : Z }.

Definition bit_index_new (position : Z) : BitIndex :=
  {| index := position / WORD_BITS; bit := position mod WORD_BITS |}.
Definition bit_index_position (b : BitIndex) : Z := index b * WORD_BITS + bit b.

(** [(usize::MAX >> (WORD_BITS - len)) << bit] on words. *)
Definition mask (len bit : Z) : Z :=
  wrap WORD_BITS (Z.shiftl (Z.shiftr usize_MAX (WORD_BITS - len)) bit).

(** [1 << bit] on words. *)
Definition one_bit (bit : Z) : Z := wrap WORD_BITS (Z.shiftl 1 bit).

(** [!x] on words. *)
Definition word_not (x : Z) : Z := Z.lxor x usize_MAX.

(** [words[i]] and its update. *)
Definition get_word {S} (ws : list Z) (i : Z) : M S Z :=
  if i <? 0 then undef else of_option (ws !! Z.to_nat i).

Definition set_word (ws : list Z) (i v : Z) : list Z := <[Z.to_nat i := v]> ws.

Definition upd_alloc (i : Z) (f : Z -> Z) : M AllocMap unit :=
  m ← gets (fun m => m) ;
  w ← get_word (alloc_map m) i ;
  modify (fun m => {| alloc_map := set_word (alloc_map m) i (f w); bound_map := bound_map m |}).

Definition upd_bound (i : Z) (f : Z -> Z) : M AllocMap unit :=
  m ← gets (fun m => m) ;
  w ← get_word (bound_map m) i ;
  modify (fun m => {| alloc_map := alloc_map m; bound_map := set_word (bound_map m) i (f w) |}).

(** ** The two maps

    The loops handle at least one unit per turn, so [len] turns are enough. *)

Fixpoint test_loop (fuel : nat) (remaining index bit : Z) : M AllocMap bool :=
  if 0 <? remaining then
    match fuel with
    | O => no_fuel
    | S fuel =>
      let len := Z.min remaining (WORD_BITS - bit) in
      m ← gets (fun m => m) ;
      w ← get_word (alloc_map m) index ;
      if negb (Z.land w (mask len bit) =? 0) then ret false else
      test_loop fuel (remaining - len) (index + 1) 0
    end
  else ret true.

Definition test (b : BitIndex) (len : Z) : M AllocMap bool :=
  test_loop (Z.to_nat len) len (index b) (bit b).

Fixpoint mark_loop (fuel : nat) (remaining index bit : Z) : M AllocMap unit :=
  if 0 <? remaining then
    match fuel with
    | O => no_fuel
    | S fuel =>
      let len := Z.min remaining (WORD_BITS - bit) in
      upd_alloc index (fun w => Z.lor w (mask len bit)) ;;
      upd_bound index (fun w => Z.land w (word_not (mask len bit))) ;;
      mark_loop fuel (remaining - len) (index + 1) 0
    end
  else ret tt.

Definition mark_allocated (b : BitIndex) (len : Z) : M AllocMap unit :=
  mark_loop (Z.to_nat len) len (index b) (bit b) ;;
  upd_bound (index b) (fun w => Z.lor w (one_bit (bit b))) ;;
  last ← u32_checked (bit b + len) ;
  end_index ← u32_checked (index b + last / WORD_BITS) ;
  upd_bound end_index (fun w => Z.lor w (one_bit (last mod WORD_BITS))).

Fixpoint free_loop (fuel : nat) (remaining index bit : Z) : M AllocMap unit :=
  if 0 <? remaining then
    match fuel with
    | O => no_fuel
    | S fuel =>
      let len := Z.min remaining (WORD_BITS - bit) in
      upd_alloc index (fun w => Z.land w (word_not (mask len bit))) ;;
      free_loop fuel (remaining - len) (index + 1) 0
    end
  else ret tt.

Definition mark_free (start last : BitIndex) : M AllocMap unit :=
  remaining ← u32_checked (bit_index_position last - bit_index_position start) ;
  free_loop (Z.to_nat remaining) remaining (index start) (bit start).

(** [word.lowest_one()]: the number of the lowest bit set, below [n]. *)
Fixpoint lowest_one (n : nat) (word : Z) : option Z :=
  match n with
  | O => None
  | S n =>
    match lowest_one n word with
    | Some i => Some i
    | None => if Z.testbit word (Z.of_nat n) then Some (Z.of_nat n) else None
    end
  end.

(** [while word.highest_one().is_none()]: the loop ends at a word that is not
    zero, or by a panic after the last word. *)
Fixpoint boundary_loop (fuel : nat) (word index : Z) : M AllocMap BitIndex :=
  match lowest_one (Z.to_nat WORD_BITS) word with
  | Some b => ret {| index := index; bit := b |}
  | None =>
    match fuel with
    | O => no_fuel
    | S fuel =>
      m ← gets (fun m => m) ;
      w ← get_word (bound_map m) (index + 1) ;
      boundary_loop fuel w (index + 1)
    end
  end.

Definition find_boundary (start : BitIndex) : M AllocMap BitIndex :=
  let b := (bit start + 1) mod WORD_BITS in
  let i := index start + (bit start + 1) / WORD_BITS in
  m ← gets (fun m => m) ;
  w ← get_word (bound_map m) i ;
  boundary_loop (length (bound_map m)) (Z.land w (wrap WORD_BITS (Z.shiftl usize_MAX b))) i.

(** ** Allocation *)

Section unit_size.
Context (UNIT_SIZE : Z).

(** [while start + units <= capacity_units].  [start] grows, so [capacity_units]
    turns are enough. *)
Fixpoint allocate_loop (fuel : nat) (start units unit_align capacity_units first_free : Z)
    : M AllocMap (Result Z * Z) :=
  last ← u32_checked (start + units) ;
  if last <=? capacity_units then
    match fuel with
    | O => no_fuel
    | S fuel =>
      offset ← u32_checked (start * UNIT_SIZE) ;
      free ← test (bit_index_new start) units ;
      if free : bool then
        mark_allocated (bit_index_new start) units ;;
        ret (Success offset, if start =? first_free then start + units else first_free)
      else
        next ← u32_checked (next_multiple_of last unit_align) ;
        allocate_loop fuel next units unit_align capacity_units first_free
    end
  else ret (Err OutOfMemory, first_free).

(** Returns the new value of [first_free] too. *)
Definition alloc_map_allocate (layout : Layout) (capacity first_free : Z)
    : M AllocMap (Result Z * Z) :=
  let size := layout_size layout in
  if (size =? 0) || (MAX_ALLOC_SIZE <? size) then ret (Err (InvalidSize size), first_free) else
  let units := div_ceil size UNIT_SIZE in
  let align := Z.max (layout_align layout) UNIT_SIZE in
  if CACHELINE_SIZE <? align then ret (Err ViolateConstraint, first_free) else
  let unit_align := align / UNIT_SIZE in
  start ← u32_checked (next_multiple_of first_free unit_align) ;
  let capacity_units := capacity / UNIT_SIZE in
  allocate_loop (Z.to_nat capacity_units) start units unit_align capacity_units first_free.

Definition alloc_map_deallocate (unit first_free : Z) : M AllocMap (Result () * Z) :=
  let bitmask := bit_index_new unit in
  m ← gets (fun m => m) ;
  a ← get_word (alloc_map m) (index bitmask) ;
  taken ←
    (if Z.land a (one_bit (bit bitmask)) =? 0 then ret false else
     b ← get_word (bound_map m) (index bitmask) ;
     ret (negb (Z.land b (one_bit (bit bitmask)) =? 0))) ;
  if negb taken then ret (Err (InvalidAllocationOffset (unit * UNIT_SIZE)), first_free) else
  last ← find_boundary bitmask ;
  mark_free bitmask last ;;
  ret (Success tt, Z.min first_free unit).

(** ** The public interface *)

(** [n.is_power_of_two()] for the sizes that can pass the test. *)
Definition is_power_of_two (n : Z) : bool := (0 <? n) && (Z.land n (n - 1) =? 0).

(** [memory] is whether the allocation of the array succeeds. *)
Definition try_new {S} (memory : bool) (size : Z) : M S (Result Bitmap) :=
  if negb (is_power_of_two UNIT_SIZE) || (CACHELINE_SIZE <? UNIT_SIZE) then
    ret (Err ViolateConstraint) else
  if (size =? 0) || negb (size mod UNIT_SIZE =? 0) then ret (Err (InvalidSize size)) else
  let units := size / UNIT_SIZE in
  bits ← u32_checked (units + 1) ;
  let alloc_words := wrap 16 (word_count bits) in
  let bound_words := alloc_words in
  let total_words := alloc_words + bound_words in
  if negb memory then ret (Err OutOfMemory) else
  ret (Success {| array := replicate (Z.to_nat total_words) 0; size := size;
                  alloc_words := alloc_words; first_free := 0 |}).

(** Run an operation on the two halves of the array and store them back.
    [split_at_mut] panics when the array is shorter than its first half. *)
Definition on_map {A} (m : Z -> M AllocMap (A * Z)) : M Bitmap A := fun b =>
  let n := Z.to_nat (alloc_words b) in
  if (n <=? length (array b))%nat then
    match m (first_free b) {| alloc_map := take n (array b); bound_map := drop n (array b) |} with
    | Ok ((a, ff), am) =>
      Ok (a, {| array := alloc_map am ++ bound_map am; size := size b;
                alloc_words := alloc_words b; first_free := ff |})
    | Undef => Undef
    | NoFuel => NoFuel
    end
  else Undef.

Definition allocate (layout : Layout) : M Bitmap (Result Z) :=
  sz ← gets size ; on_map (alloc_map_allocate layout sz).

Definition deallocate (offset : Z) : M Bitmap (Result ()) :=
  sz ← gets size ;
  if (sz <=? offset) || negb (offset mod UNIT_SIZE =? 0) then
    ret (Err (InvalidAllocationOffset offset)) else
  on_map (alloc_map_deallocate (offset / UNIT_SIZE)).

(** ** Per-CPU chunks

    The pages behind the chunk are not looked at; the lock around the bitmap
    makes every operation run alone. *)

Record PerCpuChunk : Type := { bitmap : Bitmap; dynamic_start : Z }.

Definition chunk_try_new {S} (memory : bool) (dynamic_start unit_size : Z)
    : M S (Result PerCpuChunk) :=
  dynamic_capacity ← u32_checked (unit_size - dynamic_start) ;
  r ← try_new memory dynamic_capacity ;
  ret (match r with
       | Success b => Success {| bitmap := b; dynamic_start := dynamic_start |}
       | Err e => Err e
       end).

Definition on_bitmap {A} (m : M Bitmap A) : M PerCpuChunk A := fun c =>
  match m (bitmap c) with
  | Ok (a, b) => Ok (a, {| bitmap := b; dynamic_start := dynamic_start c |})
  | Undef => Undef
  | NoFuel => NoFuel
  end.

Definition chunk_allocate (layout : Layout) : M PerCpuChunk (Result Z) :=
  r ← on_bitmap (allocate layout) ;
  match r with
  | Success position =>
    base ← gets dynamic_start ; p ← u32_checked (base + position) ; ret (Success p)
  | Err e => ret (Err e)
  end.

Definition chunk_deallocate (dynamic_position : Z) : M PerCpuChunk (Result ()) :=
  base ← gets dynamic_start ;
  position ← u32_checked (dynamic_position - base) ;
  on_bitmap (deallocate position).
End unit_size.
