(* ===== verification/BitmapFacts.v ===== *)
(** * The bitmap allocator: theorems

    The two maps of bits represent a finite map from the first unit of every
    live allocation to its number of units.  [allocate] and [deallocate] refine
    the insertion of a block disjoint from all others and the removal of
    exactly one block; they never panic. *)

From Stdlib Require Import Znumtheory Btauto.
From stdpp Require Import base tactics list numbers gmap.
From S2P Require Import Prelude CMonad Bitmap.
Local Open Scope Z_scope.

(** ** Bits of a list of words *)

Definition word_at (ws : list Z) (i : Z) : Z := default 0 (ws !! Z.to_nat i).

Definition bit_at (ws : list Z) (p : Z) : bool :=
  Z.testbit (word_at ws (p / WORD_BITS)) (p mod WORD_BITS).

(** The number of bits. *)
Definition bit_count (ws : list Z) : Z := Z.of_nat (length ws) * WORD_BITS.

Definition in_range (p n q : Z) : bool := (p <=? q) && (q <? p + n).

Lemma in_range_spec p n q : in_range p n q = true <-> p <= q < p + n.
Proof. unfold in_range. lia. Qed.

Lemma get_word_ok {S} ws i (s : S) :
  0 <= i < Z.of_nat (length ws) -> get_word ws i s = Ok (word_at ws i, s).
Proof.
  intros Hi. unfold get_word, word_at. destruct (Z.ltb_spec i 0); [lia|].
  destruct (lookup_lt_is_Some_2 ws (Z.to_nat i)) as [w Hw]; [lia|]. by rewrite Hw.
Qed.

Lemma word_at_set ws i v j :
  0 <= i < Z.of_nat (length ws) -> 0 <= j ->
  word_at (set_word ws i v) j = if j =? i then v else word_at ws j.
Proof.
  intros Hi Hj. unfold word_at, set_word. destruct (Z.eqb_spec j i) as [->|].
  - by rewrite list_lookup_insert_eq by lia.
  - by rewrite list_lookup_insert_ne by lia.
Qed.

Lemma length_set_word ws i v : length (set_word ws i v) = length ws.
Proof. apply length_insert. Qed.

Lemma split_position p : 0 <= p -> p = p / WORD_BITS * WORD_BITS + p mod WORD_BITS /\
  0 <= p / WORD_BITS /\ 0 <= p mod WORD_BITS < WORD_BITS.
Proof. intros. unfold WORD_BITS. Z.div_mod_to_equations. lia. Qed.

Lemma join_position i b : 0 <= b < WORD_BITS ->
  (i * WORD_BITS + b) / WORD_BITS = i /\ (i * WORD_BITS + b) mod WORD_BITS = b.
Proof. unfold WORD_BITS. intros. Z.div_mod_to_equations. lia. Qed.

Lemma bit_at_set ws i v p :
  0 <= i < Z.of_nat (length ws) -> 0 <= p ->
  bit_at (set_word ws i v) p =
    if p / WORD_BITS =? i then Z.testbit v (p mod WORD_BITS) else bit_at ws p.
Proof.
  intros Hi Hp. pose proof (split_position p Hp). unfold bit_at.
  rewrite word_at_set by lia. by destruct (_ =? _).
Qed.

(** ** Masks *)

Lemma testbit_ones n i : 0 <= n -> 0 <= i -> Z.testbit (Z.ones n) i = (i <? n).
Proof.
  intros. destruct (Z.ltb_spec i n); [by apply Z.ones_spec_low|by apply Z.ones_spec_high].
Qed.

Lemma testbit_mask len b j :
  0 <= b -> 0 <= len -> b + len <= WORD_BITS -> 0 <= j ->
  Z.testbit (mask len b) j = in_range b len j.
Proof.
  intros Hb Hl Hbl Hj. unfold mask, usize_MAX, in_range.
  rewrite testbit_wrap, Z.shiftl_spec by (unfold WORD_BITS; lia).
  destruct (Z.leb_spec b j); simpl.
  - rewrite Z.shiftr_spec, testbit_ones by (unfold WORD_BITS in *; lia).
    unfold WORD_BITS in *. lia.
  - rewrite Z.testbit_neg_r by lia. lia.
Qed.

Lemma testbit_one_bit b j :
  0 <= b < WORD_BITS -> 0 <= j -> Z.testbit (one_bit b) j = (j =? b).
Proof.
  intros Hb Hj. unfold one_bit. rewrite testbit_wrap by (unfold WORD_BITS; lia).
  rewrite Z.shiftl_1_l, Z.pow2_bits_eqb by lia. unfold WORD_BITS in *. lia.
Qed.

Lemma testbit_word_not w j :
  0 <= j < WORD_BITS -> Z.testbit (word_not w) j = negb (Z.testbit w j).
Proof.
  intros Hj. unfold word_not, usize_MAX. rewrite Z.lxor_spec, testbit_ones by (unfold WORD_BITS in *; lia).
  replace (j <? WORD_BITS) with true by lia. apply xorb_true_r.
Qed.

(** A word has a bit in common with a mask when one of the bits of the mask is
    set in it. *)
Lemma land_mask_zero w len b :
  0 <= b -> 0 <= len -> b + len <= WORD_BITS ->
  Z.land w (mask len b) = 0 <-> (forall j, b <= j < b + len -> Z.testbit w j = false).
Proof.
  intros Hb Hl Hbl. split.
  - intros H j Hj. apply (f_equal (fun z => Z.testbit z j)) in H.
    rewrite Z.land_spec, testbit_mask, Z.bits_0 in H by lia.
    rewrite (proj2 (in_range_spec b len j)) in H by lia. by rewrite andb_true_r in H.
  - intros H. apply Z.bits_inj'. intros j Hj. rewrite Z.land_spec, testbit_mask, Z.bits_0 by lia.
    destruct (in_range b len j) eqn:Hr; [|by rewrite andb_false_r].
    apply in_range_spec in Hr. by rewrite H.
Qed.

Lemma land_one_bit_zero w b :
  0 <= b < WORD_BITS -> (Z.land w (one_bit b) =? 0) = negb (Z.testbit w b).
Proof.
  intros Hb. destruct (Z.testbit w b) eqn:Hw; simpl.
  - apply Z.eqb_neq. intros H. apply (f_equal (fun z => Z.testbit z b)) in H.
    by rewrite Z.land_spec, testbit_one_bit, Z.eqb_refl, Hw, Z.bits_0 in H by lia.
  - apply Z.eqb_eq, Z.bits_inj'. intros j Hj. rewrite Z.land_spec, testbit_one_bit, Z.bits_0 by lia.
    destruct (Z.eqb_spec j b) as [->|]; [by rewrite Hw|by rewrite andb_false_r].
Qed.

(** ** The loops over words

    A loop works on [remaining] bits from position [p] on; it starts in the
    middle of a word and goes on at the start of the next. *)

Lemma next_turn p r : 0 <= p -> 0 < r ->
  let b := p mod WORD_BITS in let len := Z.min r (WORD_BITS - b) in
  1 <= len <= r /\ b + len <= WORD_BITS /\
  (0 < r - len -> (p + len) / WORD_BITS = p / WORD_BITS + 1 /\ (p + len) mod WORD_BITS = 0) /\
  (forall q, 0 <= q -> in_range p r q =
     (q / WORD_BITS =? p / WORD_BITS) && in_range b len (q mod WORD_BITS)
     || in_range (p + len) (r - len) q).
Proof.
  intros Hp Hr b len. pose proof (split_position p Hp) as (Hs & Hi & Hb). subst b len.
  unfold WORD_BITS in *. split; [lia|]. split; [lia|]. split.
  - intros. Z.div_mod_to_equations. lia.
  - intros q Hq. unfold in_range. destruct (Z.eqb_spec (q / 64) (p / 64)) as [He|He]; simpl;
      pose proof (Z.div_mod q 64 ltac:(lia)); pose proof (Z.mod_pos_bound q 64 ltac:(lia)); lia.
Qed.

(** Where a loop stands: at position [p], with [r] bits left. *)
Definition at_position (p r i b : Z) : Prop :=
  0 <= p /\ 0 <= r /\ (0 < r -> i = p / WORD_BITS /\ b = p mod WORD_BITS).

Lemma at_position_next p r : 0 <= p -> 0 < r ->
  let len := Z.min r (WORD_BITS - p mod WORD_BITS) in
  at_position (p + len) (r - len) (p / WORD_BITS + 1) 0.
Proof.
  intros Hp Hr len. pose proof (next_turn p r Hp Hr) as (Hl & _ & Hn & _). fold len in Hl, Hn.
  split; [lia|]. split; [lia|]. intros H. destruct (Hn H). by split.
Qed.

Lemma position_word ws p r : 0 <= p -> 0 < r -> p + r <= bit_count ws ->
  0 <= p / WORD_BITS < Z.of_nat (length ws).
Proof. unfold bit_count, WORD_BITS. intros. Z.div_mod_to_equations. lia. Qed.

Lemma test_loop_ok fuel : forall p r i b m,
  at_position p r i b -> r <= Z.of_nat fuel -> p + r <= bit_count (alloc_map m) ->
  exists free, test_loop fuel r i b m = Ok (free, m) /\
  (free = true <-> forall q, p <= q < p + r -> bit_at (alloc_map m) q = false).
Proof.
  induction fuel as [|fuel IH]; intros p r i b m (Hp & Hr & Hib) Hf Hw; simpl.
  { replace (0 <? r) with false by lia. exists true. split; [done|]. split; [lia|done]. }
  destruct (Z.ltb_spec 0 r) as [Hr0|]; [|exists true; split; [done|]; split; [lia|done]].
  destruct (Hib Hr0) as [-> ->]. set (len := Z.min r (WORD_BITS - p mod WORD_BITS)).
  pose proof (next_turn p r Hp Hr0) as (Hl & Hbl & _ & _). fold len in Hl, Hbl.
  pose proof (split_position p Hp) as (Hs & _ & Hb).
  run. rewrite get_word_ok by (eapply position_word; eauto; lia).
  assert (forall j, p mod WORD_BITS <= j < p mod WORD_BITS + len ->
    bit_at (alloc_map m) (p / WORD_BITS * WORD_BITS + j) =
    Z.testbit (word_at (alloc_map m) (p / WORD_BITS)) j) as Hbit.
  { intros j Hj. unfold bit_at. by destruct (join_position (p / WORD_BITS) j ltac:(lia)) as [-> ->]. }
  destruct (Z.eqb_spec (Z.land (word_at (alloc_map m) (p / WORD_BITS))
    (mask len (p mod WORD_BITS))) 0) as [Hz|Hz]; simpl.
  - rewrite land_mask_zero in Hz by lia.
    destruct (IH (p + len) (r - len) (p / WORD_BITS + 1) 0 m) as (free & -> & Hfree);
      [by apply at_position_next|lia|lia|].
    exists free. split; [done|]. rewrite Hfree. split; intros H q Hq.
    + destruct (decide (p + len <= q)); [apply H; lia|].
      replace q with (p / WORD_BITS * WORD_BITS + (q - p / WORD_BITS * WORD_BITS)) by lia.
      rewrite Hbit by lia. apply Hz. lia.
    + apply H. lia.
  - exists false. split; [done|]. split; [done|]. intros H. destruct Hz.
    rewrite land_mask_zero by lia. intros j Hj. rewrite <- Hbit by done. apply H. lia.
Qed.

(** ** Updates of the maps *)

Lemma upd_alloc_ok i f m :
  0 <= i < Z.of_nat (length (alloc_map m)) ->
  upd_alloc i f m =
    Ok (tt, {| alloc_map := set_word (alloc_map m) i (f (word_at (alloc_map m) i));
               bound_map := bound_map m |}).
Proof. intros. unfold upd_alloc. run. by rewrite get_word_ok. Qed.

Lemma upd_bound_ok i f m :
  0 <= i < Z.of_nat (length (bound_map m)) ->
  upd_bound i f m =
    Ok (tt, {| alloc_map := alloc_map m;
               bound_map := set_word (bound_map m) i (f (word_at (bound_map m) i)) |}).
Proof. intros. unfold upd_bound. run. by rewrite get_word_ok. Qed.

(** [ws'] has as many words as [ws], and its bits are those [f] gives. *)
Definition bits_are (ws' ws : list Z) (f : Z -> bool -> bool) : Prop :=
  length ws' = length ws /\ forall q, 0 <= q -> bit_at ws' q = f q (bit_at ws q).

Lemma bits_are_trans ws1 ws2 ws3 f g :
  bits_are ws3 ws2 g -> bits_are ws2 ws1 f -> bits_are ws3 ws1 (fun q x => g q (f q x)).
Proof. intros [L1 H1] [L2 H2]. split; [congruence|]. intros. by rewrite H1, H2. Qed.

Lemma bits_are_ext ws ws' f g :
  bits_are ws' ws f -> (forall q x, 0 <= q -> f q x = g q x) -> bits_are ws' ws g.
Proof. intros [L H] Hfg. split; [done|]. intros. by rewrite H, Hfg. Qed.

Lemma bits_are_id ws : bits_are ws ws (fun _ x => x).
Proof. done. Qed.

(** Setting, or clearing, the bits of a mask in one word. *)
Lemma set_mask ws p len :
  0 <= p -> 0 <= len -> p mod WORD_BITS + len <= WORD_BITS ->
  0 <= p / WORD_BITS < Z.of_nat (length ws) ->
  bits_are (set_word ws (p / WORD_BITS)
      (Z.lor (word_at ws (p / WORD_BITS)) (mask len (p mod WORD_BITS)))) ws
    (fun q x => (q / WORD_BITS =? p / WORD_BITS) && in_range (p mod WORD_BITS) len (q mod WORD_BITS) || x).
Proof.
  intros Hp Hl Hbl Hw. split; [apply length_set_word|]. intros q Hq.
  pose proof (split_position p Hp). pose proof (split_position q Hq).
  rewrite bit_at_set by lia. destruct (Z.eqb_spec (q / WORD_BITS) (p / WORD_BITS)) as [He|]; [|done].
  rewrite Z.lor_spec, testbit_mask by lia. unfold bit_at. rewrite He. apply orb_comm.
Qed.

Lemma clear_mask ws p len :
  0 <= p -> 0 <= len -> p mod WORD_BITS + len <= WORD_BITS ->
  0 <= p / WORD_BITS < Z.of_nat (length ws) ->
  bits_are (set_word ws (p / WORD_BITS)
      (Z.land (word_at ws (p / WORD_BITS)) (word_not (mask len (p mod WORD_BITS))))) ws
    (fun q x => negb ((q / WORD_BITS =? p / WORD_BITS) && in_range (p mod WORD_BITS) len (q mod WORD_BITS)) && x).
Proof.
  intros Hp Hl Hbl Hw. split; [apply length_set_word|]. intros q Hq.
  pose proof (split_position p Hp). pose proof (split_position q Hq).
  rewrite bit_at_set by lia. destruct (Z.eqb_spec (q / WORD_BITS) (p / WORD_BITS)) as [He|]; [|done].
  rewrite Z.land_spec, testbit_word_not, testbit_mask by lia. unfold bit_at. rewrite He. apply andb_comm.
Qed.

(** Setting one bit. *)
Lemma set_bit ws p :
  0 <= p < bit_count ws ->
  bits_are (set_word ws (p / WORD_BITS)
      (Z.lor (word_at ws (p / WORD_BITS)) (one_bit (p mod WORD_BITS)))) ws
    (fun q x => (q =? p) || x).
Proof.
  intros Hp. pose proof (split_position p ltac:(lia)).
  pose proof (position_word ws p 1 ltac:(lia) ltac:(lia) ltac:(lia)).
  split; [apply length_set_word|]. intros q Hq. pose proof (split_position q Hq).
  rewrite bit_at_set by lia. destruct (Z.eqb_spec (q / WORD_BITS) (p / WORD_BITS)) as [He|].
  - rewrite Z.lor_spec, testbit_one_bit by lia. unfold bit_at. rewrite He, orb_comm. f_equal.
    destruct (Z.eqb_spec (q mod WORD_BITS) (p mod WORD_BITS)), (Z.eqb_spec q p); lia || done.
  - by replace (q =? p) with false by (destruct (Z.eqb_spec q p); congruence).
Qed.

Lemma mark_loop_ok fuel : forall p r i b m,
  at_position p r i b -> r <= Z.of_nat fuel -> p + r <= bit_count (alloc_map m) ->
  length (bound_map m) = length (alloc_map m) ->
  exists m', mark_loop fuel r i b m = Ok (tt, m') /\
  bits_are (alloc_map m') (alloc_map m) (fun q x => in_range p r q || x) /\
  bits_are (bound_map m') (bound_map m) (fun q x => negb (in_range p r q) && x).
Proof.
  assert (forall p r m, r <= 0 -> bits_are (alloc_map m) (alloc_map m) (fun q x => in_range p r q || x) /\
    bits_are (bound_map m) (bound_map m) (fun q x => negb (in_range p r q) && x)) as Hnone.
  { intros p r m Hr. split; (eapply bits_are_ext; [apply bits_are_id|]); intros q x _;
      replace (in_range p r q) with false by (unfold in_range; lia); done. }
  induction fuel as [|fuel IH]; intros p r i b m (Hp & Hr & Hib) Hf Hw Hlen; simpl.
  { replace (0 <? r) with false by lia. exists m. split; [done|]. apply Hnone. lia. }
  destruct (Z.ltb_spec 0 r) as [Hr0|]; [|exists m; split; [done|]; apply Hnone; lia].
  destruct (Hib Hr0) as [-> ->]. pose proof (next_turn p r Hp Hr0) as (Hl & Hbl & _ & Hsplit).
  cbv beta zeta in *. set (len := Z.min r (WORD_BITS - p mod WORD_BITS)) in *.
  pose proof (position_word (alloc_map m) p r Hp Hr0 Hw) as Hi.
  rewrite (bind_ok _ _ _ _ _ (upd_alloc_ok _ _ m Hi)).
  erewrite bind_ok by (apply upd_bound_ok; simpl; lia). cbn [alloc_map bound_map].
  destruct (IH (p + len) (r - len) (p / WORD_BITS + 1) 0
    {| alloc_map := set_word (alloc_map m) (p / WORD_BITS)
         (Z.lor (word_at (alloc_map m) (p / WORD_BITS)) (mask len (p mod WORD_BITS)));
       bound_map := set_word (bound_map m) (p / WORD_BITS)
         (Z.land (word_at (bound_map m) (p / WORD_BITS)) (word_not (mask len (p mod WORD_BITS)))) |})
    as (m' & -> & Ha & Hb); cbn [alloc_map bound_map] in *.
  - by apply at_position_next.
  - lia.
  - unfold bit_count in *. rewrite length_set_word. lia.
  - by rewrite !length_set_word.
  - exists m'. split; [done|]. split.
    + eapply bits_are_ext; [eapply bits_are_trans; [exact Ha|apply set_mask; lia]|].
      intros q x Hq. rewrite (Hsplit q Hq). simpl. btauto.
    + eapply bits_are_ext; [eapply bits_are_trans; [exact Hb|apply clear_mask; lia]|].
      intros q x Hq. rewrite (Hsplit q Hq). simpl. btauto.
Qed.

Lemma free_loop_ok fuel : forall p r i b m,
  at_position p r i b -> r <= Z.of_nat fuel -> p + r <= bit_count (alloc_map m) ->
  exists m', free_loop fuel r i b m = Ok (tt, m') /\ bound_map m' = bound_map m /\
  bits_are (alloc_map m') (alloc_map m) (fun q x => negb (in_range p r q) && x).
Proof.
  assert (forall p r m, r <= 0 ->
    bits_are (alloc_map m) (alloc_map m) (fun q x => negb (in_range p r q) && x)) as Hnone.
  { intros p r m Hr. eapply bits_are_ext; [apply bits_are_id|]. intros q x _.
    by replace (in_range p r q) with false by (unfold in_range; lia). }
  induction fuel as [|fuel IH]; intros p r i b m (Hp & Hr & Hib) Hf Hw; simpl.
  { replace (0 <? r) with false by lia. exists m. split_and!; [done..|]. apply Hnone. lia. }
  destruct (Z.ltb_spec 0 r) as [Hr0|]; [|exists m; split_and!; [done..|]; apply Hnone; lia].
  destruct (Hib Hr0) as [-> ->]. pose proof (next_turn p r Hp Hr0) as (Hl & Hbl & _ & Hsplit).
  cbv beta zeta in *. set (len := Z.min r (WORD_BITS - p mod WORD_BITS)) in *.
  pose proof (position_word (alloc_map m) p r Hp Hr0 Hw) as Hi.
  rewrite (bind_ok _ _ _ _ _ (upd_alloc_ok _ _ m Hi)).
  destruct (IH (p + len) (r - len) (p / WORD_BITS + 1) 0
    {| alloc_map := set_word (alloc_map m) (p / WORD_BITS)
         (Z.land (word_at (alloc_map m) (p / WORD_BITS)) (word_not (mask len (p mod WORD_BITS))));
       bound_map := bound_map m |})
    as (m' & -> & Hb & Ha); cbn [alloc_map bound_map] in *.
  - by apply at_position_next.
  - lia.
  - unfold bit_count in *. rewrite length_set_word. lia.
  - exists m'. split_and!; [done..|].
    eapply bits_are_ext; [eapply bits_are_trans; [exact Ha|apply clear_mask; lia]|].
    intros q x Hq. rewrite (Hsplit q Hq). simpl. btauto.
Qed.

(** ** Operations at a position *)

Lemma at_position_new p r : 0 <= p -> 0 <= r ->
  at_position p r (index (bit_index_new p)) (bit (bit_index_new p)).
Proof. done. Qed.

Lemma position_new p : bit_index_position (bit_index_new p) = p.
Proof.
  unfold bit_index_position, bit_index_new, WORD_BITS. simpl. Z.div_mod_to_equations. lia.
Qed.

Lemma test_ok p n m : 0 <= p -> 0 <= n -> p + n <= bit_count (alloc_map m) ->
  exists free, test (bit_index_new p) n m = Ok (free, m) /\
  (free = true <-> forall q, p <= q < p + n -> bit_at (alloc_map m) q = false).
Proof. intros. apply test_loop_ok; [by apply at_position_new|lia|done]. Qed.

Lemma u32_checked_ok {S} x (s : S) : 0 <= x < 2 ^ 32 -> u32_checked x s = Ok (x, s).
Proof. intros. unfold u32_checked. run. by replace ((0 <=? x) && (x <? 2 ^ 32)) with true by lia. Qed.

(** The bits of both maps after an allocation: its units are taken, its two
    ends are marked and nothing in between is. *)
Lemma mark_allocated_ok p n m :
  0 <= p -> 0 < n -> p + n < bit_count (alloc_map m) -> bit_count (alloc_map m) < 2 ^ 31 ->
  length (bound_map m) = length (alloc_map m) ->
  exists m', mark_allocated (bit_index_new p) n m = Ok (tt, m') /\
  bits_are (alloc_map m') (alloc_map m) (fun q x => in_range p n q || x) /\
  bits_are (bound_map m') (bound_map m)
    (fun q x => (q =? p) || (q =? p + n) || negb (in_range p n q) && x).
Proof.
  intros Hp Hn Hw Hmax Hlen. unfold mark_allocated.
  destruct (mark_loop_ok (Z.to_nat n) p n _ _ m (at_position_new p n Hp ltac:(lia)) ltac:(lia)
    ltac:(lia) Hlen) as (m1 & Hm1 & Ha & Hb).
  rewrite (bind_ok _ _ _ _ _ Hm1). pose proof Ha as [Hla _]. pose proof Hb as [Hlb _].
  assert (bit_count (bound_map m1) = bit_count (alloc_map m)) as Hc
    by (unfold bit_count; congruence).
  assert (forall q, 0 <= q <= p + n -> 0 <= q / WORD_BITS < Z.of_nat (length (bound_map m1))) as Hq
    by (intros; apply (position_word _ q 1); lia).
  erewrite bind_ok by (apply upd_bound_ok, (Hq p); lia). cbn [index bit bit_index_new].
  pose proof (split_position p Hp) as Hsp.
  assert ((p mod WORD_BITS + n) mod WORD_BITS = (p + n) mod WORD_BITS /\
    p / WORD_BITS + (p mod WORD_BITS + n) / WORD_BITS = (p + n) / WORD_BITS) as [Em Ed].
  { unfold WORD_BITS. clear. Z.div_mod_to_equations. lia. }
  erewrite bind_ok by (apply u32_checked_ok; unfold WORD_BITS in *; lia). rewrite Em, Ed.
  erewrite bind_ok by (apply u32_checked_ok; specialize (Hq (p + n)); unfold bit_count, WORD_BITS in *; lia).
  rewrite upd_bound_ok by (cbn [bound_map]; rewrite length_set_word; apply Hq; lia).
  eexists. split; [done|]. cbn [alloc_map bound_map]. split; [done|].
  eapply bits_are_ext.
  - eapply bits_are_trans; [apply set_bit|eapply bits_are_trans; [apply set_bit|exact Hb]].
    + unfold bit_count in *. rewrite length_set_word. lia.
    + lia.
  - intros q x _. simpl. btauto.
Qed.

Lemma lowest_one_some n w i :
  0 <= i < Z.of_nat n -> Z.testbit w i = true -> (forall j, 0 <= j < i -> Z.testbit w j = false) ->
  lowest_one n w = Some i.
Proof.
  intros Hi Hw Hlow. induction n as [|n IH]; [lia|]. simpl.
  destruct (decide (i = Z.of_nat n)) as [->|]; [|rewrite IH by lia; done].
  assert (lowest_one n w = None) as ->.
  { clear IH Hi Hw. induction n as [|n IH]; [done|]. simpl.
    rewrite IH by (intros; apply Hlow; lia). by rewrite Hlow by lia. }
  by rewrite Hw.
Qed.

Lemma lowest_one_none n w :
  (forall j, 0 <= j < Z.of_nat n -> Z.testbit w j = false) -> lowest_one n w = None.
Proof.
  induction n as [|n IH]; intros H; [done|]. simpl. rewrite IH by (intros; apply H; lia).
  by rewrite H by lia.
Qed.

(** [w] is what is left to look at of word [i]: the scan ends at position [q]. *)
Lemma boundary_loop_ok q m fuel : forall w i,
  0 <= i <= q / WORD_BITS -> q / WORD_BITS - i <= Z.of_nat fuel -> 0 <= q < bit_count (bound_map m) ->
  bit_at (bound_map m) q = true ->
  (forall j, 0 <= j < WORD_BITS -> i * WORD_BITS + j < q -> Z.testbit w j = false) ->
  (i = q / WORD_BITS -> Z.testbit w (q mod WORD_BITS) = true) ->
  (forall p, (i + 1) * WORD_BITS <= p < q -> bit_at (bound_map m) p = false) ->
  boundary_loop fuel w i m = Ok (bit_index_new q, m).
Proof.
  induction fuel as [|fuel IH]; intros w i Hi Hf Hq Hbit Hlow Hat Hnone;
    pose proof (split_position q ltac:(lia)) as (Hs & _ & Hb); cbn [boundary_loop].
  - assert (i = q / WORD_BITS) as -> by lia.
    by rewrite (lowest_one_some _ w (q mod WORD_BITS)) by
      (try apply Hat; try (intros; apply Hlow); unfold WORD_BITS in *; lia).
  - destruct (decide (i = q / WORD_BITS)) as [->|Hne].
    { by rewrite (lowest_one_some _ w (q mod WORD_BITS)) by
        (try apply Hat; try (intros; apply Hlow); unfold WORD_BITS in *; lia). }
    rewrite lowest_one_none by (intros; apply Hlow; unfold WORD_BITS in *; lia).
    pose proof (position_word (bound_map m) q 1 ltac:(lia) ltac:(lia) ltac:(lia)) as Hw.
    run. rewrite get_word_ok by lia.
    assert (forall j, 0 <= j < WORD_BITS ->
      Z.testbit (word_at (bound_map m) (i + 1)) j = bit_at (bound_map m) ((i + 1) * WORD_BITS + j))
      as Hword by (intros j Hj; unfold bit_at; by destruct (join_position (i + 1) j Hj) as [-> ->]).
    apply IH; try done; try lia.
    + intros j Hj Hlt. rewrite Hword by done. apply Hnone. lia.
    + intros He. rewrite Hword by lia. by rewrite He, <- Hs.
    + intros p Hp. apply Hnone. unfold WORD_BITS in *. lia.
Qed.

(** The boundary found is the first one after [p]. *)
Lemma find_boundary_ok p q m :
  0 <= p < q -> q < bit_count (bound_map m) -> bit_at (bound_map m) q = true ->
  (forall x, p < x < q -> bit_at (bound_map m) x = false) ->
  find_boundary (bit_index_new p) m = Ok (bit_index_new q, m).
Proof.
  intros Hp Hq Hbit Hnone. pose proof (split_position (p + 1) ltac:(lia)) as (Hs & Hi & Hb).
  assert ((p mod WORD_BITS + 1) mod WORD_BITS = (p + 1) mod WORD_BITS /\
    p / WORD_BITS + (p mod WORD_BITS + 1) / WORD_BITS = (p + 1) / WORD_BITS) as [Em Ed].
  { unfold WORD_BITS. clear. Z.div_mod_to_equations. lia. }
  assert ((p + 1) / WORD_BITS <= q / WORD_BITS) as Hle by (apply Z.div_le_mono; unfold WORD_BITS; lia).
  pose proof (position_word (bound_map m) q 1 ltac:(lia) ltac:(lia) ltac:(lia)) as Hw.
  unfold find_boundary. cbn [index bit bit_index_new]. rewrite Em, Ed.
  run. rewrite get_word_ok by lia.
  assert (forall j, 0 <= j < WORD_BITS ->
    Z.testbit (Z.land (word_at (bound_map m) ((p + 1) / WORD_BITS))
      (wrap WORD_BITS (Z.shiftl usize_MAX ((p + 1) mod WORD_BITS)))) j =
    ((p + 1) mod WORD_BITS <=? j) && bit_at (bound_map m) ((p + 1) / WORD_BITS * WORD_BITS + j)) as Hword.
  { intros j Hj. unfold bit_at. destruct (join_position ((p + 1) / WORD_BITS) j Hj) as [-> ->].
    rewrite Z.land_spec, testbit_wrap, Z.shiftl_spec by (unfold WORD_BITS; lia).
    destruct (Z.leb_spec ((p + 1) mod WORD_BITS) j).
    - unfold usize_MAX. rewrite testbit_ones by (unfold WORD_BITS in *; lia).
      unfold WORD_BITS in *. by replace ((j <? 64) && (j - (p + 1) mod 64 <? 64)) with true by lia;
        rewrite andb_true_r.
    - rewrite (Z.testbit_neg_r usize_MAX) by lia. by rewrite !andb_false_r. }
  apply (boundary_loop_ok q); try done; try lia.
  - intros j Hj Hlt. rewrite Hword by done. destruct (Z.leb_spec ((p + 1) mod WORD_BITS) j); [|done].
    apply Hnone. lia.
  - intros He. pose proof (split_position q ltac:(lia)). rewrite Hword by lia.
    rewrite He. replace (q / WORD_BITS * WORD_BITS + q mod WORD_BITS) with q by lia.
    rewrite Hbit. lia.
  - intros x Hx. apply Hnone. lia.
Qed.

Lemma mark_free_ok p q m :
  0 <= p -> p <= q -> q <= bit_count (alloc_map m) -> bit_count (alloc_map m) < 2 ^ 31 ->
  exists m', mark_free (bit_index_new p) (bit_index_new q) m = Ok (tt, m') /\
  bound_map m' = bound_map m /\
  bits_are (alloc_map m') (alloc_map m) (fun x b => negb (in_range p (q - p) x) && b).
Proof.
  intros. unfold mark_free. rewrite !position_new.
  erewrite bind_ok by (apply u32_checked_ok; lia).
  apply free_loop_ok; [apply at_position_new; lia|lia|lia].
Qed.

(** ** What the maps represent

    [bl] gives the number of units of the allocation that starts at a unit. *)

Record map_inv (cap : Z) (bl : gmap Z Z) (ff : Z) (m : AllocMap) : Prop := {
  inv_len : length (bound_map m) = length (alloc_map m);
  inv_cap : cap < bit_count (alloc_map m) < 2 ^ 22;
  inv_block : forall s n, bl !! s = Some n -> 0 <= s /\ 0 < n /\ s + n <= cap;
  inv_disjoint : forall s n s' n', bl !! s = Some n -> bl !! s' = Some n' -> s <> s' ->
    s + n <= s' \/ s' + n' <= s;
  inv_alloc : forall p, 0 <= p ->
    (bit_at (alloc_map m) p = true <-> exists s n, bl !! s = Some n /\ s <= p < s + n);
  inv_bound : forall s n, bl !! s = Some n ->
    bit_at (bound_map m) s = true /\ bit_at (bound_map m) (s + n) = true /\
    forall p, s < p < s + n -> bit_at (bound_map m) p = false;
  inv_first : 0 <= ff <= cap /\ forall p, 0 <= p < ff -> bit_at (alloc_map m) p = true
}.

(** A range of free units meets no block. *)
Lemma free_range_disjoint cap bl ff m s n :
  map_inv cap bl ff m -> 0 <= s -> 0 < n ->
  (forall q, s <= q < s + n -> bit_at (alloc_map m) q = false) ->
  forall s' n', bl !! s' = Some n' -> s + n <= s' \/ s' + n' <= s.
Proof.
  intros Hi Hs Hn Hfree s' n' Hb. destruct (inv_block _ _ _ _ Hi s' n' Hb) as (? & ? & ?).
  destruct (decide (s + n <= s')); [by left|]. destruct (decide (s' + n' <= s)); [by right|].
  exfalso. assert (bit_at (alloc_map m) (Z.max s s') = true) as Ht.
  { apply (inv_alloc _ _ _ _ Hi); [lia|]. exists s', n'. split; [done|]. lia. }
  by rewrite Hfree in Ht by lia.
Qed.

(** Allocating a free range inserts a block. *)
Lemma insert_block cap bl ff m s n m' ff' :
  map_inv cap bl ff m -> 0 <= s -> 0 < n -> s + n <= cap ->
  (forall q, s <= q < s + n -> bit_at (alloc_map m) q = false) ->
  bits_are (alloc_map m') (alloc_map m) (fun q x => in_range s n q || x) ->
  bits_are (bound_map m') (bound_map m)
    (fun q x => (q =? s) || (q =? s + n) || negb (in_range s n q) && x) ->
  ff' = (if s =? ff then s + n else ff) ->
  map_inv cap (<[s := n]> bl) ff' m'.
Proof.
  intros Hi Hs Hn Hcap Hfree [La Ha] [Lb Hb] Hff.
  pose proof (free_range_disjoint _ _ _ _ s n Hi Hs Hn Hfree) as Hdis. split.
  - rewrite La, Lb. apply Hi.
  - unfold bit_count. rewrite La. apply Hi.
  - intros s1 n1 [[-> ->]|[? ?]]%lookup_insert_Some; [lia|]. by apply (inv_block _ _ _ _ Hi).
  - intros s1 n1 s2 n2 [[<- <-]|[? H1]]%lookup_insert_Some [[<- <-]|[? H2]]%lookup_insert_Some Hne;
      [done|by apply Hdis| |by apply (inv_disjoint _ _ _ _ Hi)].
    destruct (Hdis _ _ H1); [by right|by left].
  - intros p Hp. rewrite Ha, orb_true_iff, in_range_spec, (inv_alloc _ _ _ _ Hi) by done. split.
    + intros [Hr|(s1 & n1 & H1 & Hr)].
      * exists s, n. by rewrite lookup_insert_eq.
      * exists s1, n1. rewrite lookup_insert_ne; [done|]. intros <-.
        destruct (Hdis s n1 H1); destruct (inv_block _ _ _ _ Hi _ _ H1); lia.
    + intros (s1 & n1 & [[<- <-]|[? H1]]%lookup_insert_Some & Hr); [by left|right; eauto].
  - intros s1 n1 [[<- <-]|[Hne H1]]%lookup_insert_Some.
    + rewrite !Hb, !Z.eqb_refl, orb_true_r by lia. split_and!; [done..|].
      intros p Hp. rewrite Hb by lia. rewrite (proj2 (in_range_spec s n p)) by lia. simpl.
      replace (p =? s) with false by lia. by replace (p =? s + n) with false by lia.
    + destruct (inv_block _ _ _ _ Hi s1 n1 H1) as (? & ? & ?).
      destruct (inv_bound _ _ _ _ Hi s1 n1 H1) as (B1 & B2 & B3). pose proof (Hdis s1 n1 H1) as Hd.
      rewrite !Hb, B1, B2, !andb_true_r by lia. split_and!.
      * unfold in_range. lia.
      * unfold in_range. lia.
      * intros p Hp. rewrite Hb, B3, andb_false_r by lia. lia.
  - destruct (inv_first _ _ _ _ Hi) as [Hf1 Hf2]. subst ff'. destruct (Z.eqb_spec s ff) as [->|].
    + split; [lia|]. intros p Hp. rewrite Ha by lia. destruct (decide (p < ff)).
      * rewrite Hf2 by lia. apply orb_true_r.
      * by rewrite (proj2 (in_range_spec ff n p)) by lia.
    + split; [lia|]. intros p Hp. rewrite Ha, Hf2 by lia. apply orb_true_r.
Qed.

(** Freeing the units of a block removes it. *)
Lemma delete_block cap bl ff m s n m' :
  map_inv cap bl ff m -> bl !! s = Some n -> bound_map m' = bound_map m ->
  bits_are (alloc_map m') (alloc_map m) (fun x b => negb (in_range s n x) && b) ->
  map_inv cap (delete s bl) (Z.min ff s) m'.
Proof.
  intros Hi Hsn Hb [La Ha]. destruct (inv_block _ _ _ _ Hi s n Hsn) as (Hs0 & Hn0 & Hc0). split.
  - rewrite La, Hb. apply Hi.
  - unfold bit_count. rewrite La. apply Hi.
  - intros s1 n1 [_ H1]%lookup_delete_Some. by apply (inv_block _ _ _ _ Hi).
  - intros s1 n1 s2 n2 [_ H1]%lookup_delete_Some [_ H2]%lookup_delete_Some.
    by apply (inv_disjoint _ _ _ _ Hi).
  - intros p Hp. rewrite Ha, andb_true_iff, negb_true_iff by done.
    rewrite <- not_true_iff_false, in_range_spec, (inv_alloc _ _ _ _ Hi) by done. split.
    + intros [Hn (s1 & n1 & H1 & Hr)]. exists s1, n1. rewrite lookup_delete_ne; [done|].
      intros <-. rewrite Hsn in H1. simplify_eq. lia.
    + intros (s1 & n1 & [Hne H1]%lookup_delete_Some & Hr). split; [|eauto].
      destruct (inv_disjoint _ _ _ _ Hi s n s1 n1 Hsn H1 Hne); lia.
  - intros s1 n1 [_ H1]%lookup_delete_Some. rewrite Hb. by apply (inv_bound _ _ _ _ Hi).
  - destruct (inv_first _ _ _ _ Hi) as [Hf1 Hf2]. split; [lia|]. intros p Hp.
    rewrite Ha, Hf2 by lia. unfold in_range. lia.
Qed.

(** ** Refinement *)

Section refinement.
Context (U : Z).

(** The capacity of a bitmap in units. *)
Definition capacity (b : Bitmap) : Z := size b / U.

(** The two maps of a bitmap. *)
Definition maps (b : Bitmap) : AllocMap :=
  {| alloc_map := take (Z.to_nat (alloc_words b)) (array b);
     bound_map := drop (Z.to_nat (alloc_words b)) (array b) |}.

(** The bitmap [b] represents the blocks [bl]. *)
Definition represents (b : Bitmap) (bl : gmap Z Z) : Prop :=
  length (array b) = (Z.to_nat (alloc_words b) + Z.to_nat (alloc_words b))%nat /\
  0 <= size b < 2 ^ 32 /\ map_inv (capacity b) bl (first_free b) (maps b).

(** The specification: what a request may answer, and the blocks after it.  An
    allocator with no block refuses only what is larger than all of it. *)
Inductive alloc_step (cap : Z) (layout : Layout) (bl : gmap Z Z) : Result Z -> gmap Z Z -> Prop :=
| alloc_at s n :
    0 < layout_size layout <= MAX_ALLOC_SIZE -> n = div_ceil (layout_size layout) U ->
    0 <= s -> s + n <= cap -> (layout_align layout | s * U) ->
    (forall s' n', bl !! s' = Some n' -> s + n <= s' \/ s' + n' <= s) ->
    alloc_step cap layout bl (Success (s * U)) (<[s := n]> bl)
| alloc_bad_size :
    layout_size layout = 0 \/ MAX_ALLOC_SIZE < layout_size layout ->
    alloc_step cap layout bl (Err (InvalidSize (layout_size layout))) bl
| alloc_bad_align :
    CACHELINE_SIZE < Z.max (layout_align layout) U ->
    alloc_step cap layout bl (Err ViolateConstraint) bl
| alloc_full :
    bl <> ∅ \/ cap < div_ceil (layout_size layout) U ->
    alloc_step cap layout bl (Err OutOfMemory) bl.

Inductive dealloc_step (offset : Z) (bl : gmap Z Z) : Result () -> gmap Z Z -> Prop :=
| dealloc_at s n :
    offset = s * U -> bl !! s = Some n -> dealloc_step offset bl (Success tt) (delete s bl)
| dealloc_bad :
    (forall s n, offset = s * U -> bl !! s <> Some n) ->
    dealloc_step offset bl (Err (InvalidAllocationOffset offset)) bl.

Hypothesis U_pow2 : exists k, 0 <= k <= 6 /\ U = 2 ^ k.

Lemma U_range : 1 <= U <= 64.
Proof.
  destruct U_pow2 as (k & Hk & ->). split.
  - pose proof (Z.pow_pos_nonneg 2 k). lia.
  - change 64 with (2 ^ 6). apply Z.pow_le_mono_r; lia.
Qed.

Lemma next_multiple_spec a b : 0 <= a -> 0 < b ->
  a <= next_multiple_of a b < a + b /\ (b | next_multiple_of a b).
Proof.
  intros. unfold next_multiple_of, div_ceil. split; [Z.div_mod_to_equations; lia|].
  apply Z.divide_factor_r.
Qed.

(** The search: it takes the first probe that is free. *)
Lemma allocate_loop_ok cap bl ff m units ua :
  map_inv cap bl ff m -> 0 < units <= MAX_ALLOC_SIZE -> 1 <= ua <= 64 -> cap * U < 2 ^ 32 ->
  forall fuel start, 0 <= start <= cap + 64 -> (ua | start) -> cap - start <= Z.of_nat fuel ->
  exists r ff' m', allocate_loop U fuel start units ua cap ff m = Ok ((r, ff'), m') /\
  ((exists s, r = Success (s * U) /\ start <= s /\ s + units <= cap /\ (ua | s) /\
      (forall q, s <= q < s + units -> bit_at (alloc_map m) q = false) /\
      length (alloc_map m') = length (alloc_map m) /\ map_inv cap (<[s := units]> bl) ff' m') \/
   (r = Err OutOfMemory /\ ff' = ff /\ m' = m /\
      (start + units <= cap -> ~ forall q, start <= q -> bit_at (alloc_map m) q = false))).
Proof.
  intros Hi Hunits Hua Hcap. pose proof (inv_cap _ _ _ _ Hi) as Hw.
  pose proof U_range as HU. unfold MAX_ALLOC_SIZE in Hunits.
  induction fuel as [|fuel IH]; intros start Hst Hdiv Hfuel; cbn [allocate_loop];
    rewrite (bind_ok _ _ _ _ _ (u32_checked_ok (start + units) m ltac:(lia)));
    destruct (Z.leb_spec (start + units) cap) as [Hle|Hgt].
  1: lia.
  1,3: exists (Err OutOfMemory), ff, m; split; [done|]; right; split_and!; [done..|lia].
  erewrite bind_ok by (apply u32_checked_ok; nia).
  destruct (test_ok start units m ltac:(lia) ltac:(lia) ltac:(lia)) as (free & Ht & Hfree).
  rewrite (bind_ok _ _ _ _ _ Ht). destruct free.
  - apply proj1 in Hfree. specialize (Hfree eq_refl).
    destruct (mark_allocated_ok start units m ltac:(lia) ltac:(lia) ltac:(lia) ltac:(lia)
      (inv_len _ _ _ _ Hi)) as (m' & Hm & Ha & Hb).
    rewrite (bind_ok _ _ _ _ _ Hm). eexists _, _, _. split; [reflexivity|]. left.
    exists start. split_and!; try done; try lia; [apply Ha|].
    eapply insert_block; eauto; lia.
  - pose proof (next_multiple_spec (start + units) ua ltac:(lia) ltac:(lia)) as [Hn1 Hn2].
    erewrite bind_ok by (apply u32_checked_ok; lia).
    destruct (IH (next_multiple_of (start + units) ua) ltac:(lia) Hn2 ltac:(lia))
      as (r & ff' & m' & -> & Hr).
    exists r, ff', m'. split; [done|].
    destruct Hr as [(s & Hs1 & Hs2 & Hs3)|(-> & -> & -> & _)].
    + left. exists s. split_and!; try done; try lia; apply Hs3.
    + right. split_and!; try done. intros _ H. apply proj2 in Hfree.
      discriminate Hfree. intros q Hq. apply H. lia.
Qed.

Lemma represents_words b bl : represents b bl ->
  length (alloc_map (maps b)) = Z.to_nat (alloc_words b) /\
  (Z.to_nat (alloc_words b) <= length (array b))%nat.
Proof. intros (Hl & _ & _). unfold maps. simpl. rewrite length_take. lia. Qed.

(** An operation on the maps, seen from the bitmap. *)
Lemma on_map_ok {A} (op : Z -> M AllocMap (A * Z)) b bl bl' a ff' m' :
  represents b bl -> op (first_free b) (maps b) = Ok ((a, ff'), m') ->
  length (alloc_map m') = length (alloc_map (maps b)) -> map_inv (capacity b) bl' ff' m' ->
  exists b', on_map op b = Ok (a, b') /\ represents b' bl' /\ size b' = size b.
Proof.
  intros Hr Hop Hlen Hi. pose proof (represents_words b bl Hr) as [Hl1 Hl2].
  unfold on_map. rewrite (proj2 (Nat.leb_le _ _) Hl2). fold (maps b). rewrite Hop.
  eexists. split; [done|]. split; [|done]. destruct Hr as (Hla & Hsize & _).
  pose proof (inv_len _ _ _ _ Hi) as Hlb. unfold represents, maps. simpl. split_and!.
  - rewrite length_app. lia.
  - lia.
  - lia.
  - rewrite take_app_length', drop_app_length' by lia. by destruct m'.
Qed.

Lemma represents_capacity b bl : represents b bl -> capacity b * U < 2 ^ 32.
Proof.
  intros (_ & Hs & _). pose proof U_range. unfold capacity.
  pose proof (Z.mul_div_le (size b) U ltac:(lia)). lia.
Qed.

Lemma empty_blocks_free b bl : represents b bl -> bl = ∅ ->
  first_free b = 0 /\ forall q, 0 <= q -> bit_at (alloc_map (maps b)) q = false.
Proof.
  intros (_ & _ & Hi) ->.
  assert (forall q, 0 <= q -> bit_at (alloc_map (maps b)) q = false) as Hq.
  { intros q Hq. apply not_true_is_false. rewrite (inv_alloc _ _ _ _ Hi) by done.
    intros (s & n & H & _). by rewrite lookup_empty in H. }
  split; [|done]. destruct (inv_first _ _ _ _ Hi) as [Hf1 Hf2].
  destruct (decide (first_free b = 0)); [done|]. specialize (Hf2 0 ltac:(lia)).
  by rewrite Hq in Hf2.
Qed.

(** Alignment to units of a power of two that is a multiple of the unit. *)
Lemma align_units align s :
  (exists j, 0 <= j /\ align = 2 ^ j) -> (Z.max align U / U | s) -> (align | s * U).
Proof.
  intros (j & Hj & ->). destruct U_pow2 as (k & Hk & ->). intros Hd.
  destruct (decide (k <= j)).
  - rewrite Z.max_l in Hd by (apply Z.pow_le_mono_r; lia).
    assert (2 ^ j = 2 ^ (j - k) * 2 ^ k) as Hjk by (rewrite <- Z.pow_add_r by lia; f_equal; lia).
    rewrite Hjk in Hd. rewrite Z.div_mul in Hd by (apply Z.pow_nonzero; lia).
    rewrite Hjk. by apply Z.mul_divide_mono_r.
  - apply Z.divide_mul_r. exists (2 ^ (k - j)). rewrite <- Z.pow_add_r by lia. f_equal. lia.
Qed.

(** The units a request asks for and their alignment are small numbers. *)
Lemma request_units sz : 0 < sz <= MAX_ALLOC_SIZE -> 0 < div_ceil sz U <= MAX_ALLOC_SIZE.
Proof.
  pose proof U_range. unfold div_ceil, MAX_ALLOC_SIZE. split.
  - apply Z.div_str_pos. lia.
  - apply Z.lt_succ_r, Z.div_lt_upper_bound; nia.
Qed.

Lemma request_align align : Z.max align U <= CACHELINE_SIZE -> 1 <= Z.max align U / U <= 64.
Proof.
  pose proof U_range. unfold CACHELINE_SIZE. split.
  - apply Z.div_le_lower_bound; lia.
  - apply Z.div_le_upper_bound; nia.
Qed.

Lemma allocate_refused b bl layout e :
  represents b bl -> alloc_step (capacity b) layout bl (Err e) bl ->
  alloc_map_allocate U layout (size b) (first_free b) (maps b) = Ok ((Err e, first_free b), maps b) ->
  exists r b' bl', allocate U layout b = Ok (r, b') /\ represents b' bl' /\
  size b' = size b /\ alloc_step (capacity b) layout bl r bl'.
Proof.
  intros Hr Hstep Hop. unfold allocate. run.
  destruct (on_map_ok _ b bl bl _ _ _ Hr Hop eq_refl (proj2 (proj2 Hr))) as (b' & ? & ? & ?).
  eauto 7.
Qed.

(** With no block the first probe is at 0 and is free. *)
Lemma full_not_empty b bl units ua :
  represents b bl -> 1 <= ua ->
  (next_multiple_of (first_free b) ua + units <= capacity b ->
     ~ forall q, next_multiple_of (first_free b) ua <= q -> bit_at (alloc_map (maps b)) q = false) ->
  bl <> ∅ \/ capacity b < units.
Proof.
  intros Hr Hua Hfull. destruct (decide (bl = ∅)) as [He|]; [right|by left].
  destruct (empty_blocks_free b bl Hr He) as [Hf0 Hq]. rewrite Hf0 in Hfull.
  replace (next_multiple_of 0 ua) with 0 in Hfull
    by (unfold next_multiple_of, div_ceil; rewrite Z.div_small by lia; lia).
  destruct (decide (units <= capacity b)); [|lia]. by destruct Hfull; [lia|].
Qed.

(** C15. [allocate] refines the specification [alloc_step]: from a bitmap that
    represents some blocks it answers without a panic, and what it leaves
    represents the blocks that the specification allows for this answer: on
    success one more block, of the size asked for, aligned, inside of the
    capacity and disjoint from all others; on an error the same blocks. *)
Theorem allocate_refines b bl layout :
  represents b bl -> 0 <= layout_size layout ->
  (exists j, 0 <= j /\ layout_align layout = 2 ^ j) ->
  exists r b' bl', allocate U layout b = Ok (r, b') /\ represents b' bl' /\
  size b' = size b /\ alloc_step (capacity b) layout bl r bl'.
Proof.
  intros Hr Hsize Halign. pose proof U_range as HU.
  destruct (decide (layout_size layout = 0 \/ MAX_ALLOC_SIZE < layout_size layout)) as [Hbad|Hok].
  { eapply allocate_refused; [done|by apply alloc_bad_size|]. unfold alloc_map_allocate.
    by replace (_ || _) with true by lia. }
  destruct (decide (CACHELINE_SIZE < Z.max (layout_align layout) U)) as [Hbad|Hal].
  { eapply allocate_refused; [done|by apply alloc_bad_align|]. unfold alloc_map_allocate.
    replace (_ || _) with false by lia. by replace (CACHELINE_SIZE <? _) with true by lia. }
  pose proof (request_align (layout_align layout) ltac:(lia)) as Hua.
  pose proof (request_units (layout_size layout) ltac:(lia)) as Hun.
  set (ua := Z.max (layout_align layout) U / U) in *.
  set (units := div_ceil (layout_size layout) U) in *.
  pose proof Hr as (_ & Hsz & Hi). pose proof (inv_first _ _ _ _ Hi) as [Hff _].
  pose proof (inv_cap _ _ _ _ Hi) as Hcap.
  destruct (next_multiple_spec (first_free b) ua ltac:(lia) ltac:(lia)) as [Hn1 Hn2].
  destruct (allocate_loop_ok (capacity b) bl (first_free b) (maps b) units ua Hi Hun Hua
    (represents_capacity b bl Hr) (Z.to_nat (capacity b)) (next_multiple_of (first_free b) ua)
    ltac:(lia) Hn2 ltac:(lia)) as (r & ff' & m' & Hloop & Hcase).
  assert (alloc_map_allocate U layout (size b) (first_free b) (maps b) = Ok ((r, ff'), m')) as Hop.
  { unfold alloc_map_allocate. replace (_ || _) with false by lia.
    replace (CACHELINE_SIZE <? _) with false by lia. fold ua units.
    erewrite bind_ok by (apply u32_checked_ok; lia). exact Hloop. }
  destruct Hcase as [(s & -> & Hs1 & Hs2 & Hs3 & Hfree & Hlen & Hi')|(-> & -> & -> & Hfull)].
  - unfold allocate. run.
    destruct (on_map_ok _ b bl _ _ _ _ Hr Hop Hlen Hi') as (b' & Hb' & Hr' & Hs').
    exists (Success (s * U)), b', (<[s := units]> bl). split_and!; try done.
    apply alloc_at; try done; try lia; [by apply align_units|].
    eapply free_range_disjoint; eauto; lia.
  - eapply allocate_refused; [done| |done]. apply alloc_full. eapply full_not_empty; eauto. lia.
Qed.

(** A unit has both its bits set exactly when a block starts there. *)
Lemma block_start cap bl ff m unit :
  map_inv cap bl ff m -> 0 <= unit ->
  bit_at (alloc_map m) unit && bit_at (bound_map m) unit = true <-> is_Some (bl !! unit).
Proof.
  intros Hi Hu. rewrite andb_true_iff, (inv_alloc _ _ _ _ Hi) by done. split.
  - intros [(s & n & Hs & Hr) Hb]. destruct (inv_bound _ _ _ _ Hi s n Hs) as (_ & _ & Hin).
    destruct (decide (s = unit)) as [->|]; [eauto|]. by rewrite Hin in Hb by lia.
  - intros [n Hn]. destruct (inv_block _ _ _ _ Hi _ _ Hn) as (? & ? & ?).
    destruct (inv_bound _ _ _ _ Hi _ _ Hn) as (Hb & _). split; [|done]. exists unit, n. split; [done|lia].
Qed.

Lemma alloc_map_deallocate_ok cap bl ff m unit :
  map_inv cap bl ff m -> 0 <= unit <= cap ->
  (exists n m', bl !! unit = Some n /\
     alloc_map_deallocate U unit ff m = Ok ((Success tt, Z.min ff unit), m') /\
     length (alloc_map m') = length (alloc_map m) /\ map_inv cap (delete unit bl) (Z.min ff unit) m') \/
  (bl !! unit = None /\
     alloc_map_deallocate U unit ff m = Ok ((Err (InvalidAllocationOffset (unit * U)), ff), m)).
Proof.
  intros Hi Hu. pose proof (inv_cap _ _ _ _ Hi) as Hc. pose proof (inv_len _ _ _ _ Hi) as Hl.
  pose proof (split_position unit ltac:(lia)) as (_ & _ & Hb).
  pose proof (position_word (alloc_map m) unit 1 ltac:(lia) ltac:(lia) ltac:(lia)) as Hw.
  pose proof (block_start cap bl ff m unit Hi ltac:(lia)) as Hstart. unfold bit_at in Hstart.
  assert (alloc_map_deallocate U unit ff m =
    if bool_decide (is_Some (bl !! unit)) then
      (last ← find_boundary (bit_index_new unit) ;
       mark_free (bit_index_new unit) last ;; ret (Success tt, Z.min ff unit)) m
    else Ok ((Err (InvalidAllocationOffset (unit * U)), ff), m)) as ->.
  { unfold alloc_map_deallocate. cbn [index bit bit_index_new]. unfold bind at 1 2, gets.
    rewrite get_word_ok, land_one_bit_zero by lia.
    destruct (Z.testbit (word_at (alloc_map m) (unit / WORD_BITS)) (unit mod WORD_BITS));
      simpl negb; cbv iota.
    - run. rewrite get_word_ok, land_one_bit_zero, negb_involutive by lia. simpl in Hstart.
      destruct (Z.testbit _ _); [by rewrite bool_decide_true by (by apply Hstart)|].
      rewrite bool_decide_false; [done|]. by rewrite <- Hstart.
    - run. simpl. rewrite bool_decide_false; [done|]. by rewrite <- Hstart. }
  destruct (bl !! unit) as [n|] eqn:Hn; [left|by right].
  destruct (inv_block _ _ _ _ Hi _ _ Hn) as (? & ? & ?).
  destruct (inv_bound _ _ _ _ Hi _ _ Hn) as (_ & Hend & Hin).
  assert (bit_count (bound_map m) = bit_count (alloc_map m)) as Hbc by (unfold bit_count; congruence).
  rewrite bool_decide_true by eauto.
  rewrite (bind_ok _ _ _ _ _ (find_boundary_ok unit (unit + n) m ltac:(lia) ltac:(lia) Hend Hin)).
  destruct (mark_free_ok unit (unit + n) m ltac:(lia) ltac:(lia) ltac:(lia) ltac:(lia))
    as (m' & Hm & Hbm & Ha).
  rewrite (bind_ok _ _ _ _ _ Hm). exists n, m'. split_and!; [done..|apply Ha|].
  replace (unit + n - unit) with n in Ha by lia. by eapply delete_block.
Qed.

(** C16. [deallocate] refines the specification [dealloc_step] without a panic:
    given the offset of a live block it frees the units of that block and
    nothing else; any other offset, such as one inside of a block or one freed
    before, is refused and leaves the blocks as they were. *)
Theorem deallocate_refines b bl offset :
  represents b bl -> 0 <= offset ->
  exists r b' bl', deallocate U offset b = Ok (r, b') /\ represents b' bl' /\
  size b' = size b /\ dealloc_step offset bl r bl'.
Proof.
  intros Hr Ho. pose proof U_range as HU. pose proof Hr as (_ & Hsz & Hi).
  unfold deallocate. rewrite (bind_ok _ _ _ _ _ (eq_refl : gets size b = Ok (size b, b))).
  pose proof (inv_block _ _ _ _ Hi) as Hblock.
  destruct (decide (size b <= offset \/ offset mod U <> 0)) as [Hbad|Hok].
  { replace (_ || _) with true by lia. exists (Err (InvalidAllocationOffset offset)), b, bl.
    split_and!; try done. apply dealloc_bad. intros s n -> Hs.
    destruct Hbad as [Hb|Hb]; [|by rewrite Z.mod_mul in Hb by lia].
    destruct (Hblock s n Hs) as (? & ? & Hc). unfold capacity in Hc.
    pose proof (Z.mul_div_le (size b) U ltac:(lia)). nia. }
  replace (_ || _) with false by lia. set (unit := offset / U).
  assert (offset = unit * U) as Hou by (unfold unit; pose proof (Z.div_mod offset U); lia).
  assert (0 <= unit <= capacity b) as Hunit.
  { unfold capacity, unit. split; [apply Z.div_pos; lia|]. apply Z.div_le_mono; lia. }
  destruct (alloc_map_deallocate_ok _ bl _ _ unit Hi Hunit)
    as [(n & m' & Hn & Hop & Hlen & Hi')|[Hn Hop]].
  - destruct (on_map_ok _ b bl _ _ _ _ Hr Hop Hlen Hi') as (b' & Hb' & Hr' & Hs').
    exists (Success tt), b', (delete unit bl). split_and!; try done. by eapply dealloc_at.
  - destruct (on_map_ok _ b bl bl _ _ _ Hr Hop eq_refl Hi) as (b' & Hb' & Hr' & Hs').
    exists (Err (InvalidAllocationOffset (unit * U))), b', bl. split_and!; try done.
    rewrite <- Hou. apply dealloc_bad. intros s n Hsn. assert (s = unit) as -> by nia. by rewrite Hn.
Qed.

Lemma U_accepted : is_power_of_two U = true.
Proof.
  destruct U_pow2 as (k & Hk & ->).
  assert (k = 0 \/ k = 1 \/ k = 2 \/ k = 3 \/ k = 4 \/ k = 5 \/ k = 6) as Hcase by lia.
  by repeat destruct Hcase as [->|Hcase]; subst.
Qed.

Lemma bit_at_zero n p : bit_at (replicate n 0) p = false.
Proof.
  unfold bit_at, word_at. destruct (replicate n 0 !! Z.to_nat (p / WORD_BITS)) as [w|] eqn:Hw;
    [apply lookup_replicate in Hw as [-> _]|]; apply Z.bits_0.
Qed.

(** A bitmap with enough words and no bit set has no block. *)
Lemma zero_represents sz words :
  0 <= sz < 2 ^ 32 -> 0 <= words <= 65535 -> sz / U + 1 <= words * WORD_BITS ->
  represents {| array := replicate (Z.to_nat (words + words)) 0; size := sz;
                alloc_words := words; first_free := 0 |} ∅.
Proof.
  intros Hsz Hwords Hle. pose proof U_range. unfold represents, capacity, maps. simpl.
  rewrite length_replicate, take_replicate, drop_replicate. split; [lia|]. split; [done|].
  assert (0 <= sz / U) by (apply Z.div_pos; lia). unfold WORD_BITS in Hle.
  split; unfold bit_count, WORD_BITS; simpl; rewrite ?length_replicate; try lia.
  - by intros s n Hs%lookup_empty_Some.
  - by intros s n s' n' Hs%lookup_empty_Some.
  - intros p Hp. rewrite bit_at_zero. split; [done|]. by intros (s & n & Hs%lookup_empty_Some & _).
  - by intros s n Hs%lookup_empty_Some.
  - split; [lia|]. intros; lia.
Qed.

(** C40. For every size that needs at most 65535 words, [try_new] answers
    without a panic: sizes that are zero or not a multiple of the unit are
    refused, a failed allocation is reported, and otherwise the bitmap built
    has the size asked for and represents no block. *)
Theorem try_new_represents {S} memory sz (s : S) :
  0 <= sz < 2 ^ 32 -> sz / U + 1 <= 65535 * WORD_BITS ->
  exists r, try_new U memory sz s = Ok (r, s) /\
  match r with
  | Success b => memory = true /\ sz <> 0 /\ (U | sz) /\ size b = sz /\ represents b ∅
  | Err e => e = OutOfMemory /\ memory = false \/ e = InvalidSize sz /\ (sz = 0 \/ ~ (U | sz))
  end.
Proof.
  intros Hsz Hw. pose proof U_range as HU. unfold try_new. rewrite U_accepted.
  replace (CACHELINE_SIZE <? U) with false by (unfold CACHELINE_SIZE; lia).
  assert (sz mod U = 0 <-> (U | sz)) as Hdiv by (by rewrite Z.mod_divide by lia).
  destruct (Z.eqb_spec sz 0), (Z.eqb_spec (sz mod U) 0) as [Hm|Hm]; cbn [orb negb];
    try (eexists; split; [done|]; right; split; [done|]; (by left) || (right; by rewrite <- Hdiv)).
  assert (0 <= sz / U) by (apply Z.div_pos; lia). unfold WORD_BITS in Hw.
  erewrite bind_ok by (apply u32_checked_ok; lia).
  destruct memory; simpl; (eexists; split; [done|]); [|by left].
  assert (0 <= word_count (sz / U + 1) <= 65535) as Hwc
    by (unfold word_count, div_ceil, WORD_BITS; Z.div_mod_to_equations; lia).
  rewrite wrap_small by lia. split_and!; [done|done|by apply Hdiv|done|].
  apply zero_represents; [done|lia|].
  unfold word_count, div_ceil, WORD_BITS. Z.div_mod_to_equations. lia.
Qed.
End refinement.

Lemma unit_8 : exists k, 0 <= k <= 6 /\ 8 = 2 ^ k.
Proof. by exists 3. Qed.

Definition example_bitmap : Bitmap :=
  {| array := replicate 8 0; size := 800; alloc_words := 4; first_free := 0 |}.

Lemma allocate_refines_witness :
  exists r b' bl', allocate 8 {| layout_size := 20; layout_align := 16 |} example_bitmap = Ok (r, b') /\
  represents 8 b' bl' /\ size b' = 800 /\
  alloc_step 8 100 {| layout_size := 20; layout_align := 16 |} ∅ r bl'.
Proof.
  apply (allocate_refines 8 unit_8 example_bitmap ∅ {| layout_size := 20; layout_align := 16 |}).
  - apply (zero_represents 8 unit_8 800 4); [lia|lia|by vm_compute].
  - simpl. lia.
  - by exists 4.
Defined.

(** The same bitmap with a block of three units at its start. *)
Definition example_block : Bitmap :=
  {| array := [7; 0; 0; 0; 9; 0; 0; 0]; size := 800; alloc_words := 4; first_free := 3 |}.

Lemma example_block_represents : represents 8 example_block {[0 := 3]}.
Proof.
  destruct (zero_represents 8 unit_8 800 4) as (_ & _ & Hi); [lia|lia|by vm_compute|].
  destruct (mark_allocated_ok 0 3 (maps example_bitmap)) as (m' & Hm & Ha & Hb); try done; try lia.
  vm_compute in Hm. injection Hm as <-.
  split; [done|]. split; [simpl; lia|].
  apply (insert_block _ _ _ _ 0 3 _ _ Hi); try done; try lia.
  intros q Hq. apply (bit_at_zero 4).
Qed.

Lemma deallocate_refines_witness :
  exists r b' bl', deallocate 8 0 example_block = Ok (r, b') /\
  represents 8 b' bl' /\ size b' = 800 /\ dealloc_step 8 0 {[0 := 3]} r bl'.
Proof.
  apply (deallocate_refines 8 unit_8 example_block {[0 := 3]} 0); [|lia].
  apply example_block_represents.
Defined.

Lemma try_new_represents_witness :
  exists r, try_new 8 true 800 tt = Ok (r, tt) /\
  match r with
  | Success b => true = true /\ 800 <> 0 /\ (8 | 800) /\ size b = 800 /\ represents 8 b ∅
  | Err e => e = OutOfMemory /\ true = false \/ e = InvalidSize 800 /\ (800 = 0 \/ ~ (8 | 800))
  end.
Proof.
  apply (try_new_represents 8 unit_8 true 800 tt); [lia|by vm_compute].
Defined.

(** The number of words is cut to 16 bits: the array of a bitmap of 2^22 units
    has one word for the units and one for the ends, and its second word of
    units is outside of it. *)
Lemma try_new_truncated :
  try_new 1 true (2 ^ 22) tt =
    Ok (Success {| array := [0; 0]; size := 2 ^ 22; alloc_words := 1; first_free := 0 |}, tt) /\
  allocate 1 {| layout_size := 65; layout_align := 1 |}
    {| array := [0; 0]; size := 2 ^ 22; alloc_words := 1; first_free := 0 |} = Undef.
Proof. split; vm_compute; reflexivity. Qed.
