(* ===== verification/RbTree.v ===== *)
(** * The red-black tree (src/lib/rust/rbtree.rs and src/lib/rust/rbtree)

    The tree is intrusive: the nodes belong to the caller and the tree links
    them through raw pointers.  The model keeps those pointers: a heap from
    addresses to nodes, and the root.  The parent pointer of a node carries the
    colour in its lowest bit, since nodes are aligned to 4 bytes.

    Modelled is [RbTree<K>], whose augmentation hooks ([recalc], [propagate],
    [link_ext], [unlink_ext], [init]) do nothing.  The keys are any type with a
    lawful [Ord].  Following a pointer to no node, a failed [unwrap] or
    [expect], and a failed assertion (the debug ones too) are [Undef]. *)

From stdpp Require Import base gmap.
From S2P Require Import Prelude CMonad.
Local Open Scope Z_scope.

(** The trait [Ord]. *)
Class Ord (K : Type) : Type := {
  cmp : K -> K -> comparison;
  cmp_eq x y : cmp x y = Eq <-> x = y;
  cmp_opp x y : cmp y x = CompOpp (cmp x y);
  cmp_trans x y z : cmp x y = Lt -> cmp y z = Lt -> cmp x z = Lt
}.

#[export] Instance Z_ord : Ord Z := {|
  cmp := Z.compare;
  cmp_eq := Z.compare_eq_iff;
  cmp_opp x y := Z.compare_antisym x y;
  cmp_trans := Z.lt_trans
|}.

(** ** A parent pointer with a colour *)

Abbreviation ptr := Z.

Inductive RbColor : Set := Red | Black.
#[export] Instance RbColor_eq_dec : EqDecision RbColor.
Proof. solve_decision. Defined.

Definition null_node : Z := 0.
Definition with_color (node : ptr) (color : RbColor) : Z :=
  match color with Black => node | Red => Z.lor node 0x01 end.
Definition get_node_ptr (w : Z) : ptr := Z.ldiff w 0x01.
Definition word_set_parent (w : Z) (parent : ptr) : Z :=
  Z.lor (Z.land w 0x01) (Z.ldiff parent 0x01).
Definition word_set_color (w : Z) (color : RbColor) : Z :=
  match color with Black => Z.ldiff w 0x01 | Red => Z.lor w 0x01 end.
Definition word_color (w : Z) : RbColor := if truth (Z.land w 0x01) then Red else Black.

(** [NonNull::new]. *)
Definition non_null (p : ptr) : option ptr := if p =? 0 then None else Some p.

Section rbtree.
Context {K : Type} `{Ord K}.

(** ** Nodes and memory *)

Record RbNode : Type := Rb_node {
  parent : Z;
  left : option ptr;
  right : option ptr;
  key : K
}.

Record RbTree : Type := Rb_tree {
  heap : gmap Z RbNode;
  root : option ptr
}.

Definition rb_node_new (k : K) : RbNode := Rb_node null_node None None k.
Definition rb_tree_new : RbTree := Rb_tree ∅ None.

Definition deref (p : ptr) : M RbTree RbNode := s ← gets heap ; of_option (s !! p).

Definition write (p : ptr) (n : RbNode) : M RbTree unit :=
  modify (fun s => Rb_tree (<[p := n]> (heap s)) (root s)).

Definition on_node (p : ptr) (f : RbNode -> RbNode) : M RbTree unit :=
  n ← deref p ; write p (f n).

Definition set_root (r : option ptr) : M RbTree unit := modify (fun s => Rb_tree (heap s) r).

(** [Option::expect] and [Option::unwrap]. *)
Definition expect {A} (o : option A) : M RbTree A := of_option o.

Definition put_parent (w : Z) (n : RbNode) : RbNode := Rb_node w (left n) (right n) (key n).
Definition put_left (p : option ptr) (n : RbNode) : RbNode := Rb_node (parent n) p (right n) (key n).
Definition put_right (p : option ptr) (n : RbNode) : RbNode := Rb_node (parent n) (left n) p (key n).

Definition get_color (n : RbNode) : RbColor := word_color (parent n).
Definition get_parent (n : RbNode) : option ptr := non_null (get_node_ptr (parent n)).
Definition get_parent_and_color (n : RbNode) : option ptr * RbColor := (get_parent n, get_color n).

Definition set_color (p : ptr) (c : RbColor) : M RbTree unit :=
  on_node p (fun n => put_parent (word_set_color (parent n) c) n).
Definition set_parent (p q : ptr) : M RbTree unit :=
  on_node p (fun n => put_parent (word_set_parent (parent n) q) n).
Definition update (p : ptr) (l r : option ptr) : M RbTree unit :=
  on_node p (fun n => Rb_node (parent n) l r (key n)).
Definition set_child (p : ptr) (is_left : bool) (child : option ptr) : M RbTree unit :=
  on_node p (if is_left then put_left child else put_right child).

(** Is [o] the pointer [p]? *)
Definition points_to (o : option ptr) (p : ptr) : bool :=
  match o with Some q => q =? p | None => false end.

(** [if let Some(p) = o { f p }]. *)
Definition if_some (o : option ptr) (f : ptr -> M RbTree unit) : M RbTree unit :=
  match o with Some p => f p | None => ret tt end.

(** ** Rotations (misc.rs) *)

Definition right_rotate (self l : ptr) : M RbTree ptr :=
  n ← deref l ;
  let left_right := right n in
  update l (left n) (Some self) ;;
  n ← deref l ; s ← deref self ;
  let p := parent s in
  on_node self (put_parent (with_color l (get_color n))) ;;
  on_node l (put_parent p) ;;
  s ← deref self ;
  update self left_right (right s) ;;
  if_some left_right (fun lr => set_parent lr self) ;;
  ret l.

Definition left_rotate (self r : ptr) : M RbTree ptr :=
  n ← deref r ;
  let right_left := left n in
  update r (Some self) (right n) ;;
  n ← deref r ; s ← deref self ;
  let p := parent s in
  on_node self (put_parent (with_color r (get_color n))) ;;
  on_node r (put_parent p) ;;
  s ← deref self ;
  update self (left s) right_left ;;
  if_some right_left (fun rl => set_parent rl self) ;;
  ret r.

(** ** Search

    The depth of a tree is at most the number of nodes in memory, so that many
    turns are enough. *)

Definition fuel : M RbTree nat := s ← gets heap ; ret (Datatypes.S (size s)).

Fixpoint search_loop (n : nat) (current : option ptr) (k : K)
    (result : option (ptr * comparison)) : M RbTree (option (ptr * comparison)) :=
  match current with
  | None => ret result
  | Some node_ptr =>
    match n with
    | O => no_fuel
    | Datatypes.S n =>
      node ← deref node_ptr ;
      let ordering := cmp k (key node) in
      let result := Some (node_ptr, ordering) in
      match ordering with
      | Eq => ret result
      | Lt => search_loop n (left node) k result
      | Gt => search_loop n (right node) k result
      end
    end
  end.

Definition search_closest_and_recalc (self : ptr) (k : K) : M RbTree (option (ptr * comparison)) :=
  n ← fuel ; search_loop n (Some self) k None.

Definition search_closest (k : K) : M RbTree (option (ptr * comparison)) :=
  r ← gets root ;
  match r with
  | Some root_ptr => search_closest_and_recalc root_ptr k
  | None => ret None
  end.

Definition search_exact (k : K) : M RbTree (option ptr) :=
  r ← search_closest k ;
  ret (match r with Some (v, Eq) => Some v | _ => None end).

(** ** Checks *)

Fixpoint relation_assert_loop (n : nat) (p : ptr) : M RbTree unit :=
  match n with
  | O => no_fuel
  | Datatypes.S n =>
    node ← deref p ;
    if_some (left node) (fun l =>
      ln ← deref l ; defined_if (points_to (get_parent ln) p) ;; relation_assert_loop n l) ;;
    if_some (right node) (fun r =>
      rn ← deref r ; defined_if (points_to (get_parent rn) p) ;; relation_assert_loop n r)
  end.

Definition relation_assert (p : ptr) : M RbTree unit := n ← fuel ; relation_assert_loop n p.

Fixpoint validation_loop (n : nat) (p : ptr) (node : option ptr) (black_height : Z) : M RbTree Z :=
  match node with
  | None => ret (black_height + 1)
  | Some node =>
    match n with
    | O => no_fuel
    | Datatypes.S n =>
      nd ← deref node ;
      defined_if (points_to (get_parent nd) p) ;;
      let black_height :=
        match get_color nd with Black => black_height + 1 | Red => black_height end in
      (match get_color nd with
       | Red => pn ← deref p ; defined_if (bool_decide (get_color pn <> Red))
       | Black => ret tt
       end) ;;
      left_black_height ← validation_loop n node (left nd) black_height ;
      right_black_height ← validation_loop n node (right nd) black_height ;
      defined_if (left_black_height =? right_black_height) ;;
      ret left_black_height
    end
  end.

Definition validation (p : ptr) (node : option ptr) (black_height : Z) : M RbTree Z :=
  n ← fuel ; validation_loop n p node black_height.

(** ** Insertion (rbtree.rs, insert.rs) *)

Definition link_node (self new_node : ptr) (order : comparison) : M RbTree unit :=
  (match order with
   | Lt | Eq => on_node self (put_left (Some new_node))
   | Gt => on_node self (put_right (Some new_node))
   end) ;;
  on_node new_node (put_parent (with_color self Red)).

Record InsertFixupContext : Type := Fixup_context {
  cur_node : ptr;
  uncle : option ptr;
  ctx_parent : ptr;
  grandparent : ptr;
  is_left : bool;
  parent_is_left : bool
}.

Definition new_with_parent (cur parent_ptr : ptr) : M RbTree (option InsertFixupContext) :=
  p ← deref parent_ptr ;
  if get_node_ptr (parent p) =? 0 then
    set_color parent_ptr Black ;; ret None
  else
    let is_left := points_to (left p) cur in
    gp ← expect (get_parent p) ;
    g ← deref gp ;
    let '(parent_is_left, uncle) :=
      if points_to (left g) parent_ptr then (true, right g) else (false, left g) in
    ret (Some (Fixup_context cur uncle parent_ptr gp is_left parent_is_left)).

Definition context_new (current : ptr) : M RbTree (option InsertFixupContext) :=
  n ← deref current ;
  match get_parent n with
  | None => ret None
  | Some p => new_with_parent current p
  end.

(** The colour of a node that may be missing. *)
Definition color_of (o : option ptr) : M RbTree (option RbColor) :=
  match o with
  | Some p => n ← deref p ; ret (Some (get_color n))
  | None => ret None
  end.

(** The four rotations; returns the new root of the subtree. *)
Definition fixup_rotate (ctx : InsertFixupContext) : M RbTree ptr :=
  match is_left ctx, parent_is_left ctx with
  | true, true => right_rotate (grandparent ctx) (ctx_parent ctx)
  | false, false => left_rotate (grandparent ctx) (ctx_parent ctx)
  | true, false =>
    p ← right_rotate (ctx_parent ctx) (cur_node ctx) ; left_rotate (grandparent ctx) p
  | false, true =>
    p ← left_rotate (ctx_parent ctx) (cur_node ctx) ; right_rotate (grandparent ctx) p
  end.

Fixpoint fixup_loop (n : nat) (ctx : InsertFixupContext) : M RbTree unit :=
  p ← deref (ctx_parent ctx) ;
  match get_color p with
  | Black => ret tt
  | Red =>
    uncle_color ← color_of (uncle ctx) ;
    match uncle ctx, uncle_color with
    | Some u, Some Red =>
      set_color (ctx_parent ctx) Black ;;
      set_color u Black ;;
      set_color (grandparent ctx) Red ;;
      next ← context_new (grandparent ctx) ;
      match next, n with
      | None, _ => ret tt
      | Some _, O => no_fuel
      | Some ctx, Datatypes.S n => fixup_loop n ctx
      end
    | _, _ =>
      g ← deref (grandparent ctx) ;
      let ggp := get_parent g in
      new_grandparent ← fixup_rotate ctx ;
      match ggp with
      | Some ggp =>
        gg ← deref ggp ;
        set_child ggp (points_to (left gg) (grandparent ctx)) (Some new_grandparent)
      | None =>
        on_node new_grandparent (put_parent null_node) ;;
        set_root (Some new_grandparent)
      end
    end
  end.

Definition insert_fixup (self : ptr) : M RbTree unit :=
  n ← deref self ;
  match get_color n with
  | Black => ret tt
  | Red =>
    ctx ← context_new self ;
    match ctx with
    | None => ret tt
    | Some ctx =>
      m ← fuel ;
      fixup_loop m ctx ;;
      r ← gets root ;
      if_some r (fun r => set_color r Black) ;;
      r ← gets root ; r ← expect r ; relation_assert r
    end
  end.

Definition insert (new_node : ptr) : M RbTree unit :=
  n ← deref new_node ;
  defined_if (bool_decide (get_parent n = None /\ left n = None /\ right n = None)) ;;
  r ← gets root ;
  found ← (match r with
           | Some root_ptr => search_closest_and_recalc root_ptr (key n)
           | None => ret None
           end) ;
  match found with
  | Some (parent_ptr, ordering) =>
    link_node parent_ptr new_node ordering ;;
    insert_fixup new_node ;;
    r ← gets root ; _ ← expect r ; ret tt
  | None =>
    on_node new_node (put_parent null_node) ;;
    set_root (Some new_node)
  end.

(** ** Iteration in order (iter.rs) *)

(** [while let Some(l) = n.left { n = l }]. *)
Fixpoint leftmost_loop (n : nat) (p : ptr) : M RbTree ptr :=
  node ← deref p ;
  match left node, n with
  | None, _ => ret p
  | Some _, O => no_fuel
  | Some l, Datatypes.S n => leftmost_loop n l
  end.

Definition leftmost (p : ptr) : M RbTree ptr := n ← fuel ; leftmost_loop n p.

(** Up to the first ancestor that [child] is to the left of. *)
Fixpoint climb_loop (n : nat) (child : ptr) : M RbTree (option ptr) :=
  c ← deref child ;
  match get_parent c with
  | None => ret None
  | Some p =>
    pn ← deref p ;
    if points_to (left pn) child then ret (Some p) else
    match n with
    | O => no_fuel
    | Datatypes.S n => climb_loop n p
    end
  end.

Definition climb (child : ptr) : M RbTree (option ptr) := n ← fuel ; climb_loop n child.

(** The successor that [next] computes while it returns [node]. *)
Definition next_node (node : ptr) : M RbTree (option ptr) :=
  n ← deref node ;
  match right n with
  | Some r => l ← leftmost r ; ret (Some l)
  | None => climb node
  end.

(** An iterator is the node it returns next. *)
Definition into_iter (self : ptr) : M RbTree (option ptr) := n ← leftmost self ; ret (Some n).

Definition iter_next (next : option ptr) : M RbTree (option ptr * option ptr) :=
  match next with
  | None => ret (None, None)
  | Some node => nx ← next_node node ; ret (Some node, nx)
  end.

Definition iter : M RbTree (option ptr) :=
  r ← gets root ;
  match r with
  | Some r => into_iter r
  | None => ret None
  end.

(** ** Deletion (delete.rs) *)

Definition replace_child (p : option ptr) (old_child child : ptr) : M RbTree unit :=
  c ← deref child ;
  let color := get_color c in
  match p with
  | Some p =>
    pn ← deref p ;
    defined_if (points_to (left pn) old_child || points_to (right pn) old_child) ;;
    on_node child (put_parent (with_color p color)) ;;
    pn ← deref p ;
    if points_to (left pn) old_child then on_node p (put_left (Some child))
    else on_node p (put_right (Some child))
  | None =>
    on_node child (put_parent null_node) ;;
    set_root (Some child)
  end.

(** The state of the loop of [rebalance_black_height] after a red sibling has
    been rotated away. *)
Record Rebalance : Type := Rebalance_state {
  rb_grandparent : option ptr;
  rb_parent_color : RbColor;
  rb_sibling : ptr
}.

Definition is_red (c : option RbColor) : bool :=
  match c with Some Red => true | _ => false end.

(** The part of the body for a node missing on the left: a red sibling goes up
    first. *)
Definition red_sibling_left (p : ptr) : M RbTree Rebalance :=
  pn ← deref p ;
  let '(gp, color) := get_parent_and_color pn in
  sibling ← expect (right pn) ;
  sn ← deref sibling ;
  match get_color sn with
  | Red =>
    defined_if (bool_decide (left sn <> None)) ;;
    _ ← left_rotate p sibling ;
    sibling_left ← expect (left sn) ;
    replace_child gp p sibling ;;
    ret (Rebalance_state (Some sibling) Red sibling_left)
  | Black => ret (Rebalance_state gp color sibling)
  end.

Definition red_sibling_right (p : ptr) : M RbTree Rebalance :=
  pn ← deref p ;
  let '(gp, color) := get_parent_and_color pn in
  sibling ← expect (left pn) ;
  sn ← deref sibling ;
  match get_color sn with
  | Red =>
    defined_if (bool_decide (right sn <> None)) ;;
    _ ← right_rotate p sibling ;
    sibling_right ← expect (right sn) ;
    replace_child gp p sibling ;;
    ret (Rebalance_state (Some sibling) Red sibling_right)
  | Black => ret (Rebalance_state gp color sibling)
  end.

(** Both children of the sibling are black: [Some] is where the loop goes on. *)
Definition recolor_sibling (p : ptr) (st : Rebalance) : M RbTree (option (ptr * bool)) :=
  set_color (rb_sibling st) Red ;;
  match rb_parent_color st, rb_grandparent st with
  | Red, _ => set_color p Black ;; ret None
  | Black, Some gp => g ← deref gp ; ret (Some (gp, points_to (left g) p))
  | Black, None => ret None
  end.

Definition far_red_left (p sibling far : ptr) : M RbTree ptr :=
  sn ← deref sibling ;
  let close := left sn in
  _ ← left_rotate p sibling ;
  set_color far Black ;;
  if_some close (fun c => set_parent c p) ;;
  ret sibling.

Definition far_red_right (p sibling far : ptr) : M RbTree ptr :=
  sn ← deref sibling ;
  let close := right sn in
  _ ← right_rotate p sibling ;
  set_color far Black ;;
  if_some close (fun c => set_parent c p) ;;
  ret sibling.

Definition close_red_left (p sibling close : ptr) : M RbTree ptr :=
  cn ← deref close ;
  let close_right := right cn in
  let close_left := left cn in
  _ ← right_rotate sibling close ;
  _ ← left_rotate p close ;
  set_color sibling Black ;;
  if_some close_left (fun c => set_parent c p) ;;
  if_some close_right (fun c => set_parent c sibling) ;;
  ret close.

Definition close_red_right (p sibling close : ptr) : M RbTree ptr :=
  cn ← deref close ;
  let close_left := left cn in
  let close_right := right cn in
  _ ← left_rotate sibling close ;
  _ ← right_rotate p close ;
  set_color sibling Black ;;
  if_some close_left (fun c => set_parent c sibling) ;;
  if_some close_right (fun c => set_parent c p) ;;
  ret close.

Definition rebalance_left (p : ptr) : M RbTree (option (ptr * bool)) :=
  st ← red_sibling_left p ;
  sn ← deref (rb_sibling st) ;
  l ← color_of (left sn) ;
  r ← color_of (right sn) ;
  if is_red r then
    far ← expect (right sn) ;
    np ← far_red_left p (rb_sibling st) far ;
    replace_child (rb_grandparent st) p np ;; ret None
  else if is_red l then
    close ← expect (left sn) ;
    np ← close_red_left p (rb_sibling st) close ;
    replace_child (rb_grandparent st) p np ;; ret None
  else recolor_sibling p st.

Definition rebalance_right (p : ptr) : M RbTree (option (ptr * bool)) :=
  st ← red_sibling_right p ;
  sn ← deref (rb_sibling st) ;
  l ← color_of (left sn) ;
  r ← color_of (right sn) ;
  if is_red l then
    far ← expect (left sn) ;
    np ← far_red_right p (rb_sibling st) far ;
    replace_child (rb_grandparent st) p np ;; ret None
  else if is_red r then
    close ← expect (right sn) ;
    np ← close_red_right p (rb_sibling st) close ;
    replace_child (rb_grandparent st) p np ;; ret None
  else recolor_sibling p st.

Fixpoint rebalance_loop (n : nat) (p : ptr) (is_left : bool) : M RbTree unit :=
  next ← (if is_left then rebalance_left p else rebalance_right p) ;
  match next, n with
  | None, _ => ret tt
  | Some _, O => no_fuel
  | Some (p, is_left), Datatypes.S n => rebalance_loop n p is_left
  end.

Definition rebalance_black_height (p : ptr) (is_left : bool) : M RbTree unit :=
  n ← fuel ; rebalance_loop n p is_left.

(** [swap]: everything but the key. *)
Definition swap (p q : ptr) : M RbTree unit :=
  a ← deref p ; b ← deref q ;
  write p (Rb_node (parent b) (left b) (right b) (key a)) ;;
  write q (Rb_node (parent a) (left a) (right a) (key b)).

(** The node has two children: its successor takes its place.  Returns the
    successor and, when a black node went missing, where. *)
Definition delete_two (self : ptr) (l r : ptr) (parent_copy : Z)
    : M RbTree (option ptr * option (ptr * bool)) :=
  first ← into_iter r ;
  '(found, _) ← iter_next first ;
  successor ← expect found ;
  sn ← deref successor ;
  let successor_child := right sn in
  let successor_color := get_color sn in
  '(successor_parent, is_left) ←
    (if successor =? r then
       on_node successor (put_parent parent_copy) ;;
       on_node successor (put_left (Some l)) ;;
       set_parent l successor ;;
       ret (successor, false)
     else
       swap self successor ;;
       on_node successor (put_parent parent_copy) ;;
       o ← deref successor ;
       if_some (left o) (fun l => set_parent l successor) ;;
       o ← deref successor ;
       r ← expect (right o) ;
       set_parent r successor ;;
       s ← deref self ;
       sp ← expect (get_parent s) ;
       on_node sp (put_left (right s)) ;;
       ret (sp, true)) ;
  match successor_child with
  | Some c =>
    on_node c (put_parent (with_color successor_parent Black)) ;;
    ret (Some successor, None)
  | None =>
    match successor_color with
    | Black => ret (Some successor, Some (successor_parent, is_left))
    | Red => ret (Some successor, None)
    end
  end.

(** The node has one child, which takes its place and turns black. *)
Definition delete_one (child : ptr) (parent_copy : Z)
    : M RbTree (option ptr * option (ptr * bool)) :=
  on_node child (put_parent parent_copy) ;;
  set_color child Black ;;
  ret (Some child, None).

Definition delete_none (self : ptr) (p : option ptr) (color : RbColor)
    : M RbTree (option ptr * option (ptr * bool)) :=
  match p, color with
  | Some p, Black =>
    pn ← deref p ; ret (None, Some (p, points_to (left pn) self))
  | _, _ => ret (None, None)
  end.

Definition delete (self : ptr) : M RbTree unit :=
  n ← deref self ;
  let '(p, color) := get_parent_and_color n in
  let parent_copy := parent n in
  on_node self (put_parent null_node) ;;
  '(new, balance) ←
    (match left n, right n with
     | Some l, Some r => delete_two self l r parent_copy
     | Some l, None => delete_one l parent_copy
     | None, Some r => delete_one r parent_copy
     | None, None => delete_none self p color
     end) ;
  (match p with
   | Some p =>
     pn ← deref p ;
     defined_if (points_to (left pn) self || points_to (right pn) self) ;;
     (if points_to (left pn) self then on_node p (put_left new) else on_node p (put_right new)) ;;
     r ← gets root ; r ← expect r ; ret tt
   | None => set_root new
   end) ;;
  (match balance with
   | Some (bp, is_left) => rebalance_black_height bp is_left
   | None => ret tt
   end) ;;
  r ← gets root ;
  if_some r relation_assert ;;
  update self None None.

Definition delete_node (target : ptr) : M RbTree unit := delete target.

Definition delete_key (k : K) : M RbTree (option ptr) :=
  target ← search_exact k ;
  match target with
  | Some target => delete_node target ;; ret (Some target)
  | None => ret None
  end.

End rbtree.
