(* ===== verification/RbSpec.v ===== *)
(** * Red-black trees as values

    What the pointer code of RbTree.v computes, on trees and contexts: a context
    is the path from a subtree up to the root, innermost step first.  The
    repairs after an insertion and after a deletion keep the order of the
    elements and restore the red-black invariant. *)

From stdpp Require Import base tactics list sorting.
From S2P Require Import Prelude CMonad RbTree.
Local Open Scope Z_scope.

Section spec.
Context {K : Type}.

Inductive tree : Type :=
| Leaf
| Node (c : RbColor) (l : tree) (p : ptr) (k : K) (r : tree).

(** The hole is the left child of [p], or its right child. *)
Inductive frame : Type :=
| InL (c : RbColor) (p : ptr) (k : K) (r : tree)
| InR (c : RbColor) (l : tree) (p : ptr) (k : K).

Implicit Types (t l r : tree) (f : frame) (ctx : list frame).

Definition zip f t : tree :=
  match f with
  | InL c p k r => Node c t p k r
  | InR c l p k => Node c l p k t
  end.

Fixpoint plug ctx t : tree :=
  match ctx with
  | [] => t
  | f :: ctx => plug ctx (zip f t)
  end.

Definition frame_ptr f : ptr := match f with InL _ p _ _ | InR _ _ p _ => p end.
Definition frame_color f : RbColor := match f with InL c _ _ _ | InR c _ _ _ => c end.
Definition other f : tree := match f with InL _ _ _ r => r | InR _ l _ _ => l end.
Definition root_color t : RbColor := match t with Leaf => Black | Node c _ _ _ _ => c end.
Definition recolor c t : tree := match t with Leaf => Leaf | Node _ l p k r => Node c l p k r end.
Abbreviation blacken := (recolor Black).

(** ** Elements in order *)

Fixpoint elems t : list (ptr * K) :=
  match t with
  | Leaf => []
  | Node _ l p k r => elems l ++ (p, k) :: elems r
  end.

Fixpoint before ctx : list (ptr * K) :=
  match ctx with
  | [] => []
  | InL _ _ _ _ :: ctx => before ctx
  | InR _ l p k :: ctx => before ctx ++ elems l ++ [(p, k)]
  end.

Fixpoint after ctx : list (ptr * K) :=
  match ctx with
  | [] => []
  | InL _ p k r :: ctx => (p, k) :: elems r ++ after ctx
  | InR _ _ _ _ :: ctx => after ctx
  end.

Lemma elems_plug ctx : forall t, elems (plug ctx t) = before ctx ++ elems t ++ after ctx.
Proof.
  induction ctx as [|[c p k r|c l p k] ctx IH]; intros t; simpl.
  - by rewrite app_nil_r.
  - rewrite IH. simpl. by rewrite <- !app_assoc.
  - rewrite IH. simpl. by rewrite <- !app_assoc.
Qed.

Lemma elems_recolor c t : elems (recolor c t) = elems t.
Proof. by destruct t. Qed.

Lemma plug_app ctx1 ctx2 t : plug (ctx1 ++ ctx2) t = plug ctx2 (plug ctx1 t).
Proof. revert t. induction ctx1 as [|f ctx1 IH]; intros t; [done|]. apply IH. Qed.

(** ** The invariant

    [rb c n t]: the root of [t] has colour [c], every path from it to a leaf
    has [n] black nodes, and no red node has a red child.  [ctx_rb c n ctx]:
    the context accepts such a tree and then the whole is a red-black tree with
    a black root. *)

Inductive rb : RbColor -> nat -> tree -> Prop :=
| rb_leaf : rb Black 0 Leaf
| rb_red n l p k r : rb Black n l -> rb Black n r -> rb Red n (Node Red l p k r)
| rb_black cl cr n l p k r : rb cl n l -> rb cr n r -> rb Black (S n) (Node Black l p k r).

Inductive ctx_rb : RbColor -> nat -> list frame -> Prop :=
| ctx_rb_nil n : ctx_rb Black n []
| ctx_rb_red n f ctx : frame_color f = Red -> rb Black n (other f) -> ctx_rb Red n ctx ->
    ctx_rb Black n (f :: ctx)
| ctx_rb_black c co n f ctx : frame_color f = Black -> rb co n (other f) -> ctx_rb Black (S n) ctx ->
    ctx_rb c n (f :: ctx).

Lemma rb_plug ctx : forall c n t, ctx_rb c n ctx -> rb c n t -> exists m, rb Black m (plug ctx t).
Proof.
  induction ctx as [|f ctx IH]; intros c n t Hc Ht; inversion Hc; simplify_eq; simpl; [eauto| |].
  - eapply IH; [eauto|]. destruct f; simplify_eq/=; by constructor.
  - eapply IH; [eauto|]. destruct f; simplify_eq/=; by econstructor.
Qed.

Lemma rb_split ctx : forall t m, rb Black m (plug ctx t) ->
  exists c n, rb c n t /\ ctx_rb c n ctx.
Proof.
  induction ctx as [|f ctx IH]; intros t m H; simpl in *.
  - exists Black, m. split; [done|constructor].
  - apply IH in H as (c & n & Ht & Hc). destruct f as [fc p k r|fc l p k]; inversion Ht; simplify_eq.
    + exists Black, n. split; [done|]. by constructor.
    + eexists _, _. split; [done|]. by econstructor.
    + exists Black, n. split; [done|]. by constructor.
    + eexists _, _. split; [done|]. by econstructor.
Qed.

Lemma rb_root_color c n t : rb c n t -> root_color t = c.
Proof. by destruct 1. Qed.

Lemma rb_blacken c n t : rb c n t -> exists m, rb Black m (blacken t) /\ (c = Red -> m = S n).
Proof. destruct 1; [exists 0%nat|exists (S n)|exists (S n)]; split; try done; by econstructor. Qed.

(** ** The repair after an insertion

    [t] is the subtree with the new red root. *)

Definition ins_rotate f g t : tree :=
  match t with
  | Leaf => zip g (zip f t)
  | Node _ a x kx b =>
    match f, g with
    | InL _ p kp c, InL gc q kq d => Node gc t p kp (Node Red c q kq d)
    | InR _ c p kp, InL gc q kq d => Node gc (Node Red c p kp a) x kx (Node Red b q kq d)
    | InR _ c p kp, InR gc d q kq => Node gc (Node Red d q kq c) p kp t
    | InL _ p kp c, InR gc d q kq => Node gc (Node Red d q kq a) x kx (Node Red b p kp c)
    end
  end.

(** The parent and the uncle turn black, the grandparent red. *)
Definition ins_recolor f g t : tree :=
  let p := blacken (zip f t) in
  match g with
  | InL _ q kq u => Node Red p q kq (blacken u)
  | InR _ u q kq => Node Red (blacken u) q kq p
  end.

Fixpoint fix_ins ctx t : tree :=
  match ctx with
  | [] => t
  | f :: rest =>
    match rest with
    | [] => blacken (zip f t)
    | g :: ctx =>
      match frame_color f, root_color (other g) with
      | Black, _ => plug (f :: g :: ctx) t
      | Red, Red => fix_ins ctx (ins_recolor f g t)
      | Red, Black => plug ctx (ins_rotate f g t)
      end
    end
  end.

(** Induction two frames at a time. *)
Lemma ctx_ind2 (P : list frame -> Prop) :
  P [] -> (forall f, P [f]) -> (forall f g ctx, P ctx -> P (f :: g :: ctx)) -> forall ctx, P ctx.
Proof.
  intros H0 H1 H2. assert (forall ctx, P ctx /\ forall f, P (f :: ctx)) as H.
  { induction ctx as [|g ctx [IH1 IH2]]; [split; auto|]. split; [auto|]. intros f. auto. }
  intros ctx. apply H.
Qed.

Lemma elems_ins_rotate f g t : elems (ins_rotate f g t) = elems (zip g (zip f t)).
Proof.
  destruct t as [|c a x kx b]; [done|]. destruct f, g; simpl; by repeat (rewrite <- app_assoc; simpl).
Qed.

Lemma elems_ins_recolor f g t : elems (ins_recolor f g t) = elems (zip g (zip f t)).
Proof. destruct g, f; simpl; by rewrite ?elems_recolor. Qed.

Lemma elems_fix_ins ctx : forall t, elems (fix_ins ctx t) = elems (plug ctx t).
Proof.
  induction ctx as [|f|f g ctx IH] using ctx_ind2; intros t; [done|apply elems_recolor|]. cbn [fix_ins].
  destruct (frame_color f), (root_color (other g)); [| |done|done].
  - rewrite IH. simpl. rewrite !elems_plug. by rewrite elems_ins_recolor.
  - simpl. rewrite !elems_plug. by rewrite elems_ins_rotate.
Qed.

Lemma rb_ins_rotate f g t n :
  rb Red n t -> frame_color f = Red -> rb Black n (other f) -> frame_color g = Black ->
  rb Black n (other g) -> rb Black (S n) (ins_rotate f g t).
Proof.
  intros Ht Hf Hof Hg Hog. inversion Ht; simplify_eq.
  destruct f, g; simplify_eq/=; repeat econstructor; eauto.
Qed.

Lemma rb_ins_recolor f g t n :
  rb Red n t -> frame_color f = Red -> rb Black n (other f) -> frame_color g = Black ->
  rb Red n (other g) -> rb Red (S n) (ins_recolor f g t).
Proof.
  intros Ht Hf Hof Hg Hog. unfold ins_recolor.
  assert (rb Black (S n) (blacken (zip f t))) by (destruct f; simplify_eq/=; by econstructor).
  destruct (rb_blacken _ _ _ Hog) as (m & Hm & Hmn). rewrite (Hmn eq_refl) in Hm.
  destruct g; simplify_eq/=; by econstructor.
Qed.

Lemma fix_ins_rb ctx : forall n t, ctx_rb Black n ctx -> rb Red n t ->
  exists m, rb Black m (blacken (fix_ins ctx t)).
Proof.
  induction ctx as [|f|f g ctx IH] using ctx_ind2; intros n t Hc Ht.
  - destruct (rb_blacken _ _ _ Ht) as (m & Hm & _). by exists m.
  - inversion Hc; simplify_eq; [inversion H4|]. exists (S n).
    destruct f; simplify_eq/=; by econstructor.
  - cbn [fix_ins]. inversion Hc as [|? ? ? Hf Hof Hg|? ? ? ? ? Hf Hof Hg]; simplify_eq; rewrite Hf.
    + inversion Hg as [|? ? ? ? ? ? |? co ? ? ? Hgb Hog Hctx]; simplify_eq.
      rewrite (rb_root_color _ _ _ Hog). destruct co.
      * eapply IH; [done|]. by apply rb_ins_recolor.
      * destruct (rb_plug ctx Black (S n) (ins_rotate f g t)) as [m Hm];
          [done|by apply rb_ins_rotate|].
        destruct (rb_blacken _ _ _ Hm) as (m' & ? & _). by exists m'.
    + destruct (rb_plug (f :: g :: ctx) Red n t) as [m Hm]; [by econstructor|done|].
      destruct (rb_blacken _ _ _ Hm) as (m' & ? & _). by exists m'.
Qed.
(** ** The repair after a deletion

    [t] has one black node less on its paths than its sibling [other f].  With a
    black sibling: the new subtree, and whether it still misses one. *)

Definition del_black f t : tree * bool :=
  match f with
  | InL c p k (Node _ sl s ks sr) =>
    match root_color sr, sl with
    | Red, _ => (Node c (Node Black t p k sl) s ks (blacken sr), false)
    | Black, Node Red cl q kq cr =>
      (Node c (Node Black t p k cl) q kq (Node Black cr s ks sr), false)
    | Black, _ => (Node Black t p k (Node Red sl s ks sr), bool_decide (c = Black))
    end
  | InR c (Node _ sl s ks sr) p k =>
    match root_color sl, sr with
    | Red, _ => (Node c (blacken sl) s ks (Node Black sr p k t), false)
    | Black, Node Red cl q kq cr =>
      (Node c (Node Black sl s ks cl) q kq (Node Black cr p k t), false)
    | Black, _ => (Node Black (Node Red sl s ks sr) p k t, bool_decide (c = Black))
    end
  | _ => (zip f t, false)
  end.

(** With a red sibling: the frames after the sibling has gone up. *)
Definition del_red f : frame * frame :=
  match f with
  | InL c p k (Node _ sl s ks sr) => (InL Red p k sl, InL c s ks sr)
  | InR c (Node _ sl s ks sr) p k => (InR Red sr p k, InR c sl s ks)
  | _ => (f, f)
  end.

Fixpoint fix_del ctx t : tree :=
  match ctx with
  | [] => t
  | f :: ctx =>
    match root_color (other f) with
    | Red => let '(f, g) := del_red f in plug ctx (zip g (fst (del_black f t)))
    | Black =>
      let '(t, missing) := del_black f t in
      if missing then fix_del ctx t else plug ctx t
    end
  end.

Ltac app_eq := simpl; rewrite ?elems_recolor; by repeat (rewrite <- app_assoc; simpl).

Lemma elems_del_black f t : elems (fst (del_black f t)) = elems (zip f t).
Proof.
  destruct f as [c p k [|sc sl s ks sr]|c [|sc sl s ks sr] p k]; simpl; try done.
  - destruct (root_color sr), sl as [|[] cl q kq cr]; app_eq.
  - destruct (root_color sl), sr as [|[] cl q kq cr]; app_eq.
Qed.

Lemma elems_fix_del ctx : forall t, elems (fix_del ctx t) = elems (plug ctx t).
Proof.
  induction ctx as [|f ctx IH]; intros t; [done|]. cbn [fix_del plug].
  pose proof (elems_del_black f t) as Hd. destruct (root_color (other f)) eqn:Hc.
  - assert (elems (zip (snd (del_red f)) (zip (fst (del_red f)) t)) = elems (zip f t)) as He.
    { destruct f as [c p k [|sc sl s ks sr]|c [|sc sl s ks sr] p k]; try done; app_eq. }
    destruct (del_red f) as [f' g']. simpl in He. rewrite !elems_plug. f_equal. f_equal.
    rewrite <- He. pose proof (elems_del_black f' t) as Hd'. destruct g'; simpl; by rewrite Hd'.
  - destruct (del_black f t) as [t' []]; simpl in *; rewrite ?IH, !elems_plug; by rewrite Hd.
Qed.

Lemma ctx_rb_any c n ctx : ctx_rb Red n ctx -> ctx_rb c n ctx.
Proof. inversion 1; by econstructor. Qed.

Lemma rb_black_inv n t : rb Black (S n) t ->
  exists cl cr l p k r, t = Node Black l p k r /\ rb cl n l /\ rb cr n r.
Proof. inversion 1; simplify_eq. eauto 10. Qed.

Lemma rb_black_0 t : rb Black 0 t -> t = Leaf.
Proof. by inversion 1. Qed.

Lemma del_black_rb f t n : rb Black n t -> rb Black (S n) (other f) ->
  let '(t', missing) := del_black f t in
  if missing then frame_color f = Black /\ rb Black (S n) t'
  else match frame_color f with
       | Red => exists c, rb c (S n) t'
       | Black => rb Black (S (S n)) t'
       end.
Proof.
  intros Ht Ho. apply rb_black_inv in Ho as (cl & cr & sl & s & ks & sr & Ho & Hl & Hr).
  destruct f as [c p k o|c o p k]; simplify_eq/=.
  - rewrite (rb_root_color _ _ _ Hr). destruct cr.
    + destruct (rb_blacken _ _ _ Hr) as (m & Hm & Hmn). rewrite (Hmn eq_refl) in Hm.
      destruct c; simpl; [eexists|]; repeat econstructor; eauto.
    + destruct Hl as [|n sl q kq sr' H1 H2|? ? n sl q kq sr' H1 H2]; destruct c; simpl;
        try (split; [done|]); try eexists; repeat econstructor; eauto.
  - rewrite (rb_root_color _ _ _ Hl). destruct cl.
    + destruct (rb_blacken _ _ _ Hl) as (m & Hm & Hmn). rewrite (Hmn eq_refl) in Hm.
      destruct c; simpl; [eexists|]; repeat econstructor; eauto.
    + destruct Hr as [|n sl' q kq sr H1 H2|? ? n sl' q kq sr H1 H2]; destruct c; simpl;
        try (split; [done|]); try eexists; repeat econstructor; eauto.
Qed.

(** A red sibling has a black parent and black children. *)
Lemma del_red_rb f n : frame_color f = Black -> rb Red (S n) (other f) ->
  let '(f', g') := del_red f in
  frame_color f' = Red /\ frame_color g' = Black /\ rb Black (S n) (other f') /\ rb Black (S n) (other g').
Proof. intros Hf Ho. destruct f; simplify_eq/=; by inversion Ho; simplify_eq. Qed.

Lemma fix_del_rb ctx : forall n t, ctx_rb Black (S n) ctx -> rb Black n t ->
  exists m, rb Black m (fix_del ctx t).
Proof.
  induction ctx as [|f ctx IH]; intros n t Hc Ht; [by exists n|]. cbn [fix_del].
  inversion Hc as [|? ? ? Hf Ho Hctx|? co ? ? ? Hf Ho Hctx]; simplify_eq;
    rewrite (rb_root_color _ _ _ Ho).
  - pose proof (del_black_rb f t n Ht Ho) as Hd. destruct (del_black f t) as [t' []]; rewrite Hf in Hd.
    + by destruct Hd.
    + destruct Hd as [c' Hd]. eapply rb_plug; [by apply (ctx_rb_any c')|done].
  - destruct co.
    + pose proof (del_red_rb f n Hf Ho) as Hr. destruct (del_red f) as [f' g'].
      destruct Hr as (Hf' & Hg' & Hof & Hog). pose proof (del_black_rb f' t n Ht Hof) as Hd.
      destruct (del_black f' t) as [t' []]; rewrite Hf' in Hd; [by destruct Hd|].
      destruct Hd as [c' Hd]. eapply rb_plug; [done|].
      destruct g'; simplify_eq/=; by econstructor.
    + pose proof (del_black_rb f t n Ht Ho) as Hd. destruct (del_black f t) as [t' []].
      * destruct Hd as [_ Hd]. by eapply IH.
      * rewrite Hf in Hd. by eapply rb_plug.
Qed.

(** ** Deletion *)

(** The first element of [t], with the path to it in front of [acc]. *)
Fixpoint min_ctx t (acc : list frame) : list frame :=
  match t with
  | Leaf => acc
  | Node c l p k r => match l with Leaf => acc | _ => min_ctx l (InL c p k r :: acc) end
  end.

Fixpoint min_node t : tree :=
  match t with
  | Leaf => Leaf
  | Node _ l _ _ _ => match l with Leaf => t | _ => min_node l end
  end.

(** The subtree at [ctx] loses its root, which has at most the child [t] and
    the colour [c]. *)
Definition unlink ctx (c : RbColor) t : tree :=
  match t, c with
  | Leaf, Black => fix_del ctx Leaf
  | Leaf, Red => plug ctx Leaf
  | _, _ => plug ctx (blacken t)
  end.

Definition del_at ctx t : tree :=
  match t with
  | Leaf => plug ctx t
  | Node c l p k r =>
    match l, r with
    | Leaf, _ => unlink ctx c r
    | _, Leaf => unlink ctx c l
    | _, _ =>
      match min_node r with
      | Leaf => plug ctx t
      | Node sc _ s ks sr => unlink (min_ctx r [] ++ InR c l s ks :: ctx) sc sr
      end
    end
  end.

Lemma min_plug t : forall acc, plug (min_ctx t acc) (min_node t) = plug acc t.
Proof.
  induction t as [|c l IHl p k r IHr]; intros acc; [done|]. simpl.
  destruct l as [|c' l' p' k' r'] eqn:Hl; [done|]. by rewrite IHl.
Qed.

Lemma min_ctx_app t : forall acc acc', min_ctx t (acc ++ acc') = min_ctx t acc ++ acc'.
Proof.
  induction t as [|c l IHl p k r IHr]; intros acc acc'; [done|]. cbn [min_ctx].
  destruct l; [done|]. by rewrite <- IHl.
Qed.

Lemma min_node_shape t : t <> Leaf -> exists c p k r, min_node t = Node c Leaf p k r.
Proof.
  induction t as [|c l IHl p k r IHr]; intros Ht; [done|]. simpl.
  destruct l as [|c' l' p' k' r']; [eauto|]. by apply IHl.
Qed.

(** Everything in front of the first element is nothing. *)
Lemma min_before t : forall acc, before (min_ctx t acc) = before acc.
Proof.
  induction t as [|c l IHl p k r IHr]; intros acc; [done|]. cbn [min_ctx].
  destruct l; [done|]. by rewrite IHl.
Qed.

Lemma elems_unlink ctx c t : elems (unlink ctx c t) = elems (plug ctx t).
Proof.
  destruct t, c; cbn [unlink]; rewrite ?elems_fix_del; try done;
    by rewrite !elems_plug, elems_recolor.
Qed.

Lemma before_app ctx1 ctx2 : before (ctx1 ++ ctx2) = before ctx2 ++ before ctx1.
Proof.
  induction ctx1 as [|[] ctx1 IH]; simpl; [by rewrite app_nil_r|done|]. by rewrite IH, <- app_assoc.
Qed.
Lemma after_app ctx1 ctx2 : after (ctx1 ++ ctx2) = after ctx1 ++ after ctx2.
Proof. induction ctx1 as [|[] ctx1 IH]; simpl; [done| |done]. by rewrite IH, <- app_assoc. Qed.

Lemma elems_min t c p k r : min_node t = Node c Leaf p k r ->
  elems t = (p, k) :: elems r ++ after (min_ctx t []).
Proof.
  intros Hm. pose proof (elems_plug (min_ctx t []) (min_node t)) as He.
  by rewrite min_plug, min_before, Hm in He.
Qed.

(** Deletion takes out exactly the root of the subtree. *)
Lemma elems_del_at ctx c l p k r :
  elems (del_at ctx (Node c l p k r)) = before ctx ++ elems l ++ elems r ++ after ctx.
Proof.
  cbn [del_at]. destruct l as [|lc ll lp lk lr]; [by rewrite elems_unlink, elems_plug|].
  set (l := Node lc ll lp lk lr). destruct r as [|rc rl rp rk rr]; [by rewrite elems_unlink, elems_plug|].
  destruct (min_node_shape (Node rc rl rp rk rr)) as (sc & s & ks & sr & Hs); [done|].
  rewrite (elems_min _ _ _ _ _ Hs), Hs, elems_unlink, elems_plug, before_app, after_app, min_before.
  cbn [before after]. rewrite app_nil_r. by repeat (rewrite <- app_assoc; cbn [app]).
Qed.

(** ** Deletion keeps the invariant *)

Lemma unlink_rb ctx c n p k t1 t :
  ctx_rb c n ctx -> rb c n (Node c t1 p k t) \/ rb c n (Node c t p k t1) -> t1 = Leaf ->
  exists m, rb Black m (unlink ctx c t).
Proof.
  intros Hc Hrb ->. assert (exists ct, rb ct (match c with Red => n | Black => pred n end) t /\
    (c = Red -> ct = Black) /\ (match c with Red => n = 0%nat | Black => n = 1%nat end)) as (ct & Ht & Hct & Hn).
  { destruct Hrb as [Hrb|Hrb]; inversion Hrb; simplify_eq;
      match goal with H : rb _ _ Leaf |- _ => inversion H; simplify_eq end;
      eexists; split_and!; eauto; done. }
  destruct c; subst n; simpl in Ht.
  - rewrite (Hct eq_refl) in Ht. apply rb_black_0 in Ht as ->. simpl.
    eapply rb_plug; [by apply (ctx_rb_any Black)|constructor].
  - destruct t as [|tc tl tp tk tr]; simpl.
    + eapply fix_del_rb; [done|]. constructor.
    + eapply rb_plug; [done|]. inversion Ht; simplify_eq. by econstructor.
Qed.

Lemma ctx_rb_relabel ctx1 : forall c n fc l p k p' k' ctx2,
  ctx_rb c n (ctx1 ++ InR fc l p k :: ctx2) -> ctx_rb c n (ctx1 ++ InR fc l p' k' :: ctx2).
Proof.
  induction ctx1 as [|f ctx1 IH]; intros c n fc l p k p' k' ctx2 H; simpl in *.
  - inversion H; simplify_eq; simpl in *; by econstructor.
  - inversion H; simplify_eq; econstructor; eauto.
Qed.

Lemma del_at_rb ctx c l p k r m :
  rb Black m (plug ctx (Node c l p k r)) -> exists m', rb Black m' (del_at ctx (Node c l p k r)).
Proof.
  intros H. pose proof (rb_split _ _ _ H) as (c0 & n & Hn & Hctx).
  assert (c0 = c) as -> by (by rewrite <- (rb_root_color _ _ _ Hn)). cbn [del_at].
  destruct l as [|lc ll lp lk lr]; [eapply unlink_rb; eauto|].
  set (l := Node lc ll lp lk lr) in *.
  destruct r as [|rc rl rp rk rr]; [eapply unlink_rb; eauto|].
  set (r := Node rc rl rp rk rr) in *.
  destruct (min_node_shape r) as (sc & s & ks & sr & Hs); [done|]. rewrite Hs.
  assert (plug ctx (Node c l p k r) = plug (min_ctx r [] ++ InR c l p k :: ctx) (Node sc Leaf s ks sr))
    as Hp by (by rewrite plug_app, <- Hs, min_plug).
  rewrite Hp in H. apply rb_split in H as (c1 & n1 & Hn1 & Hctx1).
  assert (c1 = sc) as -> by (by rewrite <- (rb_root_color _ _ _ Hn1)).
  eapply unlink_rb; [by eapply ctx_rb_relabel|by left|done].
Qed.

(** ** Height

    A tree of [n] elements has no path of more than [2 * log2 (n + 1)] nodes. *)

Fixpoint height t : nat :=
  match t with Leaf => 0 | Node _ l _ _ r => S (Nat.max (height l) (height r)) end.

Lemma rb_height c n t : rb c n t ->
  (height t <= 2 * n + match c with Red => 1 | Black => 0 end)%nat.
Proof. induction 1 as [|n l p k r ? IH1 ? IH2|[] [] n l p k r ? IH1 ? IH2]; simpl in *; lia. Qed.

Lemma rb_size c n t : rb c n t -> (2 ^ n <= S (length (elems t)))%nat.
Proof.
  induction 1 as [|n l p k r ? IH1 ? IH2|cl cr n l p k r ? IH1 ? IH2]; simpl in *; [lia| |];
    rewrite length_app; simpl; lia.
Qed.

Lemma height_log n t : rb Black n t -> (height t <= 2 * Nat.log2 (S (length (elems t))))%nat.
Proof.
  intros H. pose proof (rb_height _ _ _ H) as Hh. cbv iota in Hh. pose proof (rb_size _ _ _ H) as Hs.
  apply Nat.log2_le_mono in Hs. rewrite Nat.log2_pow2 in Hs by lia. lia.
Qed.
End spec.

Arguments tree : clear implicits.
Arguments frame : clear implicits.
Abbreviation blacken := (recolor Black).
