(* ===== verification/RbHeap.v ===== *)
(** * Red-black trees in memory

    When the nodes in memory represent a tree, and a context around it; and what
    the elementary pointer operations of RbTree.v do to them.  The pointers of a
    tree are all different, so that a write to one node leaves the rest of the
    representation alone. *)

From stdpp Require Import base tactics list gmap.
From S2P Require Import Prelude CMonad RbTree RbSpec.
Local Open Scope Z_scope.

(** ** Words that hold a pointer and a colour *)

(** Nodes are aligned to 4 bytes and not at address 0. *)
Definition aligned (p : ptr) : Prop := 0 < p /\ p mod 4 = 0.

Definition addr (o : option ptr) : Z := match o with Some p => p | None => 0 end.
Definition pack (o : option ptr) (c : RbColor) : Z := with_color (addr o) c.
Arguments pack : simpl never.
Definition valid (o : option ptr) : Prop := match o with Some p => aligned p | None => True end.

Lemma valid_even o : valid o -> exists k, addr o = 2 * k.
Proof.
  destruct o as [p|]; [|by exists 0]. intros [_ Hp]. exists (p / 2). simpl.
  Z.div_mod_to_equations. lia.
Qed.

Lemma testbit_1 i : 0 <= i -> Z.testbit 1 i = (i =? 0).
Proof. intros. by rewrite (Z.pow2_bits_eqb 0). Qed.

(** Equality of words bit by bit, the lowest bit apart. *)
Ltac color_bits :=
  apply Z.bits_inj'; let i := fresh "i" in intros i ?;
  rewrite ?Z.lor_spec, ?Z.ldiff_spec, ?Z.land_spec, ?Z.lor_spec, ?Z.ldiff_spec, ?testbit_1 by done;
  destruct (Z.eqb_spec i 0) as [->|]; rewrite ?Z.testbit_even_0; simpl;
  rewrite ?andb_true_r, ?andb_false_r, ?orb_false_r; try done.

Lemma pack_ptr o c : valid o -> get_node_ptr (pack o c) = addr o.
Proof. intros [k Hk]%valid_even. unfold pack, get_node_ptr. rewrite Hk. destruct c; simpl; color_bits. Qed.

Lemma pack_color o c : valid o -> word_color (pack o c) = c.
Proof.
  intros [k Hk]%valid_even. unfold pack, word_color. rewrite Hk. destruct c; simpl.
  - replace (Z.land (Z.lor (2 * k) 1) 1) with 1; [done|]. color_bits.
  - replace (Z.land (2 * k) 1) with 0; [done|]. color_bits. by rewrite Z.bits_0.
Qed.

Lemma pack_set_color o c c' : valid o -> word_set_color (pack o c) c' = pack o c'.
Proof. intros [k Hk]%valid_even. unfold pack. rewrite Hk. destruct c, c'; simpl; color_bits. Qed.

Lemma pack_set_parent o c p : valid o -> aligned p -> word_set_parent (pack o c) p = pack (Some p) c.
Proof.
  intros [k Hk]%valid_even [j Hj]%(valid_even (Some p)). unfold pack, word_set_parent. rewrite Hk.
  simpl in *. rewrite Hj. destruct c; simpl; color_bits.
Qed.

Lemma pack_non_null o c : valid o -> non_null (get_node_ptr (pack o c)) = o.
Proof.
  intros Ho. rewrite pack_ptr by done. destruct o as [p|]; [|done]. destruct Ho.
  unfold non_null. simpl. by replace (p =? 0) with false by lia.
Qed.

(** A node of colour [c] below [par]. *)
Abbreviation cell par c l r k := (Rb_node (pack par c) l r k).

Lemma pack_null o c : valid o ->
  (get_node_ptr (pack o c) =? 0) = match o with Some _ => false | None => true end.
Proof.
  intros Ho. rewrite pack_ptr by done. destruct o as [p|]; [|done]. destruct Ho. simpl. lia.
Qed.

Lemma points_to_self p : points_to (Some p) p = true.
Proof. apply Z.eqb_refl. Qed.
Lemma points_to_ne o p : o <> Some p -> points_to o p = false.
Proof. destruct o as [q|]; [|done]. intros Hq. apply Z.eqb_neq. congruence. Qed.

Section heap.
Context {K : Type}.
Implicit Types (t l r : tree K) (ctx : list (frame K)).
Abbreviation node := (RbNode (K := K)).
Abbreviation state := (RbTree (K := K)).
Implicit Types (L B : list (ptr * node)) (F : gmap Z node) (s : state).

(** ** Lists of cells

    [own s rt L F]: the memory of [s] is the cells of [L], all at different
    addresses, over the rest [F]; the root pointer is [rt]. *)

Record own s (rt : option ptr) L F : Prop := Own {
  own_nodup : NoDup L.*1;
  own_aligned : Forall aligned L.*1;
  own_heap : heap s = list_to_map L ∪ F;
  own_root : root s = rt
}.

Lemma own_perm s rt L L' F : L ≡ₚ L' -> own s rt L F -> own s rt L' F.
Proof.
  intros HL [Hn Ha Hh Hr]. split; [by rewrite <- HL|by rewrite <- HL| |done].
  rewrite Hh. f_equal. by apply list_to_map_proper.
Qed.

Lemma own_lookup s rt L F p n : own s rt L F -> (p, n) ∈ L -> heap s !! p = Some n.
Proof.
  intros [Hn Ha -> Hr] Hp. apply lookup_union_Some_l. by apply elem_of_list_to_map_1.
Qed.

(** Cells are found in a list up to permutation. *)
Class Find (B L L' : list (ptr * node)) : Prop := find : L ≡ₚ B ++ L'.
#[export] Instance find_here x L : Find [x] (x :: L) L.
Proof. unfold Find. done. Qed.
#[export] Instance find_block B L : Find B (B ++ L) L | 0.
Proof. unfold Find. done. Qed.
#[export] Instance find_last B : Find B B [] | 1.
Proof. unfold Find. by rewrite app_nil_r. Qed.
#[export] Instance find_there B x L L' : Find B L L' -> Find B (x :: L) (x :: L') | 3.
Proof. unfold Find. intros ->. apply Permutation_middle. Qed.
#[export] Instance find_left B L1 L1' L2 : Find B L1 L1' -> Find B (L1 ++ L2) (L1' ++ L2) | 3.
Proof. unfold Find. intros ->. by rewrite <- app_assoc. Qed.
#[export] Instance find_right B L1 L2 L2' : Find B L2 L2' -> Find B (L1 ++ L2) (L1 ++ L2') | 4.
Proof. unfold Find. intros ->. by rewrite !app_assoc, (Permutation_app_comm L1). Qed.

Lemma perm_find B L L' M : Find B L L' -> M ≡ₚ L' -> B ++ M ≡ₚ L.
Proof. unfold Find. by intros -> ->. Qed.
Lemma perm_find_1 x L L' M : Find [x] L L' -> M ≡ₚ L' -> x :: M ≡ₚ L.
Proof. unfold Find. by intros -> ->. Qed.
Lemma perm_find_last B L L' : Find B L L' -> [] ≡ₚ L' -> B ≡ₚ L.
Proof. unfold Find. intros -> <-. by rewrite app_nil_r. Qed.

(** ** The rules of the elementary operations *)

Lemma wp_deref s rt L F p n L' Q : own s rt L F -> Find [(p, n)] L L' -> Q n s -> wp (deref p) s Q.
Proof.
  intros Ho Hf HQ. unfold deref. apply wp_bind, wp_gets.
  rewrite (own_lookup _ _ _ _ p n Ho); [by apply wp_of_option|].
  unfold Find in Hf. rewrite Hf. by left.
Qed.

Lemma wp_write s rt L F p n n' L' Q : own s rt L F -> Find [(p, n)] L L' ->
  (forall s', own s' rt ((p, n') :: L') F -> Q tt s') -> wp (write p n') s Q.
Proof.
  intros Ho Hf HQ. apply wp_modify, HQ. apply (own_perm _ _ _ _ _ Hf) in Ho as [Hn Ha Hh Hr].
  split; [done|done| |done]. simpl in *. by rewrite Hh, insert_union_l, insert_insert_eq.
Qed.

Lemma wp_on_node s rt L F p n L' f Q : own s rt L F -> Find [(p, n)] L L' ->
  (forall s', own s' rt ((p, f n) :: L') F -> Q tt s') -> wp (on_node p f) s Q.
Proof.
  intros Ho Hf HQ. unfold on_node. apply wp_bind. eapply wp_deref; [done..|]. by eapply wp_write.
Qed.

Lemma wp_set_root s rt rt' L F Q : own s rt L F -> (forall s', own s' rt' L F -> Q tt s') ->
  wp (set_root rt') s Q.
Proof. intros [] HQ. apply wp_modify, HQ. by split. Qed.

(** ** Representation *)

Definition rootp t : option ptr := match t with Leaf => None | Node _ _ p _ _ => Some p end.

Fixpoint cells t (par : option ptr) : list (ptr * node) :=
  match t with
  | Leaf => []
  | Node c l p k r =>
    (p, cell par c (rootp l) (rootp r) k) :: cells l (Some p) ++ cells r (Some p)
  end.

Definition ctx_ptr ctx : option ptr :=
  match ctx with [] => None | f :: _ => Some (frame_ptr f) end.

(** The cells of the frames, when the root of what is plugged in is [hole]. *)
Fixpoint ctx_cells ctx (hole : option ptr) : list (ptr * node) :=
  match ctx with
  | [] => []
  | InL c p k r :: ctx =>
    (p, cell (ctx_ptr ctx) c hole (rootp r) k) :: cells r (Some p) ++ ctx_cells ctx (Some p)
  | InR c l p k :: ctx =>
    (p, cell (ctx_ptr ctx) c (rootp l) hole k) :: cells l (Some p) ++ ctx_cells ctx (Some p)
  end.

Fixpoint top ctx (hole : option ptr) : option ptr :=
  match ctx with
  | [] => hole
  | f :: ctx => top ctx (Some (frame_ptr f))
  end.

(** The tree [t] at the context [ctx] is in memory, over [F]. *)
Definition tree_at s ctx t F : Prop :=
  own s (top ctx (rootp t)) (cells t (ctx_ptr ctx) ++ ctx_cells ctx (rootp t)) F.

Lemma rootp_recolor c t : rootp (recolor c t) = rootp t.
Proof. by destruct t. Qed.

Lemma cells_ptrs t : forall par, (cells t par).*1 ≡ₚ (elems t).*1.
Proof.
  induction t as [|c l IHl p k r IHr]; intros par; simpl; [done|].
  rewrite !fmap_app. simpl. by rewrite IHl, IHr, Permutation_middle.
Qed.

(** ** Segments of a path: [base] is the parent of the outermost frame. *)

Definition seg_ptr (base : option ptr) ctx : option ptr :=
  match ctx with [] => base | f :: _ => Some (frame_ptr f) end.

Fixpoint seg_cells (base : option ptr) ctx (hole : option ptr) : list (ptr * node) :=
  match ctx with
  | [] => []
  | InL c p k r :: ctx =>
    (p, cell (seg_ptr base ctx) c hole (rootp r) k) :: cells r (Some p) ++ seg_cells base ctx (Some p)
  | InR c l p k :: ctx =>
    (p, cell (seg_ptr base ctx) c (rootp l) hole k) :: cells l (Some p) ++ seg_cells base ctx (Some p)
  end.

Lemma seg_cells_app base ctx1 ctx2 : forall hole, seg_cells base (ctx1 ++ ctx2) hole =
  seg_cells (seg_ptr base ctx2) ctx1 hole ++ seg_cells base ctx2 (top ctx1 hole).
Proof.
  assert (forall ctx, seg_ptr (seg_ptr base ctx2) ctx = seg_ptr base (ctx ++ ctx2)) as Hp by by intros [].
  induction ctx1 as [|[] ctx1 IH]; intros hole; [done|..]; simpl; by rewrite Hp, IH, app_assoc.
Qed.

Lemma ctx_seg_ptr ctx : seg_ptr None ctx = ctx_ptr ctx.
Proof. done. Qed.

Lemma ctx_seg_cells ctx : forall hole, ctx_cells ctx hole = seg_cells None ctx hole.
Proof. induction ctx as [|[] ctx IH]; intros hole; simpl; [done|..]; by rewrite IH. Qed.

Lemma top_app ctx1 ctx2 : forall hole, top (ctx1 ++ ctx2) hole = top ctx2 (top ctx1 hole).
Proof. induction ctx1 as [|f ctx1 IH]; intros hole; [done|]. apply IH. Qed.

(** The cells of a path that goes through a node with a left subtree. *)
Lemma ctx_cells_right ctx1 c l p k ctx hole :
  ctx_cells (ctx1 ++ InR c l p k :: ctx) hole =
  seg_cells (Some p) ctx1 hole ++ (p, cell (ctx_ptr ctx) c (rootp l) (top ctx1 hole) k) ::
    cells l (Some p) ++ ctx_cells ctx (Some p).
Proof. by rewrite !ctx_seg_cells, seg_cells_app. Qed.

Lemma cells_seg base ctx : forall t,
  cells (plug ctx t) base ≡ₚ cells t (seg_ptr base ctx) ++ seg_cells base ctx (rootp t).
Proof.
  induction ctx as [|f ctx IH]; intros t; [simpl; by rewrite app_nil_r|]. cbn [plug]. rewrite IH.
  destruct f as [c p k r|c l p k]; simpl; rewrite <- Permutation_middle, !app_assoc; [done|].
  by rewrite (Permutation_app_comm (cells l _)).
Qed.

Lemma rootp_plug ctx : forall t, rootp (plug ctx t) = top ctx (rootp t).
Proof. induction ctx as [|[] ctx IH]; intros t; [done|..]; apply IH. Qed.

Lemma cells_plug ctx t : cells (plug ctx t) None ≡ₚ cells t (ctx_ptr ctx) ++ ctx_cells ctx (rootp t).
Proof. rewrite ctx_seg_cells. apply cells_seg. Qed.

Lemma tree_at_plug s ctx t F : tree_at s ctx t F <-> tree_at s [] (plug ctx t) F.
Proof.
  unfold tree_at. simpl. rewrite rootp_plug, app_nil_r.
  split; apply own_perm; by rewrite cells_plug.
Qed.

Lemma tree_at_zip s f ctx t F : tree_at s (f :: ctx) t F <-> tree_at s ctx (zip f t) F.
Proof. by rewrite tree_at_plug, (tree_at_plug _ ctx). Qed.

(** A pointer that is elsewhere is not the root. *)
Lemma own_not_root s rt L F p n L' t par L'' :
  own s rt L F -> Find [(p, n)] L L' -> Find (cells t par) L' L'' -> rootp t <> Some p.
Proof.
  intros Ho Hf Ht Hp. unfold Find in *. rewrite Ht in Hf. apply (own_perm _ _ _ _ _ Hf), own_nodup in Ho.
  destruct t; simplify_eq/=. apply NoDup_cons in Ho. set_solver.
Qed.

Lemma own_ptr_ne s rt L F p n L' q m L'' :
  own s rt L F -> Find [(p, n)] L L' -> Find [(q, m)] L' L'' -> Some q <> Some p.
Proof.
  intros Ho Hf Ht [= ->]. unfold Find in *. rewrite Ht in Hf. apply (own_perm _ _ _ _ _ Hf), own_nodup in Ho.
  apply NoDup_cons in Ho. set_solver.
Qed.

Lemma own_not_inside s rt L F p t par L' t' par' L'' :
  own s rt L F -> Find (cells t par) L L' -> Find (cells t' par') L' L'' -> p ∈ (elems t).*1 ->
  rootp t' <> Some p.
Proof.
  intros Ho Hf Ht Hp Hr. unfold Find in *. rewrite Ht in Hf.
  apply (own_perm _ _ _ _ _ Hf), own_nodup in Ho. rewrite <- (cells_ptrs t par) in Hp.
  rewrite fmap_app, NoDup_app in Ho. destruct Ho as (_ & Ho & _). apply (Ho p Hp).
  destruct t'; simplify_eq/=. by left.
Qed.

Lemma own_not_in s rt L F p n L' B L'' q :
  own s rt L F -> Find [(p, n)] L L' -> Find B L' L'' -> q ∈ B.*1 -> p <> q.
Proof.
  intros Ho Hf Ht Hq <-. unfold Find in *. rewrite Ht in Hf.
  apply (own_perm _ _ _ _ _ Hf), own_nodup in Ho. simpl in Ho. rewrite fmap_app in Ho.
  apply NoDup_cons in Ho. set_solver.
Qed.

Lemma top_in_seg base ctx hole q : ctx <> [] -> top ctx hole = Some q ->
  q ∈ (seg_cells base ctx hole).*1.
Proof.
  intros Hn Hq. destruct (exists_last Hn) as (ctx1 & g & ->). rewrite top_app in Hq.
  rewrite seg_cells_app, fmap_app. destruct g; simplify_eq/=; set_solver.
Qed.

Lemma own_ptr_aligned s rt L F p n L' : own s rt L F -> Find [(p, n)] L L' -> aligned p.
Proof.
  intros Ho Hf. apply (own_perm _ _ _ _ _ Hf), own_aligned in Ho. by apply Forall_cons in Ho as [? _].
Qed.

Lemma own_ctx_valid s rt L F ctx hole L' :
  own s rt L F -> Find (ctx_cells ctx hole) L L' -> valid (ctx_ptr ctx).
Proof.
  intros Ho Hf. apply (own_perm _ _ _ _ _ Hf), own_aligned in Ho. rewrite fmap_app, Forall_app in Ho.
  destruct Ho as [Ho _], ctx as [|[] ctx]; [done|..]; by apply Forall_cons in Ho as [? _].
Qed.

Lemma get_color_cell par c (l r : option ptr) (k : K) : valid par -> get_color (cell par c l r k) = c.
Proof. apply pack_color. Qed.
Lemma get_parent_cell par c (l r : option ptr) (k : K) : valid par -> get_parent (cell par c l r k) = par.
Proof. apply pack_non_null. Qed.

(** The root of a tree gets another parent. *)
Lemma wp_reparent s rt L F t par L' q Q :
  own s rt L F -> Find (cells t par) L L' -> valid par -> aligned q ->
  (forall s', own s' rt (cells t (Some q) ++ L') F -> Q tt s') ->
  wp (if_some (rootp t) (fun p => set_parent p q)) s Q.
Proof.
  intros Ho Hf Hv Hq HQ. apply (own_perm _ _ _ _ _ Hf) in Ho. destruct t as [|c l p k r]; simpl in *.
  - apply wp_ret. by apply HQ.
  - eapply wp_on_node; [done|apply _|]. intros s' Hs'. apply HQ. revert Hs'.
    unfold put_parent. simpl. by rewrite pack_set_parent.
Qed.

Lemma wp_set_parent s rt L F t par L' p q Q :
  own s rt L F -> Find (cells t par) L L' -> rootp t = Some p -> valid par -> aligned q ->
  (forall s', own s' rt (cells t (Some q) ++ L') F -> Q tt s') -> wp (set_parent p q) s Q.
Proof.
  intros Ho Hf Hp Hv Hq HQ. pose proof (wp_reparent _ _ _ _ _ _ _ _ _ Ho Hf Hv Hq HQ) as Hw.
  by rewrite Hp in Hw.
Qed.

Lemma wp_set_color s rt L F p par c (l r : option ptr) k L' c' Q :
  own s rt L F -> Find [(p, cell par c l r k)] L L' -> valid par ->
  (forall s', own s' rt ((p, cell par c' l r k) :: L') F -> Q tt s') -> wp (set_color p c') s Q.
Proof.
  intros Ho Hf Hv HQ. unfold set_color. eapply wp_on_node; [done..|].
  unfold put_parent. simpl. by rewrite pack_set_color.
Qed.
End heap.

(** Side conditions: a pointer of the list is aligned, the parent of a context
    is valid. *)
Ltac valid_ptr :=
  first [ done
        | match goal with
          | Ho : own _ _ _ _ |- aligned _ => eapply (own_ptr_aligned _ _ _ _ _ _ _ Ho); apply _
          | Ho : own _ _ _ _ |- valid (Some _) => eapply (own_ptr_aligned _ _ _ _ _ _ _ Ho); apply _
          | Ho : own _ _ _ _ |- valid (ctx_ptr _) => eapply (own_ctx_valid _ _ _ _ _ _ _ Ho); apply _
          end ].

(** [points_to] tells the pointers of the list apart. *)
Ltac ptr_ne :=
  match goal with
  | Ho : own _ _ _ _ |- rootp _ <> Some _ => eapply (own_not_root _ _ _ _ _ _ _ _ _ _ Ho); apply _
  | Ho : own _ _ _ _ |- Some _ <> Some _ => eapply (own_ptr_ne _ _ _ _ _ _ _ _ _ _ Ho); apply _
  end.

Ltac wp_simpl :=
  unfold put_left, put_right, put_parent in *; unfold get_parent_and_color;
  cbn [parent left right key] in *;
  repeat first
    [ rewrite get_color_cell by valid_ptr
    | rewrite get_parent_cell by valid_ptr
    | rewrite pack_null by valid_ptr
    | rewrite points_to_self
    | rewrite points_to_ne by ptr_ne ];
  cbv beta iota zeta.

(** One step of monadic code; the only [own] hypothesis is the current state. *)
Ltac wp_step :=
  lazymatch goal with
  | |- wp (bind (bind _ _) _) _ _ => apply wp_bind_assoc
  | |- wp (bind _ _) _ _ => apply wp_bind
  | |- wp (ret _) _ _ => apply wp_ret
  | |- wp (of_option (Some _)) _ _ => apply wp_of_option
  | |- wp (expect (Some _)) _ _ => apply wp_of_option
  | |- wp (update _ _ _) _ _ => unfold update
  | |- wp (set_child _ _ _) _ _ => unfold set_child
  | Ho : own _ _ _ _ |- wp (deref _) _ _ => eapply (wp_deref _ _ _ _ _ _ _ _ Ho); [apply _|]
  | Ho : own _ _ _ _ |- wp (on_node _ _) _ _ =>
    eapply (wp_on_node _ _ _ _ _ _ _ _ _ Ho); [apply _|]; clear Ho; intros ? Ho
  | Ho : own _ _ _ _ |- wp (write _ _) _ _ =>
    eapply (wp_write _ _ _ _ _ _ _ _ _ Ho); [apply _|]; clear Ho; intros ? Ho
  | Ho : own _ _ _ _ |- wp (set_root _) _ _ =>
    eapply (wp_set_root _ _ _ _ _ _ Ho); clear Ho; intros ? Ho
  | Ho : own _ _ _ _ |- wp (set_color _ _) _ _ =>
    eapply (wp_set_color _ _ _ _ _ _ _ _ _ _ _ _ _ Ho); [apply _|valid_ptr|]; clear Ho; intros ? Ho
  | Ho : own _ _ _ _ |- wp (if_some (rootp _) (fun _ => set_parent _ _)) _ _ =>
    eapply (wp_reparent _ _ _ _ _ _ _ _ _ Ho);
      [apply _|valid_ptr|valid_ptr|]; clear Ho; intros ? Ho
  end; wp_simpl.
Ltac wp_run := repeat wp_step.

(** Two lists with the same cells. *)
Ltac solve_cells :=
  cbn [app] in *; rewrite <- ?app_assoc; cbn [app];
  repeat lazymatch goal with
  | |- [] ≡ₚ _ => done
  | |- _ :: _ ≡ₚ _ => eapply perm_find_1; [apply _|]
  | |- _ ++ _ ≡ₚ _ => eapply perm_find; [apply _|]
  | |- _ ≡ₚ _ => eapply perm_find_last; [apply _|]
  end.
Ltac own_exact :=
  match goal with
  | Ho : own ?s _ _ _ |- own ?s _ _ _ => refine (own_perm _ _ _ _ _ _ Ho); solve_cells
  end.

(** A pointer is among those of a tree. *)
Ltac in_elems := simpl; repeat (rewrite fmap_app; simpl); set_solver.

Section rotations.
Context {K : Type}.
Implicit Types (b : tree K) (s : RbTree (K := K)) (L : list (ptr * RbNode (K := K))).

(** The child takes the place of [self] under its parent, with its colour;
    [self] takes the colour of the child. *)
Lemma right_rotate_ok s rt L F self l w lx r k par c ll b parb kl L1 L2 L3 Q :
  own s rt L F ->
  Find [(self, Rb_node w lx r k)] L L1 ->
  Find [(l, cell par c ll (rootp b) kl)] L1 L2 -> valid par ->
  Find (cells b parb) L2 L3 -> valid parb ->
  (forall s', own s' rt
    ((self, cell (Some l) c (rootp b) r k) :: (l, Rb_node w ll (Some self) kl) ::
     cells b (Some self) ++ L3) F -> Q l s') ->
  wp (right_rotate self l) s Q.
Proof.
  intros Ho Hf1 Hf2 Hv Hf3 Hvb HQ. assert (L ≡ₚ (self, Rb_node w lx r k) ::
    (l, cell par c ll (rootp b) kl) :: cells b parb ++ L3) as HL.
  { unfold Find in *. by rewrite Hf1, Hf2, Hf3. }
  apply (own_perm _ _ _ _ _ HL) in Ho. clear L L1 L2 Hf1 Hf2 Hf3 HL.
  unfold right_rotate. wp_run. apply HQ. own_exact.
Qed.

Lemma left_rotate_ok s rt L F self r w l rx k par c rr b parb kr L1 L2 L3 Q :
  own s rt L F ->
  Find [(self, Rb_node w l rx k)] L L1 ->
  Find [(r, cell par c (rootp b) rr kr)] L1 L2 -> valid par ->
  Find (cells b parb) L2 L3 -> valid parb ->
  (forall s', own s' rt
    ((self, cell (Some r) c l (rootp b) k) :: (r, Rb_node w (Some self) rr kr) ::
     cells b (Some self) ++ L3) F -> Q r s') ->
  wp (left_rotate self r) s Q.
Proof.
  intros Ho Hf1 Hf2 Hv Hf3 Hvb HQ. assert (L ≡ₚ (self, Rb_node w l rx k) ::
    (r, cell par c (rootp b) rr kr) :: cells b parb ++ L3) as HL.
  { unfold Find in *. by rewrite Hf1, Hf2, Hf3. }
  apply (own_perm _ _ _ _ _ HL) in Ho. clear L L1 L2 Hf1 Hf2 Hf3 HL.
  unfold left_rotate. wp_run. apply HQ. own_exact.
Qed.

(** The root of a segment gets another parent. *)
Lemma wp_seg_reparent s rt L F base (ctx : list (frame K)) hole L' q x Q :
  own s rt L F -> Find (seg_cells (Some base) ctx hole) L L' -> ctx <> [] -> aligned base -> aligned q ->
  top ctx hole = Some x ->
  (forall s', own s' rt (seg_cells (Some q) ctx hole ++ L') F -> Q tt s') ->
  wp (set_parent x q) s Q.
Proof.
  intros Ho Hf Hn Hb Hq Hx HQ. apply (own_perm _ _ _ _ _ Hf) in Ho.
  destruct (exists_last Hn) as (ctx1 & g & ->). rewrite top_app in Hx. rewrite seg_cells_app in *.
  destruct g; simplify_eq/=; rewrite <- app_assoc in Ho;
    unfold set_parent; wp_run; apply HQ; rewrite <- pack_set_parent with (o := Some base); try done; own_exact.
Qed.
End rotations.

Ltac rotate_step :=
  lazymatch goal with
  | Ho : own _ _ _ _ |- wp (right_rotate _ _) _ _ =>
    eapply (right_rotate_ok _ _ _ _ _ _ _ _ _ _ _ _ _ _ _ _ _ _ _ _ Ho);
      [apply _|apply _|valid_ptr|apply _|valid_ptr|]; clear Ho; intros ? Ho
  | Ho : own _ _ _ _ |- wp (left_rotate _ _) _ _ =>
    eapply (left_rotate_ok _ _ _ _ _ _ _ _ _ _ _ _ _ _ _ _ _ _ _ _ Ho);
      [apply _|apply _|valid_ptr|apply _|valid_ptr|]; clear Ho; intros ? Ho
  end; wp_simpl.
Ltac wp_rotate := repeat first [wp_step | rotate_step].
