(* ===== verification/RbInsert.v ===== *)
(** * Insertion into the red-black tree

    The pointer code of insert.rs and of [insert] in rbtree.rs does to the nodes
    in memory what [fix_ins] of RbSpec.v does to trees. *)

From stdpp Require Import base tactics list gmap.
From S2P Require Import Prelude CMonad RbTree RbSpec RbHeap.
Local Open Scope Z_scope.

Section insert.
Context {K : Type} `{Ord K}.
Implicit Types (t : tree K) (f g : frame K) (ctx : list (frame K)) (s : RbTree (K := K)).

Definition in_left f : bool := match f with InL _ _ _ _ => true | InR _ _ _ _ => false end.

Definition context_for f g (cur : ptr) : InsertFixupContext :=
  Fixup_context cur (rootp (other g)) (frame_ptr f) (frame_ptr g) (in_left f) (in_left g).

Lemma context_root s F c a x k b Q :
  tree_at s [] (Node c a x k b) F -> Q None s -> wp (context_new x) s Q.
Proof. intros Ho HQ. unfold tree_at in Ho. simpl in Ho. unfold context_new. wp_run. done. Qed.

Lemma context_child s F f c a x k b Q :
  tree_at s [f] (Node c a x k b) F ->
  (forall s', tree_at s' [] (blacken (zip f (Node c a x k b))) F -> Q None s') ->
  wp (context_new x) s Q.
Proof.
  intros Ho HQ. unfold tree_at in Ho. destruct f; simpl in Ho; unfold context_new, new_with_parent; wp_run;
    apply HQ; unfold tree_at; simpl; own_exact.
Qed.

Lemma context_grandchild s F f g ctx c a x k b Q :
  tree_at s (f :: g :: ctx) (Node c a x k b) F -> Q (Some (context_for f g x)) s ->
  wp (context_new x) s Q.
Proof.
  intros Ho HQ. unfold tree_at in Ho.
  destruct f, g; simpl in Ho; unfold context_new, new_with_parent; wp_run; done.
Qed.

(** The subtree [t] is in memory, but its parent still points to [hole]. *)
Definition detached s ctx (hole : option ptr) t F : Prop :=
  own s (top ctx hole) (cells t (ctx_ptr ctx) ++ ctx_cells ctx hole) F.

Lemma fixup_rotate_ok s F f g ctx a x k b Q :
  tree_at s (f :: g :: ctx) (Node Red a x k b) F -> frame_color f = Red ->
  (forall s' q, rootp (ins_rotate f g (Node Red a x k b)) = Some q ->
    detached s' ctx (Some (frame_ptr g)) (ins_rotate f g (Node Red a x k b)) F -> Q q s') ->
  wp (fixup_rotate (context_for f g x)) s Q.
Proof.
  intros Ho Hf HQ. unfold tree_at in Ho.
  destruct f, g; simpl in *; subst; unfold fixup_rotate; simpl; wp_rotate;
    (eapply HQ; [done|]; unfold detached; simpl; own_exact).
Qed.

Definition attach (ggp : option ptr) (old new : ptr) : M (RbTree (K := K)) unit :=
  match ggp with
  | Some ggp => gg ← deref ggp ; set_child ggp (points_to (left gg) old) (Some new)
  | None => on_node new (put_parent null_node) ;; set_root (Some new)
  end.

(** Equal but for the colour of the root. *)
Definition same_tree s t F : Prop := exists t', tree_at s [] t' F /\ blacken t' = blacken t.

Lemma attach_ok s ctx (g : ptr) c a q k b F Q :
  detached s ctx (Some g) (Node c a q k b) F -> g ∈ (elems (Node c a q k b)).*1 ->
  (forall s', same_tree s' (plug ctx (Node c a q k b)) F -> Q tt s') ->
  wp (attach (ctx_ptr ctx) g q) s Q.
Proof.
  intros Ho Hg HQ. set (t := Node c a q k b) in *. unfold detached in Ho.
  assert (rootp t = Some q) as Hq by done.
  destruct ctx as [|[fc p fk r|fc l p fk] ctx].
  - simpl in *. wp_run. apply HQ. exists (blacken t). split; [|done]. unfold tree_at. simpl. own_exact.
  - clearbody t. simpl in *. wp_run. apply HQ. exists (plug (InL fc p fk r :: ctx) t). split; [|done].
    apply (tree_at_plug _ (InL _ _ _ _ :: _)). unfold tree_at. rewrite Hq. simpl. own_exact.
  - clearbody t. simpl in *. do 2 wp_step.
    rewrite points_to_ne by (eapply (own_not_inside _ _ _ _ _ _ _ _ _ _ _ Ho); [apply _..|done]).
    wp_run. apply HQ. exists (plug (InR fc l p fk :: ctx) t). split; [|done].
    apply (tree_at_plug _ (InR _ _ _ _ :: _)). unfold tree_at. rewrite Hq. simpl. own_exact.
Qed.

Lemma color_of_root s rt L F t par L' Q : own s rt L F -> Find (cells t par) L L' -> valid par ->
  Q (match t with Leaf => None | Node c _ _ _ _ => Some c end) s -> wp (color_of (rootp t)) s Q.
Proof.
  intros Ho Hf Hv HQ. apply (own_perm _ _ _ _ _ Hf) in Ho. destruct t; simpl in *; [by apply wp_ret|].
  wp_run. done.
Qed.

Lemma deref_frame s f ctx t F Q : tree_at s (f :: ctx) t F ->
  (forall l r k, valid (ctx_ptr ctx) -> Q (cell (ctx_ptr ctx) (frame_color f) l r k) s) ->
  wp (deref (frame_ptr f)) s Q.
Proof.
  intros Ho HQ. unfold tree_at in Ho. destruct f; simpl in *; wp_run; apply HQ; valid_ptr.
Qed.

Lemma color_of_other s f ctx t F Q : tree_at s (f :: ctx) t F ->
  Q (match other f with Leaf => None | Node c _ _ _ _ => Some c end) s ->
  wp (color_of (rootp (other f))) s Q.
Proof.
  intros Ho HQ. unfold tree_at in Ho.
  destruct f; simpl in *; (eapply color_of_root; [done|apply _|valid_ptr|done]).
Qed.

Lemma fixup_rotate_attach s F f g ctx a x k b Q :
  tree_at s (f :: g :: ctx) (Node Red a x k b) F -> frame_color f = Red ->
  (forall s', same_tree s' (plug ctx (ins_rotate f g (Node Red a x k b))) F -> Q tt s') ->
  wp (gn ← deref (frame_ptr g) ;
      new ← fixup_rotate (context_for f g x) ;
      attach (get_parent gn) (frame_ptr g) new) s Q.
Proof.
  intros Ho Hf HQ. apply wp_bind.
  eapply deref_frame; [by apply tree_at_zip in Ho|]. intros l r k' Hv.
  rewrite get_parent_cell by done. apply wp_bind.
  eapply fixup_rotate_ok; [done..|]. intros s' q Hq Ho'.
  assert (frame_ptr g ∈ (elems (ins_rotate f g (Node Red a x k b))).*1).
  { rewrite elems_ins_rotate. destruct g; in_elems. }
  destruct (ins_rotate f g (Node Red a x k b)); simplify_eq/=. by eapply attach_ok.
Qed.

(** The parent, its brother and the grandparent change colours. *)
Lemma fixup_recolor {A} s F f g ctx c a x k b uc ul u uk ur (m : M RbTree A) Q :
  tree_at s (f :: g :: ctx) (Node c a x k b) F -> other g = Node uc ul u uk ur ->
  (forall s', tree_at s' ctx (ins_recolor f g (Node c a x k b)) F -> wp m s' Q) ->
  wp (set_color (frame_ptr f) Black ;; set_color u Black ;; set_color (frame_ptr g) Red ;; m) s Q.
Proof.
  intros Ho Hg HQ. unfold tree_at in Ho.
  destruct f, g; simpl in Hg; subst; simpl in Ho |- *; do 6 wp_step; apply HQ; unfold tree_at; simpl;
    own_exact.
Qed.

Lemma ins_recolor_root f g t : exists l k r, ins_recolor f g t = Node Red l (frame_ptr g) k r.
Proof. destruct g; simpl; eauto. Qed.

(** What the loop does next after a change of colours. *)
Definition fixup_next (n : nat) (gp : ptr) : M (RbTree (K := K)) unit :=
  next ← context_new gp ;
  match next, n with
  | None, _ => ret tt
  | Some _, O => no_fuel
  | Some ctx, Datatypes.S n => fixup_loop n ctx
  end.

Lemma fixup_loop_eq n c :
  fixup_loop n c =
    (p ← deref (ctx_parent c) ;
     match get_color p with
     | Black => ret tt
     | Red =>
       uncle_color ← color_of (uncle c) ;
       match uncle c, uncle_color with
       | Some u, Some Red =>
         set_color (ctx_parent c) Black ;; set_color u Black ;; set_color (grandparent c) Red ;;
         fixup_next n (grandparent c)
       | _, _ =>
         g ← deref (grandparent c) ;
         new ← fixup_rotate c ;
         attach (get_parent g) (grandparent c) new
       end
     end).
Proof. by destruct n. Qed.

Lemma tree_at_same s ctx t F : tree_at s ctx t F -> same_tree s (plug ctx t) F.
Proof. intros Ho%tree_at_plug. by exists (plug ctx t). Qed.

Lemma fixup_step n ctx s F f g a x k b Q :
  let t := Node Red a x k b in
  tree_at s (f :: g :: ctx) t F ->
  (forall s', fix_ins (f :: g :: ctx) t = fix_ins ctx (ins_recolor f g t) ->
    tree_at s' ctx (ins_recolor f g t) F -> wp (fixup_next n (frame_ptr g)) s' Q) ->
  (forall s', same_tree s' (fix_ins (f :: g :: ctx) t) F -> Q tt s') ->
  wp (fixup_loop n (context_for f g x)) s Q.
Proof.
  intros t Ho Hnext HQ. subst t. cbn [fix_ins] in *. rewrite fixup_loop_eq. apply wp_bind.
  eapply deref_frame; [done|]. intros l r k' Hv. rewrite get_color_cell by done.
  destruct (frame_color f) eqn:Hf; [|by apply wp_ret, HQ, tree_at_same].
  apply wp_bind. eapply color_of_other; [by apply tree_at_zip in Ho|]. simpl.
  destruct (other g) as [|[] ul u uk ur] eqn:Hg; simpl in *.
  - by eapply fixup_rotate_attach.
  - eapply fixup_recolor; [done..|]. intros s' Ho'. by apply Hnext.
  - by eapply fixup_rotate_attach.
Qed.

Lemma fixup_loop_ok ctx : forall n s F f g a x k b Q,
  tree_at s (f :: g :: ctx) (Node Red a x k b) F -> (length ctx <= n)%nat ->
  (forall s', same_tree s' (fix_ins (f :: g :: ctx) (Node Red a x k b)) F -> Q tt s') ->
  wp (fixup_loop n (context_for f g x)) s Q.
Proof.
  induction ctx as [|f0|f0 g0 ctx IH] using ctx_ind2; intros n s F f g a x k b Q Ho Hn HQ;
    (eapply fixup_step; [done| |done]); intros s' He Ho'; rewrite He in HQ;
    destruct (ins_recolor_root f g (Node Red a x k b)) as (l & k' & r & Hr); rewrite Hr in *;
    apply wp_bind.
  - eapply context_root; [done|]. apply wp_ret, HQ. by apply (tree_at_same _ []).
  - eapply context_child; [done|]. intros s'' Ho''. apply wp_ret, HQ. by apply (tree_at_same _ []).
  - eapply context_grandchild; [done|]. destruct n as [|n]; [simpl in Hn; lia|].
    eapply IH; [done|simpl in Hn; lia|done].
Qed.

(** ** Fuel and the checks *)

Lemma wp_fuel s Q : Q (S (size (heap s))) s -> wp fuel s Q.
Proof. intros HQ. apply wp_bind, wp_gets, wp_ret, HQ. Qed.

Lemma own_size s rt L F : own s rt L F -> (length L <= size (heap s))%nat.
Proof.
  intros [Hn _ -> _]. rewrite <- (map_size_list_to_map (M := gmap Z) L) by done.
  apply map_subseteq_size, map_union_subseteq_l.
Qed.

Lemma cells_length t : forall par, length (cells t par) = length (elems t).
Proof.
  intros par. pose proof (cells_ptrs t par) as Hp%Permutation_length. by rewrite !length_fmap in Hp.
Qed.

Lemma tree_at_size s ctx t F : tree_at s ctx t F ->
  (length (elems (plug ctx t)) <= size (heap s))%nat.
Proof.
  intros Ho%tree_at_plug%own_size. rewrite length_app, cells_length in Ho. lia.
Qed.

Lemma height_size t : (height t <= length (elems t))%nat.
Proof. induction t; simpl; [done|]. rewrite length_app. simpl. lia. Qed.

Lemma ctx_size ctx t : (length ctx + length (elems t) <= length (elems (plug ctx t)))%nat.
Proof.
  revert t. induction ctx as [|f ctx IH]; intros t; simpl; [done|].
  specialize (IH (zip f t)). destruct f; simpl in *; rewrite length_app in *; simpl in *; lia.
Qed.

Lemma parent_check s rt L F t p L' m Q :
  own s rt L F -> Find (cells t (Some p)) L L' -> aligned p -> wp (if_some (rootp t) m) s Q ->
  wp (if_some (rootp t) (fun x => n ← deref x ; defined_if (points_to (get_parent n) p) ;; m x)) s Q.
Proof.
  intros Ho Hf Hp Hm. apply (own_perm _ _ _ _ _ Hf) in Ho. destruct t; simpl in *; [done|].
  wp_run. by apply wp_defined_if.
Qed.

Lemma relation_assert_loop_ok n t : forall s rt L F par L' Q,
  own s rt L F -> Find (cells t par) L L' -> valid par -> (height t <= n)%nat -> Q tt s ->
  wp (if_some (rootp t) (relation_assert_loop n)) s Q.
Proof.
  revert n. induction t as [|c l IHl p k r IHr]; intros n s rt L F par L' Q Ho Hf Hv Hn HQ.
  { by apply wp_ret. }
  destruct n as [|n]; simpl in Hn; [lia|]. simpl. apply (own_perm _ _ _ _ _ Hf) in Ho. simpl in Ho.
  wp_run. eapply parent_check; [done|apply _|valid_ptr|].
  eapply IHl; [done|apply _|valid_ptr|lia|]. eapply parent_check; [done|apply _|valid_ptr|].
  eapply IHr; [done|apply _|valid_ptr|lia|]. done.
Qed.

Lemma relation_assert_ok s t F Q : tree_at s [] t F -> Q tt s ->
  wp (if_some (rootp t) relation_assert) s Q.
Proof.
  intros Ho HQ. pose proof (tree_at_size _ _ _ _ Ho) as Hs. pose proof (height_size t) as Hh. simpl in Hs.
  assert (wp (if_some (rootp t) (relation_assert_loop (S (size (heap s))))) s Q) as Hw.
  { eapply relation_assert_loop_ok; [done|apply _|done|lia|done]. }
  destruct t as [|c l p k r]; [done|]. simpl in *. unfold relation_assert.
  apply wp_bind, wp_fuel, Hw.
Qed.

Lemma recolor_recolor c c' t : recolor c (recolor c' t) = recolor c t.
Proof. by destruct t. Qed.

Lemma fix_ins_leaf ctx c l p k r : fix_ins ctx (Node c l p k r) <> Leaf.
Proof.
  intros Hl. pose proof (elems_fix_ins ctx (Node c l p k r)) as He. rewrite Hl, elems_plug in He. simpl in He.
  apply (f_equal length) in He. rewrite !length_app in He. simpl in He. lia.
Qed.

(** The end of [insert_fixup]: the root turns black. *)
Lemma root_black_ok s F t Q : tree_at s [] t F -> t <> Leaf ->
  (forall s', tree_at s' [] (blacken t) F -> Q tt s') ->
  wp (r ← gets root ; if_some r (fun r => set_color r Black) ;;
      r ← gets root ; r ← expect r ; relation_assert r) s Q.
Proof.
  intros Ho Hl HQ. destruct t as [|c l p k r]; [done|]. apply wp_bind, wp_gets. rewrite (own_root _ _ _ _ Ho).
  unfold tree_at in Ho. simpl in *. wp_run. apply wp_gets. rewrite (own_root _ _ _ _ Ho). wp_run.
  eapply (relation_assert_ok _ (Node Black l p k r)); [|apply HQ]; unfold tree_at; simpl; own_exact.
Qed.

Lemma insert_fixup_ok s F ctx a x k b Q : tree_at s ctx (Node Red a x k b) F -> ctx <> [] ->
  (forall s', tree_at s' [] (blacken (fix_ins ctx (Node Red a x k b))) F -> Q tt s') ->
  wp (insert_fixup x) s Q.
Proof.
  intros Ho Hctx HQ. unfold insert_fixup.
  apply wp_bind. assert (valid (ctx_ptr ctx)) by (unfold tree_at in Ho; simpl in Ho; valid_ptr).
  eapply (wp_deref _ _ _ _ _ _ _ _ Ho); [apply _|]. simpl. rewrite get_color_cell by done. apply wp_bind.
  destruct ctx as [|f [|g ctx]]; [done| |].
  - eapply context_child; [done|]. intros s' Ho'. apply wp_ret, HQ. simpl in *.
    by rewrite recolor_recolor.
  - eapply context_grandchild; [done|]. apply wp_bind, wp_fuel, wp_bind.
    eapply fixup_loop_ok; [done| |].
    { pose proof (tree_at_size _ _ _ _ Ho) as Hs. pose proof (ctx_size (f :: g :: ctx) (Node Red a x k b)).
      simpl in *. lia. }
    intros s' (t & Ho' & Ht). rewrite <- Ht in HQ. eapply root_black_ok; [done| |done].
    intros ->. destruct (fix_ins_leaf (f :: g :: ctx) Red a x k b). by destruct (fix_ins _ _).
Qed.

(** ** Search *)

(** The node with key [k], or the leaf where it belongs, with the path to it. *)
Fixpoint descend t (k : K) ctx : list (frame K) * tree K :=
  match t with
  | Leaf => (ctx, Leaf)
  | Node c l p k' r =>
    match cmp k k' with
    | Eq => (ctx, t)
    | Lt => descend l k (InL c p k' r :: ctx)
    | Gt => descend r k (InR c l p k' :: ctx)
    end
  end.

Definition closest (z : list (frame K) * tree K) : option (ptr * comparison) :=
  match z.2 with
  | Node _ _ p _ _ => Some (p, Eq)
  | Leaf =>
    match z.1 with
    | InL _ p _ _ :: _ => Some (p, Lt)
    | InR _ _ p _ :: _ => Some (p, Gt)
    | [] => None
    end
  end.

Lemma descend_plug t k : forall ctx, plug (descend t k ctx).1 (descend t k ctx).2 = plug ctx t.
Proof. induction t as [|c l IHl p k' r IHr]; intros ctx; simpl; [done|]. destruct (cmp k k'); [done|apply IHl|apply IHr]. Qed.

Lemma search_loop_ok n t k : forall s rt L F par L' ctx Q,
  own s rt L F -> Find (cells t par) L L' -> (height t <= n)%nat -> Q (closest (descend t k ctx)) s ->
  wp (search_loop n (rootp t) k (closest (ctx, Leaf))) s Q.
Proof.
  revert n. induction t as [|c l IHl p k' r IHr]; intros n s rt L F par L' ctx Q Ho Hf Hn HQ.
  { destruct n; by apply wp_ret. }
  destruct n as [|n]; simpl in Hn; [lia|]. simpl in *. apply (own_perm _ _ _ _ _ Hf) in Ho. simpl in Ho.
  wp_run. revert HQ. destruct (cmp k k'); intros HQ.
  - by apply wp_ret.
  - eapply (IHl n _ _ _ _ _ _ (InL c p k' r :: ctx)); [done|apply _|lia|done].
  - eapply (IHr n _ _ _ _ _ _ (InR c l p k' :: ctx)); [done|apply _|lia|done].
Qed.

Lemma search_root_ok s t F k Q : tree_at s [] t F -> Q (closest (descend t k [])) s ->
  wp (match rootp t with
      | Some root_ptr => search_closest_and_recalc root_ptr k
      | None => ret None
      end) s Q.
Proof.
  intros Ho HQ. unfold search_closest_and_recalc.
  assert (wp (n ← fuel ; search_loop n (rootp t) k None) s Q) as Hw; [|by destruct t; [apply wp_ret|]].
  apply wp_bind, wp_fuel. eapply (search_loop_ok _ _ _ _ _ _ _ _ _ []); [done|apply _| |done].
  pose proof (tree_at_size _ _ _ _ Ho). pose proof (height_size t). simpl in *. lia.
Qed.

Lemma search_closest_ok s t F k Q : tree_at s [] t F -> Q (closest (descend t k [])) s ->
  wp (search_closest k) s Q.
Proof.
  intros Ho HQ. apply wp_bind, wp_gets. rewrite (own_root _ _ _ _ Ho). by eapply search_root_ok.
Qed.

(** ** Insertion *)

Lemma own_add s rt L F q n : own s rt L F -> aligned q -> q ∉ L.*1 -> heap s !! q = Some n ->
  own s rt ((q, n) :: L) F.
Proof.
  intros [Hn Ha Hh Hr] Hq Hi Hl. split; simpl; [by constructor|by constructor| |done].
  rewrite <- insert_union_l, <- Hh. by rewrite insert_id.
Qed.

(** The new node below the end of the path. *)
Lemma link_node_ok s rt ctx f q w k F ord Q :
  own s rt ((q, Rb_node w None None k) :: ctx_cells (f :: ctx) None) F ->
  closest (f :: ctx, Leaf) = Some (frame_ptr f, ord) -> rt = top (f :: ctx) None ->
  (forall s', tree_at s' (f :: ctx) (Node Red Leaf q k Leaf) F -> Q tt s') ->
  wp (link_node (frame_ptr f) q ord) s Q.
Proof.
  intros Ho Hc -> HQ. unfold link_node.
  destruct f; unfold closest in Hc; simpl in Ho, Hc; simplify_eq; cbn [frame_ptr]; wp_run; apply HQ; unfold tree_at; simpl; own_exact.
Qed.

Lemma insert_tree s t F q w k ctx Q :
  tree_at s [] t F -> aligned q -> q ∉ (elems t).*1 -> heap s !! q = Some (Rb_node w None None k) ->
  get_node_ptr w = 0 -> descend t k [] = (ctx, Leaf) ->
  (forall s', tree_at s' [] (blacken (fix_ins ctx (Node Red Leaf q k Leaf))) F -> Q tt s') ->
  wp (insert q) s Q.
Proof.
  intros Ho Hq Hi Hh Hw Hd HQ. unfold insert.
  assert (plug ctx Leaf = t) as Ht by (pose proof (descend_plug t k []) as Hp; by rewrite Hd in Hp).
  assert (q ∉ (ctx_cells ctx None).*1) as Hn.
  { by rewrite <- Ht, <- (cells_ptrs _ None), cells_plug in Hi. }
  apply wp_bind. eexists _, s. split; [unfold deref; run; by rewrite Hh|]. unfold get_parent. simpl.
  rewrite Hw. apply wp_bind, wp_defined_if; [done|]. apply wp_bind, wp_gets, wp_bind.
  rewrite (own_root _ _ _ _ Ho). simpl. eapply search_root_ok; [done|]. rewrite Hd.
  subst t. apply tree_at_plug in Ho. unfold tree_at in Ho.
  simpl in Ho. apply (own_add _ _ _ _ _ _ Ho) in Hh; [|done..]. clear Ho.
  destruct ctx as [|f ctx].
  - simpl. wp_run. apply HQ. unfold tree_at. simpl. own_exact.
  - assert (exists ord, closest (f :: ctx, Leaf) = Some (frame_ptr f, ord)) as [ord Hc]
      by (destruct f; by eexists).
    rewrite Hc. apply wp_bind. eapply link_node_ok; [done..|]. intros s' Ho. apply wp_bind.
    eapply insert_fixup_ok; [done..|]. intros s2 Ho2. apply wp_bind, wp_gets.
    rewrite (own_root _ _ _ _ Ho2). cbn [top]. rewrite rootp_recolor.
    destruct (rootp (fix_ins (f :: ctx) (Node Red Leaf q k Leaf))) eqn:Hr;
      [by apply wp_bind, wp_of_option, wp_ret, HQ|].
    destruct (fix_ins_leaf (f :: ctx) Red Leaf q k Leaf). by destruct (fix_ins _ _).
Qed.
End insert.
