(* ===== verification/RbIter.v ===== *)
(** * Iteration over the red-black tree

    The iterator of iter.rs visits the nodes in order: the position of the
    iterator is a node with the path to it. *)

From stdpp Require Import base tactics list gmap.
From S2P Require Import Prelude CMonad RbTree RbSpec RbHeap RbInsert.
Local Open Scope Z_scope.

Section iter.
Context {K : Type}.
Implicit Types (t : tree K) (ctx : list (frame K)) (s : RbTree (K := K)).

Lemma leftmost_loop_ok n t : forall s rt L F par L' p x Q,
  own s rt L F -> Find (cells t par) L L' -> rootp t = Some p -> (height t <= S n)%nat ->
  rootp (min_node t) = Some x -> Q x s -> wp (leftmost_loop n p) s Q.
Proof.
  revert n. induction t as [|c l IHl p k r IHr]; intros n s rt L F par L' q x Q Ho Hf Hq Hn Hx HQ; [done|].
  simplify_eq/=. apply (own_perm _ _ _ _ _ Hf) in Ho. simpl in Ho.
  destruct l as [|lc ll lp lk lr]; [destruct n; simpl in *; wp_run; by simplify_eq|].
  destruct n as [|n]; [simpl in Hn; lia|]. cbn [rootp leftmost_loop] in *. wp_run.
  eapply (IHl n); [done|apply _|done|lia|done|done].
Qed.

Lemma leftmost_ok s rt L F t par L' p x Q :
  own s rt L F -> Find (cells t par) L L' -> rootp t = Some p -> rootp (min_node t) = Some x ->
  Q x s -> wp (leftmost p) s Q.
Proof.
  intros Ho Hf Hp Hx HQ. apply wp_bind, wp_fuel. eapply leftmost_loop_ok; [done..| |done|done].
  pose proof (own_size _ _ _ _ Ho) as Hs. unfold Find in Hf. rewrite Hf, length_app, cells_length in Hs.
  pose proof (height_size t). lia.
Qed.

Lemma climb_loop_ok ctx : forall n s c l p k r F Q,
  tree_at s ctx (Node c l p k r) F -> (length ctx <= n)%nat -> Q (head (after ctx).*1) s ->
  wp (climb_loop n p) s Q.
Proof.
  induction ctx as [|[fc q fk fr|fc fl q fk] ctx IH]; intros n s c l p k r F Q Ho Hn HQ;
    (destruct n as [|n]; [try (simpl in Hn; lia)|]); pose proof Ho as Ht; unfold tree_at in Ho;
    simpl in Ho; cbn [climb_loop]; wp_run; try done.
  eapply (IH n s fc fl q fk (Node c l p k r)); [by apply tree_at_zip in Ht|simpl in Hn; lia|done].
Qed.

Lemma min_head t : head (elems t).*1 = rootp (min_node t).
Proof.
  destruct t as [|c l p k r]; [done|].
  destruct (min_node_shape (Node c l p k r)) as (c' & p' & k' & r' & Hm); [done|].
  by rewrite (elems_min _ _ _ _ _ Hm), Hm.
Qed.

Lemma next_node_ok s ctx c l p k r F Q :
  tree_at s ctx (Node c l p k r) F -> Q (head (elems r ++ after ctx).*1) s -> wp (next_node p) s Q.
Proof.
  intros Ho HQ. pose proof Ho as Ht. unfold tree_at in Ho. simpl in Ho. unfold next_node. wp_run.
  destruct r as [|rc rl q kq rr].
  - simpl. apply wp_bind, wp_fuel. eapply climb_loop_ok; [done| |done].
    pose proof (tree_at_size _ _ _ _ Ht). pose proof (ctx_size ctx (Node c l p k Leaf)). simpl in *. lia.
  - destruct (min_node_shape (Node rc rl q kq rr)) as (c' & x & k' & r' & Hm); [done|].
    cbn [rootp]. wp_run. eapply (leftmost_ok _ _ _ _ (Node rc rl q kq rr)); [done|apply _|done|by rewrite Hm|].
    wp_run. by rewrite fmap_app, (elems_min _ _ _ _ _ Hm) in HQ.
Qed.

(** Every element is the root of a subtree. *)
Lemma elems_split t : forall pre p k post ctx, elems t = pre ++ (p, k) :: post ->
  exists ctx' c l r, plug ctx' (Node c l p k r) = plug ctx t /\
    before ctx' ++ elems l = before ctx ++ pre /\ elems r ++ after ctx' = post ++ after ctx.
Proof.
  induction t as [|c l IHl q kq r IHr]; intros pre p k post ctx He; simpl in He.
  { by destruct pre. }
  apply app_eq_inv in He as [(m & H1 & H2)|(m & H1 & H2)].
  - destruct m as [|[q' k'] m]; simplify_eq/=.
    + exists ctx, c, l, r. rewrite H1. by rewrite app_nil_r.
    + destruct (IHl pre _ _ m (InL c q kq r :: ctx) H1) as (ctx' & c' & l' & r' & ? & ? & Ha).
      exists ctx', c', l', r'. split_and!; [done|done|]. by rewrite Ha, <- app_assoc.
  - destruct m as [|[q' k'] m]; simpl in H2.
    + injection H2 as <- <- <-. exists ctx, c, l, r. by rewrite H1, app_nil_r.
    + injection H2 as <- <- H2.
      destruct (IHr m p k post (InR c l q kq :: ctx) H2) as (ctx' & c' & l' & r' & ? & Hb & ?).
      exists ctx', c', l', r'. split_and!; [done| |done]. simpl in Hb. rewrite Hb, H1.
      by rewrite <- !app_assoc.
Qed.

Lemma iter_next_at s t F pre p k post Q :
  tree_at s [] t F -> elems t = pre ++ (p, k) :: post -> Q (Some p, head post.*1) s ->
  wp (iter_next (Some p)) s Q.
Proof.
  intros Ho He HQ. destruct (elems_split t pre p k post [] He) as (ctx & c & l & r & Hp & _ & Ha).
  rewrite app_nil_r in Ha. simpl in Hp. subst t. apply tree_at_plug in Ho. apply wp_bind.
  eapply next_node_ok; [done|]. rewrite Ha. by apply wp_ret.
Qed.

Lemma iter_first s t F Q : tree_at s [] t F -> Q (head (elems t).*1) s -> wp iter s Q.
Proof.
  intros Ho HQ. apply wp_bind, wp_gets. rewrite (own_root _ _ _ _ Ho). simpl.
  destruct t as [|c l p k r]; [by apply wp_ret|].
  destruct (min_node_shape (Node c l p k r)) as (c' & x & k' & r' & Hm); [done|].
  apply wp_bind. eapply (leftmost_ok _ _ _ _ (Node c l p k r)); [done|apply _|done|by rewrite Hm|].
  apply wp_ret. by rewrite (elems_min _ _ _ _ _ Hm) in HQ.
Qed.
End iter.
