(* ===== verification/RbDelete.v ===== *)
(** * Deletion from the red-black tree

    The pointer code of delete.rs does to the nodes in memory what [fix_del] and
    [del_at] of RbSpec.v do to trees. *)

From stdpp Require Import base tactics list gmap.
From S2P Require Import Prelude CMonad RbTree RbSpec RbHeap RbInsert RbIter.
Local Open Scope Z_scope.

#[local] Arguments del_black : simpl never.

Section delete.
Context {K : Type}.
Implicit Types (t : tree K) (f g : frame K) (ctx : list (frame K)) (s : RbTree (K := K)).

(** The root of the whole tree is black. *)
Definition black_top ctx (c : RbColor) : Prop := ctx = [] -> c = Black.

Lemma replace_child_ok s ctx (old : ptr) c a q k b F Q :
  detached s ctx (Some old) (Node c a q k b) F -> old ∈ (elems (Node c a q k b)).*1 ->
  black_top ctx c -> (forall s', tree_at s' ctx (Node c a q k b) F -> Q tt s') ->
  wp (replace_child (ctx_ptr ctx) old q) s Q.
Proof.
  intros Ho Hg Hc HQ. assert (rootp (Node c a q k b) = Some q) as Hq by done. unfold detached in Ho.
  destruct ctx as [|[fc p fk r|fc l p fk] ctx]; unfold replace_child.
  - rewrite Hc in * by done. simpl in *. wp_run. apply HQ. unfold tree_at. simpl. own_exact.
  - simpl in *. wp_run. apply wp_defined_if; [done|]. wp_run. apply HQ. unfold tree_at. simpl. own_exact.
  - assert (rootp l <> Some old) as Hl
      by (eapply (own_not_inside _ _ _ _ _ _ _ _ _ _ _ Ho); [apply _|cbn [ctx_cells]; apply _|done]).
    simpl in *. wp_run. rewrite (points_to_ne _ _ Hl). apply wp_defined_if; [done|]. wp_run.
    rewrite (points_to_ne _ _ Hl). wp_run. apply HQ. unfold tree_at. simpl. own_exact.
Qed.

Lemma rootp_some t : t <> Leaf -> exists p, rootp t = Some p.
Proof. destruct t; [done|]. by eexists. Qed.

Lemma red_sibling_left_ok s ctx t p k sl sb ks sr F Q :
  tree_at s (InL Black p k (Node Red sl sb ks sr) :: ctx) t F -> sl <> Leaf ->
  (forall s' sp, rootp sl = Some sp ->
    tree_at s' (InL Red p k sl :: InL Black sb ks sr :: ctx) t F ->
    Q (Rebalance_state (Some sb) Red sp) s') ->
  wp (red_sibling_left p) s Q.
Proof.
  intros Ho Hsl HQ. destruct (rootp_some sl Hsl) as [sp Hsp].
  unfold tree_at in Ho. simpl in Ho. unfold red_sibling_left. wp_run.
  apply wp_defined_if; [by rewrite Hsp|]. wp_rotate. rewrite Hsp. do 2 wp_step.
  eapply (replace_child_ok _ _ _ _ (Node Red t p k sl) _ _ sr); [unfold detached; simpl; own_exact|in_elems|done|].
  intros s2 Ho2. wp_run. apply HQ; [done|]. by rewrite !tree_at_zip.
Qed.

Lemma red_sibling_right_ok s ctx t p k sl sb ks sr F Q :
  tree_at s (InR Black (Node Red sl sb ks sr) p k :: ctx) t F -> sr <> Leaf ->
  (forall s' sp, rootp sr = Some sp ->
    tree_at s' (InR Red sr p k :: InR Black sl sb ks :: ctx) t F ->
    Q (Rebalance_state (Some sb) Red sp) s') ->
  wp (red_sibling_right p) s Q.
Proof.
  intros Ho Hsr HQ. destruct (rootp_some sr Hsr) as [sp Hsp].
  unfold tree_at in Ho. simpl in Ho. unfold red_sibling_right. wp_run.
  apply wp_defined_if; [by rewrite Hsp|]. wp_rotate. rewrite Hsp. do 2 wp_step.
  eapply (replace_child_ok _ _ _ _ sl _ _ (Node Red sr p k t)); [unfold detached; simpl; own_exact|in_elems|done|].
  intros s2 Ho2. wp_run. apply HQ; [done|]. by rewrite !tree_at_zip.
Qed.

(** The rest of the loop's body, for a black sibling. *)
Definition black_left (p : ptr) (st : Rebalance) : M (RbTree (K := K)) (option (ptr * bool)) :=
  sn ← deref (rb_sibling st) ;
  l ← color_of (left sn) ;
  r ← color_of (right sn) ;
  if is_red r then
    far ← expect (right sn) ;
    np ← far_red_left p (rb_sibling st) far ;
    replace_child (rb_grandparent st) p np ;; ret None
  else if is_red l then
    close ← expect (left sn) ;
    np ← close_red_left p (rb_sibling st) close ;
    replace_child (rb_grandparent st) p np ;; ret None
  else recolor_sibling p st.

(** Where the loop goes on. *)
Definition next_of (ctx : list (frame K)) (missing : bool) : option (ptr * bool) :=
  match missing, ctx with
  | true, g :: _ => Some (frame_ptr g, in_left g)
  | _, _ => None
  end.

Lemma far_red_left_ok s ctx t c p k sl q ks rl r kr rr F Q :
  tree_at s (InL c p k (Node Black sl q ks (Node Red rl r kr rr)) :: ctx) t F ->
  (forall s', detached s' ctx (Some p) (Node c (Node Black t p k sl) q ks (Node Black rl r kr rr)) F ->
    Q q s') ->
  wp (far_red_left p q r) s Q.
Proof.
  intros Ho HQ. unfold tree_at in Ho. simpl in Ho. unfold far_red_left. wp_rotate.
  apply HQ. unfold detached. simpl. own_exact.
Qed.

Lemma close_red_left_ok s ctx t c p k cl q kq cr sb ks sr F Q :
  tree_at s (InL c p k (Node Black (Node Red cl q kq cr) sb ks sr) :: ctx) t F ->
  (forall s', detached s' ctx (Some p) (Node c (Node Black t p k cl) q kq (Node Black cr sb ks sr)) F ->
    Q q s') ->
  wp (close_red_left p sb q) s Q.
Proof.
  intros Ho HQ. unfold tree_at in Ho. simpl in Ho. unfold close_red_left. wp_rotate.
  apply HQ. unfold detached. simpl. own_exact.
Qed.

Lemma go_up_ok s ctx c l p k r F Q :
  tree_at s ctx (Node c l p k r) F -> Q (next_of ctx true) s ->
  wp (match ctx_ptr ctx with
      | Some gp => g ← deref gp ; ret (Some (gp, points_to (left g) p))
      | None => ret None
      end) s Q.
Proof.
  intros Ho HQ. unfold tree_at in Ho. destruct ctx as [|[] ctx]; simpl in *; wp_run; done.
Qed.

Lemma recolor_left_ok s ctx t c p k sl q ks sr F Q :
  tree_at s (InL c p k (Node Black sl q ks sr) :: ctx) t F ->
  (forall s', tree_at s' ctx (Node Black t p k (Node Red sl q ks sr)) F ->
    Q (next_of ctx (bool_decide (c = Black))) s') ->
  wp (recolor_sibling p (Rebalance_state (ctx_ptr ctx) c q)) s Q.
Proof.
  intros Ho HQ. unfold tree_at in Ho. simpl in Ho. unfold recolor_sibling. simpl. wp_run.
  destruct c; wp_run.
  - apply HQ. unfold tree_at. simpl. own_exact.
  - assert (tree_at s' ctx (Node Black t p k (Node Red sl q ks sr)) F) as Ht
      by (unfold tree_at; simpl; own_exact).
    eapply go_up_ok; [done|]. by apply HQ.
Qed.

Lemma black_left_ok s ctx t c p k sl q ks sr F Q :
  let r := del_black (InL c p k (Node Black sl q ks sr)) t in
  tree_at s (InL c p k (Node Black sl q ks sr) :: ctx) t F -> black_top ctx c ->
  (forall s', tree_at s' ctx r.1 F -> Q (next_of ctx r.2) s') ->
  wp (black_left p (Rebalance_state (ctx_ptr ctx) c q)) s Q.
Proof.
  intros res Ho Hb HQ. subst res. unfold black_left. cbn [rb_sibling rb_grandparent rb_parent_color].
  pose proof Ho as Hs. unfold tree_at in Ho. simpl in Ho. unfold del_black in HQ.
  simpl in HQ. wp_run. eapply color_of_root; [done|apply _|valid_ptr|]. apply wp_bind.
  eapply color_of_root; [done|apply _|valid_ptr|]. clear Ho.
  destruct sr as [|[] rl r kr rr]; cbn [root_color rootp is_red] in *; [|do 3 wp_step|].
  2:{ eapply far_red_left_ok; [done|]. intros s' Ho. apply wp_bind.
      eapply (replace_child_ok _ _ _ _ (Node Black t p k sl)); [done|in_elems|done|].
      intros s2 Ho2. apply wp_ret. by apply HQ. }
  all: destruct sl as [|[] cl x kx cr]; cbn [rootp is_red] in *;
    [by eapply recolor_left_ok| |by eapply recolor_left_ok]; do 3 wp_step;
    (eapply close_red_left_ok; [done|]; intros s' Ho; apply wp_bind);
    (eapply (replace_child_ok _ _ _ _ (Node Black t p k cl)); [done|in_elems|done|]);
    intros s2 Ho2; apply wp_ret; by apply HQ.
Qed.

Definition black_right (p : ptr) (st : Rebalance) : M (RbTree (K := K)) (option (ptr * bool)) :=
  sn ← deref (rb_sibling st) ;
  l ← color_of (left sn) ;
  r ← color_of (right sn) ;
  if is_red l then
    far ← expect (left sn) ;
    np ← far_red_right p (rb_sibling st) far ;
    replace_child (rb_grandparent st) p np ;; ret None
  else if is_red r then
    close ← expect (right sn) ;
    np ← close_red_right p (rb_sibling st) close ;
    replace_child (rb_grandparent st) p np ;; ret None
  else recolor_sibling p st.

Lemma far_red_right_ok s ctx t c p k ll l kl lr q ks sr F Q :
  tree_at s (InR c (Node Black (Node Red ll l kl lr) q ks sr) p k :: ctx) t F ->
  (forall s', detached s' ctx (Some p) (Node c (Node Black ll l kl lr) q ks (Node Black sr p k t)) F ->
    Q q s') ->
  wp (far_red_right p q l) s Q.
Proof.
  intros Ho HQ. unfold tree_at in Ho. simpl in Ho. unfold far_red_right. wp_rotate.
  apply HQ. unfold detached. simpl. own_exact.
Qed.

Lemma close_red_right_ok s ctx t c p k cl q kq cr sb ks sl F Q :
  tree_at s (InR c (Node Black sl sb ks (Node Red cl q kq cr)) p k :: ctx) t F ->
  (forall s', detached s' ctx (Some p) (Node c (Node Black sl sb ks cl) q kq (Node Black cr p k t)) F ->
    Q q s') ->
  wp (close_red_right p sb q) s Q.
Proof.
  intros Ho HQ. unfold tree_at in Ho. simpl in Ho. unfold close_red_right. wp_rotate.
  apply HQ. unfold detached. simpl. own_exact.
Qed.

Lemma recolor_right_ok s ctx t c p k sl q ks sr F Q :
  tree_at s (InR c (Node Black sl q ks sr) p k :: ctx) t F ->
  (forall s', tree_at s' ctx (Node Black (Node Red sl q ks sr) p k t) F ->
    Q (next_of ctx (bool_decide (c = Black))) s') ->
  wp (recolor_sibling p (Rebalance_state (ctx_ptr ctx) c q)) s Q.
Proof.
  intros Ho HQ. unfold tree_at in Ho. simpl in Ho. unfold recolor_sibling. simpl. wp_run.
  destruct c; wp_run.
  - apply HQ. unfold tree_at. simpl. own_exact.
  - assert (tree_at s' ctx (Node Black (Node Red sl q ks sr) p k t) F) as Ht
      by (unfold tree_at; simpl; own_exact).
    eapply go_up_ok; [done|]. by apply HQ.
Qed.

Lemma black_right_ok s ctx t c p k sl q ks sr F Q :
  let r := del_black (InR c (Node Black sl q ks sr) p k) t in
  tree_at s (InR c (Node Black sl q ks sr) p k :: ctx) t F -> black_top ctx c ->
  (forall s', tree_at s' ctx r.1 F -> Q (next_of ctx r.2) s') ->
  wp (black_right p (Rebalance_state (ctx_ptr ctx) c q)) s Q.
Proof.
  intros res Ho Hb HQ. subst res. unfold black_right. cbn [rb_sibling rb_grandparent rb_parent_color].
  pose proof Ho as Hs. unfold tree_at in Ho. simpl in Ho. unfold del_black in HQ.
  simpl in HQ. wp_run. eapply color_of_root; [done|apply _|valid_ptr|]. apply wp_bind.
  eapply color_of_root; [done|apply _|valid_ptr|]. clear Ho.
  destruct sl as [|[] ll l kl lr]; cbn [root_color rootp is_red] in *; [|do 3 wp_step|].
  2:{ eapply far_red_right_ok; [done|]. intros s' Ho. apply wp_bind.
      eapply (replace_child_ok _ _ _ _ (Node Black ll l kl lr)); [done|in_elems|done|].
      intros s2 Ho2. apply wp_ret. by apply HQ. }
  all: destruct sr as [|[] cl x kx cr]; cbn [rootp is_red] in *;
    [by eapply recolor_right_ok| |by eapply recolor_right_ok]; do 3 wp_step;
    (eapply close_red_right_ok; [done|]; intros s' Ho; apply wp_bind);
    (eapply (replace_child_ok _ _ _ _ _ _ _ (Node Black cr p k t)); [done|in_elems|done|]);
    intros s2 Ho2; apply wp_ret; by apply HQ.
Qed.

(** ** The loop *)

Lemma red_sibling_black_left s ctx t c p k sl q ks sr F Q :
  tree_at s (InL c p k (Node Black sl q ks sr) :: ctx) t F ->
  Q (Rebalance_state (ctx_ptr ctx) c q) s -> wp (red_sibling_left p) s Q.
Proof.
  intros Ho HQ. unfold tree_at in Ho. simpl in Ho. unfold red_sibling_left. wp_run. done.
Qed.

Lemma red_sibling_black_right s ctx t c p k sl q ks sr F Q :
  tree_at s (InR c (Node Black sl q ks sr) p k :: ctx) t F ->
  Q (Rebalance_state (ctx_ptr ctx) c q) s -> wp (red_sibling_right p) s Q.
Proof.
  intros Ho HQ. unfold tree_at in Ho. simpl in Ho. unfold red_sibling_right. wp_run. done.
Qed.

Abbreviation rebalance_once f :=
  (if in_left f then rebalance_left (frame_ptr f) else rebalance_right (frame_ptr f)).

(** One turn of the loop with a black sibling. *)
Lemma once_black s f ctx t m F Q :
  tree_at s (f :: ctx) t F -> rb Black (S m) (other f) -> black_top ctx (frame_color f) ->
  (forall s', tree_at s' ctx (del_black f t).1 F -> Q (next_of ctx (del_black f t).2) s') ->
  wp (rebalance_once f) s Q.
Proof.
  intros Ho Hr Hb HQ. apply rb_black_inv in Hr as (cl & cr & sl & q & ks & sr & Hr & _ & _).
  destruct f as [c p k o|c o p k]; simpl in Hr, Hb |- *; subst o; apply wp_bind.
  - eapply red_sibling_black_left; [done|]. by eapply black_left_ok.
  - eapply red_sibling_black_right; [done|]. by eapply black_right_ok.
Qed.

(** A red frame leaves nothing missing. *)
Lemma del_black_red f t m : rb Black (S m) (other f) -> frame_color f = Red -> (del_black f t).2 = false.
Proof.
  intros Hr Hc. apply rb_black_inv in Hr as (cl & cr & sl & q & ks & sr & Hr & _ & _).
  unfold del_black. destruct f as [c p k o|c o p k]; simplify_eq/=.
  - by destruct (root_color sr), sl as [|[] ? ? ? ?].
  - by destruct (root_color sl), sr as [|[] ? ? ? ?].
Qed.

Lemma once_red s f ctx t m F Q :
  tree_at s (f :: ctx) t F -> rb Red (S m) (other f) -> frame_color f = Black ->
  (forall s', tree_at s' ctx (zip (del_red f).2 (del_black (del_red f).1 t).1) F -> Q None s') ->
  wp (rebalance_once f) s Q.
Proof.
  intros Ho Hr Hc HQ. pose proof (del_red_rb f m Hc Hr) as Hd.
  destruct f as [c p k o|c o p k]; inversion Hr as [|? sl sb ks sr Hl Hr'|]; simplify_eq/=;
    destruct Hd as (_ & _ & Hf & Hg); apply wp_bind.
  - eapply red_sibling_left_ok; [done|by inversion Hf|]. intros s' sp Hsp Ho'.
    pose proof (del_black_red (InL Red p k sl) t m Hf eq_refl) as Hd.
    apply rb_black_inv in Hf as (? & ? & ? & ? & ? & ? & -> & _ & _). simplify_eq/=.
    eapply (black_left_ok _ (InL Black sb ks sr :: ctx)); [done..|]. rewrite Hd.
    intros s2 Ho2. by apply HQ, (tree_at_zip _ (InL Black sb ks sr)).
  - eapply red_sibling_right_ok; [done|by inversion Hf|]. intros s' sp Hsp Ho'.
    pose proof (del_black_red (InR Red sr p k) t m Hf eq_refl) as Hd.
    apply rb_black_inv in Hf as (? & ? & ? & ? & ? & ? & -> & _ & _). simplify_eq/=.
    eapply (black_right_ok _ (InR Black sl sb ks :: ctx)); [done..|]. rewrite Hd.
    intros s2 Ho2. by apply HQ, (tree_at_zip _ (InR Black sl sb ks)).
Qed.

Lemma ctx_rb_top c n ctx : ctx_rb c n ctx -> black_top ctx c.
Proof. intros Hc ->. by inversion Hc. Qed.

(** One turn: done, or one level up. *)
Lemma once_ok s f ctx t m F Q :
  tree_at s (f :: ctx) t F -> ctx_rb Black (S m) (f :: ctx) -> rb Black m t ->
  (forall s' t', fix_del (f :: ctx) t = fix_del ctx t' -> ctx_rb Black (S (S m)) ctx ->
    rb Black (S m) t' -> tree_at s' ctx t' F -> Q (next_of ctx true) s') ->
  (forall s', tree_at s' [] (fix_del (f :: ctx) t) F -> Q None s') ->
  wp (rebalance_once f) s Q.
Proof.
  intros Ho Hc Ht Hup HQ. cbn [fix_del] in *.
  inversion Hc as [|? ? ? Hf Hr Hctx|? co ? ? ? Hf Hr Hctx]; simplify_eq;
    rewrite (rb_root_color _ _ _ Hr) in *; [|destruct co].
  - eapply once_black; [done..|rewrite Hf; by eapply ctx_rb_top|]. intros s' Ho'.
    pose proof (del_black_red f t m Hr Hf) as Hd. destruct (del_black f t) as [t' b]. simpl in *. subst b.
    by apply HQ, (tree_at_plug _ ctx).
  - eapply once_red; [done..|]. intros s' Ho'. destruct (del_red f) as [f' g'].
    by apply HQ, (tree_at_plug _ ctx).
  - eapply once_black; [done..|rewrite Hf; by eapply ctx_rb_top|]. intros s' Ho'.
    pose proof (del_black_rb f t m Ht Hr) as Hd. destruct (del_black f t) as [t' []]; simpl in *.
    + destruct Hd as [_ Hd]. by eapply Hup.
    + by apply HQ, (tree_at_plug _ ctx).
Qed.

Lemma rebalance_loop_eq n p b : rebalance_loop n p b =
  (next ← (if b then rebalance_left p else rebalance_right p) ;
   match next, n with
   | None, _ => ret tt
   | Some _, O => no_fuel
   | Some (p, is_left), Datatypes.S n => rebalance_loop (K := K) n p is_left
   end).
Proof. by destruct n. Qed.

Lemma rebalance_loop_ok ctx : forall n m f t s F Q,
  tree_at s (f :: ctx) t F -> ctx_rb Black (S m) (f :: ctx) -> rb Black m t ->
  (length ctx <= n)%nat -> (forall s', tree_at s' [] (fix_del (f :: ctx) t) F -> Q tt s') ->
  wp (rebalance_loop n (frame_ptr f) (in_left f)) s Q.
Proof.
  induction ctx as [|g ctx IH]; intros n m f t s F Q Ho Hc Ht Hn HQ; rewrite rebalance_loop_eq;
    apply wp_bind; (eapply once_ok; [done..| |by intros; apply wp_ret, HQ]);
    intros s' t' He Hc' Ht' Ho'; rewrite He in HQ; simpl.
  - by apply wp_ret, HQ.
  - destruct n as [|n]; [simpl in Hn; lia|]. eapply IH; [done..|simpl in Hn; lia|done].
Qed.

Lemma rebalance_ok s f ctx t m F Q :
  tree_at s (f :: ctx) t F -> ctx_rb Black (S m) (f :: ctx) -> rb Black m t ->
  (forall s', tree_at s' [] (fix_del (f :: ctx) t) F -> Q tt s') ->
  wp (rebalance_black_height (frame_ptr f) (in_left f)) s Q.
Proof.
  intros Ho Hc Ht HQ. apply wp_bind, wp_fuel. eapply rebalance_loop_ok; [done..| |done].
  pose proof (tree_at_size _ _ _ _ Ho). pose proof (ctx_size (f :: ctx) t). simpl in *. lia.
Qed.

(** ** Unlinking the node *)

(** A black node without children goes. *)
Definition missing (c : RbColor) t : bool :=
  match t, c with Leaf, Black => true | _, _ => false end.

(** The node at [p] has been taken out, but for the pointer to it from [ctx]:
    with [new] in its place there the tree is [blacken t] at [ctx']. *)
Definition taken_out s ctx (p : ptr) k F ctx' c t (new : option ptr) (balance : option (ptr * bool)) : Prop :=
  exists n L0, own s (top ctx (Some p)) ((p, n) :: L0 ++ ctx_cells ctx (Some p)) F /\ key n = k /\
    L0 ++ ctx_cells ctx new ≡ₚ cells (blacken t) (ctx_ptr ctx') ++ ctx_cells ctx' (rootp t) /\
    top ctx new = top ctx' (rootp t) /\ balance = next_of ctx' (missing c t).

Lemma delete_one_ok s ctx n p k c t F x w Q :
  own s (top ctx (Some p)) ((p, n) :: cells t (Some p) ++ ctx_cells ctx (Some p)) F -> key n = k ->
  rootp t = Some x -> w = pack (ctx_ptr ctx) c ->
  (forall s' new b, taken_out s' ctx p k F ctx c t new b -> Q (new, b) s') ->
  wp (delete_one x w) s Q.
Proof.
  intros Ho Hk Hx -> HQ. destruct t as [|tc tl y ky tr]; simplify_eq/=. unfold delete_one. wp_run.
  apply HQ. eexists n, (cells (Node Black tl x ky tr) (ctx_ptr ctx)). simpl.
  split_and!; [own_exact|done..].
Qed.

Lemma delete_none_ok s ctx n p k c F Q :
  own s (top ctx (Some p)) ((p, n) :: ctx_cells ctx (Some p)) F -> key n = k ->
  (forall s' new b, taken_out s' ctx p k F ctx c Leaf new b -> Q (new, b) s') ->
  wp (delete_none p (ctx_ptr ctx) c) s Q.
Proof.
  intros Ho Hk HQ.
  assert (forall b, b = next_of ctx (missing c Leaf) -> taken_out s ctx p k F ctx c Leaf None b) as Ht.
  { intros b ->. exists n, []. by split_and!. }
  unfold delete_none. destruct ctx as [|[fc q fk r|fc l q fk] ctx], c; simpl in *; wp_run; by apply HQ, Ht.
Qed.

(** The path to the first element only goes left. *)
Lemma min_ctx_left t : forall acc,
  min_ctx t acc = acc \/ exists c q k r rest, min_ctx t acc = InL c q k r :: rest.
Proof.
  induction t as [|c l IHl p k r IHr]; intros acc; simpl; [by left|].
  destruct l as [|lc ll lp lk lr] eqn:Hl; [by left|]. rewrite <- Hl in *.
  right. destruct (IHl (InL c p k r :: acc)) as [->|?]; eauto 10.
Qed.

(** The successor that the iterator computes in advance, and nobody uses. *)
Lemma successor_next_ok s rt L F p (l r : tree K) k mctx sc x ks sr L' Q :
  own s rt L F ->
  Find ((p, cell None Black (rootp l) (rootp r) k) :: cells l (Some p) ++
    cells (Node sc Leaf x ks sr) (seg_ptr (Some p) mctx) ++ seg_cells (Some p) mctx (Some x)) L L' ->
  mctx = [] \/ (exists c q k r rest, mctx = InL c q k r :: rest) ->
  (forall y, Q y s) -> wp (next_node x) s Q.
Proof.
  intros Ho Hf Hm HQ. apply (own_perm _ _ _ _ _ Hf) in Ho. simpl in Ho. clear Hf. unfold next_node.
  assert (valid (seg_ptr (Some p) mctx)) as Hv.
  { destruct Hm as [->|(c & q & k' & r' & rest & ->)]; simpl in *; valid_ptr. }
  wp_run. destruct sr as [|rc rl q kq rr].
  - simpl. apply wp_bind, wp_fuel. cbn [climb_loop].
    destruct Hm as [->|(c & q & k' & r' & rest & ->)]; simpl in *; wp_run; [|done].
    destruct (size (heap s)) eqn:Hs; [|simpl; wp_run; done].
    apply own_size in Ho. simpl in Ho. lia.
  - destruct (min_node_shape (Node rc rl q kq rr)) as (c' & y & k' & r' & Hmin); [done|].
    cbn [rootp]. wp_run.
    eapply (leftmost_ok _ _ _ _ (Node rc rl q kq rr)); [done|apply _|done|by rewrite Hmin|]. by wp_run.
Qed.

(** The end of the case of two children: the child of the successor moves up. *)
Definition lift_child (successor : ptr) (child : option ptr) (sc : RbColor) (sp : ptr) (is_left : bool)
    : M (RbTree (K := K)) (option ptr * option (ptr * bool)) :=
  match child with
  | Some c => on_node c (put_parent (with_color sp Black)) ;; ret (Some successor, None)
  | None =>
    match sc with
    | Black => ret (Some successor, Some (sp, is_left))
    | Red => ret (Some successor, None)
    end
  end.

Lemma lift_child_ok s rt L F sr x sc sp b L' Q :
  own s rt L F -> Find (cells sr (Some x)) L L' ->
  (forall s', own s' rt (cells (blacken sr) (Some sp) ++ L') F ->
    Q (Some x, if missing sc sr then Some (sp, b) else None) s') ->
  wp (lift_child x (rootp sr) sc sp b) s Q.
Proof.
  intros Ho Hf HQ. apply (own_perm _ _ _ _ _ Hf) in Ho. unfold lift_child.
  destruct sr as [|rc rl q kq rr]; simpl in *; [destruct sc; by apply wp_ret, HQ|].
  wp_run. by apply HQ.
Qed.

(** The successor is the right child itself. *)
Lemma successor_near_ok s ctx p n k l c x ks sc sr F lp Q :
  own s (top ctx (Some p))
    ((p, n) :: cells l (Some p) ++ cells (Node sc Leaf x ks sr) (Some p) ++ ctx_cells ctx (Some p)) F ->
  key n = k -> rootp l = Some lp ->
  (forall s' new b, taken_out s' ctx p k F (InR c l x ks :: ctx) sc sr new b -> Q (new, b) s') ->
  wp ('(sp, is_left) ← (on_node x (put_parent (pack (ctx_ptr ctx) c)) ;;
        on_node x (put_left (Some lp)) ;; set_parent lp x ;; ret (x, false)) ;
      lift_child x (rootp sr) sc sp is_left) s Q.
Proof.
  intros Ho Hk Hl HQ. simpl in Ho. do 8 wp_step.
  eapply (wp_set_parent _ _ _ _ l); [done|apply _|done|valid_ptr|valid_ptr|]. clear Ho. intros s2 Ho.
  do 2 wp_step. eapply lift_child_ok; [done|apply _|]. clear Ho. intros s3 Ho. apply HQ.
  eexists n, ((x, cell (ctx_ptr ctx) c (rootp l) (rootp sr) ks) :: cells l (Some x) ++
    cells (blacken sr) (Some x)).
  rewrite Hl. split_and!; [own_exact|done| |done|by destruct sr, sc].
  cbn [ctx_cells ctx_ptr frame_ptr]. rewrite Hl. solve_cells.
Qed.

(** The successor is further down. *)
Lemma successor_far_ok s ctx p k l c x ks sc sr fc q fk fr rest F lp rp Q :
  let mctx := InL fc q fk fr :: rest in
  own s (top ctx (Some p))
    ((p, cell None Black (Some lp) (Some rp) k) :: cells l (Some p) ++
     cells (Node sc Leaf x ks sr) (Some q) ++ seg_cells (Some p) mctx (Some x) ++ ctx_cells ctx (Some p)) F ->
  rootp l = Some lp -> top mctx (Some x) = Some rp ->
  (forall s' new b, taken_out s' ctx p k F (mctx ++ InR c l x ks :: ctx) sc sr new b -> Q (new, b) s') ->
  wp ('(sp, is_left) ← (swap p x ;;
       on_node x (put_parent (pack (ctx_ptr ctx) c)) ;;
       o ← deref x ;
       if_some (left o) (fun l => set_parent l x) ;;
       o ← deref x ;
       r ← expect (right o) ;
       set_parent r x ;;
       s ← deref p ;
       sp ← expect (get_parent s) ;
       on_node sp (put_left (right s)) ;;
       ret (sp, true)) ;
      lift_child x (rootp sr) sc sp is_left) s Q.
Proof.
  intros mctx Ho Hl Hr HQ. cbn [cells app] in Ho. unfold swap. wp_run. cbn [if_some].
  eapply (wp_set_parent _ _ _ _ l); [done|apply _|done|valid_ptr|valid_ptr|]. clear Ho. intros s2 Ho.
  wp_run. eapply (wp_seg_reparent _ _ _ _ _ mctx); [done|apply _|done|valid_ptr|valid_ptr|done|].
  clear Ho. intros s3 Ho. subst mctx. cbn [seg_cells app] in Ho. wp_run.
  eapply lift_child_ok; [done|apply _|]. clear Ho. intros s4 Ho. apply HQ.
  eexists _, (cells (blacken sr) (Some q) ++ seg_cells (Some x) (InL fc q fk fr :: rest) (rootp sr) ++
    (x, cell (ctx_ptr ctx) c (Some lp) (Some rp) ks) :: cells l (Some x)).
  split_and!; [cbn [seg_cells]; own_exact|done| |by rewrite top_app|by destruct sr, sc].
  rewrite ctx_cells_right, Hl. cbn [top frame_ptr] in Hr |- *. rewrite Hr. cbn [ctx_ptr frame_ptr app].
  solve_cells.
Qed.

Lemma delete_two_ok s ctx p k l r c x ks sc sr F lp rp Q :
  own s (top ctx (Some p)) ((p, cell None Black (Some lp) (Some rp) k) :: cells l (Some p) ++
    cells r (Some p) ++ ctx_cells ctx (Some p)) F ->
  rootp l = Some lp -> rootp r = Some rp -> min_node r = Node sc Leaf x ks sr ->
  (forall s' new b, taken_out s' ctx p k F (min_ctx r [] ++ InR c l x ks :: ctx) sc sr new b ->
    Q (new, b) s') ->
  wp (delete_two p lp rp (pack (ctx_ptr ctx) c)) s Q.
Proof.
  intros Ho Hl Hr Hm HQ. unfold delete_two. apply wp_bind, wp_bind.
  eapply (leftmost_ok _ _ _ _ r); [done|apply _|done|by rewrite Hm|]. do 2 wp_step.
  assert (cells r (Some p) ≡ₚ cells (Node sc Leaf x ks sr) (seg_ptr (Some p) (min_ctx r [])) ++
    seg_cells (Some p) (min_ctx r []) (Some x)) as Hc.
  { pose proof (cells_seg (Some p) (min_ctx r []) (min_node r)) as Hp. by rewrite min_plug, Hm in Hp. }
  assert (top (min_ctx r []) (Some x) = Some rp) as Ht.
  { pose proof (rootp_plug (min_ctx r []) (min_node r)) as Hp. rewrite min_plug, Hm in Hp.
    simpl in Hp. by rewrite <- Hp. }
  apply (own_perm _ _ _ ((p, cell None Black (rootp l) (rootp r) k) :: cells l (Some p) ++
    cells (Node sc Leaf x ks sr) (seg_ptr (Some p) (min_ctx r [])) ++
    seg_cells (Some p) (min_ctx r []) (Some x) ++ ctx_cells ctx (Some p))) in Ho.
  2:{ rewrite Hl, Hr, Hc. solve_cells. }
  pose proof (min_ctx_left r []) as Hleft. unfold iter_next. apply wp_bind.
  eapply (successor_next_ok _ _ _ _ _ l r k (min_ctx r []) sc x ks sr (ctx_cells ctx (Some p)));
    [done|unfold Find; solve_cells|done|].
  intros y. cbn [cells app] in Ho. rewrite Hl, Hr in Ho.
  assert (valid (seg_ptr (Some p) (min_ctx r []))) as Hv.
  { destruct Hleft as [Hc'|(? & ? & ? & ? & ? & Hc')]; rewrite Hc' in *; simpl in *; valid_ptr. }
  do 5 wp_step. destruct Hleft as [Hc'|(fc & q & fk & fr & rest & Hc')]; rewrite Hc' in *.
  - simpl in Ht. injection Ht as <-. rewrite Z.eqb_refl.
    eapply (successor_near_ok _ _ _ _ _ l); [simpl in Ho |- *; own_exact|done..].
  - assert (x <> rp) as Hne.
    { eapply (own_not_in _ _ _ _ x _ _ (seg_cells _ _ _)); [done|apply _|apply _|by apply top_in_seg]. }
    rewrite (proj2 (Z.eqb_neq _ _) Hne).
    eapply (successor_far_ok _ _ _ _ l _ _ _ _ _ fc q fk fr rest); [|done..].
    cbn [cells app seg_ptr frame_ptr] in *. own_exact.
Qed.

(** ** The whole deletion *)

Lemma own_drop s rt L F p n : own s rt ((p, n) :: L) F -> own s rt L (<[p := n]> F).
Proof.
  intros [Hn Ha Hh Hr]. simpl in *. apply NoDup_cons in Hn as [Hp Hn]. apply Forall_cons in Ha as [_ Ha].
  split; [done|done| |done]. rewrite Hh.
  rewrite <- insert_union_l, insert_union_r; [done|]. by apply not_elem_of_list_to_map_1.
Qed.

(** The pointer from the parent. *)
Definition relink (p : option ptr) (self : ptr) (new : option ptr) : M (RbTree (K := K)) unit :=
  match p with
  | Some p =>
    pn ← deref p ;
    defined_if (points_to (left pn) self || points_to (right pn) self) ;;
    (if points_to (left pn) self then on_node p (put_left new) else on_node p (put_right new)) ;;
    r ← gets root ; r ← expect r ; ret tt
  | None => set_root new
  end.

Lemma top_some ctx : forall p, exists q, top ctx (Some p) = Some q.
Proof. induction ctx as [|f ctx IH]; intros p; [by exists p|apply IH]. Qed.

Lemma relink_ok s ctx p n L0 new F Q :
  own s (top ctx (Some p)) ((p, n) :: L0 ++ ctx_cells ctx (Some p)) F ->
  (forall s', own s' (top ctx new) ((p, n) :: L0 ++ ctx_cells ctx new) F -> Q tt s') ->
  wp (relink (ctx_ptr ctx) p new) s Q.
Proof.
  intros Ho HQ. unfold relink. destruct ctx as [|[fc q fk r|fc l q fk] ctx]; simpl in *.
  - wp_run. by apply HQ.
  - do 2 wp_step. apply wp_bind, wp_defined_if; [done|]. wp_run. apply wp_gets.
    destruct (top_some ctx q) as [x Hx]. rewrite (own_root _ _ _ _ Ho), Hx. wp_run. apply HQ. own_exact.
  - do 2 wp_step. apply wp_bind, wp_defined_if; [done|]. wp_run. apply wp_gets.
    destruct (top_some ctx q) as [x Hx]. rewrite (own_root _ _ _ _ Ho), Hx. wp_run. apply HQ. own_exact.
Qed.

(** The pointers of the node that left are cleared. *)
Lemma clear_node_ok s rt L F p n Q :
  own s rt L (<[p := n]> F) -> p ∉ L.*1 -> aligned p ->
  (forall s' w, own s' rt L (<[p := Rb_node w None None (key n)]> F) -> Q tt s') ->
  wp (update p None None) s Q.
Proof.
  intros Ho Hp Ha HQ. assert (heap s !! p = Some n) as Hh.
  { rewrite (own_heap _ _ _ _ Ho), lookup_union_r by (by apply not_elem_of_list_to_map_1).
    apply lookup_insert_eq. }
  apply (own_add _ _ _ _ _ _ Ho Ha Hp) in Hh. clear Ho. unfold update.
  eapply wp_on_node; [done|apply _|]. intros s' Ho%own_drop.
  rewrite insert_insert_eq in Ho. by eapply HQ.
Qed.

(** Rebalancing, when a black node went. *)
Lemma rebalance_if_ok s ctx c t F Q :
  tree_at s ctx (blacken t) F -> (missing c t = true -> ctx_rb Black 1 ctx) ->
  (forall s', tree_at s' [] (unlink ctx c t) F -> Q tt s') ->
  wp (match next_of ctx (missing c t) with
      | Some (bp, is_left) => rebalance_black_height bp is_left
      | None => ret tt
      end) s Q.
Proof.
  intros Ho Hc HQ. destruct t as [|tc l q k r], c; simpl in *; try by apply wp_ret, HQ, (tree_at_plug _ ctx).
  destruct ctx as [|f ctx]; simpl; [by apply wp_ret, HQ|].
  eapply rebalance_ok; [done|by apply Hc|constructor|done].
Qed.

Lemma delete_rest_ok s ctx p k F ctx' c t new b Q :
  taken_out s ctx p k F ctx' c t new b -> (missing c t = true -> ctx_rb Black 1 ctx') ->
  (forall s' w, tree_at s' [] (unlink ctx' c t) (<[p := Rb_node w None None k]> F) -> Q tt s') ->
  wp (relink (ctx_ptr ctx) p new ;;
      (match b with
       | Some (bp, is_left) => rebalance_black_height bp is_left
       | None => ret tt
       end) ;;
      r ← gets root ; if_some r relation_assert ;; update p None None) s Q.
Proof.
  intros (n & L0 & Ho & <- & HL & Ht & ->) Hc HQ. apply wp_bind. eapply relink_ok; [done|]. clear Ho.
  intros s1 Ho. assert (aligned p) as Ha by valid_ptr.
  apply (own_perm _ _ _ ((p, n) :: cells (blacken t) (ctx_ptr ctx') ++ ctx_cells ctx' (rootp t))) in Ho;
    [|by rewrite HL].
  assert (p ∉ (elems (plug ctx' t)).*1) as Hp.
  { pose proof (own_nodup _ _ _ _ Ho) as Hp. rewrite fmap_cons, NoDup_cons in Hp. destruct Hp as [Hp _].
    revert Hp. rewrite <- (rootp_recolor Black t), <- cells_plug, cells_ptrs, !elems_plug. by rewrite elems_recolor. }
  apply own_drop in Ho. rewrite Ht in Ho. apply wp_bind.
  eapply rebalance_if_ok; [unfold tree_at; by rewrite rootp_recolor|done|]. clear Ho. intros s2 Ho.
  apply wp_bind, wp_gets, wp_bind. rewrite (own_root _ _ _ _ Ho). simpl.
  eapply relation_assert_ok; [done|]. eapply clear_node_ok; [done| |done|done].
  simpl. by rewrite app_nil_r, cells_ptrs, elems_unlink.
Qed.

Lemma missing_rb ctx c n l p k r t : ctx_rb c n ctx -> rb c n (Node c l p k r) ->
  l = Leaf /\ t = r \/ r = Leaf /\ t = l -> missing c t = true -> ctx_rb Black 1 ctx.
Proof.
  intros Hc Hr Ht Hm. destruct t, c; simplify_eq/=. assert (l = Leaf /\ r = Leaf) as [-> ->] by naive_solver.
  inversion Hr as [| |? ? n' ? ? ? ? Hl _]; simplify_eq. by inversion Hl; simplify_eq.
Qed.

Lemma missing_rb_min ctx c l p k r m sc x ks sr :
  rb Black m (plug ctx (Node c l p k r)) -> min_node r = Node sc Leaf x ks sr ->
  missing sc sr = true -> ctx_rb Black 1 (min_ctx r [] ++ InR c l x ks :: ctx).
Proof.
  intros H Hs Hm.
  assert (plug ctx (Node c l p k r) = plug (min_ctx r [] ++ InR c l p k :: ctx) (Node sc Leaf x ks sr))
    as Hp by (by rewrite plug_app, <- Hs, min_plug).
  rewrite Hp in H. apply rb_split in H as (c1 & n1 & Hn1 & Hctx1).
  assert (c1 = sc) as -> by (by rewrite <- (rb_root_color _ _ _ Hn1)).
  eapply ctx_rb_relabel, missing_rb; [done|done|by left|done].
Qed.

Lemma delete_tree s ctx c l p k r F m Q :
  tree_at s ctx (Node c l p k r) F -> rb Black m (plug ctx (Node c l p k r)) ->
  (forall s' w, tree_at s' [] (del_at ctx (Node c l p k r)) (<[p := Rb_node w None None k]> F) -> Q tt s') ->
  wp (delete p) s Q.
Proof.
  intros Ho Hrb HQ. pose proof (rb_split _ _ _ Hrb) as (c0 & n & Hn & Hctx).
  assert (c0 = c) as -> by (by rewrite <- (rb_root_color _ _ _ Hn)).
  unfold tree_at in Ho. simpl in Ho. unfold delete. do 5 wp_step. cbn [del_at] in HQ.
  destruct l as [|lc ll lp lk lr], r as [|rc rl rp rk rr].
  - cbn [rootp cells app] in *. eapply delete_none_ok; [done..|]. intros s2 new b Ht.
    eapply delete_rest_ok; [done| |done]. eapply missing_rb; [done..|by left].
  - cbn [rootp] in *. change (cells Leaf (Some p)) with (@nil (ptr * RbNode (K := K))) in Ho.
    eapply (delete_one_ok _ _ _ _ _ _ (Node rc rl rp rk rr)); [own_exact|done..|].
    intros s2 new b Ht. eapply delete_rest_ok; [done| |done]. eapply missing_rb; [done..|by left].
  - cbn [rootp] in *. change (cells Leaf (Some p)) with (@nil (ptr * RbNode (K := K))) in Ho.
    eapply (delete_one_ok _ _ _ _ _ _ (Node lc ll lp lk lr)); [own_exact|done..|].
    intros s2 new b Ht. eapply delete_rest_ok; [done| |done]. eapply missing_rb; [done..|by right].
  - destruct (min_node_shape (Node rc rl rp rk rr)) as (sc & x & ks & sr & Hs); [done|]. rewrite Hs in HQ.
    cbn [rootp] in *.
    eapply (delete_two_ok _ _ _ _ (Node lc ll lp lk lr) (Node rc rl rp rk rr)); [own_exact|done..|].
    intros s2 new b Ht. eapply delete_rest_ok; [done| |done]. by eapply missing_rb_min.
Qed.
End delete.
