(* ===== verification/RbTreeFacts.v ===== *)
(** * Correctness of the red-black tree

    The tree in memory holds a sequence of nodes sorted by key.  Insertion and
    deletion change that sequence by one node, keep the red-black invariant and
    never fail; search and iteration read it; the depth is logarithmic. *)

From stdpp Require Import base tactics list gmap sorting.
From S2P Require Import Prelude CMonad RbTree RbSpec RbHeap RbInsert RbIter RbDelete.
Local Open Scope Z_scope.

(** ** The sequence *)

Section order.
Context {K : Type} `{Ord K}.
Implicit Types (t : tree K) (ctx : list (frame K)) (l : list (ptr * K)) (e : ptr * K).

Definition key_lt e1 e2 : Prop := cmp e1.2 e2.2 = Lt.

#[export] Instance key_lt_trans : Transitive key_lt.
Proof. intros x y z. apply cmp_trans. Qed.

Lemma cmp_gt x y : cmp x y = Gt <-> cmp y x = Lt.
Proof. rewrite (cmp_opp y x). by destruct (cmp y x). Qed.
Lemma cmp_refl x : cmp x x = Eq.
Proof. by apply cmp_eq. Qed.

(** The sorted sequence with one element more. *)
Fixpoint insert_sorted e l : list (ptr * K) :=
  match l with
  | [] => [e]
  | x :: l => match cmp e.2 x.2 with Lt => e :: x :: l | _ => x :: insert_sorted e l end
  end.

(** The node with key [k]. *)
Fixpoint find_key (k : K) l : option ptr :=
  match l with
  | [] => None
  | x :: l => match cmp k x.2 with Eq => Some x.1 | _ => find_key k l end
  end.

Lemma insert_sorted_split e l1 l2 :
  Forall (fun x => key_lt x e) l1 -> Forall (key_lt e) l2 -> insert_sorted e (l1 ++ l2) = l1 ++ e :: l2.
Proof.
  intros H1 H2. induction H1 as [|x l1 Hx H1 IH]; simpl.
  - destruct H2 as [|y l2 Hy _]; simpl; [done|]. unfold key_lt in Hy. by rewrite Hy.
  - rewrite (proj2 (cmp_gt _ _) Hx). by rewrite IH.
Qed.

Lemma find_key_skip k l1 l2 : Forall (fun x => cmp x.2 k = Lt) l1 -> find_key k (l1 ++ l2) = find_key k l2.
Proof. induction 1 as [|x l1 Hx _ IH]; simpl; [done|]. by rewrite (proj2 (cmp_gt _ _) Hx). Qed.

Lemma find_key_none k l : Forall (fun x => cmp k x.2 = Lt) l -> find_key k l = None.
Proof. induction 1 as [|x l Hx _ IH]; simpl; [done|]. by rewrite Hx. Qed.

Lemma sorted_mid l1 e l2 : StronglySorted key_lt (l1 ++ e :: l2) ->
  Forall (fun x => key_lt x e) l1 /\ Forall (key_lt e) l2.
Proof.
  intros Hs. apply StronglySorted_app in Hs as (Hx & _ & Hs). apply StronglySorted_inv in Hs as [_ ?].
  split; [|done]. apply Forall_forall. intros x Hin. apply Hx; [done|by left].
Qed.

Lemma sorted_insert l1 e l2 : StronglySorted key_lt (l1 ++ l2) ->
  Forall (fun x => key_lt x e) l1 -> Forall (key_lt e) l2 -> StronglySorted key_lt (l1 ++ e :: l2).
Proof.
  intros Hs H1 H2. apply StronglySorted_app in Hs as (Hx & Hl1 & Hl2). apply StronglySorted_app.
  split_and!; [|done|by constructor]. intros x y Hin [->|Hy]%elem_of_cons; [|by apply Hx].
  by eapply Forall_forall in H1.
Qed.

Lemma sorted_remove l1 e l2 : StronglySorted key_lt (l1 ++ e :: l2) -> StronglySorted key_lt (l1 ++ l2).
Proof.
  intros Hs. apply StronglySorted_app in Hs as (Hx & Hl1 & Hl2). apply StronglySorted_inv in Hl2 as [? _].
  apply StronglySorted_app. split_and!; [|done|done]. intros x y Hin Hy. apply Hx; [done|by right].
Qed.

(** The search ends where the key is, or where it belongs. *)
Lemma descend_fits t k : forall ctx, StronglySorted key_lt (elems (plug ctx t)) ->
  Forall (fun x => cmp x.2 k = Lt) (before ctx) -> Forall (fun x => cmp k x.2 = Lt) (after ctx) ->
  match descend t k ctx with
  | (ctx', Leaf) =>
    Forall (fun x => cmp x.2 k = Lt) (before ctx') /\ Forall (fun x => cmp k x.2 = Lt) (after ctx')
  | (ctx', Node _ _ _ k' _) => k' = k
  end.
Proof.
  induction t as [|c l IHl p k' r IHr]; intros ctx Hs Hb Ha; simpl; [done|].
  pose proof Hs as Hs0. rewrite elems_plug in Hs. simpl in Hs. rewrite <- app_assoc, app_assoc in Hs.
  pose proof (sorted_mid _ _ _ Hs) as [H1 H2]. apply Forall_app in H1 as [_ H1].
  apply Forall_app in H2 as [H2 _].
  destruct (cmp k k') eqn:Hc; [by symmetry; apply cmp_eq|..].
  - apply IHl; [done|done|]. simpl.
    constructor; [done|]. apply Forall_app. split; [|done].
    eapply Forall_impl; [done|]. intros x Hx. exact (cmp_trans _ _ _ Hc Hx).
  - apply cmp_gt in Hc. apply IHr; [done| |done]. simpl.
    rewrite !Forall_app. split_and!; [done| |by constructor].
    eapply Forall_impl; [done|]. intros x Hx. exact (cmp_trans _ _ _ Hx Hc).
Qed.
End order.

(** ** The contents of a tree *)

Section contents.
Context {K : Type} `{Ord K}.
Implicit Types (l : list (ptr * K)) (s : RbTree (K := K)).

(** The nodes of [l], in this order, form a red-black tree with a black root and
    sorted keys, all nodes at different addresses; the rest of the memory is
    that of [F]. *)
Definition contents s l (F : gmap Z (RbNode (K := K))) : Prop :=
  exists t n, tree_at s [] t F /\ rb Black n t /\ StronglySorted key_lt (elems t) /\ elems t = l.

Lemma insert_contents s l F q w k :
  contents s l F -> aligned q -> q ∉ l.*1 -> heap s !! q = Some (Rb_node w None None k) ->
  get_node_ptr w = 0 -> find_key k l = None ->
  wp (insert q) s (fun _ s' => contents s' (insert_sorted (q, k) l) F).
Proof.
  intros (t & n & Ho & Hrb & Hs & <-) Hq Hi Hh Hw Hk.
  pose proof (descend_fits t k [] Hs (Forall_nil_2 _) (Forall_nil_2 _)) as Hf.
  pose proof (descend_plug t k []) as Hp. destruct (descend t k []) as [ctx t'] eqn:Hd. simpl in Hp.
  destruct t' as [|c l p k' r].
  - destruct Hf as [Hb Ha]. eapply insert_tree; [done..|]. intros s' Ho'.
    assert (elems (blacken (fix_ins ctx (Node Red Leaf q k Leaf))) = insert_sorted (q, k) (elems t)) as He.
    { rewrite elems_recolor, elems_fix_ins, <- Hp, !elems_plug. simpl. by rewrite insert_sorted_split. }
    rewrite <- Hp in Hrb. pose proof (rb_split _ _ _ Hrb) as (c & m & Hl & Hctx).
    inversion Hl; subst. destruct (fix_ins_rb ctx 0 (Node Red Leaf q k Leaf)) as [m Hm];
      [done|by repeat constructor|].
    eexists _, m. split_and!; [done|done| |done]. rewrite elems_recolor, elems_fix_ins, elems_plug.
    simpl. rewrite elems_plug in Hs. by apply sorted_insert.
  - subst k'. rewrite <- Hp, elems_plug in Hk, Hs. simpl in Hk, Hs. rewrite <- app_assoc, app_assoc in Hk, Hs.
    apply sorted_mid in Hs as [H1 _]. rewrite find_key_skip in Hk by done. simpl in Hk.
    by rewrite cmp_refl in Hk.
Qed.

Lemma delete_contents s l1 p k l2 F :
  contents s (l1 ++ (p, k) :: l2) F ->
  wp (delete p) s (fun _ s' => exists w, contents s' (l1 ++ l2) (<[p := Rb_node w None None k]> F)).
Proof.
  intros (t & n & Ho & Hrb & Hs & He).
  destruct (elems_split t l1 p k l2 [] He) as (ctx & c & l & r & Hp & Hb & Ha). simpl in Hp, Hb.
  rewrite app_nil_r in Ha. subst t. apply tree_at_plug in Ho. eapply delete_tree; [done..|].
  intros s' w Ho'. exists w. destruct (del_at_rb _ _ _ _ _ _ _ Hrb) as [m Hm].
  assert (elems (del_at ctx (Node c l p k r)) = l1 ++ l2) as Hd
    by (by rewrite elems_del_at, app_assoc, Hb, Ha).
  eexists _, m. split_and!; [done|done| |done]. rewrite Hd. rewrite He in Hs. by eapply sorted_remove.
Qed.
End contents.

(** ** The code's own check *)

Section check.
Context {K : Type} `{Ord K}.
Implicit Types (s : RbTree (K := K)).

Lemma own_find2 s rt L F x B L1 L2 :
  Find [x] L L1 -> Find B L1 L2 -> own s rt L F -> own s rt (x :: B ++ L2) F.
Proof. intros Hf1 Hf2. apply own_perm. unfold Find in *. by rewrite Hf1, Hf2. Qed.

Lemma validation_loop_ok n c m t : rb c m t -> forall s rt L F p pc pl pr pk par L1 L2 b Q,
  own s rt L F -> Find [(p, cell par pc pl pr pk)] L L1 -> Find (cells t (Some p)) L1 L2 -> valid par ->
  (c = Red -> pc = Black) -> (height t <= n)%nat -> Q (b + Z.of_nat m + 1) s ->
  wp (validation_loop n p (rootp t) b) s Q.
Proof.
  intros Hrb. revert n. induction Hrb as [|m l q k r Hl IHl Hr IHr|cl cr m l q k r Hl IHl Hr IHr];
    intros n s rt L F p pc pl pr pk par L1 L2 b Q Ho Hf1 Hf2 Hv Hc Hn HQ.
  { destruct n; apply wp_ret; by rewrite Z.add_0_r in HQ. }
  all: destruct n as [|n]; [simpl in Hn; lia|]; cbn [rootp validation_loop];
    apply (own_find2 _ _ _ _ _ _ _ _ Hf1 Hf2) in Ho; cbn [cells app] in Ho; simpl in Hn; wp_run;
    apply wp_defined_if; [done|]; wp_run.
  - apply wp_defined_if; [by rewrite Hc|]. wp_run.
    eapply IHl; [done|apply _|apply _|valid_ptr|done|lia|]. apply wp_bind.
    eapply IHr; [done|apply _|apply _|valid_ptr|done|lia|]. apply wp_bind, wp_defined_if; [lia|].
    by apply wp_ret.
  - eapply IHl; [done|apply _|apply _|valid_ptr|done|lia|]. apply wp_bind.
    eapply IHr; [done|apply _|apply _|valid_ptr|done|lia|]. apply wp_bind, wp_defined_if; [lia|].
    apply wp_ret. by replace (b + 1 + Z.of_nat m + 1) with (b + Z.of_nat (S m) + 1) by lia.
Qed.

(** Both subtrees below the root pass the check, with the same black height. *)
Lemma validation_contents s l F p : contents s l F -> root s = Some p ->
  exists nd h, heap s !! p = Some nd /\
    validation p (left nd) 0 s = Ok (h, s) /\ validation p (right nd) 0 s = Ok (h, s).
Proof.
  intros (t & n & Ho & Hrb & Hs & Hl) Hp.
  pose proof (tree_at_size _ _ _ _ Ho) as Hsz. pose proof (height_size t) as Hh.
  rewrite (own_root _ _ _ _ Ho) in Hp. destruct t as [|c tl x k tr]; simplify_eq/=.
  inversion Hrb as [| |cl cr m ? ? ? ? Hrl Hrr]; simplify_eq. unfold tree_at in Ho. simpl in Ho.
  eexists _, (Z.of_nat m + 1). split; [eapply own_lookup; [done|by left]|].
  assert (forall t o, rb o m t -> (height t <= size (heap s))%nat ->
    (exists L1 L2, Find [(p, cell None Black (rootp tl) (rootp tr) k)]
      ((p, cell None Black (rootp tl) (rootp tr) k) :: (cells tl (Some p) ++ cells tr (Some p)) ++ []) L1 /\
      Find (cells t (Some p)) L1 L2) ->
    validation p (rootp t) 0 s = Ok (Z.of_nat m + 1, s)) as Hgo.
  { intros t o Ht Hht (L1 & L2 & H1 & H2).
    assert (wp (validation p (rootp t) 0) s (fun h s' => h = Z.of_nat m + 1 /\ s' = s)) as (? & ? & Hw & -> & ->);
      [|done].
    apply wp_bind, wp_fuel. eapply validation_loop_ok; [done..|lia|by split]. }
  split; (eapply Hgo; [done|lia|do 2 eexists; split; apply _]).
Qed.
End check.

(** ** Properties *)

Section properties.
Context {K : Type} `{Ord K}.
Implicit Types (s : RbTree (K := K)) (l : list (ptr * K)).

(** C8.  Insertion never fails and puts exactly the new node into the sequence,
    at the place of its key: from a red-black tree with contents [l], a fresh
    node whose key is not in [l] leads to a red-black tree with that node more;
    memory outside the tree is untouched. *)
Theorem insert_refines s l F q w k :
  contents s l F -> aligned q -> q ∉ l.*1 -> heap s !! q = Some (Rb_node w None None k) ->
  get_node_ptr w = 0 -> find_key k l = None ->
  exists s', insert q s = Ok (tt, s') /\ contents s' (insert_sorted (q, k) l) F.
Proof.
  intros Hc Hq Hi Hh Hw Hk. destruct (insert_contents s l F q w k) as ([] & s' & ? & ?); [done..|].
  by exists s'.
Qed.

(** C7.  Deleting a node of the tree never fails and takes exactly that node
    out of the sequence; the tree that is left is a red-black tree again, and
    the node keeps its key and has no children. *)
Theorem delete_refines s l1 p k l2 F :
  contents s (l1 ++ (p, k) :: l2) F ->
  exists s' w, delete p s = Ok (tt, s') /\
    contents s' (l1 ++ l2) (<[p := Rb_node w None None k]> F).
Proof. intros Hc. destruct (delete_contents s l1 p k l2 F Hc) as ([] & s' & ? & w & ?). eauto. Qed.

Lemma search_exact_contents s l F k : contents s l F -> search_exact k s = Ok (find_key k l, s).
Proof.
  intros (t & n & Ho & Hrb & Hs & <-). enough (wp (search_exact k) s (fun r s' => r = find_key k (elems t) /\ s' = s))
    as (? & ? & Hw & -> & ->) by done.
  apply wp_bind. eapply search_closest_ok; [done|]. apply wp_ret. split; [|done].
  pose proof (descend_fits t k [] Hs (Forall_nil_2 _) (Forall_nil_2 _)) as Hf.
  pose proof (descend_plug t k []) as Hp. destruct (descend t k []) as [ctx t'] eqn:Hd. simpl in Hp.
  destruct t' as [|c l p k' r]; unfold closest; simpl.
  - destruct Hf as [Hb Ha]. rewrite <- Hp, elems_plug. simpl. rewrite find_key_skip, find_key_none by done.
    by destruct ctx as [|[] ctx].
  - subst k'. rewrite <- Hp, elems_plug in Hs |- *. simpl in Hs |- *. rewrite <- app_assoc, app_assoc in Hs |- *.
    apply sorted_mid in Hs as [H1 _]. rewrite find_key_skip by done. simpl. by rewrite cmp_refl.
Qed.

Lemma find_key_split k l p : find_key k l = Some p -> exists l1 l2, l = l1 ++ (p, k) :: l2.
Proof.
  induction l as [|[q kq] l IH]; simpl; [done|]. destruct (cmp k kq) eqn:Hc; intros Hk.
  - apply cmp_eq in Hc. simplify_eq. by exists [], l.
  - destruct (IH Hk) as (l1 & l2 & ->). by exists ((q, kq) :: l1), l2.
  - destruct (IH Hk) as (l1 & l2 & ->). by exists ((q, kq) :: l1), l2.
Qed.

(**  Deletion by key: without the key nothing happens; otherwise its node
    is returned and taken out. *)
Theorem delete_key_refines s l F k : contents s l F ->
  match find_key k l with
  | None => delete_key k s = Ok (None, s)
  | Some p => exists l1 l2 s' w, l = l1 ++ (p, k) :: l2 /\ delete_key k s = Ok (Some p, s') /\
      contents s' (l1 ++ l2) (<[p := Rb_node w None None k]> F)
  end.
Proof.
  intros Hc. unfold delete_key, delete_node. rewrite (bind_ok _ _ _ _ _ (search_exact_contents s l F k Hc)).
  destruct (find_key k l) as [p|] eqn:Hk; [|done].
  destruct (find_key_split k l p Hk) as (l1 & l2 & ->).
  destruct (delete_contents s l1 p k l2 F Hc) as ([] & s' & Hd & w & Hc').
  exists l1, l2, s', w. split; [done|]. by rewrite (bind_ok _ _ _ _ _ Hd).
Qed.

(**  Search returns the node with the key if there is one, and nothing
    otherwise, and changes nothing. *)
Theorem search_exact_correct s l F k : contents s l F -> search_exact k s = Ok (find_key k l, s).
Proof. apply search_exact_contents. Qed.

(**  The depth is logarithmic: a search in a tree of [n] nodes is over after
    at most [2 * log2 (n + 1)] steps down. *)
Theorem search_bound s l F k : contents s l F ->
  exists r, search_loop (2 * Nat.log2 (S (length l))) (root s) k None s = Ok (r, s) /\
    search_closest k s = Ok (r, s).
Proof.
  intros (t & n & Ho & Hrb & Hs & <-). exists (closest (descend t k [])).
  enough (forall m, m = search_loop (2 * Nat.log2 (S (length (elems t)))) (root s) k None \/
    m = search_closest k -> wp m s (fun r s' => r = closest (descend t k []) /\ s' = s)) as Hw.
  { destruct (Hw _ (or_introl eq_refl)) as (? & ? & H1 & -> & ->).
    by destruct (Hw _ (or_intror eq_refl)) as (? & ? & H2 & -> & ->). }
  intros m [->| ->].
  - rewrite (own_root _ _ _ _ Ho). eapply (search_loop_ok _ _ _ _ _ _ _ _ _ []); [done|apply _| |done].
    by eapply height_log.
  - by eapply search_closest_ok.
Qed.

(** The nodes that a loop over the iterator sees. *)
Fixpoint visit (n : nat) (it : option ptr) : M (RbTree (K := K)) (list ptr) :=
  '(found, it) ← iter_next it ;
  match found, n with
  | None, _ => ret []
  | Some _, O => no_fuel
  | Some p, Datatypes.S n => rest ← visit n it ; ret (p :: rest)
  end.

Lemma visit_from s t F post : tree_at s [] t F -> forall pre, elems t = pre ++ post ->
  wp (visit (length post) (head post.*1)) s (fun r s' => r = post.*1 /\ s' = s).
Proof.
  intros Ho. induction post as [|[p k] post IH]; intros pre He; simpl.
  - apply wp_bind, wp_ret, wp_ret. done.
  - apply wp_bind. eapply iter_next_at; [done..|]. apply wp_bind.
    eapply wp_mono; [apply (IH (pre ++ [(p, k)])); by rewrite <- app_assoc|].
    intros r s' [-> ->]. by apply wp_ret.
Qed.

(**  A loop over the iterator visits every node once, in the order of the
    keys, and ends. *)
Theorem iteration_in_order s l F : contents s l F ->
  (it ← iter ; visit (length l) it) s = Ok (l.*1, s).
Proof.
  intros (t & n & Ho & Hrb & Hs & <-).
  enough (wp (it ← iter ; visit (length (elems t)) it) s (fun r s' => r = (elems t).*1 /\ s' = s))
    as (? & ? & Hw & -> & ->) by done.
  apply wp_bind. eapply iter_first; [done|]. by apply (visit_from s t F (elems t) Ho []).
Qed.

Lemma insert_sorted_between k l q : StronglySorted key_lt l -> find_key k l = None ->
  exists l1 l2, l = l1 ++ l2 /\ insert_sorted (q, k) l = l1 ++ (q, k) :: l2.
Proof.
  intros Hs. induction Hs as [|x l Hs IH Hx]; intros Hk; simpl in *; [by exists [], []|].
  destruct (cmp k x.2) eqn:Hc; [done|by exists [], (x :: l)|].
  destruct (IH Hk) as (l1 & l2 & -> & ->). by exists (x :: l1), l2.
Qed.

(**  Deleting a node right after its insertion gives back the same
    sequence. *)
Theorem insert_delete s l F q w k :
  contents s l F -> aligned q -> q ∉ l.*1 -> heap s !! q = Some (Rb_node w None None k) ->
  get_node_ptr w = 0 -> find_key k l = None ->
  exists s' w', (insert q ;; delete q) s = Ok (tt, s') /\ contents s' l (<[q := Rb_node w' None None k]> F).
Proof.
  intros Hc Hq Hi Hh Hw Hk. assert (StronglySorted key_lt l) as Hs by (by destruct Hc as (t & n & _ & _ & ? & <-)).
  destruct (insert_sorted_between k l q Hs Hk) as (l1 & l2 & Hl & He).
  destruct (insert_contents s l F q w k) as ([] & s1 & Hr & Hc1); [done..|]. rewrite He in Hc1.
  destruct (delete_contents s1 l1 q k l2 F Hc1) as ([] & s2 & Hr2 & w' & Hc2).
  exists s2, w'. by rewrite (bind_ok _ _ _ _ _ Hr), Hr2, Hl.
Qed.

(**  The code's own consistency check accepts every such tree: both
    subtrees of the root pass [validation] with the same black height. *)
Theorem validation_passes s l F p : contents s l F -> root s = Some p ->
  exists nd h, heap s !! p = Some nd /\
    validation p (left nd) 0 s = Ok (h, s) /\ validation p (right nd) 0 s = Ok (h, s).
Proof. apply validation_contents. Qed.
End properties.

(** ** A tree of three nodes, and a fourth node in memory *)

Definition example_tree : tree Z := Node Black (Node Red Leaf 4 1 Leaf) 8 3 (Node Red Leaf 12 5 Leaf).
Definition example_rest : gmap Z (RbNode (K := Z)) := {[16 := rb_node_new 4]}.
Definition example_state : RbTree (K := Z) :=
  Rb_tree (list_to_map (cells example_tree None) ∪ example_rest) (Some 8).
Abbreviation example_contents := [(4, 1); (8, 3); (12, 5)].

Lemma example_ok : contents example_state example_contents example_rest.
Proof.
  exists example_tree, 1%nat. split_and!; [|by repeat econstructor| |done].
  - split; [by apply (bool_decide_unpack _)|by repeat constructor|done|done].
  - repeat constructor.
Qed.

Lemma insert_refines_witness :
  exists s', insert 16 example_state = Ok (tt, s') /\
    contents s' (insert_sorted (16, 4) example_contents) example_rest.
Proof.
  apply (insert_refines _ _ _ 16 0 4); [exact example_ok|done| |done|done|done].
  by apply (bool_decide_unpack _).
Defined.

Lemma delete_refines_witness :
  exists s' w, delete 8 example_state = Ok (tt, s') /\
    contents s' [(4, 1); (12, 5)] (<[8 := Rb_node w None None 3]> example_rest).
Proof. apply (delete_refines _ [(4, 1)] 8 3 [(12, 5)]). exact example_ok. Defined.

Lemma search_exact_correct_witness : search_exact 5 example_state = Ok (Some 12, example_state).
Proof. apply (search_exact_correct _ _ _ 5 example_ok). Defined.

Lemma delete_key_refines_witness :
  exists l1 l2 s' w, example_contents = l1 ++ (12, 5) :: l2 /\
    delete_key 5 example_state = Ok (Some 12, s') /\
    contents s' (l1 ++ l2) (<[12 := Rb_node w None None 5]> example_rest).
Proof. exact (delete_key_refines _ _ _ 5 example_ok). Defined.

Lemma search_bound_witness :
  exists r, search_loop 4 (Some 8) 5 None example_state = Ok (r, example_state) /\
    search_closest 5 example_state = Ok (r, example_state).
Proof. exact (search_bound _ _ _ 5 example_ok). Defined.

Lemma iteration_in_order_witness :
  (it ← iter ; visit 3 it) example_state = Ok ([4; 8; 12], example_state).
Proof. exact (iteration_in_order _ _ _ example_ok). Defined.

Lemma insert_delete_witness :
  exists s' w, (insert 16 ;; delete 16) example_state = Ok (tt, s') /\
    contents s' example_contents (<[16 := Rb_node w None None 4]> example_rest).
Proof.
  apply (insert_delete _ _ _ 16 0 4); [exact example_ok|done| |done|done|done].
  by apply (bool_decide_unpack _).
Defined.

Lemma validation_passes_witness :
  exists nd h, heap example_state !! 8 = Some nd /\
    validation 8 (left nd) 0 example_state = Ok (h, example_state) /\
    validation 8 (right nd) 0 example_state = Ok (h, example_state).
Proof. exact (validation_passes _ _ _ 8 example_ok eq_refl). Defined.

(** ** Two places where the code goes wrong *)

(** A second node with the key of the root: the left subtree is overwritten and
    its nodes are lost. *)
Lemma duplicate_key_drops :
  match (write 20 (rb_node_new 3) ;; insert 20 ;; it ← iter ; visit 8 it) example_state with
  | Ok (seen, _) => seen = [20; 8; 12]
  | _ => False
  end.
Proof. vm_compute. reflexivity. Qed.

(** A node that was deleted while its successor was not its child keeps a
    pointer to its former parent, so that it cannot be inserted again. *)
Lemma reinsert_fails :
  (insert 16 ;; delete 8 ;; insert 8) example_state = Undef.
Proof. vm_compute. reflexivity. Qed.
