(* ===== verification/Md5.v ===== *)
(** * MD5 (src/lib/hash/md5.c)

    [md5_transform] with its four rounds of sixteen steps, and [md5], which
    splits the data into blocks and pads the last one in a local array.

    The array is a [buffer]: reading a byte of it that was never written, and
    writing behind its end, are undefined. *)

From stdpp Require Import base list.
From S2P Require Import Prelude CMonad CArray.
Local Open Scope Z_scope.

Abbreviation S11 := (7%Z).
Abbreviation S12 := (12%Z).
Abbreviation S13 := (17%Z).
Abbreviation S14 := (22%Z).
Abbreviation S21 := (5%Z).
Abbreviation S22 := (9%Z).
Abbreviation S23 := (14%Z).
Abbreviation S24 := (20%Z).
Abbreviation S31 := (4%Z).
Abbreviation S32 := (11%Z).
Abbreviation S33 := (16%Z).
Abbreviation S34 := (23%Z).
Abbreviation S41 := (6%Z).
Abbreviation S42 := (10%Z).
Abbreviation S43 := (15%Z).
Abbreviation S44 := (21%Z).

(** [~x] of a [uint32_t]. *)
Definition not32 (x : Z) : Z := Z.lxor x (Z.ones 32).

Definition F (x y z : Z) : Z := Z.lor (Z.land x y) (Z.land (not32 x) z).
Definition G (x y z : Z) : Z := Z.lor (Z.land x z) (Z.land y (not32 z)).
Definition H (x y z : Z) : Z := Z.lxor (Z.lxor x y) z.
Definition I (x y z : Z) : Z := Z.lxor y (Z.lor x (not32 z)).

Definition ROTATE_LEFT (x n : Z) : Z := Z.lor (u32 (Z.shiftl x n)) (Z.shiftr x (32 - n)).

(** The new value of the first variable. *)
Definition FF (a b c d x s ac : Z) : Z := u32 (ROTATE_LEFT (u32 (a + (F b c d + x + ac))) s + b).
Definition GG (a b c d x s ac : Z) : Z := u32 (ROTATE_LEFT (u32 (a + (G b c d + x + ac))) s + b).
Definition HH (a b c d x s ac : Z) : Z := u32 (ROTATE_LEFT (u32 (a + (H b c d + x + ac))) s + b).
Definition II (a b c d x s ac : Z) : Z := u32 (ROTATE_LEFT (u32 (a + (I b c d + x + ac))) s + b).

Definition md5_state : Type := Z * Z * Z * Z.

Definition round1 (x : Z -> Z) (state : md5_state) : md5_state :=
  let '(a, b, c, d) := state in
  let a := FF a b c d (x 0) S11 0xd76aa478 in
  let d := FF d a b c (x 1) S12 0xe8c7b756 in
  let c := FF c d a b (x 2) S13 0x242070db in
  let b := FF b c d a (x 3) S14 0xc1bdceee in
  let a := FF a b c d (x 4) S11 0xf57c0faf in
  let d := FF d a b c (x 5) S12 0x4787c62a in
  let c := FF c d a b (x 6) S13 0xa8304613 in
  let b := FF b c d a (x 7) S14 0xfd469501 in
  let a := FF a b c d (x 8) S11 0x698098d8 in
  let d := FF d a b c (x 9) S12 0x8b44f7af in
  let c := FF c d a b (x 10) S13 0xffff5bb1 in
  let b := FF b c d a (x 11) S14 0x895cd7be in
  let a := FF a b c d (x 12) S11 0x6b901122 in
  let d := FF d a b c (x 13) S12 0xfd987193 in
  let c := FF c d a b (x 14) S13 0xa679438e in
  let b := FF b c d a (x 15) S14 0x49b40821 in
  (a, b, c, d).

Definition round2 (x : Z -> Z) (state : md5_state) : md5_state :=
  let '(a, b, c, d) := state in
  let a := GG a b c d (x 1) S21 0xf61e2562 in
  let d := GG d a b c (x 6) S22 0xc040b340 in
  let c := GG c d a b (x 11) S23 0x265e5a51 in
  let b := GG b c d a (x 0) S24 0xe9b6c7aa in
  let a := GG a b c d (x 5) S21 0xd62f105d in
  let d := GG d a b c (x 10) S22 0x2441453 in
  let c := GG c d a b (x 15) S23 0xd8a1e681 in
  let b := GG b c d a (x 4) S24 0xe7d3fbc8 in
  let a := GG a b c d (x 9) S21 0x21e1cde6 in
  let d := GG d a b c (x 14) S22 0xc33707d6 in
  let c := GG c d a b (x 3) S23 0xf4d50d87 in
  let b := GG b c d a (x 8) S24 0x455a14ed in
  let a := GG a b c d (x 13) S21 0xa9e3e905 in
  let d := GG d a b c (x 2) S22 0xfcefa3f8 in
  let c := GG c d a b (x 7) S23 0x676f02d9 in
  let b := GG b c d a (x 12) S24 0x8d2a4c8a in
  (a, b, c, d).

Definition round3 (x : Z -> Z) (state : md5_state) : md5_state :=
  let '(a, b, c, d) := state in
  let a := HH a b c d (x 5) S31 0xfffa3942 in
  let d := HH d a b c (x 8) S32 0x8771f681 in
  let c := HH c d a b (x 11) S33 0x6d9d6122 in
  let b := HH b c d a (x 14) S34 0xfde5380c in
  let a := HH a b c d (x 1) S31 0xa4beea44 in
  let d := HH d a b c (x 4) S32 0x4bdecfa9 in
  let c := HH c d a b (x 7) S33 0xf6bb4b60 in
  let b := HH b c d a (x 10) S34 0xbebfbc70 in
  let a := HH a b c d (x 13) S31 0x289b7ec6 in
  let d := HH d a b c (x 0) S32 0xeaa127fa in
  let c := HH c d a b (x 3) S33 0xd4ef3085 in
  let b := HH b c d a (x 6) S34 0x4881d05 in
  let a := HH a b c d (x 9) S31 0xd9d4d039 in
  let d := HH d a b c (x 12) S32 0xe6db99e5 in
  let c := HH c d a b (x 15) S33 0x1fa27cf8 in
  let b := HH b c d a (x 2) S34 0xc4ac5665 in
  (a, b, c, d).

Definition round4 (x : Z -> Z) (state : md5_state) : md5_state :=
  let '(a, b, c, d) := state in
  let a := II a b c d (x 0) S41 0xf4292244 in
  let d := II d a b c (x 7) S42 0x432aff97 in
  let c := II c d a b (x 14) S43 0xab9423a7 in
  let b := II b c d a (x 5) S44 0xfc93a039 in
  let a := II a b c d (x 12) S41 0x655b59c3 in
  let d := II d a b c (x 3) S42 0x8f0ccc92 in
  let c := II c d a b (x 10) S43 0xffeff47d in
  let b := II b c d a (x 1) S44 0x85845dd1 in
  let a := II a b c d (x 8) S41 0x6fa87e4f in
  let d := II d a b c (x 15) S42 0xfe2ce6e0 in
  let c := II c d a b (x 6) S43 0xa3014314 in
  let b := II b c d a (x 13) S44 0x4e0811a1 in
  let a := II a b c d (x 4) S41 0xf7537e82 in
  let d := II d a b c (x 11) S42 0xbd3af235 in
  let c := II c d a b (x 2) S43 0x2ad7d2bb in
  let b := II b c d a (x 9) S44 0xeb86d391 in
  (a, b, c, d).

(** The little-endian number of some bytes, and back. *)
Fixpoint le_value (bs : list Z) : Z :=
  match bs with
  | [] => 0
  | b :: bs => b + 256 * le_value bs
  end.

Fixpoint le_bytes (n : nat) (v : Z) : list Z :=
  match n with
  | O => []
  | S n => u8 v :: le_bytes n (Z.shiftr v 8)
  end.

(** Element [i] of the block read as an array of [uint32_t]. *)
Definition dword (block : list Z) (i : Z) : Z := le_value (take 4 (drop (Z.to_nat (4 * i)) block)).

Definition md5_transform (state : md5_state) (block : list Z) : md5_state :=
  let x := dword block in
  let '(a, b, c, d) := round4 x (round3 x (round2 x (round1 x state))) in
  let '(s0, s1, s2, s3) := state in
  (u32 (s0 + a), u32 (s1 + b), u32 (s2 + c), u32 (s3 + d)).

Definition md5_init : md5_state := (0x67452301, 0xEFCDAB89, 0x98BADCFE, 0x10325476).

(** [for (i = 0; i + 63 < len; i += 64)]. *)
Fixpoint blocks_loop {S} (fuel : nat) (data : list Z) (len i : Z) (state : md5_state)
    : M S (Z * md5_state) :=
  if u64 (i + 63) <? len then
    match fuel with
    | O => no_fuel
    | Datatypes.S fuel =>
      block ← slice data i 64 ;
      blocks_loop fuel data len (u64 (i + 64)) (md5_transform state block)
    end
  else ret (i, state).

(** The last block or two, in the local array. *)
Definition md5_tail (rest : list Z) (bit_len : Z) (state : md5_state) : M buffer md5_state :=
  let rem := Z.of_nat (length rest) in
  memcpy_to 0 rest ;;
  poke (Z.to_nat rem) 0x80 ;;
  let rem := rem + 1 in
  state ← (if 56 <? rem then
             memset_at rem 0 (64 - rem) ;;
             block ← whole ;
             memset_at rem 0 (rem - 56) ;;
             ret (md5_transform state block)
           else memset_at rem 0 (56 - rem) ;; ret state) ;
  memcpy_to 56 (map (fun j => u8 (Z.shiftr bit_len (Z.of_nat j * 8))) (seq 0 8)) ;;
  block ← whole ;
  ret (md5_transform state block).

(** The digest of the first [len] bytes. *)
Definition md5 {S} (data : list Z) (len : Z) : M S (list Z) :=
  let bit_len := u64 (len * 8) in
  '(i, state) ← blocks_loop (Z.to_nat len) data len 0 md5_init ;
  rest ← slice data i (u64 (len - i)) ;
  '(state, _) ← with_block 64 (md5_tail rest bit_len state) ;
  let '(a, b, c, d) := state in
  ret (le_bytes 4 a ++ le_bytes 4 b ++ le_bytes 4 c ++ le_bytes 4 d).
