(* ===== verification/Md5Facts.v ===== *)
(** * MD5: theorems

    The digest is that of RFC 1321 for every length that leaves room for the
    padding in the last block; for the other lengths the code pads wrongly. *)

From stdpp Require Import base tactics list numbers.
From S2P Require Import Prelude CMonad CArray Md5.
Local Open Scope Z_scope.

(** ** The reference

    The steps by their number, with rotating registers; [sines] are the integer
    parts of [2^32 * abs (sin (i + 1))]. *)

Definition sines : list Z :=
  [0xd76aa478; 0xe8c7b756; 0x242070db; 0xc1bdceee; 0xf57c0faf; 0x4787c62a; 0xa8304613; 0xfd469501;
   0x698098d8; 0x8b44f7af; 0xffff5bb1; 0x895cd7be; 0x6b901122; 0xfd987193; 0xa679438e; 0x49b40821;
   0xf61e2562; 0xc040b340; 0x265e5a51; 0xe9b6c7aa; 0xd62f105d; 0x02441453; 0xd8a1e681; 0xe7d3fbc8;
   0x21e1cde6; 0xc33707d6; 0xf4d50d87; 0x455a14ed; 0xa9e3e905; 0xfcefa3f8; 0x676f02d9; 0x8d2a4c8a;
   0xfffa3942; 0x8771f681; 0x6d9d6122; 0xfde5380c; 0xa4beea44; 0x4bdecfa9; 0xf6bb4b60; 0xbebfbc70;
   0x289b7ec6; 0xeaa127fa; 0xd4ef3085; 0x04881d05; 0xd9d4d039; 0xe6db99e5; 0x1fa27cf8; 0xc4ac5665;
   0xf4292244; 0x432aff97; 0xab9423a7; 0xfc93a039; 0x655b59c3; 0x8f0ccc92; 0xffeff47d; 0x85845dd1;
   0x6fa87e4f; 0xfe2ce6e0; 0xa3014314; 0x4e0811a1; 0xf7537e82; 0xbd3af235; 0x2ad7d2bb; 0xeb86d391].

Definition shifts (i : nat) : Z :=
  nth (i mod 4) (nth (i / 16) [[7; 12; 17; 22]; [5; 9; 14; 20]; [4; 11; 16; 23]; [6; 10; 15; 21]] []) 0.
Definition index (i : nat) : Z :=
  (nth (i / 16) [Z.of_nat i; 5 * Z.of_nat i + 1; 3 * Z.of_nat i + 5; 7 * Z.of_nat i] 0) mod 16.

Definition mix (i : nat) (x y z : Z) : Z :=
  match (i / 16)%nat with
  | 0%nat => Z.lor (Z.land x y) (Z.ldiff z x)
  | 1%nat => Z.lor (Z.land x z) (Z.ldiff y z)
  | 2%nat => Z.lxor x (Z.lxor y z)
  | _ => Z.lxor y (Z.lor x (Z.ldiff (Z.ones 32) z))
  end.

Definition rotl (x n : Z) : Z := u32 (x * 2 ^ n) + x / 2 ^ (32 - n).

Definition step (x : Z -> Z) (i : nat) (st : md5_state) : md5_state :=
  let '(a, b, c, d) := st in
  (d, u32 (b + rotl (u32 (a + mix i b c d + x (index i) + nth i sines 0)) (shifts i)), b, c).

Fixpoint steps (x : Z -> Z) (n i : nat) (st : md5_state) : md5_state :=
  match n with
  | O => st
  | S n => steps x n (S i) (step x i st)
  end.

Definition add_state (s t : md5_state) : md5_state :=
  let '(a, b, c, d) := s in
  let '(a', b', c', d') := t in (u32 (a + a'), u32 (b + b'), u32 (c + c'), u32 (d + d')).

Definition compress (st : md5_state) (block : list Z) : md5_state :=
  add_state st (steps (dword block) 64 0 st).

Definition padding (len : nat) : list Z :=
  0x80 :: replicate ((119 - len mod 64) mod 64) 0 ++ le_bytes 8 (8 * Z.of_nat len).

Fixpoint chunks (n : nat) (bs : list Z) : list (list Z) :=
  match n with
  | O => []
  | S n => take 64 bs :: chunks n (drop 64 bs)
  end.

Definition md5_spec (data : list Z) : list Z :=
  let bs := data ++ padding (length data) in
  let '(a, b, c, d) := foldl compress md5_init (chunks (length bs / 64) bs) in
  le_bytes 4 a ++ le_bytes 4 b ++ le_bytes 4 c ++ le_bytes 4 d.

(** ** One step *)

Definition word (x : Z) : Prop := 0 <= x < 2 ^ 32.

Lemma land_not32 x y : word y -> Z.land (not32 x) y = Z.ldiff y x.
Proof.
  intros Hy. apply Z.bits_inj'. intros i Hi. unfold not32.
  rewrite Z.land_spec, Z.lxor_spec, Z.ldiff_spec.
  destruct (decide (i < 32)).
  - rewrite Z.ones_spec_low by lia. by rewrite xorb_true_r, andb_comm.
  - rewrite (testbit_small 32 y) by (unfold word in Hy; lia). by rewrite !andb_false_r.
Qed.

Lemma not32_ldiff z : word z -> not32 z = Z.ldiff (Z.ones 32) z.
Proof.
  intros Hz. apply Z.bits_inj'. intros i Hi. unfold not32. rewrite Z.lxor_spec, Z.ldiff_spec.
  destruct (decide (i < 32)).
  - rewrite Z.ones_spec_low by lia. by rewrite xorb_true_r.
  - rewrite Z.ones_spec_high, (testbit_small 32 z) by (unfold word in Hz; lia). done.
Qed.

Lemma ROTATE_LEFT_rotl x n : word x -> 0 < n < 32 -> ROTATE_LEFT x n = rotl x n.
Proof.
  intros Hx Hn. unfold ROTATE_LEFT, rotl, u32, wrap. rewrite Z.shiftl_mul_pow2, Z.shiftr_div_pow2 by lia.
  replace (2 ^ 32) with (2 ^ (32 - n) * 2 ^ n) by (rewrite <- Z.pow_add_r by lia; f_equal; lia).
  rewrite Z.mul_mod_distr_r by (apply Z.pow_nonzero; lia). rewrite <- Z.shiftl_mul_pow2 by lia.
  rewrite lor_shiftl_add, Z.shiftl_mul_pow2; try lia. unfold word in Hx.
  split; [apply Z.div_pos; [lia|apply Z.pow_pos_nonneg; lia]|].
  apply Z.div_lt_upper_bound; [apply Z.pow_pos_nonneg; lia|]. rewrite <- Z.pow_add_r by lia.
  replace (32 - n + n) with 32 by lia. lia.
Qed.

Lemma u32_word x : word (u32 x).
Proof. by apply wrap_range. Qed.

Lemma mix_F i x y z : (i < 16)%nat -> word z -> F x y z = mix i x y z.
Proof. intros Hi Hz. unfold mix, F. rewrite Nat.div_small by done. by rewrite land_not32. Qed.
Lemma mix_G i x y z : (16 <= i < 32)%nat -> word y -> G x y z = mix i x y z.
Proof.
  intros Hi Hz. unfold mix, G. replace (i / 16)%nat with 1%nat by (apply Nat.div_unique with (i - 16)%nat; lia).
  by rewrite (Z.land_comm y), land_not32.
Qed.
Lemma mix_H i x y z : (32 <= i < 48)%nat -> H x y z = mix i x y z.
Proof.
  intros Hi. unfold mix, H. replace (i / 16)%nat with 2%nat by (apply Nat.div_unique with (i - 32)%nat; lia).
  apply Z.lxor_assoc.
Qed.
Lemma mix_I i x y z : (48 <= i < 64)%nat -> word z -> I x y z = mix i x y z.
Proof.
  intros Hi Hz. unfold mix, I. replace (i / 16)%nat with 3%nat by (apply Nat.div_unique with (i - 48)%nat; lia).
  by rewrite not32_ldiff.
Qed.

(** A line of the code is the step with its number. *)
Lemma step_line x n i a b c d k s ac e f :
  index i = k -> shifts i = s -> nth i sines 0 = ac -> 0 < s < 32 -> mix i b c d = f ->
  u32 (ROTATE_LEFT (u32 (a + (f + x k + ac))) s + b) = e ->
  steps x (S n) i (a, b, c, d) = steps x n (S i) (d, e, b, c).
Proof.
  intros <- <- <- Hs <- <-. cbn [steps step]. do 4 f_equal. rewrite ROTATE_LEFT_rotl by (done || apply u32_word).
  rewrite Z.add_comm. do 4 f_equal. lia.
Qed.

(** Takes the next line of a round on the left, and its step on the right. *)
Ltac next_line prove_mix :=
  lazymatch goal with
  | |- (let _ := ?op ?a ?b ?c ?d (?x ?k) ?s ?ac in _) = steps ?x (S ?n) ?i (?a, ?b, ?c, ?d) =>
    assert (word (op a b c d (x k) s ac)) by apply u32_word;
    erewrite (step_line x n i a b c d k s ac (op a b c d (x k) s ac));
      [|reflexivity|reflexivity|reflexivity|split; reflexivity|symmetry; prove_mix|reflexivity];
    generalize dependent (op a b c d (x k) s ac);
    let v := fresh "v" in let Hv := fresh "Hv" in intros v Hv;
    lazymatch goal with |- (let y := v in @?B y) = ?R => change (B v = R); cbv beta end
  end.

Lemma round1_steps x a b c d : word a -> word b -> word c -> word d ->
  round1 x (a, b, c, d) = steps x 16 0 (a, b, c, d).
Proof.
  intros Ha Hb Hc Hd. cbv beta iota delta [round1].
  do 16 next_line ltac:(apply mix_F; [lia|assumption]). reflexivity.
Qed.

Lemma round2_steps x a b c d : word a -> word b -> word c -> word d ->
  round2 x (a, b, c, d) = steps x 16 16 (a, b, c, d).
Proof.
  intros Ha Hb Hc Hd. cbv beta iota delta [round2].
  do 16 next_line ltac:(apply mix_G; [lia|assumption]). reflexivity.
Qed.

Lemma round3_steps x a b c d : word a -> word b -> word c -> word d ->
  round3 x (a, b, c, d) = steps x 16 32 (a, b, c, d).
Proof.
  intros Ha Hb Hc Hd. cbv beta iota delta [round3]. do 16 next_line ltac:(apply mix_H; lia). reflexivity.
Qed.

Lemma round4_steps x a b c d : word a -> word b -> word c -> word d ->
  round4 x (a, b, c, d) = steps x 16 48 (a, b, c, d).
Proof.
  intros Ha Hb Hc Hd. cbv beta iota delta [round4].
  do 16 next_line ltac:(apply mix_I; [lia|assumption]). reflexivity.
Qed.

(** ** Blocks *)

Definition words (st : md5_state) : Prop :=
  let '(a, b, c, d) := st in word a /\ word b /\ word c /\ word d.

Lemma steps_words x n : forall i st, words st -> words (steps x n i st).
Proof.
  induction n as [|n IH]; intros i [[[a b] c] d] (Ha & Hb & Hc & Hd); [done|]. cbn [steps step].
  apply IH. split_and!; [done|apply u32_word|done|done].
Qed.

Lemma steps_app x n m : forall i st, steps x (n + m) i st = steps x m (i + n) (steps x n i st).
Proof.
  induction n as [|n IH]; intros i st; simpl; [by rewrite Nat.add_0_r|]. rewrite IH. f_equal. lia.
Qed.

Lemma rounds_steps x st : words st ->
  round4 x (round3 x (round2 x (round1 x st))) = steps x 64 0 st.
Proof.
  intros Hst. rewrite (steps_app x 16 48), (steps_app x 16 32), (steps_app x 16 16). simpl Nat.add.
  assert (forall f i, (forall a b c d, word a -> word b -> word c -> word d ->
    f x (a, b, c, d) = steps x 16 i (a, b, c, d)) -> forall st, words st -> f x st = steps x 16 i st) as Hr.
  { intros f i Hf [[[a b] c] d] (Ha & Hb & Hc & Hd). by apply Hf. }
  rewrite (Hr round1 0%nat (round1_steps x)) by done.
  rewrite (Hr round2 16%nat (round2_steps x)) by by apply steps_words.
  rewrite (Hr round3 32%nat (round3_steps x)) by by do 2 apply steps_words.
  apply (Hr round4 48%nat (round4_steps x)). by do 3 apply steps_words.
Qed.

Lemma md5_transform_compress st block : words st -> md5_transform st block = compress st block.
Proof.
  intros Hst. unfold md5_transform, compress. rewrite rounds_steps by done.
  destruct (steps (dword block) 64 0 st) as [[[a b] c] d], st as [[[s0 s1] s2] s3]. done.
Qed.

Lemma compress_words st block : words (compress st block).
Proof.
  unfold compress. destruct (steps (dword block) 64 0 st) as [[[a b] c] d], st as [[[s0 s1] s2] s3].
  split_and!; apply u32_word.
Qed.

Lemma chunks_app n : forall bs more, (64 * n <= length bs)%nat ->
  chunks n (bs ++ more) = chunks n bs.
Proof.
  induction n as [|n IH]; intros bs more Hl; [done|]. simpl. rewrite take_app_le, drop_app_le by lia.
  by rewrite IH by (rewrite length_drop; lia).
Qed.

Lemma chunks_snoc n : forall bs, (64 * n <= length bs)%nat ->
  chunks (S n) bs = chunks n bs ++ [take 64 (drop (64 * n) bs)].
Proof.
  induction n as [|n IH]; intros bs Hl; [done|]. cbn [chunks app] in *. f_equal.
  rewrite IH by (rewrite length_drop; lia). rewrite drop_drop. do 4 f_equal. lia.
Qed.

Lemma foldl_compress_words bl : forall st, words st -> words (foldl compress st bl).
Proof. induction bl as [|b bl IH]; intros st Hst; [done|]. simpl. apply IH, compress_words. Qed.

(** The loop over the whole blocks. *)
Lemma blocks_loop_ok {S} data more m : forall fuel k st (s : S),
  Z.of_nat (length data) < 2 ^ 63 -> (k + m = length data / 64)%nat -> (m <= fuel)%nat -> words st ->
  blocks_loop fuel (data ++ more) (Z.of_nat (length data)) (64 * Z.of_nat k) st s =
    Ok ((64 * Z.of_nat (length data / 64), foldl compress st (chunks m (drop (64 * k) data))), s).
Proof.
  pose proof (Nat.div_mod_eq (length data) 64). pose proof (Nat.mod_upper_bound (length data) 64 ltac:(lia)).
  induction m as [|m IH]; intros fuel k st s Hl Hk Hf Hst.
  - unfold blocks_loop. replace k with (length data / 64)%nat by lia.
    destruct fuel; fold @blocks_loop; unfold u64; rewrite wrap_small by lia;
      by rewrite (proj2 (Z.ltb_ge _ _)) by lia.
  - destruct fuel as [|fuel]; [lia|]. cbn [blocks_loop]. unfold u64. rewrite !wrap_small by lia.
    rewrite (proj2 (Z.ltb_lt _ _)) by lia.
    erewrite bind_ok by (apply slice_ok; [lia|lia|rewrite length_app; lia]).
    rewrite md5_transform_compress by done.
    replace (64 * Z.of_nat k + 64) with (64 * Z.of_nat (Datatypes.S k)) by lia.
    rewrite IH; [|done|lia|lia|apply compress_words]. cbn [chunks foldl].
    replace (Z.to_nat (64 * Z.of_nat k)) with (64 * k)%nat by lia.
    rewrite drop_app_le, take_app_le by (rewrite ?length_drop; lia).
    rewrite drop_drop. do 6 f_equal. lia.
Qed.

(** ** The last block *)

Lemma le_bytes_map n : forall v k, 0 <= k ->
  map (fun j => u8 (Z.shiftr v (k + Z.of_nat j * 8))) (seq 0 n) = le_bytes n (Z.shiftr v k).
Proof.
  induction n as [|n IH]; intros v k Hk; [done|]. cbn [seq map le_bytes].
  rewrite Z.add_0_r. f_equal. rewrite <- seq_shift, map_map. rewrite Z.shiftr_shiftr by lia. rewrite <- IH by lia.
  apply map_ext. intros j. do 2 f_equal. lia.
Qed.

Lemma length_le_bytes n : forall v, length (le_bytes n v) = n.
Proof. induction n as [|n IH]; intros v; simpl; [done|]. by rewrite IH. Qed.

(** What the array holds after the data and the marker byte. *)
Lemma tail_start (rest : list Z) : (length rest < 64)%nat ->
  (memcpy_to 0 rest ;; poke (Z.to_nat (Z.of_nat (length rest))) 0x80) (replicate 64 None) =
    Ok (tt, map Some (rest ++ [0x80]) ++ replicate (63 - length rest) None).
Proof.
  intros Hl. replace 64%nat with (length rest + (1 + (63 - length rest)))%nat by lia.
  rewrite replicate_add. rewrite replicate_add.
  erewrite bind_ok; [|apply (memcpy_to_ok [] (replicate (length rest) None)); [done|by rewrite length_replicate]].
  rewrite Nat2Z.id. simpl app. rewrite (poke_ok (map Some rest)) by (by rewrite length_map).
  rewrite map_app, <- app_assoc. simpl. done.
Qed.

(** Up to 55 bytes: marker, zeros and the length fit. *)
Lemma md5_tail_ok rest v st : (length rest <= 55)%nat -> words st ->
  exists b, md5_tail rest v st (replicate 64 None) =
    Ok (compress st (rest ++ 0x80 :: replicate (55 - length rest) 0 ++ le_bytes 8 v), b).
Proof.
  intros Hl Hst. eexists. unfold md5_tail. rewrite <- bind_assoc.
  rewrite (bind_ok _ _ _ _ _ (tail_start rest ltac:(lia))).
  rewrite (proj2 (Z.ltb_ge 56 _)) by lia. rewrite bind_assoc.
  replace (63 - length rest)%nat with (55 - length rest + 8)%nat by lia. rewrite replicate_add.
  erewrite bind_ok; [|apply memset_at_ok; rewrite ?length_map, ?length_app, ?length_replicate; simpl; lia].
  rewrite length_replicate. rewrite (bind_ok (ret st) _ _ st _ eq_refl).
  pose proof (le_bytes_map 8 v 0 ltac:(lia)) as Hm. rewrite Z.shiftr_0_r in Hm.
  change (map (fun j => u8 (Z.shiftr v (Z.of_nat j * 8))) (seq 0 8) = le_bytes 8 v) in Hm.
  rewrite Hm. rewrite app_assoc. rewrite <- (app_nil_r (replicate 8 None)).
  erewrite bind_ok; [|apply memcpy_to_ok;
    rewrite ?length_le_bytes, ?length_app, ?length_map, ?length_app, ?length_replicate; simpl; lia].
  rewrite app_nil_r. rewrite <- (fmap_replicate Some). unfold fmap, list_fmap.
  rewrite <- !map_app. rewrite (bind_ok _ _ _ _ _ (whole_ok _)).
  rewrite md5_transform_compress by done. rewrite <- !app_assoc. done.
Qed.

(** From 60 bytes on the second [memset] leaves the array. *)
Lemma md5_tail_out rest v st : (60 <= length rest <= 63)%nat ->
  md5_tail rest v st (replicate 64 None) = Undef.
Proof.
  intros Hl. unfold md5_tail. rewrite <- bind_assoc.
  rewrite (bind_ok _ _ _ _ _ (tail_start rest ltac:(lia))).
  rewrite (proj2 (Z.ltb_lt 56 _)) by lia. rewrite !bind_assoc.
  rewrite <- (app_nil_r (replicate _ None)).
  erewrite bind_ok; [|apply memset_at_ok; rewrite ?length_map, ?length_app, ?length_replicate; simpl; lia].
  rewrite app_nil_r, length_replicate. rewrite <- (fmap_replicate Some). unfold fmap, list_fmap.
  rewrite <- map_app, bind_assoc, (bind_ok _ _ _ _ _ (whole_ok _)).
  unfold bind at 1 2. rewrite memset_at_out; [done|lia|].
  rewrite length_map, !length_app, length_replicate. simpl. lia.
Qed.

(** ** The digest *)

(** The loop and what is left after it. *)
Lemma md5_rest {S} data more (s : S) :
  let q := (length data / 64)%nat in
  Z.of_nat (length data) < 2 ^ 61 ->
  md5 (data ++ more) (Z.of_nat (length data)) s =
    ('(st, _) ← with_block 64 (md5_tail (drop (64 * q) data) (8 * Z.of_nat (length data))
                                 (foldl compress md5_init (chunks q data))) ;
     let '(a, b, c, d) := st in
     ret (le_bytes 4 a ++ le_bytes 4 b ++ le_bytes 4 c ++ le_bytes 4 d)) s.
Proof.
  intros q Hl. unfold md5.
  pose proof (Nat.div_mod_eq (length data) 64). pose proof (Nat.mod_upper_bound (length data) 64 ltac:(lia)).
  erewrite bind_ok; [|apply (blocks_loop_ok data more q _ 0); [lia|done|lia|by repeat split]].
  cbv beta iota. unfold u64. rewrite (wrap_small 64 (_ - _)) by lia.
  erewrite bind_ok; [|apply slice_ok; [lia|lia|rewrite length_app; lia]].
  rewrite (wrap_small 64 (_ * _)) by lia. rewrite (Z.mul_comm _ 8).
  rewrite drop_app_le by lia. rewrite take_app_length' by (rewrite length_drop; lia).
  replace (Z.to_nat (64 * _)) with (64 * q)%nat by lia. done.
Qed.

Lemma padding_short data : (length data mod 64 < 56)%nat ->
  let q := (length data / 64)%nat in
  length (data ++ padding (length data)) = (64 * S q)%nat /\
  foldl compress md5_init (chunks (S q) (data ++ padding (length data))) =
    compress (foldl compress md5_init (chunks q data))
      (drop (64 * q) data ++ 0x80 :: replicate (55 - length (drop (64 * q) data)) 0
         ++ le_bytes 8 (8 * Z.of_nat (length data))).
Proof.
  intros Hr q. pose proof (Nat.div_mod_eq (length data) 64) as Hq.
  assert (padding (length data) = 0x80 :: replicate (55 - length (drop (64 * q) data)) 0
    ++ le_bytes 8 (8 * Z.of_nat (length data))) as Hp.
  { unfold padding. rewrite length_drop. do 3 f_equal.
    replace (119 - length data mod 64)%nat with (55 - length data mod 64 + 1 * 64)%nat by lia.
    rewrite Nat.Div0.mod_add, Nat.mod_small by lia. unfold q. lia. }
  assert (length (padding (length data)) = 64 - length data mod 64)%nat as Hlp.
  { rewrite Hp. cbn [length]. rewrite length_app, length_replicate, length_drop, length_le_bytes.
    unfold q. lia. }
  split; [rewrite length_app; lia|].
  rewrite chunks_snoc by (rewrite length_app; lia). rewrite foldl_app. simpl foldl.
  rewrite chunks_app by lia. rewrite drop_app_le by lia. rewrite take_ge.
  - by rewrite <- Hp.
  - rewrite length_app, length_drop, Hlp. lia.
Qed.

(** C18. A message whose length leaves a remainder below 56 is digested as the
    standard prescribes: the unrolled rounds, the loop over whole blocks and the
    padding built in the local array produce [md5_spec] of exactly the first [len]
    bytes, whatever follows them in memory. *)
Theorem md5_correct {S} data more (s : S) :
  Z.of_nat (length data) < 2 ^ 61 -> (length data mod 64 < 56)%nat ->
  md5 (data ++ more) (Z.of_nat (length data)) s = Ok (md5_spec data, s).
Proof.
  intros Hl Hr. rewrite md5_rest by done.
  pose proof (Nat.div_mod_eq (length data) 64). destruct (padding_short data Hr) as [Hlen Hf].
  destruct (md5_tail_ok (drop (64 * (length data / 64)) data) (8 * Z.of_nat (length data))
    (foldl compress md5_init (chunks (length data / 64) data))) as [b Hb].
  - rewrite length_drop. lia.
  - apply foldl_compress_words. by repeat split.
  - unfold with_block, bind. rewrite Hb. rewrite <- Hf. unfold md5_spec.
    rewrite Hlen. replace (64 * Datatypes.S (length data / 64) / 64)%nat
      with (Datatypes.S (length data / 64)) by (rewrite Nat.mul_comm, Nat.div_mul; lia).
    by destruct (foldl _ _ _) as [[[a' b'] c'] d'].
Qed.

(** A message whose length leaves a remainder of 60 or more makes the code
    write past the 64-byte array: the second [memset] starts at the marker instead
    of at the beginning of the array. *)
Theorem md5_overflow {S} data more (s : S) :
  Z.of_nat (length data) < 2 ^ 61 -> (60 <= length data mod 64)%nat ->
  md5 (data ++ more) (Z.of_nat (length data)) s = Undef.
Proof.
  intros Hl Hr. rewrite md5_rest by done.
  pose proof (Nat.div_mod_eq (length data) 64). pose proof (Nat.mod_upper_bound (length data) 64 ltac:(lia)).
  unfold with_block, bind. rewrite md5_tail_out; [done|]. rewrite length_drop. lia.
Qed.

(** With a remainder from 56 to 59 the array is not cleared: the digest is not the
    standard's. *)
Lemma md5_middle_wrong :
  exists d, md5 (replicate 56 97) 56 tt = Ok (d, tt) /\ d <> md5_spec (replicate 56 97).
Proof. eexists. split; [vm_compute; reflexivity|]. by vm_compute. Qed.

(** The specification on vectors of RFC 1321: the empty message and [abc]. *)
Lemma md5_spec_vectors :
  md5_spec [] = [212; 29; 140; 217; 143; 0; 178; 4; 233; 128; 9; 152; 236; 248; 66; 126] /\
  md5_spec [97; 98; 99] = [144; 1; 80; 152; 60; 210; 79; 176; 214; 150; 63; 125; 40; 225; 127; 114].
Proof. by vm_compute. Qed.

Lemma md5_correct_witness :
  md5 [97; 98; 99; 0; 7] 3 tt =
    Ok ([144; 1; 80; 152; 60; 210; 79; 176; 214; 150; 63; 125; 40; 225; 127; 114], tt).
Proof.
  rewrite <- (proj2 md5_spec_vectors).
  apply (md5_correct [97; 98; 99] [0; 7] tt); simpl; lia.
Defined.

Lemma md5_overflow_witness : md5 (replicate 60 0) 60 tt = Undef.
Proof.
  rewrite <- (app_nil_r (replicate 60 0)).
  apply (md5_overflow (replicate 60 0) [] tt); simpl; lia.
Defined.
