(* ===== verification/Threads.v ===== *)
(** * Threads, wait queues and the scheduler (src/kernel/thread)

    Several processors share the threads, the wait queues and the locks.  What a
    processor is about to do is its [pc]; [cpu_step] is one atomic action of one
    processor: an access to a shared word, or a whole critical section of a
    spinlock that the same function takes and releases.  An interleaving is a
    sequence of such actions.

    A processor that finds a lock taken spins: the action leaves the state as it
    is.  A panic (a failed assertion, [expect] or [unwrap]) is [Undef], and so is
    resuming a thread whose registers are not saved on its stack.

    The lock in a thread is taken for the exit and for the test of those who join;
    the other changes of a state are single actions, whether or not a test for [Dead]
    is under way, which they do not affect.

    The condition a thread waits for, and the operations that change it, are the
    class [Client], the trait [WaitCondition] of the code. *)

From stdpp Require Import base tactics list functions.
From S2P Require Import Prelude CMonad.
Local Open Scope Z_scope.

Abbreviation tid := nat.
Abbreviation cid := nat.

(** ** Thread states (core/state.rs, core/thread.rs) *)

Inductive ThreadState : Type :=
| New | Registered | Idle | Ready | Running | Blocking | Blocked | Waking | Dead.
#[export] Instance ThreadState_eq_dec : EqDecision ThreadState.
Proof. solve_decision. Defined.

(** [ThreadInner::transition_to]: the new state, or an error. *)
Definition transition_to (state new_state : ThreadState) : option ThreadState :=
  match state, new_state with
  | New, Registered => Some Registered
  | Registered, Ready => Some Ready
  | Registered, Idle => Some Idle
  | Ready, Running => Some Running
  | Idle, Running => Some Running
  | Running, Ready => Some Ready
  | Running, Idle => Some Idle
  | Running, Blocking => Some Blocking
  | Running, Running => Some Running
  | Blocking, Blocked => Some Blocked
  | Blocking, Running => Some Running
  | Blocked, Waking => Some Waking
  | Waking, Ready => Some Ready
  | Running, Dead => Some Dead
  | _, _ => None
  end.

(** ** Wait queues and locks *)

(** The queue of those who join a thread, or another one. *)
Inductive queue : Type := Join (t : tid) | Queue (n : nat).
#[export] Instance queue_eq_dec : EqDecision queue.
Proof. solve_decision. Defined.

(** The lock in a thread, that of a condition, that of a wait queue. *)
Inductive lock : Type := Inner (t : tid) | Cond (n : nat) | Waiters (q : queue).
#[export] Instance lock_eq_dec : EqDecision lock.
Proof. solve_decision. Defined.

(** What is protected by condition locks, and the code that uses wait queues.

    [is_satisfied]: the state the test leaves when the condition holds, which a C
    callback may change; [None] when it does not hold.  [after_wait] is what the
    caller of [wait] does before it lets the lock go, and [None] when it panics.  An
    operation takes [op_lock], changes the state and says which queue to wake, and
    whether all of its threads; it wakes before it lets the lock go when
    [op_hold]. *)
Class Client : Type := {
  cstate : Type;
  cond_lock : nat -> nat;
  is_satisfied : nat -> cstate -> option cstate;
  after_wait : nat -> cstate -> option cstate;
  after_wait_ok : forall n x x', is_satisfied n x = Some x' -> is_Some (after_wait n x');
  op : Type;
  op_lock : op -> nat;
  op_hold : op -> bool;
  op_run : op -> cstate -> cstate * option (nat * bool)
}.

(** The lock of the condition a queue waits for: that of the state of the thread,
    for those who join it. *)
Definition condition_lock `{Client} (q : queue) : lock :=
  match q with Join t => Inner t | Queue n => Cond (cond_lock n) end.

(** ** The kernel state *)

Section threads.
Context `{Client}.

(** What a processor is about to do.

    [Run]: code of the thread.  [Wait...]: the steps of [WaitQueue::wait], in the
    order of the code.  [Sched]: [Scheduler::schedule].  [Pick]: choose the next thread, in
    [switch_blocked] and [exit_current].  [Start] to [Switch]: hand the processor
    over; [Finish...]: [finish_switch], on the new stack.  [Wake...]: [wake_one_on]
    and [wake_all_on], then go on with [r].  [Op...]: an operation of the client.
    [IrqReturn]: the end of an interrupt handler, which works in front of what it
    interrupted, as [schedule] works in front of what was preempted.

    [kont]: where a thread goes on when it is switched to again. *)
Inductive pc : Type :=
| Run
| WaitLock (q : queue)
| WaitHold (q : queue)
| WaitDrop (q : queue)
| WaitEnqueue (q : queue)
| WaitCommit (q : queue)
| Sched (r : pc)
| SchedPut (next : tid) (r : pc)
| SchedStart (next : tid) (r : pc)
| Exit
| Pick (k : kont)
| Start (next : tid) (k : kont)
| Prepare (next : tid) (k : kont)
| Switch (old : tid) (k : kont)
| Finish (r : pc)
| FinishPrev (prev : tid) (r : pc)
| FinishExit (r : pc)
| WakeLock (q : queue) (all : bool) (r : pc)
| WakeNext (q : queue) (all : bool) (r : pc)
| WakeLoad (q : queue) (t : tid) (all : bool) (r : pc)
| WakePut (q : queue) (t : tid) (all : bool) (r : pc)
| OpLock (o : op) (r : pc)
| OpUnlock (o : op) (r : pc)
| IrqReturn (r : pc)
with kont : Type := Resume (r : pc) | Exited.

(** [context] is [None] while a processor runs on the stack of the thread;
    [run_node] and [waiter] say whether the node is in a list. *)
Record Thread : Type := mkThread {
  state : ThreadState;
  on_cpu : bool;
  run_node : bool;
  waiter : bool;
  context : option kont
}.

(** The structure [Scheduler] of a processor. *)
Record Cpu : Type := mkCpu {
  ready : list tid;
  current : tid;
  previous : option tid;
  idle : tid;
  pending_exit : option tid;
  slice_ms : Z;
  resched : bool;
  at_pc : pc
}.

Record Kernel : Type := mkKernel {
  threads : tid -> Thread;
  cpus : cid -> Cpu;
  waiters : queue -> list tid;
  owner : lock -> option cid;
  cond : cstate
}.

Definition upd_thread (t : tid) (f : Thread -> Thread) (s : Kernel) : Kernel :=
  mkKernel (<[t := f (threads s t)]> (threads s)) (cpus s) (waiters s) (owner s) (cond s).
Definition upd_cpu (c : cid) (f : Cpu -> Cpu) (s : Kernel) : Kernel :=
  mkKernel (threads s) (<[c := f (cpus s c)]> (cpus s)) (waiters s) (owner s) (cond s).
Definition upd_waiters (q : queue) (f : list tid -> list tid) (s : Kernel) : Kernel :=
  mkKernel (threads s) (cpus s) (<[q := f (waiters s q)]> (waiters s)) (owner s) (cond s).
Definition set_owner (l : lock) (o : option cid) (s : Kernel) : Kernel :=
  mkKernel (threads s) (cpus s) (waiters s) (<[l := o]> (owner s)) (cond s).
Definition set_cond (x : cstate) (s : Kernel) : Kernel :=
  mkKernel (threads s) (cpus s) (waiters s) (owner s) x.

Definition set_state (x : ThreadState) (t : Thread) : Thread :=
  mkThread x (on_cpu t) (run_node t) (waiter t) (context t).
Definition set_on_cpu (x : bool) (t : Thread) : Thread :=
  mkThread (state t) x (run_node t) (waiter t) (context t).
Definition set_run_node (x : bool) (t : Thread) : Thread :=
  mkThread (state t) (on_cpu t) x (waiter t) (context t).
Definition set_waiter (x : bool) (t : Thread) : Thread :=
  mkThread (state t) (on_cpu t) (run_node t) x (context t).
Definition set_context (x : option kont) (t : Thread) : Thread :=
  mkThread (state t) (on_cpu t) (run_node t) (waiter t) x.

Definition set_ready (x : list tid) (c : Cpu) : Cpu :=
  mkCpu x (current c) (previous c) (idle c) (pending_exit c) (slice_ms c) (resched c) (at_pc c).
Definition set_current (x : tid) (c : Cpu) : Cpu :=
  mkCpu (ready c) x (previous c) (idle c) (pending_exit c) (slice_ms c) (resched c) (at_pc c).
Definition set_previous (x : option tid) (c : Cpu) : Cpu :=
  mkCpu (ready c) (current c) x (idle c) (pending_exit c) (slice_ms c) (resched c) (at_pc c).
Definition set_pending_exit (x : option tid) (c : Cpu) : Cpu :=
  mkCpu (ready c) (current c) (previous c) (idle c) x (slice_ms c) (resched c) (at_pc c).
Definition set_slice (x : Z) (c : Cpu) : Cpu :=
  mkCpu (ready c) (current c) (previous c) (idle c) (pending_exit c) x (resched c) (at_pc c).
Definition set_resched (x : bool) (c : Cpu) : Cpu :=
  mkCpu (ready c) (current c) (previous c) (idle c) (pending_exit c) (slice_ms c) x (at_pc c).
Definition set_pc (x : pc) (c : Cpu) : Cpu :=
  mkCpu (ready c) (current c) (previous c) (idle c) (pending_exit c) (slice_ms c) (resched c) x.

Abbreviation K := (M Kernel).

Definition thread (t : tid) : K Thread := gets (fun s => threads s t).
Definition cpu (c : cid) : K Cpu := gets (fun s => cpus s c).
Definition on_thread (t : tid) (f : Thread -> Thread) : K unit := modify (upd_thread t f).
Definition on_this (c : cid) (f : Cpu -> Cpu) : K unit := modify (upd_cpu c f).
Definition goto (c : cid) (p : pc) : K unit := on_this c (set_pc p).

(** ** Threads (core/thread.rs) *)

(** [Thread::transition_to]; the answer is [is_ok]. *)
Definition transition (t : tid) (new_state : ThreadState) : K bool :=
  th ← thread t ;
  match transition_to (state th) new_state with
  | Some x => on_thread t (set_state x) ;; ret true
  | None => ret false
  end.

(** [transition_to(new_state).expect(...)]. *)
Definition must_become (t : tid) (new_state : ThreadState) : K unit :=
  ok ← transition t new_state ; defined_if ok.

Definition try_waking_to_ready (t : tid) : K bool :=
  th ← thread t ;
  if decide (state th = Waking) then must_become t Ready ;; ret true else ret false.

(** ** The ready queue (scheduler/ready_queue.rs) *)

Definition link (c : cid) (t : tid) : K unit :=
  th ← thread t ;
  defined_if (negb (run_node th)) ;;
  on_thread t (set_run_node true) ;;
  on_this c (fun p => set_ready (ready p ++ [t]) p).

Definition dequeue (c : cid) (t : tid) : K unit :=
  th ← thread t ;
  defined_if (run_node th) ;;
  on_thread t (set_run_node false) ;;
  on_this c (fun p => set_ready (filter (.≠ t) (ready p)) p).

Definition enqueue (c : cid) (t : tid) : K bool :=
  ok ← transition t Ready ;
  if ok : bool then link c t ;; ret true else ret false.

(** [ReadyQueue::enqueue_woken], under the lock of the queue. *)
Definition try_enqueue_woken (c : cid) (t : tid) : K bool :=
  ok ← try_waking_to_ready t ;
  if ok : bool then link c t ;; ret true else ret false.

(** ** The scheduler (scheduler.rs) *)

Definition TIME_SLICE_MS : Z := 100.

Definition request_reschedule (c : cid) : K unit := on_this c (set_resched true).

Definition tick (c : cid) (elapsed_ms : Z) : K unit :=
  if elapsed_ms =? 0 then ret tt
  else
    p ← cpu c ;
    let remaining := slice_ms p in
    on_this c (set_slice (if remaining <=? elapsed_ms then TIME_SLICE_MS
                          else remaining - elapsed_ms)) ;;
    when (remaining <=? elapsed_ms) (request_reschedule c).

Definition get_next (c : cid) : K (option tid) :=
  p ← cpu c ;
  match ready p with
  | [] => ret None
  | next :: _ =>
    defined_if (negb (bool_decide (current p = next))) ;;
    dequeue c next ;;
    ret (Some next)
  end.

(** [get_next().unwrap_or(idle())]. *)
Definition next_or_idle (c : cid) : K tid :=
  next ← get_next c ;
  p ← cpu c ;
  ret (default (idle p) next).

(** [schedule] up to the choice of the next thread; when there is nothing but the
    idle thread to run, and it runs already, the call returns. *)
Definition schedule (c : cid) (r : pc) : K unit :=
  on_this c (set_resched false) ;;
  p ← cpu c ;
  next ← next_or_idle c ;
  if decide (current p = idle p /\ next = idle p) then goto c r
  else goto c (SchedPut next r).

(** The running thread goes back to the ready queue, or becomes idle. *)
Definition schedule_put (c : cid) (next : tid) (r : pc) : K unit :=
  p ← cpu c ;
  (if decide (current p = idle p) then must_become (current p) Idle
   else ok ← enqueue c (current p) ; defined_if ok) ;;
  goto c (SchedStart next r).

(** The next thread becomes [Running], and interrupts are turned off. *)
Definition schedule_start (c : cid) (next : tid) (r : pc) : K unit :=
  must_become next Running ;; goto c (Prepare next (Resume r)).

(** The same in [switch_blocked], and in [exit_current], where the thread that exits
    is noted for the one after it. *)
Definition start_next (c : cid) (next : tid) (k : kont) : K unit :=
  must_become next Running ;;
  match k with
  | Exited =>
    p ← cpu c ;
    defined_if (bool_decide (pending_exit p = None)) ;;
    on_this c (set_pending_exit (Some (current p)))
  | Resume _ => ret tt
  end ;;
  goto c (Prepare next k).

Definition prepare_switch (c : cid) (next : tid) (k : kont) : K unit :=
  p ← cpu c ;
  let old := current p in
  defined_if (negb (bool_decide (old = next))) ;;
  defined_if (bool_decide (previous p = None)) ;;
  on_this c (set_previous (Some old)) ;;
  on_thread next (set_on_cpu true) ;;
  on_this c (set_current next) ;;
  goto c (Switch old k).

(** [Thread::switch_context]: the registers of the old thread are saved, those of
    the new one restored.  A dead thread panics when it is resumed. *)
Definition switch_context (c : cid) (old : tid) (k : kont) : K unit :=
  p ← cpu c ;
  th ← thread (current p) ;
  match context th with
  | None | Some Exited => undef
  | Some (Resume r) =>
    on_thread (current p) (set_context None) ;;
    on_thread old (set_context (Some k)) ;;
    goto c (Finish r)
  end.

(** [finish_switch], on the stack of the new thread. *)
Definition finish_switch (c : cid) (r : pc) : K unit :=
  on_this c (set_slice TIME_SLICE_MS) ;;
  p ← cpu c ;
  on_thread (current p) (set_on_cpu true) ;;
  on_this c (set_previous None) ;;
  match previous p with
  | Some prev => on_thread prev (set_on_cpu false) ;; goto c (FinishPrev prev r)
  | None => goto c (FinishExit r)
  end.

Definition finish_previous (c : cid) (prev : tid) (r : pc) : K unit :=
  ok ← try_enqueue_woken c prev ;
  when ok (request_reschedule c) ;;
  goto c (FinishExit r).

Definition finish_exit (c : cid) (r : pc) : K unit :=
  p ← cpu c ;
  on_this c (set_pending_exit None) ;;
  match pending_exit p with
  | Some t => th ← thread t ; defined_if (bool_decide (state th = Dead))
  | None => ret tt
  end ;;
  goto c r.

(** ** Locks *)

(** Take the lock and go on, or spin. *)
Definition locked (c : cid) (l : lock) (m : K unit) : K unit :=
  o ← gets (fun s => owner s l) ;
  match o with
  | None => modify (set_owner l (Some c)) ;; m
  | Some _ => ret tt
  end.
Definition unlock (l : lock) : K unit := modify (set_owner l None).

(** ** Wait queues (wait_queue.rs) *)

Definition wait_enqueue (q : queue) (t : tid) : K unit :=
  th ← thread t ;
  defined_if (negb (waiter th)) ;;
  on_thread t (set_waiter true) ;;
  modify (upd_waiters q (fun ws => ws ++ [t])).

Definition wait_remove (q : queue) (t : tid) : K unit :=
  th ← thread t ;
  defined_if (waiter th) ;;
  on_thread t (set_waiter false) ;;
  modify (upd_waiters q (filter (.≠ t))).

(** The test of a condition, of the state of a thread for those who join it; when it
    holds, what the caller of [wait] does before it releases the lock. *)
Definition satisfied (q : queue) : K bool :=
  match q with
  | Join t => th ← thread t ; ret (bool_decide (state th = Dead))
  | Queue n =>
    x ← gets cond ;
    match is_satisfied n x with
    | Some x => x ← of_option (after_wait n x) ; modify (set_cond x) ;; ret true
    | None => ret false
    end
  end.

(** [wait], one action after the other. *)
Definition wait_lock (c : cid) (q : queue) : K unit :=
  locked c (condition_lock q) (
    ok ← satisfied q ;
    if ok : bool then unlock (condition_lock q) ;; goto c Run
    else
      p ← cpu c ;
      defined_if (negb (bool_decide (current p = idle p))) ;;
      goto c (WaitHold q)).

Definition wait_hold (c : cid) (q : queue) : K unit :=
  locked c (Waiters q) (goto c (WaitDrop q)).

Definition wait_drop (c : cid) (q : queue) : K unit :=
  unlock (condition_lock q) ;; goto c (WaitEnqueue q).

Definition wait_enqueue_current (c : cid) (q : queue) : K unit :=
  p ← cpu c ;
  th ← thread (current p) ;
  defined_if (negb (waiter th)) ;;
  must_become (current p) Blocking ;;
  wait_enqueue q (current p) ;;
  unlock (Waiters q) ;;
  goto c (WaitCommit q).

Definition wait_commit (c : cid) (q : queue) : K unit :=
  locked c (Waiters q) (
    p ← cpu c ;
    th ← thread (current p) ;
    match state th with
    | Running => defined_if (negb (waiter th)) ;; goto c (WaitLock q)
    | Blocking =>
      defined_if (waiter th) ;; must_become (current p) Blocked ;; goto c (Pick (Resume (WaitLock q)))
    | _ => undef
    end ;;
    unlock (Waiters q)).

(** [wake_one_on] and [wake_all_on] with [WaitQueueInner::wake_first]. *)
Definition wake_lock (c : cid) (q : queue) (all : bool) (r : pc) : K unit :=
  locked c (Waiters q) (goto c (WakeNext q all r)).

Definition wake_done (c : cid) (q : queue) (r : pc) : K unit :=
  unlock (Waiters q) ;; goto c r.

Definition wake_more (c : cid) (q : queue) (all : bool) (r : pc) : K unit :=
  if all then goto c (WakeNext q all r) else wake_done c q r.

Definition wake_next (c : cid) (q : queue) (all : bool) (r : pc) : K unit :=
  ws ← gets (fun s => waiters s q) ;
  match ws with
  | [] => wake_done c q r
  | t :: _ =>
    th ← thread t ;
    match state th with
    | Blocking => wait_remove q t ;; must_become t Running ;; wake_more c q all r
    | Blocked => wait_remove q t ;; must_become t Waking ;; goto c (WakeLoad q t all r)
    | _ => undef
    end
  end.

Definition wake_load (c : cid) (q : queue) (t : tid) (all : bool) (r : pc) : K unit :=
  th ← thread t ;
  if on_cpu th then wake_more c q all r else goto c (WakePut q t all r).

(** The request to reschedule is made here, not after the last thread of [wake_all]. *)
Definition wake_put (c : cid) (q : queue) (t : tid) (all : bool) (r : pc) : K unit :=
  ok ← try_enqueue_woken c t ;
  when ok (request_reschedule c) ;;
  wake_more c q all r.

(** ** Clients, exit and interrupts *)

Definition op_lock_run (c : cid) (o : op) (r : pc) : K unit :=
  locked c (Cond (op_lock o)) (
    x ← gets cond ;
    let '(x, w) := op_run o x in
    modify (set_cond x) ;;
    let r := if op_hold o then OpUnlock o r else r in
    (if op_hold o then ret tt else unlock (Cond (op_lock o))) ;;
    goto c (match w with Some (q, all) => WakeLock (Queue q) all r | None => r end)).

Definition op_unlock (c : cid) (o : op) (r : pc) : K unit :=
  unlock (Cond (op_lock o)) ;; goto c r.

(** [exit_current]: [Thread::finish] wakes all who join the thread. *)
Definition exit_current (c : cid) : K unit :=
  p ← cpu c ;
  locked c (Inner (current p)) (
    must_become (current p) Dead ;;
    unlock (Inner (current p)) ;;
    goto c (WakeLock (Join (current p)) true (Pick Exited))).

(** The choice of the next thread, for one that blocks or exits. *)
Definition pick (c : cid) (k : kont) : K unit :=
  match k with Exited => on_this c (set_resched false) | Resume _ => ret tt end ;;
  next ← next_or_idle c ;
  goto c (Start next k).

(** ** Processors *)

(** What can happen next: the processor goes on; it is preempted, or the thread
    yields; in code of a thread, the thread calls one of the functions above; an
    interrupt runs an operation of the client, or reports elapsed time. *)
Inductive event : Type :=
| Go
| Preempt
| CallWait (q : queue)
| CallExit
| CallOp (o : op)
| CallCreate (t : tid)
| CallRun (t : tid)
| Irq (o : op)
| IrqTick (ms : Z).

(** The calls of a thread.  The idle thread makes none; a thread joins others that are not idle threads ([Thread::join] asserts both),
    and runs threads that are registered ([thread_run]). *)
Definition run_thread (c : cid) (e : event) : K unit :=
  p ← cpu c ;
  if decide (current p = idle p) then ret tt
  else
    match e with
    | Go | Preempt | Irq _ | IrqTick _ => ret tt
    | CallWait (Queue n) => goto c (WaitLock (Queue n))
    | CallWait (Join t) =>
      th ← thread t ;
      if decide (t = current p \/ state th = Idle \/ state th = New) then ret tt
      else if decide (state th = Dead) then ret tt
      else goto c (WaitLock (Join t))
    | CallExit => goto c Exit
    | CallOp o => goto c (OpLock o Run)
    | CallCreate t =>
      th ← thread t ;
      if decide (state th = New) then
        must_become t Registered ;; on_thread t (set_context (Some (Resume Run)))
      else ret tt
    | CallRun t =>
      th ← thread t ;
      if decide (state th = Registered) then ok ← enqueue c t ; ret tt else ret tt
    end.

(** Interrupts are on: in code of a thread, in [schedule] before the switch, at
    the head of the loop of [wait], and in an operation while it holds no lock that
    was taken with interrupts off. *)
Definition interruptible (p : pc) : bool :=
  match p with
  | Run | WaitLock _ | Sched _ | SchedPut _ _ | SchedStart _ _
  | OpLock _ _ | OpUnlock _ _ | IrqReturn _ | WakeLock _ _ (Run | OpUnlock _ _ | IrqReturn _) => true
  | _ => false
  end.

(** The preemption counter is 0: in code of a thread, at the head of the loop of
    [wait], and in an operation of the thread that does not wake under its lock, up
    to the wake-up. *)
Definition preemptible (p : pc) : bool :=
  match p with
  | Run | WaitLock _ | WakeLock _ _ Run => true
  | OpLock o Run => negb (op_hold o)
  | _ => false
  end.

Definition advance (c : cid) (e : event) (p : pc) : K unit :=
  match p with
  | Run => run_thread c e
  | WaitLock q => wait_lock c q
  | WaitHold q => wait_hold c q
  | WaitDrop q => wait_drop c q
  | WaitEnqueue q => wait_enqueue_current c q
  | WaitCommit q => wait_commit c q
  | Sched r => schedule c r
  | SchedPut next r => schedule_put c next r
  | SchedStart next r => schedule_start c next r
  | Exit => exit_current c
  | Pick k => pick c k
  | Start next k => start_next c next k
  | Prepare next k => prepare_switch c next k
  | Switch old k => switch_context c old k
  | Finish r => finish_switch c r
  | FinishPrev prev r => finish_previous c prev r
  | FinishExit r => finish_exit c r
  | WakeLock q all r => wake_lock c q all r
  | WakeNext q all r => wake_next c q all r
  | WakeLoad q t all r => wake_load c q t all r
  | WakePut q t all r => wake_put c q t all r
  | OpLock o r => op_lock_run c o r
  | OpUnlock o r => op_unlock c o r
  | IrqReturn r => goto c r
  end.

(** One action of processor [c]. *)
Definition cpu_step (c : cid) (e : event) : K unit :=
  p ← cpu c ;
  match e with
  | Preempt => if preemptible (at_pc p) then goto c (Sched (at_pc p)) else ret tt
  | Irq o => if interruptible (at_pc p) then goto c (OpLock o (IrqReturn (at_pc p))) else ret tt
  | IrqTick ms => if interruptible (at_pc p) then tick c ms else ret tt
  | _ => advance c e (at_pc p)
  end.

(** Any of [n] processors acts. *)
Definition step (n : nat) (s s' : Kernel) : Prop :=
  exists c e, (c < n)%nat /\ cpu_step c e s = Ok (tt, s').

(** A sequence of actions, each by the processor named. *)
Fixpoint run_steps (l : list (cid * event)) : K unit :=
  match l with
  | [] => ret tt
  | (c, e) :: l => cpu_step c e ;; run_steps l
  end.

(** After start-up every processor runs a thread of its own and has an idle thread;
    the other threads do not exist yet; queues are empty and locks free. *)
Definition booted (n : nat) (s : Kernel) : Prop :=
  (forall c, (c < n)%nat ->
     exists t i, cpus s c = mkCpu [] t None i None TIME_SLICE_MS false Run /\
       threads s t = mkThread Running true false false None /\
       threads s i = mkThread Idle false false false (Some (Resume Run))) /\
  (forall c c', (c < n)%nat -> (c' < n)%nat ->
     current (cpus s c) = current (cpus s c') \/ idle (cpus s c) = idle (cpus s c') -> c = c') /\
  (forall t, (exists c, (c < n)%nat /\ (t = current (cpus s c) \/ t = idle (cpus s c))) \/
     threads s t = mkThread New false false false None) /\
  (forall q, waiters s q = []) /\
  (forall l, owner s l = None).
End threads.
