(* ===== verification/ThreadsInv.v ===== *)
(** * The invariant of the scheduler and the wait queues

    Which processor a thread belongs to, what its state says about the queues it
    is in, and what the processor that runs it, leaves it or chose it is about to
    do. *)

From stdpp Require Import base tactics list functions.
From S2P Require Import Prelude CMonad Threads.
Local Open Scope Z_scope.

Lemma NoDup_snoc {A} (l : list A) (x : A) : NoDup l -> x ∉ l -> NoDup (l ++ [x]).
Proof.
  intros Hl Hx. apply list.NoDup_app. split_and!; [done| |apply NoDup_singleton].
  by intros y Hy ->%list_elem_of_singleton.
Qed.

Section inv.
Context `{Client} (n : nat).
Implicit Types (s : Kernel) (c : cid) (t : tid) (p r : pc) (k : kont).

Abbreviation st s t := (state (threads s t)).
Abbreviation cur s c := (current (cpus s c)).

(** The thread that a processor has chosen and not yet switched to, also while an
    interrupt handler works. *)
Fixpoint next_of (p : pc) : option tid :=
  match p with
  | SchedPut t _ | SchedStart t _ | Start t _ | Prepare t _ => Some t
  | WakeLock _ _ r | WakeNext _ _ r | WakeLoad _ _ _ r | WakePut _ _ _ r
  | OpLock _ r | OpUnlock _ r | IrqReturn r => next_of r
  | _ => None
  end.

(** The processor runs the thread, or is handing over to another one. *)
Definition on s c t : Prop := cur s c = t \/ previous (cpus s c) = Some t.

(** The thread is in the hands of the processor. *)
Definition attached s c t : Prop :=
  on s c t \/ t ∈ ready (cpus s c) \/ next_of (at_pc (cpus s c)) = Some t \/ idle (cpus s c) = t.

Definition no_idle s t : Prop := forall c, (c < n)%nat -> idle (cpus s c) <> t.

(** Where a thread may go on after it was preempted or blocked. *)
Definition resume_ok s t r : Prop :=
  match r with
  | Run => True
  | WaitLock _ | WakeLock _ _ Run | OpLock _ Run => no_idle s t
  | _ => False
  end.

(** The thread in front of which a handler or an operation works. *)
Definition frame s t r : Prop :=
  match r with
  | Run => no_idle s t
  | OpUnlock _ _ | IrqReturn _ | Pick Exited => True
  | _ => False
  end.

Definition chosen s c t : Prop :=
  (st s t = Ready \/ st s t = Idle /\ t = idle (cpus s c)) /\
  run_node (threads s t) = false /\ on_cpu (threads s t) = false.

(** A thread that blocks or exits. *)
Definition leaving s t k : Prop :=
  match k with
  | Exited => st s t = Dead
  | Resume r => (exists q, r = WaitLock q) /\ (st s t = Blocked \/ st s t = Waking)
  end /\ no_idle s t.

(** A thread that was preempted. *)
Definition preempted s c t r : Prop :=
  (st s t = Ready /\ t ∈ ready (cpus s c) /\ no_idle s t \/ st s t = Idle /\ t = idle (cpus s c)) /\
  resume_ok s t r.

Definition left s c t k : Prop :=
  leaving s t k \/ exists r, k = Resume r /\ preempted s c t r.

Fixpoint pc_ok s c (p : pc) : Prop :=
  match p with
  | Run => st s (cur s c) = Running
  | WaitLock _ | WaitHold _ | WaitDrop _ | WaitEnqueue _ | Exit =>
    st s (cur s c) = Running /\ no_idle s (cur s c)
  | WaitCommit q =>
    (st s (cur s c) = Running \/ st s (cur s c) = Blocking /\ cur s c ∈ waiters s q) /\
    no_idle s (cur s c)
  | Sched r => st s (cur s c) = Running /\ resume_ok s (cur s c) r
  | SchedPut t r => st s (cur s c) = Running /\ resume_ok s (cur s c) r /\ chosen s c t
  | SchedStart t r => preempted s c (cur s c) r /\ chosen s c t
  | Pick k => leaving s (cur s c) k
  | Start t k => leaving s (cur s c) k /\ chosen s c t
  | Prepare t k =>
    left s c (cur s c) k /\ st s t = Running /\ on_cpu (threads s t) = false
  | Switch t k => st s (cur s c) = Running /\ left s c t k
  | Finish r | FinishExit r => st s (cur s c) = Running /\ resume_ok s (cur s c) r
  | FinishPrev t r => st s (cur s c) = Running /\ resume_ok s (cur s c) r /\ t <> cur s c
  | WakeLock _ _ r | WakeNext _ _ r | WakeLoad _ _ _ r | WakePut _ _ _ r
  | OpLock _ r | OpUnlock _ r => frame s (cur s c) r /\ pc_ok s c r
  | IrqReturn r => interruptible r = true /\ pc_ok s c r
  end.

(** The thread whose stack the processor works on. *)
Definition stack s c : tid :=
  match at_pc (cpus s c) with Switch t _ => t | _ => cur s c end.

(** What holds of one processor. *)
Record cpu_ok s c : Prop := Cpu_ok {
  co_pc : pc_ok s c (at_pc (cpus s c));
  co_current : on_cpu (threads s (cur s c)) = true;
  co_previous : match previous (cpus s c) with
                | Some t => t <> cur s c /\ on_cpu (threads s t) = true /\ (exists k, left s c t k) /\
                    ((exists k, at_pc (cpus s c) = Switch t k) \/ exists r, at_pc (cpus s c) = Finish r)
                | None => match at_pc (cpus s c) with Switch _ _ | Finish _ => False | _ => True end
                end;
  co_switch : match at_pc (cpus s c) with
              | Switch t _ => previous (cpus s c) = Some t | _ => True
              end;
  co_nodup : NoDup (ready (cpus s c));
  co_ready t : t ∈ ready (cpus s c) ->
    st s t = Ready /\ run_node (threads s t) = true /\ no_idle s t;
  co_idle : st s (idle (cpus s c)) = Idle \/
    st s (idle (cpus s c)) = Running /\
      (cur s c = idle (cpus s c) \/ exists k, at_pc (cpus s c) = Prepare (idle (cpus s c)) k);
  co_stack : context (threads s (stack s c)) = None;
  co_pending : match pending_exit (cpus s c) with
               | Some t => st s t = Dead /\
                   match at_pc (cpus s c) with
                   | Prepare _ _ | Switch _ _ | Finish _ | FinishPrev _ _ | FinishExit _ => True
                   | _ => False
                   end
               | None => True
               end
}.

(** About to put the thread into the ready queue if it is [Waking], having seen or
    made its [on_cpu] false; or about to look at it. *)
Definition stale s c t : Prop :=
  (exists r, at_pc (cpus s c) = FinishPrev t r) \/
  exists q all r, at_pc (cpus s c) = WakePut q t all r.
Definition putter s c t : Prop :=
  stale s c t \/ exists q all r, at_pc (cpus s c) = WakeLoad q t all r.

(** What holds of one thread. *)
Record thread_ok s t : Prop := Thread_ok {
  to_waiter : waiter (threads s t) = true <-> st s t = Blocking \/ st s t = Blocked;
  to_queued : waiter (threads s t) = true -> exists q, t ∈ waiters s q;
  to_run_node : run_node (threads s t) = true -> exists c, (c < n)%nat /\ t ∈ ready (cpus s c);
  to_on_cpu : on_cpu (threads s t) = true -> exists c, (c < n)%nat /\ on s c t;
  to_outside : st s t = New \/ st s t = Registered -> on_cpu (threads s t) = false;
  to_ready : st s t = Ready -> run_node (threads s t) = true \/
    exists c, (c < n)%nat /\ next_of (at_pc (cpus s c)) = Some t;
  to_running : st s t = Running -> on_cpu (threads s t) = true \/
    exists c k, (c < n)%nat /\ at_pc (cpus s c) = Prepare t k;
  to_blocking : st s t = Blocking ->
    exists c q, (c < n)%nat /\ cur s c = t /\ at_pc (cpus s c) = WaitCommit q;
  to_waking : st s t = Waking -> on_cpu (threads s t) = true \/
    exists c, (c < n)%nat /\ putter s c t;
  to_stale c : (c < n)%nat -> stale s c t -> st s t = Waking -> on_cpu (threads s t) = false;
  to_context : match context (threads s t) with
               | None => st s t = New \/ exists c, (c < n)%nat /\ stack s c = t
               | Some Exited => st s t = Dead
               | Some (Resume r) => resume_ok s t r
               end
}.

Record inv s : Prop := Inv {
  i_cpu c : (c < n)%nat -> cpu_ok s c;
  i_thread t : thread_ok s t;
  i_one_cpu c c' t : (c < n)%nat -> (c' < n)%nat -> attached s c t -> attached s c' t -> c = c';
  i_waiters t q : t ∈ waiters s q -> waiter (threads s t) = true;
  i_one_queue t q q' : t ∈ waiters s q -> t ∈ waiters s q' -> q = q';
  i_queue_nodup q : NoDup (waiters s q)
}.
(** ** Frames *)

(** What a processor knows is about its own threads. *)
Section same.
Variables (s s' : Kernel) (c : cid).
Hypothesis Hidle : forall c', idle (cpus s' c') = idle (cpus s c').
Hypothesis Hcpu : cpus s' c = cpus s c.
Hypothesis Hthreads : forall t, attached s c t -> threads s' t = threads s t.
Hypothesis Hwaiters : forall q, cur s c ∈ waiters s q -> cur s c ∈ waiters s' q.

Lemma no_idle_same t : no_idle s t <-> no_idle s' t.
Proof. unfold no_idle. by setoid_rewrite Hidle. Qed.

Lemma resume_ok_same t r : resume_ok s t r -> resume_ok s' t r.
Proof. destruct r; try done; [apply no_idle_same|..]; destruct r; try done; apply no_idle_same. Qed.

Lemma frame_same t r : frame s t r -> frame s' t r.
Proof. destruct r; try done; apply no_idle_same. Qed.

Lemma current_same : threads s' (cur s c) = threads s (cur s c).
Proof. apply Hthreads. by left; left. Qed.

Lemma chosen_same t : attached s c t -> chosen s c t -> chosen s' c t.
Proof. intros Ha. unfold chosen. by rewrite Hcpu, (Hthreads t Ha). Qed.

Lemma leaving_same t k : attached s c t -> leaving s t k -> leaving s' t k.
Proof. intros Ha. unfold leaving. by rewrite (Hthreads t Ha), <- no_idle_same. Qed.

Lemma preempted_same t r : attached s c t -> preempted s c t r -> preempted s' c t r.
Proof.
  intros Ha. unfold preempted. rewrite Hcpu, (Hthreads t Ha), <- no_idle_same.
  intros [? ?]. split; [done|by apply resume_ok_same].
Qed.

Lemma left_same t k : attached s c t -> left s c t k -> left s' c t k.
Proof.
  intros Ha [Hl|(r & -> & Hp)]; [left; by apply leaving_same|].
  right. exists r. split; [done|by apply preempted_same].
Qed.

Lemma pc_ok_same p :
  next_of p = next_of (at_pc (cpus s c)) ->
  (forall t k, p = Switch t k -> previous (cpus s c) = Some t) ->
  pc_ok s c p -> pc_ok s' c p.
Proof.
  pose proof current_same as Hc.
  assert (forall t, next_of (at_pc (cpus s c)) = Some t -> attached s c t) as Hn by (unfold attached; tauto).
  assert (attached s c (cur s c)) as Ha by (by left; left).
  induction p; simpl; intros Hnext Hsw; rewrite ?Hcpu, ?Hc, <- ?no_idle_same;
    try (specialize (Hn _ (eq_sym Hnext))); try done;
    intros; destruct_and?; split_and?; auto using resume_ok_same, frame_same, chosen_same,
      leaving_same, preempted_same, left_same;
    try (apply IHp; [done|by intros ? ? ->|done]).
  - naive_solver.
  - by rewrite Hthreads.
  - by rewrite Hthreads.
  - eapply left_same; [|done]. left. right. naive_solver.
Qed.
Lemma cpu_ok_same : (forall t, st s t = Dead -> st s' t = Dead) -> cpu_ok s c -> cpu_ok s' c.
Proof.
  intros Hdead [Hpc Hon Hprev Hsw Hnd Hr Hi Hst Hpe].
  assert (threads s' (stack s c) = threads s (stack s c)) as Hstack.
  { apply Hthreads. left. unfold stack, on in *. destruct (at_pc _); auto. }
  split; rewrite ?Hcpu, ?current_same; try done.
  - apply pc_ok_same; [done| |done]. intros t k Hp. by rewrite Hp in Hsw.
  - destruct (previous (cpus s c)) as [t|] eqn:Hp; [|done].
    rewrite (Hthreads t) by (left; by right). destruct Hprev as (? & ? & (k & ?) & ?).
    split_and!; [done|done| |done]. exists k. apply left_same; [|done]. left. by right.
  - intros t Ht. rewrite (Hthreads t), <- no_idle_same by (right; by left). by apply Hr.
  - rewrite Hthreads; [done|]. unfold attached. auto.
  - unfold stack. rewrite Hcpu. unfold stack in Hstack, Hst. by rewrite Hstack.
  - destruct (pending_exit (cpus s c)) as [t|]; naive_solver.
Qed.
End same.

(** One processor acts; the threads [T] that it changes are its own or nobody's. *)
Definition role_kept s s' c t : Prop :=
  (t ∈ ready (cpus s c) -> t ∈ ready (cpus s' c)) /\
  (on s c t -> on s' c t) /\
  (st s t = Ready -> next_of (at_pc (cpus s c)) = Some t -> next_of (at_pc (cpus s' c)) = Some t) /\
  (forall k, at_pc (cpus s c) = Prepare t k -> exists k', at_pc (cpus s' c) = Prepare t k') /\
  (forall q, st s t = Blocking -> cur s c = t -> at_pc (cpus s c) = WaitCommit q ->
     cur s' c = t /\ exists q', at_pc (cpus s' c) = WaitCommit q') /\
  (st s t = Waking -> putter s c t -> putter s' c t \/ on_cpu (threads s t) = true) /\
  (st s t = Waking -> stale s' c t -> stale s c t \/ on_cpu (threads s t) = false) /\
  (stack s c = t -> stack s' c = t).

Lemma thread_ok_same s s' c t :
  (forall c', idle (cpus s' c') = idle (cpus s c')) ->
  (forall c', c' <> c -> cpus s' c' = cpus s c') ->
  threads s' t = threads s t ->
  (forall q, t ∈ waiters s q -> t ∈ waiters s' q) ->
  role_kept s s' c t -> thread_ok s t -> thread_ok s' t.
Proof.
  intros Hidle Hcpus Ht Hw (Hr1 & Hr2 & Hr3 & Hr4 & Hr5 & Hr6 & Hr7 & Hr8)
    [H1 H2 H3 H4 H5 H6 H7 H8 H9 H10 H11].
  assert (forall P : Cpu -> Prop, forall c', c' <> c -> P (cpus s c') -> P (cpus s' c')) as Ho.
  { intros P c' Hc. by rewrite Hcpus. }
  split; rewrite ?Ht; try done.
  - intros [q Hq]%H2. eauto.
  - intros (c' & ? & Hc)%H3. exists c'. split; [done|].
    destruct (decide (c' = c)) as [->|]; [auto|by rewrite Hcpus].
  - intros (c' & ? & Hc)%H4. exists c'. split; [done|].
    destruct (decide (c' = c)) as [->|]; [auto|]. unfold on. by rewrite Hcpus.
  - intros Hs. destruct (H6 Hs) as [?|(c' & ? & Hc)]; [by left|right]. exists c'. split; [done|].
    destruct (decide (c' = c)) as [->|]; [auto|by rewrite Hcpus].
  - intros Hs. destruct (H7 Hs) as [?|(c' & k & ? & Hc)]; [by left|right].
    destruct (decide (c' = c)) as [->|]; [|exists c', k; by rewrite Hcpus].
    destruct (Hr4 k Hc) as [k' ?]. by exists c, k'.
  - intros Hs. destruct (H8 Hs) as (c' & q & ? & Hc & Hp).
    destruct (decide (c' = c)) as [->|]; [|exists c', q; by rewrite Hcpus].
    destruct (Hr5 q Hs Hc Hp) as [? [q' ?]]. by exists c, q'.
  - intros Hs. destruct (H9 Hs) as [?|(c' & ? & Hc)]; [by left|].
    destruct (decide (c' = c)) as [->|].
    + destruct (Hr6 Hs Hc); [right; by exists c|by left].
    + right. exists c'. split; [done|]. unfold putter, stale. by rewrite Hcpus.
  - intros c' Hc' Hst Hs. destruct (decide (c' = c)) as [->|].
    { destruct (Hr7 Hs Hst) as [Hst'|]; [by apply (H10 c)|done]. }
    apply (H10 c'); [done| |done]. unfold stale in *. by rewrite Hcpus in Hst.
  - destruct (context (threads s t)) as [[r|]|]; [|done|].
    + by eapply resume_ok_same.
    + destruct H11 as [?|(c' & ? & Hc)]; [by left|right]. exists c'. split; [done|].
      destruct (decide (c' = c)) as [->|]; [auto|]. unfold stack. by rewrite Hcpus.
Qed.

Lemma inv_update s s' c (T : tid -> Prop) :
  inv s -> (c < n)%nat ->
  (forall c', idle (cpus s' c') = idle (cpus s c')) ->
  (forall c', c' <> c -> cpus s' c' = cpus s c') ->
  (forall t, ~ T t -> threads s' t = threads s t) ->
  (forall t, T t -> st s t = Dead -> st s' t = Dead) ->
  (forall t c', T t -> (c' < n)%nat -> c' <> c -> ~ attached s c' t) ->
  (forall t, attached s' c t -> attached s c t \/ T t) ->
  (forall t q, ~ T t -> t ∈ waiters s q <-> t ∈ waiters s' q) ->
  (forall t q, T t -> t ∈ waiters s' q -> waiter (threads s' t) = true) ->
  (forall t q q', T t -> t ∈ waiters s' q -> t ∈ waiters s' q' -> q = q') ->
  (forall q, NoDup (waiters s' q)) ->
  cpu_ok s' c ->
  (forall t, T t -> thread_ok s' t) ->
  (forall t, ~ T t -> role_kept s s' c t) ->
  (forall t, Decision (T t)) ->
  inv s'.
Proof.
  intros [I1 I2 I3 I4 I5 I6] Hc Hidle Hcpus Hthr Hdead Hown Hatt Hw1 Hw2 Hw3 Hw4 Hcpu HT Hrole Hdec.
  assert (forall c' t, (c' < n)%nat -> c' <> c -> attached s c' t -> threads s' t = threads s t) as Hsame.
  { intros c' t ? ? Ha. apply Hthr. intros HTt. by eapply Hown. }
  assert (forall c' t, c' <> c -> attached s' c' t -> attached s c' t) as Hatt'.
  { intros c' t Hne. unfold attached, on. by rewrite Hcpus. }
  split.
  - intros c' Hc'. destruct (decide (c' = c)) as [->|Hne]; [done|].
    apply (cpu_ok_same s); eauto.
    + intros q Hq. apply Hw1; [|done]. intros HTt. eapply Hown; [done|exact Hc'|done|]. by left; left.
    + intros t Ht. destruct (Hdec t); [auto|by rewrite Hthr].
  - intros t. destruct (Hdec t); [auto|]. apply (thread_ok_same s s' c); auto. intros q. by apply Hw1.
  - intros c1 c2 t ? ? H1 H2.
    destruct (decide (c1 = c)) as [->|], (decide (c2 = c)) as [->|]; [done|..].
    + apply Hatt in H1 as [H1|HTt]; [eauto|]. exfalso. by eapply Hown; [done| |done|apply Hatt'].
    + apply Hatt in H2 as [H2|HTt]; [eauto|]. exfalso. by eapply Hown; [done| |done|apply Hatt'].
    + eauto.
  - intros t q Hq. destruct (Hdec t); [eauto|]. rewrite Hthr by done. eapply I4, Hw1; done.
  - intros t q q' Hq Hq'. destruct (Hdec t); [eauto|]. eapply I5; by apply Hw1.
  - done.
Qed.

(** ** Steps that change nothing but the program counter *)

(** The two states differ in the counter of [c], its time slice and flag, in locks
    and in the state of the client. *)
Record only_pc s s' c (p : pc) : Prop := Only_pc {
  op_threads : threads s' = threads s;
  op_waiters : waiters s' = waiters s;
  op_others c' : c' <> c -> cpus s' c' = cpus s c';
  op_current : cur s' c = cur s c;
  op_previous : previous (cpus s' c) = previous (cpus s c);
  op_ready : ready (cpus s' c) = ready (cpus s c);
  op_idle : idle (cpus s' c) = idle (cpus s c);
  op_pending : pending_exit (cpus s' c) = pending_exit (cpus s c) \/
    pending_exit (cpus s' c) = None;
  op_pc : at_pc (cpus s' c) = p
}.

Lemma only_pc_idle s s' c p : only_pc s s' c p -> forall c', idle (cpus s' c') = idle (cpus s c').
Proof.
  intros Hs c'. destruct (decide (c' = c)) as [->|]; [apply Hs|]. by rewrite (op_others _ _ _ _ Hs).
Qed.

Section only_pc.
Variables (s s' : Kernel) (c : cid) (p' : pc).
Hypothesis Hs : only_pc s s' c p'.

Lemma only_pc_no_idle t : no_idle s t <-> no_idle s' t.
Proof. apply no_idle_same, (only_pc_idle _ _ _ _ Hs). Qed.
Lemma only_pc_resume t r : resume_ok s t r -> resume_ok s' t r.
Proof. apply resume_ok_same, (only_pc_idle _ _ _ _ Hs). Qed.
Lemma only_pc_frame t r : frame s t r -> frame s' t r.
Proof. apply frame_same, (only_pc_idle _ _ _ _ Hs). Qed.
Lemma only_pc_chosen t : chosen s c t -> chosen s' c t.
Proof. destruct Hs as [Ht Hw Ho Hc Hp Hr Hi Hpe Hpc]. unfold chosen. by rewrite Ht, Hi. Qed.
Lemma only_pc_leaving t k : leaving s t k -> leaving s' t k.
Proof. unfold leaving. by rewrite (op_threads _ _ _ _ Hs), <- only_pc_no_idle. Qed.
Lemma only_pc_preempted t r : preempted s c t r -> preempted s' c t r.
Proof.
  unfold preempted. destruct Hs as [Ht Hw Ho Hc Hp Hr Hi Hpe Hpc].
  rewrite Ht, Hr, Hi, <- only_pc_no_idle. intros [? ?]. split; [done|by apply only_pc_resume].
Qed.
Lemma only_pc_left t k : left s c t k -> left s' c t k.
Proof.
  intros [Hl|(r & -> & Hp)]; [left; by apply only_pc_leaving|].
  right. exists r. split; [done|by apply only_pc_preempted].
Qed.

Lemma only_pc_ok p : pc_ok s c p -> pc_ok s' c p.
Proof.
  pose proof only_pc_no_idle as Hni. destruct Hs as [Ht Hw Ho Hc Hp Hr Hi Hpe Hpc].
  induction p; simpl; rewrite ?Ht, ?Hc, ?Hw, <- ?Hni; intros; destruct_and?; split_and?;
    auto using only_pc_resume, only_pc_chosen, only_pc_leaving, only_pc_preempted, only_pc_left,
      only_pc_frame.
Qed.

Lemma only_pc_attached t : (next_of p' = Some t -> attached s c t) ->
  attached s' c t -> attached s c t.
Proof.
  unfold attached, on. destruct Hs as [Ht Hw Ho Hc Hp Hr Hi Hpe Hpc].
  rewrite Hc, Hp, Hr, Hi, Hpc. tauto.
Qed.
End only_pc.

(** Between these the roles of threads do not depend on the counter. *)
Definition calm (p : pc) : bool :=
  match p with
  | WaitCommit _ | Prepare _ _ | Switch _ _ | Finish _ | FinishPrev _ _ | FinishExit _
  | WakeLoad _ _ _ _ | WakePut _ _ _ _ => false
  | _ => true
  end.

Lemma calm_previous s c : cpu_ok s c -> calm (at_pc (cpus s c)) = true ->
  previous (cpus s c) = None /\ pending_exit (cpus s c) = None /\ stack s c = cur s c.
Proof.
  intros [_ _ Hprev _ _ _ _ _ Hpe] Hcalm. unfold stack.
  destruct (previous (cpus s c)) as [t|].
  { destruct Hprev as (_ & _ & _ & [[k Hk]|[r Hr]]); [by rewrite Hk in Hcalm|by rewrite Hr in Hcalm]. }
  destruct (pending_exit (cpus s c)); [destruct Hpe as [_ Hpe]|]; by destruct (at_pc (cpus s c)).
Qed.

(** Only the counter changes, and it says the same about every thread. *)
Lemma inv_only_pc s s' c p' :
  inv s -> (c < n)%nat -> only_pc s s' c p' ->
  previous (cpus s c) = None ->
  match p' with Switch _ _ | Finish _ => False | _ => True end ->
  (pending_exit (cpus s' c) = None \/ exists r, p' = FinishExit r) ->
  (forall t k, at_pc (cpus s c) <> Prepare t k) ->
  (forall q, at_pc (cpus s c) = WaitCommit q -> st s (cur s c) <> Blocking) ->
  (forall t, st s t = Waking -> putter s c t -> putter s' c t \/ on_cpu (threads s t) = true) ->
  (forall t, st s t = Waking -> stale s' c t -> stale s c t \/ on_cpu (threads s t) = false) ->
  (forall t, next_of p' = Some t -> attached s c t) ->
  (forall t, st s t = Ready -> next_of (at_pc (cpus s c)) = Some t -> next_of p' = Some t) ->
  pc_ok s c p' -> inv s'.
Proof.
  intros Hinv Hc Hs Hp Hshape Hpe Hprep Hcommit Hput Hstale Hnext Hnext' Hok.
  pose proof (only_pc_idle _ _ _ _ Hs) as Hidle.
  pose proof (i_cpu _ Hinv c Hc) as [Kpc Kon Kprev Ksw Knd Kr Ki Kst Kpe].
  rewrite Hp in Kprev.
  assert (stack s c = cur s c) as Hst by (unfold stack; by destruct (at_pc (cpus s c))).
  assert (stack s' c = cur s c) as Hst'.
  { unfold stack. rewrite (op_current _ _ _ _ Hs), (op_pc _ _ _ _ Hs). by destruct p'. }
  eapply (inv_update s s' c (fun _ => False)); try done.
  - apply Hs.
  - intros t _. by rewrite (op_threads _ _ _ _ Hs).
  - intros t Ha. left. eapply only_pc_attached; eauto.
  - intros t q _. by rewrite (op_waiters _ _ _ _ Hs).
  - intros q. rewrite (op_waiters _ _ _ _ Hs). apply Hinv.
  - split; rewrite ?(op_pc _ _ _ _ Hs), ?(op_current _ _ _ _ Hs), ?(op_threads _ _ _ _ Hs),
      ?(op_previous _ _ _ _ Hs), ?(op_ready _ _ _ _ Hs), ?(op_idle _ _ _ _ Hs),
      ?Hp, ?Hst'; try done.
    + by eapply only_pc_ok.
    + by destruct p'.
    + intros t. rewrite <- (no_idle_same s s' Hidle). apply Kr.
    + destruct Ki as [?|[? [?|[k Hk]]]]; [by left|by right; auto|]. by destruct (Hprep _ _ Hk).
    + by rewrite Hst in Kst.
    + destruct (op_pending _ _ _ _ Hs) as [Hpe'|Hpe'], Hpe as [Hpe|[r ->]]; rewrite ?Hpe, ?Hpe'; try done.
      destruct (pending_exit (cpus s c)) as [t|]; [|done]. split; [apply Kpe|done].
  - intros t _. unfold role_kept, on. rewrite (op_pc _ _ _ _ Hs), (op_ready _ _ _ _ Hs),
      (op_current _ _ _ _ Hs), (op_previous _ _ _ _ Hs), Hst, Hst'. split_and!; auto.
    + intros k Hk. by destruct (Hprep _ _ Hk).
    + intros q Hb <- Hq. by destruct (Hcommit _ Hq).
  - intros t. apply False_dec.
Qed.

Lemma inv_calm s s' c p' :
  inv s -> (c < n)%nat -> only_pc s s' c p' ->
  calm (at_pc (cpus s c)) = true -> calm p' = true ->
  (forall t, next_of p' = Some t -> attached s c t) ->
  (forall t, st s t = Ready -> next_of (at_pc (cpus s c)) = Some t -> next_of p' = Some t) ->
  pc_ok s c p' -> inv s'.
Proof.
  intros Hinv Hc Hs Hcalm Hcalm' Hnext Hnext' Hok.
  destruct (calm_previous s c) as (Hp & Hpe & Hst); [by apply Hinv|done|].
  eapply inv_only_pc; try done.
  - by destruct p'.
  - destruct (op_pending _ _ _ _ Hs) as [->| ->]; auto.
  - intros t k Hk. by rewrite Hk in Hcalm.
  - intros q Hq. by rewrite Hq in Hcalm.
  - intros t _ [[[r Hr]|(q & all & r & Hr)]|(q & all & r & Hr)]; by rewrite Hr in Hcalm.
  - intros t _ [[r Hr]|(q & all & r & Hr)]; rewrite (op_pc _ _ _ _ Hs) in Hr; by rewrite Hr in Hcalm'.
Qed.

(** ** Steps that change one thread *)

Lemma calm_role s s' c t :
  calm (at_pc (cpus s c)) = true -> calm (at_pc (cpus s' c)) = true ->
  (t ∈ ready (cpus s c) -> t ∈ ready (cpus s' c)) ->
  cur s' c = cur s c -> previous (cpus s' c) = previous (cpus s c) ->
  (st s t = Ready -> next_of (at_pc (cpus s c)) = Some t -> next_of (at_pc (cpus s' c)) = Some t) ->
  role_kept s s' c t.
Proof.
  intros Hp Hp' Hr Hc Hprev Hn. unfold role_kept, on, putter, stale, stack. rewrite Hc, Hprev.
  split_and!; try done.
  - intros k Hk. by rewrite Hk in Hp.
  - intros q _ _ Hk. by rewrite Hk in Hp.
  - intros _ [[[r Hk]|(? & ? & ? & Hk)]|(? & ? & ? & Hk)]; by rewrite Hk in Hp.
  - intros _ [[r Hk]|(? & ? & ? & Hk)]; by rewrite Hk in Hp'.
  - by destruct (at_pc (cpus s c)), (at_pc (cpus s' c)).
Qed.

Lemma thread_ok_on s c t :
  (c < n)%nat -> on_cpu (threads s t) = true -> on s c t ->
  (waiter (threads s t) = true <-> st s t = Blocking \/ st s t = Blocked) ->
  (waiter (threads s t) = true -> exists q, t ∈ waiters s q) ->
  (run_node (threads s t) = true -> t ∈ ready (cpus s c)) ->
  match st s t with
  | New | Registered => False
  | Ready => run_node (threads s t) = true
  | Blocking => cur s c = t /\ exists q, at_pc (cpus s c) = WaitCommit q
  | Waking => forall c', (c' < n)%nat -> ~ stale s c' t
  | _ => True
  end ->
  match context (threads s t) with
  | None => stack s c = t
  | Some (Resume r) => resume_ok s t r
  | Some Exited => st s t = Dead
  end -> thread_ok s t.
Proof.
  intros Hc Hon Hon' Hw1 Hw2 Hr Hst Hctx. split; rewrite ?Hon; try done; try (by left).
  - intros Hrn. exists c. auto.
  - intros _. by exists c.
  - by intros [Hs|Hs]; rewrite Hs in Hst.
  - intros Hs. rewrite Hs in Hst. by left.
  - intros Hs. rewrite Hs in Hst. destruct Hst as [? [q ?]]. by exists c, q.
  - intros c' Hc' Hsl Hs. rewrite Hs in Hst. by destruct (Hst c').
  - destruct (context (threads s t)) as [[r|]|]; [done|done|]. right. by exists c.
Qed.

(** Thread [t0] becomes [th] and processor [c] becomes [x]; other threads and
    processors stay, and so do the wait queues. *)
Record effect s s' c t0 (th : Thread) (x : Cpu) : Prop := Effect {
  e_thread : threads s' t0 = th;
  e_threads t : t <> t0 -> threads s' t = threads s t;
  e_cpu : cpus s' c = x;
  e_cpus c' : c' <> c -> cpus s' c' = cpus s c';
  e_waiters : waiters s' = waiters s
}.

Section effect.
Variables (s s' : Kernel) (c : cid) (t0 : tid) (th : Thread) (x : Cpu).
Hypothesis He : effect s s' c t0 th x.
Hypothesis Hinv : inv s.
Hypothesis Hc : (c < n)%nat.
Hypothesis Hidle : idle x = idle (cpus s c).

Lemma effect_idle c' : idle (cpus s' c') = idle (cpus s c').
Proof.
  destruct (decide (c' = c)) as [->|]; [by rewrite (e_cpu _ _ _ _ _ _ He)|].
  by rewrite (e_cpus _ _ _ _ _ _ He).
Qed.
Lemma effect_no_idle t : no_idle s t <-> no_idle s' t.
Proof. apply no_idle_same, effect_idle. Qed.
Lemma effect_not_idle t : no_idle s t -> no_idle s' t.
Proof. apply effect_no_idle. Qed.
Lemma effect_resume t r : resume_ok s t r -> resume_ok s' t r.
Proof. apply resume_ok_same, effect_idle. Qed.

Lemma effect_chosen t : t <> t0 -> chosen s c t -> chosen s' c t.
Proof.
  intros Hne. unfold chosen.
  by rewrite (e_threads _ _ _ _ _ _ He), (e_cpu _ _ _ _ _ _ He), Hidle by done.
Qed.

Lemma effect_leaving t k : t <> t0 -> leaving s t k -> leaving s' t k.
Proof.
  intros Hne. unfold leaving. by rewrite (e_threads _ _ _ _ _ _ He), <- effect_no_idle by done.
Qed.

Lemma effect_preempted t r : t <> t0 -> (t ∈ ready (cpus s c) -> t ∈ ready x) ->
  preempted s c t r -> preempted s' c t r.
Proof.
  intros Hne Hr. unfold preempted.
  rewrite (e_threads _ _ _ _ _ _ He), (e_cpu _ _ _ _ _ _ He), Hidle, <- effect_no_idle by done.
  intros [Hs Hres%effect_resume]. split; [|done]. tauto.
Qed.

Lemma effect_left t k : t <> t0 -> (t ∈ ready (cpus s c) -> t ∈ ready x) ->
  left s c t k -> left s' c t k.
Proof.
  intros Hne Hr [Hl|(r & -> & Hp)]; [left; by apply effect_leaving|].
  right. exists r. split; [done|by apply effect_preempted].
Qed.

(** What the processor knows of threads other than [t0]. *)
Lemma effect_pc_ok p : current x = cur s c -> cur s c <> t0 -> next_of p <> Some t0 ->
  (forall t k, p <> Switch t k) -> (forall t, t ∈ ready (cpus s c) -> t ∈ ready x) ->
  pc_ok s c p -> pc_ok s' c p.
Proof.
  intros Hcx Hne Hn Hsw Hr.
  assert (threads s' (cur s c) = threads s (cur s c)) as Hcur by (by apply He).
  pose proof effect_no_idle as Hni.
  induction p; simpl in *; rewrite ?(e_cpu _ _ _ _ _ _ He), ?Hcx, ?Hcur, ?(e_waiters _ _ _ _ _ _ He), <- ?Hni;
    intros; destruct_and?; split_and?; try done;
    try (by rewrite (e_threads _ _ _ _ _ _ He) by congruence);
    try (apply effect_resume || apply effect_chosen || apply effect_leaving || apply effect_preempted
         || apply effect_left); auto; try congruence.
  all: try (by apply (frame_same s s' effect_idle)).
  all: try (apply IHp; try done; intros ? ? ->; done).
  by destruct (Hsw _ _ eq_refl).
Qed.

Lemma effect_inv :
  (attached s c t0 \/ forall c', (c' < n)%nat -> ~ attached s c' t0) ->
  (st s t0 = Dead -> state th = Dead) ->
  (forall t, t <> t0 -> attached s' c t -> attached s c t) ->
  (waiter (threads s t0) = true -> waiter th = true) ->
  cpu_ok s' c -> thread_ok s' t0 -> (forall t, t <> t0 -> role_kept s s' c t) -> inv s'.
Proof.
  intros Hown Hdead Hatt Hwt Hcpu Hthr Hrole. destruct He as [Ht0 Ht Hcx Hcs Hw].
  eapply (inv_update s s' c (fun t => t = t0)); try done.
  - apply effect_idle.
  - intros t -> ?. rewrite Ht0. auto.
  - intros t c' -> Hc' Hne Ha. destruct Hown as [Hown|Hown]; [|by eapply Hown].
    apply Hne. by eapply (i_one_cpu _ Hinv c' c).
  - intros t Ha. destruct (decide (t = t0)); auto.
  - intros t q _. by rewrite Hw.
  - intros t q ->. rewrite Hw, Ht0. intros Hq. eapply Hwt, (i_waiters _ Hinv); done.
  - intros t q q' _. rewrite Hw. apply Hinv.
  - rewrite Hw. apply Hinv.
  - by intros t ->.
  - intros t. apply (decide_rel (=)).
Qed.

(** A processor that hands nothing over. *)
Lemma effect_cpu :
  previous x = None ->
  match pending_exit x with Some t => st s' t = Dead /\ exists r, at_pc x = FinishExit r | None => True end ->
  match at_pc x with Switch _ _ | Finish _ | Prepare _ _ => False | _ => True end ->
  pc_ok s' c (at_pc x) -> on_cpu (threads s' (current x)) = true ->
  context (threads s' (current x)) = None -> NoDup (ready x) ->
  (forall t, t ∈ ready x ->
     st s' t = Ready /\ run_node (threads s' t) = true /\ no_idle s t) ->
  (st s' (idle x) = Idle \/ st s' (idle x) = Running /\ current x = idle x) -> cpu_ok s' c.
Proof.
  intros Hp Hpe Hshape Hok Hon Hctx Hnd Hr Hi. pose proof (e_cpu _ _ _ _ _ _ He) as Hx.
  split; rewrite ?Hx; try done.
  - rewrite Hp. by destruct (at_pc x).
  - by destruct (at_pc x).
  - intros t. rewrite <- effect_no_idle. apply Hr.
  - destruct Hi as [?|[? ?]]; auto.
  - unfold stack. rewrite Hx. by destruct (at_pc x).
  - destruct (pending_exit x) as [t|]; [|done]. by destruct Hpe as [? [r ->]].
Qed.

(** A thread on the processor. *)
Lemma effect_thread_on :
  on_cpu th = true -> on s' c t0 ->
  (waiter th = true <-> state th = Blocking \/ state th = Blocked) ->
  (waiter th = true -> exists q, t0 ∈ waiters s' q) ->
  (run_node th = true -> t0 ∈ ready x) ->
  match state th with
  | New | Registered => False
  | Ready => run_node th = true
  | Blocking => current x = t0 /\ exists q, at_pc x = WaitCommit q
  | Waking => forall c', (c' < n)%nat -> ~ stale s' c' t0
  | _ => True
  end ->
  match context th with
  | None => stack s' c = t0
  | Some (Resume r) => resume_ok s t0 r
  | Some Exited => state th = Dead
  end -> thread_ok s' t0.
Proof.
  intros Hon Hon' Hw1 Hw2 Hr Hst Hctx. pose proof (e_cpu _ _ _ _ _ _ He) as Hx.
  apply (thread_ok_on s' c); rewrite ?Hx, ?(e_thread _ _ _ _ _ _ He); try done.
  destruct (context th) as [[r|]|]; [by apply effect_resume|done..].
Qed.

(** A thread on no processor. *)
Lemma effect_thread_off :
  on_cpu th = false ->
  (waiter th = true <-> state th = Blocking \/ state th = Blocked) ->
  (waiter th = true -> exists q, t0 ∈ waiters s' q) ->
  (run_node th = true -> t0 ∈ ready x) ->
  match state th with
  | Ready => run_node th = true \/ next_of (at_pc x) = Some t0
  | Running => exists k, at_pc x = Prepare t0 k
  | Blocking => False
  | Waking => exists c', (c' < n)%nat /\ putter s' c' t0
  | _ => True
  end ->
  match context th with
  | None => state th = New
  | Some (Resume r) => resume_ok s t0 r
  | Some Exited => state th = Dead
  end -> thread_ok s' t0.
Proof.
  intros Hon Hw1 Hw2 Hr Hst Hctx. pose proof (e_cpu _ _ _ _ _ _ He) as Hx.
  split; rewrite (e_thread _ _ _ _ _ _ He); rewrite ?Hon; try done.
  - intros Hrn. exists c. rewrite Hx. auto.
  - intros Hs. rewrite Hs in Hst. destruct Hst as [?|?]; [by left|]. right. exists c. by rewrite Hx.
  - intros Hs. rewrite Hs in Hst. destruct Hst as [k ?]. right. exists c, k. by rewrite Hx.
  - intros Hs. by rewrite Hs in Hst.
  - intros Hs. rewrite Hs in Hst. by right.
  - destruct (context th) as [[r|]|]; [by apply effect_resume|done|by left].
Qed.
End effect.

(** ** Threads that are not on a processor *)

Lemma stack_on s c : cpu_ok s c -> on s c (stack s c).
Proof. intros Hcpu. pose proof (co_switch _ _ Hcpu). unfold stack, on. destruct (at_pc _); auto. Qed.

Lemma on_on_cpu s c t : cpu_ok s c -> on s c t -> on_cpu (threads s t) = true.
Proof.
  intros Hcpu [<-|Hp]; [apply Hcpu|]. pose proof (co_previous _ _ Hcpu) as Hprev.
  rewrite Hp in Hprev. apply Hprev.
Qed.

(** A thread that its processor is leaving, or runs. *)
Lemma on_facts s c t : inv s -> (c < n)%nat -> on s c t ->
  (run_node (threads s t) = true -> t ∈ ready (cpus s c)) /\
  (st s t = Waking -> forall c', (c' < n)%nat -> ~ stale s c' t) /\
  st s t <> New /\ st s t <> Registered.
Proof.
  intros Hinv Hc Hon. pose proof (i_thread _ Hinv t) as Ht.
  pose proof (on_on_cpu s c t (i_cpu _ Hinv c Hc) Hon) as Hcpu. split_and!.
  - intros (c' & Hc' & Hin)%(to_run_node _ _ Ht). assert (c' = c) as ->; [|done].
    apply (i_one_cpu _ Hinv c' c t); [done|done|right; by left|by left].
  - intros Hs c' Hc' Hsl. pose proof (to_stale _ _ Ht c' Hc' Hsl Hs). congruence.
  - intros Hs. pose proof (to_outside _ _ Ht (or_introl Hs)). congruence.
  - intros Hs. pose proof (to_outside _ _ Ht (or_intror Hs)). congruence.
Qed.

Lemma off_context s t : inv s -> on_cpu (threads s t) = false ->
  match context (threads s t) with
  | None => st s t = New
  | Some (Resume r) => resume_ok s t r
  | Some Exited => st s t = Dead
  end.
Proof.
  intros Hinv Hoff. pose proof (to_context _ _ (i_thread _ Hinv t)) as Hctx.
  destruct (context (threads s t)) as [[r|]|]; [done|done|].
  destruct Hctx as [?|(c & Hc & <-)]; [done|].
  pose proof (i_cpu _ Hinv c Hc) as Hcpu. apply stack_on in Hcpu as Hon.
  apply (on_on_cpu s c) in Hon; [congruence|done].
Qed.

(** A thread in the ready queue runs nowhere, unless its processor is leaving it. *)
Lemma ready_off s c t : inv s -> (c < n)%nat -> t ∈ ready (cpus s c) ->
  cur s c <> t -> previous (cpus s c) = None -> on_cpu (threads s t) = false.
Proof.
  intros Hinv Hc Ht Hcur Hprev. destruct (on_cpu (threads s t)) eqn:Hon; [|done]. exfalso.
  apply (to_on_cpu _ _ (i_thread _ Hinv t)) in Hon as (c' & Hc' & Hon).
  assert (c' = c) as ->.
  { apply (i_one_cpu _ Hinv c' c t); [done|done|by left|right; by left]. }
  destruct Hon; congruence.
Qed.

(** ** A waiter is taken out of its queue *)

Section wake.
Variables (s s' : Kernel) (q : queue) (t : tid).
Hypothesis Hinv : inv s.
Hypothesis Hcpus : cpus s' = cpus s.
Hypothesis Hthreads : forall t', t' <> t -> threads s' t' = threads s t'.
Hypothesis Hon : on_cpu (threads s' t) = on_cpu (threads s t).
Hypothesis Hrun : run_node (threads s' t) = run_node (threads s t).
Hypothesis Hctx : context (threads s' t) = context (threads s t).
Hypothesis Hwaiter : waiter (threads s' t) = false.
Hypothesis Hq : t ∈ waiters s q.
Hypothesis Hq1 : waiters s' q = filter (.≠ t) (waiters s q).
Hypothesis Hq2 : forall q', q' <> q -> waiters s' q' = waiters s q'.
Hypothesis Hstate : st s t = Blocking /\ st s' t = Running \/ st s t = Blocked /\ st s' t = Waking.

Lemma wake_no_idle t' : no_idle s' t' <-> no_idle s t'.
Proof. unfold no_idle. by rewrite Hcpus. Qed.

Lemma wake_resume t' r : resume_ok s t' r -> resume_ok s' t' r.
Proof. apply resume_ok_same. intros c'. by rewrite Hcpus. Qed.

(** States that a thread in a wait queue does not have. *)
Lemma wake_state t' x : st s t' = x -> x <> Blocking -> x <> Blocked -> st s' t' = x /\ t' <> t.
Proof.
  intros Hx H1 H2. assert (t' <> t) as Hne.
  { intros ->. destruct Hstate as [[? _]|[? _]]; congruence. }
  by rewrite Hthreads.
Qed.

Lemma wake_waiters t' q' : t' <> t -> t' ∈ waiters s' q' <-> t' ∈ waiters s q'.
Proof.
  intros Hne. destruct (decide (q' = q)) as [->|]; [|by rewrite Hq2].
  rewrite Hq1, list_elem_of_filter. tauto.
Qed.

Lemma wake_chosen c t' : chosen s c t' -> chosen s' c t'.
Proof.
  intros (Hs & ? & ?). assert (t' <> t) as Hne.
  { destruct Hs as [Hs|[Hs _]]; by apply (wake_state _ _ Hs). }
  unfold chosen. by rewrite Hthreads, Hcpus.
Qed.

Lemma wake_leaving t' k : leaving s t' k -> leaving s' t' k.
Proof.
  unfold leaving. rewrite wake_no_idle. intros [Hk ?]. split; [|done]. destruct k as [r|].
  - destruct Hk as [? Hs]. split; [done|]. destruct (decide (t' = t)) as [->|]; [|by rewrite Hthreads].
    destruct Hstate as [[? ?]|[? ?]]; [|by right]. destruct Hs; congruence.
  - by apply wake_state.
Qed.

Lemma wake_preempted c t' r : preempted s c t' r -> preempted s' c t' r.
Proof.
  intros [Hs Hr%wake_resume]. split; [|done]. rewrite Hcpus, wake_no_idle.
  destruct Hs as [(Hs & ?)|(Hs & ?)]; [left|right]; (split; [by apply wake_state|done]).
Qed.

Lemma wake_left c t' k : left s c t' k -> left s' c t' k.
Proof.
  intros [Hl|(r & -> & Hp)]; [left; by apply wake_leaving|].
  right. exists r. split; [done|by apply wake_preempted].
Qed.

Lemma wake_frame t' r : frame s t' r -> frame s' t' r.
Proof. apply frame_same. intros c'. by rewrite Hcpus. Qed.

Lemma wake_pc c p : pc_ok s c p -> pc_ok s' c p.
Proof.
  assert (forall t', st s t' = Running -> st s' t' = Running) as Hr.
  { intros t' Ht. by apply wake_state. }
  induction p; simpl; rewrite ?Hcpus, ?wake_no_idle; intros; destruct_and?; split_and?;
    auto using wake_resume, wake_chosen, wake_leaving, wake_preempted, wake_left, wake_frame.
  - match goal with Hb : _ \/ _ |- _ => destruct Hb as [?|[? ?]]; [left; by apply Hr|] end.
    destruct (decide (cur s c = t)) as [Heq|Hne].
    + left. rewrite Heq. destruct Hstate as [[? ?]|[? ?]]; congruence.
    + right. rewrite Hthreads by done. split; [done|]. by apply wake_waiters.
  - match goal with Hs : st s ?t' = Running |- on_cpu (threads s' ?t') = _ =>
      destruct (wake_state _ _ Hs) as [_ ?]; [done|done|] end. by rewrite Hthreads.
Qed.

Lemma wake_cpu c : (c < n)%nat -> cpu_ok s' c.
Proof.
  intros Hc. destruct (i_cpu _ Hinv c Hc) as [Kpc Kon Kprev Ksw Knd Kr Ki Kst Kpe].
  assert (forall t', on_cpu (threads s' t') = on_cpu (threads s t')) as Hon'.
  { intros t'. destruct (decide (t' = t)) as [->|]; [done|by rewrite Hthreads]. }
  assert (forall t', context (threads s' t') = context (threads s t')) as Hctx'.
  { intros t'. destruct (decide (t' = t)) as [->|]; [done|by rewrite Hthreads]. }
  split; unfold stack; rewrite ?Hcpus, ?Hon', ?Hctx'; try done.
  - by apply wake_pc.
  - destruct (previous (cpus s c)) as [t'|]; [|done]. rewrite Hon'.
    destruct Kprev as (? & ? & (k & Hk) & ?). split_and!; [done|done| |done].
    exists k. by apply wake_left.
  - intros t' (Hs & ? & ?)%Kr. destruct (wake_state _ _ Hs) as [? ?]; [done|done|].
    rewrite wake_no_idle. rewrite Hthreads in * by done. done.
  - destruct Ki as [Hi|[Hi ?]]; [left|right; split; [|done]]; by apply wake_state.
  - destruct (pending_exit (cpus s c)) as [t'|]; [|done]. destruct Kpe as [Hs ?].
    split; [by apply wake_state|done].
Qed.

Lemma inv_wake :
  (st s t = Blocked -> on_cpu (threads s t) = true \/ exists c, (c < n)%nat /\ putter s c t) ->
  (forall c, (c < n)%nat -> st s t = Blocked -> stale s c t -> on_cpu (threads s t) = false) -> inv s'.
Proof.
  intros Hput Hstale. split.
  - apply wake_cpu.
  - intros t'. pose proof (i_thread _ Hinv t') as Ht.
    destruct (decide (t' = t)) as [->|Hne].
    + destruct Ht as [H1 H2 H3 H4 H5 H6 H7 H8 H9 H10 H11].
      split; unfold on, putter, stale, stack; rewrite ?Hcpus, ?Hon, ?Hrun, ?Hctx, ?Hwaiter; try done.
      * split; [done|]. destruct Hstate as [[_ ->]|[_ ->]]; by intros [|].
      * destruct Hstate as [[_ ->]|[_ ->]]; by intros [|].
      * by destruct Hstate as [[_ ->]|[_ ->]].
      * intros Hr. destruct Hstate as [[Hs _]|[_ Hs]]; [|congruence].
        destruct (H8 Hs) as (c & q' & Hc & <- & _). left. apply (i_cpu _ Hinv c Hc).
      * by destruct Hstate as [[_ ->]|[_ ->]].
      * intros Hs. destruct Hstate as [[_ ?]|[? _]]; [congruence|auto].
      * intros c Hc Hst Hs. destruct Hstate as [[_ ?]|[? _]]; [congruence|]. by eapply Hstale.
      * destruct (context (threads s t)) as [[r|]|]; [by apply wake_resume| |].
        -- destruct Hstate as [[? _]|[? _]]; congruence.
        -- destruct H11 as [?|?]; [|by right]. destruct Hstate as [[? _]|[? _]]; congruence.
    + destruct Ht as [H1 H2 H3 H4 H5 H6 H7 H8 H9 H10 H11].
      split; unfold on, putter, stale, stack; rewrite ?Hcpus, ?Hthreads by done; try done.
      * intros [q' Hq']%H2. exists q'. by apply wake_waiters.
      * destruct (context (threads s t')) as [[r|]|]; [by apply wake_resume|done|done].
  - intros c c' t'. unfold attached, on. rewrite Hcpus. apply Hinv.
  - intros t' q' Hq'. destruct (decide (t' = t)) as [->|].
    + destruct (decide (q' = q)) as [->|]; [rewrite Hq1, list_elem_of_filter in Hq'; by destruct Hq'|].
      rewrite Hq2 in Hq' by done. by destruct (i_one_queue _ Hinv t q' q).
    + rewrite Hthreads by done. apply wake_waiters in Hq'; [|done]. by apply (i_waiters _ Hinv t' q').
  - intros t' q1 q2 Ha Hb. destruct (decide (t' = t)) as [->|].
    + assert (forall q', t ∈ waiters s' q' -> t ∈ waiters s q') as Hsub.
      { intros q'. destruct (decide (q' = q)) as [->|]; [by rewrite Hq1, list_elem_of_filter; intros [? ?]|by rewrite Hq2]. }
      by apply (i_one_queue _ Hinv t q1 q2); apply Hsub.
    + by apply (i_one_queue _ Hinv t' q1 q2); apply wake_waiters.
  - intros q'. destruct (decide (q' = q)) as [->|]; [rewrite Hq1; apply list.NoDup_filter, Hinv|].
    rewrite Hq2 by done. apply Hinv.
Qed.
End wake.
End inv.
