(* ===== verification/ThreadsSteps.v ===== *)
(** * Every action of a processor keeps the invariant

    For each kind of action: it has a result, so that no assertion fails, and the
    invariant holds after it.  The one exception is a wake-up in the middle of the
    race described by [race]. *)

From stdpp Require Import base tactics list sets functions.
From S2P Require Import Prelude CMonad Threads ThreadsInv.
Local Open Scope Z_scope.

(** Run the code up to the state it ends in. *)
Ltac wp_go :=
  repeat match goal with
  | |- wp (bind (bind _ _) _) _ _ => apply wp_bind_assoc
  | |- wp (bind _ _) _ _ => apply wp_bind
  | |- wp (ret _) _ _ => apply wp_ret
  | |- wp (gets _) _ _ => apply wp_gets
  | |- wp (modify _) _ _ => apply wp_modify
  | |- wp (goto _ _) _ _ => apply wp_modify
  | |- wp (on_this _ _) _ _ => apply wp_modify
  | |- wp (on_thread _ _) _ _ => apply wp_modify
  | |- wp (unlock _) _ _ => apply wp_modify
  | |- wp (cpu _) _ _ => apply wp_gets
  | |- wp (thread _) _ _ => apply wp_gets
  end.

(** Read the fields of the state after updates. *)
Ltac look :=
  simpl;
  repeat (first [rewrite fn_lookup_insert | rewrite fn_lookup_insert_ne by congruence]; simpl).

(** The state reached is the effect of a change of one thread and the processor. *)
Ltac effect_of s c t0 :=
  match goal with
  | |- inv _ ?s' =>
    let s1 := fresh "s'" in let He := fresh "He" in
    eassert (effect s s' c t0 _ _) as He
      by (split; intros; look; reflexivity);
    revert He; generalize s'; intros s1 He
  end.

Ltac see :=
  match goal with
  | He : effect _ _ _ _ _ _ |- _ =>
    rewrite ?(e_cpu _ _ _ _ _ _ He), ?(e_waiters _ _ _ _ _ _ He); simpl;
    rewrite ?(e_thread _ _ _ _ _ _ He);
    repeat rewrite (e_threads _ _ _ _ _ _ He) by congruence; simpl
  end.

Ltac solve_only_pc := split; intros; look; auto.

Section steps.
Context `{Client} (n : nat).
Implicit Types (s : Kernel) (c : cid) (t : tid) (p r : pc) (k : kont).
Abbreviation st s t := (state (threads s t)).
Abbreviation cur s c := (current (cpus s c)).
Abbreviation Inv s := (inv n s).
Abbreviation done_ok := (fun (_ : unit) s' => Inv s').

(** A lock that is taken changes nothing. *)
Lemma wp_locked s c l m Q :
  Q tt s -> (owner s l = None -> wp m (set_owner l (Some c) s) Q) -> wp (locked c l m) s Q.
Proof.
  intros Hspin Hm. unfold locked. wp_go.
  destruct (owner s l); [by apply wp_ret|]. wp_go. by apply Hm.
Qed.

Lemma wp_transition s t x y (Q : bool -> Kernel -> Prop) :
  transition_to (st s t) x = Some y -> Q true (upd_thread t (set_state y) s) -> wp (transition t x) s Q.
Proof. intros Hx HQ. unfold transition. wp_go. rewrite Hx. by wp_go. Qed.

Lemma wp_must_become s t x y (Q : unit -> Kernel -> Prop) :
  transition_to (st s t) x = Some y -> Q tt (upd_thread t (set_state y) s) -> wp (must_become t x) s Q.
Proof.
  intros Hx HQ. unfold must_become. wp_go. eapply wp_transition; [done|]. by apply wp_defined_if.
Qed.

(** The state after a thread was put at the end of a ready queue. *)
Definition linked (c : cid) (t : tid) (s : Kernel) : Kernel :=
  upd_cpu c (fun x => set_ready (ready x ++ [t]) x) (upd_thread t (set_run_node true) s).

Lemma wp_link s c t (Q : unit -> Kernel -> Prop) :
  run_node (threads s t) = false -> Q tt (linked c t s) -> wp (link c t) s Q.
Proof. intros Hr HQ. unfold link. wp_go. apply wp_defined_if; [by rewrite Hr|]. by wp_go. Qed.

Lemma wp_enqueue s c t (Q : bool -> Kernel -> Prop) :
  transition_to (st s t) Ready = Some Ready -> run_node (threads s t) = false ->
  Q true (linked c t (upd_thread t (set_state Ready) s)) -> wp (enqueue c t) s Q.
Proof.
  intros Hx Hr HQ. unfold enqueue. wp_go. eapply wp_transition; [done|]. wp_go.
  apply wp_link; [by look|]. by wp_go.
Qed.

Lemma wp_try_enqueue_woken s c t (Q : bool -> Kernel -> Prop) :
  run_node (threads s t) = false ->
  (st s t = Waking -> Q true (linked c t (upd_thread t (set_state Ready) s))) ->
  (st s t <> Waking -> Q false s) -> wp (try_enqueue_woken c t) s Q.
Proof.
  intros Hr HQ HQ'. unfold try_enqueue_woken, try_waking_to_ready. wp_go.
  destruct (decide (st s t = Waking)) as [Hw|]; wp_go; [|auto].
  eapply wp_must_become; [by rewrite Hw|]. wp_go. apply wp_link; [by look|]. wp_go. auto.
Qed.

Definition unlinked (c : cid) (t : tid) (s : Kernel) : Kernel :=
  upd_cpu c (fun x => set_ready (filter (.≠ t) (ready x)) x) (upd_thread t (set_run_node false) s).

Lemma wp_next_or_idle s c (Q : tid -> Kernel -> Prop) :
  (forall t, t ∈ ready (cpus s c) -> run_node (threads s t) = true /\ cur s c <> t) ->
  (ready (cpus s c) = [] -> Q (idle (cpus s c)) s) ->
  (forall t ts, ready (cpus s c) = t :: ts -> Q t (unlinked c t s)) ->
  wp (next_or_idle c) s Q.
Proof.
  intros Hr HQ HQ'. unfold next_or_idle, get_next, dequeue. wp_go.
  destruct (ready (cpus s c)) as [|t ts] eqn:Hrd; wp_go; [auto|].
  destruct (Hr t) as [Hrn Hne]; [by left|].
  apply wp_defined_if; [by rewrite bool_decide_false|]. wp_go. apply wp_defined_if; [done|]. wp_go. eauto.
Qed.

Section calm_steps.
Variables (s : Kernel) (c : cid).
Hypothesis Hinv : Inv s.
Hypothesis Hc : (c < n)%nat.

Lemma at_ok : pc_ok n s c (at_pc (cpus s c)).
Proof. by apply Hinv. Qed.

(** The idle thread is nobody else's. *)
Lemma not_idle : cur s c <> idle (cpus s c) -> no_idle n s (cur s c).
Proof.
  intros Hne c' Hc' Hi. assert (c' = c) as ->; [|done].
  apply (i_one_cpu _ _ Hinv c' c (cur s c)); [done|done| |].
  - unfold attached. auto.
  - by left; left.
Qed.

Lemma no_idle_ne t : no_idle n s t -> t <> idle (cpus s c).
Proof. intros Ht ->. by apply (Ht c). Qed.

Lemma calm_goto s' p' : only_pc s s' c p' -> calm (at_pc (cpus s c)) = true -> calm p' = true ->
  next_of p' = next_of (at_pc (cpus s c)) -> pc_ok n s c p' -> Inv s'.
Proof.
  intros ? ? ? Hn ?. eapply (inv_calm n s s' c p'); try done; rewrite Hn; [|done].
  unfold attached. auto.
Qed.

(** The pc does not change. *)
Lemma calm_same s' : only_pc s s' c (at_pc (cpus s c)) -> calm (at_pc (cpus s c)) = true -> Inv s'.
Proof. intros. eapply calm_goto; [done..|]. apply at_ok. Qed.

Lemma wp_satisfied q s' (Q : bool -> Kernel -> Prop) :
  (forall b x, Q b (set_cond x s')) -> wp (satisfied q) s' Q.
Proof.
  intros HQ. assert (forall b, Q b s') as HQ'.
  { intros b. replace s' with (set_cond (cond s') s') by by destruct s'. apply HQ. }
  unfold satisfied. destruct q as [t|m]; wp_go; [apply HQ'|].
  destruct (is_satisfied m (cond s')) as [x|] eqn:Hx; [|apply wp_ret, HQ'].
  destruct (after_wait_ok m _ _ Hx) as [y ->]. wp_go. apply wp_of_option. wp_go. apply HQ.
Qed.

Lemma step_wait_lock q : at_pc (cpus s c) = WaitLock q -> wp (wait_lock c q) s done_ok.
Proof.
  intros Hp. pose proof at_ok as Hok. rewrite Hp in Hok. destruct Hok as [Hr Hi].
  apply wp_locked; [done|]. intros _. wp_go. apply wp_satisfied. intros [] x; wp_go.
  - eapply (calm_goto _ Run); rewrite ?Hp; [solve_only_pc|done..].
  - apply wp_defined_if; [|wp_go; eapply (calm_goto _ (WaitHold q)); rewrite ?Hp; [solve_only_pc|done..]].
    look. apply no_idle_ne in Hi. by rewrite bool_decide_false.
Qed.

Lemma step_wait_hold q : at_pc (cpus s c) = WaitHold q -> wp (wait_hold c q) s done_ok.
Proof.
  intros Hp. pose proof at_ok as Hok. rewrite Hp in Hok.
  apply wp_locked; [done|]. intros _. wp_go.
  eapply (calm_goto _ (WaitDrop q)); rewrite ?Hp; [solve_only_pc|done..].
Qed.

Lemma step_wait_drop q : at_pc (cpus s c) = WaitDrop q -> wp (wait_drop c q) s done_ok.
Proof.
  intros Hp. pose proof at_ok as Hok. rewrite Hp in Hok. unfold wait_drop. wp_go.
  eapply (calm_goto _ (WaitEnqueue q)); rewrite ?Hp; [solve_only_pc|done..].
Qed.

Lemma step_wake_lock q all r : at_pc (cpus s c) = WakeLock q all r -> wp (wake_lock c q all r) s done_ok.
Proof.
  intros Hp. pose proof at_ok as Hok. rewrite Hp in Hok.
  apply wp_locked; [done|]. intros _. wp_go.
  eapply (calm_goto _ (WakeNext q all r)); rewrite ?Hp; [solve_only_pc|done..].
Qed.

Lemma frame_calm t r : frame n s t r -> calm r = true.
Proof. by destruct r. Qed.

Lemma step_op_lock o r : at_pc (cpus s c) = OpLock o r -> wp (op_lock_run c o r) s done_ok.
Proof.
  intros Hp. pose proof at_ok as Hok. rewrite Hp in Hok. destruct Hok as [Hf Hok].
  pose proof (frame_calm _ _ Hf) as Hcalm.
  apply wp_locked; [done|]. intros _. wp_go. destruct (op_run o _) as [x w]. wp_go. cbv zeta.
  set (r' := if op_hold o then OpUnlock o r else r).
  assert (frame n s (cur s c) r' /\ pc_ok n s c r' /\ calm r' = true /\ next_of r' = next_of r)
    as (Hf' & Hok' & Hcalm' & Hn) by (unfold r'; by destruct (op_hold o)).
  destruct (op_hold o), w as [[q all]|]; wp_go.
  - eapply (calm_goto _ (WakeLock (Queue q) all r')); rewrite ?Hp; [solve_only_pc|done..].
  - eapply (calm_goto _ r'); rewrite ?Hp; [solve_only_pc|done..].
  - eapply (calm_goto _ (WakeLock (Queue q) all r')); rewrite ?Hp; [solve_only_pc|done..].
  - eapply (calm_goto _ r'); rewrite ?Hp; [solve_only_pc|done..].
Qed.

Lemma step_op_unlock o r : at_pc (cpus s c) = OpUnlock o r -> wp (op_unlock c o r) s done_ok.
Proof.
  intros Hp. pose proof at_ok as Hok. rewrite Hp in Hok. destruct Hok as [Hf Hok].
  unfold op_unlock. wp_go.
  eapply (calm_goto _ r); rewrite ?Hp; [solve_only_pc|done|by eapply frame_calm|done..].
Qed.

Lemma step_irq_return r : at_pc (cpus s c) = IrqReturn r -> wp (goto c r) s done_ok.
Proof.
  intros Hp. pose proof at_ok as Hok. rewrite Hp in Hok. destruct Hok as [Hf Hok]. wp_go.
  eapply (calm_goto _ r); rewrite ?Hp; [solve_only_pc|done| |done..]. by destruct r.
Qed.

Lemma step_irq o : interruptible (at_pc (cpus s c)) = true ->
  wp (goto c (OpLock o (IrqReturn (at_pc (cpus s c))))) s done_ok.
Proof.
  intros Hi. wp_go. eapply calm_goto; [solve_only_pc|by destruct (at_pc (cpus s c))|done|done|].
  split; [done|]. split; [done|]. apply at_ok.
Qed.

Lemma step_tick ms : interruptible (at_pc (cpus s c)) = true -> wp (tick c ms) s done_ok.
Proof.
  intros Hi. unfold tick. destruct (ms =? 0); wp_go; [done|].
  assert (calm (at_pc (cpus s c)) = true) by (by destruct (at_pc (cpus s c))).
  unfold when, request_reschedule. destruct (_ <=? _); wp_go; (eapply calm_same; [solve_only_pc|done]).
Qed.

Lemma preemptible_ok p : preemptible p = true -> pc_ok n s c p ->
  st s (cur s c) = Running /\ resume_ok n s (cur s c) p.
Proof.
  destruct p; try done; simpl; intros Hp Hok; try done;
    match goal with r : pc |- _ => by destruct r, Hok end.
Qed.

Lemma step_preempt : preemptible (at_pc (cpus s c)) = true ->
  wp (goto c (Sched (at_pc (cpus s c)))) s done_ok.
Proof.
  intros Hi. pose proof (preemptible_ok _ Hi at_ok) as Hok. wp_go.
  eapply calm_goto; [solve_only_pc|by destruct (at_pc (cpus s c))|done| |done].
  destruct (at_pc (cpus s c)); try done; simpl in *;
    match goal with r : pc |- _ => by destruct r end.
Qed.

(** ** Actions after which only the counter differs *)

Lemma resume_pc_ok r : st s (cur s c) = Running -> resume_ok n s (cur s c) r -> pc_ok n s c r.
Proof. intros ?. destruct r; try done; simpl; match goal with |- context [match ?r with _ => _ end] => by destruct r | _ => done end. Qed.

Lemma resume_next r t : resume_ok n s t r -> next_of r = None /\ calm r = true.
Proof. destruct r; try done; simpl; match goal with |- context [match ?r with _ => _ end] => by destruct r | _ => done end. Qed.

Lemma step_finish_exit r : at_pc (cpus s c) = FinishExit r -> wp (finish_exit c r) s done_ok.
Proof.
  intros Hp. pose proof at_ok as Hok. rewrite Hp in Hok. destruct Hok as [Hr Hres].
  destruct (resume_next _ _ Hres) as [Hn Hcalm].
  pose proof (i_cpu _ _ Hinv c Hc) as [_ _ Kprev _ _ _ _ _ Kpe]. rewrite Hp in Kprev, Kpe.
  assert (previous (cpus s c) = None) as Hprev.
  { destruct (previous (cpus s c)); [|done]. by destruct Kprev as (_ & _ & _ & [[]|[]]). }
  unfold finish_exit. wp_go.
  assert (forall s', only_pc s s' c r -> pending_exit (cpus s' c) = None -> Inv s') as Hend.
  { intros s' Hs Hpe. eapply inv_only_pc; try done; rewrite ?Hp; try done; auto.
    - by destruct r.
    - intros t _ Hput. unfold putter, stale in Hput. rewrite Hp in Hput.
      by destruct Hput as [[[]|(? & ? & ? & ?)]|(? & ? & ? & ?)].
    - intros t _ Hst. unfold stale in Hst. rewrite (op_pc _ _ _ _ Hs) in Hst.
      destruct Hst as [[r' ->]|(q & all & r' & ->)]; done.
    - by rewrite Hn.
    - by apply resume_pc_ok. }
  destruct (pending_exit (cpus s c)) as [t|]; wp_go.
  - apply wp_defined_if; [apply bool_decide_eq_true; look; apply Kpe|].
    wp_go. apply Hend; [solve_only_pc|by look].
  - apply Hend; [solve_only_pc|by look].
Qed.
End calm_steps.

(** ** The running thread goes back to the ready queue *)

Section one_thread.
Variables (s : Kernel) (c : cid).
Hypothesis Hinv : Inv s.
Hypothesis Hc : (c < n)%nat.

Lemma running_unlinked t : st s t <> Ready -> run_node (threads s t) = false.
Proof.
  intros Ht. destruct (run_node (threads s t)) eqn:Hr; [|done]. exfalso.
  destruct (to_run_node _ _ _ (i_thread _ _ Hinv t) Hr) as (c' & Hc' & Hin).
  by apply (co_ready _ _ _ (i_cpu _ _ Hinv c' Hc')) in Hin as [? _].
Qed.

Lemma not_waiting t : st s t <> Blocking -> st s t <> Blocked -> waiter (threads s t) = false.
Proof.
  intros H1 H2. destruct (waiter (threads s t)) eqn:Hw; [|done].
  by apply (to_waiter _ _ _ (i_thread _ _ Hinv t)) in Hw as [?|?].
Qed.

(** What the effect of a step on the running thread leaves to prove, when the
    processor neither hands over before nor after it. *)
Lemma effect_current s' th x :
  effect s s' c (cur s c) th x ->
  calm (at_pc (cpus s c)) = true -> calm (at_pc x) = true ->
  idle x = idle (cpus s c) -> current x = cur s c -> previous x = None -> pending_exit x = None ->
  (forall t, next_of (at_pc x) = Some t -> attached s c t) ->
  (forall t, st s t = Ready -> next_of (at_pc (cpus s c)) = Some t -> next_of (at_pc x) = Some t) ->
  (forall t, t <> cur s c -> t ∈ ready x <-> t ∈ ready (cpus s c)) -> NoDup (ready x) ->
  (cur s c ∈ ready x -> no_idle n s (cur s c) /\ state th = Ready) ->
  (run_node th = true <-> cur s c ∈ ready x) ->
  on_cpu th = true -> context th = context (threads s (cur s c)) ->
  waiter th = false -> waiter (threads s (cur s c)) = false ->
  match state th with Running | Dead | Idle => True | Ready => run_node th = true | _ => False end ->
  (cur s c = idle (cpus s c) -> state th = Idle \/ state th = Running) ->
  (st s (cur s c) <> Dead) -> pc_ok n s' c (at_pc x) -> Inv s'.
Proof.
  intros He Hp Hp' Hidle Hcur Hprev Hpend Hn1 Hn2 Hrd Hnd Hrc Hrn Hon Hctx Hw Hw0 Hst Hi Hdead Hok.
  pose proof (i_cpu _ _ Hinv c Hc) as Hcpu.
  destruct (calm_previous n s c Hcpu Hp) as (Hprev0 & Hpend0 & Hstk).
  assert (context th = None) as Hnone by (rewrite Hctx, <- Hstk; apply Hcpu).
  eapply effect_inv; try done.
  - by left; left; left.
  - intros t Hne. unfold attached, on. rewrite (e_cpu _ _ _ _ _ _ He), Hidle, Hcur, Hprev, Hrd by done.
    intros [[?|?]|[?|[Hnx|?]]]; [tauto|done|tauto|by apply Hn1|tauto].
  - by rewrite Hw0.
  - eapply effect_cpu; try done; rewrite ?Hcur, ?(e_thread _ _ _ _ _ _ He); try done;
      [by rewrite Hpend|by destruct (at_pc x)|..].
    + intros t Ht. destruct (decide (t = cur s c)) as [->|Hne].
      { rewrite (e_thread _ _ _ _ _ _ He). destruct (Hrc Ht). split_and!; [done|by apply Hrn|done]. }
      rewrite (e_threads _ _ _ _ _ _ He) by done. apply Hrd in Ht; [|done]. by apply Hcpu.
    + rewrite Hidle. destruct (decide (cur s c = idle (cpus s c))) as [Heq|Hne].
      { rewrite <- Heq, (e_thread _ _ _ _ _ _ He). destruct (Hi Heq); auto. }
      rewrite (e_threads _ _ _ _ _ _ He) by done.
      destruct (co_idle _ _ _ Hcpu) as [?|[? [?|[k Hk]]]]; [by left|done|by rewrite Hk in Hp].
  - eapply effect_thread_on; try done.
    + left. by rewrite (e_cpu _ _ _ _ _ _ He).
    + rewrite Hw. split; [done|]. by intros [Hs|Hs]; rewrite Hs in Hst.
    + by rewrite Hw.
    + apply Hrn.
    + by destruct (state th).
    + rewrite Hnone. unfold stack. rewrite (e_cpu _ _ _ _ _ _ He), Hcur. by destruct (at_pc x).
  - intros t Hne. apply calm_role; rewrite ?(e_cpu _ _ _ _ _ _ He); try done; [by apply Hrd|congruence|auto].
Qed.

Lemma step_schedule_put next r : at_pc (cpus s c) = SchedPut next r ->
  wp (schedule_put c next r) s done_ok.
Proof.
  intros Hp. pose proof (at_ok s c Hinv Hc) as Hok. rewrite Hp in Hok.
  destruct Hok as (Hr & Hres & Hch). pose proof (i_cpu _ _ Hinv c Hc) as Hcpu.
  assert (run_node (threads s (cur s c)) = false) as Hrn by (apply running_unlinked; congruence).
  assert (waiter (threads s (cur s c)) = false) as Hw by (apply not_waiting; congruence).
  pose proof (co_current _ _ _ Hcpu) as Hon.
  assert (cur s c ∉ ready (cpus s c)) as Hnin by (intros (? & ? & ?)%(co_ready _ _ _ Hcpu); congruence).
  destruct (calm_previous n s c Hcpu) as (Hprev & Hpend & Hstk); [by rewrite Hp|].
  assert (next <> cur s c) as Hnext by (destruct Hch as (_ & _ & ?); congruence).
  assert (attached s c next) as Hatt by (unfold attached; rewrite Hp; auto).
  unfold schedule_put. wp_go. destruct (decide (cur s c = idle (cpus s c))) as [Hid|Hid].
  - eapply wp_must_become; [by rewrite Hr|]. wp_go. effect_of s c (cur s c).
    eapply effect_current; try done; simpl; rewrite ?Hp; try done; try congruence.
    + apply Hcpu.
    + by rewrite Hrn.
    + by left.
    + see. split; [|by eapply effect_chosen]. split; [right; by see|by eapply effect_resume].
  - wp_go. apply wp_enqueue; [by rewrite Hr|done|]. apply wp_defined_if; [done|]. wp_go. effect_of s c (cur s c).
    pose proof (not_idle s c Hinv Hc Hid) as Hni.
    assert (cur s c ∈ ready (cpus s c) ++ [cur s c]) by (rewrite elem_of_app, list_elem_of_singleton; by right).
    eapply effect_current; try done; simpl; rewrite ?Hp; try done; try congruence.
    + intros t Hne. rewrite elem_of_app, list_elem_of_singleton. tauto.
    + apply NoDup_snoc; [apply Hcpu|done].
    + see. split; [|by eapply effect_chosen]. split; [left|by eapply effect_resume]. see.
      split_and!; [done|done|by eapply effect_not_idle].
Qed.

Lemma step_exit : at_pc (cpus s c) = Exit -> wp (exit_current c) s done_ok.
Proof.
  intros Hp. pose proof (at_ok s c Hinv Hc) as Hok. rewrite Hp in Hok. destruct Hok as [Hr Hi].
  pose proof (i_cpu _ _ Hinv c Hc) as Hcpu.
  assert (run_node (threads s (cur s c)) = false) as Hrn by (apply running_unlinked; congruence).
  assert (waiter (threads s (cur s c)) = false) as Hw by (apply not_waiting; congruence).
  assert (cur s c ∉ ready (cpus s c)) as Hnin by (intros (? & ? & ?)%(co_ready _ _ _ Hcpu); congruence).
  destruct (calm_previous n s c Hcpu) as (Hprev & Hpend & Hstk); [by rewrite Hp|].
  unfold exit_current. wp_go. apply wp_locked; [done|]. intros _. wp_go.
  eapply wp_must_become; [look; by rewrite Hr|]. wp_go. effect_of s c (cur s c).
  eapply effect_current; try done; simpl; rewrite ?Hp; try done; try congruence.
  - apply Hcpu.
  - by rewrite Hrn.
  - apply Hcpu.
  - intros Hid. by destruct (no_idle_ne s c Hc _ Hi).
  - see. split; [done|]. split; [by see|by eapply effect_not_idle].
Qed.

(** The head of the ready queue is taken out and chosen. *)
Lemma pop_inv s' t ts x :
  ready (cpus s c) = t :: ts -> cur s c <> t ->
  effect s s' c t (set_run_node false (threads s t)) x ->
  calm (at_pc (cpus s c)) = true -> calm (at_pc x) = true ->
  next_of (at_pc (cpus s c)) = None -> next_of (at_pc x) = Some t ->
  idle x = idle (cpus s c) -> current x = cur s c ->
  previous x = None -> pending_exit x = None -> ready x = filter (.≠ t) (ready (cpus s c)) ->
  (chosen s' c t -> pc_ok n s' c (at_pc x)) -> Inv s'.
Proof.
  intros Hrd Hcur He Hp Hp' Hn Hn' Hidle Hcx Hpx Hpe Hrx Hok.
  pose proof (i_cpu _ _ Hinv c Hc) as Hcpu.
  destruct (calm_previous n s c Hcpu Hp) as (Hprev0 & Hpend0 & Hstk).
  assert (t ∈ ready (cpus s c)) as Hin by (rewrite Hrd; by left).
  destruct (co_ready _ _ _ Hcpu t Hin) as (Hst & Hrn & Hni).
  pose proof (ready_off n s c t Hinv Hc Hin Hcur Hprev0) as Hoff.
  pose proof (off_context n s t Hinv Hoff) as Hctx.
  assert (waiter (threads s t) = false) as Hw by (apply not_waiting; congruence).
  eapply effect_inv; try done.
  - left. right. by left.
  - intros t' Hne. unfold attached, on. rewrite (e_cpu _ _ _ _ _ _ He), Hidle, Hcx, Hpx, Hrx, Hn'.
    rewrite list_elem_of_filter. intros [[?|?]|[?|[Hnx|?]]]; [tauto|done|tauto|congruence|tauto].
  - eapply effect_cpu; try done; rewrite ?Hcx, ?Hpe; try done.
    + by destruct (at_pc x).
    + apply Hok. unfold chosen. by rewrite (e_thread _ _ _ _ _ _ He); auto.
    + rewrite (e_threads _ _ _ _ _ _ He) by done. apply Hcpu.
    + rewrite (e_threads _ _ _ _ _ _ He), <- Hstk by done. apply Hcpu.
    + rewrite Hrx. apply list.NoDup_filter, Hcpu.
    + intros t'. rewrite Hrx, list_elem_of_filter. intros [Hne Ht'].
      rewrite (e_threads _ _ _ _ _ _ He) by done. by apply Hcpu.
    + rewrite Hidle, (e_threads _ _ _ _ _ _ He) by (by apply Hni).
      destruct (co_idle _ _ _ Hcpu) as [?|[? [?|[k Hk]]]]; [by left|by right|by rewrite Hk in Hp].
  - eapply effect_thread_off; try done; simpl.
    + rewrite Hw, Hst. split; [done|]. by intros [|].
    + by rewrite Hw.
    + rewrite Hst. by right.
  - intros t' Hne. apply calm_role; rewrite ?(e_cpu _ _ _ _ _ _ He); try done; try congruence.
    rewrite Hrx, list_elem_of_filter. auto.
Qed.

(** The idle thread can be chosen by its processor when another thread runs. *)
Lemma idle_chosen : cur s c <> idle (cpus s c) -> calm (at_pc (cpus s c)) = true ->
  chosen s c (idle (cpus s c)).
Proof.
  intros Hne Hp. pose proof (i_cpu _ _ Hinv c Hc) as Hcpu.
  destruct (calm_previous n s c Hcpu Hp) as (Hprev & _ & _).
  assert (st s (idle (cpus s c)) = Idle) as Hi.
  { destruct (co_idle _ _ _ Hcpu) as [?|[? [?|[k Hk]]]]; [done|done|by rewrite Hk in Hp]. }
  split_and!; [by right|apply running_unlinked; congruence|].
  destruct (on_cpu (threads s (idle (cpus s c)))) eqn:Hon; [|done]. exfalso.
  apply (to_on_cpu _ _ _ (i_thread _ _ Hinv _)) in Hon as (c' & Hc' & Hon).
  assert (c' = c) as ->.
  { apply (i_one_cpu _ _ Hinv c' c (idle (cpus s c))); [done|done|by left|unfold attached; auto]. }
  destruct Hon; congruence.
Qed.

Lemma idle_attached : attached s c (idle (cpus s c)).
Proof. unfold attached. auto. Qed.

Lemma step_schedule r : at_pc (cpus s c) = Sched r -> wp (schedule c r) s done_ok.
Proof.
  intros Hp. pose proof (at_ok s c Hinv Hc) as Hok. rewrite Hp in Hok. destruct Hok as [Hr Hres].
  pose proof (i_cpu _ _ Hinv c Hc) as Hcpu.
  destruct (resume_next s r _ Hres) as [Hn Hcalm].
  destruct (calm_previous n s c Hcpu) as (Hprev & Hpend & Hstk); [by rewrite Hp|].
  assert (forall t, t ∈ ready (cpus s c) -> run_node (threads s t) = true /\ cur s c <> t /\ no_idle n s t) as Hrdy.
  { intros t (? & ? & ?)%(co_ready _ _ _ Hcpu). split_and!; [done|congruence|done]. }
  unfold schedule. wp_go. look. apply wp_next_or_idle; look.
  - intros t Ht. by destruct (Hrdy t Ht) as (? & ? & ?).
  - intros Hrd. destruct (decide _) as [_|Hd]; wp_go.
    + eapply (calm_goto s c Hinv Hc _ r); rewrite ?Hp; [solve_only_pc|done..|]. by apply resume_pc_ok.
    + eapply (inv_calm n s _ c (SchedPut (idle (cpus s c)) r)); rewrite ?Hp; try done; [solve_only_pc|..].
      * intros t [= <-]. apply idle_attached.
      * split_and!; [done|done|]. apply idle_chosen; [tauto|by rewrite Hp].
  - intros t ts Hrd. destruct (Hrdy t) as (Hrn & Hne & Hni); [rewrite Hrd; by left|].
    rewrite decide_False by (intros [_ ->]; by apply (Hni c)). wp_go. effect_of s c t.
    eapply pop_inv; try done; simpl; rewrite ?Hp; try done.
    intros Hch. see. split_and!; [done|by eapply effect_resume|done].
Qed.

Lemma step_pick k : at_pc (cpus s c) = Pick k -> wp (pick c k) s done_ok.
Proof.
  intros Hp. pose proof (at_ok s c Hinv Hc) as Hok. rewrite Hp in Hok.
  pose proof (i_cpu _ _ Hinv c Hc) as Hcpu.
  destruct (calm_previous n s c Hcpu) as (Hprev & Hpend & Hstk); [by rewrite Hp|].
  assert (st s (cur s c) <> Ready) as Hnr.
  { destruct Hok as [Hk _]. destruct k; [destruct Hk as [_ [?|?]]|]; congruence. }
  assert (forall t, t ∈ ready (cpus s c) -> run_node (threads s t) = true /\ cur s c <> t) as Hrdy.
  { intros t (? & ? & ?)%(co_ready _ _ _ Hcpu). split_and!; [done|congruence]. }
  assert (forall s0, (s0 = s \/ s0 = upd_cpu c (set_resched false) s) ->
    wp (next ← next_or_idle c ; goto c (Start next k)) s0 done_ok) as Hend.
  { intros s0 Hs0. wp_go. apply wp_next_or_idle.
    - destruct Hs0 as [->| ->]; look; done.
    - intros Hrd. wp_go. eapply (inv_calm n s _ c (Start (idle (cpus s c)) k)); rewrite ?Hp; try done.
      + destruct Hs0 as [->| ->]; solve_only_pc.
      + intros t [= <-]. apply idle_attached.
      + split; [done|]. apply idle_chosen; [|by rewrite Hp]. intros Hid. by destruct (proj2 Hok c Hc).
    - intros t ts Hrd. wp_go. assert (ready (cpus s c) = t :: ts) as Hrd'.
      { destruct Hs0 as [->| ->]; revert Hrd; by look. }
      destruct (Hrdy t) as [? ?]; [rewrite Hrd'; by left|].
      destruct Hs0 as [->| ->]; effect_of s c t;
        (eapply pop_inv; try done; simpl; rewrite ?Hp; try done; intros Hch; see; split; [|done];
         by eapply effect_leaving). }
  unfold pick. apply wp_bind. destruct k as [r|]; [apply wp_ret|apply wp_modify]; apply Hend; auto.
Qed.

(** ** Handing over *)

Lemma chosen_facts t : chosen s c t ->
  st s t <> New /\ st s t <> Dead /\ waiter (threads s t) = false /\
  transition_to (st s t) Running = Some Running.
Proof.
  intros ([Ht|[Ht _]] & _ & _); rewrite Ht; split_and!; try done; apply not_waiting; congruence.
Qed.

Lemma start_inv s' t k x :
  effect s s' c t (set_state Running (threads s t)) x ->
  calm (at_pc (cpus s c)) = true -> next_of (at_pc (cpus s c)) = Some t -> at_pc x = Prepare t k ->
  chosen s c t -> left n s c (cur s c) k ->
  idle x = idle (cpus s c) -> current x = cur s c -> previous x = None -> ready x = ready (cpus s c) ->
  (pending_exit x = None \/ pending_exit x = Some (cur s c) /\ st s (cur s c) = Dead) -> Inv s'.
Proof.
  intros He Hp Hn Hp' Hch Hleft Hidle Hcx Hpx Hrx Hpe. pose proof (i_cpu _ _ Hinv c Hc) as Hcpu.
  destruct (calm_previous n s c Hcpu Hp) as (Hprev & Hpend & Hstk).
  destruct (chosen_facts t Hch) as (Hnew & Hdead & Hw & _). destruct Hch as (Hst & Hrn & Hoff).
  assert (cur s c <> t) as Hne by (pose proof (co_current _ _ _ Hcpu); congruence).
  pose proof (e_cpu _ _ _ _ _ _ He) as Hx. pose proof (e_threads _ _ _ _ _ _ He (cur s c) Hne) as Hcth.
  eapply effect_inv; try done.
  - left. unfold attached. auto.
  - intros t' Hne'. unfold attached, on. rewrite Hx, Hidle, Hcx, Hpx, Hrx, Hp'. simpl.
    intros [[?|?]|[?|[[= ->]|?]]]; [tauto|done|tauto|done|tauto].
  - split; rewrite ?Hx, ?Hp', ?Hcx, ?Hpx, ?Hcth, ?Hrx, ?Hidle; try apply Hcpu; try done.
    + simpl. rewrite Hx, Hcx, (e_thread _ _ _ _ _ _ He).
      split_and!; [eapply effect_left; rewrite ?Hrx; done|done|done].
    + intros t' Ht'. destruct (decide (t' = t)) as [->|Hne'].
      { apply Hcpu in Ht' as (? & ? & ?). congruence. }
      rewrite (e_threads _ _ _ _ _ _ He) by done. apply Hcpu in Ht' as (? & ? & ?).
      split_and!; [done|done|by eapply effect_not_idle].
    + destruct (decide (idle (cpus s c) = t)) as [->|Hni].
      { right. rewrite (e_thread _ _ _ _ _ _ He). eauto. }
      rewrite (e_threads _ _ _ _ _ _ He) by done.
      destruct (co_idle _ _ _ Hcpu) as [?|[? [?|[k' Hk]]]]; [by left|by right; auto|by rewrite Hk in Hp].
    + unfold stack. rewrite Hx, Hp', Hcx, Hcth, <- Hstk. apply Hcpu.
    + destruct Hpe as [->|[-> Hd]]; [done|]. by rewrite Hcth.
  - eapply effect_thread_off; try done; simpl.
    + rewrite Hw. split; [done|]. by intros [|].
    + by rewrite Hw.
    + congruence.
    + eauto.
    + pose proof (off_context n s t Hinv Hoff) as Hctx.
      by destruct (context (threads s t)) as [[]|].
  - intros t' Hne'. unfold role_kept, on, putter, stale, stack. rewrite Hx, Hp', Hcx, Hpx, Hrx, Hn, Hprev.
    split_and!; try done.
    + intros k' Hk. by rewrite Hk in Hp.
    + intros q _ _ Hk. by rewrite Hk in Hp.
    + intros _ [[[r Hk]|(? & ? & ? & Hk)]|(? & ? & ? & Hk)]; by rewrite Hk in Hp.
    + by intros _ [[r Hk]|(? & ? & ? & Hk)].
    + by destruct (at_pc (cpus s c)).
Qed.

Lemma step_schedule_start next r : at_pc (cpus s c) = SchedStart next r ->
  wp (schedule_start c next r) s done_ok.
Proof.
  intros Hp. pose proof (at_ok s c Hinv Hc) as Hok. rewrite Hp in Hok. destruct Hok as [Hpre Hch].
  destruct (calm_previous n s c (i_cpu _ _ Hinv c Hc)) as (Hprev & Hpend & _); [by rewrite Hp|].
  destruct (chosen_facts next Hch) as (_ & _ & _ & Htr).
  unfold schedule_start. wp_go. eapply wp_must_become; [done|]. wp_go. effect_of s c next.
  eapply start_inv; try done; simpl; rewrite ?Hp; try done; [|by left]. right. eauto.
Qed.

Lemma step_start_next next k : at_pc (cpus s c) = Start next k -> wp (start_next c next k) s done_ok.
Proof.
  intros Hp. pose proof (at_ok s c Hinv Hc) as Hok. rewrite Hp in Hok. destruct Hok as [Hl Hch].
  destruct (calm_previous n s c (i_cpu _ _ Hinv c Hc)) as (Hprev & Hpend & _); [by rewrite Hp|].
  destruct (chosen_facts next Hch) as (_ & _ & _ & Htr).
  unfold start_next. wp_go. eapply wp_must_become; [done|]. destruct k as [r|]; wp_go.
  - effect_of s c next. eapply start_inv; try done; simpl; rewrite ?Hp; try done; by left.
  - apply wp_defined_if; [look; by rewrite Hpend|]. wp_go. effect_of s c next.
    eapply start_inv; try done; simpl; rewrite ?Hp; try done; [by left|].
    right. split; [done|]. apply Hl.
Qed.

Lemma left_not_running t k : left n s c t k -> st s t <> Running.
Proof.
  intros [[Hk _]|(r & -> & [[(Hs & _ & _)|(Hs & _)] _])]; [|congruence..].
  destruct k; [destruct Hk as [_ [?|?]]|]; congruence.
Qed.

Lemma step_prepare next k : at_pc (cpus s c) = Prepare next k -> wp (prepare_switch c next k) s done_ok.
Proof.
  intros Hp. pose proof (at_ok s c Hinv Hc) as Hok. rewrite Hp in Hok. destruct Hok as (Hl & Hr & Hoff).
  pose proof (i_cpu _ _ Hinv c Hc) as Hcpu. pose proof (left_not_running _ _ Hl) as Hnr.
  assert (cur s c <> next) as Hne by congruence.
  assert (previous (cpus s c) = None) as Hprev.
  { pose proof (co_previous _ _ _ Hcpu) as Hprev. destruct (previous (cpus s c)); [|done].
    rewrite Hp in Hprev. by destruct Hprev as (_ & _ & _ & [[]|[]]). }
  assert (run_node (threads s next) = false) as Hrn by (apply running_unlinked; congruence).
  assert (waiter (threads s next) = false) as Hw by (apply not_waiting; congruence).
  unfold prepare_switch. wp_go. apply wp_defined_if; [by rewrite bool_decide_false|]. wp_go.
  apply wp_defined_if; [by rewrite bool_decide_true|]. wp_go. effect_of s c next.
  pose proof (e_cpu _ _ _ _ _ _ He) as Hx. pose proof (e_threads _ _ _ _ _ _ He (cur s c) Hne) as Hcth.
  assert (left n s' c (cur s c) k) as Hl' by (by eapply effect_left).
  eapply effect_inv; try done.
  - left. unfold attached. rewrite Hp. auto.
  - intros t Hnt. unfold attached, on. rewrite Hx, Hp. simpl.
    intros [[?|[= ->]]|[?|[?|?]]]; [done|tauto|tauto|done|tauto].
  - split; rewrite ?Hx; simpl; rewrite ?(e_thread _ _ _ _ _ _ He); try apply Hcpu; try done.
    + rewrite Hx. simpl. by rewrite (e_thread _ _ _ _ _ _ He).
    + rewrite Hcth. split_and!; [done|apply Hcpu|eauto|eauto].
    + intros t (? & ? & ?)%(co_ready _ _ _ Hcpu).
      assert (t <> next) by congruence. rewrite (e_threads _ _ _ _ _ _ He) by done.
      split_and!; [done|done|by eapply effect_not_idle].
    + destruct (decide (idle (cpus s c) = next)) as [->|Hni].
      { right. rewrite (e_thread _ _ _ _ _ _ He). auto. }
      rewrite (e_threads _ _ _ _ _ _ He) by done.
      destruct (co_idle _ _ _ Hcpu) as [?|[? [?|[k' Hk]]]]; [by left| |]; exfalso; congruence.
    + unfold stack. rewrite Hx. simpl. rewrite Hcth.
      pose proof (co_stack _ _ _ Hcpu) as Hstk. unfold stack in Hstk. by rewrite Hp in Hstk.
    + pose proof (co_pending _ _ _ Hcpu) as Hpe. destruct (pending_exit (cpus s c)) as [t|]; [|done].
      destruct Hpe as [Hd _]. assert (t <> next) by congruence. by rewrite (e_threads _ _ _ _ _ _ He).
  - eapply effect_thread_on; try done; simpl.
    + left. by see.
    + rewrite Hw, Hr. split; [done|]. by intros [|].
    + by rewrite Hw.
    + congruence.
    + by rewrite Hr.
    + pose proof (off_context n s next Hinv Hoff) as Hctx. rewrite Hr in *.
      by destruct (context (threads s next)) as [[]|].
  - intros t Hnt. unfold role_kept, on, putter, stale, stack. rewrite Hx, Hp. simpl. rewrite Hprev.
    split_and!; try done.
    + intros [?|?]; [right; congruence|done].
    + congruence.
    + congruence.
    + by intros _ [[[]|(? & ? & ? & ?)]|(? & ? & ? & ?)].
    + by intros _ [[]|(? & ? & ? & ?)].
Qed.

(** Registers are saved and restored: nothing but contexts and the counter change. *)
Lemma switch_inv s' old k r :
  at_pc (cpus s c) = Switch old k -> context (threads s (cur s c)) = Some (Resume r) ->
  threads s' (cur s c) = set_context None (threads s (cur s c)) ->
  threads s' old = set_context (Some k) (threads s old) ->
  (forall t, t <> cur s c -> t <> old -> threads s' t = threads s t) ->
  cpus s' c = set_pc (Finish r) (cpus s c) ->
  (forall c', c' <> c -> cpus s' c' = cpus s c') -> waiters s' = waiters s -> Inv s'.
Proof.
  intros Hp Hctx Hcur Hold Hoth Hx Hcs Hw. pose proof (i_cpu _ _ Hinv c Hc) as Hcpu.
  pose proof (at_ok s c Hinv Hc) as Hok. rewrite Hp in Hok. destruct Hok as (Hr & Hl).
  pose proof (co_switch _ _ _ Hcpu) as Hprev. rewrite Hp in Hprev.
  pose proof (co_previous _ _ _ Hcpu) as Hpo. rewrite Hprev in Hpo. destruct Hpo as (Hne & Hono & _ & _).
  assert (forall t, st s' t = st s t /\ on_cpu (threads s' t) = on_cpu (threads s t) /\
    run_node (threads s' t) = run_node (threads s t) /\ waiter (threads s' t) = waiter (threads s t)) as Hsame.
  { intros t. destruct (decide (t = cur s c)) as [->|]; [by rewrite Hcur|].
    destruct (decide (t = old)) as [->|]; [by rewrite Hold|]. by rewrite Hoth. }
  assert (forall c', idle (cpus s' c') = idle (cpus s c')) as Hidle.
  { intros c'. destruct (decide (c' = c)) as [->|]; [by rewrite Hx|by rewrite Hcs]. }
  pose proof (to_context _ _ _ (i_thread _ _ Hinv (cur s c))) as Hres. rewrite Hctx in Hres.
  pose proof (no_idle_same n s s' Hidle) as Hni.
  assert (left n s' c old k) as Hl'.
  { destruct Hl as [Hl|(r' & -> & Hpre)]; [left|right; exists r'; split; [done|]].
    - unfold leaving. by rewrite (proj1 (Hsame old)), <- Hni.
    - unfold preempted. rewrite (proj1 (Hsame old)), Hx, <- Hni. destruct Hpre as [? ?].
      split; [done|by eapply resume_ok_same]. }
  assert (forall t c', (c' < n)%nat -> c' <> c -> on s c t -> ~ attached s c' t) as Hown.
  { intros t c' Hc' Hne' Hon Ha. apply Hne'. apply (i_one_cpu _ _ Hinv c' c t); [done|done|done|by left]. }
  assert (forall t, on s' c t <-> on s c t) as Hon by (intros t; unfold on; by rewrite Hx).
  assert (forall t c', stale s' c' t -> stale s c' t) as Hsl.
  { intros t c'. unfold stale. destruct (decide (c' = c)) as [->|]; [|by rewrite Hcs].
    rewrite Hx. by intros [[]|(? & ? & ? & ?)]. }
  assert (forall t, t = cur s c \/ t = old -> on s c t) as HT by (intros t [->| ->]; [by left|by right]).
  eapply (inv_update n s s' c (fun t => t = cur s c \/ t = old)); try done.
  - intros t Ht. apply Hoth; tauto.
  - intros t _. by rewrite (proj1 (Hsame t)).
  - intros t c' Ht ? ?. apply Hown; auto.
  - intros t. unfold attached. rewrite Hon, Hx. simpl. intros [?|[?|[?|?]]]; try done; tauto.
  - intros t q _. by rewrite Hw.
  - intros t q Ht. destruct (Hsame t) as (_ & _ & _ & ->). rewrite Hw. apply Hinv.
  - intros t q q' _. rewrite Hw. apply Hinv.
  - rewrite Hw. apply Hinv.
  - split; rewrite ?Hx; simpl; rewrite ?(proj1 (Hsame _)), ?(proj1 (proj2 (Hsame _))); try apply Hcpu; try done.
    + rewrite Hx. simpl. split; [done|by eapply resume_ok_same].
    + rewrite Hprev, (proj1 (proj2 (Hsame _))). split_and!; eauto.
    + intros t. destruct (Hsame t) as (-> & _ & -> & _). rewrite <- Hni. apply Hcpu.
    + destruct (co_idle _ _ _ Hcpu) as [?|[? [?|[k' Hk]]]]; [by left|by right; auto|by rewrite Hp in Hk].
    + unfold stack. rewrite Hx. simpl. by rewrite Hcur.
    + pose proof (co_pending _ _ _ Hcpu) as Hpe. destruct (pending_exit (cpus s c)) as [t|]; [|done].
      rewrite (proj1 (Hsame t)). by destruct Hpe.
  - intros t Ht. pose proof (HT t Ht) as Hont. destruct (on_facts n s c t Hinv Hc Hont) as (Hf1 & Hf2 & Hf3 & Hf4).
    pose proof (i_thread _ _ Hinv t) as Hth. destruct (Hsame t) as (Es & Eo & Er & Ew).
    apply (thread_ok_on n s' c); rewrite ?Es, ?Eo, ?Er, ?Ew, ?Hw, ?Hx; simpl; try done.
    + by eapply on_on_cpu.
    + by apply Hon.
    + apply Hth.
    + apply Hth.
    + destruct (st s t) eqn:Hs; try done.
      * destruct (to_ready _ _ _ Hth Hs) as [?|(c' & Hc' & Hnx)]; [done|]. exfalso.
        destruct (decide (c' = c)) as [->|Hne']; [by rewrite Hp in Hnx|].
        eapply Hown; [exact Hc'|done|done|]. unfold attached. auto.
      * destruct (to_blocking _ _ _ Hth Hs) as (c' & q & Hc' & Hcc & Hq). exfalso.
        destruct (decide (c' = c)) as [->|Hne']; [by rewrite Hp in Hq|].
        eapply Hown; [exact Hc'|done|done|]. by left; left.
      * intros c' Hc' Hst. by eapply Hf2, Hsl.
    + destruct Ht as [->| ->].
      * rewrite Hcur. unfold stack. by rewrite Hx.
      * rewrite Hold. simpl. destruct k as [r'|].
        -- eapply resume_ok_same; [done|]. destruct Hl as [Hl|(r'' & [= <-] & Hpre)]; [|apply Hpre].
           destruct Hl as [[[q ->] _] Hl]. done.
        -- destruct Hl as [[Hl _]|(r'' & [=] & _)]. done.
  - intros t Ht. unfold role_kept, putter, stale, stack. rewrite Hon, Hx, Hp. simpl.
    split_and!; try done.
    + by intros _ [[[]|(? & ? & ? & ?)]|(? & ? & ? & ?)].
    + by intros _ [[]|(? & ? & ? & ?)].
    + intros <-. tauto.
  - intros t. apply _.
Qed.

Lemma step_switch old k : at_pc (cpus s c) = Switch old k -> wp (switch_context c old k) s done_ok.
Proof.
  intros Hp. pose proof (i_cpu _ _ Hinv c Hc) as Hcpu.
  pose proof (at_ok s c Hinv Hc) as Hok. rewrite Hp in Hok. destruct Hok as (Hr & Hl).
  pose proof (co_switch _ _ _ Hcpu) as Hprev. rewrite Hp in Hprev.
  pose proof (co_previous _ _ _ Hcpu) as Hpo. rewrite Hprev in Hpo. destruct Hpo as (Hne & _).
  pose proof (to_context _ _ _ (i_thread _ _ Hinv (cur s c))) as Hctx.
  unfold switch_context. wp_go.
  destruct (context (threads s (cur s c))) as [[r|]|] eqn:Hk; [|congruence|].
  - wp_go. eapply (switch_inv _ old k r); look; try done.
    + intros. by look.
    + intros. by look.
  - exfalso. destruct Hctx as [?|(c' & Hc' & Hstk)]; [congruence|].
    pose proof (stack_on n s c' (i_cpu _ _ Hinv c' Hc')) as Hon. rewrite Hstk in Hon.
    assert (c' = c) as ->.
    { apply (i_one_cpu _ _ Hinv c' c (cur s c)); [done|done|by left|by left; left]. }
    unfold stack in Hstk. by rewrite Hp in Hstk.
Qed.

(** A thread that a processor leaves and does not run any more. *)
Lemma left_facts t r : at_pc (cpus s c) = Finish r -> previous (cpus s c) = Some t ->
  st s t <> Running /\ st s t <> Blocking /\ (st s t = Ready -> run_node (threads s t) = true) /\
  match context (threads s t) with
  | None => st s t = New
  | Some (Resume r) => resume_ok n s t r
  | Some Exited => st s t = Dead
  end.
Proof.
  intros Hp Hprev. pose proof (i_cpu _ _ Hinv c Hc) as Hcpu. pose proof (i_thread _ _ Hinv t) as Hth.
  pose proof (co_previous _ _ _ Hcpu) as Hpo. rewrite Hprev in Hpo. destruct Hpo as (Hne & _ & [k Hl] & _).
  assert (forall c', (c' < n)%nat -> attached s c' t -> c' = c) as Hown.
  { intros c' Hc' Ha. apply (i_one_cpu _ _ Hinv c' c t); [done|done|done|]. left. by right. }
  split_and!.
  - by eapply left_not_running.
  - intros Hs. destruct (to_blocking _ _ _ Hth Hs) as (c' & q & Hc' & Hcc & Hq).
    rewrite (Hown c') in Hq by (done || by left; left). congruence.
  - intros Hs. destruct (to_ready _ _ _ Hth Hs) as [?|(c' & Hc' & Hnx)]; [done|].
    rewrite (Hown c') in Hnx by (done || unfold attached; auto). by rewrite Hp in Hnx.
  - pose proof (to_context _ _ _ Hth) as Hctx. destruct (context (threads s t)) as [[]|]; [done|done|].
    destruct Hctx as [?|(c' & Hc' & Hstk)]; [done|]. exfalso.
    pose proof (stack_on n s c' (i_cpu _ _ Hinv c' Hc')) as Hon. rewrite Hstk in Hon.
    rewrite (Hown c') in Hstk by (done || by left). unfold stack in Hstk. rewrite Hp in Hstk. congruence.
Qed.

Lemma step_finish r : at_pc (cpus s c) = Finish r -> wp (finish_switch c r) s done_ok.
Proof.
  intros Hp. pose proof (i_cpu _ _ Hinv c Hc) as Hcpu.
  pose proof (at_ok s c Hinv Hc) as Hok. rewrite Hp in Hok. destruct Hok as (Hr & Hres).
  pose proof (co_previous _ _ _ Hcpu) as Hpo.
  destruct (previous (cpus s c)) as [t|] eqn:Hprev; [|by rewrite Hp in Hpo].
  destruct Hpo as (Hne & Hon & _ & _). destruct (left_facts t r Hp Hprev) as (Hf1 & Hf2 & Hf3 & Hf4).
  assert (on s c t) as Hont by (by right). destruct (on_facts n s c t Hinv Hc Hont) as (Hg1 & _ & _ & _).
  unfold finish_switch. wp_go. look. rewrite Hprev. wp_go.
  match goal with |- inv _ ?s' => eassert (effect s s' c t _ _) as He; [|revert He; generalize s'] end.
  { split; intros; look; try reflexivity. destruct (decide (t0 = cur s c)) as [->|]; [|by look].
    look. pose proof (co_current _ _ _ Hcpu) as Hcu. by destruct (threads s (cur s c)); simpl in *; subst. }
  intros s' He. pose proof (e_cpu _ _ _ _ _ _ He) as Hx. simpl in Hx.
  assert (forall t', st s' t' = st s t' /\ run_node (threads s' t') = run_node (threads s t')) as Hsame.
  { intros t'. destruct (decide (t' = t)) as [->|]; see; by look. }
  eapply effect_inv; try done; look.
  - left. by left.
  - intros t' Hnt. unfold attached, on. rewrite Hx. simpl. intros [[?|?]|[?|[?|?]]]; try done; tauto.
  - split; rewrite ?Hx; simpl; rewrite ?(proj1 (Hsame _)), ?(e_threads _ _ _ _ _ _ He) by done;
      try apply Hcpu; try done.
    + rewrite Hx. simpl. split_and!; [done|by eapply effect_resume|done].
    + intros t'. destruct (Hsame t') as [-> ->]. intros (? & ? & ?)%(co_ready _ _ _ Hcpu).
      split_and!; [done|done|by eapply effect_not_idle].
    + destruct (co_idle _ _ _ Hcpu) as [?|[? [?|[k' Hk]]]]; [by left|by right; auto|by rewrite Hp in Hk].
    + unfold stack. rewrite Hx. simpl. rewrite (e_threads _ _ _ _ _ _ He) by done.
      pose proof (co_stack _ _ _ Hcpu) as Hstk. unfold stack in Hstk. by rewrite Hp in Hstk.
    + pose proof (co_pending _ _ _ Hcpu) as Hpe. destruct (pending_exit (cpus s c)) as [t'|]; [|done].
      rewrite (proj1 (Hsame t')). by destruct Hpe.
  - pose proof (i_thread _ _ Hinv t) as Hth.
    eapply effect_thread_off; try done; look; rewrite ?(e_waiters _ _ _ _ _ _ He); try apply Hth; try done.
    destruct (st s t) eqn:Hs; try done; [left; auto|]. exists c. split; [done|]. left. left. exists r. by rewrite Hx.
  - intros t' Hnt. unfold role_kept, on, putter, stale, stack. rewrite Hx, Hp, Hprev. simpl.
    split_and!; try done.
    + intros [?|[= ?]]; [by left|congruence].
    + by intros _ [[[]|(? & ? & ? & ?)]|(? & ? & ? & ?)].
    + intros _ [[? [= ?]]|(? & ? & ? & ?)]; [congruence|done].
Qed.

(** ** Waking *)

(** A thread that is [Waking] and on no processor belongs to nobody. *)
Lemma waking_detached t c' : st s t = Waking -> on_cpu (threads s t) = false ->
  (c' < n)%nat -> ~ attached s c' t.
Proof.
  intros Hs Hoff Hc' Ha. pose proof (i_cpu _ _ Hinv c' Hc') as Hcpu.
  destruct Ha as [Ha|[Ha|[Ha|<-]]].
  - apply (on_on_cpu n s c') in Ha; congruence.
  - apply Hcpu in Ha as [? _]. congruence.
  - pose proof (at_ok s c' Hinv Hc') as Hok. clear Hcpu. revert Ha Hok.
    induction (at_pc (cpus s c')); try done; simpl; intros Ha Hok;
      try (injection Ha as ->); destruct_and?; try (by auto);
      try (match goal with Hch : chosen _ _ _ |- _ => destruct Hch as ([?|[? ?]] & _) end); congruence.
  - destruct (co_idle _ _ _ Hcpu) as [?|[? _]]; congruence.
Qed.

Lemma woken_inv s' t x :
  stale s c t -> st s t = Waking ->
  effect s s' c t (set_run_node true (set_state Ready (threads s t))) x ->
  next_of (at_pc x) = next_of (at_pc (cpus s c)) ->
  calm (at_pc x) = true \/ (exists r, at_pc x = FinishExit r) ->
  idle x = idle (cpus s c) -> current x = cur s c -> previous (cpus s c) = None -> previous x = None ->
  ready x = ready (cpus s c) ++ [t] ->
  (pending_exit x = None \/
     (pending_exit x = pending_exit (cpus s c) /\ exists r, at_pc x = FinishExit r)) ->
  stack s c = cur s c -> st s (cur s c) <> Waking -> pc_ok n s' c (at_pc x) -> Inv s'.
Proof.
  intros Hstale Hs He Hn Hcalm Hidle Hcx Hp0 Hpx Hrx Hpe Hstk Hcw Hok. pose proof (i_cpu _ _ Hinv c Hc) as Hcpu.
  pose proof (to_stale _ _ _ (i_thread _ _ Hinv t) c Hc Hstale Hs) as Hoff.
  pose proof (e_cpu _ _ _ _ _ _ He) as Hx. assert (cur s c <> t) as Hne by congruence.
  assert (t ∉ ready (cpus s c)) as Hnin by (intros [? _]%(co_ready _ _ _ Hcpu); congruence).
  assert (forall c', (c' < n)%nat -> idle (cpus s c') <> t) as Hni.
  { intros c' Hc' <-. destruct (co_idle _ _ _ (i_cpu _ _ Hinv c' Hc')) as [?|[? _]]; congruence. }
  assert (waiter (threads s t) = false) as Hw by (apply not_waiting; congruence).
  eapply effect_inv; try done.
  - right. intros c'. by apply waking_detached.
  - by rewrite Hs.
  - intros t' Hne'. unfold attached, on. rewrite Hx, Hidle, Hcx, Hpx, Hrx, Hn, elem_of_app, list_elem_of_singleton.
    intros [[?|?]|[[?|?]|[?|?]]]; try done; tauto.
  - eapply effect_cpu; try done; rewrite ?Hcx, ?(e_threads _ _ _ _ _ _ He (cur s c) Hne); try apply Hcpu.
    + destruct Hpe as [->|[-> Hr]]; [done|]. pose proof (co_pending _ _ _ Hcpu) as Hpend.
      destruct (pending_exit (cpus s c)) as [t'|]; [|done]. destruct Hpend as [Hd _].
      rewrite (e_threads _ _ _ _ _ _ He) by congruence. auto.
    + destruct Hcalm as [Hcalm|[r ->]]; [by destruct (at_pc x)|done].
    + rewrite <- Hstk. apply Hcpu.
    + rewrite Hrx. apply NoDup_snoc; [apply Hcpu|done].
    + rewrite Hrx. intros t' [Ht'|Ht'%list_elem_of_singleton]%elem_of_app; [|subst; by rewrite (e_thread _ _ _ _ _ _ He)].
      rewrite (e_threads _ _ _ _ _ _ He) by (by intros ->). by apply Hcpu.
    + rewrite Hidle, (e_threads _ _ _ _ _ _ He) by (by apply Hni).
      destruct (co_idle _ _ _ Hcpu) as [?|[? [?|[k Hk]]]]; [by left|by right|].
      destruct Hstale as [[r Hr]|(? & ? & ? & Hr)]; congruence.
  - eapply effect_thread_off; try done; simpl.
    + rewrite Hw. split; [done|]. by intros [|].
    + by rewrite Hw.
    + intros _. rewrite Hrx, elem_of_app, list_elem_of_singleton. by right.
    + by left.
    + pose proof (off_context n s t Hinv Hoff) as Hctx. rewrite Hs in Hctx.
      by destruct (context (threads s t)) as [[]|].
  - intros t' Hne'. unfold role_kept, on, putter, stale. rewrite Hstk. unfold stack.
    rewrite Hx, Hcx, Hpx, Hrx, Hn, Hp0, elem_of_app.
    split_and!; auto.
    + intros k Hk. destruct Hstale as [[r Hr]|(? & ? & ? & Hr)]; congruence.
    + intros q _ _ Hk. destruct Hstale as [[r Hr]|(? & ? & ? & Hr)]; congruence.
    + intros _ [[[r Hk]|(? & ? & ? & Hk)]|(? & ? & ? & Hk)];
        destruct Hstale as [[r' Hr]|(? & ? & ? & Hr)]; rewrite Hr in Hk; by simplify_eq.
    + intros _ [[r Hk]|(? & ? & ? & Hk)]; destruct Hcalm as [Hcalm|[r' Hr']]; rewrite ?Hk in *; done.
    + by destruct (at_pc x); destruct Hcalm as [?|[? ?]].
Qed.

Lemma not_linked t : stale s c t -> run_node (threads s t) = false \/ st s t <> Waking.
Proof.
  intros _. destruct (decide (st s t = Waking)); [|by right].
  left. apply running_unlinked. congruence.
Qed.

Lemma stale_previous t : stale s c t -> previous (cpus s c) = None /\ stack s c = cur s c.
Proof.
  intros Hst. pose proof (co_previous _ _ _ (i_cpu _ _ Hinv c Hc)) as Hprev. unfold stack.
  destruct Hst as [[r Hr]|(? & ? & ? & Hr)]; rewrite Hr in *; destruct (previous (cpus s c)); try done;
    by destruct Hprev as (_ & _ & _ & [[]|[]]).
Qed.

Lemma wp_woken t (Q : bool -> Kernel -> Prop) : stale s c t ->
  (st s t = Waking -> Q true (linked c t (upd_thread t (set_state Ready) s))) ->
  (st s t <> Waking -> Q false s) -> wp (try_enqueue_woken c t) s Q.
Proof.
  intros Hst HQ HQ'. destruct (not_linked t Hst) as [Hr|Hw]; [by apply wp_try_enqueue_woken|].
  unfold try_enqueue_woken, try_waking_to_ready. wp_go. rewrite decide_False by done. wp_go. auto.
Qed.

Lemma step_finish_previous t r : at_pc (cpus s c) = FinishPrev t r ->
  wp (finish_previous c t r) s done_ok.
Proof.
  intros Hp. pose proof (at_ok s c Hinv Hc) as Hok. rewrite Hp in Hok. destruct Hok as (Hr & Hres & Hne).
  assert (stale s c t) as Hst by (left; eauto). destruct (stale_previous t Hst) as [Hprev Hstk].
  unfold finish_previous. wp_go. apply wp_woken; [done|..]; intros Hw; unfold when, request_reschedule; wp_go.
  - effect_of s c t. eapply woken_inv; try done; simpl; rewrite ?Hp; eauto; [congruence|].
    see. split; [done|by eapply effect_resume].
  - eapply (inv_only_pc n s _ c (FinishExit r)); rewrite ?Hp; try done; [solve_only_pc|..]; eauto.
    + intros t' Hw' Hput. unfold putter, stale in Hput. rewrite Hp in Hput.
      destruct Hput as [[[? ?]|(? & ? & ? & ?)]|(? & ? & ? & ?)]; simplify_eq.
    + intros t' _. unfold stale. look. by intros [[]|(? & ? & ? & ?)].
Qed.

(** After a wake-up: the next thread of the queue, or the end. *)
Definition after_wake q all r (s1 : Kernel) : Kernel :=
  if all : bool then upd_cpu c (set_pc (WakeNext q all r)) s1
  else upd_cpu c (set_pc r) (set_owner (Waiters q) None s1).

Lemma wp_wake_more s1 q all r (Q : unit -> Kernel -> Prop) :
  Q tt (after_wake q all r s1) -> wp (wake_more c q all r) s1 Q.
Proof. intros HQ. unfold wake_more, wake_done, after_wake in *. destruct all; by wp_go. Qed.

Definition wake_pc q all r : pc := if all : bool then WakeNext q all r else r.

Lemma wake_pc_ok s1 q all r : frame n s1 (cur s1 c) r -> pc_ok n s1 c r ->
  calm (wake_pc q all r) = true /\ next_of (wake_pc q all r) = next_of r /\
  pc_ok n s1 c (wake_pc q all r).
Proof. intros Hf Hok. destruct all; [done|]. split_and!; [by destruct r|done|done]. Qed.

Lemma frame_not_waking r : frame n s (cur s c) r -> pc_ok n s c r ->
  st s (cur s c) <> Waking /\ st s (cur s c) <> Blocked /\ st s (cur s c) <> Blocking.
Proof.
  intros Hf Hok. assert (frame n s (cur s c) r \/ interruptible r = true) as Hfi by by left.
  clear Hf. revert Hok Hfi.
  induction r; simpl; intros Hok Hfi; try (by destruct Hfi); destruct_and?;
    try (split_and!; congruence); auto.
  - match goal with Hpre : preempted _ _ _ _ _ |- _ => destruct Hpre as [[(? & _)|(? & _)] _] end;
      split_and!; congruence.
  - destruct k; [by destruct Hfi|]. match goal with Hl : leaving _ _ _ _ |- _ => destruct Hl as [? _] end.
    split_and!; congruence.
Qed.

Lemma step_wake_load q t all r : at_pc (cpus s c) = WakeLoad q t all r ->
  wp (wake_load c q t all r) s done_ok.
Proof.
  intros Hp. pose proof (at_ok s c Hinv Hc) as Hok. rewrite Hp in Hok. destruct Hok as [Hf Hok].
  destruct (wake_pc_ok s q all r Hf Hok) as (Hcalm & Hn & Hpok).
  assert (previous (cpus s c) = None /\ pending_exit (cpus s c) = None) as [Hprev Hpend].
  { pose proof (co_previous _ _ _ (i_cpu _ _ Hinv c Hc)) as Hpr.
    pose proof (co_pending _ _ _ (i_cpu _ _ Hinv c Hc)) as Hpe. rewrite Hp in Hpr, Hpe. split.
    - destruct (previous (cpus s c)); [|done]. by destruct Hpr as (_ & _ & _ & [[]|[]]).
    - destruct (pending_exit (cpus s c)); [|done]. by destruct Hpe. }
  unfold wake_load. wp_go. destruct (on_cpu (threads s t)) eqn:Hon.
  - apply wp_wake_more. eapply (inv_only_pc n s _ c (wake_pc q all r)); rewrite ?Hp; try done.
    + unfold after_wake, wake_pc. destruct all; solve_only_pc.
    + by destruct (wake_pc q all r).
    + unfold after_wake. destruct all; look; auto.
    + intros t' _ Hput. right. unfold putter, stale in Hput. rewrite Hp in Hput.
      destruct Hput as [[[? ?]|(? & ? & ? & ?)]|(? & ? & ? & ?)]; simplify_eq. done.
    + intros t' _ Hs. exfalso. unfold stale, after_wake in Hs. destruct all; revert Hs; look.
      * by intros [[]|(? & ? & ? & ?)].
      * by intros [[? ->]|(? & ? & ? & ->)].
    + intros t'. rewrite Hn. unfold attached. rewrite Hp. auto.
    + intros t'. by rewrite Hn.
  - wp_go. eapply (inv_only_pc n s _ c (WakePut q t all r)); rewrite ?Hp; try done; [solve_only_pc|..].
    + look. auto.
    + intros t' _ Hput. left. unfold putter, stale in *. rewrite Hp in Hput. look.
      destruct Hput as [[[? ?]|(? & ? & ? & ?)]|(? & ? & ? & ?)]; simplify_eq. left. right. eauto.
    + intros t' _. unfold stale. look. intros [[? ?]|(? & ? & ? & ?)]; simplify_eq. by right.
    + intros t'. unfold attached. rewrite Hp. auto.
Qed.

Lemma step_wake_put q t all r : at_pc (cpus s c) = WakePut q t all r ->
  wp (wake_put c q t all r) s done_ok.
Proof.
  intros Hp. pose proof (at_ok s c Hinv Hc) as Hok. rewrite Hp in Hok. destruct Hok as [Hf Hok].
  assert (stale s c t) as Hst by (right; eauto). destruct (stale_previous t Hst) as [Hprev Hstk].
  destruct (wake_pc_ok s q all r Hf Hok) as (Hcalm & Hn & Hpok).
  destruct (frame_not_waking r Hf Hok) as (Hcw & _ & _).
  assert (pending_exit (cpus s c) = None) as Hpend.
  { pose proof (co_pending _ _ _ (i_cpu _ _ Hinv c Hc)) as Hpe. rewrite Hp in Hpe.
    destruct (pending_exit (cpus s c)); [|done]. by destruct Hpe. }
  unfold wake_put. wp_go. apply wp_woken; [done|..]; intros Hw; unfold when, request_reschedule; wp_go.
  - apply wp_wake_more.
    assert (next_of r <> Some t) as Hnt.
    { intros Hnt. apply (waking_detached t c Hw); [|done|unfold attached; rewrite Hp; auto].
      by apply (to_stale _ _ _ (i_thread _ _ Hinv t) c). }
    assert (cur s c <> t) as Hne by congruence.
    assert (forall s', (exists x, effect s s' c t (set_run_node true (set_state Ready (threads s t)))
      (set_pc (wake_pc q all r) (set_resched x (set_ready (ready (cpus s c) ++ [t]) (cpus s c))))) -> Inv s') as Hend.
    { intros s' [x He]. eapply woken_inv; try done; simpl; rewrite ?Hp; eauto.
      eapply effect_pc_ok; try done; simpl; try congruence; [intros ? ? Hk; by rewrite Hk in Hcalm|].
      intros t' ?. rewrite elem_of_app. by left. }
    apply Hend. exists true. unfold after_wake. destruct all; split; intros; look; done.
  - apply wp_wake_more. eapply (inv_only_pc n s _ c (wake_pc q all r)); rewrite ?Hp; try done.
    + unfold after_wake, wake_pc. destruct all; solve_only_pc.
    + by destruct (wake_pc q all r).
    + unfold after_wake. destruct all; look; auto.
    + intros t' Hw' Hput. unfold putter, stale in Hput. rewrite Hp in Hput.
      destruct Hput as [[[? ?]|(? & ? & ? & ?)]|(? & ? & ? & ?)]; simplify_eq.
    + intros t' _ Hs. exfalso. unfold stale, after_wake in Hs. destruct all; revert Hs; look.
      * by intros [[]|(? & ? & ? & ?)].
      * by intros [[? ->]|(? & ? & ? & ->)].
    + intros t'. rewrite Hn. unfold attached. rewrite Hp. auto.
    + intros t'. by rewrite Hn.
Qed.

(** The race: a processor is about to wake a blocked thread that is still on a
    processor, while another one, late, is about to enqueue it for an earlier
    wake-up. *)
Definition race_at (s : Kernel) (c : cid) : Prop :=
  exists q all r t ts c', at_pc (cpus s c) = WakeNext q all r /\ waiters s q = t :: ts /\
    st s t = Blocked /\ on_cpu (threads s t) = true /\ (c' < n)%nat /\ stale s c' t.

Lemma wake_ready q all r : at_pc (cpus s c) = WakeNext q all r ->
  frame n s (cur s c) r /\ pc_ok n s c r.
Proof. intros Hp. pose proof (at_ok s c Hinv Hc) as Hok. by rewrite Hp in Hok. Qed.

(** The waiter is taken out after the counter has moved on. *)
Lemma take_inv s1 s' q t ts :
  Inv s1 -> waiters s1 q = t :: ts -> cpus s' = cpus s1 ->
  (forall t', t' <> t -> threads s' t' = threads s1 t') ->
  (exists x, (st s1 t = Blocking /\ x = Running \/ st s1 t = Blocked /\ x = Waking) /\
     threads s' t = set_state x (set_waiter false (threads s1 t))) ->
  waiters s' q = filter (.≠ t) (waiters s1 q) ->
  (forall q', q' <> q -> waiters s' q' = waiters s1 q') ->
  (st s1 t = Blocked -> on_cpu (threads s1 t) = true \/ exists c', (c' < n)%nat /\ putter s1 c' t) ->
  (forall c', (c' < n)%nat -> st s1 t = Blocked -> stale s1 c' t -> on_cpu (threads s1 t) = false) ->
  Inv s'.
Proof.
  intros Hi Hq Hcpus Hoth (x & Hx & Ht) Hq1 Hq2 Hput Hstale.
  eapply (inv_wake n s1 s' q t); rewrite ?Ht; try done. rewrite Hq. by left.
Qed.

Lemma step_wake_next q all r : at_pc (cpus s c) = WakeNext q all r -> ~ race_at s c ->
  wp (wake_next c q all r) s done_ok.
Proof.
  intros Hp Hrace. destruct (wake_ready q all r Hp) as [Hf Hok].
  destruct (wake_pc_ok s q all r Hf Hok) as (Hcalm & Hn & Hpok).
  destruct (calm_previous n s c (i_cpu _ _ Hinv c Hc)) as (Hprev & Hpend & Hstk); [by rewrite Hp|].
  unfold wake_next. wp_go. destruct (waiters s q) as [|t ts] eqn:Hq.
  { unfold wake_done. wp_go. eapply (calm_goto s c Hinv Hc _ r); rewrite ?Hp; [solve_only_pc|done|by destruct r|done..]. }
  assert (waiter (threads s t) = true) as Hwt by (eapply (i_waiters _ _ Hinv t q); rewrite Hq; by left).
  assert (st s t = Blocking \/ st s t = Blocked) as Hst by (by apply (to_waiter _ _ _ (i_thread _ _ Hinv t))).
  wp_go. unfold wait_remove. destruct Hst as [Hst|Hst]; rewrite Hst; wp_go; (apply wp_defined_if; [done|]); wp_go.
  - eapply wp_must_become; [look; by rewrite Hst|]. apply wp_wake_more.
    assert (forall s1, only_pc s s1 c (wake_pc q all r) -> Inv s1) as Hpc.
    { intros s1 Hs1. eapply (calm_goto s c Hinv Hc s1); rewrite ?Hp; done. }
    assert (Inv (after_wake q all r s)) as Hi.
    { apply Hpc. unfold after_wake, wake_pc. destruct all; solve_only_pc. }
    eapply (take_inv (after_wake q all r s) _ q t ts); [done|..]; unfold after_wake; destruct all; look; try done;
      intros; look; try done; try congruence.
    + exists Running. auto.
    + exists Running. auto.
  - eapply wp_must_become; [look; by rewrite Hst|]. wp_go.
    assert (Inv (upd_cpu c (set_pc (WakeLoad q t all r)) s)) as Hi.
    { eapply (inv_only_pc n s _ c (WakeLoad q t all r)); rewrite ?Hp; try done; [solve_only_pc|..].
      - look. auto.
      - intros t' _ Hput. unfold putter, stale in Hput. rewrite Hp in Hput.
        by destruct Hput as [[[]|(? & ? & ? & ?)]|(? & ? & ? & ?)].
      - intros t' _. unfold stale. look. by intros [[]|(? & ? & ? & ?)].
      - intros t'. unfold attached. rewrite Hp. auto. }
    eapply (take_inv _ _ q t ts Hi); look; try done; intros; look; try done.
    + exists Waking. auto.
    + right. exists c. split; [done|]. right. look. eauto.
    + destruct (on_cpu (threads s t)) eqn:Hon; [|done]. exfalso. apply Hrace.
      match goal with Hs : stale _ ?c' _ |- _ => exists q, all, r, t, ts, c'; split_and!; try done;
        unfold stale in *; destruct (decide (c' = c)) as [->|]; revert Hs; look end.
      * by intros [[]|(? & ? & ? & ?)].
      * done.
Qed.

Lemma step_wait_commit q : at_pc (cpus s c) = WaitCommit q -> wp (wait_commit c q) s done_ok.
Proof.
  intros Hp. pose proof (at_ok s c Hinv Hc) as Hok. rewrite Hp in Hok. destruct Hok as [Hst Hni].
  pose proof (i_cpu _ _ Hinv c Hc) as Hcpu. pose proof (i_thread _ _ Hinv (cur s c)) as Hth.
  assert (previous (cpus s c) = None /\ pending_exit (cpus s c) = None) as [Hprev Hpend].
  { pose proof (co_previous _ _ _ Hcpu) as Hpr. pose proof (co_pending _ _ _ Hcpu) as Hpe.
    rewrite Hp in Hpr, Hpe. split.
    - destruct (previous (cpus s c)); [|done]. by destruct Hpr as (_ & _ & _ & [[]|[]]).
    - destruct (pending_exit (cpus s c)); [|done]. by destruct Hpe. }
  assert (stack s c = cur s c) as Hstk by (unfold stack; by rewrite Hp).
  apply wp_locked; [done|]. intros _. wp_go. look. destruct Hst as [Hst|[Hst Hin]]; rewrite Hst; wp_go.
  - apply wp_defined_if; [by rewrite (not_waiting (cur s c)) by congruence|]. wp_go.
    eapply (inv_only_pc n s _ c (WaitLock q)); rewrite ?Hp; try done; [solve_only_pc|..].
    + look. auto.
    + intros ? _. congruence.
    + intros t _ Hput. unfold putter, stale in Hput. rewrite Hp in Hput.
      by destruct Hput as [[[]|(? & ? & ? & ?)]|(? & ? & ? & ?)].
    + intros t _. unfold stale. look. by intros [[]|(? & ? & ? & ?)].
  - assert (waiter (threads s (cur s c)) = true) as Hw by (apply Hth; by left).
    apply wp_defined_if; [done|]. wp_go. eapply wp_must_become; [look; by rewrite Hst|]. wp_go.
    effect_of s c (cur s c). pose proof (e_cpu _ _ _ _ _ _ He) as Hx.
    eapply effect_inv; try done; simpl.
    + by left; left; left.
    + congruence.
    + intros t Hne. unfold attached, on. rewrite Hx, Hp. done.
    + eapply effect_cpu; try done; simpl; rewrite ?Hpend; try done; try apply Hcpu; see; try apply Hcpu.
      * split; [|by eapply effect_not_idle]. see. eauto.
      * rewrite <- Hstk. apply Hcpu.
      * intros t (? & ? & ?)%(co_ready _ _ _ Hcpu). assert (t <> cur s c) by congruence. by see.
      * pose proof (no_idle_ne s c Hc _ Hni). see.
        destruct (co_idle _ _ _ Hcpu) as [?|[? [?|[k Hk]]]]; [by left|by right|congruence].
    + destruct (on_facts n s c (cur s c) Hinv Hc) as (Hf1 & _); [by left|].
      eapply effect_thread_on; try done; simpl; see; try apply Hcpu; try done.
      * left. by see.
      * rewrite Hw. split; auto.
      * intros _. eauto.
      * replace (context (threads s (cur s c))) with (None (A := kont)); [unfold stack; by see|].
        rewrite <- Hstk. symmetry. apply Hcpu.
    + intros t Hne. unfold role_kept, on, putter, stale, stack. rewrite Hx, Hp. simpl. split_and!; try done.
      * by intros _ [[[]|(? & ? & ? & ?)]|(? & ? & ? & ?)].
      * by intros _ [[]|(? & ? & ? & ?)].
Qed.

(** The running thread enters the wait queue. *)
Lemma wait_inv s' q :
  at_pc (cpus s c) = WaitEnqueue q ->
  threads s' (cur s c) = set_waiter true (set_state Blocking (threads s (cur s c))) ->
  (forall t, t <> cur s c -> threads s' t = threads s t) ->
  cpus s' c = set_pc (WaitCommit q) (cpus s c) ->
  (forall c', c' <> c -> cpus s' c' = cpus s c') ->
  waiters s' q = waiters s q ++ [cur s c] ->
  (forall q', q' <> q -> waiters s' q' = waiters s q') -> Inv s'.
Proof.
  intros Hp Ht Hoth Hx Hcs Hq Hq'. pose proof (at_ok s c Hinv Hc) as Hok. rewrite Hp in Hok.
  destruct Hok as [Hr Hni]. pose proof (i_cpu _ _ Hinv c Hc) as Hcpu.
  destruct (calm_previous n s c Hcpu) as (Hprev & Hpend & Hstk); [by rewrite Hp|].
  destruct (on_facts n s c (cur s c) Hinv Hc) as (Hf1 & _); [by left|].
  assert (waiter (threads s (cur s c)) = false) as Hw by (apply not_waiting; congruence).
  assert (forall q0, cur s c ∉ waiters s q0) as Hnin.
  { intros q0 Hin. apply (i_waiters _ _ Hinv) in Hin. congruence. }
  assert (forall c', idle (cpus s' c') = idle (cpus s c')) as Hidle.
  { intros c'. destruct (decide (c' = c)) as [->|]; [by rewrite Hx|by rewrite Hcs]. }
  assert (forall t q0, t ∈ waiters s' q0 <-> t ∈ waiters s q0 \/ t = cur s c /\ q0 = q) as Hmem.
  { intros t q0. destruct (decide (q0 = q)) as [->|]; [|rewrite Hq' by done; tauto].
    rewrite Hq, elem_of_app, list_elem_of_singleton. tauto. }
  eapply (inv_update n s s' c (fun t => t = cur s c)); try done.
  - intros t -> ?. congruence.
  - intros t c' -> Hc' Hne Ha. apply Hne, (i_one_cpu _ _ Hinv c' c (cur s c)); [done|done|done|by left; left].
  - intros t. unfold attached, on. rewrite Hx, Hp. simpl. tauto.
  - intros t q0 Hne. rewrite Hmem. tauto.
  - intros t q0 -> _. by rewrite Ht.
  - intros t q1 q2 ->. rewrite !Hmem. intros [H1|[_ ->]] [H2|[_ ->]]; try done; by destruct (Hnin _ H1) || by destruct (Hnin _ H2).
  - intros q0. destruct (decide (q0 = q)) as [->|]; [|rewrite Hq' by done; apply Hinv].
    rewrite Hq. apply NoDup_snoc; [apply Hinv|done].
  - split; rewrite ?Hx; simpl; rewrite ?Ht; simpl; try apply Hcpu; try done.
    + rewrite Hx. simpl. rewrite Ht. split; [right; split; [done|apply Hmem; auto]|by apply (no_idle_same n s)].
    + by rewrite Hprev.
    + intros t (? & ? & ?)%(co_ready _ _ _ Hcpu). assert (t <> cur s c) by congruence.
      rewrite Hoth by done. split_and!; [done|done|by apply (no_idle_same n s)].
    + pose proof (no_idle_ne s c Hc _ Hni). rewrite Hoth by done.
      destruct (co_idle _ _ _ Hcpu) as [?|[? [?|[k Hk]]]]; [by left|by right; auto|congruence].
    + unfold stack. rewrite Hx. simpl. rewrite Ht. simpl. rewrite <- Hstk. apply Hcpu.
    + by rewrite Hpend.
  - intros t ->. apply (thread_ok_on n s' c); rewrite ?Ht, ?Hx; simpl; try done.
    + apply Hcpu.
    + left. by rewrite Hx.
    + split; auto.
    + intros _. exists q. apply Hmem. auto.
    + eauto.
    + replace (context (threads s (cur s c))) with (None (A := kont)); [unfold stack; by rewrite Hx|].
      rewrite <- Hstk. symmetry. apply Hcpu.
  - intros t Hne. unfold role_kept, on, putter, stale, stack. rewrite Hx, Hp. simpl. split_and!; try done.
    + by intros _ [[[]|(? & ? & ? & ?)]|(? & ? & ? & ?)].
    + by intros _ [[]|(? & ? & ? & ?)].
  - intros t. apply (decide_rel (=)).
Qed.

Lemma step_wait_enqueue q : at_pc (cpus s c) = WaitEnqueue q -> wp (wait_enqueue_current c q) s done_ok.
Proof.
  intros Hp. pose proof (at_ok s c Hinv Hc) as Hok. rewrite Hp in Hok. destruct Hok as [Hr Hni].
  assert (waiter (threads s (cur s c)) = false) as Hw by (apply not_waiting; congruence).
  unfold wait_enqueue_current, wait_enqueue. wp_go. apply wp_defined_if; [by rewrite Hw|]. wp_go.
  eapply wp_must_become; [by rewrite Hr|]. wp_go. apply wp_defined_if; [look; by rewrite Hw|]. wp_go.
  eapply (wait_inv _ q Hp); look; try done; intros; by look.
Qed.

(** A thread that is not in the hands of the scheduler. *)
Lemma outside_detached t c' : st s t = New \/ st s t = Registered -> (c' < n)%nat -> ~ attached s c' t.
Proof.
  intros Hs Hc' Ha. pose proof (i_cpu _ _ Hinv c' Hc') as Hcpu.
  pose proof (to_outside _ _ _ (i_thread _ _ Hinv t) Hs) as Hoff.
  destruct Ha as [Ha|[Ha|[Ha|<-]]].
  - apply (on_on_cpu n s c') in Ha; congruence.
  - apply Hcpu in Ha as [? _]. destruct Hs; congruence.
  - pose proof (at_ok s c' Hinv Hc') as Hok. clear Hcpu. revert Ha Hok.
    induction (at_pc (cpus s c')); try done; simpl; intros Ha Hok;
      try (injection Ha as ->); destruct_and?; try (by auto);
      try (match goal with Hch : chosen _ _ _ |- _ => destruct Hch as ([?|[? ?]] & _) end);
      destruct Hs; congruence.
  - destruct (co_idle _ _ _ Hcpu) as [?|[? _]]; destruct Hs; congruence.
Qed.

(** A thread outside changes to one that is [Registered], or [Ready] in the queue. *)
Lemma outside_inv s' t th x :
  effect s s' c t th x -> at_pc (cpus s c) = Run -> at_pc x = Run ->
  st s t = New \/ st s t = Registered ->
  idle x = idle (cpus s c) -> current x = cur s c -> previous x = None -> pending_exit x = None ->
  (state th = Registered /\ run_node th = false /\ ready x = ready (cpus s c) \/
   state th = Ready /\ run_node th = true /\ ready x = ready (cpus s c) ++ [t]) ->
  waiter th = waiter (threads s t) -> on_cpu th = on_cpu (threads s t) ->
  (exists r, context th = Some (Resume r) /\ resume_ok n s t r) -> Inv s'.
Proof.
  intros He Hp Hp' Hs Hidle Hcx Hpx Hpend Hth Hwt Hon (r & Hctx & Hres).
  pose proof (i_cpu _ _ Hinv c Hc) as Hcpu.
  destruct (calm_previous n s c Hcpu) as (Hprev & Hpend0 & Hstk); [by rewrite Hp|].
  pose proof (to_outside _ _ _ (i_thread _ _ Hinv t) Hs) as Hoff.
  pose proof (outside_detached t c Hs Hc) as Hdet.
  assert (cur s c <> t) as Hne by (intros <-; apply Hdet; by left; left).
  assert (t ∉ ready (cpus s c)) as Hnin by (intros ?; apply Hdet; right; by left).
  assert (forall c', (c' < n)%nat -> idle (cpus s c') <> t) as Hni.
  { intros c' Hc' Hi. apply (outside_detached t c' Hs Hc'). unfold attached. auto. }
  assert (waiter (threads s t) = false) as Hw by (destruct Hs; apply not_waiting; congruence).
  assert (forall t', t' ∈ ready x <-> t' ∈ ready (cpus s c) \/ t' = t /\ state th = Ready) as Hrx.
  { intros t'. destruct Hth as [(-> & _ & ->)|(-> & _ & ->)]; rewrite ?elem_of_app, ?list_elem_of_singleton; intuition done. }
  eapply effect_inv; try done.
  - right. intros c'. by apply outside_detached.
  - destruct Hs; congruence.
  - intros t' Hne'. unfold attached, on. rewrite (e_cpu _ _ _ _ _ _ He), Hidle, Hcx, Hpx, Hrx, Hp', Hp, Hprev. tauto.
  - by rewrite Hw.
  - eapply effect_cpu; try done; rewrite ?Hcx, ?Hpend, ?Hp', ?(e_threads _ _ _ _ _ _ He (cur s c) Hne);
      try apply Hcpu; try done.
    + simpl. rewrite (e_cpu _ _ _ _ _ _ He), Hcx, (e_threads _ _ _ _ _ _ He) by done.
      pose proof (at_ok s c Hinv Hc) as Hok. by rewrite Hp in Hok.
    + rewrite <- Hstk. apply Hcpu.
    + destruct Hth as [(_ & _ & ->)|(_ & _ & ->)]; [apply Hcpu|]. apply NoDup_snoc; [apply Hcpu|done].
    + intros t'. rewrite Hrx. intros [Ht'|[-> ?]].
      * rewrite (e_threads _ _ _ _ _ _ He) by (by intros ->). by apply Hcpu.
      * rewrite (e_thread _ _ _ _ _ _ He). destruct Hth as [(? & _)|(? & ? & _)]; [congruence|done].
    + rewrite Hidle, (e_threads _ _ _ _ _ _ He) by (by apply Hni).
      destruct (co_idle _ _ _ Hcpu) as [?|[? [?|[k Hk]]]]; [by left|by right|congruence].
  - eapply effect_thread_off; try done.
    + congruence.
    + rewrite Hwt, Hw. split; [done|]. destruct Hth as [(-> & _)|(-> & _)]; by intros [|].
    + by rewrite Hwt, Hw.
    + intros Hrn. apply Hrx. right. destruct Hth as [(_ & ? & _)|(? & _)]; [congruence|done].
    + destruct Hth as [(-> & _)|(-> & ? & _)]; auto.
    + by rewrite Hctx.
  - intros t' Hne'. apply calm_role; rewrite ?(e_cpu _ _ _ _ _ _ He), ?Hp, ?Hp'; try done; try congruence.
    intros ?. apply Hrx. by left.
Qed.

Lemma step_run e : at_pc (cpus s c) = Run -> wp (run_thread c e) s done_ok.
Proof.
  intros Hp. pose proof (at_ok s c Hinv Hc) as Hr. rewrite Hp in Hr.
  destruct (calm_previous n s c (i_cpu _ _ Hinv c Hc)) as (Hprev & Hpend & _); [by rewrite Hp|].
  unfold run_thread. wp_go. destruct (decide (cur s c = idle (cpus s c))) as [|Hid]; wp_go; [done|].
  pose proof (not_idle s c Hinv Hc Hid) as Hni.
  assert (forall p', calm p' = true -> next_of p' = None -> pc_ok n s c p' -> Inv (upd_cpu c (set_pc p') s)) as Hgo.
  { intros p' ? ? ?. eapply (calm_goto s c Hinv Hc _ p'); rewrite ?Hp; [solve_only_pc|done..]. }
  destruct e as [| |[t|m]| |o|t|t|o|ms]; wp_go; try done; try (by apply Hgo).
  - destruct (decide _); wp_go; [done|]. destruct (decide _); wp_go; [done|]. by apply Hgo.
  - destruct (decide (st s t = New)) as [Hs|]; wp_go; [|done]. eapply wp_must_become; [by rewrite Hs|]. wp_go.
    effect_of s c t. eapply outside_inv; try done; simpl; try (by left); [|by exists Run].
    left. split_and!; [done|apply running_unlinked; congruence|done].
  - destruct (decide (st s t = Registered)) as [Hs|]; wp_go; [|done].
    apply wp_enqueue; [by rewrite Hs|apply running_unlinked; congruence|]. wp_go.
    effect_of s c t. eapply outside_inv; try done; simpl; try (by right).
    pose proof (to_outside _ _ _ (i_thread _ _ Hinv t) (or_intror Hs)) as Hoff.
    pose proof (off_context n s t Hinv Hoff) as Hctx. rewrite Hs in Hctx.
    destruct (context (threads s t)) as [[r|]|]; [by eauto|done|done].
Qed.
End one_thread.
End steps.
