(* ===== verification/ThreadsFacts.v ===== *)
(** * What holds in every interleaving of the processors

    The invariant of ThreadsInv.v along any sequence of actions; on one or two
    processors no sequence meets the race, on three there is one that does, and a
    thread then runs on two processors. *)

From stdpp Require Import base tactics list sets functions relations.
From S2P Require Import Prelude CMonad Threads ThreadsInv ThreadsSteps.
Local Open Scope Z_scope.

Section facts.
Context `{Client} (n : nat).
Implicit Types (s : Kernel) (c : cid) (t : tid) (p r : pc) (k : kont).
Abbreviation st s t := (state (threads s t)).
Abbreviation cur s c := (current (cpus s c)).

(** ** One action *)

Lemma advance_inv s c e :
  inv n s -> (c < n)%nat -> ~ race_at n s c -> wp (advance c e (at_pc (cpus s c))) s (fun _ s' => inv n s').
Proof.
  intros Hinv Hc Hrace. destruct (at_pc (cpus s c)) eqn:Hp; simpl.
  - by apply step_run.
  - by apply step_wait_lock.
  - by apply step_wait_hold.
  - by apply step_wait_drop.
  - by apply step_wait_enqueue.
  - by apply step_wait_commit.
  - by apply step_schedule.
  - by apply step_schedule_put.
  - by apply step_schedule_start.
  - by apply step_exit.
  - by apply step_pick.
  - by apply step_start_next.
  - by apply step_prepare.
  - by apply step_switch.
  - by apply step_finish.
  - by apply step_finish_previous.
  - by apply step_finish_exit.
  - by apply step_wake_lock.
  - by apply step_wake_next.
  - by apply step_wake_load.
  - by apply step_wake_put.
  - by apply step_op_lock.
  - by apply step_op_unlock.
  - by apply step_irq_return.
Qed.

Lemma cpu_step_inv s c e :
  inv n s -> (c < n)%nat -> ~ race_at n s c -> wp (cpu_step c e) s (fun _ s' => inv n s').
Proof.
  intros Hinv Hc Hrace. unfold cpu_step. apply wp_bind, wp_gets.
  destruct e; try (by apply advance_inv).
  - destruct (preemptible _) eqn:?; [by apply step_preempt|by apply wp_ret].
  - destruct (interruptible _) eqn:?; [by apply step_irq|by apply wp_ret].
  - destruct (interruptible _) eqn:?; [by apply step_tick|by apply wp_ret].
Qed.

(** ** The race takes three processors *)

(** The thread that runs may be blocked: it is being handed over. *)
Definition handing p : bool :=
  match p with Pick (Resume _) | Start _ _ | Prepare _ _ | Switch _ _ => true | _ => false end.

Lemma not_handing s c p : pc_ok n s c p -> handing p = false -> st s (cur s c) <> Blocked.
Proof.
  assert (forall t r, frame n s t r -> handing r = false) as Hf by (by intros ? []; simpl; try done; destruct k).
  assert (forall r, interruptible r = true -> handing r = false) as Hi by (by intros []).
  induction p as [| | | | | | | | | |[]| | | | | | | | | | | | |]; intros Hok Hh; simpl in Hok; try done;
    unfold preempted, leaving in *;
    repeat match goal with
    | Hor : _ \/ _ |- _ => destruct Hor
    | Hand : _ /\ _ |- _ => destruct Hand
    end; try congruence; by eauto.
Qed.

Lemma race_processors s c : inv n s -> (c < n)%nat -> race_at n s c ->
  exists c1 c2, (c1 < n)%nat /\ (c2 < n)%nat /\ c <> c1 /\ c <> c2 /\ c1 <> c2.
Proof.
  intros Hinv Hc (q & all & r & t & ts & c1 & Hp & _ & Hb & Hon & Hc1 & Hst).
  destruct (to_on_cpu _ _ _ (i_thread _ _ Hinv t) Hon) as (c2 & Hc2 & Ht).
  assert (handing (at_pc (cpus s c2)) = true \/ exists r, at_pc (cpus s c2) = Finish r) as Hh.
  { pose proof (i_cpu _ _ Hinv c2 Hc2) as Hcpu. destruct Ht as [Ht|Ht].
    - destruct (handing _) eqn:Hh; [by left|]. exfalso.
      by apply (not_handing s c2 _ (co_pc _ _ _ Hcpu) Hh); rewrite Ht.
    - pose proof (co_previous _ _ _ Hcpu) as Hprev. rewrite Ht in Hprev.
      destruct Hprev as (_ & _ & _ & [[k ->]|Hr]); [by left|by right]. }
  exists c1, c2. split_and!; [done|done|intros ->..];
    destruct Hst as [[? Hs]|(? & ? & ? & Hs)], Hh as [Hh|[? Hh]]; 
    try rewrite Hs in Hh; try rewrite Hp in Hh; simpl in Hh; congruence.
Qed.

Lemma two_processors s c : inv n s -> (c < n)%nat -> (n <= 2)%nat -> ~ race_at n s c.
Proof. intros Hinv Hc Hn Hrace. destruct (race_processors s c Hinv Hc Hrace) as (c1 & c2 & ?). lia. Qed.

(** ** The state after start-up *)

Lemma booted_thread s t : booted n s ->
  (exists c, (c < n)%nat /\ t = cur s c /\ threads s t = mkThread Running true false false None) \/
  (exists c, (c < n)%nat /\ t = idle (cpus s c) /\ threads s t = mkThread Idle false false false (Some (Resume Run))) \/
  threads s t = mkThread New false false false None.
Proof.
  intros (Hcpus & _ & Hthreads & _). destruct (Hthreads t) as [(c & Hc & Ht)|]; [|by auto].
  destruct (Hcpus c Hc) as (t0 & i & Hcpu & H0 & Hi). rewrite Hcpu in Ht. simpl in Ht.
  destruct Ht as [->| ->]; [left|right; left]; exists c; by rewrite Hcpu.
Qed.

Lemma booted_cpu s c : booted n s -> (c < n)%nat -> cpu_ok n s c.
Proof.
  intros (Hcpus & _) Hc. destruct (Hcpus c Hc) as (t & i & Hcpu & Ht & Hi).
  split; unfold stack; rewrite ?Hcpu; simpl; rewrite ?Ht, ?Hi; simpl; rewrite ?Hcpu; simpl;
    rewrite ?Ht; simpl; auto using NoDup_nil_2. by intros ? ?%not_elem_of_nil.
Qed.

Lemma booted_thread_ok s t : booted n s -> thread_ok n s t.
Proof.
  intros Hb. pose proof Hb as (Hcpus & _ & _ & Hw & _).
  destruct (booted_thread s t Hb) as [(c & Hc & Hcur & Ht)|[(c & Hc & Hi & Ht)|Ht]];
    (split; rewrite ?Ht; simpl; try (by intros; eauto); try (split; [done|by intros [|]])).
  - intros _. exists c. split; [done|]. by left.
  - by intros [|].
  - right. exists c. split; [done|]. unfold stack. destruct (Hcpus c Hc) as (? & ? & Hcpu & _).
    by rewrite Hcur, Hcpu.
Qed.

Lemma booted_inv s : booted n s -> inv n s.
Proof.
  intros Hb. pose proof Hb as (Hcpus & Hone & _ & Hw & _). split.
  - intros c Hc. by apply booted_cpu.
  - intros t. by apply booted_thread_ok.
  - intros c c' t Hc Hc' Ha Ha'.
    destruct (Hcpus c Hc) as (t1 & i1 & H1 & Ht1 & Hi1), (Hcpus c' Hc') as (t2 & i2 & H2 & Ht2 & Hi2).
    unfold attached, on in *. rewrite H1 in Ha. rewrite H2 in Ha'. simpl in Ha, Ha'.
    rewrite elem_of_nil in Ha, Ha'. apply Hone; [done..|]. rewrite H1, H2. simpl.
    assert (t1 <> i2) by (intros ->; congruence). assert (t2 <> i1) by (intros ->; congruence).
    intuition congruence.
  - intros t q. rewrite Hw. by intros ?%not_elem_of_nil.
  - intros t q q'. rewrite Hw. by intros ?%not_elem_of_nil.
  - intros q. rewrite Hw. constructor.
Qed.

(** ** Every reachable state *)

(** An action outside the race. *)
Definition quiet_step s s' : Prop :=
  exists c e, (c < n)%nat /\ ~ race_at n s c /\ cpu_step c e s = Ok (tt, s').

(** What users of the scheduler rely on: a stack is used by one processor at a time;
    a thread is in at most one ready queue and at most one wait queue, once, and its
    state says so; no thread that can run, or was woken, is lost. *)
Record consistent s : Prop := Consistent {
  one_stack c c' : (c < n)%nat -> (c' < n)%nat -> stack s c = stack s c' -> c = c';
  one_current c c' : (c < n)%nat -> (c' < n)%nat -> cur s c = cur s c' -> c = c';
  ready_once c : (c < n)%nat -> NoDup (ready (cpus s c));
  ready_one c c' t : (c < n)%nat -> (c' < n)%nat ->
    t ∈ ready (cpus s c) -> t ∈ ready (cpus s c') -> c = c';
  ready_state c t : (c < n)%nat -> t ∈ ready (cpus s c) -> st s t = Ready;
  waiting_once q : NoDup (waiters s q);
  waiting_one q q' t : t ∈ waiters s q -> t ∈ waiters s q' -> q = q';
  waiting_state t : (exists q, t ∈ waiters s q) <-> st s t = Blocking \/ st s t = Blocked;
  ready_kept t : st s t = Ready ->
    exists c, (c < n)%nat /\ (t ∈ ready (cpus s c) \/ next_of (at_pc (cpus s c)) = Some t);
  waking_kept t : st s t = Waking ->
    exists c, (c < n)%nat /\ (on s c t \/ putter s c t);
  running_kept t : st s t = Running ->
    exists c, (c < n)%nat /\ (on s c t \/ next_of (at_pc (cpus s c)) = Some t)
}.

Lemma stack_attached s c : inv n s -> (c < n)%nat -> attached s c (stack s c).
Proof.
  intros Hinv Hc. left. unfold on, stack. pose proof (co_switch _ _ _ (i_cpu _ _ Hinv c Hc)) as Hsw.
  destruct (at_pc (cpus s c)); auto.
Qed.

Lemma inv_consistent s : inv n s -> consistent s.
Proof.
  intros Hinv. split.
  - intros c c' Hc Hc' Hs. apply (i_one_cpu _ _ Hinv c c' (stack s c)); [done..| |].
    + by apply stack_attached.
    + rewrite Hs. by apply stack_attached.
  - intros c c' Hc Hc' Hs. apply (i_one_cpu _ _ Hinv c c' (cur s c)); [done..| |]; left; left; congruence.
  - intros c Hc. apply (i_cpu _ _ Hinv c Hc).
  - intros c c' t Hc Hc' ? ?. apply (i_one_cpu _ _ Hinv c c' t); [done..| |]; by right; left.
  - intros c t Hc Ht. by apply (co_ready _ _ _ (i_cpu _ _ Hinv c Hc)).
  - apply (i_queue_nodup _ _ Hinv).
  - intros q q' t. apply (i_one_queue _ _ Hinv).
  - intros t. pose proof (i_thread _ _ Hinv t) as Ht. split.
    + intros [q Hq]. by apply Ht, (i_waiters _ _ Hinv t q).
    + intros Hs. by apply Ht, Ht.
  - intros t Hs. pose proof (i_thread _ _ Hinv t) as Ht.
    destruct (to_ready _ _ _ Ht Hs) as [Hr|(c & Hc & Hn)]; [|by eauto].
    destruct (to_run_node _ _ _ Ht Hr) as (c & Hc & Hin). by eauto.
  - intros t Hs. pose proof (i_thread _ _ Hinv t) as Ht.
    destruct (to_waking _ _ _ Ht Hs) as [Hr|(c & Hc & Hn)]; [|by eauto].
    destruct (to_on_cpu _ _ _ Ht Hr) as (c & Hc & Hin). by eauto.
  - intros t Hs. pose proof (i_thread _ _ Hinv t) as Ht.
    destruct (to_running _ _ _ Ht Hs) as [Hr|(c & k & Hc & Hn)].
    + destruct (to_on_cpu _ _ _ Ht Hr) as (c & Hc & Hin). by eauto.
    + exists c. split; [done|]. right. by rewrite Hn.
Qed.

Lemma quiet_inv s s' : inv n s -> rtc quiet_step s s' -> inv n s'.
Proof.
  intros Hinv Hsteps. induction Hsteps as [|s s1 s' (c & e & Hc & Hrace & Hstep) _ IH]; [done|].
  apply IH. destruct (cpu_step_inv s c e Hinv Hc Hrace) as ([] & s2 & Hs2 & Hinv2). congruence.
Qed.

Lemma step_quiet s s' : (n <= 2)%nat -> inv n s -> step n s s' -> quiet_step s s'.
Proof.
  intros Hn Hinv (c & e & Hc & Hstep). exists c, e. split_and!; [done|by apply two_processors|done].
Qed.

Lemma steps_quiet s s' : (n <= 2)%nat -> inv n s -> rtc (step n) s s' -> rtc quiet_step s s'.
Proof.
  intros Hn Hinv Hsteps. induction Hsteps as [|s s1 s' Hstep _ IH]; [done|].
  pose proof (step_quiet s s1 Hn Hinv Hstep) as Hq. eapply rtc_l; [done|].
  apply IH, (quiet_inv s); [done|by apply rtc_once].
Qed.
End facts.
