(* ===== verification/ThreadsSync.v ===== *)
(** * Locks and wake-ups

    In every interleaving: a lock is owned by the processor that is in its critical
    section; who is blocked will test its condition again when it is woken; and no
    wake-up is lost, neither that of a thread that others join nor that of a
    condition which counts. *)

From stdpp Require Import base tactics list sets functions relations.
From S2P Require Import Prelude CMonad Threads ThreadsInv ThreadsSteps ThreadsFacts.
Local Open Scope Z_scope.

(** Run the code; an assertion that holds is a hypothesis. *)
Ltac wlp_go :=
  repeat match goal with
  | |- wlp (bind (bind _ _) _) _ _ => apply wlp_bind_assoc
  | |- wlp (bind _ _) _ _ => apply wlp_bind
  | |- wlp (ret _) _ _ => apply wlp_ret
  | |- wlp (gets _) _ _ => apply wlp_gets
  | |- wlp (modify _) _ _ => apply wlp_modify
  | |- wlp (goto _ _) _ _ => apply wlp_modify
  | |- wlp (on_this _ _) _ _ => apply wlp_modify
  | |- wlp (on_thread _ _) _ _ => apply wlp_modify
  | |- wlp (unlock _) _ _ => apply wlp_modify
  | |- wlp (request_reschedule _) _ _ => apply wlp_modify
  | |- wlp (cpu _) _ _ => apply wlp_gets
  | |- wlp (thread _) _ _ => apply wlp_gets
  | |- wlp undef _ _ => apply wlp_undef
  | |- wlp (defined_if _) _ _ => apply wlp_defined_if; intros ?
  end.

Section sync.
Context `{Client} (n : nat).
Implicit Types (s : Kernel) (c : cid) (t : tid) (p r : pc) (k : kont) (q : queue) (l : lock).
Abbreviation st s t := (state (threads s t)).
Abbreviation cur s c := (current (cpus s c)).
Abbreviation at_ s c := (at_pc (cpus s c)).

(** ** What waiting depends on *)

(** A state of a thread, as far as waiting goes. *)
Definition phase (x : ThreadState) : ThreadState :=
  match x with Blocked | Blocking | Dead => x | _ => Running end.

(** The locks held, innermost first. *)
Fixpoint held p : list lock :=
  match p with
  | WaitHold q => [condition_lock q]
  | WaitDrop q => [condition_lock q; Waiters q]
  | WaitEnqueue q => [Waiters q]
  | WakeNext q _ r | WakeLoad q _ _ r | WakePut q _ _ r => Waiters q :: held r
  | OpUnlock o r => Cond (op_lock o) :: held r
  | WakeLock _ _ r | OpLock _ r | IrqReturn r => held r
  | _ => []
  end.

(** Where the thread that is handed over goes on. *)
Definition kont_of p : option kont :=
  match p with Pick k | Start _ k | Prepare _ k | Switch _ k => Some k | _ => None end.

(** The thread has failed the test and is about to join the queue. *)
Definition joining p : option queue :=
  match p with WaitHold q | WaitDrop q | WaitEnqueue q => Some q | _ => None end.

(** The exit of a thread wakes all threads of the queue. *)
Definition wakes_all q p : Prop :=
  match p with
  | WakeLock q' true (Pick Exited) | WakeNext q' true (Pick Exited)
  | WakeLoad q' _ true (Pick Exited) | WakePut q' _ true (Pick Exited) => q' = q
  | _ => False
  end.

(** ** Mutual exclusion *)

Record lock_ok s : Prop := Lock_ok {
  lk_nodup c : (c < n)%nat -> NoDup (held (at_ s c));
  lk_owner l c : owner s l = Some c <-> (c < n)%nat /\ l ∈ held (at_ s c)
}.

(** What an action does to the locks. *)
Inductive lock_change s s' c p' : Prop :=
| Keep : (forall l, owner s' l = owner s l) -> held p' = held (at_ s c) -> lock_change s s' c p'
| Take l0 : owner s l0 = None -> owner s' l0 = Some c ->
    (forall l, l <> l0 -> owner s' l = owner s l) -> held p' ≡ₚ l0 :: held (at_ s c) ->
    lock_change s s' c p'
| Drop l0 : owner s' l0 = None -> (forall l, l <> l0 -> owner s' l = owner s l) ->
    held (at_ s c) ≡ₚ l0 :: held p' -> lock_change s s' c p'.

Lemma lock_ok_change s s' c p' :
  (c < n)%nat -> lock_ok s -> at_ s' c = p' -> (forall c', c' <> c -> at_ s' c' = at_ s c') ->
  lock_change s s' c p' -> lock_ok s'.
Proof.
  intros Hc [Hnd Ho] Hp' Hothers Hch.
  assert (forall c', (c' < n)%nat -> NoDup (held (at_ s' c'))) as Hnd'.
  { intros c' Hc'. destruct (decide (c' = c)) as [->|]; [|rewrite Hothers; [by apply Hnd|done]].
    rewrite Hp'. destruct Hch as [? ->|l0 Hfree _ _ ->|l0 _ _ Hp]; [by apply Hnd| |].
    - constructor; [|by apply Hnd]. intros Hin.
      assert (owner s l0 = Some c) by (by apply Ho). congruence.
    - specialize (Hnd c Hc). rewrite Hp in Hnd. by apply NoDup_cons in Hnd as [_ ?]. }
  split; [done|]. intros l c'. destruct (decide (c' = c)) as [->|Hne].
  - rewrite Hp'. destruct Hch as [-> ->|l0 Hfree Hl0 Hl ->|l0 Hl0 Hl Hp]; [by apply Ho| |].
    + rewrite elem_of_cons. destruct (decide (l = l0)) as [->|]; [tauto|].
      rewrite Hl, Ho by done. tauto.
    + specialize (Hnd c Hc). rewrite Hp in Hnd. apply NoDup_cons in Hnd as [Hnin _].
      destruct (decide (l = l0)) as [->|]; [split; [congruence|tauto]|].
      rewrite Hl, Ho, Hp, elem_of_cons by done. tauto.
  - rewrite Hothers by done. rewrite <- Ho.
    destruct Hch as [Hl _|l0 Hfree Hl0 Hl _|l0 Hl0 Hl Hp]; [by rewrite Hl| |];
      (destruct (decide (l = l0)) as [->|]; [|by rewrite Hl]).
    + split; congruence.
    + assert (owner s l0 = Some c) by (apply Ho; rewrite Hp, elem_of_cons; auto). split; congruence.
Qed.

Lemma lock_exclusive s c c' l : lock_ok s -> (c < n)%nat -> (c' < n)%nat ->
  l ∈ held (at_ s c) -> l ∈ held (at_ s c') -> c = c'.
Proof.
  intros [_ Ho] Hc Hc' Hl Hl'. assert (owner s l = Some c) by (by apply Ho).
  assert (owner s l = Some c') by (by apply Ho). congruence.
Qed.

(** ** Who is going to look at a queue *)

(** How many wake-ups of one thread, and tests of the condition, are under way in
    front of, or in, what a processor does. *)
Fixpoint wakes q p : nat :=
  match p with
  | WakeLock q' false r | WakeNext q' false r => (if decide (q' = q) then 1 else 0) + wakes q r
  | WakeLock _ true r | WakeNext _ true r | WakeLoad _ _ _ r | WakePut _ _ _ r
  | OpLock _ r | OpUnlock _ r | IrqReturn r
  | Sched r | SchedPut _ r | SchedStart _ r | Finish r | FinishPrev _ r | FinishExit r => wakes q r
  | WaitLock q' => if decide (q' = q) then 1 else 0
  | _ => 0
  end.

(** The same for a thread that is not running: none while it is blocked. *)
Definition wakes_later q (x : ThreadState) k : nat :=
  match k with
  | Resume r => if decide (phase x = Blocked) then 0 else wakes q r
  | Exited => 0
  end.

(** The same for a processor on the stack of a thread in state [x]; after an early
    wake-up the thread tests again. *)
Definition wakes_at q (x : ThreadState) p : nat :=
  match p with
  | Pick k | Start _ k | Prepare _ k | Switch _ k => wakes_later q x k
  | WaitCommit q' => if decide (q' = q /\ phase x <> Blocking) then 1 else 0
  | p => wakes q p
  end.
Definition wakes_on q s c : nat := wakes_at q (st s (stack s c)) (at_ s c).

(** A thread that is switched off and will wake or test. *)
Definition wakes_off q s t : Prop :=
  exists r, context (threads s t) = Some (Resume r) /\ st s t <> New /\ phase (st s t) <> Blocked /\
    wakes q r = 1%nat.

Definition total (f : cid -> nat) (m : nat) : nat := sum_list_with f (seq 0 m).

(** At least [k] of them. *)
Definition supply q s (k : Z) : Prop :=
  exists ts, NoDup ts /\ (forall t, t ∈ ts -> wakes_off q s t) /\
    k <= Z.of_nat (total (wakes_on q s) n) + Z.of_nat (length ts).

Lemma total_mono f f' m : (forall c, (c < m)%nat -> (f c <= f' c)%nat) -> (total f m <= total f' m)%nat.
Proof.
  unfold total. induction m as [|m IH]; intros Hf; [done|].
  rewrite seq_S, !sum_list_with_app. simpl. pose proof (Hf m ltac:(lia)).
  pose proof (IH (fun c Hc => Hf c ltac:(lia))). lia.
Qed.

Lemma total_change f f' m c : (c < m)%nat -> (forall c', (c' < m)%nat -> c' <> c -> (f c' <= f' c')%nat) ->
  (total f m + f' c <= total f' m + f c)%nat.
Proof.
  unfold total. induction m as [|m IH]; intros Hc Hf; [lia|].
  rewrite seq_S, !sum_list_with_app. simpl. destruct (decide (c = m)) as [->|Hne].
  - pose proof (total_mono f f' m (fun c Hc' => Hf c ltac:(lia) ltac:(lia))) as Hm. unfold total in Hm. lia.
  - pose proof (Hf m ltac:(lia) ltac:(lia)). pose proof (IH ltac:(lia) (fun c' Hc' => Hf c' ltac:(lia))). lia.
Qed.

Lemma total_two f f' m c c2 : (c < m)%nat -> (c2 < m)%nat -> c <> c2 ->
  (forall c', (c' < m)%nat -> c' <> c -> c' <> c2 -> (f c' <= f' c')%nat) ->
  (total f m + f' c + f' c2 <= total f' m + f c + f c2)%nat.
Proof.
  intros Hc Hc2 Hne Hf. set (g := <[c2 := f' c2]> f).
  pose proof (total_change f g m c2 Hc2) as H1. pose proof (total_change g f' m c Hc) as H2.
  unfold g in *. rewrite fn_lookup_insert in H1. rewrite fn_lookup_insert_ne in H2 by done.
  assert (total f m + f' c2 <= total (<[c2:=f' c2]> f) m + f c2)%nat
    by (apply H1; intros; by rewrite fn_lookup_insert_ne).
  assert (total (<[c2:=f' c2]> f) m + f' c <= total f' m + f c)%nat; [|lia].
  apply H2. intros c' ? ?. destruct (decide (c' = c2)) as [->|]; [by rewrite fn_lookup_insert|].
  rewrite fn_lookup_insert_ne by done. auto.
Qed.

(** ** Blocked threads, and those who join a thread *)

(** When it is woken, the thread goes on with the test for the queue. *)
Definition back s t q : Prop :=
  context (threads s t) = Some (Resume (WaitLock q)) \/
  exists c, (c < n)%nat /\ stack s c = t /\ kont_of (at_ s c) = Some (Resume (WaitLock q)).

(** Someone is in the queue, or has failed the test and holds the lock of the queue. *)
Definition occupied s q : Prop :=
  waiters s q <> [] \/ exists c, (c < n)%nat /\ at_ s c = WaitEnqueue q.

Record sync s : Prop := Sync {
  sy_lock : lock_ok s;
  sy_back t q : t ∈ waiters s q -> st s t = Blocked -> back s t q;
  sy_joining c t : (c < n)%nat -> joining (at_ s c) = Some (Join t) ->
    at_ s c <> WaitEnqueue (Join t) -> st s t <> Dead;
  sy_join t : st s t = Dead -> occupied s (Join t) ->
    exists c, (c < n)%nat /\ wakes_all (Join t) (at_ s c)
}.

(** An action that changes no queue, and of the threads only what waiting does not
    depend on. *)
Record calmly s s' c p' : Prop := Calmly {
  ca_pc : at_ s' c = p';
  ca_pcs c' : c' <> c -> at_ s' c' = at_ s c';
  ca_cur c' : c' <> c -> cur s' c' = cur s c';
  ca_state t : phase (st s' t) = phase (st s t);
  ca_new t : st s t <> New -> st s' t <> New;
  ca_context t : st s t <> New -> forall k, context (threads s t) = Some k -> context (threads s' t) = Some k;
  ca_waiters : waiters s' = waiters s
}.

Lemma phase_blocked x : phase x = Blocked <-> x = Blocked.
Proof. by destruct x. Qed.
Lemma phase_blocking x : phase x = Blocking <-> x = Blocking.
Proof. by destruct x. Qed.
Lemma phase_dead x : phase x = Dead <-> x = Dead.
Proof. by destruct x. Qed.

Lemma stack_same s s' c : at_ s' c = at_ s c -> cur s' c = cur s c -> stack s' c = stack s c.
Proof. intros Hp Hc. unfold stack. by rewrite Hp, Hc. Qed.

Lemma back_keep s s' c t q :
  (forall c', c' <> c -> at_ s' c' = at_ s c' /\ cur s' c' = cur s c') ->
  (forall k, context (threads s t) = Some k -> context (threads s' t) = Some k) ->
  (forall k, (c < n)%nat -> kont_of (at_ s c) = Some k -> stack s c = t ->
     kont_of (at_ s' c) = Some k /\ stack s' c = t \/ context (threads s' t) = Some k) ->
  back s t q -> back s' t q.
Proof.
  intros Hothers Hctx Hthis [?|(c' & Hc' & Hst & Hk)]; [left; by apply Hctx|].
  destruct (decide (c' = c)) as [->|Hne].
  - destruct (Hthis _ Hc' Hk Hst) as [[? ?]|?]; [right; eauto|by left].
  - right. exists c'. destruct (Hothers c' Hne) as [Hp Hcur].
    rewrite (stack_same _ _ _ Hp Hcur), Hp. auto.
Qed.

Lemma sync_calmly s s' c p' :
  (c < n)%nat -> sync s -> calmly s s' c p' -> lock_change s s' c p' ->
  (forall t, joining p' = Some (Join t) -> st s t <> Dead) ->
  (forall t, wakes_all (Join t) (at_ s c) -> wakes_all (Join t) p' \/ ~ occupied s' (Join t)) ->
  (forall k, kont_of (at_ s c) = Some k -> kont_of p' = Some k /\ stack s' c = stack s c) ->
  sync s'.
Proof.
  intros Hc [Hl Hb Hj1 Hj2] [Hp Hpcs Hcur Hst _ Hctx Hw] Hlk Hj Hall Hk.
  assert (forall t, st s' t = Dead <-> st s t = Dead) as Hdead
    by (intros t; by rewrite <- (phase_dead (st s' t)), Hst, phase_dead).
  split.
  - by eapply lock_ok_change.
  - intros t q. rewrite Hw, <- phase_blocked, Hst, phase_blocked. intros Ht Hs.
    apply (back_keep s s' c); [|apply Hctx; congruence|rewrite Hp|by apply Hb].
    + intros c' Hne. split; [by apply Hpcs|by apply Hcur].
    + intros k _ Hkk <-. left. by apply Hk.
  - intros c' t Hc' Hp1 Hp2. rewrite Hdead. destruct (decide (c' = c)) as [->|Hne].
    + apply Hj. congruence.
    + rewrite Hpcs in Hp1, Hp2 by done. by apply (Hj1 c').
  - intros t Hs Hocc'. rewrite Hdead in Hs. pose proof Hocc' as Hocc. unfold occupied in Hocc. rewrite Hw in Hocc.
    destruct (Hj2 t Hs) as (c' & Hc' & Ha).
    + destruct Hocc as [?|(c' & Hc' & He)]; [by left|]. destruct (decide (c' = c)) as [->|Hne].
      * exfalso. apply (Hj t); [|done]. by rewrite <- Hp, He.
      * right. exists c'. by rewrite <- Hpcs.
    + exists c'. split; [done|]. destruct (decide (c' = c)) as [->|Hne]; [rewrite Hp; by destruct (Hall t Ha)|].
      by rewrite Hpcs.
Qed.

(** ** Actions of the scheduler alone *)

Record still s s' : Prop := Still {
  sl_state t : phase (st s' t) = phase (st s t);
  sl_new t : st s t <> New -> st s' t <> New;
  sl_context t : context (threads s' t) = context (threads s t);
  sl_pc c : at_ s' c = at_ s c;
  sl_cur c : cur s' c = cur s c;
  sl_waiters : waiters s' = waiters s;
  sl_owner : owner s' = owner s;
  sl_cond : cond s' = cond s
}.

#[local] Instance still_refl : Reflexive still.
Proof. by split. Qed.
#[local] Instance still_trans : Transitive still.
Proof. intros s1 s2 s3 [] []. split; intros; try (etrans; eauto); auto. Qed.

Lemma still_thread s t (f : Thread -> Thread) :
  phase (state (f (threads s t))) = phase (st s t) -> (st s t <> New -> state (f (threads s t)) <> New) ->
  context (f (threads s t)) = context (threads s t) -> still s (upd_thread t f s).
Proof. intros Hs Hnew Hctx. split; try done; intros t'; simpl; (destruct (decide (t' = t)) as [->|]; by look). Qed.

Lemma still_cpu s c (f : Cpu -> Cpu) :
  at_pc (f (cpus s c)) = at_ s c -> current (f (cpus s c)) = cur s c -> still s (upd_cpu c f s).
Proof. intros Hs Hctx. split; try done; intros c'; simpl; (destruct (decide (c' = c)) as [->|]; by look). Qed.

Lemma wlp_transition s t x Q :
  (transition_to (st s t) x = Some x -> Q true (upd_thread t (set_state x) s)) -> Q false s ->
  wlp (transition t x) s Q.
Proof.
  intros Hyes Hno. unfold transition. wlp_go. destruct (transition_to _ _) as [y|] eqn:Hx; wlp_go; [|done].
  assert (y = x) as -> by (by destruct (st s t), x; simplify_eq/=). by apply Hyes.
Qed.

Lemma wlp_must_become s t x Q :
  (transition_to (st s t) x = Some x -> Q tt (upd_thread t (set_state x) s)) -> wlp (must_become t x) s Q.
Proof.
  intros HQ. unfold must_become. wlp_go. apply wlp_transition; intros; wlp_go; [|done]. auto.
Qed.

(** A lock that is taken changes nothing. *)
Lemma wlp_locked s c l m Q :
  Q tt s -> (owner s l = None -> wlp m (set_owner l (Some c) s) Q) -> wlp (locked c l m) s Q.
Proof. intros Hspin Hm. unfold locked. wlp_go. destruct (owner s l) eqn:Ho; wlp_go; [done|]. by apply Hm. Qed.

Abbreviation stays m s := (wlp m s (fun _ s' => still s s')).

Lemma stays_link s c t : stays (link c t) s.
Proof.
  unfold link. wlp_go. etrans; [by apply (still_thread s t (set_run_node true))|]. by apply still_cpu.
Qed.

Lemma stays_enqueue s c t : stays (enqueue c t) s.
Proof.
  unfold enqueue. wlp_go. apply wlp_transition; [|by wlp_go]. intros Ht. wlp_go.
  eapply wlp_mono; [apply stays_link|]. intros [] s' Hs'. wlp_go. etrans; [|exact Hs'].
  apply still_thread; [|done..]. by destruct (st s t).
Qed.

Lemma stays_try_enqueue_woken s c t : stays (try_enqueue_woken c t) s.
Proof.
  unfold try_enqueue_woken, try_waking_to_ready. wlp_go. destruct (decide _) as [Ht|]; wlp_go; [|done].
  apply wlp_must_become. intros _. wlp_go.
  eapply wlp_mono; [apply stays_link|]. intros [] s' Hs'. wlp_go. etrans; [|exact Hs'].
  apply still_thread; [|done..]. simpl. by rewrite Ht.
Qed.

Lemma stays_next_or_idle s c : stays (next_or_idle c) s.
Proof.
  unfold next_or_idle, get_next. wlp_go. destruct (ready _) as [|t ts]; wlp_go; [done|].
  unfold dequeue. wlp_go. etrans; [by apply (still_thread s t (set_run_node false))|]. by apply still_cpu.
Qed.

(** ** Actions that leave waiting alone *)

Record smooth s s' c p' : Prop := Smooth {
  sm_calmly : calmly s s' c p';
  sm_lock : lock_change s s' c p';
  sm_stack : stack s' c = stack s c;
  sm_joining : joining p' = None;
  sm_all q : wakes_all q (at_ s c) -> wakes_all q p';
  sm_kont k : kont_of (at_ s c) = Some k -> kont_of p' = Some k;
  sm_wakes q : (wakes_at q (st s (stack s c)) (at_ s c) <= wakes_at q (st s (stack s c)) p')%nat
}.

Lemma sync_smooth s s' c p' : (c < n)%nat -> sync s -> smooth s s' c p' -> sync s'.
Proof.
  intros Hc Hs [Hca Hlk Hst Hj Hall Hk _]. eapply sync_calmly; try done; [congruence|auto..].
Qed.

(** The pc goes on to [p'] after actions of the scheduler. *)
Lemma smooth_any s s1 s' c p' :
  still s s1 -> threads s' = threads s1 -> waiters s' = waiters s1 ->
  (forall c', c' <> c -> cpus s' c' = cpus s1 c') -> at_ s' c = p' -> stack s' c = stack s c ->
  lock_change s s' c p' -> joining p' = None ->
  (forall q, wakes_all q (at_ s c) -> wakes_all q p') ->
  (forall k, kont_of (at_ s c) = Some k -> kont_of p' = Some k) ->
  (forall q, wakes_at q (st s (stack s c)) (at_ s c) <= wakes_at q (st s (stack s c)) p')%nat ->
  smooth s s' c p'.
Proof.
  intros [Hst Hnew Hctx Hpc Hcur Hw Ho _] Ht Hws Hcs Hp Hstk Hlk Hj Hall Hk Hwk. split; try done.
  split; [done|by intros; rewrite Hcs by done..| | | |by rewrite Hws]; rewrite Ht; [done..|].
  intros t _ k. by rewrite Hctx.
Qed.

Lemma smooth_goto s s1 c p' :
  still s s1 -> (forall s', at_ s' c = p' -> cur s' c = cur s c -> stack s' c = stack s c) ->
  held p' = held (at_ s c) -> joining p' = None ->
  (forall q, wakes_all q (at_ s c) -> wakes_all q p') ->
  (forall k, kont_of (at_ s c) = Some k -> kont_of p' = Some k) ->
  (forall q, wakes_at q (st s (stack s c)) (at_ s c) <= wakes_at q (st s (stack s c)) p')%nat ->
  smooth s (upd_cpu c (set_pc p') s1) c p'.
Proof.
  intros Hs1 Hstk Hh Hj Hall Hk Hwk. eapply smooth_any; try done; intros; try by look.
  - apply Hstk; look; [done|apply Hs1].
  - apply Keep; [|done]. intros l. simpl. by rewrite (sl_owner _ _ Hs1).
Qed.

Abbreviation smoothly c m s :=
  (wlp m s (fun _ s' => s' = s \/ cond s' = cond s /\ exists p', smooth s s' c p')).

(** Take updates of the scheduler apart. *)
Ltac still_go :=
  repeat match goal with
  | |- still _ (upd_cpu _ _ _) => etrans; [|by apply still_cpu]
  | |- still _ (upd_thread _ _ _) => etrans; [|by apply still_thread]
  end; try done.

(** The state reached is [goto] after [Hs1 : still s s1]. *)
Ltac goes p' :=
  right; split; [try done|exists p'; apply smooth_goto;
    [still_go|let s2 := fresh in let Hp := fresh in let Hc := fresh in
      intros s2 Hp Hc; unfold stack; rewrite Hp; try done|try done..]].

Section smooth_steps.
Variables (s : Kernel) (c : cid).
Hypothesis Hinv : inv n s.
Hypothesis Hc : (c < n)%nat.

Lemma smooth_still s2 : still s s2 -> joining (at_ s c) = None -> smooth s s2 c (at_ s c).
Proof.
  intros [Hst Hnew Hctx Hpc Hcur Hw Ho _] Hj. split; try done.
  - split; try done; try (by intros). intros t _ k. by rewrite Hctx.
  - apply Keep; [|done]. by rewrite Ho.
  - by apply stack_same.
Qed.

Lemma smooth_tick ms : interruptible (at_ s c) = true -> smoothly c (tick c ms) s.
Proof.
  intros Hi. unfold tick. destruct (ms =? 0); wlp_go; [by left|]. cbv zeta. wlp_go. unfold when.
  destruct (_ <=? _); wlp_go; right; (split; [done|]); exists (at_ s c);
    (apply smooth_still; [still_go|by destruct (at_ s c)]).
Qed.

Lemma smooth_preempt : preemptible (at_ s c) = true -> smoothly c (goto c (Sched (at_ s c))) s.
Proof.
  intros Hi. wlp_go. goes (Sched (at_ s c)); destruct (at_ s c) as [| | | | | | | | | | | | | | | | |q [] []| | | |o []| |]; try done.
Qed.

Lemma smooth_irq o : interruptible (at_ s c) = true ->
  smoothly c (goto c (OpLock o (IrqReturn (at_ s c)))) s.
Proof.
  intros Hi. wlp_go. goes (OpLock o (IrqReturn (at_ s c))); destruct (at_ s c) as [| | | | | | | | | | | | | | | | |q [] []| | | | | |]; try done.
Qed.

(** In a pc of this kind the wake-ups are those of [wakes]. *)
Definition flat p : bool :=
  match p with
  | Pick (Resume _) | Start _ _ | Prepare _ _ | Switch _ _
  | WaitHold _ | WaitDrop _ | WaitEnqueue _ | WaitCommit _ => false
  | _ => true
  end.
Lemma flat_wakes q x p : flat p = true -> wakes_at q x p = wakes q p.
Proof. by destruct p as [| | | | | | | | | |[]| | | | | | | | | | | | |]. Qed.
Lemma flat_joining p : flat p = true -> joining p = None.
Proof. by destruct p. Qed.
Lemma frame_flat t r : frame n s t r -> flat r = true.
Proof. by destruct r as [| | | | | | | | | |[]| | | | | | | | | | | | |]. Qed.
Lemma interruptible_flat r : interruptible r = true -> flat r = true.
Proof. by destruct r. Qed.
Lemma resume_flat t r : resume_ok n s t r -> flat r = true /\ held r = [].
Proof. by destruct r as [| | | | | | | | | | | | | | | | |q all []| | | |o []| |]. Qed.
Lemma flat_stack s2 r : flat r = true -> at_ s2 c = r -> stack s2 c = cur s2 c.
Proof. intros Hr Hs. unfold stack. rewrite Hs. by destruct r. Qed.

(** From one pc of this kind to another. *)
Lemma smooth_flat s1 s' p' :
  still s s1 -> threads s' = threads s1 -> waiters s' = waiters s1 ->
  (forall c', c' <> c -> cpus s' c' = cpus s1 c') -> at_ s' c = p' -> cur s' c = cur s c ->
  flat (at_ s c) = true -> kont_of (at_ s c) = None -> flat p' = true -> lock_change s s' c p' ->
  (forall q, wakes_all q (at_ s c) -> wakes_all q p') ->
  (forall q, wakes q (at_ s c) <= wakes q p')%nat -> smooth s s' c p'.
Proof.
  intros Hs1 Ht Hw Hcs Hp Hcur Hf Hk Hf' Hlk Hall Hwk. apply (smooth_any s s1); try done.
  - rewrite (flat_stack s' p'), (flat_stack s (at_ s c)) by done. done.
  - by apply flat_joining.
  - congruence.
  - intros q. by rewrite !flat_wakes.
Qed.

Lemma smooth_flat_goto s1 p' :
  still s s1 -> flat (at_ s c) = true -> kont_of (at_ s c) = None -> flat p' = true ->
  held p' = held (at_ s c) -> (forall q, wakes_all q (at_ s c) -> wakes_all q p') ->
  (forall q, wakes q (at_ s c) <= wakes q p')%nat -> smooth s (upd_cpu c (set_pc p') s1) c p'.
Proof.
  intros Hs1 Hf Hk Hf' Hh Hall Hwk. eapply smooth_flat; try done; intros; look; try done; [apply Hs1|].
  apply Keep; [|done]. intros l. simpl. by rewrite (sl_owner _ _ Hs1).
Qed.

Ltac flat_to r Hp :=
  right; split; [first [done|match goal with Hs : still _ _ |- _ => exact (sl_cond _ _ Hs) end]|
    exists r; apply smooth_flat_goto; rewrite ?Hp; try done; try still_go; try (intros; simpl; lia)].

Lemma smooth_irq_return r : at_ s c = IrqReturn r -> smoothly c (goto c r) s.
Proof.
  intros Hp. pose proof (at_ok n s c Hinv Hc) as Hok. rewrite Hp in Hok. destruct Hok as [Hr _].
  apply interruptible_flat in Hr. wlp_go. flat_to r Hp.
Qed.

Lemma smooth_schedule r : at_ s c = Sched r -> smoothly c (schedule c r) s.
Proof.
  intros Hp. pose proof (at_ok n s c Hinv Hc) as Hok. rewrite Hp in Hok. destruct Hok as [_ Hr].
  apply resume_flat in Hr as [Hf Hh]. unfold schedule. wlp_go.
  eapply wlp_mono; [apply stays_next_or_idle|]. intros next s1 Hs1. simpl in Hs1.
  assert (still s s1) as Hs1' by (etrans; [|exact Hs1]; by apply still_cpu).
  case_decide; wlp_go; [flat_to r Hp|flat_to (SchedPut next r) Hp].
Qed.

Lemma smooth_schedule_put next r : at_ s c = SchedPut next r -> smoothly c (schedule_put c next r) s.
Proof.
  intros Hp. pose proof (at_ok n s c Hinv Hc) as Hok. rewrite Hp in Hok. destruct Hok as (Hrun & _).
  unfold schedule_put. wlp_go. case_decide; wlp_go.
  - apply wlp_must_become. intros _. wlp_go. flat_to (SchedStart next r) Hp.
    apply still_thread; [|done..]. by rewrite Hrun.
  - eapply wlp_mono; [apply stays_enqueue|]. intros ok s1 Hs1. simpl in Hs1. wlp_go.
    flat_to (SchedStart next r) Hp.
Qed.

Lemma chosen_phase next : chosen s c next -> phase (st s next) = Running.
Proof. by intros [[->|[-> _]] _]. Qed.

Ltac hand p' Hp :=
  right; split; [first [done|match goal with Hs : still _ _ |- _ => exact (sl_cond _ _ Hs) end]|
    exists p'; apply smooth_goto; [try done|
      let s2 := fresh in let Hp2 := fresh in
      intros s2 Hp2 ?; unfold stack; rewrite Hp2, Hp; done|
      unfold stack; rewrite ?Hp; try done..]].

Lemma smooth_schedule_start next r : at_ s c = SchedStart next r -> smoothly c (schedule_start c next r) s.
Proof.
  intros Hp. pose proof (at_ok n s c Hinv Hc) as Hok. rewrite Hp in Hok. destruct Hok as (Hpre & Hch).
  unfold schedule_start. wlp_go. apply wlp_must_become. intros _. wlp_go. hand (Prepare next (Resume r)) Hp.
  - apply still_thread; [|done..]. by rewrite (chosen_phase next).
  - intros q. simpl. case_decide as Hb; [|done].
    destruct Hpre as [[(Hs & _)|(Hs & _)] _]; rewrite Hs in Hb; done.
Qed.

Lemma smooth_pick k : at_ s c = Pick k -> smoothly c (pick c k) s.
Proof.
  intros Hp. unfold pick. wlp_go. destruct k; wlp_go;
    (eapply wlp_mono; [apply stays_next_or_idle|]); intros next s1 Hs1; simpl in Hs1; wlp_go.
  - hand (Start next (Resume r)) Hp.
  - assert (still s s1) by (etrans; [|exact Hs1]; still_go). clear Hs1. hand (Start next Exited) Hp.
Qed.

Lemma smooth_start_next next k : at_ s c = Start next k -> smoothly c (start_next c next k) s.
Proof.
  intros Hp. pose proof (at_ok n s c Hinv Hc) as Hok. rewrite Hp in Hok. destruct Hok as (_ & Hch).
  unfold start_next. wlp_go. apply wlp_must_become. intros _.
  assert (still s (upd_thread next (set_state Running) s)) as Hs1.
  { apply still_thread; [|done..]. by rewrite (chosen_phase next). }
  destruct k; wlp_go; [hand (Prepare next (Resume r)) Hp|hand (Prepare next Exited) Hp].
  etrans; [exact Hs1|]. by apply still_cpu.
Qed.

Lemma smooth_prepare next k : at_ s c = Prepare next k -> smoothly c (prepare_switch c next k) s.
Proof.
  intros Hp. unfold prepare_switch. wlp_go. cbv zeta. wlp_go. right. split; [done|].
  exists (Switch (cur s c) k). split; try (rewrite ?Hp; done).
  - split; look; try done; try (by intros c' Hne; look); intros t;
      (destruct (decide (t = next)) as [->|]; by look).
  - apply Keep; [done|]. by rewrite Hp.
  - unfold stack. look. by rewrite Hp.
Qed.

Lemma smooth_finish_previous t r : at_ s c = FinishPrev t r -> smoothly c (finish_previous c t r) s.
Proof.
  intros Hp. unfold finish_previous. wlp_go.
  eapply wlp_mono; [apply stays_try_enqueue_woken|]. intros ok s1 Hs1. simpl in Hs1. unfold when.
  destruct ok; wlp_go; flat_to (FinishExit r) Hp.
Qed.

Lemma smooth_finish_exit r : at_ s c = FinishExit r -> smoothly c (finish_exit c r) s.
Proof.
  intros Hp. pose proof (at_ok n s c Hinv Hc) as Hok. rewrite Hp in Hok. destruct Hok as [_ Hr].
  apply resume_flat in Hr as [Hf Hh]. unfold finish_exit. wlp_go.
  destruct (pending_exit _); wlp_go; flat_to r Hp.
Qed.

Lemma smooth_finish r : at_ s c = Finish r -> smoothly c (finish_switch c r) s.
Proof.
  intros Hp. unfold finish_switch. wlp_go. destruct (previous _) as [prev|]; wlp_go;
    [flat_to (FinishPrev prev r) Hp|flat_to (FinishExit r) Hp].
Qed.

(** The lock at the head of those held is released. *)
Lemma smooth_drop s1 l r :
  still s s1 -> flat (at_ s c) = true -> kont_of (at_ s c) = None -> flat r = true ->
  held (at_ s c) = l :: held r -> (forall q, wakes_all q (at_ s c) -> wakes_all q r) ->
  (forall q, wakes q (at_ s c) <= wakes q r)%nat ->
  smooth s (upd_cpu c (set_pc r) (set_owner l None s1)) c r.
Proof.
  intros Hs1 Hf Hk Hf' Hh Hall Hwk. eapply smooth_flat; try done; intros; look; try done; [apply Hs1|].
  apply (Drop _ _ _ _ l); simpl; [by look| |by rewrite Hh].
  intros l' Hl'. look. by rewrite (sl_owner _ _ Hs1).
Qed.

Lemma smooth_wake_more s1 q all r :
  still s s1 -> flat (at_ s c) = true -> kont_of (at_ s c) = None -> flat r = true ->
  held (at_ s c) = Waiters q :: held r ->
  (forall q', wakes_all q' (at_ s c) -> wakes_all q' (WakeNext q all r)) ->
  (forall q', wakes q' (at_ s c) <= wakes q' r)%nat ->
  wlp (wake_more c q all r) s1 (fun _ s' => s' = s \/ cond s' = cond s /\ exists p', smooth s s' c p').
Proof.
  intros Hs1 Hf Hk Hf' Hh Hall Hwk. unfold wake_more, wake_done.
  destruct all; wlp_go; right; (split; [exact (sl_cond _ _ Hs1)|]).
  - exists (WakeNext q true r). by apply smooth_flat_goto.
  - exists r. apply smooth_drop; try done. intros q' Hq'. by apply Hall in Hq'.
Qed.

Lemma smooth_wake_load q t all r : at_ s c = WakeLoad q t all r -> smoothly c (wake_load c q t all r) s.
Proof.
  intros Hp. pose proof (at_ok n s c Hinv Hc) as Hok. rewrite Hp in Hok. destruct Hok as [Hr _].
  apply frame_flat in Hr. unfold wake_load. wlp_go. destruct (on_cpu _).
  - apply smooth_wake_more; rewrite ?Hp; done.
  - wlp_go. flat_to (WakePut q t all r) Hp.
Qed.

Lemma smooth_wake_put q t all r : at_ s c = WakePut q t all r -> smoothly c (wake_put c q t all r) s.
Proof.
  intros Hp. pose proof (at_ok n s c Hinv Hc) as Hok. rewrite Hp in Hok. destruct Hok as [Hr _].
  apply frame_flat in Hr. unfold wake_put. wlp_go.
  eapply wlp_mono; [apply stays_try_enqueue_woken|]. intros ok s1 Hs1. simpl in Hs1. unfold when.
  destruct ok; wlp_go; apply smooth_wake_more; rewrite ?Hp; try done.
  etrans; [exact Hs1|]. by apply still_cpu.
Qed.

Lemma smooth_wake_lock q all r : at_ s c = WakeLock q all r -> smoothly c (wake_lock c q all r) s.
Proof.
  intros Hp. apply wlp_locked; [by left|]. intros Ho. wlp_go. right. split; [done|].
  exists (WakeNext q all r). eapply smooth_flat; rewrite ?Hp; try done; intros; look; try done.
  apply (Take _ _ _ _ (Waiters q)); simpl; [done|by look|by intros; look|by rewrite Hp].
Qed.

Lemma smooth_op_unlock o r : at_ s c = OpUnlock o r -> smoothly c (op_unlock c o r) s.
Proof.
  intros Hp. pose proof (at_ok n s c Hinv Hc) as Hok. rewrite Hp in Hok. destruct Hok as [Hr _].
  apply frame_flat in Hr. unfold op_unlock. wlp_go. right. split; [done|]. exists r.
  apply smooth_drop; rewrite ?Hp; try done.
Qed.

Lemma smooth_run e : at_ s c = Run -> smoothly c (run_thread c e) s.
Proof.
  intros Hp. unfold run_thread. wlp_go. case_decide; wlp_go; [by left|].
  destruct e as [| |[t|m]| |o|t|t|o|ms]; wlp_go; try (by left).
  - case_decide; wlp_go; [by left|]. case_decide; wlp_go; [by left|]. flat_to (WaitLock (Join t)) Hp.
  - flat_to (WaitLock (Queue m)) Hp.
  - flat_to (Exit (H := H)) Hp.
  - flat_to (OpLock o Run) Hp.
  - case_decide as Hs; wlp_go; [|by left]. apply wlp_must_become. intros _. wlp_go. right. split; [done|].
    exists Run. split; rewrite ?Hp; try done; [|by apply Keep; rewrite ?Hp].
    split; simpl; try done; intros t'; (destruct (decide (t' = t)) as [->|]; look; try done).
    by rewrite Hs.
  - case_decide; wlp_go; [|by left].
    eapply wlp_mono; [apply stays_enqueue|]. intros ok s1 Hs1. simpl in Hs1. wlp_go. right.
    split; [by apply sl_cond|]. exists (at_ s c). apply smooth_still; [done|by rewrite Hp].
Qed.
End smooth_steps.

(** ** The number of wake-ups *)

Lemma supply_nonpos q s (k : Z) : k <= 0 -> supply q s k.
Proof. intros Hk. exists []. split_and!; [constructor|by intros t ?%not_elem_of_nil|simpl; lia]. Qed.

(** One processor changes; who is switched off stays so. *)
Lemma supply_change q s s' c (k k' : Z) :
  (c < n)%nat -> (forall c', (c' < n)%nat -> c' <> c -> (wakes_on q s c' <= wakes_on q s' c')%nat) ->
  (forall t, wakes_off q s t -> wakes_off q s' t) ->
  k' + Z.of_nat (wakes_on q s c) <= k + Z.of_nat (wakes_on q s' c) -> supply q s k -> supply q s' k'.
Proof.
  intros Hc Hcs Hoff Hk (ts & Hnd & Hts & Hle). exists ts. split_and!; [done|by auto|].
  pose proof (total_change (wakes_on q s) (wakes_on q s') n c Hc Hcs). lia.
Qed.

(** Another one gains a wake-up. *)
Lemma supply_gain_on q s s' c c2 (k k' : Z) :
  (c < n)%nat -> (c2 < n)%nat -> c <> c2 ->
  (forall c', (c' < n)%nat -> c' <> c -> c' <> c2 -> (wakes_on q s c' <= wakes_on q s' c')%nat) ->
  (wakes_on q s c2 + 1 <= wakes_on q s' c2)%nat -> (forall t, wakes_off q s t -> wakes_off q s' t) ->
  k' + Z.of_nat (wakes_on q s c) <= k + Z.of_nat (wakes_on q s' c) + 1 -> supply q s k -> supply q s' k'.
Proof.
  intros Hc Hc2 Hne Hcs Hgain Hoff Hk (ts & Hnd & Hts & Hle). exists ts. split_and!; [done|by auto|].
  pose proof (total_two (wakes_on q s) (wakes_on q s') n c c2 Hc Hc2 Hne Hcs). lia.
Qed.

(** A thread that is switched off gains one. *)
Lemma supply_gain_off q s s' c t0 (k k' : Z) :
  (c < n)%nat -> (forall c', (c' < n)%nat -> c' <> c -> (wakes_on q s c' <= wakes_on q s' c')%nat) ->
  ~ wakes_off q s t0 -> wakes_off q s' t0 -> (forall t, wakes_off q s t -> wakes_off q s' t) ->
  k' + Z.of_nat (wakes_on q s c) <= k + Z.of_nat (wakes_on q s' c) + 1 -> supply q s k -> supply q s' k'.
Proof.
  intros Hc Hcs Hno Hyes Hoff Hk (ts & Hnd & Hts & Hle). exists (t0 :: ts).
  split_and!; [|by intros t [->|?]%elem_of_cons; auto|].
  - constructor; [|done]. intros Hin. by apply Hno, Hts.
  - pose proof (total_change (wakes_on q s) (wakes_on q s') n c Hc Hcs). simpl. lia.
Qed.

(** A processor takes a thread up and leaves another one. *)
Lemma supply_switch q s s' c old new (k : Z) :
  (c < n)%nat -> (forall c', (c' < n)%nat -> c' <> c -> (wakes_on q s c' <= wakes_on q s' c')%nat) ->
  (forall t, t <> new -> wakes_off q s t -> wakes_off q s' t) ->
  (wakes_off q s new -> (1 <= wakes_on q s' c)%nat) ->
  (wakes_on q s c = 0%nat \/ wakes_on q s c = 1%nat /\ ~ wakes_off q s old /\ wakes_off q s' old) ->
  supply q s k -> supply q s' k.
Proof.
  intros Hc Hcs Hoff Hnew Hold (ts & Hnd & Hts & Hle).
  pose proof (total_change (wakes_on q s) (wakes_on q s') n c Hc Hcs) as Htot.
  assert (exists ts', NoDup ts' /\ (forall t, t ∈ ts' -> wakes_off q s' t /\ wakes_off q s t) /\
    (length ts <= length ts' + wakes_on q s' c)%nat) as (ts' & Hnd' & Hts' & Hlen).
  { destruct (decide (new ∈ ts)) as [Hin|Hnin].
    - destruct (elem_of_Permutation ts new) as [(ts' & Hp) _]; [done|]. exists ts'.
      rewrite Hp in Hnd. apply NoDup_cons in Hnd as [Hnin Hnd']. split_and!; [done| |].
      + intros t Ht. assert (wakes_off q s t) by (apply Hts; rewrite Hp; by right).
        split; [|done]. apply Hoff; [by intros ->|done].
      + rewrite Hp. simpl. pose proof (Hnew (Hts new ltac:(rewrite Hp; by left))). lia.
    - exists ts. split_and!; [done| |lia]. intros t Ht. split; [|auto]. apply Hoff; [by intros ->|auto]. }
  destruct Hold as [H0|(H1 & Hno & Hyes)].
  - exists ts'. split_and!; [done|by intros t []%Hts'|lia].
  - exists (old :: ts'). split_and!.
    + constructor; [|done]. intros Hin. by apply Hno, Hts'.
    + intros t [->|Ht]%elem_of_cons; [done|by apply Hts'].
    + simpl. lia.
Qed.
End sync.
