(* ===== verification/ThreadsWake.v ===== *)
(** * No wake-up is lost

    The actions of waiting itself, and what follows for conditions that count. *)

From stdpp Require Import base tactics list sets functions relations.
From S2P Require Import Prelude CMonad Threads ThreadsInv ThreadsSteps ThreadsFacts ThreadsSync.
Local Open Scope Z_scope.

(** A condition that counts: each test that holds uses up one of [cap], and an
    operation that adds one wakes one thread, under the lock of the condition. *)
Class Counts `{Client} (m : nat) (cap : cstate -> Z) : Prop := {
  cap_fail x : is_satisfied m x = None -> cap x <= 0;
  cap_take x x1 x2 : is_satisfied m x = Some x1 -> after_wait m x1 = Some x2 -> cap x2 <= Z.max 0 (cap x - 1);
  cap_other m' x x1 x2 : m' <> m -> is_satisfied m' x = Some x1 -> after_wait m' x1 = Some x2 ->
    cap x2 <= cap x;
  cap_op o x x' w : op_run o x = (x', w) ->
    cap x' <= cap x \/ op_lock o = cond_lock m /\ w = Some (m, false) /\ cap x' <= cap x + 1
}.

Section wake.
Context `{Client} (n : nat).
Implicit Types (s : Kernel) (c : cid) (t : tid) (p r : pc) (k : kont) (q : queue) (l : lock).
Abbreviation st s t := (state (threads s t)).
Abbreviation cur s c := (current (cpus s c)).
Abbreviation at_ s c := (at_pc (cpus s c)).

Abbreviation smoothly c m s :=
  (wlp m s (fun _ s' => s' = s \/ cond s' = cond s /\ exists p', smooth s s' c p')).

(** ** The test *)

(** The condition of the queue does not hold. *)
Definition fails s q : Prop :=
  match q with Join t => st s t <> Dead | Queue m => is_satisfied m (cond s) = None end.

(** It holds, and the caller uses it. *)
Definition takes s s' q : Prop :=
  match q with
  | Join t => cond s' = cond s
  | Queue m => exists x, is_satisfied m (cond s) = Some x /\ after_wait m x = Some (cond s')
  end.

Lemma wlp_satisfied s q (Q : bool -> Kernel -> Prop) :
  (forall x, takes s (set_cond x s) q -> Q true (set_cond x s)) -> (fails s q -> Q false s) ->
  wlp (satisfied q) s Q.
Proof.
  intros Hyes Hno. unfold satisfied. destruct q as [t|m]; wlp_go.
  - case_bool_decide; [|by apply Hno]. replace s with (set_cond (cond s) s) by by destruct s. by apply Hyes.
  - destruct (is_satisfied m (cond s)) as [x|] eqn:Hx; wlp_go; [|by apply Hno].
    apply wlp_of_option. intros y Hy. wlp_go. apply Hyes. by exists x.
Qed.

Lemma wait_lock_to s c q : at_ s c = WaitLock q ->
  wlp (wait_lock c q) s (fun _ s' => s' = s \/ owner s (condition_lock q) = None /\
    (calmly s s' c Run /\ lock_change s s' c Run /\ takes s s' q \/
     calmly s s' c (WaitHold q) /\ lock_change s s' c (WaitHold q) /\ cond s' = cond s /\ fails s q)).
Proof.
  intros Hp. apply wlp_locked; [by left|]. intros Ho. wlp_go.
  apply wlp_satisfied; [intros x Hx|intros Hx]; wlp_go; right; (split; [done|]).
  - left. split_and!; [split; intros; look; try done| |by destruct q].
    apply Keep; [|by rewrite Hp]. intros l. simpl.
    destruct (decide (l = condition_lock q)) as [->|]; by look.
  - right. split_and!; [split; intros; look; try done| |done|by destruct q].
    apply (Take _ _ _ _ (condition_lock q)); simpl; [done|by look|by intros; look|by rewrite Hp].
Qed.

Lemma wait_hold_to s c q : at_ s c = WaitHold q ->
  wlp (wait_hold c q) s (fun _ s' => s' = s \/
    calmly s s' c (WaitDrop q) /\ lock_change s s' c (WaitDrop q) /\ cond s' = cond s).
Proof.
  intros Hp. apply wlp_locked; [by left|]. intros Ho. wlp_go. right.
  split_and!; [split; intros; look; try done| |done].
  apply (Take _ _ _ _ (Waiters q)); simpl; [done|by look|by intros; look|]. rewrite Hp. apply Permutation_swap.
Qed.

Lemma wait_drop_to s c q : at_ s c = WaitDrop q ->
  wlp (wait_drop c q) s (fun _ s' =>
    calmly s s' c (WaitEnqueue q) /\ lock_change s s' c (WaitEnqueue q) /\ cond s' = cond s).
Proof.
  intros Hp. unfold wait_drop. wlp_go. split_and!; [split; intros; look; try done| |done].
  apply (Drop _ _ _ _ (condition_lock q)); simpl; [by look|by intros; look|by rewrite Hp].
Qed.

(** Where an operation goes on after it has changed the state. *)
Definition op_next (o : op) r (w : option (nat * bool)) : pc :=
  let r := if op_hold o then OpUnlock o r else r in
  match w with Some (q, all) => WakeLock (Queue q) all r | None => r end.

Lemma op_lock_to s c o r : at_ s c = OpLock o r ->
  wlp (op_lock_run c o r) s (fun _ s' => s' = s \/ owner s (Cond (op_lock o)) = None /\
    exists w, op_run o (cond s) = (cond s', w) /\
      calmly s s' c (op_next o r w) /\ lock_change s s' c (op_next o r w)).
Proof.
  intros Hp. apply wlp_locked; [by left|]. intros Ho. wlp_go. simpl.
  destruct (op_run o (cond s)) as [x w] eqn:Hx. wlp_go. cbv zeta. unfold op_next.
  destruct (op_hold o); wlp_go; right; (split; [done|]); exists w; simpl; (split; [done|]);
    (split; [split; intros; look; try done|]).
  - apply (Take _ _ _ _ (Cond (op_lock o))); simpl; [done|by look|by intros; look|].
    rewrite Hp. by destruct w as [[]|].
  - apply Keep; [|by rewrite Hp; destruct w as [[]|]]. intros l. simpl.
    destruct (decide (l = Cond (op_lock o))) as [->|]; by look.
Qed.

(** ** These actions keep [sync] *)

Section one_step.
Variables (s : Kernel) (c : cid).
Hypothesis Hinv : inv n s.
Hypothesis Hc : (c < n)%nat.
Hypothesis Hs : sync n s.

Abbreviation syncs m := (wlp m s (fun _ s' => sync n s')).

Lemma sync_smoothly (m : M Kernel unit) : smoothly c m s -> syncs m.
Proof.
  intros Hm. eapply wlp_mono; [exact Hm|]. intros _ s' [->|(_ & p' & Hp')]; [done|].
  by eapply sync_smooth.
Qed.

Lemma sync_wait_lock q : at_ s c = WaitLock q -> syncs (wait_lock c q).
Proof.
  intros Hp. eapply wlp_mono; [by apply wait_lock_to|].
  intros [] s' [->|(_ & [(? & ? & _)|(? & ? & _ & Hf)])]; [done|..];
    (eapply (sync_calmly n s s' c); try done; rewrite ?Hp; try done).
  intros t [= ->]. done.
Qed.

Lemma sync_wait_hold q : at_ s c = WaitHold q -> syncs (wait_hold c q).
Proof.
  intros Hp. eapply wlp_mono; [by apply wait_hold_to|]. intros [] s' [->|(? & ? & _)]; [done|].
  eapply (sync_calmly n s s' c); try done; rewrite ?Hp; try done.
  intros t [= ->]. eapply (sy_joining _ _ Hs c); rewrite ?Hp; done.
Qed.

Lemma sync_wait_drop q : at_ s c = WaitDrop q -> syncs (wait_drop c q).
Proof.
  intros Hp. eapply wlp_mono; [by apply wait_drop_to|]. intros [] s' (? & ? & _).
  eapply (sync_calmly n s s' c); try done; rewrite ?Hp; try done.
  intros t [= ->]. eapply (sy_joining _ _ Hs c); rewrite ?Hp; done.
Qed.

Lemma op_next_flat t o r w : frame n s t r -> flat (op_next o r w) = true.
Proof.
  intros Hr. unfold op_next. destruct w as [[]|]; [done|]. destruct (op_hold o); [done|by eapply frame_flat].
Qed.

Lemma sync_op_lock o r : at_ s c = OpLock o r -> syncs (op_lock_run c o r).
Proof.
  intros Hp. pose proof (at_ok n s c Hinv Hc) as Hok. rewrite Hp in Hok. destruct Hok as [Hr _].
  eapply wlp_mono; [by apply op_lock_to|]. intros [] s' [->|(_ & w & _ & ? & ?)]; [done|].
  eapply (sync_calmly n s s' c); try done; rewrite ?Hp; try done.
  intros t. by rewrite (flat_joining _ (op_next_flat _ o r w Hr)).
Qed.
End one_step.

(** ** One thread changes *)

Record changes s s' c p' t0 x' : Prop := Changes {
  ch_pc : at_ s' c = p';
  ch_pcs c' : c' <> c -> at_ s' c' = at_ s c';
  ch_cur c' : cur s' c' = cur s c';
  ch_state : st s' t0 = x';
  ch_states t : t <> t0 -> st s' t = st s t;
  ch_context t : context (threads s' t) = context (threads s t);
  ch_cond : cond s' = cond s
}.

Lemma sync_changes s s' c p' t0 x' :
  (c < n)%nat -> sync n s -> changes s s' c p' t0 x' -> lock_change s s' c p' ->
  kont_of (at_ s c) = None -> joining p' = None -> st s t0 <> Dead ->
  (x' = Dead -> owner s (Inner t0) = None /\ wakes_all (Join t0) p') ->
  (forall t q, t ∈ waiters s' q -> t ∈ waiters s q \/ t = t0) ->
  (x' = Blocked -> forall q, t0 ∈ waiters s' q -> back n s' t0 q) ->
  (forall t, waiters s' (Join t) <> [] -> occupied n s (Join t)) ->
  (forall t, wakes_all (Join t) (at_ s c) -> wakes_all (Join t) p' \/ ~ occupied n s' (Join t)) ->
  sync n s'.
Proof.
  intros Hc [Hl Hb Hj1 Hj2] [Hp Hpcs Hcur Hst Hsts Hctx _] Hlk Hk Hj Hnd Hdead Hw Hblk Hocc Hall.
  assert (forall t, occupied n s' (Join t) -> occupied n s (Join t)) as Hocc'.
  { intros t [?|(c' & Hc' & Hq)]; [by apply Hocc|]. right. exists c'.
    destruct (decide (c' = c)) as [->|]; [rewrite Hp in Hq; by rewrite Hq in Hj|]. by rewrite <- Hpcs. }
  split.
  - by eapply lock_ok_change.
  - intros t q Ht Hs'. destruct (decide (t = t0)) as [->|Hne]; [apply Hblk; [congruence|done]|].
    destruct (Hw t q Ht) as [Ht'|?]; [|done]. rewrite Hsts in Hs' by done.
    apply (back_keep n s s' c); [by auto|by intros k; rewrite Hctx|congruence|by auto].
  - intros c' t Hc' Hp1 Hp2 Hs'. destruct (decide (c' = c)) as [->|Hne]; [congruence|].
    rewrite Hpcs in Hp1, Hp2 by done. destruct (decide (t = t0)) as [->|Ht].
    + destruct Hdead as [Ho _]; [congruence|].
      assert (owner s (Inner t0) = Some c'); [|congruence]. apply (lk_owner _ _ Hl). split; [done|].
      destruct (at_ s c'); simplify_eq/=; by left.
    + rewrite Hsts in Hs' by done. by apply (Hj1 c' t).
  - intros t Hs' Ho. destruct (decide (t = t0)) as [->|Ht].
    + exists c. rewrite Hp. split; [done|]. apply Hdead. congruence.
    + rewrite Hsts in Hs' by done. destruct (Hj2 t Hs' (Hocc' t Ho)) as (c' & Hc' & Ha).
      exists c'. split; [done|]. destruct (decide (c' = c)) as [->|]; [|by rewrite Hpcs].
      rewrite Hp. by destruct (Hall t Ha).
Qed.

(** What the actions of waiting do. *)
Lemma exit_to s c : at_ s c = Exit ->
  wlp (exit_current c) s (fun _ s' => s' = s \/
    let p' := WakeLock (Join (cur s c)) true (Pick Exited) in
    owner s (Inner (cur s c)) = None /\ changes s s' c p' (cur s c) Dead /\ lock_change s s' c p' /\
    waiters s' = waiters s).
Proof.
  intros Hp. unfold exit_current. wlp_go. apply wlp_locked; [by left|]. intros Ho. wlp_go.
  apply wlp_must_become. intros _. wlp_go. right. split_and!; [done| | |done].
  - split; intros; look; try done.
    + destruct (decide (c' = c)) as [->|]; by look.
    + destruct (decide (t = cur s c)) as [->|]; by look.
  - apply Keep; [|by rewrite Hp]. intros l. simpl.
    destruct (decide (l = Inner (cur s c))) as [->|]; by look.
Qed.

Lemma wait_enqueue_to s c q : at_ s c = WaitEnqueue q ->
  wlp (wait_enqueue_current c q) s (fun _ s' =>
    changes s s' c (WaitCommit q) (cur s c) Blocking /\ lock_change s s' c (WaitCommit q) /\
    waiters s' = <[q := waiters s q ++ [cur s c]]> (waiters s)).
Proof.
  intros Hp. unfold wait_enqueue_current, wait_enqueue. wlp_go. apply wlp_must_become. intros _. wlp_go.
  split_and!; [| |done].
  - split; intros; look; try done.
    + destruct (decide (c' = c)) as [->|]; by look.
    + destruct (decide (t = cur s c)) as [->|]; by look.
  - apply (Drop _ _ _ _ (Waiters q)); simpl; [by look|by intros; look|by rewrite Hp].
Qed.

Lemma wait_commit_to s c q : at_ s c = WaitCommit q ->
  wlp (wait_commit c q) s (fun _ s' => s' = s \/
    st s (cur s c) = Running /\ cond s' = cond s /\ smooth s s' c (WaitLock q) \/
    st s (cur s c) = Blocking /\ waiters s' = waiters s /\
    let p' := Pick (Resume (WaitLock q)) in
    changes s s' c p' (cur s c) Blocked /\ lock_change s s' c p').
Proof.
  intros Hp. apply wlp_locked; [by left|]. intros Ho. wlp_go. look.
  destruct (st s (cur s c)) eqn:Hst; wlp_go; [right; left|].
  - split_and!; [done|done|]. split; rewrite ?Hp; try done.
    + split; intros; look; try done.
    + apply Keep; [|by rewrite Hp]. intros l. simpl.
      destruct (decide (l = Waiters q)) as [->|]; by look.
    + unfold stack. look. by rewrite Hp.
    + intros q'. unfold stack. rewrite Hp, Hst. simpl. do 2 case_decide; try lia. tauto.
  - apply wlp_must_become. intros _. wlp_go. right. right. split_and!; [done|done| |].
    + split; intros; look; try done.
      * destruct (decide (c' = c)) as [->|]; by look.
      * destruct (decide (t = cur s c)) as [->|]; by look.
    + apply Keep; [|by rewrite Hp]. intros l. simpl.
      destruct (decide (l = Waiters q)) as [->|]; by look.
Qed.

Definition wake_rest q (all : bool) r : pc := if all then WakeNext q all r else r.

Lemma wake_next_to s c q all r : at_ s c = WakeNext q all r ->
  wlp (wake_next c q all r) s (fun _ s' =>
    waiters s q = [] /\ calmly s s' c r /\ lock_change s s' c r /\ cond s' = cond s \/
    exists t ts, waiters s q = t :: ts /\ waiters s' = <[q := filter (.≠ t) (waiters s q)]> (waiters s) /\
      (st s t = Blocking /\ changes s s' c (wake_rest q all r) t Running /\
         lock_change s s' c (wake_rest q all r) \/
       st s t = Blocked /\ changes s s' c (WakeLoad q t all r) t Waking /\
         lock_change s s' c (WakeLoad q t all r))).
Proof.
  intros Hp. unfold wake_next. wlp_go. destruct (waiters s q) as [|t ts] eqn:Hq.
  - unfold wake_done. wlp_go. left. split_and!; [done|split; intros; look; try done| |done].
    apply (Drop _ _ _ _ (Waiters q)); simpl; [by look|by intros; look|by rewrite Hp].
  - wlp_go. destruct (st s t) eqn:Hst; wlp_go; unfold wait_remove; wlp_go; apply wlp_must_become;
      intros _; wlp_go.
    + unfold wake_more, wake_done, wake_rest. destruct all; wlp_go; right; exists t, ts;
        (split_and!; [done|simpl; by rewrite Hq|]); left; (split_and!; [done| |]);
        try (split; intros; look; try done;
             [destruct (decide (c' = c)) as [->|]; by look|destruct (decide (t0 = t)) as [->|]; by look]).
      * apply Keep; [done|by rewrite Hp].
      * apply (Drop _ _ _ _ (Waiters q)); simpl; [by look|by intros; look|by rewrite Hp].
    + right. exists t, ts. split_and!; [done|simpl; by rewrite Hq|]. right. split_and!; [done| |].
      * split; intros; look; try done;
          [destruct (decide (c' = c)) as [->|]; by look|destruct (decide (t0 = t)) as [->|]; by look].
      * apply Keep; [done|by rewrite Hp].
Qed.

Lemma switch_to s c old k : at_ s c = Switch old k ->
  wlp (switch_context c old k) s (fun _ s' => exists r, context (threads s (cur s c)) = Some (Resume r) /\
    at_ s' c = Finish r /\ (forall c', c' <> c -> at_ s' c' = at_ s c') /\ (forall c', cur s' c' = cur s c') /\
    (forall t, st s' t = st s t) /\ context (threads s' old) = Some k /\
    (forall t, t <> old -> t <> cur s c -> context (threads s' t) = context (threads s t)) /\
    waiters s' = waiters s /\ cond s' = cond s /\ lock_change s s' c (Finish r)).
Proof.
  intros Hp. unfold switch_context. wlp_go.
  destruct (context (threads s (cur s c))) as [[r|]|] eqn:Hctx; wlp_go.
  exists r. split_and!; try done; intros; look; try done.
  - destruct (decide (c' = c)) as [->|]; by look.
  - destruct (decide (t = old)) as [->|]; look; [|destruct (decide (t = cur s c)) as [->|]; by look].
    destruct (decide (old = cur s c)) as [->|]; by look.
  - apply Keep; [done|by rewrite Hp].
Qed.

Section waiting_steps.
Variables (s : Kernel) (c : cid).
Hypothesis Hinv : inv n s.
Hypothesis Hc : (c < n)%nat.
Hypothesis Hs : sync n s.

Abbreviation syncs m := (wlp m s (fun _ s' => sync n s')).

Lemma sync_exit : at_ s c = Exit -> syncs (exit_current c).
Proof.
  intros Hp. pose proof (at_ok n s c Hinv Hc) as Hok. rewrite Hp in Hok. destruct Hok as [Hr _].
  eapply wlp_mono; [by apply exit_to|]. intros [] s' [->|(Ho & Hch & Hlk & Hw)]; [done|].
  eapply (sync_changes s s' c); try done; rewrite ?Hp; try done; [congruence| |].
  - intros t q. rewrite Hw. by left.
  - intros t. rewrite Hw. by left.
Qed.

Lemma sync_wait_enqueue q : at_ s c = WaitEnqueue q -> syncs (wait_enqueue_current c q).
Proof.
  intros Hp. pose proof (at_ok n s c Hinv Hc) as Hok. rewrite Hp in Hok. destruct Hok as [Hr _].
  eapply wlp_mono; [by apply wait_enqueue_to|]. intros [] s' (Hch & Hlk & Hw).
  eapply (sync_changes s s' c); try done; rewrite ?Hp; try done; [congruence| |].
  - intros t q'. rewrite Hw. destruct (decide (q' = q)) as [->|]; look; [|by left].
    rewrite elem_of_app, list_elem_of_singleton. tauto.
  - intros t. rewrite Hw. destruct (decide (Join t = q)) as [->|]; look; [|by left].
    intros _. right. by exists c.
Qed.

Lemma sync_wait_commit q : at_ s c = WaitCommit q -> syncs (wait_commit c q).
Proof.
  intros Hp. pose proof (at_ok n s c Hinv Hc) as Hok. rewrite Hp in Hok. destruct Hok as [Hr _].
  eapply wlp_mono; [by apply wait_commit_to|].
  intros [] s' [->|[(_ & _ & Hsm)|(Hst & Hw & Hch & Hlk)]]; [done|by eapply sync_smooth|].
  eapply (sync_changes s s' c); try done; rewrite ?Hp; try done; [congruence| | |].
  - intros t q'. rewrite Hw. by left.
  - intros _ q'. rewrite Hw. intros Hq'. right. exists c. destruct Hch as [Hp' _ Hcur _ _ _ _].
    unfold stack. rewrite Hp', Hcur. split_and!; [done|done|]. simpl.
    destruct Hr as [?|[_ Hin]]; [congruence|]. by rewrite (i_one_queue _ _ Hinv _ _ _ Hq' Hin).
  - intros t. rewrite Hw. by left.
Qed.

(** Nobody is in front of an empty queue whose lock is held. *)
Lemma empty_unoccupied s' q : Waiters q ∈ held (at_ s c) ->
  waiters s' q = [] -> at_ s' c <> WaitEnqueue q -> (forall c', c' <> c -> at_ s' c' = at_ s c') ->
  ~ occupied n s' q.
Proof.
  intros Hheld Hw Hne Hpcs [?|(c' & Hc' & Hp')]; [done|].
  assert (c' <> c) by congruence. rewrite Hpcs in Hp' by done.
  assert (c' = c); [|done]. eapply (lock_exclusive n s _ _ (Waiters q) (sy_lock _ _ Hs)); try done.
  rewrite Hp'. by left.
Qed.

Lemma sync_wake_next q all r : at_ s c = WakeNext q all r -> syncs (wake_next c q all r).
Proof.
  intros Hp. pose proof (at_ok n s c Hinv Hc) as Hok. rewrite Hp in Hok. destruct Hok as [Hr _].
  eapply wlp_mono; [by apply wake_next_to|].
  pose proof (frame_flat n s _ _ Hr) as Hf.
  assert (forall t p', wakes_all (Join t) (WakeNext q all r) -> p' = wake_rest q all r \/ (exists t', p' = WakeLoad q t' all r) ->
    wakes_all (Join t) p') as Hall.
  { intros t p' Ha Hp'. destruct all; [|done]. by destruct Hp' as [->|[t' ->]]. }
  intros [] s' [(Hq & Hca & Hlk & _)|(t & ts & Hq & Hw & Hcase)].
  - eapply (sync_calmly n s s' c); try done; rewrite ?Hp; try done.
    + intros t. by rewrite (flat_joining _ Hf).
    + intros t Ha. right. assert (q = Join t) as -> by (by destruct all, r as [| | | | | | | | | |[]| | | | | | | | | | | | |]).
      apply empty_unoccupied; rewrite ?Hp, ?(ca_waiters _ _ _ _ Hca), ?(ca_pc _ _ _ _ Hca); try done.
      * by left.
      * intros ->. done.
      * apply Hca.
  - assert (forall t' q', t' ∈ waiters s' q' -> t' ∈ waiters s q') as Hsub.
    { intros t' q'. rewrite Hw. destruct (decide (q' = q)) as [->|]; look; [|done].
      by intros [_ ?]%list_elem_of_filter. }
    assert (forall t', waiters s' (Join t') <> [] -> occupied n s (Join t')) as Hocc.
    { intros t' Hne. left. intros H0. destruct (waiters s' (Join t')) as [|t1 ?] eqn:Hw'; [done|].
      assert (t1 ∈ waiters s (Join t')) as Hin by (apply Hsub; rewrite Hw'; by left).
      rewrite H0 in Hin. by apply not_elem_of_nil in Hin. }
    destruct Hcase as [(Hst & Hch & Hlk)|(Hst & Hch & Hlk)];
      (eapply (sync_changes s s' c); try done; rewrite ?Hp; try done; try congruence;
         try (intros t' q' ?; left; by apply Hsub); try (intros t' Ha; left; eapply Hall; by eauto)).
    unfold wake_rest. destruct all; [done|by apply flat_joining].
Qed.

(** ** The switch *)

Lemma switch_facts old k : at_ s c = Switch old k ->
  old <> cur s c /\ context (threads s old) = None /\ st s (cur s c) = Running /\
  (forall c', (c' < n)%nat -> stack s c' = old -> c' = c) /\
  (forall c', (c' < n)%nat -> stack s c' = cur s c -> c' = c) /\ stack s c = old.
Proof.
  intros Hp. pose proof (i_cpu _ _ Hinv c Hc) as Hcpu.
  pose proof (co_switch _ _ _ Hcpu) as Hsw. rewrite Hp in Hsw.
  pose proof (co_previous _ _ _ Hcpu) as Hprev. rewrite Hsw in Hprev. destruct Hprev as (Hne & _).
  pose proof (at_ok n s c Hinv Hc) as Hok. rewrite Hp in Hok. destruct Hok as [Hr _].
  assert (stack s c = old) as Hstk by (unfold stack; by rewrite Hp).
  split_and!; try done.
  - rewrite <- Hstk. apply Hcpu.
  - intros c' Hc' Hst. apply (i_one_cpu _ _ Hinv c' c old); try done.
    + rewrite <- Hst. by apply (stack_attached n).
    + left. by right.
  - intros c' Hc' Hst. apply (i_one_cpu _ _ Hinv c' c (cur s c)); try done.
    + rewrite <- Hst. by apply (stack_attached n).
    + left. by left.
Qed.

Lemma sync_switch old k : at_ s c = Switch old k -> syncs (switch_context c old k).
Proof.
  intros Hp. destruct (switch_facts old k Hp) as (Hne & Hnone & Hrun & Hold & Hnew & Hstk).
  eapply wlp_mono; [by apply switch_to|].
  intros [] s' (r & Hr & Hp' & Hpcs & Hcur & Hst & Hok & Hctx & Hw & _ & Hlk). split.
  - by eapply lock_ok_change; [|apply Hs|..].
  - intros t q. rewrite Hw, Hst. intros Ht Hb. pose proof (sy_back _ _ Hs t q Ht Hb) as Hback.
    destruct (decide (t = old)) as [->|Hto].
    + left. destruct Hback as [?|(c' & Hc' & Hs' & Hk)]; [congruence|].
      rewrite (Hold c' Hc' Hs'), Hp in Hk. injection Hk as ->. done.
    + destruct (decide (t = cur s c)) as [->|]; [congruence|].
      apply (back_keep n s s' c); [by auto| |congruence|done]. intros k'. by rewrite Hctx.
  - intros c' t Hc' Hj Hne'. rewrite Hst. destruct (decide (c' = c)) as [->|]; [by rewrite Hp' in Hj|].
    rewrite Hpcs in Hj, Hne' by done. by apply (sy_joining _ _ Hs c').
  - intros t Hd Hocc. rewrite Hst in Hd. destruct (sy_join _ _ Hs t Hd) as (c' & Hc' & Ha).
    + destruct Hocc as [?|(c' & Hc' & He)]; [left; congruence|right]. exists c'.
      destruct (decide (c' = c)) as [->|]; [congruence|]. by rewrite <- Hpcs.
    + exists c'. split; [done|]. destruct (decide (c' = c)) as [->|]; [by rewrite Hp in Ha|by rewrite Hpcs].
Qed.
End waiting_steps.

(** The actions that leave waiting alone. *)
Lemma smooth_advance s c e :
  inv n s -> (c < n)%nat ->
  match at_ s c with
  | WaitLock _ | WaitHold _ | WaitDrop _ | WaitEnqueue _ | WaitCommit _ | Exit | Switch _ _
  | WakeNext _ _ _ | OpLock _ _ => True
  | p => smoothly c (advance c e p) s
  end.
Proof.
  intros Hinv Hc. destruct (at_ s c) eqn:Hp; simpl; try done.
  - by apply (smooth_run n).
  - by apply (smooth_schedule n).
  - by apply (smooth_schedule_put n).
  - by apply (smooth_schedule_start n).
  - by apply smooth_pick.
  - by apply (smooth_start_next n).
  - by apply smooth_prepare.
  - by apply smooth_finish.
  - by apply smooth_finish_previous.
  - by apply (smooth_finish_exit n).
  - by apply smooth_wake_lock.
  - by apply (smooth_wake_load n).
  - by apply (smooth_wake_put n).
  - by apply (smooth_op_unlock n).
  - by apply (smooth_irq_return n).
Qed.

Lemma cpu_step_sync s c e : inv n s -> (c < n)%nat -> sync n s -> wlp (cpu_step c e) s (fun _ s' => sync n s').
Proof.
  intros Hinv Hc Hs. pose proof (smooth_advance s c e Hinv Hc) as Hsm.
  assert (wlp (advance c e (at_ s c)) s (fun _ s' => sync n s')) as Hadv.
  { destruct (at_ s c) eqn:Hp; try (by apply (sync_smoothly s c)); simpl.
    - by apply sync_wait_lock.
    - by apply sync_wait_hold.
    - by apply sync_wait_drop.
    - by apply sync_wait_enqueue.
    - by apply sync_wait_commit.
    - by apply sync_exit.
    - by apply sync_switch.
    - by apply sync_wake_next.
    - by apply sync_op_lock. }
  unfold cpu_step. wlp_go. destruct e; try done.
  - destruct (preemptible _) eqn:?; [|by wlp_go]. by apply (sync_smoothly s c), smooth_preempt.
  - destruct (interruptible _) eqn:?; [|by wlp_go]. by apply (sync_smoothly s c), smooth_irq.
  - destruct (interruptible _) eqn:?; [|by wlp_go]. by apply (sync_smoothly s c), smooth_tick.
Qed.

(** ** A condition that counts *)

Section counting.
Context (m : nat) (cap : cstate -> Z) `{!Counts m cap}.
Abbreviation qm := (Queue m).

Record counted s : Prop := Counted {
  ct_joining c : (c < n)%nat -> at_ s c = WaitHold qm \/ at_ s c = WaitDrop qm -> cap (cond s) <= 0;
  ct_supply : occupied n s qm -> supply n qm s (cap (cond s))
}.

Lemma wakes_at_phase q x y p : phase x = phase y -> wakes_at q x p = wakes_at q y p.
Proof. intros Hxy. destruct p as [| | | | | | | | | |[]|? []|? []|? []| | | | | | | | | |]; simpl; by rewrite ?Hxy. Qed.

Lemma calmly_off q s s' c p' t : calmly s s' c p' -> wakes_off q s t -> wakes_off q s' t.
Proof.
  intros [_ _ _ Hst Hnew Hctx _] (r & Hr & Hn & Hb & Hw). exists r. rewrite Hst. auto.
Qed.

Lemma calmly_on q s s' c p' c' : calmly s s' c p' -> c' <> c -> wakes_on q s' c' = wakes_on q s c'.
Proof.
  intros [_ Hpcs Hcur Hst _ _ _] Hne. unfold wakes_on.
  rewrite (stack_same s s' c'), Hpcs by auto. by apply wakes_at_phase.
Qed.

Lemma counted_calmly s s' c p' :
  (c < n)%nat -> calmly s s' c p' -> (joining p' = Some qm -> cap (cond s') <= 0) ->
  (forall c', (c' < n)%nat -> c' <> c -> at_ s c' = WaitHold qm \/ at_ s c' = WaitDrop qm -> cap (cond s') <= 0) ->
  (cap (cond s') <= 0 \/
   cap (cond s') + Z.of_nat (wakes_on qm s c) <= cap (cond s) + Z.of_nat (wakes_on qm s' c)) ->
  counted s -> counted s'.
Proof.
  intros Hc Hca Hj Hoth Hcap [Hj0 Hsup]. pose proof Hca as [Hp Hpcs _ _ _ _ Hw]. split.
  - intros c' Hc' Hq. destruct (decide (c' = c)) as [->|Hne].
    + rewrite Hp in Hq. apply Hj. by destruct Hq as [->| ->].
    + rewrite Hpcs in Hq by done. by apply (Hoth c').
  - intros Hocc. destruct Hcap as [?|Hcap]; [by apply supply_nonpos|].
    destruct (decide (cap (cond s') <= 0)) as [?|Hpos]; [by apply supply_nonpos|].
    apply (supply_change n qm s s' c (cap (cond s))); [done| |by eauto using calmly_off|done|].
    + intros c' _ Hne. by rewrite (calmly_on qm s s' c p' c').
    + apply Hsup. destruct Hocc as [?|(c' & Hc' & Hq)]; [left; congruence|right].
      exists c'. split; [done|]. destruct (decide (c' = c)) as [->|Hne]; [|by rewrite <- Hpcs].
      exfalso. apply Hpos, Hj. by rewrite <- Hp, Hq.
Qed.

Lemma counted_smooth s s' c p' : (c < n)%nat -> smooth s s' c p' -> cond s' = cond s -> counted s -> counted s'.
Proof.
  intros Hc [Hca _ Hstk Hj _ _ Hw] Hcond Hct. eapply counted_calmly; try done.
  - congruence.
  - intros c' Hc' _ Hq. rewrite Hcond. by apply (ct_joining _ Hct c').
  - right. rewrite Hcond. specialize (Hw qm). unfold wakes_on at 2.
    rewrite Hstk, (ca_pc _ _ _ _ Hca), (wakes_at_phase _ _ _ _ (ca_state _ _ _ _ Hca _)). fold (wakes_on qm s c) in Hw. lia.
Qed.

(** The state of the thread on the stack changes. *)
Lemma changes_on q s s' c p' t0 x' c' :
  changes s s' c p' t0 x' -> c' <> c -> stack s c' <> t0 -> wakes_on q s' c' = wakes_on q s c'.
Proof.
  intros Hch Hne Hst. unfold wakes_on. rewrite (stack_same s s' c'); [|by apply Hch..].
  rewrite (ch_pcs _ _ _ _ _ _ Hch) by done. by rewrite (ch_states _ _ _ _ _ _ Hch).
Qed.

Lemma changes_off q s s' c p' t0 x' t :
  changes s s' c p' t0 x' -> t <> t0 -> wakes_off q s t -> wakes_off q s' t.
Proof.
  intros Hch Hne (r & Hr & Hn & Hb & Hw). exists r.
  by rewrite (ch_context _ _ _ _ _ _ Hch), (ch_states _ _ _ _ _ _ Hch).
Qed.

Lemma changes_joining s s' c p' t0 x' c' :
  changes s s' c p' t0 x' -> joining p' = None -> at_ s' c' = WaitHold qm \/ at_ s' c' = WaitDrop qm ->
  at_ s c' = WaitHold qm \/ at_ s c' = WaitDrop qm.
Proof.
  intros Hch Hj Hq. destruct (decide (c' = c)) as [->|]; [|by rewrite <- (ch_pcs _ _ _ _ _ _ Hch)].
  rewrite (ch_pc _ _ _ _ _ _ Hch) in Hq. by destruct Hq as [->| ->].
Qed.

Lemma changes_occupied s s' c p' t0 x' q :
  changes s s' c p' t0 x' -> joining p' = None -> (waiters s' q <> [] -> occupied n s q) ->
  occupied n s' q -> occupied n s q.
Proof.
  intros Hch Hj Hw [?|(c' & Hc' & Hq)]; [by apply Hw|right]. exists c'. split; [done|].
  destruct (decide (c' = c)) as [->|]; [|by rewrite <- (ch_pcs _ _ _ _ _ _ Hch)].
  rewrite (ch_pc _ _ _ _ _ _ Hch) in Hq. by rewrite Hq in Hj.
Qed.

Section counted_steps.
Variables (s : Kernel) (c : cid).
Hypothesis Hinv : inv n s.
Hypothesis Hc : (c < n)%nat.
Hypothesis Hs : sync n s.
Hypothesis Hct : counted s.

Abbreviation counts f := (wlp f s (fun _ s' => counted s')).

Lemma counted_changes s' p' t0 x' :
  changes s s' c p' t0 x' -> stack s c = t0 -> joining p' = None ->
  (waiters s' qm <> [] -> occupied n s qm) -> (wakes_on qm s c <= wakes_on qm s' c)%nat -> counted s'.
Proof.
  intros Hch Hst Hj Hocc Hw. pose proof (ch_cond _ _ _ _ _ _ Hch) as Hcond. split; rewrite Hcond.
  - intros c' Hc' Hq. apply (ct_joining _ Hct c'); [done|]. by eapply changes_joining.
  - intros Hocc'. apply (supply_change n qm s s' c (cap (cond s))); [done| | |lia|].
    + intros c' Hc' Hne. rewrite (changes_on qm s s' c p' t0 x'); [done..|].
      intros Heq. apply Hne. apply (one_stack n s (inv_consistent n s Hinv)); [done..|congruence].
    + intros t Hoff. eapply changes_off; [done| |done]. intros ->. destruct Hoff as (r & Hr & _).
      pose proof (co_stack _ _ _ (i_cpu _ _ Hinv c Hc)). congruence.
    + apply Hct. by eapply changes_occupied.
Qed.

Lemma counted_exit : at_ s c = Exit -> counts (exit_current c).
Proof.
  intros Hp. eapply wlp_mono; [by apply exit_to|]. intros [] s' [->|(_ & Hch & _ & Hw)]; [done|].
  eapply counted_changes; [done|by unfold stack; rewrite Hp|done| |].
  - rewrite Hw. by left.
  - unfold wakes_on at 1. rewrite Hp. simpl. lia.
Qed.

Lemma counted_wait_enqueue q : at_ s c = WaitEnqueue q -> counts (wait_enqueue_current c q).
Proof.
  intros Hp. eapply wlp_mono; [by apply wait_enqueue_to|]. intros [] s' (Hch & _ & Hw).
  eapply counted_changes; [done|by unfold stack; rewrite Hp|done| |].
  - rewrite Hw. destruct (decide (qm = q)) as [<-|]; [right; by eauto|].
    rewrite fn_lookup_insert_ne by done. by left.
  - unfold wakes_on at 1. rewrite Hp. simpl. lia.
Qed.

Lemma counted_wait_commit q : at_ s c = WaitCommit q -> counts (wait_commit c q).
Proof.
  intros Hp. eapply wlp_mono; [by apply wait_commit_to|].
  intros [] s' [->|[(_ & ? & Hsm)|(Hb & Hw & Hch & _)]]; [done|by eapply counted_smooth|].
  assert (stack s c = cur s c) as Hst by (unfold stack; by rewrite Hp).
  eapply counted_changes; [done|done|done| |].
  - rewrite Hw. by left.
  - unfold wakes_on at 1. rewrite Hp, Hst, Hb. simpl. case_decide; [tauto|lia].
Qed.

Lemma counted_wait_lock q : at_ s c = WaitLock q -> counts (wait_lock c q).
Proof.
  intros Hp. eapply wlp_mono; [by apply wait_lock_to|].
  assert (wakes_on qm s c = if decide (q = qm) then 1%nat else 0%nat) as Hw0 by (unfold wakes_on; by rewrite Hp).
  intros [] s' [->|(_ & [(Hca & _ & Htk)|(Hca & _ & Hcond & Hf)])]; [done|..].
  - assert (cap (cond s') <= cap (cond s) /\ (q = qm -> cap (cond s') <= Z.max 0 (cap (cond s) - 1)) \/
            q = qm /\ cap (cond s') <= Z.max 0 (cap (cond s) - 1)) as Hcap.
    { destruct q as [t|m']; [left; split; [by rewrite Htk|done]|]. destruct Htk as (x & Hx & Hx').
      destruct (decide (m' = m)) as [->|Hne]; [right; split; [done|by eapply cap_take]|].
      left. split; [by eapply cap_other|]. by intros [= ->]. }
    eapply counted_calmly; try done.
    + intros c' Hc' _ Hq. pose proof (ct_joining _ Hct c' Hc' Hq). destruct Hcap as [[? _]|[_ ?]]; lia.
    + rewrite Hw0. case_decide; destruct Hcap as [[Hle Hcap]|[Hq Hcap]]; try done; [specialize (Hcap H0)|..]; lia.
  - eapply counted_calmly; try done; rewrite ?Hcond.
    + intros [= ->]. by apply cap_fail.
    + intros c' Hc' _ Hq. by apply (ct_joining _ Hct c').
    + rewrite Hw0. case_decide as Hq; [|right; lia]. subst q. left. by apply cap_fail.
Qed.

Lemma counted_wait_hold q : at_ s c = WaitHold q -> counts (wait_hold c q).
Proof.
  intros Hp. eapply wlp_mono; [by apply wait_hold_to|]. intros [] s' [->|(Hca & _ & Hcond)]; [done|].
  eapply counted_calmly; try done; rewrite ?Hcond.
  - intros [= ->]. apply (ct_joining _ Hct c); auto.
  - intros c' Hc' _ Hq. by apply (ct_joining _ Hct c').
  - right. unfold wakes_on at 1. rewrite Hp. simpl. lia.
Qed.

Lemma counted_wait_drop q : at_ s c = WaitDrop q -> counts (wait_drop c q).
Proof.
  intros Hp. eapply wlp_mono; [by apply wait_drop_to|]. intros [] s' (Hca & _ & Hcond).
  eapply counted_calmly; try done; rewrite ?Hcond.
  - intros [= ->]. apply (ct_joining _ Hct c); auto.
  - intros c' Hc' _ Hq. by apply (ct_joining _ Hct c').
  - right. unfold wakes_on at 1. rewrite Hp. simpl. lia.
Qed.

Lemma counted_op_lock o r : at_ s c = OpLock o r -> counts (op_lock_run c o r).
Proof.
  intros Hp. pose proof (at_ok n s c Hinv Hc) as Hok. rewrite Hp in Hok. destruct Hok as [Hr _].
  eapply wlp_mono; [by apply op_lock_to|]. intros [] s' [->|(Ho & w & Hrun & Hca & _)]; [done|].
  pose proof (op_next_flat s _ o r w Hr) as Hf. pose proof (cap_op _ _ _ _ Hrun) as Hcap.
  eapply counted_calmly; try done.
  - by rewrite (flat_joining _ Hf).
  - intros c' Hc' _ Hq. pose proof (ct_joining _ Hct c' Hc' Hq). destruct Hcap as [?|(Hl & _)]; [lia|].
    assert (owner s (Cond (op_lock o)) = Some c'); [|congruence].
    apply (lk_owner _ _ (sy_lock _ _ Hs)). split; [done|]. rewrite Hl. destruct Hq as [->| ->]; by left.
  - right. unfold wakes_on. rewrite (ca_pc _ _ _ _ Hca), Hp, (flat_wakes qm _ (op_next o r w)) by done. unfold op_next.
    destruct Hcap as [?|(_ & -> & ?)].
    + destruct w as [[m' []]|], (op_hold o); simpl; try case_decide; lia.
    + destruct (op_hold o); simpl; rewrite decide_True by done; lia.
Qed.

Lemma resume_wakes q t r : resume_ok n s t r -> (wakes q r <= 1)%nat.
Proof.
  intros Hr. destruct r as [| | | | | | | | | | | | | | | | |q' [] []| | | |o []| |]; try done; simpl; try lia;
    case_decide; lia.
Qed.

(** The thread that leaves takes its wake-up along. *)
Lemma left_wakes q t k : left n s c t k ->
  match k with
  | Resume r => (wakes q r <= 1)%nat /\ st s t <> New
  | Exited => True
  end.
Proof.
  intros [[Hl _]|(r & -> & Hp & Hr)].
  - destruct k as [r|]; [|done]. destruct Hl as [[q' ->] Hst]. simpl.
    split; [case_decide; lia|]. destruct Hst; congruence.
  - split; [by eapply resume_wakes|]. destruct Hp as [(? & _)|(? & _)]; congruence.
Qed.

Lemma counted_switch old k : at_ s c = Switch old k -> counts (switch_context c old k).
Proof.
  intros Hp. destruct (switch_facts s c Hinv Hc old k Hp) as (Hne & Hnone & Hrun & Hold & Hnew & Hstk).
  pose proof (at_ok n s c Hinv Hc) as Hok. rewrite Hp in Hok. destruct Hok as [_ Hl].
  pose proof (left_wakes qm old k Hl) as Hk.
  eapply wlp_mono; [by apply switch_to|].
  intros [] s' (r & Hr & Hp' & Hpcs & Hcur & Hst & Hctx & Hctxs & Hw & Hcond & _).
  assert (forall c', at_ s' c' = WaitHold qm \/ at_ s' c' = WaitDrop qm \/ at_ s' c' = WaitEnqueue qm ->
    at_ s' c' = at_ s c') as Hat.
  { intros c' Hq. destruct (decide (c' = c)) as [->|]; [|by apply Hpcs]. rewrite Hp' in Hq.
    by destruct Hq as [|[|]]. }
  split; rewrite Hcond.
  - intros c' Hc' Hq. apply (ct_joining _ Hct c' Hc'). by rewrite <- Hat by tauto.
  - intros Hocc. apply (supply_switch n qm s s' c old (cur s c)); [done| | | | |].
    + intros c' _ Hne'. unfold wakes_on. by rewrite (stack_same s s' c'), Hpcs, Hst by auto.
    + intros t Ht (r' & Hr' & Hn & Hb & Hw'). exists r'. rewrite Hst, Hctxs; try done. intros ->. congruence.
    + intros (r' & Hr' & _ & _ & Hw'). unfold wakes_on. rewrite Hp'. simpl. simplify_eq. lia.
    + unfold wakes_on. rewrite Hp, Hstk. simpl. unfold wakes_later. destruct k as [r'|]; [|by left].
      case_decide as Hb; [by left|]. destruct Hk as [Hk Hn]. destruct (wakes qm r') as [|w] eqn:Hw'; [by left|right].
      assert (w = 0)%nat as -> by lia. split_and!; [done| |].
      * intros (r2 & Hr2 & _). congruence.
      * exists r'. rewrite Hctx, Hst. auto.
    + apply Hct. destruct Hocc as [?|(c' & Hc' & Hq)]; [left; congruence|right].
      exists c'. by rewrite <- Hat by tauto.
Qed.

(** ** A wake-up *)

Lemma wakes_at_woken q x y p : phase y = Running -> (wakes_at q x p <= wakes_at q y p)%nat.
Proof.
  intros Hy. destruct p as [| | | | | | | | | |[]|? []|? []|? []| | | | | | | | | |]; simpl; rewrite ?Hy; try done;
    repeat case_decide; try lia; try done.
  exfalso. match goal with Hq : _ /\ _, Hn : ~ _ |- _ => apply Hn; split; [apply Hq|done] end.
Qed.

(** A thread is woken: nobody loses, and the thread gains. *)
Lemma woken_on q s' p' t x' c' : changes s s' c p' t x' -> phase x' = Running -> c' <> c ->
  (wakes_on q s c' <= wakes_on q s' c')%nat.
Proof.
  intros Hch Hx Hne. unfold wakes_on. rewrite (stack_same s s' c'), (ch_pcs _ _ _ _ _ _ Hch); [|done|by apply Hch..].
  destruct (decide (stack s c' = t)) as [Ht|Ht].
  - rewrite Ht, (ch_state _ _ _ _ _ _ Hch). by apply wakes_at_woken.
  - by rewrite (ch_states _ _ _ _ _ _ Hch).
Qed.

Lemma woken_off q s' p' t x' t' : changes s s' c p' t x' -> phase x' = Running -> x' <> New ->
  wakes_off q s t' -> wakes_off q s' t'.
Proof.
  intros Hch Hx Hn Hoff. destruct (decide (t' = t)) as [->|]; [|by eapply changes_off].
  destruct Hoff as (r & Hr & _ & _ & Hw). exists r.
  by rewrite (ch_context _ _ _ _ _ _ Hch), (ch_state _ _ _ _ _ _ Hch), Hx.
Qed.

Lemma woken_gains s' p' t x' :
  changes s s' c p' t x' -> phase x' = Running -> x' <> New -> t ∈ waiters s qm ->
  st s t = Blocking \/ st s t = Blocked -> kont_of (at_ s c) = None -> (forall q, at_ s c <> WaitCommit q) ->
  (exists c2, (c2 < n)%nat /\ c2 <> c /\ (wakes_on qm s c2 + 1 <= wakes_on qm s' c2)%nat) \/
  ~ wakes_off qm s t /\ wakes_off qm s' t.
Proof.
  intros Hch Hx Hn Hin Hst Hk Hnc. destruct Hst as [Hst|Hst].
  - left. destruct (to_blocking _ _ _ (i_thread _ _ Hinv t) Hst) as (c2 & q2 & Hc2 & Hcur & Hp2).
    assert (c2 <> c) as Hne by (intros ->; by apply (Hnc q2)). exists c2. split_and!; [done|done|].
    pose proof (at_ok n s c2 Hinv Hc2) as Hok. rewrite Hp2 in Hok. simpl in Hok. rewrite Hcur in Hok.
    destruct Hok as [[?|[_ Hin2]] _]; [congruence|].
    rewrite (i_one_queue _ _ Hinv _ _ _ Hin2 Hin) in Hp2.
    assert (stack s c2 = t) as Hstk by (unfold stack; by rewrite Hp2).
    unfold wakes_on. rewrite (stack_same s s' c2), (ch_pcs _ _ _ _ _ _ Hch); [|done|by apply Hch..].
    rewrite Hp2, Hstk, (ch_state _ _ _ _ _ _ Hch), Hst. simpl. rewrite Hx. rewrite decide_False by (by intros [_ ?]). by rewrite decide_True.
  - destruct (sy_back _ _ Hs t qm Hin Hst) as [Hctx|(c2 & Hc2 & Hstk & Hk2)].
    * right. split.
      -- intros (r & _ & _ & Hb & _). by rewrite Hst in Hb.
      -- exists (WaitLock qm). rewrite (ch_context _ _ _ _ _ _ Hch), (ch_state _ _ _ _ _ _ Hch), Hx.
         split_and!; try done. simpl. by rewrite decide_True.
    * left. assert (c2 <> c) as Hne by (intros ->; congruence). exists c2. split_and!; [done|done|].
      unfold wakes_on. rewrite (stack_same s s' c2), (ch_pcs _ _ _ _ _ _ Hch); [|done|by apply Hch..].
      rewrite Hstk, (ch_state _ _ _ _ _ _ Hch), Hst.
      destruct (at_ s c2); simplify_eq/=; by rewrite Hx, decide_False, decide_True.
Qed.

Lemma supply_woken s' p' t x' :
  changes s s' c p' t x' -> phase x' = Running -> x' <> New -> t ∈ waiters s qm ->
  st s t = Blocking \/ st s t = Blocked -> kont_of (at_ s c) = None -> (forall q, at_ s c <> WaitCommit q) ->
  (wakes_on qm s c <= wakes_on qm s' c + 1)%nat -> supply n qm s (cap (cond s)) ->
  supply n qm s' (cap (cond s)).
Proof.
  intros Hch Hx Hn Hin Hst Hk Hnc Hw Hsup.
  destruct (woken_gains s' p' t x') as [(c2 & Hc2 & Hne & Hg)|[Hno Hyes]]; try done.
  - apply (supply_gain_on n qm s s' c c2 (cap (cond s))); try done; [|by eauto using woken_off|lia].
    intros c' _ ? _. by eapply woken_on.
  - apply (supply_gain_off n qm s s' c t (cap (cond s))); try done; [|by eauto using woken_off|lia].
    intros c' _ ?. by eapply woken_on.
Qed.

(** The thread at the head of a queue is woken. *)
Lemma counted_woken q all r s' p' t ts x' :
  at_ s c = WakeNext q all r -> waiters s q = t :: ts ->
  waiters s' = <[q := filter (.≠ t) (waiters s q)]> (waiters s) ->
  changes s s' c p' t x' -> phase x' = Running -> x' <> New -> st s t = Blocking \/ st s t = Blocked ->
  flat p' = true -> wakes qm p' = wakes qm r -> counted s'.
Proof.
  intros Hp Hq Hw Hch Hx Hn Hst Hf Hwk. pose proof (flat_joining _ Hf) as Hj.
  assert (wakes_on qm s' c = wakes qm r) as Hw'.
  { unfold wakes_on. by rewrite (ch_pc _ _ _ _ _ _ Hch), flat_wakes. }
  assert (wakes_on qm s c = wakes qm (WakeNext q all r)) as Hw0 by (unfold wakes_on; by rewrite Hp).
  split; rewrite (ch_cond _ _ _ _ _ _ Hch).
  - intros c' Hc' Hq'. apply (ct_joining _ Hct c' Hc'). by eapply changes_joining.
  - intros Hocc. assert (supply n qm s (cap (cond s))) as Hsup.
    { apply Hct. eapply changes_occupied; try done. rewrite Hw. intros Hne. left.
      destruct (decide (qm = q)) as [<-|]; [by rewrite Hq|]. by rewrite fn_lookup_insert_ne in Hne. }
    destruct (decide (q = qm)) as [->|Hne].
    + eapply supply_woken; rewrite ?Hp; try done; [rewrite Hq; by left|].
      rewrite Hw0, Hw'. destruct all; simpl; try case_decide; lia.
    + apply (supply_change n qm s s' c (cap (cond s))); try done.
      * intros c' _ ?. by eapply woken_on.
      * intros t'. by eapply woken_off.
      * rewrite Hw0, Hw'. destruct all; simpl; rewrite ?decide_False by done; lia.
Qed.

Lemma counted_wake_next q all r : at_ s c = WakeNext q all r -> counts (wake_next c q all r).
Proof.
  intros Hp. pose proof (at_ok n s c Hinv Hc) as Hok. rewrite Hp in Hok. destruct Hok as [Hr _].
  pose proof (frame_flat n s _ _ Hr) as Hf.
  assert (wakes_on qm s c = wakes qm (WakeNext q all r)) as Hw0 by (unfold wakes_on; by rewrite Hp).
  eapply wlp_mono; [by apply wake_next_to|].
  intros [] s' [(Hq & Hca & _ & Hcond)|(t & ts & Hq & Hw & Hcase)].
  - destruct (decide (q = qm)) as [->|Hne].
    + pose proof (ca_pc _ _ _ _ Hca) as Hp'. split; rewrite Hcond.
      * intros c' Hc' Hq'. apply (ct_joining _ Hct c' Hc'). rewrite <- (ca_pcs _ _ _ _ Hca); [done|].
        intros ->. rewrite Hp' in Hq'. by destruct Hq' as [->| ->].
      * intros Hocc. exfalso. revert Hocc. apply (empty_unoccupied s c Hc Hs).
        -- rewrite Hp. by left.
        -- by rewrite (ca_waiters _ _ _ _ Hca).
        -- intros He. rewrite Hp' in He. by rewrite He in Hf.
        -- apply Hca.
    + eapply counted_calmly; try done; rewrite ?Hcond.
      * by rewrite (flat_joining _ Hf).
      * intros c' Hc' _ Hq'. by apply (ct_joining _ Hct c').
      * right. unfold wakes_on at 2. rewrite Hw0, (ca_pc _ _ _ _ Hca), flat_wakes by done.
        destruct all; simpl; rewrite ?decide_False by done; lia.
  - destruct Hcase as [(Hst & Hch & _)|(Hst & Hch & _)]; eapply counted_woken; try done; auto.
    + unfold wake_rest. by destruct all.
    + unfold wake_rest. by destruct all.
Qed.
End counted_steps.

Lemma counted_smoothly s c (f : M Kernel unit) : (c < n)%nat -> counted s -> smoothly c f s ->
  wlp f s (fun _ s' => counted s').
Proof.
  intros Hc Hct Hf. eapply wlp_mono; [exact Hf|]. intros [] s' [->|(Hcond & p' & Hp')]; [done|].
  by eapply counted_smooth.
Qed.

Lemma cpu_step_counted s c e : inv n s -> (c < n)%nat -> sync n s -> counted s ->
  wlp (cpu_step c e) s (fun _ s' => counted s').
Proof.
  intros Hinv Hc Hs Hct. pose proof (smooth_advance s c e Hinv Hc) as Hsm.
  assert (wlp (advance c e (at_ s c)) s (fun _ s' => counted s')) as Hadv.
  { destruct (at_ s c) eqn:Hp; try (by apply (counted_smoothly s c)); simpl.
    - by apply counted_wait_lock.
    - by apply counted_wait_hold.
    - by apply counted_wait_drop.
    - by apply counted_wait_enqueue.
    - by apply counted_wait_commit.
    - by apply counted_exit.
    - by apply counted_switch.
    - by apply counted_wake_next.
    - by apply counted_op_lock. }
  unfold cpu_step. wlp_go. destruct e; try done.
  - destruct (preemptible _) eqn:?; [|by wlp_go]. by apply (counted_smoothly s c), smooth_preempt.
  - destruct (interruptible _) eqn:?; [|by wlp_go]. by apply (counted_smoothly s c), smooth_irq.
  - destruct (interruptible _) eqn:?; [|by wlp_go]. by apply (counted_smoothly s c), smooth_tick.
Qed.

Lemma booted_unoccupied s q : booted n s -> ~ occupied n s q.
Proof.
  intros (Hcpus & _ & _ & Hw & _) [?|(c & Hc & Hp)]; [by rewrite Hw in *|].
  destruct (Hcpus c Hc) as (? & ? & Hcpu & _). by rewrite Hcpu in Hp.
Qed.

Lemma booted_counted s : booted n s -> counted s.
Proof.
  intros Hb. split.
  - intros c Hc Hq. destruct Hb as (Hcpus & _). destruct (Hcpus c Hc) as (? & ? & Hcpu & _).
    rewrite Hcpu in Hq. by destruct Hq.
  - intros Hocc. by apply booted_unoccupied in Hocc.
Qed.
End counting.

Lemma booted_sync s : booted n s -> sync n s.
Proof.
  intros Hb. pose proof Hb as (Hcpus & _ & _ & Hw & Ho).
  assert (forall c, (c < n)%nat -> at_ s c = Run) as Hrun.
  { intros c Hc. by destruct (Hcpus c Hc) as (? & ? & -> & _). }
  split.
  - split; [intros c Hc; rewrite Hrun by done; constructor|]. intros l c. rewrite Ho. split; [done|].
    intros [Hc Hl]. rewrite Hrun in Hl by done. by apply not_elem_of_nil in Hl.
  - intros t q. rewrite Hw. by intros ?%not_elem_of_nil.
  - intros c t Hc. by rewrite Hrun.
  - intros t _ Hocc. by apply booted_unoccupied in Hocc.
Qed.

(** ** Every reachable state *)

Lemma quiet_sync s s' : inv n s -> sync n s -> rtc (quiet_step n) s s' -> sync n s'.
Proof.
  intros Hinv Hs Hsteps. induction Hsteps as [|s s1 s' Hstep _ IH]; [done|]. apply IH.
  - by eapply quiet_inv, rtc_once.
  - destruct Hstep as (c & e & Hc & _ & Hstep). by apply (cpu_step_sync s c e Hinv Hc Hs tt).
Qed.

Lemma quiet_counted m cap `{!Counts m cap} s s' :
  inv n s -> sync n s -> counted m cap s -> rtc (quiet_step n) s s' -> counted m cap s'.
Proof.
  intros Hinv Hs Hct Hsteps. induction Hsteps as [|s s1 s' Hstep _ IH]; [done|]. apply IH.
  - by eapply quiet_inv, rtc_once.
  - by eapply quiet_sync, rtc_once.
  - destruct Hstep as (c & e & Hc & _ & Hstep). by eapply (cpu_step_counted m cap s c e Hinv Hc Hs Hct tt).
Qed.
End wake.
