(* ===== verification/Completion.v ===== *)
(** * Completions (src/kernel/thread/completion.rs)

    The condition of a completion counts, and [complete] is an operation on it.  The
    theorems on threads, for a kernel whose threads use completions. *)

From stdpp Require Import base tactics list sets functions relations.
From S2P Require Import Prelude CMonad Threads ThreadsInv ThreadsSteps ThreadsFacts ThreadsSync ThreadsWake.
Local Open Scope Z_scope.

(** The counts of all completions, each a [usize] under a lock of its own. *)
Abbreviation counts := (nat -> N).
Definition USIZE_MAX : N := 2 ^ 64 - 1.

(** [Completion::is_satisfied]; the test changes nothing. *)
Definition completion_satisfied (m : nat) (x : counts) : option counts :=
  if (x m =? 0)%N then None else Some x.

(** [Completion::wait] after the wait; a subtraction below zero panics. *)
Definition completion_wait (m : nat) (x : counts) : option counts :=
  if (x m <? 1)%N then None else Some (<[m := (x m - 1)%N]> x).

(** [Completion::complete]: [saturating_add], and [wake_one] after the lock is released. *)
Definition completion_complete (m : nat) (x : counts) : counts * option (nat * bool) :=
  (<[m := N.min (x m + 1) USIZE_MAX]> x, Some (m, false)).

Lemma completion_wait_ok m x x' : completion_satisfied m x = Some x' -> is_Some (completion_wait m x').
Proof.
  unfold completion_satisfied, completion_wait. destruct (N.eqb_spec (x m) 0); [done|]. intros [= <-].
  destruct (N.ltb_spec (x m) 1); [lia|by eauto].
Qed.

#[export] Instance completions : Client := {|
  cstate := counts;
  cond_lock m := m;
  is_satisfied := completion_satisfied;
  after_wait := completion_wait;
  after_wait_ok := completion_wait_ok;
  op := nat;
  op_lock m := m;
  op_hold _ := false;
  op_run := completion_complete
|}.

Definition count (m : nat) (x : counts) : Z := Z.of_N (x m).

#[export] Instance completion_counts m : Counts m (count m).
Proof.
  split; simpl; unfold completion_satisfied, completion_wait, completion_complete, count.
  - intros x. destruct (N.eqb_spec (x m) 0); [|done]. lia.
  - intros x x1 x2. destruct (N.eqb_spec (x m) 0); [done|]. intros [= <-].
    destruct (N.ltb_spec (x m) 1); [done|]. intros [= <-]. rewrite fn_lookup_insert. lia.
  - intros m' x x1 x2 Hne. destruct (N.eqb_spec (x m') 0); [done|]. intros [= <-].
    destruct (N.ltb_spec (x m') 1); [done|]. intros [= <-]. by rewrite fn_lookup_insert_ne.
  - intros o x x' w [= <- <-]. destruct (decide (o = m)) as [->|].
    + right. rewrite fn_lookup_insert. split_and!; [done|done|]. lia.
    + left. by rewrite fn_lookup_insert_ne.
Qed.

(** ** Executions *)

Definition cpus_below (n : nat) (l : list (cid * event)) : bool := forallb (fun a => (a.1 <? n)%nat) l.

Lemma run_steps_reach n l s s' : cpus_below n l = true -> run_steps l s = Ok (tt, s') -> rtc (step n) s s'.
Proof.
  revert s. induction l as [|[c e] l IH]; intros s Hl Hrun.
  - injection Hrun as <-. constructor.
  - simpl in Hl. apply andb_prop in Hl as [Hc Hl]. apply Nat.ltb_lt in Hc.
    simpl in Hrun. apply bind_inv in Hrun as ([] & s1 & Hs1 & Hrun).
    eapply rtc_l; [by exists c, e|]. by apply IH.
Qed.

(** A sequence of actions that ends, in a state that passes a test. *)
Lemma run_checked l s (check : Kernel -> bool) :
  match run_steps l s with Ok (_, s') => check s' | _ => false end = true ->
  exists s', run_steps l s = Ok (tt, s') /\ check s' = true.
Proof. destruct (run_steps l s) as [[[] s']| |]; by eauto. Qed.

(** A kernel of [n] processors: processor [c] runs thread [c], and its idle thread
    is [n + c]. *)
Definition boot (n : nat) : Kernel := mkKernel
  (fun t => if (t <? n)%nat then mkThread Running true false false None
            else if (t <? n + n)%nat then mkThread Idle false false false (Some (Resume Run))
            else mkThread New false false false None)
  (fun c => mkCpu [] c None (n + c) None TIME_SLICE_MS false Run)
  (fun _ => []) (fun _ => None) (fun _ => 0%N).

Lemma boot_booted n : booted n (boot n).
Proof.
  split_and!; try done; simpl.
  - intros c Hc. exists c, (n + c)%nat. split_and!; [done| |].
    + by rewrite (proj2 (Nat.ltb_lt c n)).
    + rewrite (proj2 (Nat.ltb_ge (n + c) n)), (proj2 (Nat.ltb_lt (n + c) (n + n))) by lia. done.
  - intros c c' _ _. lia.
  - intros t. destruct (Nat.ltb_spec t n); [left; exists t; lia|].
    destruct (Nat.ltb_spec t (n + n)); [left; exists (t - n)%nat; lia|by right].
Qed.

Definition go (c : cid) (k : nat) : list (cid * event) := replicate k (c, Go).

(** Thread 1 waits, is switched off, but its processor stalls in [finish_switch] after
    [on_cpu] became false; processor 0 wakes the thread and runs it, it waits again,
    and processor 0 stalls before it switches away; processor 2 wakes it.  Then
    processor 1 goes on. *)
Definition race_trace : list (cid * event) :=
  [(1%nat, CallWait (Queue 0))] ++ go 1 10 ++
  [(0%nat, CallOp 0%nat)] ++ go 0 5 ++ [(0%nat, Preempt)] ++ go 0 9 ++
  [(0%nat, CallWait (Queue 0))] ++ go 0 5 ++
  [(2%nat, CallOp 0%nat)] ++ go 2 4 ++
  go 1 2 ++ [(1%nat, Preempt)] ++ go 1 4.

(** ** The theorems *)

Section theorems.
Context `{Client} (n : nat).

(** The executions that are safe: all of them on at most two processors, and on more those
    in which no processor acts inside the race. *)
Definition execution (s s' : Kernel) : Prop := (n <= 2)%nat /\ rtc (step n) s s' \/ rtc (quiet_step n) s s'.

Lemma execution_quiet s s' : booted n s -> execution s s' -> rtc (quiet_step n) s s'.
Proof. intros Hb [[Hn Hs]|Hs]; [|done]. apply steps_quiet; [done|by apply booted_inv|done]. Qed.

(** C1. On one or two processors, along every interleaving of the actions of
    [cpu_step] from start-up (thread code that waits, wakes, joins, creates, runs and
    exits; preemption; interrupts): every action of every processor has a result, so
    that no assertion fails and no thread is resumed without saved registers; and the
    state is [consistent]. *)
Theorem scheduler_safe s s' :
  (n <= 2)%nat -> booted n s -> rtc (step n) s s' ->
  consistent n s' /\ forall c e, (c < n)%nat -> exists s'', cpu_step c e s' = Ok (tt, s'').
Proof.
  intros Hn Hb Hsteps. pose proof (booted_inv n s Hb) as Hinv.
  assert (inv n s') as Hinv' by (by eapply quiet_inv, steps_quiet).
  split; [by apply inv_consistent|]. intros c e Hc.
  destruct (cpu_step_inv n s' c e Hinv' Hc) as ([] & s'' & ? & _); [by apply two_processors|by eauto].
Qed.

(** C22. On any number of processors, along every execution in which no processor takes a
    step of [finish_switch] inside the race ([race_at]), the same holds: the state is
    [consistent], and every action of a processor that is not in the race has a result. *)
Theorem scheduler_safe_unless_race s s' :
  booted n s -> rtc (quiet_step n) s s' ->
  consistent n s' /\ forall c e, (c < n)%nat -> ~ race_at n s' c -> exists s'', cpu_step c e s' = Ok (tt, s'').
Proof.
  intros Hb Hsteps. assert (inv n s') as Hinv' by (by eapply quiet_inv; [apply booted_inv|]).
  split; [by apply inv_consistent|]. intros c e Hc Hr.
  destruct (cpu_step_inv n s' c e Hinv' Hc Hr) as ([] & s'' & ? & _). by eauto.
Qed.

(** C24. In every execution on one or two processors, and on more in every execution
    outside the race, a lock is taken exactly while one processor is in the code between
    its locking and its release, and never by two processors at once. *)
Theorem locks_exclusive s s' l :
  booted n s -> execution s s' ->
  (forall c, owner s' l = Some c <-> (c < n)%nat /\ l ∈ held (at_pc (cpus s' c))) /\
  forall c c', (c < n)%nat -> (c' < n)%nat -> l ∈ held (at_pc (cpus s' c)) -> l ∈ held (at_pc (cpus s' c')) -> c = c'.
Proof.
  intros Hb Hsteps%execution_quiet; [|done].
  pose proof (quiet_sync n s s' (booted_inv n s Hb) (booted_sync n s Hb) Hsteps) as [Hl _ _ _].
  split; [apply Hl|]. intros c c'. by apply lock_exclusive.
Qed.

(** C21. In every execution on one or two processors, and on more in every execution
    outside the race: while a thread is in the queue of those who join a dead thread, some
    processor is in the code that wakes all of this queue. *)
Theorem join_wakes s s' t :
  booted n s -> execution s s' -> state (threads s' t) = Dead -> waiters s' (Join t) <> [] ->
  exists c, (c < n)%nat /\ wakes_all (Join t) (at_pc (cpus s' c)).
Proof.
  intros Hb Hsteps%execution_quiet Hd Hw; [|done]. pose proof (quiet_sync n s s' (booted_inv n s Hb) (booted_sync n s Hb) Hsteps) as Hs.
  apply (sy_join _ _ Hs t Hd). by left.
Qed.

Lemma no_lost_wakeup m cap `{!Counts m cap} s s' :
  booted n s -> rtc (quiet_step n) s s' -> waiters s' (Queue m) <> [] -> supply n (Queue m) s' (cap (cond s')).
Proof.
  intros Hb Hsteps Hw.
  pose proof (quiet_counted n m cap s s' (booted_inv n s Hb) (booted_sync n s Hb) (booted_counted n m cap s Hb) Hsteps) as Hct.
  apply (ct_supply n m cap s' Hct). by left.
Qed.
End theorems.

(** Nobody is about to wake a thread, or to test a condition after being woken. *)
Definition quiescent (n : nat) (s : Kernel) : Prop :=
  (forall c, (c < n)%nat -> at_pc (cpus s c) = Run) /\
  forall t r, context (threads s t) = Some (Resume r) -> r = Run \/ state (threads s t) = Blocked.

Lemma quiescent_supply n q s k : quiescent n s -> supply n q s k -> k <= 0.
Proof.
  intros [Hcpus Hctx] (ts & _ & Hts & Hk).
  assert (ts = []) as ->.
  { destruct ts as [|t ts]; [done|]. destruct (Hts t) as (r & Hr & _ & Hb & Hw); [by left|].
    destruct (Hctx t r Hr) as [->|Hs]; [done|]. by rewrite Hs in Hb. }
  assert (total (wakes_on q s) n <= total (fun _ => 0%nat) n)%nat as Htot.
  { apply total_mono. intros c Hc. unfold wakes_on. by rewrite Hcpus. }
  assert (forall m, total (fun _ => 0%nat) m = 0%nat) as H0.
  { unfold total. intros m. induction (seq 0 m); [done|]. by simpl. }
  rewrite H0 in Htot. simpl in Hk. lia.
Qed.

(** C2. In every execution on one or two processors, and on more in every execution
    outside the race: while a thread waits for a completion, the count of it is covered by
    wake-ups that processors are about to give or that woken threads have not used yet;
    in a state where nobody is about to wake or to test, the count is zero. *)
Theorem completion_no_lost_wakeup n m s s' :
  booted n s -> execution n s s' -> waiters s' (Queue m) <> [] ->
  supply n (Queue m) s' (count m (cond s')) /\ (quiescent n s' -> cond s' m = 0%N).
Proof.
  intros Hb Hsteps%execution_quiet Hw; [|done]. pose proof (no_lost_wakeup n m (count m) s s' Hb Hsteps Hw) as Hs.
  split; [done|]. intros Hq. pose proof (quiescent_supply _ _ _ _ Hq Hs) as Hc. unfold count in Hc. lia.
Qed.

(** C23. On three processors an execution from start-up leads to a state in which two
    processors run the same thread, and in which one of them is about to resume a thread
    without saved registers. *)
Theorem three_processor_race : exists s',
  booted 3 (boot 3) /\ rtc (step 3) (boot 3) s' /\
  current (cpus s' 0%nat) = current (cpus s' 1%nat) /\ cpu_step 1 Go s' = Undef.
Proof.
  destruct (run_checked race_trace (boot 3) (fun s =>
    bool_decide (current (cpus s 0%nat) = current (cpus s 1%nat)) &&
    match cpu_step 1 Go s with Undef => true | _ => false end)) as (s' & Hrun & [Hcur Hstep]%andb_prop);
    [vm_compute; reflexivity|].
  exists s'. split_and!; [apply boot_booted| | |].
  - by apply (run_steps_reach 3 race_trace).
  - by apply bool_decide_eq_true in Hcur.
  - by destruct (cpu_step 1 Go s').
Qed.

(** ** Executions on two processors *)

(** Thread 1 waits for completion 0 and is switched off; thread 0 completes it and is
    about to wake. *)
Definition wake_trace : list (cid * event) :=
  [(1%nat, CallWait (Queue 0))] ++ go 1 12 ++ [(0%nat, CallOp 0%nat)] ++ go 0 1.

(** Thread 1 joins thread 0, which exits. *)
Definition join_trace : list (cid * event) :=
  [(1%nat, CallWait (Join 0))] ++ go 1 12 ++ [(0%nat, CallExit)] ++ go 0 1.

Lemma quiet_two l s' : cpus_below 2 l = true -> run_steps l (boot 2) = Ok (tt, s') ->
  rtc (quiet_step 2) (boot 2) s'.
Proof.
  intros Hl Hrun. apply steps_quiet; [lia|apply booted_inv, boot_booted|by apply (run_steps_reach 2 l)].
Qed.

Lemma scheduler_safe_witness : exists s',
  waiters s' (Queue 0) = [1%nat] /\ consistent 2 s' /\
  forall c e, (c < 2)%nat -> exists s'', cpu_step c e s' = Ok (tt, s'').
Proof.
  destruct (run_checked wake_trace (boot 2) (fun s => bool_decide (waiters s (Queue 0) = [1%nat])))
    as (s' & Hrun & Hw%bool_decide_eq_true); [vm_compute; reflexivity|].
  exists s'. split; [done|]. apply (scheduler_safe 2 (boot 2)); [lia|apply boot_booted|].
  by apply (run_steps_reach 2 wake_trace).
Defined.

Lemma scheduler_safe_unless_race_witness : exists s',
  waiters s' (Queue 0) = [1%nat] /\ consistent 2 s' /\
  forall c e, (c < 2)%nat -> ~ race_at 2 s' c -> exists s'', cpu_step c e s' = Ok (tt, s'').
Proof.
  destruct (run_checked wake_trace (boot 2) (fun s => bool_decide (waiters s (Queue 0) = [1%nat])))
    as (s' & Hrun & Hw%bool_decide_eq_true); [vm_compute; reflexivity|].
  exists s'. split; [done|]. apply (scheduler_safe_unless_race 2 (boot 2)); [apply boot_booted|].
  by apply (quiet_two wake_trace).
Defined.

Lemma locks_exclusive_witness : exists s',
  waiters s' (Queue 0) = [1%nat] /\
  (forall c, owner s' (Cond 0) = Some c <-> (c < 2)%nat /\ Cond 0 ∈ held (at_pc (cpus s' c))).
Proof.
  destruct (run_checked wake_trace (boot 2) (fun s => bool_decide (waiters s (Queue 0) = [1%nat])))
    as (s' & Hrun & Hw%bool_decide_eq_true); [vm_compute; reflexivity|].
  exists s'. split; [done|]. apply (locks_exclusive 2 (boot 2)); [apply boot_booted|].
  left. split; [lia|]. by apply (run_steps_reach 2 wake_trace).
Defined.

Lemma join_wakes_witness : exists s',
  waiters s' (Join 0) = [1%nat] /\ exists c, (c < 2)%nat /\ wakes_all (Join 0) (at_pc (cpus s' c)).
Proof.
  destruct (run_checked join_trace (boot 2) (fun s =>
    bool_decide (waiters s (Join 0) = [1%nat]) && bool_decide (state (threads s 0%nat) = Dead)))
    as (s' & Hrun & [Hw%bool_decide_eq_true Hd%bool_decide_eq_true]%andb_prop); [vm_compute; reflexivity|].
  exists s'. split; [done|]. apply (join_wakes 2 (boot 2)); [apply boot_booted| |done|by rewrite Hw].
  left. split; [lia|]. by apply (run_steps_reach 2 join_trace).
Defined.

Lemma completion_no_lost_wakeup_witness : exists s',
  waiters s' (Queue 0) = [1%nat] /\ cond s' 0%nat = 1%N /\ supply 2 (Queue 0) s' (count 0 (cond s')).
Proof.
  destruct (run_checked wake_trace (boot 2) (fun s =>
    bool_decide (waiters s (Queue 0) = [1%nat]) && (cond s 0%nat =? 1)%N))
    as (s' & Hrun & [Hw%bool_decide_eq_true Hd%N.eqb_eq]%andb_prop); [vm_compute; reflexivity|].
  exists s'. split_and!; [done..|]. apply (completion_no_lost_wakeup 2 0 (boot 2)); [apply boot_booted| |by rewrite Hw].
  left. split; [lia|]. by apply (run_steps_reach 2 wake_trace).
Defined.
