(* ===== verification/Buddy.v ===== *)
(** * The buddy allocator of page frames (src/kernel/memory/frame)

    frame.rs, number.rs, zone.rs, anonymous.rs, assigned.rs, reference.rs, options.rs
    (without fixed frames) and buddy.rs.  The array of frame structures is a map from frame
    numbers: a frame whose structure is not mapped in the vmemmap area cannot be
    accessed.  A free list is the list of the frame numbers whose nodes it links;
    the flag in [Buddy] says that the node is linked. *)

From stdpp Require Import base tactics list gmap functions.
From S2P Require Import Prelude CMonad.
Local Open Scope Z_scope.

(** ** Frame numbers and orders *)

Abbreviation FrameNumber := Z.
Abbreviation FrameOrder := Z.

Definition PAGE_SIZE : Z := 4096.
Definition USIZE : Z := 2 ^ 64.
Definition VMEMMAP_BASE : Z := 0xFFFFF80000000000.
Definition VMEMMAP_END : Z := VMEMMAP_BASE + 0x0000040000000000.
Definition FRAME_BYTES : Z := 64.
Definition MAX_ORDER : FrameOrder := 10.

Definition to_count (order : FrameOrder) : Z := Z.shiftl 1 order.
Definition align_down (n : FrameNumber) (order : FrameOrder) : FrameNumber :=
  Z.ldiff n (Z.shiftl 1 order - 1).

(** [usize::trailing_zeros], 64 for 0. *)
Fixpoint trailing_zeros_pos (p : positive) : Z :=
  match p with xO p => 1 + trailing_zeros_pos p | _ => 0 end.
Definition trailing_zeros (n : Z) : Z :=
  match n with Zpos p => trailing_zeros_pos p | _ => 64 end.

(** ** Zones *)

Inductive ZoneType : Type := LinearMem | MEM32.
#[export] Instance ZoneType_eq_dec : EqDecision ZoneType.
Proof. solve_decision. Defined.

Definition zone_from_index (index : Z) : option ZoneType :=
  if index =? 0 then Some MEM32 else if index =? 1 then Some LinearMem else None.

(** [range()], in frame numbers. *)
Definition zone_range (z : ZoneType) : FrameNumber * FrameNumber :=
  match z with
  | LinearMem => (Z.shiftl 1 32 / PAGE_SIZE, (USIZE - 1) / PAGE_SIZE)
  | MEM32 => (0, Z.shiftl 1 32 / PAGE_SIZE)
  end.

(** ** Frames *)

Inductive FrameTag : Type :=
| Uninited | HardwareReserved | SystemReserved | BadMemory | Free
| Anonymous | Buddy | Slub | Tail | AssignedFixed | PageTable.
#[export] Instance FrameTag_eq_dec : EqDecision FrameTag.
Proof. solve_decision. Defined.

(** The union [FrameData]; what slabs and page tables keep there is not used. *)
Inductive FrameData : Type :=
| DUnused
| DRange (start end_ : FrameNumber)
| DBuddy (linked : bool) (order : FrameOrder) (zone_type : ZoneType)
| DAnonymous (order : FrameOrder)
| DAssigned (order : FrameOrder) (original_tag : FrameTag)
| DOther.

Record Frame : Type := mkFrame { refcount : Z; tag : FrameTag; data : FrameData }.

Record Memory : Type := mkMemory {
  frames : gmap Z Frame;
  free : ZoneType * FrameOrder -> list FrameNumber;
  allocated_pages : Z
}.

(** Owned frames: the first one and the order. *)
Record UniqueFrames : Type := mkUnique { start : FrameNumber; order : FrameOrder }.

Section buddy.
Abbreviation B := (M Memory).

Definition set_frame (n : FrameNumber) (f : Frame) : B unit :=
  modify (fun m => mkMemory (<[n := f]> (frames m)) (free m) (allocated_pages m)).
Definition set_free (z : ZoneType) (o : FrameOrder) (l : list FrameNumber) : B unit :=
  modify (fun m => mkMemory (frames m) (<[(z, o) := l]> (free m)) (allocated_pages m)).

(** Addition of frame numbers and of orders, with the overflow checks. *)
Definition add (n k : Z) : B Z := defined_if (n + k <? USIZE) ;; ret (n + k).
Definition add_order (o k : Z) : B Z := defined_if (o + k <? 256) ;; ret (o + k).
Definition new_order (o : Z) : B FrameOrder := defined_if (o <=? MAX_ORDER) ;; ret o.

(** [Frame::get_raw]: the assertions on the address of the structure. *)
Definition get_raw (n : FrameNumber) : B FrameNumber :=
  defined_if (n <=? (USIZE - 1) / PAGE_SIZE + 1) ;;
  defined_if (VMEMMAP_BASE + n * FRAME_BYTES <? VMEMMAP_END) ;;
  ret n.

Definition frame (n : FrameNumber) : B Frame :=
  m ← gets frames ; of_option (m !! n).

Definition set_tag (n : FrameNumber) (t : FrameTag) : B unit :=
  f ← frame n ; set_frame n (mkFrame (refcount f) t (data f)).

(** [Frame::replace]; the old data have no destructor. *)
Definition replace (n : FrameNumber) (t : FrameTag) (d : FrameData) : B unit :=
  f ← frame n ; set_frame n (mkFrame (refcount f) t d).

Definition range_of (f : Frame) : B (FrameNumber * FrameNumber) :=
  match data f with DRange s e => ret (s, e) | _ => undef end.

(** ** Owned frames (reference.rs) *)

(** Tags of frames that nobody uses. *)
Definition unused_tag (t : FrameTag) : bool :=
  match t with
  | Buddy | Free | Uninited | AssignedFixed | HardwareReserved | SystemReserved | BadMemory => true
  | _ => false
  end.

Definition from_allocator (n : FrameNumber) (o : FrameOrder) : B (option UniqueFrames) :=
  start ← get_raw (align_down n o) ;
  f ← frame n ;
  defined_if (refcount f =? 0) ;;
  if unused_tag (tag f) then ret (Some (mkUnique start o))
  else
    match tag f with
    | Tail =>
      '(rs, re) ← range_of f ;
      h ← get_raw rs ;
      head ← frame h ;
      if unused_tag (tag head) then
        e ← add n (to_count o) ;
        ret (if e <=? re then Some (mkUnique start o) else None)
      else ret None
    | _ => ret None
    end.

(** [UniqueFrames::split]: the lower half stays, the upper half is returned. *)
Definition split (u : UniqueFrames) : B (UniqueFrames * UniqueFrames) :=
  defined_if (0 <? order u) ;;
  let new_order := order u - 1 in
  next ← add (start u) (to_count new_order) ;
  next ← get_raw next ;
  ret (mkUnique (start u) new_order, mkUnique next new_order).

(** [UniqueFrames::merge]; [None] when the two do not fit together. *)
Definition merge (low high : UniqueFrames) (f : UniqueFrames -> UniqueFrames -> B unit) :
    B (option UniqueFrames) :=
  if negb (order low =? order high) then ret None
  else
    lf ← frame (start low) ;
    hf ← frame (start high) ;
    if negb (bool_decide (tag lf = tag hf)) then ret None
    else
      expected ← add (start low) (to_count (order low)) ;
      if negb (expected =? start high) then ret None
      else f low high ;; ret (Some low).

Fixpoint set_tails (s e i : Z) (n : nat) : B unit :=
  match n with
  | O => ret tt
  | S n =>
    k ← add s i ;
    k ← get_raw k ;
    replace k Tail (DRange s e) ;;
    set_tails s e (i + 1) n
  end.

Definition set_tail_frames (u : UniqueFrames) : B unit :=
  let count := to_count (order u) in
  e ← add (start u) count ;
  set_tails (start u) e 1 (Z.to_nat (count - 1)).

(** ** Lists of free blocks *)

(** [Buddy::replace_frame (Buddy::new order zone)]. *)
Definition replace_buddy (n : FrameNumber) (o : FrameOrder) (z : ZoneType) : B unit :=
  replace n Buddy (DBuddy false o z).
Definition replace_anonymous (n : FrameNumber) (o : FrameOrder) : B unit :=
  replace n Anonymous (DAnonymous o).

(** [TryFrom<&mut Frame> for &mut Buddy]. *)
Definition try_buddy (n : FrameNumber) : B (option (bool * FrameOrder * ZoneType)) :=
  f ← frame n ;
  match tag f with
  | Buddy => match data f with DBuddy l o z => ret (Some (l, o, z)) | _ => undef end
  | _ => ret None
  end.
Definition buddy (n : FrameNumber) : B (bool * FrameOrder * ZoneType) :=
  b ← try_buddy n ; of_option b.

Definition put_buddy (n : FrameNumber) (l : bool) (o : FrameOrder) (z : ZoneType) : B unit :=
  f ← frame n ; set_frame n (mkFrame (refcount f) (tag f) (DBuddy l o z)).

Definition get_free_list (z : ZoneType) (o : FrameOrder) : B (list FrameNumber) :=
  defined_if (o <=? MAX_ORDER) ;; m ← gets free ; ret (m (z, o)).

(** Linking and unlinking the node of a frame; a node is linked at most once. *)
Definition link_node (n : FrameNumber) : B unit :=
  '(l, o, z) ← buddy n ; defined_if (negb l) ;; put_buddy n true o z.

Definition add_head (z : ZoneType) (o : FrameOrder) (n : FrameNumber) : B unit :=
  l ← get_free_list z o ; link_node n ;; set_free z o (n :: l).
Definition add_tail (z : ZoneType) (o : FrameOrder) (n : FrameNumber) : B unit :=
  l ← get_free_list z o ; link_node n ;; set_free z o (l ++ [n]).

Definition list_delete (z : ZoneType) (o : FrameOrder) (n : FrameNumber) : B unit :=
  l ← get_free_list z o ;
  '(k, bo, bz) ← buddy n ;
  defined_if (k && bool_decide (n ∈ l)) ;;
  put_buddy n false bo bz ;;
  set_free z o (filter (fun x => x <> n) l).

(** [add_to_free_list]; [false] for [IncorrectFrameType]. *)
Definition add_to_free_list (n : FrameNumber) (o : FrameOrder) (z : ZoneType) : B bool :=
  b ← try_buddy n ;
  match b with
  | Some _ => add_head z o n ;; ret true
  | None => ret false
  end.

(** ** Allocation *)

(** [BuddyAllocator::split]: halves until the target order is reached; the upper
    halves go to the free lists. *)
Fixpoint split_loop (fuel : nat) (z : ZoneType) (split_order target : FrameOrder)
    (u : UniqueFrames) : B UniqueFrames :=
  match fuel with
  | O => no_fuel
  | S fuel =>
    if target <? split_order then
      let split_order := split_order - 1 in
      '(u, next) ← split u ;
      f ← frame (start next) ;
      match tag f with
      | Tail | Uninited =>
        replace_buddy (start next) split_order z ;;
        add_tail z split_order (start next) ;;
        split_loop fuel z split_order target u
      | _ => undef
      end
    else ret u
  end.

Definition buddy_split (z : ZoneType) (o target : FrameOrder) (u : UniqueFrames) : B UniqueFrames :=
  u ← split_loop (S (Z.to_nat o)) z o target u ;
  '(l, _, bz) ← buddy (start u) ;
  put_buddy (start u) l target bz ;;
  ret u.

Definition fetch_allocated (f : Z -> Z) : B unit :=
  modify (fun m => mkMemory (frames m) (free m) (wrap 64 (f (allocated_pages m)))).

Fixpoint allocate_loop (fuel : nat) (z : ZoneType) (o target : FrameOrder) : B (option UniqueFrames) :=
  match fuel with
  | O => no_fuel
  | S fuel =>
    if o <=? MAX_ORDER then
      l ← get_free_list z o ;
      match l with
      | n :: _ =>
        list_delete z o n ;;
        u ← from_allocator n o ;
        u ← of_option u ;
        u ← (if negb (o =? target) then buddy_split z o target u else ret u) ;
        replace_anonymous (start u) target ;;
        set_tail_frames u ;;
        fetch_allocated (fun p => p + to_count target) ;;
        ret (Some u)
      | [] => allocate_loop fuel z (o + 1) target
      end
    else ret None
  end.

Definition allocate (z : ZoneType) (o : FrameOrder) : B (option UniqueFrames) :=
  allocate_loop (S (S (Z.to_nat MAX_ORDER))) z o o.

(** ** Release *)

Definition merge_exact (left right : UniqueFrames) : B unit :=
  '(l, o, z) ← buddy (start left) ;
  new_order ← add_order o 1 ;
  put_buddy (start left) l new_order z ;;
  set_tag (start right) Uninited ;;
  add_head z new_order (start left).

(** [merge_once]: [inl] the merged frames, [inr] the frames as they were. *)
Definition merge_once (u : UniqueFrames) (current : FrameOrder) (range : FrameNumber * FrameNumber) :
    B (UniqueFrames + UniqueFrames) :=
  new_order ← add_order current 1 ;
  let count := to_count new_order in
  let low := align_down (start u) new_order in
  high ← add low count ;
  if (low <? fst range) || (snd range <? high) then ret (inr u)
  else
    let is_low := low =? start u in
    n ← get_raw (if is_low then high else low) ;
    other ← from_allocator n current ;
    match other with
    | None => ret (inr u)
    | Some other =>
      m ← merge (if is_low then u else other) (if is_low then other else u) merge_exact ;
      ret (match m with Some u => inl u | None => inr u end)
    end.

Fixpoint merge_loop (fuel : nat) (o max_order : FrameOrder) (range : FrameNumber * FrameNumber)
    (u : UniqueFrames) : B UniqueFrames :=
  match fuel with
  | O => no_fuel
  | S fuel =>
    if o <? max_order then
      r ← merge_once u o range ;
      match r with
      | inl u => merge_loop fuel o max_order range u
      | inr u => ret u
      end
    else ret u
  end.

(** [ZoneType::from_address], of the address of a frame. *)
Definition zone_of_frame (n : FrameNumber) : B ZoneType :=
  defined_if (0x100 <=? n) ;; ret (if n <? 0x100000 then MEM32 else LinearMem).

Definition MERGE_FUEL : nat := 16.

(** [false] for [IncorrectFrameType]. *)
Definition deallocate (n : FrameNumber) : B bool :=
  z ← zone_of_frame n ;
  f ← frame n ;
  match tag f with
  | Anonymous =>
    match data f with
    | DAnonymous o =>
      replace_buddy n o z ;;
      u ← from_allocator n o ;
      u ← of_option u ;
      fetch_allocated (fun p => p - to_count o) ;;
      max_order ← new_order (Z.min (trailing_zeros (start u)) MAX_ORDER) ;
      u ← merge_loop MERGE_FUEL o max_order (zone_range z) u ;
      add_to_free_list (start u) o z
    | _ => undef
    end
  | _ => ret false
  end.

(** ** Building the free lists at start-up *)

Record ZoneState : Type := mkZoneState {
  current_index : Z; zone_start : FrameNumber; zone_end : FrameNumber
}.
Definition zone_state_new : ZoneState :=
  mkZoneState 0 (fst (zone_range MEM32)) (snd (zone_range MEM32)).

Fixpoint zone_loop (fuel : nat) (n : FrameNumber) (z : ZoneType) (st : ZoneState) :
    B (ZoneType * ZoneState) :=
  match fuel with
  | O => no_fuel
  | S fuel =>
    if zone_end st <=? n then
      let index := current_index st + 1 in
      z ← of_option (zone_from_index index) ;
      zone_loop fuel n z (mkZoneState index (fst (zone_range z)) (snd (zone_range z)))
    else ret (z, st)
  end.

Definition get_zone_for_frame (n : FrameNumber) (st : ZoneState) : B (ZoneType * ZoneState) :=
  z ← of_option (zone_from_index (current_index st)) ;
  zone_loop 3 n z st.

Definition from_count (count : Z) : B FrameOrder :=
  defined_if (0 <? count) ;;
  defined_if (count <? to_count MAX_ORDER * 2) ;;
  new_order (trailing_zeros count).

(** One round per block; a block has at least one frame. *)
Fixpoint add_free_block (fuel : nat) (st : ZoneState) (s e : FrameNumber) : B ZoneState :=
  match fuel with
  | O => no_fuel
  | S fuel =>
    if s <? e then
      '(z, st) ← get_zone_for_frame s st ;
      let s := Z.max s (zone_start st) in
      max_order ← (if s =? 0 then ret MAX_ORDER
                   else new_order (Z.min (trailing_zeros s) MAX_ORDER)) ;
      limit ← add s (to_count max_order) ;
      let chunk_end := Z.min (Z.min e limit) (zone_end st) in
      o ← from_count (Z.abs (chunk_end - s)) ;
      n ← get_raw s ;
      u ← from_allocator n 0 ;
      u ← of_option u ;
      replace_buddy (start u) o z ;;
      add_to_free_list (start u) o z ;;
      add_free_block fuel st chunk_end e
    else ret st
  end.

Definition block_fuel (s e : FrameNumber) : nat := S (Z.to_nat (e - s)).

Definition scan_frame (st : ZoneState) (n : FrameNumber) : B (ZoneState * FrameNumber) :=
  n ← get_raw n ;
  f ← frame n ;
  match tag f with
  | Free =>
    u ← from_allocator n 0 ;
    u ← of_option u ;
    f ← frame (start u) ;
    '(s, e) ← range_of f ;
    st ← add_free_block (block_fuel s e) st s e ;
    ret (st, e)
  | HardwareReserved | SystemReserved => '(_, e) ← range_of f ; ret (st, e)
  | Uninited | PageTable => n ← add n 1 ; ret (st, n)
  | _ => undef
  end.

Definition VMAP_PER_PAGE : Z := PAGE_SIZE / FRAME_BYTES.

(** Each round passes at least one frame of the page. *)
Fixpoint scan_page (fuel : nat) (st : ZoneState) (n range_end : FrameNumber) :
    B (ZoneState * FrameNumber) :=
  match fuel with
  | O => no_fuel
  | S fuel =>
    if n <? range_end then
      '(st, n) ← scan_frame st n ; scan_page fuel st n range_end
    else ret (st, n)
  end.

(** The mapped pages of the vmemmap area, by their position in it. *)
Fixpoint scan_pages (st : ZoneState) (n : FrameNumber) (pages : list Z) : B (ZoneState * FrameNumber) :=
  match pages with
  | [] => ret (st, n)
  | page :: pages =>
    let num := page * VMAP_PER_PAGE in
    '(st, n) ← scan_page (S (Z.to_nat VMAP_PER_PAGE)) st (Z.max n num) (num + VMAP_PER_PAGE) ;
    scan_pages st n pages
  end.

Definition init_zone_lists : B unit :=
  modify (fun m => mkMemory (frames m) (fun _ => []) (allocated_pages m)).

Definition populate_zones (prealloc_start prealloc_end : FrameNumber) (pages : list Z) : B unit :=
  n ← get_raw prealloc_start ;
  f ← frame n ;
  '(_, e) ← range_of f ;
  n ← get_raw prealloc_end ;
  replace n Free (DRange prealloc_end e) ;;
  '(_, _) ← scan_pages zone_state_new 0 pages ;
  ret tt.

Definition init (prealloc_start prealloc_end : FrameNumber) (pages : list Z) : B unit :=
  init_zone_lists ;; populate_zones prealloc_start prealloc_end pages.

(** ** References to frames (reference.rs) *)

Definition EXCLUSIVE : Z := 0.

Definition set_refcount (n : FrameNumber) (c : Z) : B unit :=
  f ← frame n ; set_frame n (mkFrame c (tag f) (data f)).

(** [FrameRc::update]: [f] gives the new count, or [None]. *)
Definition update (n : FrameNumber) (g : Z -> B (option Z)) : B (option Z) :=
  f ← frame n ;
  c ← g (refcount f) ;
  match c with
  | Some c => set_refcount n c ;; ret (Some (refcount f))
  | None => ret None
  end.

Definition acquire (n : FrameNumber) : B bool :=
  r ← update n (fun v => c ← add v 1 ; ret (if v =? EXCLUSIVE then None else Some c)) ;
  ret (match r with Some _ => true | None => false end).
Definition release (n : FrameNumber) : B (option Z) :=
  update n (fun v => ret (if v =? EXCLUSIVE then Some v else if v =? 1 then None else Some (v - 1))).
Definition is_unique (f : Frame) : bool :=
  (refcount f =? EXCLUSIVE) && negb (bool_decide (tag f = Buddy)).
Definition rc_try_upgrade (n : FrameNumber) : B bool :=
  f ← frame n ;
  if refcount f =? 1 then set_refcount n EXCLUSIVE ;; ret true else ret false.

Definition frame_order (n : FrameNumber) : B FrameOrder :=
  f ← frame n ;
  match tag f, data f with
  | Anonymous, DAnonymous o | AssignedFixed, DAssigned o _ | Buddy, DBuddy _ o _ => ret o
  | Tail, DRange s e => from_count (Z.abs (e - s))
  | Anonymous, _ | AssignedFixed, _ | Buddy, _ | Tail, _ => undef
  | _, _ => ret 0
  end.

Record SharedFrames : Type := mkShared { shared : FrameNumber; shared_order : FrameOrder }.

Definition shared_new (n : FrameNumber) : B (option SharedFrames) :=
  ok ← acquire n ;
  if ok then o ← frame_order n ; ret (Some (mkShared n o)) else ret None.

Definition shared_from_raw (n : FrameNumber) : B (option SharedFrames) :=
  f ← frame n ;
  if negb (refcount f =? EXCLUSIVE) then o ← frame_order n ; ret (Some (mkShared n o))
  else ret None.

Definition clone (s : SharedFrames) : B SharedFrames :=
  ok ← acquire (shared s) ; defined_if ok ;; ret s.

Definition try_from_raw (n : FrameNumber) : B (option UniqueFrames) :=
  f ← frame n ;
  if is_unique f then
    o ← frame_order n ;
    s ← match tag f with
        | Tail => '(s, _) ← range_of f ; get_raw s
        | _ => ret n
        end ;
    ret (Some (mkUnique s o))
  else ret None.

Definition downgrade (u : UniqueFrames) : B SharedFrames :=
  set_refcount (start u) 1 ;; ret (mkShared (start u) (order u)).

(** [free_last]: an error is only printed. *)
Definition free_last (n : FrameNumber) : B unit := _ ← deallocate n ; ret tt.

Definition restore_assigned (u : UniqueFrames) : B unit :=
  f ← frame (start u) ;
  match data f with
  | DAssigned o original_tag =>
    set_tail_frames u ;;
    match original_tag with
    | Anonymous => free_last (start u)
    | HardwareReserved | SystemReserved | BadMemory | Free =>
      e ← add (start u) (to_count o) ;
      replace (start u) original_tag (DRange (start u) e)
    | _ => undef
    end
  | _ => undef
  end.

(** [Drop for UniqueFrames]. *)
Definition drop_unique (u : UniqueFrames) : B unit :=
  f ← frame (start u) ;
  match tag f with
  | AssignedFixed => restore_assigned u
  | _ => free_last (start u)
  end.

(** [Drop for SharedFrames]; what is done to the tables that refer to a page table
    (page/table.rs) is the argument [drop_table]. *)
Definition drop_shared (drop_table : FrameNumber -> B unit) (s : SharedFrames) : B unit :=
  r ← release (shared s) ;
  match r with
  | Some _ => ret tt
  | None =>
    f ← frame (shared s) ;
    match tag f with PageTable => drop_table (shared s) | _ => ret tt end ;;
    _ ← release (shared s) ;
    replace_anonymous (shared s) (shared_order s) ;;
    drop_unique (mkUnique (shared s) (shared_order s))
  end.

Definition shared_try_upgrade (drop_table : FrameNumber -> B unit) (s : SharedFrames) :
    B (option UniqueFrames) :=
  ok ← rc_try_upgrade (shared s) ;
  if ok then ret (Some (mkUnique (shared s) (shared_order s)))
  else drop_shared drop_table s ;; ret None.

(** ** Requests (options.rs), for frames at any address *)

Inductive RetryPolicy : Type := FastFail | Retry (n : nat).

Fixpoint try_alloc (chain : list ZoneType) (o : FrameOrder) : B (option (UniqueFrames * ZoneType)) :=
  match chain with
  | [] => ret None
  | z :: chain =>
    r ← allocate z o ;
    match r with
    | Some u => ret (Some (u, z))
    | None => try_alloc chain o
    end
  end.

Fixpoint try_again (n : nat) (chain : list ZoneType) (o : FrameOrder) :
    B (option (UniqueFrames * ZoneType)) :=
  match n with
  | O => ret None
  | S n =>
    r ← try_alloc chain o ;
    match r with Some r => ret (Some r) | None => try_again n chain o end
  end.

Definition alloc_frames (chain : list ZoneType) (retry : RetryPolicy) (o : FrameOrder) :
    B (option (UniqueFrames * ZoneType)) :=
  r ← try_alloc chain o ;
  match r, retry with
  | Some r, _ => ret (Some r)
  | None, FastFail => ret None
  | None, Retry n => try_again n chain o
  end.

Definition default_chain : list ZoneType := [LinearMem; MEM32].
Definition alloc_kernel (o : FrameOrder) := alloc_frames default_chain (Retry 3) o.
Definition alloc_atomic (o : FrameOrder) := alloc_frames default_chain FastFail o.
End buddy.
