(* ===== verification/BuddyFacts.v ===== *)
(** * The buddy allocator: theorems

    The invariant [binv]: the free blocks of the lists and the blocks handed out are
    aligned, disjoint, and described by their frame structures.  Allocation and
    release refine operations on lists of block numbers, and no frame is ever lost
    or handed out twice. *)

From stdpp Require Import base tactics list gmap functions.
From S2P Require Import Prelude CMonad Buddy.
Local Open Scope Z_scope.

(** ** Numbers *)

(** The number of frame structures the vmemmap area has room for. *)
Definition LIMIT : Z := 2 ^ 36.

Lemma to_count_pow o : 0 <= o -> to_count o = 2 ^ o.
Proof. intros. unfold to_count. by rewrite Z.shiftl_1_l. Qed.

Lemma align_down_mod n o : 0 <= o -> align_down n o = n - n mod 2 ^ o.
Proof.
  intros. unfold align_down.
  replace (Z.shiftl 1 o - 1) with (Z.ones o) by (rewrite Z.ones_equiv, Z.shiftl_1_l; lia).
  rewrite Z.ldiff_ones_r, Z.shiftl_mul_pow2, Z.shiftr_div_pow2 by done.
  pose proof (Z.div_mod n (2 ^ o) ltac:(lia)). lia.
Qed.

Lemma align_down_aligned n o : 0 <= o -> (2 ^ o | n) -> align_down n o = n.
Proof.
  intros ? Hd. rewrite align_down_mod by done. apply Z.mod_divide in Hd; [lia|].
  apply Z.pow_nonzero; lia.
Qed.

Lemma trailing_zeros_pos_spec p :
  0 <= trailing_zeros_pos p /\ (2 ^ trailing_zeros_pos p | Zpos p) /\
  ~ (2 ^ (trailing_zeros_pos p + 1) | Zpos p).
Proof.
  induction p as [p _|p (Hp & Hd & Hn)|]; simpl.
  - split; [lia|]. split; [apply Z.divide_1_l|]. intros [q Hq]. lia.
  - split; [lia|]. replace (Zpos p~0) with (2 * Zpos p) by lia. split.
    + rewrite Z.pow_add_r by lia. by apply Z.mul_divide_mono_l.
    + intros Hd'. apply Hn. replace (1 + trailing_zeros_pos p + 1) with (1 + (trailing_zeros_pos p + 1)) in Hd' by lia.
      rewrite (Z.pow_add_r 2 1) in Hd' by lia. apply Z.mul_divide_cancel_l in Hd'; [done|lia].
  - split; [lia|]. split; [apply Z.divide_1_l|]. intros [q Hq]. lia.
Qed.

(** [trailing_zeros n] is the largest order to which [n] is aligned. *)
Lemma trailing_zeros_aligned n o : 0 <= o < 64 -> 0 <= n -> o <= trailing_zeros n <-> (2 ^ o | n).
Proof.
  intros Ho Hn. destruct n as [|p|]; [|clear Hn|lia]; simpl.
  - split; [intros _; apply Z.divide_0_r|lia].
  - destruct (trailing_zeros_pos_spec p) as (Hp & Hd & Hno). split; intros H.
    + etrans; [|done]. exists (2 ^ (trailing_zeros_pos p - o)).
      rewrite <- Z.pow_add_r by lia. f_equal. lia.
    + destruct (Z.le_gt_cases o (trailing_zeros_pos p)) as [|Hlt]; [done|]. destruct Hno.
      etrans; [|exact H]. exists (2 ^ (o - (trailing_zeros_pos p + 1))).
      rewrite <- Z.pow_add_r by lia. f_equal. lia.
Qed.

Lemma pow_le_1024 o : 0 <= o <= MAX_ORDER -> 1 <= 2 ^ o <= 1024.
Proof.
  intros Ho. split; [pose proof (Z.pow_pos_nonneg 2 o); lia|].
  change 1024 with (2 ^ MAX_ORDER). apply Z.pow_le_mono_r; lia.
Qed.

Lemma pow_double o : 0 <= o -> 2 ^ (o + 1) = 2 * 2 ^ o.
Proof. intros. rewrite Z.pow_add_r by lia. lia. Qed.

(** ** Rules for the primitives *)

Definition upd (n : Z) (f : Frame) (m : Memory) : Memory :=
  mkMemory (<[n := f]> (frames m)) (free m) (allocated_pages m).
Definition upd_free (z : ZoneType) (o : Z) (l : list Z) (m : Memory) : Memory :=
  mkMemory (frames m) (<[(z, o) := l]> (free m)) (allocated_pages m).

Lemma frame_ok m n f : frames m !! n = Some f -> frame n m = Ok (f, m).
Proof. intros H. unfold frame. run. by rewrite H. Qed.

Lemma get_raw_ok m n : n < LIMIT -> get_raw n m = Ok (n, m).
Proof.
  intros H. unfold LIMIT in H. unfold get_raw. run.
  rewrite (proj2 (Z.leb_le _ _)) by (change ((USIZE - 1) / PAGE_SIZE) with (2 ^ 52 - 1); lia).
  rewrite (proj2 (Z.ltb_lt _ _)); [done|].
  unfold VMEMMAP_END, FRAME_BYTES. change 0x0000040000000000 with (64 * 2 ^ 36). lia.
Qed.

Lemma add_ok m n k : n + k < USIZE -> Buddy.add n k m = Ok (n + k, m).
Proof. intros H. unfold Buddy.add. run. by rewrite (proj2 (Z.ltb_lt _ _)). Qed.

Lemma replace_ok m n f t d :
  frames m !! n = Some f -> Buddy.replace n t d m = Ok (tt, upd n (mkFrame (refcount f) t d) m).
Proof. intros H. unfold Buddy.replace. by rewrite (bind_ok _ _ _ _ _ (frame_ok _ _ _ H)). Qed.

Lemma buddy_ok m n c l o z :
  frames m !! n = Some (mkFrame c Buddy (DBuddy l o z)) -> buddy n m = Ok ((l, o, z), m).
Proof. intros H. unfold buddy, try_buddy, frame. run. by rewrite H. Qed.

Lemma put_buddy_ok m n f l o z :
  frames m !! n = Some f -> put_buddy n l o z m = Ok (tt, upd n (mkFrame (refcount f) (tag f) (DBuddy l o z)) m).
Proof. intros H. unfold put_buddy. by rewrite (bind_ok _ _ _ _ _ (frame_ok _ _ _ H)). Qed.

Lemma get_free_list_ok m z o : o <= MAX_ORDER -> get_free_list z o m = Ok (free m (z, o), m).
Proof. intros H. unfold get_free_list. run. by rewrite (proj2 (Z.leb_le _ _)). Qed.

Lemma buddy_link_ok m n c o z :
  frames m !! n = Some (mkFrame c Buddy (DBuddy false o z)) ->
  link_node n m = Ok (tt, upd n (mkFrame c Buddy (DBuddy true o z)) m).
Proof.
  intros H. unfold link_node. rewrite (bind_ok _ _ _ _ _ (buddy_ok _ _ _ _ _ _ H)).
  by rewrite (bind_ok _ _ _ tt m), (put_buddy_ok _ _ _ _ _ _ H).
Qed.

(** A block enters a list. *)
Definition listed (z : ZoneType) (n o : Z) (l : list Z) (m : Memory) : Memory :=
  upd_free z o l (upd n (mkFrame 0 Buddy (DBuddy true o z)) m).

Lemma upd_twice n f g m : upd n f (upd n g m) = upd n f m.
Proof. unfold upd; simpl. by rewrite insert_insert_eq. Qed.

(** Running a bind whose first command has a known result. *)
Ltac step H := rewrite (bind_ok _ _ _ _ _ H); cbv beta iota.

Lemma bind_fails {S A B} (m : M S A) (k : A -> M S B) s : m s = Undef -> bind m k s = Undef.
Proof. intros H. unfold bind. by rewrite H. Qed.

Lemma get_raw_fails m n : LIMIT <= n -> get_raw n m = Undef.
Proof.
  intros H. unfold LIMIT in H. unfold get_raw. run. destruct (_ <=? _); [|done].
  rewrite (proj2 (Z.ltb_ge _ _)); [done|]. unfold VMEMMAP_END, FRAME_BYTES. change 0x0000040000000000 with (64 * 2 ^ 36). lia.
Qed.

Lemma frame_fails m n : frames m !! n = None -> frame n m = Undef.
Proof. intros H. unfold frame. run. by rewrite H. Qed.

Lemma from_allocator_ok m n o f :
  0 <= o -> (2 ^ o | n) -> n < LIMIT ->
  frames m !! n = Some f -> refcount f = 0 -> unused_tag (tag f) = true ->
  from_allocator n o m = Ok (Some (mkUnique n o), m).
Proof.
  intros Ho Hd Hn Hf Hc Ht. unfold from_allocator. rewrite align_down_aligned by done.
  step (get_raw_ok m n Hn). step (frame_ok m n f Hf). rewrite Hc, Ht. done.
Qed.

Lemma listed_upd z n o l g m : listed z n o l (upd n g m) = listed z n o l m.
Proof. unfold listed. by rewrite upd_twice. Qed.

Lemma add_tail_ok m z n o :
  o <= MAX_ORDER -> frames m !! n = Some (mkFrame 0 Buddy (DBuddy false o z)) ->
  add_tail z o n m = Ok (tt, listed z n o (free m (z, o) ++ [n]) m).
Proof.
  intros Ho Hf. unfold add_tail. step (get_free_list_ok m z o Ho). by step (buddy_link_ok m n 0 o z Hf).
Qed.

Lemma add_head_ok m z n o :
  o <= MAX_ORDER -> frames m !! n = Some (mkFrame 0 Buddy (DBuddy false o z)) ->
  add_head z o n m = Ok (tt, listed z n o (n :: free m (z, o)) m).
Proof.
  intros Ho Hf. unfold add_head. step (get_free_list_ok m z o Ho). by step (buddy_link_ok m n 0 o z Hf).
Qed.

(** The upper halves of a block of order [t + k], cut off one after the other. *)
Fixpoint carve (z : ZoneType) (n t : Z) (k : nat) (m : Memory) : Memory :=
  match k with
  | O => m
  | S k =>
    let o := t + Z.of_nat k in
    carve z n t k (listed z (n + 2 ^ o) o (free m (z, o) ++ [n + 2 ^ o]) m)
  end.

(** A frame inside of a block. *)
Definition inner (m : Memory) (i : Z) : Prop :=
  exists f, frames m !! i = Some f /\ refcount f = 0 /\ (tag f = Tail \/ tag f = Uninited).

Lemma pow_lt_inj a b : 0 <= a -> a < b -> 2 ^ a < 2 ^ b.
Proof. intros. apply Z.pow_lt_mono_r; lia. Qed.

Lemma listed_other z n o l m i : i <> n -> frames (listed z n o l m) !! i = frames m !! i.
Proof. intros. by apply lookup_insert_ne. Qed.

Lemma carve_other z n t k m i :
  0 <= t -> (forall j, t <= j < t + Z.of_nat k -> i <> n + 2 ^ j) ->
  frames (carve z n t k m) !! i = frames m !! i.
Proof.
  intros Ht. revert m. induction k as [|k IH]; intros m Hi; simpl; [done|].
  rewrite IH by (intros; apply Hi; lia). apply listed_other, Hi. lia.
Qed.

Lemma carve_half z n t k m j :
  0 <= t -> t <= j < t + Z.of_nat k ->
  frames (carve z n t k m) !! (n + 2 ^ j) = Some (mkFrame 0 Buddy (DBuddy true j z)).
Proof.
  intros Ht. revert m. induction k as [|k IH]; intros m Hj; simpl; [lia|].
  destruct (decide (j = t + Z.of_nat k)) as [->|].
  - rewrite carve_other; [by apply lookup_insert_eq|done|].
    intros j' Hj' He. pose proof (pow_lt_inj j' (t + Z.of_nat k)). lia.
  - apply IH. lia.
Qed.

(** The free lists after the cuts. *)
Fixpoint cut (z : ZoneType) (n t : Z) (k : nat) (F : ZoneType * Z -> list Z) : ZoneType * Z -> list Z :=
  match k with
  | O => F
  | S k => let o := t + Z.of_nat k in cut z n t k (<[(z, o) := F (z, o) ++ [n + 2 ^ o]]> F)
  end.

Lemma carve_free z n t k m : free (carve z n t k m) = cut z n t k (free m).
Proof. revert m. induction k as [|k IH]; intros m; simpl; [done|]. by rewrite IH. Qed.

Lemma carve_pages z n t k m : allocated_pages (carve z n t k m) = allocated_pages m.
Proof. revert m. induction k as [|k IH]; intros m; simpl; [done|]. by rewrite IH. Qed.

Lemma cut_lookup z n t k F z' o' :
  cut z n t k F (z', o') =
  if bool_decide (z' = z /\ t <= o' < t + Z.of_nat k) then F (z', o') ++ [n + 2 ^ o'] else F (z', o').
Proof.
  revert F. induction k as [|k IH]; intros F; simpl.
  - by rewrite bool_decide_eq_false_2 by lia.
  - rewrite IH. destruct (decide ((z, t + Z.of_nat k) = (z', o'))) as [[= <- <-]|Hne].
    + rewrite bool_decide_eq_false_2 by lia. rewrite bool_decide_eq_true_2 by (split; [done|lia]).
      by rewrite fn_lookup_insert.
    + rewrite fn_lookup_insert_ne by done. case_bool_decide as H1; case_bool_decide as H2; try done.
      * destruct H1 as [-> ?]. destruct H2; split; [done|lia].
      * destruct H2 as [-> ?]. destruct (decide (o' = t + Z.of_nat k)) as [->|]; [done|].
        destruct H1; split; [done|lia].
Qed.

Lemma split_loop_ok z n t k m fuel :
  0 <= t -> t + Z.of_nat k <= MAX_ORDER -> n + 2 ^ (t + Z.of_nat k) <= LIMIT ->
  (forall i, n < i < n + 2 ^ (t + Z.of_nat k) -> inner m i) -> (k < fuel)%nat ->
  split_loop fuel z (t + Z.of_nat k) t (mkUnique n (t + Z.of_nat k)) m
  = Ok (mkUnique n t, carve z n t k m).
Proof.
  intros Ht. revert m fuel. induction k as [|k IH]; intros m fuel Hk Hn Hin Hfuel;
    (destruct fuel as [|fuel]; [lia|]); cbn [split_loop carve].
  - rewrite (proj2 (Z.ltb_ge _ _)) by lia. by rewrite Z.add_0_r.
  - rewrite (proj2 (Z.ltb_lt _ _)) by lia.
    replace (t + Z.of_nat (S k) - 1) with (t + Z.of_nat k) by lia.
    set (o := t + Z.of_nat k) in *. assert (0 <= o) by lia.
    replace (t + Z.of_nat (S k)) with (o + 1) in * by lia. rewrite pow_double in Hn, Hin by lia.
    pose proof (Z.pow_pos_nonneg 2 o). unfold LIMIT in *.
    rewrite (bind_ok _ _ _ (mkUnique n o, mkUnique (n + 2 ^ o) o) m).
    2: { unfold split; simpl. rewrite (bind_ok _ _ _ tt m) by (run; by rewrite (proj2 (Z.ltb_lt _ _)) by lia).
      replace (o + 1 - 1) with o by lia. rewrite to_count_pow by done.
      step (add_ok m n (2 ^ o) ltac:(unfold USIZE; lia)). by step (get_raw_ok m (n + 2 ^ o) ltac:(unfold LIMIT; lia)). }
    destruct (Hin (n + 2 ^ o)) as (f & Hf & Hc & Htag); [lia|]. simpl start.
    step (frame_ok _ _ _ Hf).
    set (m' := upd (n + 2 ^ o) (mkFrame 0 Buddy (DBuddy false o z)) m).
    assert (replace_buddy (n + 2 ^ o) o z m = Ok (tt, m')) as Hr
      by (unfold replace_buddy; rewrite (replace_ok _ _ _ _ _ Hf); by rewrite Hc).
    assert (add_tail z o (n + 2 ^ o) m'
      = Ok (tt, listed z (n + 2 ^ o) o (free m (z, o) ++ [n + 2 ^ o]) m)) as Ha.
    { unfold m'. rewrite add_tail_ok by first [lia | by apply lookup_insert_eq]. by rewrite listed_upd. }
    assert (forall i, n < i < n + 2 ^ o -> 
      inner (listed z (n + 2 ^ o) o (free m (z, o) ++ [n + 2 ^ o]) m) i) as Hin'.
    { intros i Hi. destruct (Hin i ltac:(lia)) as (g & Hg & ?). exists g. by rewrite listed_other by lia. }
    destruct Htag as [-> | ->]; step Hr; step Ha; apply IH; first [done | lia].
Qed.

(** The frames after the first one of a block handed out. *)
Fixpoint tailed (s e i : Z) (n : nat) (m : Memory) : Memory :=
  match n with
  | O => m
  | S n => tailed s e (i + 1) n (upd (s + i) (mkFrame 0 Tail (DRange s e)) m)
  end.

Lemma tailed_other s e i n m j :
  (j < s + i \/ s + i + Z.of_nat n <= j) -> frames (tailed s e i n m) !! j = frames m !! j.
Proof.
  revert i m. induction n as [|n IH]; intros i m Hj; simpl; [done|].
  rewrite IH by lia. apply lookup_insert_ne. lia.
Qed.

Lemma tailed_tail s e i n m j :
  s + i <= j < s + i + Z.of_nat n -> frames (tailed s e i n m) !! j = Some (mkFrame 0 Tail (DRange s e)).
Proof.
  revert i m. induction n as [|n IH]; intros i m Hj; simpl; [lia|].
  destruct (decide (j = s + i)) as [->|]; [|apply IH; lia].
  rewrite tailed_other by lia. apply lookup_insert_eq.
Qed.

Lemma tailed_rest s e i n m :
  free (tailed s e i n m) = free m /\ allocated_pages (tailed s e i n m) = allocated_pages m.
Proof. revert i m. induction n as [|n IH]; intros i m; simpl; [done|].
  exact (IH (i + 1) (upd (s + i) (mkFrame 0 Tail (DRange s e)) m)).
Qed.

Lemma set_tails_ok s e i n m :
  s + i + Z.of_nat n <= LIMIT ->
  (forall j, s + i <= j < s + i + Z.of_nat n -> exists f, frames m !! j = Some f /\ refcount f = 0) ->
  set_tails s e i n m = Ok (tt, tailed s e i n m).
Proof.
  revert i m. induction n as [|n IH]; intros i m Hl Hf; simpl; [done|]. unfold LIMIT in Hl.
  step (add_ok m s i ltac:(unfold USIZE; lia)). step (get_raw_ok m (s + i) ltac:(unfold LIMIT; lia)).
  destruct (Hf (s + i)) as (f & Hs & Hc); [lia|]. step (replace_ok m _ _ Tail (DRange s e) Hs).
  rewrite Hc. apply IH; [unfold LIMIT; lia|]. intros j Hj. simpl.
  rewrite lookup_insert_ne by lia. apply Hf. lia.
Qed.

(** ** The invariant *)

(** The zone a frame belongs to. *)
Definition zone_at (n : Z) : ZoneType := if n <? 0x100000 then MEM32 else LinearMem.

(** Block [b] of order [o] is free in zone [z], or handed out. *)
Definition holds (m : Memory) (own : list UniqueFrames) (z : ZoneType) (b o : Z) : Prop :=
  b ∈ free m (z, o) \/ (z = zone_at b /\ mkUnique b o ∈ own).

(** A frame that can be looked at: mapped, not shared, and if it is the tail of a
    block then its head is mapped. *)
Definition good (m : Memory) (f : Frame) : Prop :=
  refcount f = 0 /\
  (tag f = Tail -> exists s e, data f = DRange s e /\ s < LIMIT /\ is_Some (frames m !! s)).
Definition calm (m : Memory) (i : Z) : Prop := exists f, frames m !! i = Some f /\ good m f.

Record binv (m : Memory) (own : list UniqueFrames) : Prop := {
  inv_block z b o : holds m own z b o ->
    0 <= o <= MAX_ORDER /\ (2 ^ o | b) /\ 0x100 <= b /\ b + 2 ^ o <= LIMIT /\
    z = zone_at b /\ b + 2 ^ o <= snd (zone_range z);
  inv_free z b o : b ∈ free m (z, o) -> frames m !! b = Some (mkFrame 0 Buddy (DBuddy true o z));
  inv_own b o : mkUnique b o ∈ own -> frames m !! b = Some (mkFrame 0 Anonymous (DAnonymous o));
  inv_inner z b o i : holds m own z b o -> b < i < b + 2 ^ o -> inner m i;
  inv_nodup z o : NoDup (free m (z, o));
  inv_owned : NoDup own
}.

(** A release of block [b] looks at the frame that is twice the block further on, if the block
    could be the lower half of a larger one inside of the zone: this frame can be looked at. *)
Definition readable (m : Memory) (b o : Z) : Prop :=
  (2 ^ (o + 1) | b) -> o < MAX_ORDER -> b + 2 ^ (o + 1) <= snd (zone_range (zone_at b)) ->
  b + 2 ^ (o + 1) < LIMIT /\ calm m (b + 2 ^ (o + 1)).

(** Around every block the frames can be looked at.  Nothing in the code provides for this:
    it is a condition on the memory map and on the neighbours of the blocks. *)
Definition near (m : Memory) (own : list UniqueFrames) : Prop := forall z b o i,
  holds m own z b o -> b <= i <= b + 2 ^ (o + 1) -> i <= snd (zone_range z) -> i < LIMIT /\ calm m i.

(** Frame [i] belongs to the allocator or to somebody it was given to. *)
Definition covered (m : Memory) (own : list UniqueFrames) (i : Z) : Prop :=
  exists z b o, holds m own z b o /\ b <= i < b + 2 ^ o.

Lemma calm_or_not m i : calm m i \/ ~ calm m i.
Proof.
  destruct (frames m !! i) as [f|] eqn:Hf; [|right; intros (f & Hf' & _); congruence].
  assert (calm m i <-> good m f) as ->
    by (split; [intros (g & Hg & ?); rewrite Hf in Hg; by injection Hg as <-|by exists f]).
  unfold good. destruct (decide (refcount f = 0)) as [Hc|]; [|right; by intros [? _]].
  destruct (decide (tag f = Tail)) as [Ht|]; [|left; by split].
  destruct (data f) as [|s e| | | |]; try solve [right; intros [_ H]; destruct (H Ht) as (? & ? & [=] & _)].
  destruct (decide (s < LIMIT /\ is_Some (frames m !! s))) as [?|Hn]; [left; split; [done|]; by exists s, e|].
  right. intros [_ H]. destruct (H Ht) as (? & ? & [= <- <-] & ? & ?). by apply Hn.
Qed.

Lemma calm_change m m' i :
  (forall j, is_Some (frames m !! j) -> is_Some (frames m' !! j)) -> calm m i ->
  (frames m' !! i = frames m !! i \/ exists f, frames m' !! i = Some f /\ good m' f) -> calm m' i.
Proof.
  intros Hdom (f & Hf & Hc & Ht) [He|?]; [|done]. exists f. split; [congruence|]. split; [done|].
  intros Htail. destruct (Ht Htail) as (s & e & ? & ? & ?). exists s, e. auto.
Qed.

Section invariant.
Context {m : Memory} {own : list UniqueFrames} (I : binv m own).

Lemma head_frame z b o :
  holds m own z b o -> exists f, frames m !! b = Some f /\ (tag f = Buddy \/ tag f = Anonymous).
Proof.
  intros [Hb|[_ Hb]]; [apply (inv_free _ _ I) in Hb | apply (inv_own _ _ I) in Hb]; eauto.
Qed.

Lemma head_not_inner z b o z' b' o' :
  holds m own z b o -> holds m own z' b' o' -> ~ (b < b' < b + 2 ^ o).
Proof.
  intros H H' Hb. destruct (inv_inner _ _ I _ _ _ _ H Hb) as (f & Hf & _ & Ht).
  destruct (head_frame _ _ _ H') as (f' & Hf' & Ht'). rewrite Hf in Hf'. injection Hf' as ->.
  destruct Ht as [Ht|Ht], Ht' as [Ht'|Ht']; congruence.
Qed.

Lemma holds_same z b o z' o' :
  holds m own z b o -> holds m own z' b o' -> z = z' /\ o = o'.
Proof.
  intros [H|[Hz H]] [H'|[Hz' H']];
    [apply (inv_free _ _ I) in H | apply (inv_free _ _ I) in H
    | apply (inv_own _ _ I) in H | apply (inv_own _ _ I) in H];
    [apply (inv_free _ _ I) in H' | apply (inv_own _ _ I) in H'
    | apply (inv_free _ _ I) in H' | apply (inv_own _ _ I) in H'];
    rewrite H in H'; simplify_eq; auto.
Qed.

(** Different blocks do not overlap. *)
Lemma holds_disjoint z b o z' b' o' :
  holds m own z b o -> holds m own z' b' o' -> b <> b' -> b + 2 ^ o <= b' \/ b' + 2 ^ o' <= b.
Proof.
  intros H H' Hne. pose proof (head_not_inner _ _ _ _ _ _ H H').
  pose proof (head_not_inner _ _ _ _ _ _ H' H). lia.
Qed.
End invariant.

(** ** Allocation *)

(** What allocation does: [n] is the head of the list of order [t + k] and [l] the
    rest of that list. *)
Definition taken (z : ZoneType) (n t : Z) (k : nat) (l : list Z) (m : Memory) : Memory :=
  let o := t + Z.of_nat k in
  let m1 := carve z n t k (upd_free z o l (upd n (mkFrame 0 Buddy (DBuddy false o z)) m)) in
  let m2 := tailed n (n + 2 ^ t) 1 (Z.to_nat (2 ^ t - 1)) (upd n (mkFrame 0 Anonymous (DAnonymous t)) m1) in
  mkMemory (frames m2) (free m2) (wrap 64 (allocated_pages m + 2 ^ t)).

Lemma filter_absent (n : Z) (l : list Z) : n ∉ l -> filter (fun x => x <> n) l = l.
Proof.
  induction l as [|x l IH]; [done|]. intros [Hx Hl]%not_elem_of_cons.
  rewrite filter_cons_True by congruence. by rewrite IH.
Qed.

Lemma list_delete_ok z n o l m :
  o <= MAX_ORDER -> free m (z, o) = n :: l -> NoDup (n :: l) ->
  frames m !! n = Some (mkFrame 0 Buddy (DBuddy true o z)) ->
  list_delete z o n m = Ok (tt, upd_free z o l (upd n (mkFrame 0 Buddy (DBuddy false o z)) m)).
Proof.
  intros Ho Hl [Hn _]%list.NoDup_cons Hf. unfold list_delete. step (get_free_list_ok m z o Ho).
  step (buddy_ok m n 0 true o z Hf). rewrite Hl. rewrite (bind_ok _ _ _ tt m).
  2: { by rewrite bool_decide_eq_true_2 by left. }
  step (put_buddy_ok m n _ false o z Hf). unfold set_free, modify, upd_free. do 4 f_equal.
  rewrite filter_cons_False by auto. by apply filter_absent.
Qed.

Section taken.
Context (z : ZoneType) (n t : Z) (k : nat) (l : list Z) (m : Memory) (Ht : 0 <= t).
Let o := t + Z.of_nat k.
Let m' := taken z n t k l m.

Lemma taken_head : frames m' !! n = Some (mkFrame 0 Anonymous (DAnonymous t)).
Proof. simpl. rewrite tailed_other by lia. apply lookup_insert_eq. Qed.

Lemma taken_tail i :
  n < i < n + 2 ^ t -> frames m' !! i = Some (mkFrame 0 Tail (DRange n (n + 2 ^ t))).
Proof. intros. simpl. apply tailed_tail. lia. Qed.

Lemma taken_beyond i :
  i < n \/ n + 2 ^ t <= i ->
  frames m' !! i = frames (carve z n t k (upd_free z o l (upd n (mkFrame 0 Buddy (DBuddy false o z)) m))) !! i.
Proof.
  intros Hi. simpl. pose proof (Z.pow_pos_nonneg 2 t). rewrite tailed_other by lia.
  apply lookup_insert_ne. lia.
Qed.

Lemma taken_half j :
  t <= j < o -> frames m' !! (n + 2 ^ j) = Some (mkFrame 0 Buddy (DBuddy true j z)).
Proof.
  intros Hj. rewrite taken_beyond; [by apply carve_half|]. right.
  pose proof (Z.pow_le_mono_r 2 t j). lia.
Qed.

Lemma taken_other i :
  i < n \/ n + 2 ^ t <= i -> (forall j, t <= j < o -> i <> n + 2 ^ j) -> frames m' !! i = frames m !! i.
Proof.
  intros Hi Hj. rewrite taken_beyond by done. rewrite carve_other by done. simpl.
  pose proof (Z.pow_pos_nonneg 2 t). apply lookup_insert_ne. lia.
Qed.

Lemma taken_free z' o' :
  free m' (z', o') =
  if bool_decide (z' = z /\ t <= o' < o) then free m (z', o') ++ [n + 2 ^ o']
  else if bool_decide (z' = z /\ o' = o) then l else free m (z', o').
Proof.
  simpl. rewrite (proj1 (tailed_rest _ _ _ _ _)). simpl. rewrite carve_free, cut_lookup. fold o. simpl.
  destruct (decide ((z, o) = (z', o'))) as [[= <- <-]|Hne].
  - rewrite fn_lookup_insert. rewrite (bool_decide_eq_false_2 (z = z /\ t <= o < o)) by lia.
    by rewrite bool_decide_eq_true_2.
  - rewrite fn_lookup_insert_ne by done. case_bool_decide; [done|].
    rewrite bool_decide_eq_false_2; [done|]. intros [-> ->]. done.
Qed.
End taken.

Section allocation.
Context {m : Memory} {own : list UniqueFrames} (I : binv m own).

Lemma allocate_tail z n t k l :
  0 <= t -> free m (z, t + Z.of_nat k) = n :: l ->
  let o := t + Z.of_nat k in
  let m1 := upd_free z o l (upd n (mkFrame 0 Buddy (DBuddy false o z)) m) in
  bind (if negb (o =? t) then buddy_split z o t (mkUnique n o) else ret (mkUnique n o))
    (fun u => replace_anonymous (start u) t ;; set_tail_frames u ;;
      fetch_allocated (fun p => p + to_count t) ;; ret (Some u))%c m1
  = Ok (Some (mkUnique n t), taken z n t k l m).
Proof.
  intros Ht Hl o m1. assert (n ∈ free m (z, o)) as Hn by (unfold o; rewrite Hl; by left).
  destruct (inv_block _ _ I z n o (or_introl Hn)) as (Ho & _ & Hlow & Hlim & _).
  assert (frames m1 !! n = Some (mkFrame 0 Buddy (DBuddy false o z))) as Hh by apply lookup_insert_eq.
  assert (forall i, n < i < n + 2 ^ o -> inner m1 i) as Hin.
  { intros i Hi. destruct (inv_inner _ _ I z n o i (or_introl Hn) Hi) as (f & Hf & ?).
    exists f. split; [|done]. simpl. by rewrite lookup_insert_ne by lia. }
  assert (exists g, (if negb (o =? t) then buddy_split z o t (mkUnique n o) else ret (mkUnique n o)) m1
    = Ok (mkUnique n t, upd n g (carve z n t k m1)) /\ refcount g = 0) as (g & Hs & Hg).
  { destruct (Z.eqb_spec o t) as [He|Hne]; simpl.
    - assert (k = O) as -> by lia. exists (mkFrame 0 Buddy (DBuddy false o z)). rewrite He.
      split; [|done]. unfold m1. simpl. do 3 f_equal. unfold upd, upd_free; simpl.
      by rewrite insert_insert_eq, He.
    - exists (mkFrame 0 Buddy (DBuddy false t z)). split; [|done]. unfold buddy_split.
      step (split_loop_ok z n t k m1 (S (Z.to_nat o)) Ht ltac:(lia) Hlim Hin ltac:(lia)). simpl start.
      assert (frames (carve z n t k m1) !! n = Some (mkFrame 0 Buddy (DBuddy false o z))) as Hc.
      { rewrite carve_other; [done|done|]. intros j ?. pose proof (Z.pow_pos_nonneg 2 j). lia. }
      step (buddy_ok _ _ _ _ _ _ Hc). by step (put_buddy_ok _ _ _ false t z Hc). }
  step Hs. unfold replace_anonymous. simpl start.
  step (replace_ok (upd n g (carve z n t k m1)) n g Anonymous (DAnonymous t) (lookup_insert_eq _ _ _)).
  rewrite upd_twice, Hg. set (m2 := upd n _ _). unfold set_tail_frames. cbn [order start].
  rewrite to_count_pow by done. pose proof (Z.pow_pos_nonneg 2 t).
  pose proof (Z.pow_le_mono_r 2 t o ltac:(lia) ltac:(lia)). unfold LIMIT in Hlim.
  rewrite (bind_ok _ _ _ tt (tailed n (n + 2 ^ t) 1 (Z.to_nat (2 ^ t - 1)) m2)).
  - unfold fetch_allocated. run. unfold taken. fold o m1 m2. rewrite (proj2 (tailed_rest _ _ _ _ _)).
    unfold m2; simpl. by rewrite carve_pages.
  - step (add_ok m2 n (2 ^ t) ltac:(unfold USIZE; lia)). apply set_tails_ok; [unfold LIMIT; lia|].
    intros j Hj. destruct (Hin j) as (f & Hf & Hc & _); [lia|]. exists f. split; [|done]. unfold m2. simpl.
    rewrite lookup_insert_ne by lia. rewrite carve_other; [done|done|].
    intros j' ?. pose proof (Z.pow_le_mono_r 2 t j'). lia.
Qed.

Lemma allocate_found z n t k l fuel :
  0 <= t -> free m (z, t + Z.of_nat k) = n :: l ->
  allocate_loop (S fuel) z (t + Z.of_nat k) t m = Ok (Some (mkUnique n t), taken z n t k l m).
Proof.
  intros Ht Hl. assert (n ∈ free m (z, t + Z.of_nat k)) as Hn by (rewrite Hl; by left).
  destruct (inv_block _ _ I z n _ (or_introl Hn)) as (Ho & Hal & _ & Hlim & _).
  cbn [allocate_loop]. rewrite (proj2 (Z.leb_le _ _)) by lia.
  step (get_free_list_ok m z (t + Z.of_nat k) ltac:(lia)). rewrite Hl.
  pose proof (inv_nodup _ _ I z (t + Z.of_nat k)) as Hnd. rewrite Hl in Hnd.
  step (list_delete_ok z n (t + Z.of_nat k) l m ltac:(lia) Hl Hnd (inv_free _ _ I _ _ _ Hn)).
  pose proof (Z.pow_pos_nonneg 2 (t + Z.of_nat k)).
  set (m1 := upd_free z (t + Z.of_nat k) l _).
  assert (frames m1 !! n = Some (mkFrame 0 Buddy (DBuddy false (t + Z.of_nat k) z))) as Hh by apply lookup_insert_eq.
  step (from_allocator_ok m1 n (t + Z.of_nat k) _ ltac:(lia) Hal ltac:(lia) Hh eq_refl eq_refl).
  rewrite (bind_ok _ _ _ (mkUnique n (t + Z.of_nat k)) m1) by done. by apply allocate_tail.
Qed.
End allocation.

(** *** Allocation keeps the invariant *)

Section taken_inv.
Context {m : Memory} {own : list UniqueFrames} (I : binv m own).
Context (z : ZoneType) (n t : Z) (k : nat) (l : list Z) (Ht : 0 <= t).
Let o := t + Z.of_nat k.
Context (Hl : free m (z, o) = n :: l).
Let m' := taken z n t k l m.
Let own' := mkUnique n t :: own.

Lemma taken_in : holds m own z n o.
Proof. left. rewrite Hl. by left. Qed.

Lemma taken_block :
  0 <= o <= MAX_ORDER /\ (2 ^ o | n) /\ 0x100 <= n /\ n + 2 ^ o <= LIMIT /\
  z = zone_at n /\ n + 2 ^ o <= snd (zone_range z).
Proof. apply (inv_block _ _ I), taken_in. Qed.

Lemma taken_apart z' b o' :
  holds m own z' b o' -> (z', b, o') <> (z, n, o) -> b + 2 ^ o' <= n \/ n + 2 ^ o <= b.
Proof.
  intros H Hne. apply (holds_disjoint I _ _ _ _ _ _ H taken_in). intros ->.
  destruct (holds_same I _ _ _ _ _ H taken_in). congruence.
Qed.

(** A free block of the new state was cut off, or lies apart from the one taken. *)
Lemma taken_free_in z' b o' :
  b ∈ free m' (z', o') ->
  (z' = z /\ b = n + 2 ^ o' /\ t <= o' < o) \/
  (b ∈ free m (z', o') /\ (b + 2 ^ o' <= n \/ n + 2 ^ o <= b)).
Proof.
  assert (n ∉ l) as Hnl by (pose proof (inv_nodup _ _ I z o) as H; rewrite Hl in H;
    by apply list.NoDup_cons in H as [? _]).
  unfold m'. intros Hb. rewrite taken_free in Hb by done. fold o in Hb.
  assert (b ∈ free m (z', o') -> (z', b, o') <> (z, n, o) ->
    b ∈ free m (z', o') /\ (b + 2 ^ o' <= n \/ n + 2 ^ o <= b)) as Hd
    by (intros H ?; split; [done|by apply (taken_apart z' b o'); [left|]]).
  case_bool_decide as H1; [|case_bool_decide as H2].
  - destruct H1 as [-> ?]. apply elem_of_app in Hb as [Hb|Hb%list_elem_of_singleton]; [|by left].
    right. apply Hd; [done|]. intros [= ? ?]. lia.
  - destruct H2 as [-> ->]. right. apply Hd; [rewrite Hl; by right|]. by intros [= ->].
  - right. apply Hd; [done|]. intros [= -> -> ->]. by destruct H2.
Qed.

Lemma taken_own_in b o' :
  mkUnique b o' ∈ own' ->
  (b = n /\ o' = t) \/ (mkUnique b o' ∈ own /\ (b + 2 ^ o' <= n \/ n + 2 ^ o <= b)).
Proof.
  intros [[= -> ->]|Hb]%elem_of_cons; [by left|]. right. split; [done|].
  apply (taken_apart (zone_at b) b o'); [by right|]. intros [= ? -> _].
  assert (n ∈ free m (z, o)) as Hn by (rewrite Hl; by left).
  apply (inv_free _ _ I) in Hn. apply (inv_own _ _ I) in Hb. congruence.
Qed.

Lemma taken_holds z' b o' :
  holds m' own' z' b o' ->
  (z' = z /\ b = n /\ o' = t) \/ (z' = z /\ b = n + 2 ^ o' /\ t <= o' < o) \/
  (holds m own z' b o' /\ (b + 2 ^ o' <= n \/ n + 2 ^ o <= b)).
Proof.
  pose proof taken_block as (_ & _ & _ & _ & Hz & _).
  intros [[?|[? ?]]%taken_free_in|[-> [[-> ->]|[? ?]]%taken_own_in]].
  - by right; left.
  - right; right. by split; [left|].
  - by left.
  - right; right. by split; [right|].
Qed.

Lemma taken_outside i : i < n \/ n + 2 ^ o <= i -> frames m' !! i = frames m !! i.
Proof.
  intros Hi. pose proof (Z.pow_le_mono_r 2 t o ltac:(lia) ltac:(lia)).
  apply taken_other; [done|lia|]. intros j Hj. fold o in Hj.
  pose proof (Z.pow_pos_nonneg 2 j). pose proof (pow_lt_inj j o). lia.
Qed.

(** Inside of the block every frame stays calm. *)
Lemma taken_inside i :
  n <= i < n + 2 ^ o -> frames m' !! i = frames m !! i \/ exists f, frames m' !! i = Some f /\ good m' f.
Proof.
  intros Hi. pose proof taken_block as (_ & _ & _ & Hlim & _).
  destruct (decide (i = n)) as [->|].
  { right. eexists. split; [by apply taken_head|]. by split. }
  destruct (decide (i < n + 2 ^ t)).
  { right. eexists. split; [apply taken_tail; lia|]. split; [done|]. intros _.
    exists n, (n + 2 ^ t). repeat split; [lia|]. eexists. by apply taken_head. }
  destruct (decide (i = n + 2 ^ Z.log2 (i - n))) as [He|Hne].
  - right. assert (t <= Z.log2 (i - n) < o).
    { split; [|apply Z.log2_lt_pow2; lia]. apply Z.log2_le_pow2; lia. }
    rewrite He. eexists. split; [by apply taken_half|]. by split.
  - left. apply taken_other; [done|lia|]. intros j Hj ->. apply Hne.
    replace (n + 2 ^ j - n) with (2 ^ j) by lia. by rewrite Z.log2_pow2 by lia.
Qed.

Lemma taken_calm i : calm m i -> calm m' i.
Proof.
  assert (forall j, frames m' !! j = frames m !! j \/ exists f, frames m' !! j = Some f /\ good m' f) as H.
  { intros j. destruct (decide (n <= j < n + 2 ^ o)); [by apply taken_inside|].
    left. apply taken_outside. lia. }
  intros Hc. apply (calm_change m); [|done|apply H].
  intros j Hj. destruct (H j) as [->|(f & -> & _)]; eauto.
Qed.

Lemma half_block j :
  t <= j < o -> (2 ^ j | n + 2 ^ j) /\ n + 2 ^ j + 2 ^ j <= n + 2 ^ o /\ zone_at (n + 2 ^ j) = z.
Proof.
  intros Hj. pose proof taken_block as (Ho & Hal & Hlow & Hlim & Hz & Hend).
  pose proof (Z.pow_pos_nonneg 2 j). pose proof (Z.pow_le_mono_r 2 (j + 1) o ltac:(lia) ltac:(lia)) as Hp.
  rewrite pow_double in Hp by lia. split; [|split; [lia|]].
  - apply Z.divide_add_r; [|done]. etrans; [|done]. exists (2 ^ (o - j)).
    rewrite <- Z.pow_add_r by lia. f_equal. lia.
  - rewrite Hz in Hend |- *. unfold zone_at in *. destruct (Z.ltb_spec n 0x100000); simpl in Hend.
    + rewrite (proj2 (Z.ltb_lt _ _)); [done|]. change (Z.shiftl 1 32 / PAGE_SIZE) with 0x100000 in Hend. lia.
    + by rewrite (proj2 (Z.ltb_ge _ _)) by lia.
Qed.

Lemma taken_inner i : inner m i -> (forall z' b o', holds m' own' z' b o' -> i <> b) -> inner m' i.
Proof.
  intros (f & Hf & Hc & Htag) Hb. destruct (decide (n <= i < n + 2 ^ t)) as [Hi|Hi].
  - pose proof taken_block as (_ & _ & _ & _ & Hz & _).
    assert (i <> n) by (apply (Hb z n t); right; split; [done|by left]).
    eexists. split; [apply taken_tail; lia|]. by split; [|left].
  - exists f. split; [|done]. rewrite <- Hf. apply taken_other; [done|lia|]. intros j Hj ->. fold o in Hj.
    apply (Hb z (n + 2 ^ j) j); [|done]. left. unfold m'. rewrite taken_free by done.
    rewrite bool_decide_eq_true_2 by done. apply elem_of_app. right. by left.
Qed.

Lemma half_inner j i : t <= j < o -> n + 2 ^ j < i < n + 2 ^ j + 2 ^ j -> inner m' i.
Proof.
  intros Hj Hi. destruct (half_block j Hj) as (_ & ? & _). pose proof (Z.pow_pos_nonneg 2 j).
  destruct (inv_inner _ _ I z n o i taken_in ltac:(lia)) as (f & Hf & ?). exists f. split; [|done].
  rewrite <- Hf. pose proof (Z.pow_le_mono_r 2 t j ltac:(lia) ltac:(lia)).
  apply taken_other; [done|lia|]. intros j' Hj' ->. destruct (Z.lt_trichotomy j j') as [Hlt|[->|Hlt]].
  - pose proof (Z.pow_le_mono_r 2 (j + 1) j' ltac:(lia) ltac:(lia)) as Hp. rewrite pow_double in Hp; lia.
  - lia.
  - pose proof (pow_lt_inj j' j). lia.
Qed.

Lemma half_new j : t <= j < o -> n + 2 ^ j ∉ free m (z, j).
Proof.
  intros Hj Hin. destruct (half_block j Hj) as (_ & ? & _). pose proof (Z.pow_pos_nonneg 2 j).
  apply (head_not_inner I z n o z (n + 2 ^ j) j taken_in); [by left|lia].
Qed.

Lemma taken_nodup z' o' : NoDup (free m' (z', o')).
Proof.
  unfold m'. rewrite taken_free by done. fold o. pose proof (inv_nodup _ _ I z' o') as Hnd.
  case_bool_decide as H1; [|case_bool_decide as H2]; [| |done].
  - destruct H1 as [-> Hj]. apply list.NoDup_app. split; [done|]. split; [|apply NoDup_singleton].
    intros x Hx ->%list_elem_of_singleton. by apply (half_new o').
  - destruct H2 as [-> ->]. rewrite Hl in Hnd. by apply list.NoDup_cons in Hnd as [_ ?].
Qed.

Lemma taken_near : near m own -> near m' own'.
Proof.
  intros N z' b o' i H Hi Hend. enough (i < LIMIT /\ calm m i) as [? ?] by (split; [done|by apply taken_calm]).
  pose proof taken_block as (Ho & _).
  apply taken_holds in H as [(-> & -> & ->)|[(-> & -> & Hj)|[H _]]]; [| |by apply (N z' b o')].
  - apply (N z n o i taken_in); [|done]. rewrite pow_double in Hi |- * by lia.
    pose proof (Z.pow_le_mono_r 2 t o ltac:(lia) ltac:(lia)). lia.
  - apply (N z n o i taken_in); [|done]. rewrite pow_double in Hi |- * by lia.
    destruct (half_block o' Hj) as (_ & ? & _). pose proof (Z.pow_pos_nonneg 2 o'). lia.
Qed.

Lemma taken_binv : binv m' own'.
Proof.
  pose proof taken_block as (Ho & Hal & Hlow & Hlim & Hz & Hend).
  pose proof (Z.pow_le_mono_r 2 t o ltac:(lia) ltac:(lia)) as Hto.
  split.
  - intros z' b o' [(-> & -> & ->)|[(-> & -> & Hj)|[H _]]]%taken_holds; [| |by apply (inv_block _ _ I)].
    + repeat split; try lia; [|done]. etrans; [|done]. exists (2 ^ Z.of_nat k).
      rewrite <- Z.pow_add_r by lia. f_equal. unfold o. lia.
    + destruct (half_block o' Hj) as (? & ? & ?). pose proof (Z.pow_pos_nonneg 2 o').
      repeat split; try lia; done.
  - intros z' b o' [(-> & -> & Hj)|[Hb Hd]]%taken_free_in; [by apply taken_half|].
    rewrite taken_outside by (pose proof (Z.pow_pos_nonneg 2 o'); destruct (inv_block _ _ I z' b o' (or_introl Hb)); lia).
    by apply (inv_free _ _ I).
  - intros b o' [[-> ->]|[Hb Hd]]%taken_own_in; [by apply taken_head|].
    rewrite taken_outside by (pose proof (Z.pow_pos_nonneg 2 o'); destruct (inv_block _ _ I (zone_at b) b o' (or_intror (conj eq_refl Hb))); lia).
    by apply (inv_own _ _ I).
  - intros z' b o' i [(-> & -> & ->)|[(-> & -> & Hj)|[H Hd]]]%taken_holds Hi; [|by apply (half_inner o')|].
    + eexists. split; [by apply taken_tail|]. by split; [|left].
    + destruct (inv_inner _ _ I z' b o' i H Hi) as (f & Hf & ?). exists f. split; [|done].
      rewrite <- Hf. apply taken_outside. lia.
  - apply taken_nodup.
  - apply list.NoDup_cons. split; [|apply I]. intros Hb. apply (inv_own _ _ I) in Hb.
    assert (n ∈ free m (z, o)) as Hn by (rewrite Hl; by left). apply (inv_free _ _ I) in Hn. congruence.
Qed.

(** The frames that are free or handed out are the same as before. *)
Lemma taken_covered i : covered m' own' i <-> covered m own i.
Proof.
  pose proof taken_block as (Ho & _ & _ & _ & Hz & _).
  pose proof (Z.pow_le_mono_r 2 t o ltac:(lia) ltac:(lia)). split.
  - intros (z' & b & o' & [(-> & -> & ->)|[(-> & -> & Hj)|[H' _]]]%taken_holds & Hi); [| |by exists z', b, o'];
      exists z, n, o; (split; [apply taken_in|]); [lia|].
    destruct (half_block o' Hj) as (_ & ? & _). pose proof (Z.pow_pos_nonneg 2 o'). lia.
  - intros (z' & b & o' & H' & Hi). destruct (decide ((z', b, o') = (z, n, o))) as [[= -> -> ->]|Hne].
    + destruct (decide (i < n + 2 ^ t)) as [|Hge].
      { exists z, n, t. split; [right; split; [done|by left]|lia]. }
      exists z, (n + 2 ^ Z.log2 (i - n)), (Z.log2 (i - n)).
      destruct (Z.log2_spec (i - n)) as [Hl1 Hl2]; [pose proof (Z.pow_pos_nonneg 2 t); lia|].
      rewrite Z.pow_succ_r in Hl2 by apply Z.log2_nonneg. split; [left|lia].
      unfold m'. rewrite taken_free by done. fold o. rewrite bool_decide_eq_true_2.
      * apply elem_of_app. right. by left.
      * split; [done|]. split; [apply Z.log2_le_pow2; pose proof (Z.pow_pos_nonneg 2 t); lia|].
        apply Z.log2_lt_pow2; pose proof (Z.pow_pos_nonneg 2 t); lia.
    + exists z', b, o'. split; [|done]. destruct H' as [H'|[? H']]; [left|by right; split; [|right]].
      unfold m'. rewrite taken_free by done. fold o. case_bool_decide; [apply elem_of_app; by left|].
      case_bool_decide as H2; [|done]. destruct H2 as [-> ->]. rewrite Hl in H'.
      apply elem_of_cons in H' as [->|]; [|done]. done.
Qed.
End taken_inv.

(** *** The search for a block *)

(** The first order from [t + k] on, among [r] ones, whose list is not empty. *)
Fixpoint find_block (F : ZoneType * Z -> list Z) (z : ZoneType) (t : Z) (k r : nat) : option (nat * Z * list Z) :=
  match r with
  | O => None
  | S r =>
    match F (z, t + Z.of_nat k) with
    | n :: l => Some (k, n, l)
    | [] => find_block F z t (S k) r
    end
  end.

(** What allocation is on the lists: the first block of the smallest order that is
    large enough, cut down to the order wanted. *)
Definition alloc_spec (z : ZoneType) (t : Z) (F : ZoneType * Z -> list Z) : option (Z * (ZoneType * Z -> list Z)) :=
  match find_block F z t 0 (Z.to_nat (MAX_ORDER + 1 - t)) with
  | Some (k, n, l) => Some (n, cut z n t k (<[(z, t + Z.of_nat k) := l]> F))
  | None => None
  end.

Lemma find_block_some F z t k r k' n l :
  find_block F z t k r = Some (k', n, l) -> F (z, t + Z.of_nat k') = n :: l.
Proof.
  revert k. induction r as [|r IH]; intros k; simpl; [done|].
  destruct (F (z, t + Z.of_nat k)) eqn:He; [apply IH|]. by intros [= <- <- <-].
Qed.

Lemma find_block_none F z t k r j :
  find_block F z t k r = None -> t + Z.of_nat k <= j < t + Z.of_nat k + Z.of_nat r -> F (z, j) = [].
Proof.
  revert k. induction r as [|r IH]; intros k; simpl; [lia|].
  destruct (F (z, t + Z.of_nat k)) eqn:He; [|done]. intros H Hj.
  destruct (decide (j = t + Z.of_nat k)) as [->|]; [done|]. apply (IH (S k)); [done|lia].
Qed.

Lemma buddy_loop_ok m own z t k r fuel :
  binv m own -> 0 <= t -> t + Z.of_nat k + Z.of_nat r = Z.max (MAX_ORDER + 1) (t + Z.of_nat k) ->
  (r < fuel)%nat ->
  allocate_loop fuel z (t + Z.of_nat k) t m =
  match find_block (free m) z t k r with
  | Some (k', n, l) => Ok (Some (mkUnique n t), taken z n t k' l m)
  | None => Ok (None, m)
  end.
Proof.
  intros I Ht. revert k fuel. induction r as [|r IH]; intros k fuel Hk Hfuel;
    (destruct fuel as [|fuel]; [lia|]); cbn [find_block].
  - simpl. by rewrite (proj2 (Z.leb_gt _ _)) by lia.
  - destruct (free m (z, t + Z.of_nat k)) as [|n l] eqn:Hl; [|by eapply allocate_found].
    cbn [allocate_loop]. rewrite (proj2 (Z.leb_le _ _)) by lia.
    step (get_free_list_ok m z (t + Z.of_nat k) ltac:(lia)). rewrite Hl.
    replace (t + Z.of_nat k + 1) with (t + Z.of_nat (S k)) by lia. apply IH; lia.
Qed.

Lemma allocate_run m own z t :
  binv m own -> 0 <= t ->
  allocate z t m =
  match find_block (free m) z t 0 (Z.to_nat (MAX_ORDER + 1 - t)) with
  | Some (k', n, l) => Ok (Some (mkUnique n t), taken z n t k' l m)
  | None => Ok (None, m)
  end.
Proof.
  intros I Ht. unfold allocate. rewrite <- (buddy_loop_ok m own z t 0 _ (S (S (Z.to_nat MAX_ORDER))) I Ht) by lia.
  by rewrite Z.add_0_r.
Qed.

Lemma taken_lists z n t k l m : free (taken z n t k l m) = cut z n t k (<[(z, t + Z.of_nat k) := l]> (free m)).
Proof. simpl. rewrite (proj1 (tailed_rest _ _ _ _ _)). simpl. by rewrite carve_free. Qed.

(** ** Release *)

#[export] Instance UniqueFrames_eq_dec : EqDecision UniqueFrames.
Proof. solve_decision. Defined.

Lemma from_allocator_calm m n o :
  0 <= o <= MAX_ORDER -> 0 <= n -> n < LIMIT -> calm m n ->
  from_allocator n o m = Ok (None, m) \/
  from_allocator n o m = Ok (Some (mkUnique (align_down n o) o), m).
Proof.
  intros Ho Hn0 Hn (f & Hf & Hc & Ht). pose proof (pow_le_1024 o Ho). unfold from_allocator.
  pose proof (Z.mod_pos_bound n (2 ^ o) ltac:(lia)).
  assert (align_down n o < LIMIT) as Hal by (rewrite align_down_mod by lia; lia).
  step (get_raw_ok m _ Hal). step (frame_ok m n f Hf). rewrite Hc.
  rewrite (bind_ok _ _ _ tt m) by done. destruct (unused_tag (tag f)) eqn:Hu; [by right|].
  destruct (tag f) eqn:Htag; try by left.
  destruct (Ht eq_refl) as (s & e & Hd & Hs & g & Hg). unfold range_of. rewrite Hd.
  rewrite (bind_ok _ _ _ (s, e) m) by done. step (get_raw_ok m s Hs). step (frame_ok m s g Hg).
  destruct (unused_tag (tag g)); [|by left]. rewrite to_count_pow by lia. unfold LIMIT in Hn.
  step (add_ok m n (2 ^ o) ltac:(unfold USIZE; lia)). destruct (n + 2 ^ o <=? e); auto.
Qed.

Lemma from_allocator_faults m n o : 0 <= o <= MAX_ORDER -> 0 <= n -> n < LIMIT -> ~ calm m n -> from_allocator n o m = Undef.
Proof.
  intros Ho Hn0 Hn Hc. pose proof (pow_le_1024 o Ho). pose proof (Z.mod_pos_bound n (2 ^ o) ltac:(lia)).
  unfold from_allocator. assert (align_down n o < LIMIT) as Hal by (rewrite align_down_mod by lia; lia).
  step (get_raw_ok m _ Hal). destruct (frames m !! n) as [f|] eqn:Hf; [|by apply bind_fails, frame_fails].
  step (frame_ok m n f Hf). destruct (Z.eqb_spec (refcount f) 0) as [Hz|]; [|done].
  rewrite (bind_ok _ _ _ tt m) by done.
  destruct (decide (tag f = Tail)) as [Ht|Ht]; [|destruct Hc; exists f; by split].
  rewrite Ht. cbn [unused_tag]. unfold range_of. destruct (data f) as [|s e| | | |] eqn:Hd; try done.
  rewrite (bind_ok _ _ _ (s, e) m) by done. destruct (Z.lt_ge_cases s LIMIT) as [Hs|Hs].
  - step (get_raw_ok m s Hs). destruct (frames m !! s) as [g|] eqn:Hg; [|by apply bind_fails, frame_fails].
    destruct Hc. exists f. split; [done|]. split; [done|]. intros _. exists s, e. by rewrite Hg.
  - by apply bind_fails, get_raw_fails.
Qed.

(** The neighbour that is looked at is never the other half. *)
Lemma merge_once_fails m b o range f :
  0 <= o < MAX_ORDER -> (2 ^ (o + 1) | b) -> 0 <= b -> b < LIMIT -> frames m !! b = Some f ->
  (b + 2 ^ (o + 1) <= snd range -> b + 2 ^ (o + 1) < LIMIT /\ calm m (b + 2 ^ (o + 1))) ->
  merge_once (mkUnique b o) o range m = Ok (inr (mkUnique b o), m).
Proof.
  intros Ho Hal Hb Hlim Hf Hnear. unfold merge_once. unfold MAX_ORDER, LIMIT in *.
  rewrite (bind_ok _ _ _ (o + 1) m) by (unfold add_order; run; by rewrite (proj2 (Z.ltb_lt _ _)) by lia).
  cbn [start]. rewrite to_count_pow, align_down_aligned by (lia || done).
  pose proof (pow_le_1024 (o + 1) ltac:(unfold MAX_ORDER; lia)).
  step (add_ok m b (2 ^ (o + 1)) ltac:(unfold USIZE; lia)).
  destruct (_ || _) eqn:Hr; [done|]. apply orb_false_iff in Hr as [_ Hr%Z.ltb_ge].
  destruct (Hnear Hr) as [Hl Hc]. rewrite Z.eqb_refl. set (n := b + 2 ^ (o + 1)) in *.
  step (get_raw_ok m n Hl).
  destruct (from_allocator_calm m n o ltac:(unfold MAX_ORDER; lia) ltac:(lia) Hl Hc) as [H0|H0]; step H0; [done|].
  rewrite align_down_aligned; [|lia|].
  2: { apply Z.divide_add_r; [etrans; [|exact Hal]|]; exists 2; [|]; rewrite pow_double; lia. }
  rewrite (bind_ok _ _ _ None m); [done|]. unfold merge. cbn [order start]. rewrite Z.eqb_refl. cbn [negb].
  destruct Hc as (g & Hg & _). step (frame_ok m b f Hf). step (frame_ok m n g Hg).
  destruct (negb (bool_decide _)); [done|]. rewrite to_count_pow by lia.
  pose proof (Z.pow_pos_nonneg 2 o). unfold n in *. rewrite pow_double in * by lia.
  step (add_ok m b (2 ^ o) ltac:(unfold USIZE; lia)).
  by rewrite (proj2 (Z.eqb_neq _ _)) by lia.
Qed.

Lemma merge_once_faults m b o range :
  0 <= o < MAX_ORDER -> (2 ^ (o + 1) | b) -> fst range <= b -> 0 <= b -> b < LIMIT -> b + 2 ^ (o + 1) <= snd range ->
  ~ (b + 2 ^ (o + 1) < LIMIT /\ calm m (b + 2 ^ (o + 1))) ->
  merge_once (mkUnique b o) o range m = Undef.
Proof.
  intros Ho Hal Hf Hb Hlim Hr Hn. unfold merge_once. unfold MAX_ORDER in *.
  rewrite (bind_ok _ _ _ (o + 1) m) by (unfold add_order; run; by rewrite (proj2 (Z.ltb_lt _ _)) by lia).
  cbn [start]. rewrite to_count_pow, align_down_aligned by (lia || done).
  pose proof (pow_le_1024 (o + 1) ltac:(unfold MAX_ORDER; lia)).
  step (add_ok m b (2 ^ (o + 1)) ltac:(unfold USIZE, LIMIT in *; lia)).
  rewrite (proj2 (Z.ltb_ge b _)), (proj2 (Z.ltb_ge _ (b + _))), Z.eqb_refl by lia. cbn [orb].
  destruct (Z.lt_ge_cases (b + 2 ^ (o + 1)) LIMIT) as [Hl|Hl]; [|by apply bind_fails, get_raw_fails].
  step (get_raw_ok m _ Hl). apply bind_fails, from_allocator_faults; [unfold MAX_ORDER; lia|lia|done|]. by intros ?; apply Hn.
Qed.

(** What a release does: the block goes to the head of the list of its order. *)
Definition freed (z : ZoneType) (b o : Z) (m : Memory) : Memory :=
  mkMemory (<[b := mkFrame 0 Buddy (DBuddy true o z)]> (frames m))
    (<[(z, o) := b :: free m (z, o)]> (free m)) (wrap 64 (allocated_pages m - 2 ^ o)).

Definition without (u : UniqueFrames) (own : list UniqueFrames) : list UniqueFrames :=
  filter (fun v => v <> u) own.

Section release.
Context {m : Memory} {own : list UniqueFrames} (I : binv m own).
Context (b o : Z) (Hu : mkUnique b o ∈ own).
Let z := zone_at b.
Let m' := freed z b o m.
Let own' := without (mkUnique b o) own.

Lemma freed_in : holds m own z b o.
Proof. by right. Qed.

Lemma freed_head : frames m !! b = Some (mkFrame 0 Anonymous (DAnonymous o)).
Proof. by apply (inv_own _ _ I). Qed.

Lemma freed_calm i : calm m i -> calm m' i.
Proof.
  assert (forall j, frames m' !! j = frames m !! j \/ exists f, frames m' !! j = Some f /\ good m' f) as H.
  { intros j. simpl. destruct (decide (j = b)) as [->|]; [right|left; by rewrite lookup_insert_ne].
    eexists. split; [apply lookup_insert_eq|]. by split. }
  intros Hc. apply (calm_change m); [|done|apply H].
  intros j Hj. destruct (H j) as [->|(f & -> & _)]; eauto.
Qed.

(** The state in which the merge loop is reached, and what is left to do. *)
Let m1 : Memory :=
  mkMemory (<[b := mkFrame 0 Buddy (DBuddy false o z)]> (frames m)) (free m) (wrap 64 (allocated_pages m - 2 ^ o)).
Let mo : Z := Z.min (trailing_zeros b) MAX_ORDER.

Lemma deallocate_start :
  deallocate b m = (u ← merge_loop MERGE_FUEL o mo (zone_range z) (mkUnique b o) ; add_to_free_list (start u) o z)%c m1.
Proof.
  destruct (inv_block _ _ I _ _ _ freed_in) as (Ho & Hal & Hlow & Hlim & _ & Hend).
  pose proof (pow_le_1024 o Ho). unfold deallocate.
  rewrite (bind_ok _ _ _ z m) by (unfold zone_of_frame; run; by rewrite (proj2 (Z.leb_le _ _)) by lia).
  step (frame_ok m b _ freed_head). cbn [tag data]. unfold replace_buddy.
  step (replace_ok m b _ Buddy (DBuddy false o z) freed_head). cbn [refcount].
  set (m0 := upd b _ m).
  assert (frames m0 !! b = Some (mkFrame 0 Buddy (DBuddy false o z))) as H0 by apply lookup_insert_eq.
  step (from_allocator_ok m0 b o _ ltac:(lia) Hal ltac:(lia) H0 eq_refl eq_refl).
  rewrite (bind_ok _ _ _ (mkUnique b o) m0) by done.
  rewrite (bind_ok _ _ _ tt m1) by (unfold fetch_allocated, modify; by rewrite to_count_pow by lia).
  cbn [start]. by rewrite (bind_ok _ _ _ mo m1)
    by (unfold new_order; run; by rewrite (proj2 (Z.leb_le _ _)) by (unfold mo; lia)).
Qed.

Lemma started_calm i : i <> b -> calm m1 i <-> calm m i.
Proof.
  intros Hi. assert (forall j, is_Some (frames m1 !! j) <-> is_Some (frames m !! j)) as Hdom.
  { intros j. simpl. destruct (decide (j = b)) as [->|]; [|by rewrite lookup_insert_ne].
    rewrite lookup_insert_eq, freed_head. split; eauto. }
  assert (frames m1 !! i = frames m !! i) as He by (by apply lookup_insert_ne).
  split; intros Hc; (eapply calm_change; [|exact Hc|by left]); intros j; apply Hdom.
Qed.

Lemma mo_aligned : o < mo <-> (2 ^ (o + 1) | b) /\ o < MAX_ORDER.
Proof.
  destruct (inv_block _ _ I _ _ _ freed_in) as (Ho & _ & Hlow & _). unfold mo, MAX_ORDER in *.
  rewrite <- (trailing_zeros_aligned b (o + 1)) by lia. lia.
Qed.

Lemma deallocate_run : readable m b o -> deallocate b m = Ok (true, m').
Proof.
  intros Hrd. destruct (inv_block _ _ I _ _ _ freed_in) as (Ho & Hal & Hlow & Hlim & _ & Hend).
  rewrite deallocate_start. pose proof (pow_le_1024 o Ho).
  assert (frames m1 !! b = Some (mkFrame 0 Buddy (DBuddy false o z))) as H1 by apply lookup_insert_eq.
  assert (merge_loop MERGE_FUEL o mo (zone_range z) (mkUnique b o) m1 = Ok (mkUnique b o, m1)) as Hm.
  { unfold MERGE_FUEL. cbn [merge_loop]. destruct (Z.ltb_spec o mo) as [[Hd Hlt]%mo_aligned|]; [|done].
    rewrite (bind_ok _ _ _ (inr (mkUnique b o)) m1); [done|].
    apply merge_once_fails with (mkFrame 0 Buddy (DBuddy false o z)); try lia; try done.
    intros Hr. pose proof (Z.pow_pos_nonneg 2 (o + 1)). rewrite started_calm by lia. by apply Hrd. }
  step Hm. unfold add_to_free_list. rewrite (bind_ok _ _ _ (Some (false, o, z)) m1).
  2: { unfold try_buddy. by step (frame_ok m1 b _ H1). }
  cbn [start]. step (add_head_ok m1 z b o ltac:(lia) H1). unfold m', freed, listed, upd_free, upd. simpl.
  by rewrite insert_insert_eq.
Qed.

Lemma deallocate_faults : ~ readable m b o -> deallocate b m = Undef.
Proof.
  intros Hn. destruct (inv_block _ _ I _ _ _ freed_in) as (Ho & Hal & Hlow & Hlim & Hz & Hend).
  pose proof (pow_le_1024 o Ho). rewrite deallocate_start. unfold MERGE_FUEL. cbn [merge_loop].
  destruct (Z.ltb_spec o mo) as [[Hd Hlt]%mo_aligned|Hge].
  2: { destruct Hn. intros Hd Hlt. pose proof (proj2 mo_aligned (conj Hd Hlt)). lia. }
  apply bind_fails, bind_fails, merge_once_faults; try done; try lia.
  - unfold z, zone_at. destruct (Z.ltb_spec b 0x100000); [simpl; lia|].
    change (fst (zone_range LinearMem)) with 0x100000. lia.
  - destruct (Z.le_gt_cases (b + 2 ^ (o + 1)) (snd (zone_range z))) as [|Hgt]; [done|].
    destruct Hn. intros _ _ Hr. unfold z in Hgt. lia.
  - pose proof (Z.pow_pos_nonneg 2 (o + 1)). rewrite started_calm by lia. intros Hc. apply Hn. by intros _ _ _.
Qed.

Lemma readable_or_not : readable m b o \/ ~ readable m b o.
Proof.
  unfold readable. destruct (decide (o < mo)) as [Ha|Ha];
    [|left; intros Hd Hlt; by destruct Ha; apply mo_aligned].
  apply mo_aligned in Ha as [Hd Hlt].
  destruct (decide (b + 2 ^ (o + 1) <= snd (zone_range (zone_at b)))); [|by left].
  destruct (decide (b + 2 ^ (o + 1) < LIMIT)) as [Hl|Hl]; [|right; intros H; by apply Hl, H].
  destruct (calm_or_not m (b + 2 ^ (o + 1))) as [Hc|Hc]; [by left|right; intros H; by apply Hc, H].
Qed.

Lemma freed_free_in z' b' o' :
  b' ∈ free m' (z', o') <-> (z', b', o') = (z, b, o) \/ b' ∈ free m (z', o').
Proof.
  simpl. destruct (decide ((z, o) = (z', o'))) as [[= <- <-]|Hne].
  - rewrite fn_lookup_insert, elem_of_cons. naive_solver.
  - rewrite fn_lookup_insert_ne by done. split; [by right|]. intros [[= -> -> ->]|]; done.
Qed.

Lemma freed_own_in v : v ∈ own' <-> v <> mkUnique b o /\ v ∈ own.
Proof. unfold own', without. by rewrite list_elem_of_filter. Qed.

Lemma freed_holds z' b' o' : holds m' own' z' b' o' <-> holds m own z' b' o'.
Proof.
  unfold holds. rewrite freed_free_in, freed_own_in. split.
  - intros [[[= -> -> ->]|?]|[? [? ?]]]; [by apply freed_in|by left|by right].
  - intros [?|[-> ?]]; [by left; right|].
    destruct (decide (mkUnique b' o' = mkUnique b o)) as [[= -> ->]|]; [left; by left|by right].
Qed.

Lemma freed_binv : binv m' own'.
Proof.
  split.
  - intros z' b' o' H%freed_holds. by apply (inv_block _ _ I).
  - intros z' b' o' [[= -> -> ->]|H]%freed_free_in; [apply lookup_insert_eq|].
    apply (inv_free _ _ I) in H. simpl. rewrite lookup_insert_ne; [done|]. intros <-.
    rewrite freed_head in H. done.
  - intros b' o' [Hne H]%freed_own_in. pose proof H as Hf. apply (inv_own _ _ I) in Hf. simpl.
    rewrite lookup_insert_ne; [done|]. intros <-. rewrite freed_head in Hf. congruence.
  - intros z' b' o' i H%freed_holds Hi. destruct (inv_inner _ _ I _ _ _ _ H Hi) as (f & Hf & Hc & Ht).
    exists f. split; [|done]. simpl. rewrite lookup_insert_ne; [done|]. intros <-. rewrite freed_head in Hf.
    injection Hf as <-. by destruct Ht.
  - intros z' o'. simpl. destruct (decide ((z, o) = (z', o'))) as [[= <- <-]|Hne].
    + rewrite fn_lookup_insert. apply list.NoDup_cons. split; [|apply I]. intros H.
      apply (inv_free _ _ I) in H. rewrite freed_head in H. done.
    + rewrite fn_lookup_insert_ne by done. apply I.
  - apply list.NoDup_filter, I.
Qed.

Lemma freed_near : near m own -> near m' own'.
Proof. intros N z' b' o' i H%freed_holds Hi He. destruct (N _ _ _ _ H Hi He). split; [done|by apply freed_calm]. Qed.

Lemma near_readable : near m own -> readable m b o.
Proof.
  intros N _ _ Hr. pose proof (Z.pow_nonneg 2 (o + 1)). apply (N z b o); [apply freed_in|lia|done].
Qed.

Lemma drop_run : readable m b o -> drop_unique (mkUnique b o) m = Ok (tt, m').
Proof.
  intros Hr. unfold drop_unique. cbn [start]. step (frame_ok m b _ freed_head). cbn [tag].
  unfold free_last. by step (deallocate_run Hr).
Qed.

Lemma drop_faults : ~ readable m b o -> drop_unique (mkUnique b o) m = Undef.
Proof.
  intros Hr. unfold drop_unique. cbn [start]. step (frame_ok m b _ freed_head). cbn [tag].
  by apply bind_fails, deallocate_faults.
Qed.

Lemma freed_covered i : covered m' own' i <-> covered m own i.
Proof.
  split; intros (z' & b' & o' & H & Hi); exists z', b', o'; (split; [by apply freed_holds|done]).
Qed.
End release.

(** ** Theorems *)

(** C5. Allocation refines [alloc_spec] on the free lists: it takes the first block
    of the smallest sufficient order, cuts it down and hands out its first part; it
    fails exactly when no list has a block that is large enough.  It never panics,
    keeps the invariant, leaves the frames apart from the block alone, and the
    frames that are free or handed out are the same as before.  If the frames around all
    blocks can be looked at ([near]), they can afterwards. *)
Theorem buddy_allocate_refines m own z t :
  binv m own -> 0 <= t ->
  match alloc_spec z t (free m) with
  | None => allocate z t m = Ok (None, m)
  | Some (n, F) =>
    exists m', allocate z t m = Ok (Some (mkUnique n t), m') /\
      free m' = F /\ allocated_pages m' = wrap 64 (allocated_pages m + 2 ^ t) /\
      binv m' (mkUnique n t :: own) /\ (near m own -> near m' (mkUnique n t :: own)) /\
      (forall i, covered m' (mkUnique n t :: own) i <-> covered m own i) /\
      (forall i, ~ covered m own i -> frames m' !! i = frames m !! i)
  end.
Proof.
  intros I Ht. rewrite (allocate_run m own z t I Ht). unfold alloc_spec.
  destruct (find_block _ _ _ _ _) as [[[k n] l]|] eqn:He; [|done].
  pose proof (find_block_some _ _ _ _ _ _ _ _ He) as Hl. exists (taken z n t k l m).
  split; [done|]. split; [apply taken_lists|]. split; [done|].
  split; [by apply taken_binv|]. split; [by apply taken_near|]. split; [by apply taken_covered|].
  intros i Hi. apply taken_outside; [done|].
  destruct (Z.lt_ge_cases i n); [by left|]. right. apply Z.nlt_ge. intros ?. destruct Hi.
  exists z, n, (t + Z.of_nat k). split; [|done]. by eapply taken_in.
Qed.

(** C6. A block that was handed out is taken back without being merged: it becomes the first
    block of the list of its order, whatever its neighbours are, and nothing else changes.
    This is so exactly if the frame that the code takes for the other half, twice the block
    further on, can be looked at ([readable]: it is mapped and not shared); otherwise the
    release faults or fails an assertion. *)
Theorem buddy_deallocate_refines m own b o :
  binv m own -> mkUnique b o ∈ own ->
  (~ readable m b o -> drop_unique (mkUnique b o) m = Undef) /\
  (readable m b o -> exists m', drop_unique (mkUnique b o) m = Ok (tt, m') /\
    free m' = <[(zone_at b, o) := b :: free m (zone_at b, o)]> (free m) /\
    allocated_pages m' = wrap 64 (allocated_pages m - 2 ^ o) /\
    binv m' (without (mkUnique b o) own) /\ (near m own -> near m' (without (mkUnique b o) own)) /\
    (forall i, covered m' (without (mkUnique b o) own) i <-> covered m own i) /\
    (forall i, i <> b -> frames m' !! i = frames m !! i)).
Proof.
  intros I Hu. split; [by eapply drop_faults|]. intros Hr. exists (freed (zone_at b) b o m).
  split; [by eapply drop_run|]. split; [done|]. split; [done|]. split; [by apply freed_binv|].
  split; [by apply freed_near|]. split; [by apply freed_covered|]. intros i Hi. by apply lookup_insert_ne.
Qed.

(** A frame that heads no block handed out is refused. *)
Lemma deallocate_refuses m b f :
  0x100 <= b -> frames m !! b = Some f -> tag f <> Anonymous -> deallocate b m = Ok (false, m).
Proof.
  intros Hb Hf Ht. unfold deallocate.
  rewrite (bind_ok _ _ _ (zone_at b) m) by (unfold zone_of_frame; run; by rewrite (proj2 (Z.leb_le _ _)) by lia).
  step (frame_ok m b f Hf). by destruct (tag f).
Qed.

(** *** Sequences of requests *)

Inductive request : Type :=
| Allocate (z : ZoneType) (o : Z)
| Release (i : nat).

Definition request_ok (r : request) : Prop :=
  match r with Allocate _ o => 0 <= o | Release _ => True end.

(** [own] are the blocks the clients hold; a release drops one of them. *)
Definition serve (own : list UniqueFrames) (r : request) : M Memory (list UniqueFrames) :=
  match r with
  | Allocate z o => r ← allocate z o ; ret (match r with Some u => u :: own | None => own end)
  | Release i =>
    match own !! i with
    | Some u => drop_unique u ;; ret (without u own)
    | None => ret own
    end
  end.

Fixpoint serve_all (own : list UniqueFrames) (rs : list request) : M Memory (list UniqueFrames) :=
  match rs with
  | [] => ret own
  | r :: rs => own ← serve own r ; serve_all own rs
  end.

Definition pages (own : list UniqueFrames) : Z := foldr (fun u n => 2 ^ order u + n) 0 own.

(** Every block of the second state is part of a block of the first one, and its
    order is not larger. *)
Definition refined (m : Memory) (own : list UniqueFrames) (m' : Memory) (own' : list UniqueFrames) : Prop :=
  forall z b o, holds m' own' z b o ->
  exists b' o', holds m own z b' o' /\ o <= o' /\ b' <= b /\ b + 2 ^ o <= b' + 2 ^ o'.

(** What a sequence of requests keeps. *)
Record served (m : Memory) (own : list UniqueFrames) (m' : Memory) (own' : list UniqueFrames) : Prop := {
  served_inv : binv m' own';
  served_near : near m own -> near m' own';
  served_covered i : covered m' own' i <-> covered m own i;
  served_refined : refined m own m' own';
  served_pages : wrap 64 (allocated_pages m' - pages own') = wrap 64 (allocated_pages m - pages own);
  served_others i : ~ covered m own i -> frames m' !! i = frames m !! i
}.

Lemma served_refl m own : binv m own -> served m own m own.
Proof. intros I. split; try done. intros z b o H. exists b, o. split; [done|lia]. Qed.

Lemma served_trans m own m1 own1 m2 own2 :
  served m own m1 own1 -> served m1 own1 m2 own2 -> served m own m2 own2.
Proof.
  intros [I1 N1 C1 R1 P1 O1] [I2 N2 C2 R2 P2 O2]. split; [done|auto| | |congruence|].
  - intros i. rewrite C2. apply C1.
  - intros z b o H. destruct (R2 _ _ _ H) as (b1 & o1 & H1 & ? & ? & ?).
    destruct (R1 _ _ _ H1) as (b' & o' & ? & ? & ? & ?). exists b', o'. split; [done|lia].
  - intros i Hi. rewrite O2 by (by rewrite C1). by apply O1.
Qed.

Lemma wrap_sub_add p q n : wrap 64 (wrap 64 (p + n) - (n + q)) = wrap 64 (p - q).
Proof. unfold wrap. rewrite Zminus_mod_idemp_l. f_equal. lia. Qed.

Lemma wrap_sub_sub p q n : wrap 64 (wrap 64 (p - n) - (q - n)) = wrap 64 (p - q).
Proof. unfold wrap. rewrite Zminus_mod_idemp_l. f_equal. lia. Qed.

Lemma pages_without u own : NoDup own -> u ∈ own -> pages (without u own) = pages own - 2 ^ order u.
Proof.
  unfold without. induction own as [|v own IH]; [by intros _ ?%elem_of_nil|].
  intros [Hv Hnd]%list.NoDup_cons Hu. destruct (decide (v = u)) as [->|Hne].
  - rewrite filter_cons_False by auto. simpl. enough (filter (fun v => v <> u) own = own) as -> by lia.
    clear -Hv. induction own as [|w own IH]; [done|]. apply not_elem_of_cons in Hv as [? ?].
    rewrite filter_cons_True by congruence. by rewrite IH.
  - rewrite filter_cons_True by done. simpl. apply elem_of_cons in Hu as [->|Hu]; [done|].
    rewrite (IH Hnd Hu). lia.
Qed.

Lemma taken_served m own z n t k l :
  binv m own -> 0 <= t -> free m (z, t + Z.of_nat k) = n :: l ->
  served m own (taken z n t k l m) (mkUnique n t :: own).
Proof.
  intros I Ht Hl. pose proof (taken_in (own := own) z n t k l Hl) as Hin. split.
  - by apply taken_binv.
  - by apply taken_near.
  - by apply taken_covered.
  - intros z' b o H. apply (taken_holds I) in H as [(-> & -> & ->)|[(-> & -> & Hj)|[H _]]]; [| | |done].
    + exists n, (t + Z.of_nat k). split; [done|]. pose proof (Z.pow_le_mono_r 2 t (t + Z.of_nat k)). lia.
    + exists n, (t + Z.of_nat k). split; [done|].
      destruct (half_block I z n t k l Ht Hl o Hj) as (_ & ? & _). pose proof (Z.pow_pos_nonneg 2 o). lia.
    + exists b, o. split; [done|lia].
  - simpl. apply wrap_sub_add.
  - intros i Hi. apply taken_outside; [done|]. destruct (Z.lt_ge_cases i n); [by left|]. right.
    apply Z.nlt_ge. intros ?. destruct Hi. by exists z, n, (t + Z.of_nat k).
Qed.

Lemma freed_served m own b o :
  binv m own -> mkUnique b o ∈ own ->
  served m own (freed (zone_at b) b o m) (without (mkUnique b o) own).
Proof.
  intros I Hu. split.
  - by apply freed_binv.
  - by apply freed_near.
  - by apply freed_covered.
  - intros z b' o' H%freed_holds; [|done]. exists b', o'. split; [done|lia].
  - simpl. rewrite pages_without by (done || apply I). apply wrap_sub_sub.
  - intros i Hi. apply lookup_insert_ne. intros <-. destruct Hi. exists (zone_at b), b, o.
    split; [by right|]. destruct (inv_block _ _ I (zone_at b) b o ltac:(by right)) as (? & _).
    pose proof (Z.pow_pos_nonneg 2 o). lia.
Qed.

Lemma serve_ok m own r :
  binv m own -> request_ok r ->
  (forall own' m', serve own r m = Ok (own', m') -> served m own m' own') /\
  (near m own -> exists own' m', serve own r m = Ok (own', m')).
Proof.
  intros I Hr. destruct r as [z t|i]; simpl in *.
  - unfold bind. rewrite (allocate_run m own z t I Hr). destruct (find_block _ _ _ _ _) as [[[k n] l]|] eqn:He; simpl.
    + split; [|by eauto]. intros own' m' [= <- <-]. apply taken_served; [done..|]. by eapply find_block_some.
    + split; [|by eauto]. intros own' m' [= <- <-]. by apply served_refl.
  - destruct (own !! i) as [[b o]|] eqn:Hi; simpl.
    + apply list_elem_of_lookup_2 in Hi. split.
      * intros own' m' ([] & m1 & E & [= <- <-])%bind_inv.
        destruct (readable_or_not I b o Hi) as [Hd|Hd];
          [rewrite (drop_run I b o Hi Hd) in E|by rewrite (drop_faults I b o Hi Hd) in E].
        injection E as <-. by apply freed_served.
      * intros N. rewrite (bind_ok _ _ _ _ _ (drop_run I b o Hi (near_readable b o Hi N))). by eauto.
    + split; [|by eauto]. intros own' m' [= <- <-]. by apply served_refl.
Qed.

Lemma serve_all_ok m own rs :
  binv m own -> Forall request_ok rs ->
  (forall own' m', serve_all own rs m = Ok (own', m') -> served m own m' own') /\
  (near m own -> exists own' m', serve_all own rs m = Ok (own', m')).
Proof.
  intros I Hrs. revert m own I. induction Hrs as [|r rs Hr _ IH]; intros m own I; simpl.
  - split; [|by eauto]. intros own' m' [= <- <-]. by apply served_refl.
  - destruct (serve_ok m own r I Hr) as [S1 T1]. split.
    + intros own' m' (own1 & m1 & E1 & E)%bind_inv. pose proof (S1 _ _ E1) as S.
      eapply served_trans; [done|]. eapply IH; [apply S|done].
    + intros N. destruct (T1 N) as (own1 & m1 & E1). pose proof (S1 _ _ E1) as S.
      destruct (IH m1 own1) as [_ T2]; [apply S|]. rewrite (bind_ok _ _ _ _ _ E1). by apply T2, S.
Qed.

(** C4. Whatever is asked for and given back, in any order, as long as no request panics: the
    frames that are free or handed out stay the same set, two blocks never overlap (so no
    frame is handed out twice, or is free and handed out), the count of allocated pages is
    exact modulo the width of the counter, and frame structures outside of the set are not
    written.  No request panics if the frames around all blocks, up to twice the block
    further on, are mapped and not shared ([near]); the code does not provide for this. *)
Theorem frames_conserved m own rs :
  binv m own -> Forall request_ok rs ->
  (near m own -> exists own' m', serve_all own rs m = Ok (own', m')) /\
  forall own' m', serve_all own rs m = Ok (own', m') ->
    (forall i, covered m' own' i <-> covered m own i) /\
    (forall z b o z' b' o', holds m' own' z b o -> holds m' own' z' b' o' ->
      (z, b, o) = (z', b', o') \/ b + 2 ^ o <= b' \/ b' + 2 ^ o' <= b) /\
    wrap 64 (allocated_pages m' - pages own') = wrap 64 (allocated_pages m - pages own) /\
    (forall i, ~ covered m own i -> frames m' !! i = frames m !! i).
Proof.
  intros I Hrs. destruct (serve_all_ok m own rs I Hrs) as [Hs Ht]. split; [done|].
  intros own' m' S%Hs. split; [apply S|]. split; [|split; apply S].
  intros z b o z' b' o' H H'. pose proof (served_inv _ _ _ _ S) as I'.
  destruct (decide (b = b')) as [->|Hne]; [left|right; by eapply (holds_disjoint I')].
  destruct (holds_same I' _ _ _ _ _ H H'). congruence.
Qed.

(** C34. Blocks never grow together again: if a zone has no block of order [t] or
    more, free or handed out, then after any requests, releases included, a request
    for order [t] fails there.  No request panics on the way if the frames around the
    blocks can be looked at ([near]). *)
Theorem blocks_never_merge m own rs z t :
  binv m own -> near m own -> Forall request_ok rs -> 0 <= t ->
  (forall b o, holds m own z b o -> o < t) ->
  exists own' m', serve_all own rs m = Ok (own', m') /\ allocate z t m' = Ok (None, m').
Proof.
  intros I N Hrs Ht Hno. destruct (serve_all_ok m own rs I Hrs) as [Hs Hex]. destruct (Hex N) as (own' & m' & Hr).
  pose proof (Hs _ _ Hr) as S. exists own', m'. split; [done|]. rewrite (allocate_run m' own' z t (served_inv _ _ _ _ S) Ht).
  destruct (find_block _ _ _ _ _) as [[[k n] l]|] eqn:He; [|done]. apply find_block_some in He.
  destruct (served_refined _ _ _ _ S z n (t + Z.of_nat k)) as (b' & o' & H' & ? & _).
  - left. rewrite He. by left.
  - pose proof (Hno _ _ H'). lia.
Qed.

(** *** A small memory *)

Definition blank : Frame := mkFrame 0 Uninited DUnused.

(** Frames [a], [a + 1], ... with blank structures. *)
Fixpoint blanks (a : Z) (n : nat) : gmap Z Frame :=
  match n with O => ∅ | S n => <[a := blank]> (blanks (a + 1) n) end.

(** One free block of eight frames, with the structures of the next ones mapped. *)
Definition eight : Memory :=
  mkMemory (<[1024 := mkFrame 0 Buddy (DBuddy true 3 MEM32)]> (blanks 1024 17))
    (<[(MEM32, 3) := [1024]]> (fun _ => [])) 0.

Lemma blanks_lookup a n i : a <= i < a + Z.of_nat n -> blanks a n !! i = Some blank.
Proof.
  revert a. induction n as [|n IH]; intros a Hi; [lia|]. simpl.
  destruct (decide (i = a)) as [->|]; [apply lookup_insert_eq|].
  rewrite lookup_insert_ne by lia. apply IH. lia.
Qed.

Lemma eight_holds z b o : holds eight [] z b o -> z = MEM32 /\ b = 1024 /\ o = 3.
Proof.
  intros [Hb|[_ ?%elem_of_nil]]; [|done]. simpl in Hb.
  destruct (decide ((MEM32, 3) = (z, o))) as [[= <- <-]|Hne].
  - rewrite fn_lookup_insert in Hb. by apply list_elem_of_singleton in Hb as ->.
  - rewrite fn_lookup_insert_ne in Hb by done. by apply elem_of_nil in Hb.
Qed.

Lemma eight_binv : binv eight [].
Proof.
  split.
  - intros z b o (-> & -> & ->)%eight_holds. repeat split; try (vm_compute; congruence). by exists 128.
  - intros z b o (-> & -> & ->)%(fun H => eight_holds z b o (or_introl H)). apply lookup_insert_eq.
  - by intros b o ?%elem_of_nil.
  - intros z b o i (-> & -> & ->)%eight_holds Hi. change (2 ^ 3) with 8 in Hi. exists blank. split; [|by split; [|right]].
    simpl. rewrite lookup_insert_ne by lia. apply (blanks_lookup 1024 17). lia.
  - intros z o. simpl. destruct (decide ((MEM32, 3) = (z, o))) as [[= <- <-]|Hne].
    + rewrite fn_lookup_insert. apply NoDup_singleton.
    + rewrite fn_lookup_insert_ne by done. constructor.
  - constructor.
Qed.

Lemma eight_near : near eight [].
Proof.
  intros z b o i (-> & -> & ->)%eight_holds Hi _. change (2 ^ (3 + 1)) with 16 in Hi. split; [unfold LIMIT; lia|].
  destruct (decide (i = 1024)) as [->|].
  - eexists. split; [apply lookup_insert_eq|by split].
  - exists blank. split; [|by split]. simpl. rewrite lookup_insert_ne by lia. apply (blanks_lookup 1024 17). lia.
Qed.

(** The same memory after one frame was handed out. *)
Definition seven : Memory :=
  match allocate MEM32 0 eight with Ok (_, m) => m | _ => eight end.

Lemma seven_taken : seven = taken MEM32 1024 0 3 [] eight.
Proof. unfold seven. rewrite (allocate_run eight [] MEM32 0 eight_binv) by lia. done. Qed.

Lemma seven_binv : binv seven [mkUnique 1024 0].
Proof. rewrite seven_taken. apply taken_binv; [apply eight_binv|lia|done]. Qed.

Lemma seven_near : near seven [mkUnique 1024 0].
Proof. rewrite seven_taken. apply taken_near; [apply eight_binv|lia|done|apply eight_near]. Qed.

Lemma seven_small b o : holds seven [mkUnique 1024 0] MEM32 b o -> o < 3.
Proof.
  rewrite seven_taken. intros H. apply (taken_holds eight_binv) in H; [|done].
  destruct H as [(_ & _ & ->)|[(_ & _ & H)|[H Hd]]]; [lia|lia|].
  apply eight_holds in H as (_ & -> & ->). change (2 ^ 3) with 8 in Hd. change (2 ^ (0 + Z.of_nat 3)) with 8 in Hd. lia.
Qed.

Lemma buddy_allocate_refines_witness :
  exists m', allocate MEM32 1 eight = Ok (Some (mkUnique 1024 1), m') /\
    free m' (MEM32, 1) = [1026] /\ free m' (MEM32, 2) = [1028] /\ free m' (MEM32, 3) = [] /\
    allocated_pages m' = 2.
Proof.
  destruct (buddy_allocate_refines eight [] MEM32 1 eight_binv ltac:(lia)) as (m' & Hr & Hf & Hp & _).
  exists m'. split; [exact Hr|]. rewrite Hf, Hp. repeat split; reflexivity.
Defined.

Lemma buddy_deallocate_refines_witness :
  exists m', drop_unique (mkUnique 1024 0) seven = Ok (tt, m') /\
    free m' (MEM32, 0) = [1024; 1025] /\ free m' (MEM32, 1) = [1026] /\ allocated_pages m' = 0.
Proof.
  destruct (buddy_deallocate_refines seven [mkUnique 1024 0] 1024 0 seven_binv ltac:(by left)) as [_ H].
  destruct (H (near_readable 1024 0 ltac:(by left) seven_near)) as (m' & Hr & Hf & Hp & _).
  exists m'. split; [exact Hr|]. rewrite Hf, Hp. repeat split; reflexivity.
Defined.

Lemma frames_conserved_witness :
  exists own' m', serve_all [] [Allocate MEM32 1; Allocate MEM32 0; Release 1; Allocate LinearMem 0] eight
    = Ok (own', m') /\ wrap 64 (allocated_pages m' - pages own') = 0.
Proof.
  destruct (frames_conserved eight [] [Allocate MEM32 1; Allocate MEM32 0; Release 1; Allocate LinearMem 0]
    eight_binv ltac:(repeat constructor; simpl; lia)) as [Hex Hall].
  destruct (Hex eight_near) as (own' & m' & Hr). destruct (Hall _ _ Hr) as (_ & _ & Hp & _).
  exists own', m'. split; [exact Hr|]. rewrite Hp. reflexivity.
Defined.

(** All eight frames are free again, but a block of eight cannot be had. *)
Lemma blocks_never_merge_witness :
  exists own' m', serve_all [mkUnique 1024 0] [Release 0] seven = Ok (own', m') /\
    allocate MEM32 3 m' = Ok (None, m').
Proof.
  apply (blocks_never_merge seven [mkUnique 1024 0] [Release 0] MEM32 3 seven_binv seven_near
    ltac:(repeat constructor) ltac:(lia) seven_small).
Defined.
