(* ===== verification/BuddyInit.v ===== *)
(** * Start-up of the buddy allocator, and references to frames: theorems

    The range of free frames found at start-up is entered as aligned blocks; what
    happens to its end.  The counted references to frames, and what happens when the
    last one is dropped. *)

From stdpp Require Import base tactics list gmap functions.
From S2P Require Import Prelude CMonad Buddy BuddyFacts.
Local Open Scope Z_scope.

(** ** One more free block *)

Section add_block.
Context {m : Memory} {own : list UniqueFrames} (I : binv m own).
Context (z : ZoneType) (b o : Z) (f : Frame).
Hypothesis Ho : 0 <= o <= MAX_ORDER.
Hypothesis Hal : (2 ^ o | b).
Hypothesis Hlow : 0x100 <= b.
Hypothesis Hlim : b + 2 ^ o <= LIMIT.
Hypothesis Hz : z = zone_at b.
Hypothesis Hend : b + 2 ^ o <= snd (zone_range z).
Hypothesis Hnew : forall i, b <= i < b + 2 ^ o -> ~ covered m own i.
Hypothesis Hinner : forall i, b < i < b + 2 ^ o -> inner m i.

Let m' := listed z b o (b :: free m (z, o)) m.

Lemma add_block_pos : 1 <= 2 ^ o.
Proof. pose proof (Z.pow_pos_nonneg 2 o). lia. Qed.

Lemma add_block_head z' b' o' : holds m own z' b' o' -> b' + 2 ^ o' <= b \/ b + 2 ^ o <= b'.
Proof.
  intros H. destruct (inv_block _ _ I _ _ _ H) as (Ho' & _). pose proof (Z.pow_pos_nonneg 2 o').
  pose proof add_block_pos. destruct (Z.le_gt_cases (b' + 2 ^ o') b) as [|Hgt]; [by left|].
  destruct (Z.le_gt_cases (b + 2 ^ o) b') as [|Hgt']; [by right|].
  destruct (Hnew (Z.max b b')); [lia|]. exists z', b', o'. split; [done|lia].
Qed.

Lemma add_block_free z' b' o' :
  b' ∈ free m' (z', o') <-> (z', b', o') = (z, b, o) \/ b' ∈ free m (z', o').
Proof.
  simpl. destruct (decide ((z, o) = (z', o'))) as [[= <- <-]|Hne].
  - rewrite fn_lookup_insert, elem_of_cons.
    split; (intros [H|?]; [injection H as -> || subst b'; by left|by right]).
  - rewrite fn_lookup_insert_ne by done. split; [by right|]. intros [[= -> -> ->]|]; done.
Qed.

Lemma add_block_holds z' b' o' :
  holds m' own z' b' o' <-> (z', b', o') = (z, b, o) \/ holds m own z' b' o'.
Proof. unfold holds. rewrite add_block_free. tauto. Qed.

Lemma add_block_calm i : calm m i -> calm m' i.
Proof.
  assert (forall j, frames m' !! j = frames m !! j \/ exists f, frames m' !! j = Some f /\ good m' f) as H.
  { intros j. destruct (decide (j = b)) as [->|]; [right|left; by apply listed_other].
    eexists. split; [apply lookup_insert_eq|]. by split. }
  intros Hc. apply (calm_change m); [|done|apply H].
  intros j Hj. destruct (H j) as [->|(g & -> & _)]; eauto.
Qed.

Lemma add_block_binv : binv m' own.
Proof.
  pose proof add_block_pos. split.
  - intros z' b' o' [[= -> -> ->]|H']%add_block_holds; [done|]. by apply (inv_block _ _ I).
  - intros z' b' o' [[= -> -> ->]|H']%add_block_free; [apply lookup_insert_eq|].
    unfold m'. rewrite listed_other; [by apply (inv_free _ _ I)|]. intros ->.
    destruct (add_block_head z' b o' (or_introl H')); destruct (inv_block _ _ I z' b o' (or_introl H'));
      pose proof (Z.pow_pos_nonneg 2 o'); lia.
  - intros b' o' H'. unfold m'. rewrite listed_other; [by apply (inv_own _ _ I)|]. intros ->.
    assert (holds m own (zone_at b) b o') as Hh by (by right).
    destruct (add_block_head _ _ _ Hh); destruct (inv_block _ _ I _ _ _ Hh);
      pose proof (Z.pow_pos_nonneg 2 o'); lia.
  - intros z' b' o' i [[= -> -> ->]|H']%add_block_holds Hi.
    + destruct (Hinner i Hi) as (g & ? & ?). exists g. unfold m'. by rewrite listed_other by lia.
    + destruct (inv_inner _ _ I _ _ _ _ H' Hi) as (g & ? & ?). exists g. unfold m'. rewrite listed_other; [done|].
      intros ->. destruct (add_block_head _ _ _ H'); lia.
  - intros z' o'. simpl. destruct (decide ((z, o) = (z', o'))) as [[= <- <-]|Hne].
    + rewrite fn_lookup_insert. apply list.NoDup_cons. split; [|apply I]. intros Hin.
      destruct (Hnew b ltac:(lia)). exists z, b, o. split; [by left|lia].
    + rewrite fn_lookup_insert_ne by done. apply I.
  - apply I.
Qed.

Lemma add_block_near :
  (forall i, b <= i <= b + 2 ^ (o + 1) -> i < LIMIT /\ calm m i) -> near m own -> near m' own.
Proof.
  intros Hnear N z' b' o' i [[= -> -> ->]|H']%add_block_holds Hi He.
  - destruct (Hnear i Hi). split; [done|by apply add_block_calm].
  - destruct (N _ _ _ _ H' Hi He). split; [done|by apply add_block_calm].
Qed.

Lemma add_block_covered i : covered m' own i <-> covered m own i \/ b <= i < b + 2 ^ o.
Proof.
  split.
  - intros (z' & b' & o' & [[= -> -> ->]|H']%add_block_holds & Hi); [by right|left; by exists z', b', o'].
  - intros [(z' & b' & o' & H' & Hi)|Hi].
    + exists z', b', o'. split; [|done]. apply add_block_holds. by right.
    + exists z, b, o. split; [|done]. apply add_block_holds. by left.
Qed.
End add_block.

(** ** Zones and chunks *)

Definition zone_state (z : ZoneType) : ZoneState :=
  mkZoneState (match z with MEM32 => 0 | LinearMem => 1 end) (fst (zone_range z)) (snd (zone_range z)).

(** The scan has not passed the zone of frame [s]. *)
Definition zone_before (st : ZoneState) (s : Z) : Prop :=
  st = zone_state MEM32 \/ (st = zone_state LinearMem /\ zone_at s = LinearMem).

Lemma zone_bounds : zone_range MEM32 = (0, 2 ^ 20) /\ zone_range LinearMem = (2 ^ 20, 2 ^ 52 - 1).
Proof. done. Qed.

Lemma get_zone_ok m st s :
  zone_before st s -> 0 <= s < LIMIT ->
  get_zone_for_frame s st m = Ok ((zone_at s, zone_state (zone_at s)), m).
Proof.
  intros Hst Hs. unfold LIMIT in Hs. unfold get_zone_for_frame, zone_at in *.
  assert (forall k fuel, 2 ^ 20 <= s -> zone_loop (S fuel) s LinearMem (zone_state LinearMem) k
    = Ok ((LinearMem, zone_state LinearMem), k)) as Hlin.
  { intros k fuel ?. cbn [zone_loop]. change (zone_end (zone_state LinearMem)) with (2 ^ 52 - 1).
    by rewrite (proj2 (Z.leb_gt _ _)) by lia. }
  destruct Hst as [->|[-> Hl]].
  - rewrite (bind_ok _ _ _ MEM32 m) by done. cbn [zone_loop].
    change (zone_end (zone_state MEM32)) with (2 ^ 20). destruct (Z.ltb_spec s 0x100000).
    + by rewrite (proj2 (Z.leb_gt _ _)) by lia.
    + rewrite (proj2 (Z.leb_le _ _)) by lia. by apply (Hlin m 1%nat).
  - rewrite (bind_ok _ _ _ LinearMem m) by done. revert Hl. unfold zone_at.
    destruct (Z.ltb_spec s 0x100000); [done|]. intros _. by apply (Hlin m 2%nat).
Qed.

Lemma trailing_zeros_pow k : 0 <= k < 64 -> trailing_zeros (2 ^ k) = k.
Proof.
  intros Hk. pose proof (Z.pow_pos_nonneg 2 k ltac:(lia) ltac:(lia)) as Hp.
  assert (0 <= trailing_zeros (2 ^ k) /\ (2 ^ trailing_zeros (2 ^ k) | 2 ^ k)) as [Hn Hd].
  { destruct (2 ^ k) as [|p|p]; [lia| |lia]. split; apply trailing_zeros_pos_spec. }
  apply Z.le_antisymm; [|by apply trailing_zeros_aligned; [| |]; first [lia | done]].
  apply Z.nlt_ge. intros Hlt. apply Z.divide_pos_le in Hd; [|done].
  pose proof (pow_lt_inj k (trailing_zeros (2 ^ k))). lia.
Qed.

(** The order a block at [s] may have, and the end of the chunk cut off there. *)
Definition chunk_order (s : Z) : Z := Z.min (trailing_zeros s) MAX_ORDER.
Definition chunk_end (s e : Z) : Z := Z.min e (s + 2 ^ chunk_order s).

Lemma trailing_zeros_nonneg s : 0 <= trailing_zeros s.
Proof. destruct s as [|p|p]; simpl; [lia| |lia]. apply trailing_zeros_pos_spec. Qed.

Lemma chunk_order_range s : 0 <= chunk_order s <= MAX_ORDER.
Proof. unfold chunk_order, MAX_ORDER. pose proof (trailing_zeros_nonneg s). lia. Qed.

Lemma chunk_order_aligned s : 0 <= s -> (2 ^ chunk_order s | s).
Proof.
  intros. pose proof (chunk_order_range s) as Hr. unfold MAX_ORDER in Hr.
  apply trailing_zeros_aligned; [lia|done|]. unfold chunk_order. lia.
Qed.

Lemma aligned_step d a b : 0 < d -> (d | a) -> (d | b) -> a < b -> a + d <= b.
Proof.
  intros Hd [p ->] [q ->] Hlt. apply Z.mul_lt_mono_pos_r in Hlt; [|done].
  rewrite <- (Z.mul_1_l d) at 2. rewrite <- Z.mul_add_distr_r. apply Z.mul_le_mono_nonneg_r; lia.
Qed.

Lemma chunk_in_zone s :
  0 <= s -> s + 2 ^ chunk_order s <= LIMIT -> s + 2 ^ chunk_order s <= snd (zone_range (zone_at s)).
Proof.
  intros Hs Hl. unfold LIMIT in Hl. pose proof (chunk_order_range s) as Hr.
  pose proof (pow_le_1024 _ Hr). unfold zone_at.
  destruct (Z.ltb_spec s 0x100000) as [Hlt|Hge]; [rewrite (proj1 zone_bounds)|rewrite (proj2 zone_bounds)]; simpl snd; [|lia].
  apply aligned_step; [lia|by apply chunk_order_aligned| |done].
  exists (2 ^ (20 - chunk_order s)). unfold MAX_ORDER in Hr. rewrite <- Z.pow_add_r by lia. f_equal. lia.
Qed.

(** [from_count] of a chunk: the largest power of two that divides its length. *)
Lemma from_count_ok m c :
  0 < c <= 1024 -> from_count c m = Ok (trailing_zeros c, m) /\
  0 <= trailing_zeros c <= MAX_ORDER /\ (2 ^ trailing_zeros c | c) /\ 2 ^ trailing_zeros c <= c.
Proof.
  intros Hc. pose proof (trailing_zeros_nonneg c) as Hn.
  assert (2 ^ trailing_zeros c | c) as Hd.
  { destruct c as [|p|p]; [lia| |lia]. apply trailing_zeros_pos_spec. }
  pose proof (Z.divide_pos_le (2 ^ trailing_zeros c) c ltac:(lia) Hd) as Hle.
  assert (trailing_zeros c <= MAX_ORDER) as Hm.
  { apply Z.nlt_ge. intros Hlt. pose proof (Z.pow_le_mono_r 2 11 (trailing_zeros c)). unfold MAX_ORDER in Hlt. lia. }
  split; [|done]. unfold from_count, new_order. run.
  rewrite (proj2 (Z.ltb_lt 0 c)) by lia.
  rewrite (proj2 (Z.ltb_lt c _)) by (rewrite to_count_pow by done; unfold MAX_ORDER; lia).
  by rewrite (proj2 (Z.leb_le _ _)).
Qed.

(** ** A range of free frames is entered *)

(** One round of [add_free_block], as a function. *)
Lemma add_free_block_round m st s e fuel f :
  zone_before st s -> 0 < s -> s < e -> s + 1024 <= LIMIT ->
  frames m !! s = Some f -> refcount f = 0 -> unused_tag (tag f) = true ->
  let o := trailing_zeros (chunk_end s e - s) in
  add_free_block (S fuel) st s e m =
  add_free_block fuel (zone_state (zone_at s)) (chunk_end s e) e
    (listed (zone_at s) s o (s :: free m (zone_at s, o)) m).
Proof.
  intros Hst Hs He Hl Hf Hc Ht o. pose proof (chunk_order_range s) as Hr. pose proof (pow_le_1024 _ Hr).
  unfold LIMIT in Hl. cbn [add_free_block]. rewrite (proj2 (Z.ltb_lt _ _)) by done.
  step (get_zone_ok m st s Hst ltac:(unfold LIMIT; lia)).
  assert (zone_start (zone_state (zone_at s)) <= s) as Hzs.
  { unfold zone_at. destruct (Z.ltb_spec s 0x100000);
      [change (0 <= s)|change (2 ^ 20 <= s)]; lia. }
  rewrite Z.max_l by done. rewrite (proj2 (Z.eqb_neq s 0)) by lia.
  rewrite (bind_ok _ _ _ (chunk_order s) m)
    by (unfold new_order; run; by rewrite (proj2 (Z.leb_le _ _)) by apply Hr).
  rewrite to_count_pow by apply Hr. step (add_ok m s (2 ^ chunk_order s) ltac:(unfold USIZE; lia)).
  pose proof (chunk_in_zone s ltac:(lia) ltac:(unfold LIMIT; lia)) as Hin.
  change (zone_end (zone_state (zone_at s))) with (snd (zone_range (zone_at s))).
  rewrite (Z.min_l (Z.min _ _)) by lia. fold (chunk_end s e).
  assert (0 < chunk_end s e - s <= 1024) as Hlen by (unfold chunk_end; lia).
  rewrite Z.abs_eq by lia. destruct (from_count_ok m _ Hlen) as (Hfc & Ho & _). step Hfc. fold o in Ho |- *.
  step (get_raw_ok m s ltac:(unfold LIMIT; lia)).
  step (from_allocator_ok m s 0 f ltac:(lia) ltac:(apply Z.divide_1_l) ltac:(unfold LIMIT; lia) Hf Hc Ht).
  rewrite (bind_ok _ _ _ (mkUnique s 0) m) by done. cbn [start]. unfold replace_buddy.
  step (replace_ok m s f Buddy (DBuddy false o (zone_at s)) Hf). rewrite Hc. set (m1 := upd s _ m).
  assert (frames m1 !! s = Some (mkFrame 0 Buddy (DBuddy false o (zone_at s)))) as H1 by apply lookup_insert_eq.
  rewrite (bind_ok _ _ _ true (listed (zone_at s) s o (s :: free m1 (zone_at s, o)) m1)).
  - unfold m1 at 2. by rewrite listed_upd.
  - unfold add_to_free_list. rewrite (bind_ok _ _ _ (Some (false, o, zone_at s)) m1).
    + by step (add_head_ok m1 (zone_at s) s o ltac:(lia) H1).
    + unfold try_buddy. by step (frame_ok m1 s _ H1).
Qed.

(** The first frame of [[s, e)] that ends up in no block: a last chunk shorter than
    its alignment keeps only the largest power of two dividing its length. *)
Fixpoint kept (fuel : nat) (s e : Z) : Z :=
  match fuel with
  | O => s
  | S fuel =>
    if s <? e then
      if chunk_end s e <? e then kept fuel (chunk_end s e) e
      else s + 2 ^ trailing_zeros (e - s)
    else s
  end.

(** Frames as the firmware's map leaves them: the first one describes the range, the
    others are blank; the structures after the range are mapped, too. *)
Record fresh (m : Memory) (own : list UniqueFrames) (s e : Z) : Prop := {
  fresh_low : 0x100 <= s;
  fresh_high : e + 1024 < LIMIT;
  fresh_head : s < e -> exists f, frames m !! s = Some f /\ refcount f = 0 /\ unused_tag (tag f) = true;
  fresh_inner i : s < i < e -> exists f, frames m !! i = Some f /\ refcount f = 0 /\ tag f = Uninited;
  fresh_near i : s <= i <= e + 1024 -> calm m i;
  fresh_new i : s <= i < e -> ~ covered m own i
}.

Section range.
Context {m : Memory} {own : list UniqueFrames} (I : binv m own).
Context (s e : Z) (Hse : s < e) (R : fresh m own s e).
Let c := chunk_end s e.
Let o := trailing_zeros (c - s).
Let m' := listed (zone_at s) s o (s :: free m (zone_at s, o)) m.

Lemma chunk_len : 0 < c - s <= 1024.
Proof. unfold c, chunk_end. pose proof (pow_le_1024 _ (chunk_order_range s)). lia. Qed.

Lemma chunk_full : c < e -> o = chunk_order s /\ c = s + 2 ^ o.
Proof.
  intros Hc. pose proof (chunk_order_range s) as Hr. assert (c - s = 2 ^ chunk_order s) as He by (unfold c, chunk_end in *; lia).
  assert (o = chunk_order s) as ->; [|lia]. unfold o. rewrite He.
  apply trailing_zeros_pow. unfold MAX_ORDER in Hr. lia.
Qed.

Lemma chunk_block :
  0 <= o <= MAX_ORDER /\ (2 ^ o | s) /\ s + 2 ^ o <= c /\ s + 2 ^ o <= snd (zone_range (zone_at s)).
Proof.
  destruct (from_count_ok m _ chunk_len) as (_ & Ho & Hd & Hle). fold o in Ho, Hd, Hle.
  pose proof (chunk_order_range s) as Hr. destruct R as [Hlow Hhigh _ _ _ _].
  pose proof (chunk_in_zone s ltac:(lia)) as Hz. pose proof (pow_le_1024 _ Hr).
  assert (2 ^ o <= 2 ^ chunk_order s) as Hp by (unfold c, chunk_end in *; lia).
  assert (o <= chunk_order s) as Hoc.
  { apply Z.nlt_ge. intros Hlt. pose proof (pow_lt_inj (chunk_order s) o). lia. }
  split; [done|]. split; [|split; [lia|unfold LIMIT in *; lia]].
  etrans; [|apply chunk_order_aligned; lia]. exists (2 ^ (chunk_order s - o)).
  rewrite <- Z.pow_add_r by lia. f_equal. lia.
Qed.

Lemma chunk_near i : s <= i <= s + 2 ^ (o + 1) -> i < LIMIT /\ calm m i.
Proof.
  intros Hi. destruct chunk_block as (Ho & _ & Hc & _). pose proof (pow_le_1024 o Ho).
  rewrite pow_double in Hi by lia. destruct R as [_ Hhigh _ _ Hnear _].
  assert (c <= e) by (unfold c, chunk_end; lia). split; [lia|]. apply Hnear. lia.
Qed.

Lemma chunk_inner i : s < i < s + 2 ^ o -> inner m i.
Proof.
  intros Hi. destruct chunk_block as (_ & _ & Hc & _). assert (c <= e) by (unfold c, chunk_end; lia).
  destruct (fresh_inner _ _ _ _ R i ltac:(lia)) as (f & ? & ? & ?). exists f. auto.
Qed.

Lemma chunk_new i : s <= i < s + 2 ^ o -> ~ covered m own i.
Proof.
  intros Hi. destruct chunk_block as (_ & _ & Hc & _). assert (c <= e) by (unfold c, chunk_end; lia).
  apply (fresh_new _ _ _ _ R). lia.
Qed.

Lemma chunk_binv : binv m' own.
Proof.
  destruct chunk_block as (Ho & Hal & Hc & Hz). pose proof (pow_le_1024 o Ho).
  destruct (chunk_near (s + 2 ^ o)) as [? _]; [rewrite pow_double by lia; lia|].
  apply add_block_binv; try done; [apply R|lia|by apply chunk_new|by apply chunk_inner].
Qed.

Lemma chunk_keeps_near : near m own -> near m' own.
Proof. intros N. apply add_block_near; [apply chunk_block|apply chunk_near|done]. Qed.

Lemma chunk_covered i : covered m' own i <-> covered m own i \/ s <= i < s + 2 ^ o.
Proof.
  destruct chunk_block as (Ho & _ & _ & Hz). by apply add_block_covered.
Qed.

Lemma chunk_fresh : fresh m' own c e.
Proof.
  pose proof chunk_len. destruct chunk_block as (_ & _ & Hc & _). pose proof R as [Hlow Hhigh _ Hin Hnear Hnew]. split.
  - lia.
  - done.
  - intros Hlt. destruct (Hin c ltac:(lia)) as (f & ? & ? & Ht). exists f.
    unfold m'. rewrite listed_other by lia. by rewrite Ht.
  - intros i Hi. unfold m'. rewrite listed_other by lia. apply Hin. lia.
  - intros i Hi. apply add_block_calm, Hnear. lia.
  - intros i Hi Hcov. apply chunk_covered in Hcov as [Hcov|]; [|lia]. apply (Hnew i); [lia|done].
Qed.
End range.

Lemma zone_before_next s i : s <= i -> zone_before (zone_state (zone_at s)) i.
Proof.
  intros H. unfold zone_before, zone_at. destruct (Z.ltb_spec s 0x100000); [by left|right].
  by rewrite (proj2 (Z.ltb_ge _ _)) by lia.
Qed.

Lemma chunk_end_bounds s e : s < e -> s < chunk_end s e <= e.
Proof. intros. pose proof (pow_le_1024 _ (chunk_order_range s)). unfold chunk_end. lia. Qed.

Lemma kept_bounds fuel s e : s <= e -> s <= kept fuel s e <= e.
Proof.
  revert s. induction fuel as [|fuel IH]; intros s Hs; cbn [kept]; [lia|].
  destruct (Z.ltb_spec s e) as [Hlt|]; [|lia]. pose proof (chunk_end_bounds s e Hlt).
  destruct (Z.ltb_spec (chunk_end s e) e) as [Hc|Hc]; [specialize (IH (chunk_end s e) ltac:(lia)); lia|].
  pose proof (pow_le_1024 _ (chunk_order_range s)).
  destruct (from_count_ok eight (e - s)) as (_ & _ & _ & ?); [unfold chunk_end in *; lia|].
  pose proof (Z.pow_nonneg 2 (trailing_zeros (e - s))). lia.
Qed.

(** Nothing is lost when the end of the range is aligned to the largest order. *)
Lemma kept_aligned fuel s e :
  (1024 | e) -> 0 <= s <= e -> (Z.to_nat (e - s) < fuel)%nat -> kept fuel s e = e.
Proof.
  intros He. revert s. induction fuel as [|fuel IH]; intros s Hs Hf; [lia|]. cbn [kept].
  destruct (Z.ltb_spec s e) as [Hlt|]; [|lia]. pose proof (chunk_end_bounds s e Hlt).
  destruct (Z.ltb_spec (chunk_end s e) e) as [Hc|Hc]; [apply IH; lia|].
  pose proof (chunk_order_range s) as Hr. unfold MAX_ORDER in Hr.
  assert (e - s = 2 ^ chunk_order s) as Hes.
  { pose proof (aligned_step (2 ^ chunk_order s) s e) as Hstep.
    pose proof (pow_le_1024 _ (chunk_order_range s)).
    enough (s + 2 ^ chunk_order s <= e) by (unfold chunk_end in *; lia).
    apply Hstep; [lia|by apply chunk_order_aligned; lia| |done]. etrans; [|exact He].
    exists (2 ^ (10 - chunk_order s)). rewrite <- Z.pow_add_r by lia. change 1024 with (2 ^ 10). f_equal. lia. }
  rewrite Hes, trailing_zeros_pow by lia. lia.
Qed.

Lemma add_free_block_ok own e fuel : forall st m s,
  binv m own -> fresh m own s e -> s <= e -> zone_before st s -> (Z.to_nat (e - s) < fuel)%nat ->
  exists st' m', add_free_block fuel st s e m = Ok (st', m') /\ binv m' own /\ (near m own -> near m' own) /\
    (forall i, covered m' own i <-> covered m own i \/ s <= i < kept fuel s e) /\
    (forall i, i < s \/ e <= i -> frames m' !! i = frames m !! i) /\
    allocated_pages m' = allocated_pages m.
Proof.
  induction fuel as [|fuel IH]; intros st m s I R Hle Hst Hfuel; [lia|].
  destruct (Z.le_gt_cases e s) as [|Hlt].
  { cbn [add_free_block kept]. rewrite (proj2 (Z.ltb_ge _ _)) by done. exists st, m.
    split; [done|]. split; [done|]. split; [done|]. split; [|done]. intros i. split; [by left|]. intros [|]; [done|lia]. }
  destruct (fresh_head _ _ _ _ R Hlt) as (f & Hf & Hc & Ht). pose proof R as [Hlow Hhigh _ _ _ _].
  rewrite (add_free_block_round m st s e fuel f Hst ltac:(lia) Hlt ltac:(lia) Hf Hc Ht).
  pose proof (chunk_len s e Hlt) as Hlen. destruct (chunk_block (m := m) s e Hlt R) as (Ho & _ & Hce & _).
  set (c := chunk_end s e) in *. set (o := trailing_zeros (c - s)) in *. set (m1 := listed _ _ _ _ _).
  assert (c <= e) by (unfold c, chunk_end; lia).
  destruct (IH (zone_state (zone_at s)) m1 c) as (st' & m' & Hrun & I' & N' & Hcov & Hout & Hp);
    [by apply chunk_binv|by apply chunk_fresh|done|apply zone_before_next; lia|lia|].
  exists st', m'. split; [done|]. split; [done|].
  split; [intros N; by apply N', chunk_keeps_near|]. split; [|split; [|by rewrite Hp]].
  - intros i. rewrite Hcov. unfold m1, o, c. rewrite (chunk_covered s e) by done. fold c o.
    cbn [kept]. rewrite (proj2 (Z.ltb_lt s e)) by done. fold c. destruct (Z.ltb_spec c e) as [Hlast|Hlast].
    + destruct (chunk_full (m := m) s e Hlast) as [_ Hfull]. fold c o in Hfull.
      destruct (kept_bounds fuel c e); [done|]. intuition lia.
    + assert (c = e) as Hc' by lia. unfold o. rewrite Hc'. replace (kept fuel e e) with e; [intuition lia|].
      destruct fuel; cbn [kept]; [done|]. by rewrite Z.ltb_irrefl.
  - intros i Hi. rewrite Hout by lia. apply listed_other. lia.
Qed.

(** C35. A range of free frames found at start-up is entered into the free lists: the
    frames from [s] up to [kept] are covered by aligned blocks, each exactly once,
    and the scan goes on at the end of the range.  Nothing is lost if the end is a
    multiple of 1024 frames; otherwise a last chunk loses what its largest
    power-of-two divisor leaves over. *)
Theorem free_range_entered m own st s e :
  binv m own -> fresh m own s e -> s < e -> zone_before st s ->
  frames m !! s = Some (mkFrame 0 Free (DRange s e)) ->
  exists st' m', scan_frame st s m = Ok ((st', e), m') /\ binv m' own /\ (near m own -> near m' own) /\
    (forall i, covered m' own i <-> covered m own i \/ s <= i < kept (block_fuel s e) s e) /\
    ((1024 | e) -> kept (block_fuel s e) s e = e) /\
    (forall i, i < s \/ e <= i -> frames m' !! i = frames m !! i).
Proof.
  intros I R Hlt Hst Hf. destruct R as [Hlow Hhigh ? ? ? ?] eqn:HR.
  destruct (add_free_block_ok own e (block_fuel s e) st m s I R ltac:(lia) Hst ltac:(unfold block_fuel; lia))
    as (st' & m' & Hrun & I' & N' & Hcov & Hout & _).
  exists st', m'. split; [|split; [done|split; [done|split; [done|split; [|done]]]]].
  - unfold scan_frame. step (get_raw_ok m s ltac:(lia)). step (frame_ok m s _ Hf). cbn [tag].
    step (from_allocator_ok m s 0 _ ltac:(lia) (Z.divide_1_l s) ltac:(lia) Hf eq_refl eq_refl).
    rewrite (bind_ok _ _ _ (mkUnique s 0) m) by done. cbn [start]. step (frame_ok m s _ Hf).
    rewrite (bind_ok _ _ _ (s, e) m) by done. by step Hrun.
  - intros He. apply kept_aligned; [done|lia|unfold block_fuel; lia].
Qed.

(** ** References *)

Section references.
Context (n : Z).

Lemma set_refcount_ok m f c :
  frames m !! n = Some f -> set_refcount n c m = Ok (tt, upd n (mkFrame c (tag f) (data f)) m).
Proof. intros H. unfold set_refcount. by step (frame_ok m n f H). Qed.

Lemma acquire_ok m f :
  frames m !! n = Some f -> 0 < refcount f < USIZE - 1 ->
  acquire n m = Ok (true, upd n (mkFrame (refcount f + 1) (tag f) (data f)) m).
Proof.
  intros Hf Hc. unfold acquire, update. rewrite bind_assoc. step (frame_ok m n f Hf). rewrite !bind_assoc.
  step (add_ok m (refcount f) 1 ltac:(lia)). unfold EXCLUSIVE. rewrite (proj2 (Z.eqb_neq _ 0)) by lia.
  rewrite (bind_ok _ _ _ (Some (refcount f + 1)) m) by done. rewrite bind_assoc.
  by step (set_refcount_ok m f (refcount f + 1) Hf).
Qed.

Lemma release_ok m f :
  frames m !! n = Some f -> 1 < refcount f ->
  release n m = Ok (Some (refcount f), upd n (mkFrame (refcount f - 1) (tag f) (data f)) m).
Proof.
  intros Hf Hc. unfold release, update, EXCLUSIVE. step (frame_ok m n f Hf).
  rewrite (bind_ok _ _ _ (Some (refcount f - 1)) m).
  - by step (set_refcount_ok m f (refcount f - 1) Hf).
  - rewrite (proj2 (Z.eqb_neq _ 0)) by lia. by rewrite (proj2 (Z.eqb_neq _ 1)) by lia.
Qed.

(** The last reference cannot be released. *)
Lemma release_last m f :
  frames m !! n = Some f -> refcount f = 1 -> release n m = Ok (None, m).
Proof. intros Hf Hc. unfold release, update. step (frame_ok m n f Hf). by rewrite Hc. Qed.
End references.

(** What the holders of references do: one of them makes a copy, or drops its own. *)
Inductive use : Type := Copy | Discard.

Fixpoint uses (drop_table : Z -> M Memory unit) (s : SharedFrames) (l : list use) : M Memory unit :=
  match l with
  | [] => ret tt
  | Copy :: l => _ ← clone s ; uses drop_table s l
  | Discard :: l => drop_shared drop_table s ;; uses drop_table s l
  end.

(** The number of references after a sequence of uses; [None] when the last one
    would be dropped or their number would not fit the counter. *)
Fixpoint holders (c : Z) (l : list use) : option Z :=
  match l with
  | [] => Some c
  | Copy :: l => if c <? USIZE - 1 then holders (c + 1) l else None
  | Discard :: l => if 1 <? c then holders (c - 1) l else None
  end.

Lemma uses_ok dt s l c c' m f :
  frames m !! shared s = Some f -> refcount f = c -> 0 < c -> holders c l = Some c' ->
  uses dt s l m = Ok (tt, upd (shared s) (mkFrame c' (tag f) (data f)) m) /\ 0 < c'.
Proof.
  revert c m f. induction l as [|u l IH]; intros c m f Hf Hc Hpos Hh; simpl in *.
  - injection Hh as <-. split; [|done]. run. do 2 f_equal. unfold upd. destruct m as [fs fr ap], f; simpl in *.
    f_equal. symmetry. apply insert_id. by subst.
  - destruct u.
    + destruct (Z.ltb_spec c (USIZE - 1)) as [Hlt|]; [|done].
      unfold clone. rewrite bind_assoc. step (acquire_ok (shared s) m f Hf ltac:(lia)).
      rewrite (bind_ok _ _ _ s (upd (shared s) (mkFrame (refcount f + 1) (tag f) (data f)) m)) by done.
      destruct (IH (c + 1) (upd (shared s) (mkFrame (refcount f + 1) (tag f) (data f)) m)
        (mkFrame (refcount f + 1) (tag f) (data f))) as [-> ?]; [apply lookup_insert_eq|simpl; lia|lia|done|].
      by rewrite upd_twice.
    + destruct (Z.ltb_spec 1 c) as [Hlt|]; [|done]. unfold drop_shared. rewrite bind_assoc.
      step (release_ok (shared s) m f Hf ltac:(lia)). unfold bind at 1. simpl.
      destruct (IH (c - 1) (upd (shared s) (mkFrame (refcount f - 1) (tag f) (data f)) m)
        (mkFrame (refcount f - 1) (tag f) (data f))) as [-> ?]; [apply lookup_insert_eq|simpl; lia|lia|done|].
      by rewrite upd_twice.
Qed.

(** C36. Sharing is counted exactly: a block made shared, copied and dropped in any
    order, as long as one reference is left, has as its count the number of
    references and is otherwise unchanged; upgrading succeeds exactly when one
    reference is left, and then gives the block back as it was. *)
Theorem references_counted dt u l c m f :
  frames m !! start u = Some f -> refcount f = EXCLUSIVE -> holders 1 l = Some c ->
  exists m', (s ← downgrade u ; uses dt s l ;; ret s)%c m = Ok (mkShared (start u) (order u), m') /\
    m' = upd (start u) (mkFrame c (tag f) (data f)) m /\
    (c = 1 -> shared_try_upgrade dt (mkShared (start u) (order u)) m' = Ok (Some u, m)) /\
    (1 < c -> exists m'', shared_try_upgrade dt (mkShared (start u) (order u)) m' = Ok (None, m'') /\
      m'' = upd (start u) (mkFrame (c - 1) (tag f) (data f)) m).
Proof.
  intros Hf Hx Hh. set (s := mkShared (start u) (order u)).
  set (m1 := upd (start u) (mkFrame 1 (tag f) (data f)) m).
  assert (downgrade u m = Ok (s, m1)) as Hd
    by (unfold downgrade; by step (set_refcount_ok (start u) m f 1 Hf)).
  destruct (uses_ok dt s l 1 c m1 (mkFrame 1 (tag f) (data f))) as [Hr Hc];
    [apply lookup_insert_eq|done|lia|done|].
  unfold m1 in Hr at 2. rewrite upd_twice in Hr. simpl in Hr. eexists. split; [step Hd; by step Hr|].
  split; [done|]. set (m2 := upd (start u) _ m).
  assert (frames m2 !! start u = Some (mkFrame c (tag f) (data f))) as H2 by apply lookup_insert_eq.
  unfold shared_try_upgrade, rc_try_upgrade. split.
  - intros ->. rewrite bind_assoc. step (frame_ok m2 (start u) _ H2). cbn [refcount].
    rewrite Z.eqb_refl. rewrite bind_assoc. step (set_refcount_ok (start u) m2 _ EXCLUSIVE H2).
    unfold m2. rewrite upd_twice. cbn [tag data]. destruct u, m as [fs fr ap], f as [rc tg dd].
    simpl in *. subst rc. run. unfold upd. simpl. rewrite insert_id by done. done.
  - intros Hgt. rewrite bind_assoc. step (frame_ok m2 (start u) _ H2). cbn [refcount].
    rewrite (proj2 (Z.eqb_neq _ _)) by lia. rewrite (bind_ok _ _ _ false m2) by done.
    unfold drop_shared. rewrite bind_assoc. step (release_ok (start u) m2 _ H2 Hgt).
    eexists. split; [done|]. unfold m2. by rewrite upd_twice.
Qed.

Lemma from_allocator_shared m n o f :
  frames m !! n = Some f -> refcount f <> 0 -> from_allocator n o m = Undef.
Proof.
  intros Hf Hc. unfold from_allocator, get_raw, defined_if. rewrite !bind_assoc.
  destruct (align_down n o <=? _); [|done]. rewrite (bind_ok _ _ _ tt m), bind_assoc by done.
  destruct (_ <? VMEMMAP_END); [|done]. rewrite (bind_ok _ _ _ tt m) by done.
  rewrite (bind_ok _ _ _ (align_down n o) m) by done. step (frame_ok m n f Hf).
  by rewrite (proj2 (Z.eqb_neq _ _)).
Qed.

Lemma deallocate_shared m n f o :
  frames m !! n = Some f -> refcount f <> 0 -> tag f = Anonymous -> data f = DAnonymous o ->
  deallocate n m = Undef.
Proof.
  intros Hf Hc Ht Hd. unfold deallocate, zone_of_frame. rewrite bind_assoc.
  unfold defined_if. destruct (0x100 <=? n); [|done]. rewrite (bind_ok _ _ _ tt m) by done.
  rewrite (bind_ok _ _ _ (zone_at n) m) by done. step (frame_ok m n f Hf). rewrite Ht, Hd.
  unfold replace_buddy. step (replace_ok m n f Buddy (DBuddy false o (zone_at n)) Hf).
  unfold bind at 1. by rewrite (from_allocator_shared _ n o _ (lookup_insert_eq _ _ _)).
Qed.

(** Dropping the last shared reference to a block panics: the count is one and
    stays one, because [release] refuses to go from one to zero, and the allocator
    then asserts that the count of the frame it takes back is zero. *)
Theorem last_reference_panics dt s m f :
  frames m !! shared s = Some f -> refcount f = 1 -> tag f <> PageTable ->
  drop_shared dt s m = Undef.
Proof.
  intros Hf Hc Ht. unfold drop_shared. step (release_last (shared s) m f Hf Hc).
  step (frame_ok m (shared s) f Hf). rewrite (bind_ok _ _ _ tt m) by (by destruct (tag f)).
  step (release_last (shared s) m f Hf Hc). unfold replace_anonymous.
  step (replace_ok m (shared s) f Anonymous (DAnonymous (shared_order s)) Hf). rewrite Hc.
  unfold drop_unique. cbn [start]. set (m1 := upd _ _ m).
  assert (frames m1 !! shared s = Some (mkFrame 1 Anonymous (DAnonymous (shared_order s)))) as H1
    by apply lookup_insert_eq.
  step (frame_ok m1 _ _ H1). cbn [tag]. unfold free_last, bind.
  by rewrite (deallocate_shared m1 (shared s) _ (shared_order s) H1).
Qed.

(** ** A range of six frames *)

Definition six_frames : gmap Z Frame := <[1024 := mkFrame 0 Free (DRange 1024 1030)]> (blanks 1024 1100).
Definition nothing : Memory := mkMemory six_frames (fun _ => []) 0.

Lemma nothing_holds z b o : ~ holds nothing [] z b o.
Proof. by intros [?%elem_of_nil|[_ ?%elem_of_nil]]. Qed.

Lemma nothing_binv : binv nothing [].
Proof.
  split; try (by intros ? ? ? ?%nothing_holds); try (by intros ? ? ? ? ?%nothing_holds).
  - by intros z b o ?%elem_of_nil.
  - by intros b o ?%elem_of_nil.
  - intros z o. constructor.
  - constructor.
Qed.

Lemma nothing_blank i : 1024 < i < 2124 -> frames nothing !! i = Some blank.
Proof.
  intros Hi. change (frames nothing) with six_frames. unfold six_frames.
  rewrite lookup_insert_ne by lia. apply blanks_lookup. lia.
Qed.

Lemma nothing_head : frames nothing !! 1024 = Some (mkFrame 0 Free (DRange 1024 1030)).
Proof. change (frames nothing) with six_frames. unfold six_frames. apply lookup_insert_eq. Qed.

Lemma nothing_fresh : fresh nothing [] 1024 1030.
Proof.
  split; try (unfold LIMIT; lia).
  - intros _. eexists. split; [apply nothing_head|done].
  - intros i Hi. exists blank. split; [apply nothing_blank; lia|done].
  - intros i Hi. destruct (decide (i = 1024)) as [->|].
    + eexists. split; [apply nothing_head|by split].
    + exists blank. split; [apply nothing_blank; lia|by split].
  - intros i Hi (z & b & o & H & _). by apply nothing_holds in H.
Qed.

(** Of six frames four are lost. *)
Lemma free_range_entered_witness :
  exists st' m', scan_frame zone_state_new 1024 nothing = Ok ((st', 1030), m') /\
    (forall i, covered m' [] i <-> 1024 <= i < 1026).
Proof.
  destruct (free_range_entered nothing [] zone_state_new 1024 1030 nothing_binv nothing_fresh
    ltac:(lia) (or_introl eq_refl) nothing_head) as (st' & m' & Hr & _ & _ & Hc & _).
  exists st', m'. split; [exact Hr|]. intros i. rewrite Hc.
  change (kept (block_fuel 1024 1030) 1024 1030) with 1026.
  split; [|intros Hi; right; exact Hi]. intros [(z & b & o & H & _)|Hi]; [destruct (nothing_holds _ _ _ H)|exact Hi].
Defined.

Lemma references_counted_witness :
  exists m', (s ← downgrade (mkUnique 1024 0) ;
      uses (fun _ => ret tt) s [Copy; Copy; Discard; Discard] ;; ret s)%c seven
    = Ok (mkShared 1024 0, m') /\
    shared_try_upgrade (fun _ => ret tt) (mkShared 1024 0) m' = Ok (Some (mkUnique 1024 0), seven).
Proof.
  destruct (references_counted (fun _ => ret tt) (mkUnique 1024 0) [Copy; Copy; Discard; Discard] 1 seven
    (mkFrame 0 Anonymous (DAnonymous 0))) as (m' & Hr & _ & Hu & _);
    [rewrite seven_taken; apply (taken_head MEM32 1024 0 3 [] eight)|done|done|].
  exists m'. split; [exact Hr|]. by apply Hu.
Defined.

Lemma last_reference_panics_witness :
  bind (downgrade (mkUnique 1024 0)) (drop_shared (fun _ => ret tt)) seven = Undef.
Proof.
  assert (frames seven !! 1024 = Some (mkFrame 0 Anonymous (DAnonymous 0))) as Hf
    by (rewrite seven_taken; apply (taken_head MEM32 1024 0 3 [] eight)).
  unfold downgrade. rewrite bind_assoc. rewrite (bind_ok _ _ _ _ _ (set_refcount_ok 1024 seven _ 1 Hf)).
  apply (last_reference_panics (fun _ => ret tt) (mkShared 1024 0) _ (mkFrame 1 Anonymous (DAnonymous 0)));
    [apply lookup_insert_eq|done|done].
Defined.
