(* ===== verification/Aml.v ===== *)
(** * Loading of AML tables (src/acpi/aml)

    aml.rs, opcode.rs, the parser (parser.rs and parser/) and the name space it fills
    (namespace.rs and namespace/).  The parser's state is the rest of its byte code
    and the name space.  A name-space node is named by its position in the list of all
    nodes: nodes are allocated when they are added and never freed.  A function that
    returns [None] keeps what it consumed and added until then, as the code does. *)

From stdpp Require Import base tactics list.
From S2P Require Import Prelude CMonad.
Local Open Scope Z_scope.

(** ** Opcodes (opcode.rs) *)

Inductive Opcode : Type :=
| OpZero | OpOne | OpByte | OpWord | OpDword | OpQword | OpString | OpAlias | OpName
| OpScope | OpBuffer | OpPackage | OpVarPackage | OpMethod | OpExternal
| OpLocal (n : Z) | OpArg (n : Z) | OpStore | OpRefOf | OpAdd | OpConcat | OpSubtract
| OpIncrement | OpDecrement | OpMultiply | OpDivide | OpShiftLeft | OpShiftRight | OpAnd
| OpNand | OpOr | OpNor | OpXor | OpNot | OpFindSetLeftBit | OpFindSetRightBit
| OpDerefOf | OpConcatRes | OpMod | OpNotify | OpSizeOf | OpIndex | OpMatch
| OpCreateDwordField | OpCreateWordField | OpCreateByteField | OpCreateBitField
| OpObjectType | OpCreateQwordField | OpLand | OpLor | OpLNotEqual | OpLLessEqual
| OpLGreaterEqual | OpLEqual | OpLGreater | OpLLess | OpToBuffer | OpToDecimalString
| OpToHexString | OpToInteger | OpToString | OpCopyObject | OpMid | OpContinue | OpIf
| OpElse | OpWhile | OpNoop | OpReturn | OpBreak | OpBreakPoint | OpOnes | OpMutex
| OpEvent | OpCondRefOf | OpCreateField | OpLoadTable | OpLoad | OpStall | OpSleep
| OpAcquire | OpSignal | OpWait | OpReset | OpRelease | OpFromBcd | OpRevision | OpDebug
| OpFatal | OpTimer | OpOpRegion | OpField | OpDevice | OpProcessor | OpPowerRes
| OpThermalZone | OpIndexField | OpBankField | OpDataRegion.

(** The one-byte opcodes without a second byte. *)
Definition plain_opcode (byte : Z) : option Opcode :=
  match byte with
  | 0x0A => Some OpByte | 0x0B => Some OpWord | 0x0C => Some OpDword | 0x0E => Some OpQword
  | 0x0D => Some OpString | 0x00 => Some OpZero | 0x01 => Some OpOne | 0x06 => Some OpAlias
  | 0x08 => Some OpName | 0x10 => Some OpScope | 0x11 => Some OpBuffer
  | 0x12 => Some OpPackage | 0x13 => Some OpVarPackage | 0x14 => Some OpMethod
  | 0x15 => Some OpExternal | 0x60 => Some (OpLocal 0) | 0x61 => Some (OpLocal 1)
  | 0x62 => Some (OpLocal 2) | 0x63 => Some (OpLocal 3) | 0x64 => Some (OpLocal 4)
  | 0x65 => Some (OpLocal 5) | 0x66 => Some (OpLocal 6) | 0x67 => Some (OpLocal 7)
  | 0x68 => Some (OpArg 0) | 0x69 => Some (OpArg 1) | 0x6A => Some (OpArg 2)
  | 0x6B => Some (OpArg 3) | 0x6C => Some (OpArg 4) | 0x6D => Some (OpArg 5)
  | 0x6E => Some (OpArg 6) | 0x70 => Some OpStore | 0x71 => Some OpRefOf
  | 0x72 => Some OpAdd | 0x73 => Some OpConcat | 0x74 => Some OpSubtract
  | 0x75 => Some OpIncrement | 0x76 => Some OpDecrement | 0x77 => Some OpMultiply
  | 0x78 => Some OpDivide | 0x79 => Some OpShiftLeft | 0x7A => Some OpShiftRight
  | 0x7B => Some OpAnd | 0x7C => Some OpNand | 0x7D => Some OpOr | 0x7E => Some OpNor
  | 0x7F => Some OpXor | 0x80 => Some OpNot | 0x81 => Some OpFindSetLeftBit
  | 0x82 => Some OpFindSetRightBit | 0x83 => Some OpDerefOf | 0x84 => Some OpConcatRes
  | 0x85 => Some OpMod | 0x86 => Some OpNotify | 0x87 => Some OpSizeOf
  | 0x88 => Some OpIndex | 0x89 => Some OpMatch | 0x8A => Some OpCreateDwordField
  | 0x8B => Some OpCreateWordField | 0x8C => Some OpCreateByteField
  | 0x8D => Some OpCreateBitField | 0x8E => Some OpObjectType
  | 0x8F => Some OpCreateQwordField | 0x90 => Some OpLand | 0x91 => Some OpLor
  | 0x93 => Some OpLEqual | 0x94 => Some OpLGreater | 0x95 => Some OpLLess
  | 0x96 => Some OpToBuffer | 0x97 => Some OpToDecimalString | 0x98 => Some OpToHexString
  | 0x99 => Some OpToInteger | 0x9C => Some OpToString | 0x9D => Some OpCopyObject
  | 0x9E => Some OpMid | 0x9F => Some OpContinue | 0xA0 => Some OpIf | 0xA1 => Some OpElse
  | 0xA2 => Some OpWhile | 0xA3 => Some OpNoop | 0xA4 => Some OpReturn
  | 0xA5 => Some OpBreak | 0xCC => Some OpBreakPoint | 0xFF => Some OpOnes
  | _ => None
  end.

(** [not_op] and [from_ext]; [inr] is the error with the byte that was not understood. *)
Definition not_op (byte : Z) : Opcode + option Z :=
  match byte with
  | 0x93 => inl OpLNotEqual | 0x94 => inl OpLLessEqual | 0x95 => inl OpLGreaterEqual
  | _ => inr None
  end.

Definition from_ext (byte : Z) : Opcode + option Z :=
  match byte with
  | 0x01 => inl OpMutex | 0x02 => inl OpEvent | 0x12 => inl OpCondRefOf
  | 0x13 => inl OpCreateField | 0x1F => inl OpLoadTable | 0x20 => inl OpLoad
  | 0x21 => inl OpStall | 0x22 => inl OpSleep | 0x23 => inl OpAcquire | 0x24 => inl OpSignal
  | 0x25 => inl OpWait | 0x26 => inl OpReset | 0x27 => inl OpRelease | 0x28 => inl OpFromBcd
  | 0x30 => inl OpRevision | 0x31 => inl OpDebug | 0x32 => inl OpFatal | 0x33 => inl OpTimer
  | 0x80 => inl OpOpRegion | 0x81 => inl OpField | 0x82 => inl OpDevice
  | 0x83 => inl OpProcessor | 0x84 => inl OpPowerRes | 0x85 => inl OpThermalZone
  | 0x86 => inl OpIndexField | 0x87 => inl OpBankField | 0x88 => inl OpDataRegion
  | _ => inr None
  end.

(** ** What names stand for (namespace/data.rs, namespace/objects.rs, evaluator.rs)

    A pointer to a node or to the object of a node is the number of the node. *)

Abbreviation NodeId := nat.
Abbreviation Name := (list Z).

Inductive BuiltinObject : Type := Arg (n : Z) | Local (n : Z) | Debug.

Inductive Path : Type :=
| PathRoot (path : list Name)
| PathRelative (level : Z) (path : list Name).

Inductive DataObject : Type :=
| DInteger (n : Z)
| DString (s : list Z)
| DBuffer (b : list Z)
| DPackage (elements : list PackageElement)
| DVarPackage (num_elements : Evaluatable) (initializer : list PackageElement)
| DRevision
with PackageElement : Type :=
| ElementData (d : DataObject)
| ElementReference (e : Evaluatable)
| ElementDirect (n : NodeId)
with Evaluatable : Type :=
| EReference (r : ReferenceType)
| EBuiltin (b : BuiltinObject)
| EData (d : DataObject)
with ReferenceType : Type :=
| RefOf (s : SuperName)
| CondRefOf (source : SuperName) (target : option SuperName)
| DerefOf (r : ReferenceType)
| IndexOf (source index : Evaluatable) (target : option SuperName)
with SuperName : Type :=
| SuperPath (p : Path)
| SuperBuiltin (b : BuiltinObject)
| SuperNested (r : ReferenceType).

Inductive RegionSpace : Type :=
| SystemMemory | SystemIO | PciConfig | EmbeddedControl | SmBus | Userdefined (n : Z).

Definition region_space (byte : Z) : RegionSpace :=
  match byte with
  | 0 => SystemMemory | 1 => SystemIO | 2 => PciConfig | 3 => EmbeddedControl | 4 => SmBus
  | _ => Userdefined byte
  end.

Inductive FieldAccessType : Type :=
| AccessAny | AccessByte | AccessWord | AccessDword | AccessQword | AccessBlock
| AccessSmbSendRecv | AccessSmbQuickAccess.

Definition access_type (value : Z) : option FieldAccessType :=
  match value with
  | 0 => Some AccessAny | 1 => Some AccessByte | 2 => Some AccessWord | 3 => Some AccessDword
  | 4 => Some AccessQword | 5 => Some AccessBlock | 6 => Some AccessSmbSendRecv
  | 7 => Some AccessSmbQuickAccess
  | _ => None
  end.

Inductive FieldUpdateRule : Type := Preserve | WriteAsOnes | WriteAsZeros.

Definition update_rule (value : Z) : option FieldUpdateRule :=
  match value with
  | 0 => Some Preserve | 1 => Some WriteAsOnes | 2 => Some WriteAsZeros | _ => None
  end.

(** Of the lock only whether there is one. *)
Record FieldUnit : Type := mkFieldUnit {
  fu_region : NodeId; fu_bit_offset : Z; fu_bit_length : Z; fu_access : FieldAccessType;
  fu_lock : bool; fu_update : FieldUpdateRule
}.

Inductive CreateFieldType : Type :=
| CfBit (index : Evaluatable) | CfByte (index : Evaluatable) | CfWord (index : Evaluatable)
| CfDword (index : Evaluatable) | CfQword (index : Evaluatable)
| CfArbitraryLength (index num_bits : Evaluatable).

Inductive ExternalObjectType : Type :=
| ExtUninitialized | ExtInteger | ExtString | ExtBuffer | ExtPackage | ExtFieldUnit
| ExtDevice | ExtEvent | ExtMethod | ExtMutex | ExtOperationRegion | ExtPowerResource
| ExtThermalZone | ExtBufferField | ExtDebugObject | ExtUnknown (n : Z).

Definition external_type (value : Z) : ExternalObjectType :=
  match value with
  | 0 => ExtUninitialized | 1 => ExtInteger | 2 => ExtString | 3 => ExtBuffer | 4 => ExtPackage
  | 5 => ExtFieldUnit | 6 => ExtDevice | 7 => ExtEvent | 8 => ExtMethod | 9 => ExtMutex
  | 10 => ExtOperationRegion | 11 => ExtPowerResource | 13 => ExtThermalZone
  | 14 => ExtBufferField | 16 => ExtDebugObject
  | _ => ExtUnknown value
  end.

Definition external_byte (t : ExternalObjectType) : Z :=
  match t with
  | ExtUninitialized => 0 | ExtInteger => 1 | ExtString => 2 | ExtBuffer => 3 | ExtPackage => 4
  | ExtFieldUnit => 5 | ExtDevice => 6 | ExtEvent => 7 | ExtMethod => 8 | ExtMutex => 9
  | ExtOperationRegion => 10 | ExtPowerResource => 11 | ExtThermalZone => 13
  | ExtBufferField => 14 | ExtDebugObject => 16
  | ExtUnknown value => value
  end.

Inductive Object : Type :=
| ObjData (d : DataObject)
| ObjAlias (target : NodeId)
| ObjBankField (bank : NodeId) (bank_value : Evaluatable) (field : FieldUnit)
| ObjCreateField (field_type : CreateFieldType) (source : Evaluatable)
| ObjDataTableRegion (signature oem_id oem_table_id : Evaluatable)
| ObjDevice
| ObjEvent
| ObjExternal (object_type : ExternalObjectType) (arg_count : Z)
| ObjFieldUnit (field : FieldUnit)
| ObjMethod (sync_level : Z) (serialize : bool) (arg_count : Z) (executable : list Z)
| ObjMutex (level : Z)
| ObjObjectReference (e : Evaluatable)
| ObjOperationRegion (space : RegionSpace) (offset len : Evaluatable)
| ObjPowerResource (system_level resource_order : Z)
| ObjProcessor
| ObjScope
| ObjThermalZone.

(** ** The name space (namespace.rs) *)

Record NameSpace : Type := mkNode {
  name : Name; object : Object; children : list NodeId; parent : option NodeId
}.
Abbreviation Tree := (list NameSpace).

Definition ROOT : NodeId := 0%nat.
Definition ROOT_NAME : Name := [0x5C; 0; 0; 0].
Definition NAMESPACE_ROOT : NameSpace := mkNode ROOT_NAME ObjScope [] None.

(** Namestring and NamePath (parser/namestring.rs). *)
Inductive Namestring : Type :=
| Root (path : list Name)
| Relative (level : Z) (path : list Name).

Definition path_of (n : Namestring) : list Name :=
  match n with Root path | Relative _ path => path end.

Definition path_bytecode_length (path : list Name) : Z :=
  match length path with
  | 0%nat => 1 | 1%nat => 4 | 2%nat => 9
  | n => 2 + Z.of_nat n * 4
  end.

Definition bytecode_length (n : Namestring) : Z :=
  match n with
  | Root path => 1 + path_bytecode_length path
  | Relative level path => level + path_bytecode_length path
  end.

(** A node that does not exist has no children; the theorems show that it is never
    asked for. *)
Definition node_children (t : Tree) (n : NodeId) : list NodeId :=
  match t !! n with Some x => children x | None => [] end.
Definition node_parent (t : Tree) (n : NodeId) : option NodeId :=
  match t !! n with Some x => parent x | None => None end.
Definition node_named (t : Tree) (x : Name) (n : NodeId) : bool :=
  match t !! n with Some y => bool_decide (name y = x) | None => false end.

Definition select_child_by_name (t : Tree) (n : NodeId) (x : Name) : option NodeId :=
  head (filter (fun c => node_named t x c = true) (node_children t n)).

(** The [Path] item of [_get]: [inr] when only the last name is missing. *)
Fixpoint walk (t : Tree) (cur : NodeId) (path : list Name) : option (NodeId * option Name) :=
  match path with
  | [] => Some (cur, None)
  | x :: path =>
    match select_child_by_name t cur x, path with
    | Some c, _ => walk t c path
    | None, [] => Some (cur, Some x)
    | None, _ => None
    end
  end.

Fixpoint ascend (t : Tree) (cur : NodeId) (level : nat) : option NodeId :=
  match level with
  | O => Some cur
  | S level => match node_parent t cur with Some p => ascend t p level | None => None end
  end.

Definition _get (t : Tree) (cur : NodeId) (n : Namestring) : option (NodeId * option Name) :=
  match n with
  | Root path => walk t ROOT path
  | Relative level path =>
    match ascend t cur (Z.to_nat level) with Some c => walk t c path | None => None end
  end.

(** [get] and [get_or_insert] go on at the parent; one unit of fuel per node is
    enough. *)
Fixpoint get_from (fuel : nat) (t : Tree) (cur : NodeId) (n : Namestring) : option (option NodeId) :=
  match fuel with
  | O => None
  | S fuel =>
    match _get t cur n with
    | Some (c, None) => Some (Some c)
    | _ =>
      if bool_decide (cur = ROOT) then Some None
      else match node_parent t cur with Some p => get_from fuel t p n | None => Some None end
    end
  end.

Definition add_child (t : Tree) (cur : NodeId) (x : Name) (o : Object) : Tree :=
  alter (fun y => mkNode (name y) (object y) (children y ++ [length t]) (parent y)) cur t
    ++ [mkNode x o [] (Some cur)].

(** The node found or added, and the name space then. *)
Fixpoint insert_from (fuel : nat) (t : Tree) (cur : NodeId) (n : Namestring) (o : Object) :
    option (option (NodeId * Tree)) :=
  match fuel with
  | O => None
  | S fuel =>
    match _get t cur n with
    | Some (c, None) => Some (Some (c, t))
    | Some (c, Some x) => Some (Some (length t, add_child t c x o))
    | None =>
      if bool_decide (cur = ROOT) then Some None
      else match node_parent t cur with Some p => insert_from fuel t p n o | None => Some None end
    end
  end.

(** ** The parser *)

Record Parser : Type := mkParser { code : list Z; tree : Tree }.

Section parser.
Abbreviation P A := (M Parser (option A)).
Local Notation "x ←? y ; z" :=
  (bind y (fun o => match o with Some x => z | None => ret None end))
  (at level 20, y at level 100, z at level 200, only parsing).

Definition set_code (l : list Z) : M Parser unit := modify (fun s => mkParser l (tree s)).
Definition set_tree (t : Tree) : M Parser unit := modify (fun s => mkParser (code s) t).

Definition fueled {A} (o : option A) : M Parser A :=
  match o with Some a => ret a | None => no_fuel end.

Definition get (cur : NodeId) (n : Namestring) : P NodeId :=
  t ← gets tree ; fueled (get_from (S (length t)) t cur n).

Definition get_or_insert (cur : NodeId) (n : Namestring) (o : Object) : P NodeId :=
  t ← gets tree ;
  r ← fueled (insert_from (S (length t)) t cur n o) ;
  match r with
  | Some (c, t) => set_tree t ;; ret (Some c)
  | None => ret None
  end.

(** *** Bytecode (aml.rs) *)

Definition read (size : Z) : M Parser (list Z) :=
  l ← gets code ;
  defined_if (size <=? Z.of_nat (length l)) ;;
  set_code (drop (Z.to_nat size) l) ;;
  ret (take (Z.to_nat size) l).

Definition first : P Z := l ← gets code ; ret (head l).

Definition next : P Z :=
  l ← gets code ;
  match l with
  | b :: l => set_code l ;; ret (Some b)
  | [] => ret None
  end.

Definition le_bytes (l : list Z) : Z := foldr (fun b n => b + 256 * n) 0 l.
Definition read_le (size : Z) : P Z := l ← read size ; ret (Some (le_bytes l)).

(** A parser for the next [length] bytes; what it leaves over is skipped. *)
Definition slice {A} (length_ : Z) (p : P A) : P A :=
  l ← gets code ;
  defined_if (length_ <=? Z.of_nat (length l)) ;;
  set_code (take (Z.to_nat length_) l) ;;
  r ← p ;
  set_code (drop (Z.to_nat length_) l) ;;
  ret r.

(** [usize] subtraction. *)
Definition sub (a b : Z) : M Parser Z := defined_if (b <=? a) ;; ret (a - b).

Definition opcode_parse : M Parser (Opcode + option Z) :=
  b ← next ;
  match b with
  | None => ret (inr None)
  | Some b =>
    if b =? 0x5B then
      e ← next ; ret (match e with Some e => from_ext e | None => inr None end)
    else if b =? 0x92 then
      e ← next ; ret (match e with Some e => not_op e | None => inr None end)
    else ret (match plain_opcode b with Some op => inl op | None => inr (Some b) end)
  end.

(** [Opcode::parse(..).ok()?]. *)
Definition opcode_ok : P Opcode :=
  r ← opcode_parse ; ret (match r with inl op => Some op | inr _ => None end).

(** *** PkgLength (parser/data.rs) *)

(** The length and the number of bytes that followed the first one. *)
Fixpoint pkg_bytes (i n : nat) (length_ : Z) : P Z :=
  match n with
  | O => ret (Some length_)
  | S n =>
    b ←? next ;
    pkg_bytes (S i) n (Z.lor length_ (wrap 32 (Z.shiftl b (4 + Z.of_nat i * 8))))
  end.

Definition pkg_length : P (Z * Z) :=
  b ←? next ;
  let byte_count := Z.shiftr b 6 in
  n ←? pkg_bytes 0 (Z.to_nat byte_count) (Z.land b 0x3F) ;
  ret (Some (n, byte_count)).

Definition payload_length (l : Z * Z) : M Parser Z :=
  n ← sub (fst l) (snd l) ; sub n 1.

(** *** Names (parser/namestring.rs) *)

Fixpoint chunks4 (n : nat) (l : list Z) : list Name :=
  match n with O => [] | S n => take 4 l :: chunks4 n (drop 4 l) end.

Definition lead_char (b : Z) : bool := (0x41 <=? b) && (b <=? 0x5A) || (b =? 0x5F).

Definition namepath : P (list Name) :=
  b ←? first ;
  if b =? 0 then _ ←? next ; ret (Some [])
  else if b =? 0x2E then
    _ ← next ; l ← read 8 ; ret (Some (chunks4 2 l))
  else if b =? 0x2F then
    _ ← next ; n ←? next ; l ← read (n * 4) ; ret (Some (chunks4 (Z.to_nat n) l))
  else if lead_char b then l ← read 4 ; ret (Some (chunks4 1 l))
  else ret None.

(** The leading carets; [level] is a [u8]. *)
Fixpoint carets (l : list Z) (level : Z) : M Parser Z :=
  match l with
  | b :: l =>
    if b =? 0x5E then defined_if (level + 1 <? 256) ;; set_code l ;; carets l (level + 1)
    else ret level
  | [] => ret level
  end.

Definition namestring : P Namestring :=
  l ← gets code ;
  level ← carets l 0 ;
  b ←? first ;
  if b =? 0x5C then _ ← next ; p ←? namepath ; ret (Some (Root p))
  else p ←? namepath ; ret (Some (Relative level p)).

(** *** Data (parser/data.rs) *)

(** The bytes before the first zero byte, and what follows it. *)
Fixpoint until_zero (l : list Z) : list Z * list Z :=
  match l with
  | [] => ([], [])
  | b :: l => if b =? 0 then ([], l) else let '(s, r) := until_zero l in (b :: s, r)
  end.

Definition string_bytes : P DataObject :=
  l ← gets code ;
  let '(s, r) := until_zero l in
  set_code r ;; ret (Some (DString s)).

Definition parse_buffer : P (list Z) :=
  l ←? pkg_length ; n ← payload_length l ; b ← read n ; ret (Some b).

(** TermArg (parser/term.rs). *)
Inductive TermArg : Type :=
| TMethodInvocation (n : NodeId)
| TObject (n : NodeId)
| TDataObject (d : DataObject)
| TArg (n : Z)
| TLocal (n : Z).

Definition term_evaluatable (t : TermArg) : M Parser Evaluatable :=
  match t with
  | TObject _ | TMethodInvocation _ => undef
  | TDataObject d => ret (EData d)
  | TArg n => ret (EBuiltin (Arg n))
  | TLocal n => ret (EBuiltin (Local n))
  end.

Definition is_method (t : Tree) (n : NodeId) : bool :=
  match t !! n with
  | Some y => match object y with ObjMethod _ _ _ _ => true | _ => false end
  | None => false
  end.

Section open_recursion.
(** [DataObject::parse] and [Reference::parse_one] of the terms inside. *)
Context (cur : NodeId) (data : Opcode -> P DataObject) (reference : Opcode -> P ReferenceType).

Definition term_arg_with : M Parser (TermArg + option Opcode) :=
  l ← gets code ;
  r ← opcode_parse ;
  match r with
  | inl op =>
    d ← data op ;
    match d, op with
    | Some d, _ => ret (inl (TDataObject d))
    | None, OpArg n => ret (inl (TArg n))
    | None, OpLocal n => ret (inl (TLocal n))
    | None, _ => ret (inr (Some op))
    end
  | inr (Some b) =>
    set_code l ;;
    if lead_char b then
      n ← namestring ;
      match n with
      | None => ret (inr None)
      | Some n =>
        o ← get cur n ;
        match o with
        | None => ret (inr None)
        | Some o => t ← gets tree ; ret (inl (if is_method t o then TMethodInvocation o else TObject o))
        end
      end
    else ret (inr None)
  | inr None => set_code l ;; ret (inr None)
  end.

(** [TermArg::parse(..).ok()?.into()]. *)
Definition term_value_with : P Evaluatable :=
  r ← term_arg_with ;
  match r with
  | inl t => e ← term_evaluatable t ; ret (Some e)
  | inr _ => ret None
  end.

Definition data_ref_with : P (DataObject + Evaluatable) :=
  op ←? opcode_ok ;
  d ← data op ;
  match d with
  | Some d => ret (Some (inl d))
  | None => r ←? reference op ; ret (Some (inr (EReference r)))
  end.

Definition element_with : P PackageElement :=
  d ← data_ref_with ;
  match d with
  | Some (inl d) => ret (Some (ElementData d))
  | Some (inr e) => ret (Some (ElementReference e))
  | None =>
    n ←? namestring ;
    o ←? get cur n ;
    ret (Some (ElementDirect o))
  end.

Fixpoint elements_with (n : nat) : P (list PackageElement) :=
  match n with
  | O => ret (Some [])
  | S n => e ←? element_with ; l ←? elements_with n ; ret (Some (e :: l))
  end.

Definition package_with : P (list PackageElement) :=
  l ←? pkg_length ;
  n ←? next ;
  size ← payload_length l ;
  size ← sub size 1 ;
  slice size (elements_with (Z.to_nat n)).

Definition var_package_with : P DataObject :=
  l ←? pkg_length ;
  size ← payload_length l ;
  slice size (n ←? term_value_with ; e ←? package_with ; ret (Some (DVarPackage n e))).

(** [SimpleName::parse(parser, true)]: an opcode is looked at in a slice of two bytes
    and not consumed. *)
Definition simple_name : P (SuperName + Opcode) :=
  b ←? first ;
  if lead_char b || (b =? 0x5E) || (b =? 0x5C) then
    n ←? namestring ;
    ret (Some (inl (SuperPath (match n with
      | Root p => PathRoot p | Relative level p => PathRelative level p end))))
  else
    l ← gets code ;
    defined_if (2 <=? Z.of_nat (length l)) ;;
    set_code (take 2 l) ;;
    r ← opcode_parse ;
    set_code l ;;
    match r with
    | inr _ => ret None
    | inl (OpArg n) => ret (Some (inl (SuperBuiltin (Arg n))))
    | inl (OpLocal n) => ret (Some (inl (SuperBuiltin (Local n))))
    | inl OpDebug => ret (Some (inl (SuperBuiltin Debug)))
    | inl op => ret (Some (inr op))
    end.

Definition source_with : P SuperName :=
  s ←? simple_name ;
  match s with
  | inl s => ret (Some s)
  | inr op => r ←? reference op ; ret (Some (SuperNested r))
  end.

Definition target_with : P (option SuperName) :=
  s ←? simple_name ;
  match s with
  | inl s => ret (Some (Some s))
  | inr OpZero => ret (Some None)
  | inr op => r ←? reference op ; ret (Some (Some (SuperNested r)))
  end.
End open_recursion.

(** [DataObject::parse] and [Reference::parse_one]. *)
Fixpoint data_object (fuel : nat) (cur : NodeId) (op : Opcode) : P DataObject :=
  match fuel with
  | O => no_fuel
  | S fuel =>
    match op with
    | OpZero => ret (Some (DInteger 0))
    | OpOne => ret (Some (DInteger 1))
    | OpOnes => ret (Some (DInteger (2 ^ 64 - 1)))
    | OpByte => b ←? next ; ret (Some (DInteger b))
    | OpWord => n ←? read_le 2 ; ret (Some (DInteger n))
    | OpDword => n ←? read_le 4 ; ret (Some (DInteger n))
    | OpQword => n ←? read_le 8 ; ret (Some (DInteger n))
    | OpString => string_bytes
    | OpRevision => ret (Some DRevision)
    | OpBuffer => b ←? parse_buffer ; ret (Some (DBuffer b))
    | OpPackage =>
      e ←? package_with cur (data_object fuel cur) (reference_one fuel cur) ; ret (Some (DPackage e))
    | OpVarPackage => var_package_with cur (data_object fuel cur) (reference_one fuel cur)
    | _ => ret None
    end
  end
with reference_one (fuel : nat) (cur : NodeId) (op : Opcode) : P ReferenceType :=
  match fuel with
  | O => no_fuel
  | S fuel =>
    match op with
    | OpRefOf => s ←? source_with (reference_one fuel cur) ; ret (Some (RefOf s))
    | OpCondRefOf =>
      s ←? source_with (reference_one fuel cur) ;
      t ←? target_with (reference_one fuel cur) ;
      ret (Some (CondRefOf s t))
    | OpDerefOf =>
      op ←? opcode_ok ; r ←? reference_one fuel cur op ; ret (Some (DerefOf r))
    | OpIndex =>
      s ←? term_value_with cur (data_object fuel cur) ;
      i ←? term_value_with cur (data_object fuel cur) ;
      t ←? target_with (reference_one fuel cur) ;
      ret (Some (IndexOf s i t))
    | _ => ret None
    end
  end.

Section declarations.
Context (fuel : nat).

Definition term_value (cur : NodeId) : P Evaluatable := term_value_with cur (data_object fuel cur).
Definition data_ref (cur : NodeId) : P (DataObject + Evaluatable) :=
  data_ref_with (data_object fuel cur) (reference_one fuel cur).

(** *** parser/namespace.rs *)

Definition declare (cur : NodeId) (n : Namestring) (o : Object) : P unit :=
  _ ←? get_or_insert cur n o ; ret (Some tt).

Definition alias_parse (cur : NodeId) : P unit :=
  n ←? namestring ;
  target ←? namestring ;
  target ←? get cur target ;
  declare cur n (ObjAlias target).

Definition name_parse (cur : NodeId) : P unit :=
  n ←? namestring ;
  d ←? data_ref cur ;
  declare cur n (match d with inl d => ObjData d | inr e => ObjObjectReference e end).

(** *** parser/object/field_element.rs *)

Record FieldUnitAttribute : Type := mkAttribute {
  operation_region : NodeId; bit_offset : Z; attr_access : FieldAccessType; lock_rule : bool;
  attr_update : FieldUpdateRule; bank : option (Namestring * Evaluatable)
}.

Definition decode_flags (flag : Z) : option (FieldAccessType * bool * FieldUpdateRule) :=
  match access_type (Z.land flag 7), update_rule (Z.shiftr (Z.land flag 0x30) 4) with
  | Some a, Some u => Some (a, negb (Z.land flag 8 =? 0), u)
  | _, _ => None
  end.

Definition attribute_new (region : NodeId) (flags : Z) (b : option (Namestring * Evaluatable)) :
    option FieldUnitAttribute :=
  match decode_flags flags with
  | Some (a, l, u) => Some (mkAttribute region 0 a l u b)
  | None => None
  end.

Definition attribute_update (a : FieldUnitAttribute) (flags : Z) : option FieldUnitAttribute :=
  match decode_flags flags with
  | Some (t, l, u) => Some (mkAttribute (operation_region a) (bit_offset a) t l u (bank a))
  | None => None
  end.

Definition at_offset (a : FieldUnitAttribute) (o : Z) : FieldUnitAttribute :=
  mkAttribute (operation_region a) o (attr_access a) (lock_rule a) (attr_update a) (bank a).

(** [get_object]: the offset is advanced, then used. *)
Definition get_object (a : FieldUnitAttribute) (length_ : Z) : M Parser (FieldUnit * FieldUnitAttribute) :=
  let o := bit_offset a + length_ in
  defined_if (o <? 2 ^ 64) ;;
  ret (mkFieldUnit (operation_region a) (wrap 32 o) (wrap 32 length_) (attr_access a) (lock_rule a)
         (attr_update a), at_offset a o).

Definition named_field (cur : NodeId) (a : FieldUnitAttribute) : P FieldUnitAttribute :=
  n ← read 4 ;
  l ←? pkg_length ;
  '(f, a) ← get_object a (fst l) ;
  let add := fun o => _ ←? get_or_insert cur (Relative 0 [n]) o ; ret (Some a) in
  match bank a with
  | Some (bank_name, bank_value) =>
    b ←? get cur bank_name ;
    add (ObjBankField b bank_value f)
  | None => add (ObjFieldUnit f)
  end.

Definition field_element (cur : NodeId) (a : FieldUnitAttribute) : P FieldUnitAttribute :=
  b ←? first ;
  if b =? 0 then
    _ ← next ;
    l ←? pkg_length ;
    ret (Some (at_offset a (fst l * 8)))
  else if b =? 1 then _ ← next ; flags ←? next ; ret (attribute_update a flags)
  else if (b =? 2) || (b =? 3) then undef
  else named_field cur a.

(** Each element has at least one byte. *)
Fixpoint field_list (k : nat) (cur : NodeId) (a : FieldUnitAttribute) : P unit :=
  match k with
  | O => no_fuel
  | S k =>
    r ← field_element cur a ;
    match r with
    | Some a => field_list k cur a
    | None => ret (Some tt)
    end
  end.

(** *** parser/object/named.rs *)

Definition bank_field_parse (cur : NodeId) : P unit :=
  l ←? pkg_length ;
  size ← payload_length l ;
  slice size
    (region_name ←? namestring ;
     bank_name ←? namestring ;
     bank_value ←? term_value cur ;
     flags ←? next ;
     region ←? get cur region_name ;
     match attribute_new region flags (Some (bank_name, bank_value)) with
     | Some a => field_list fuel cur a
     | None => ret None
     end).

Definition create_fixed_parse (cur : NodeId) (f : Evaluatable -> CreateFieldType) : P unit :=
  source ←? term_value cur ;
  index ←? term_value cur ;
  n ←? namestring ;
  declare cur n (ObjCreateField (f index) source).

Definition create_arbitrary_parse (cur : NodeId) : P unit :=
  source ←? term_value cur ;
  index ←? term_value cur ;
  num_bits ←? term_value cur ;
  n ←? namestring ;
  declare cur n (ObjCreateField (CfArbitraryLength index num_bits) source).

Definition data_region_parse (cur : NodeId) : P unit :=
  n ←? namestring ;
  signature ←? term_value cur ;
  oem_id ←? term_value cur ;
  oem_table_id ←? term_value cur ;
  declare cur n (ObjDataTableRegion signature oem_id oem_table_id).

Definition op_region_parse (cur : NodeId) : P unit :=
  n ←? namestring ;
  b ←? next ;
  offset ←? term_value cur ;
  len ←? term_value cur ;
  declare cur n (ObjOperationRegion (region_space b) offset len).

Definition field_parse (cur : NodeId) : P unit :=
  l ←? pkg_length ;
  n ←? namestring ;
  region ←? get cur n ;
  size ← payload_length l ;
  size ← sub size (bytecode_length n) ;
  slice size
    (flags ←? next ;
     match attribute_new region flags None with
     | Some a => field_list fuel cur a
     | None => ret None
     end).

Definition method_parse (cur : NodeId) : P unit :=
  l ←? pkg_length ;
  n ←? namestring ;
  flags ←? next ;
  size ← payload_length l ;
  size ← sub size (bytecode_length n) ;
  size ← sub size 1 ;
  body ← read size ;
  declare cur n
    (ObjMethod (Z.shiftr flags 4) (negb (Z.land flags 8 =? 0)) (Z.land flags 7) body).

Definition mutex_parse (cur : NodeId) : P unit :=
  n ←? namestring ;
  flags ←? next ;
  declare cur n (ObjMutex (Z.land flags 0x0F)).

Definition external_parse (cur : NodeId) : P unit :=
  n ←? namestring ;
  t ←? next ;
  args ←? next ;
  declare cur n (ObjExternal (external_type t) args).

Definition event_parse (cur : NodeId) : P unit :=
  n ←? namestring ; declare cur n ObjEvent.

(** Objects with a list of terms: the list is parsed with the object as the current
    node.  [terms] and [objects] are [TermList::parse] and [ObjectList::parse]. *)
Section open_recursion.
Context (terms objects : NodeId -> P unit).

Definition scope_parse (o : Object) (cur : NodeId) : P unit :=
  l ←? pkg_length ;
  n ←? namestring ;
  c ←? get_or_insert cur n o ;
  size ← payload_length l ;
  size ← sub size (bytecode_length n) ;
  slice size (_ ←? terms c ; ret (Some tt)).

Definition power_res_parse (cur : NodeId) : P unit :=
  l ←? pkg_length ;
  n ←? namestring ;
  level ←? next ;
  order ←? read_le 2 ;
  c ←? get_or_insert cur n (ObjPowerResource level order) ;
  size ← payload_length l ;
  size ← sub size (bytecode_length n) ;
  size ← sub size 3 ;
  slice size (_ ←? terms c ; ret (Some tt)).

Definition processor_parse (cur : NodeId) : P unit :=
  l ←? pkg_length ;
  n ←? namestring ;
  c ←? get_or_insert cur n ObjProcessor ;
  size ← payload_length l ;
  size ← sub size (bytecode_length n) ;
  slice size
    (_ ←? next ; _ ← read 4 ; _ ←? next ; _ ←? objects c ; ret (Some tt)).

(** [Object::parse] and [NamedObject::parse]. *)
Definition object_parse (cur : NodeId) (op : Opcode) : P unit :=
  match op with
  | OpAlias => alias_parse cur
  | OpName => name_parse cur
  | OpScope => scope_parse ObjScope cur
  | OpBankField => bank_field_parse cur
  | OpCreateBitField => create_fixed_parse cur CfBit
  | OpCreateByteField => create_fixed_parse cur CfByte
  | OpCreateWordField => create_fixed_parse cur CfWord
  | OpCreateDwordField => create_fixed_parse cur CfDword
  | OpCreateQwordField => create_fixed_parse cur CfQword
  | OpCreateField => create_arbitrary_parse cur
  | OpDataRegion => data_region_parse cur
  | OpEvent => event_parse cur
  | OpExternal => external_parse cur
  | OpOpRegion => op_region_parse cur
  | OpField => field_parse cur
  | OpMethod => method_parse cur
  | OpDevice => scope_parse ObjDevice cur
  | OpMutex => mutex_parse cur
  | OpPowerRes => power_res_parse cur
  | OpProcessor => processor_parse cur
  | OpThermalZone => scope_parse ObjThermalZone cur
  | _ => ret None
  end.
End open_recursion.
End declarations.

(** [TermList::parse] with [TermObj::parse], and [ObjectList::parse]. *)
Fixpoint term_list (fuel : nat) (cur : NodeId) : P unit :=
  match fuel with
  | O => no_fuel
  | S fuel =>
    op ← opcode_ok ;
    match op with
    | None => ret (Some tt)
    | Some op =>
      r ← object_parse fuel (term_list fuel) (object_list fuel) cur op ;
      match r with Some _ => term_list fuel cur | None => ret (Some tt) end
    end
  end
with object_list (fuel : nat) (cur : NodeId) : P unit :=
  match fuel with
  | O => no_fuel
  | S fuel =>
    op ← opcode_ok ;
    match op with
    | None => ret (Some tt)
    | Some op =>
      r ← object_parse fuel (term_list fuel) (object_list fuel) cur op ;
      match r with Some _ => object_list fuel cur | None => ret (Some tt) end
    end
  end.

(** Enough for [n] bytes. *)
Definition fuel_for (n : nat) : nat := 2 * n + 3.

(** [Parser::parse]. *)
Definition parse : P unit :=
  l ← gets code ;
  match l with
  | [] => ret None
  | b :: _ =>
    if (0x41 <=? b) && (b <? 0x5A) || (b =? 0x5E) || (b =? 0x5C) || (b =? 0x5F) then undef
    else _ ← term_list (fuel_for (length l)) ROOT ; ret (Some tt)
  end.
End parser.
