(* ===== verification/AmlTree.v ===== *)
(** * The AML name space: invariant, insertion and lookup

    The nodes form a tree: a parent comes before its children, the child lists and
    the parent pointers agree, and siblings have different names.  Insertion keeps
    this, changes no node but for one more child, and what was inserted is found. *)

From stdpp Require Import base tactics list.
From S2P Require Import Prelude CMonad Aml.
Local Open Scope Z_scope.

Record tree_ok (t : Tree) : Prop := {
  tree_root : exists x, t !! ROOT = Some x /\ parent x = None;
  tree_parent i x p : t !! i = Some x -> parent x = Some p -> (p < i)%nat;
  tree_orphan i x : t !! i = Some x -> parent x = None -> i = ROOT;
  tree_child i x c : t !! i = Some x -> c ∈ children x ->
    exists y, t !! c = Some y /\ parent y = Some i;
  tree_listed c y i : t !! c = Some y -> parent y = Some i ->
    exists x, t !! i = Some x /\ c ∈ children x;
  tree_nodup i x : t !! i = Some x -> NoDup (children x);
  tree_names i x c d y z : t !! i = Some x -> c ∈ children x -> d ∈ children x ->
    t !! c = Some y -> t !! d = Some z -> name y = name z -> c = d
}.

(** The second tree has all nodes of the first one, with at least their children. *)
Definition grows (t t' : Tree) : Prop :=
  forall i x, t !! i = Some x -> exists l, t' !! i = Some (mkNode (name x) (object x) (children x ++ l) (parent x)).

Lemma grows_refl t : grows t t.
Proof. intros i x H. exists []. rewrite app_nil_r. by destruct x. Qed.

Lemma grows_trans t1 t2 t3 : grows t1 t2 -> grows t2 t3 -> grows t1 t3.
Proof.
  intros H1 H2 i x H. destruct (H1 i x H) as [l Hl]. destruct (H2 _ _ Hl) as [l' Hl']. simpl in Hl'.
  exists (l ++ l'). by rewrite app_assoc.
Qed.

Lemma grows_valid t t' i : grows t t' -> (i < length t)%nat -> (i < length t')%nat.
Proof.
  intros Hg [x Hx]%lookup_lt_is_Some. destruct (Hg i x Hx) as [l Hl]. by eapply lookup_lt_Some.
Qed.

(** ** Children by name *)

Section lookup.
Context {t : Tree} (Ht : tree_ok t).

Lemma select_some i x c :
  select_child_by_name t i x = Some c <-> (c ∈ node_children t i /\ node_named t x c = true).
Proof.
  unfold select_child_by_name, node_children. destruct (t !! i) as [n|] eqn:Hi; simpl.
  2: { split; [done|]. by intros [?%elem_of_nil _]. }
  split.
  - intros H. destruct (filter _ _) as [|d l] eqn:Hf; [done|]. injection H as ->.
    assert (c ∈ filter (fun c => node_named t x c = true) (children n)) as Hc by (rewrite Hf; by left).
    apply list_elem_of_filter in Hc. tauto.
  - intros [Hc Hn]. assert (c ∈ filter (fun c => node_named t x c = true) (children n)) as Hin
      by by apply list_elem_of_filter.
    destruct (filter _ _) as [|d l] eqn:Hf; [by apply elem_of_nil in Hin|]. simpl. f_equal.
    assert (d ∈ filter (fun c => node_named t x c = true) (children n)) as [Hd Hdc]%list_elem_of_filter
      by (rewrite Hf; by left).
    unfold node_named in Hn, Hd. destruct (t !! c) as [y|] eqn:Hy; [|done].
    destruct (t !! d) as [z|] eqn:Hz; [|done]. apply bool_decide_eq_true in Hn, Hd.
    eapply (tree_names _ Ht i n d c z y); try done. congruence.
Qed.

Lemma select_none i x c :
  select_child_by_name t i x = None -> c ∈ node_children t i -> node_named t x c = false.
Proof.
  intros H Hc. destruct (node_named t x c) eqn:Hn; [|done].
  assert (select_child_by_name t i x = Some c) by by apply select_some. congruence.
Qed.

Lemma select_valid i x c : select_child_by_name t i x = Some c -> (c < length t)%nat.
Proof.
  intros [Hc _]%select_some. unfold node_children in Hc. destruct (t !! i) as [n|] eqn:Hi; [|by apply elem_of_nil in Hc].
  destruct (tree_child _ Ht _ _ _ Hi Hc) as (y & Hy & _). by eapply lookup_lt_Some.
Qed.

Lemma walk_valid i p c o : (i < length t)%nat -> walk t i p = Some (c, o) -> (c < length t)%nat.
Proof.
  revert i. induction p as [|x p IH]; intros i Hi; simpl; [by intros [= <- <-]|].
  destruct (select_child_by_name t i x) as [d|] eqn:Hd; [intros; by eapply IH, H; eapply select_valid|].
  destruct p; [|done]. by intros [= <- <-].
Qed.

Lemma node_parent_valid i p : node_parent t i = Some p -> (p < i)%nat /\ (i < length t)%nat.
Proof.
  unfold node_parent. destruct (t !! i) as [x|] eqn:Hx; [|done]. intros Hp.
  split; [by eapply (tree_parent _ Ht)|by eapply lookup_lt_Some].
Qed.

Lemma ascend_valid i k c : (i < length t)%nat -> ascend t i k = Some c -> (c < length t)%nat.
Proof.
  revert i. induction k as [|k IH]; intros i Hi; simpl; [by intros [= <-]|].
  destruct (node_parent t i) as [p|] eqn:Hp; [|done]. apply IH. apply node_parent_valid in Hp. lia.
Qed.

Lemma root_valid : (ROOT < length t)%nat.
Proof. destruct (tree_root _ Ht) as (x & Hx & _). by eapply lookup_lt_Some. Qed.

Lemma get_step_valid i n c o : (i < length t)%nat -> _get t i n = Some (c, o) -> (c < length t)%nat.
Proof.
  intros Hi. destruct n as [p|k p]; simpl.
  - apply walk_valid, root_valid.
  - destruct (ascend t i (Z.to_nat k)) as [d|] eqn:Hd; [|done]. apply walk_valid. by eapply ascend_valid.
Qed.

(** The fuel of [get] and [get_or_insert] is enough. *)
Lemma get_from_total fuel i n :
  (i < length t)%nat -> (i < fuel)%nat ->
  exists r, get_from fuel t i n = Some r /\ (forall c, r = Some c -> (c < length t)%nat).
Proof.
  revert i. induction fuel as [|fuel IH]; intros i Hi Hf; [lia|]. simpl.
  assert (exists r, (if bool_decide (i = ROOT) then Some None
      else match node_parent t i with Some p => get_from fuel t p n | None => Some None end) = Some r /\
      (forall c, r = Some c -> (c < length t)%nat)) as Hup.
  { case_bool_decide; [by exists None|]. destruct (node_parent t i) as [p|] eqn:Hp; [|by exists None].
    apply node_parent_valid in Hp. apply IH; lia. }
  destruct (_get t i n) as [[c [x|]]|] eqn:Hg; [done| |done].
  exists (Some c). split; [done|]. intros d [= <-]. by eapply get_step_valid.
Qed.
End lookup.

(** ** A new child *)

Section add.
Context {t : Tree} (Ht : tree_ok t) (cur : NodeId) (x : Name) (o : Object).
Context (Hcur : (cur < length t)%nat) (Hx : select_child_by_name t cur x = None).
Let t' := add_child t cur x o.
Local Abbreviation new := (length t).

Lemma add_new : t' !! new = Some (mkNode x o [] (Some cur)).
Proof.
  unfold t', add_child. rewrite lookup_app_r by (rewrite length_alter; lia).
  by rewrite length_alter, Nat.sub_diag.
Qed.

Lemma add_length : length t' = S new.
Proof. unfold t', add_child. rewrite length_app, length_alter. simpl. lia. Qed.

Lemma add_old i y :
  t !! i = Some y ->
  t' !! i = Some (mkNode (name y) (object y) (if decide (i = cur) then children y ++ [new] else children y) (parent y)).
Proof.
  intros Hi. pose proof (lookup_lt_Some _ _ _ Hi). unfold t', add_child.
  rewrite lookup_app_l by (by rewrite length_alter). destruct (decide (i = cur)) as [->|].
  - by rewrite list_lookup_alter_eq, Hi.
  - rewrite list_lookup_alter_ne by done. rewrite Hi. by destruct y.
Qed.

Lemma add_inv i y :
  t' !! i = Some y ->
  (i = new /\ y = mkNode x o [] (Some cur)) \/
  (exists z, t !! i = Some z /\ y = mkNode (name z) (object z)
     (if decide (i = cur) then children z ++ [new] else children z) (parent z)).
Proof.
  intros Hi. destruct (decide (i = new)) as [->|Hne].
  - left. split; [done|]. rewrite add_new in Hi. by injection Hi.
  - right. pose proof (lookup_lt_Some _ _ _ Hi) as Hl. rewrite add_length in Hl.
    destruct (lookup_lt_is_Some_2 t i) as [z Hz]; [lia|]. exists z.
    rewrite (add_old i z Hz) in Hi. by injection Hi.
Qed.

Lemma add_grows : grows t t'.
Proof.
  intros i y Hi. rewrite (add_old i y Hi). destruct (decide (i = cur)); [by exists [new]|].
  exists []. by rewrite app_nil_r.
Qed.

Lemma add_children i c :
  c ∈ node_children t' i <-> c ∈ node_children t i \/ (i = cur /\ c = new).
Proof.
  unfold node_children. destruct (t !! i) as [y|] eqn:Hi.
  - rewrite (add_old i y Hi). simpl. destruct (decide (i = cur)) as [->|].
    + rewrite elem_of_app, list_elem_of_singleton. tauto.
    + split; [by left|]. intros [|[? _]]; done.
  - destruct (t' !! i) as [y|] eqn:Hi'.
    + apply add_inv in Hi' as [[-> ->]|(z & Hz & _)]; [|congruence]. simpl.
      split; [by left|]. intros [|[? _]]; [done|lia].
    + split; [by left|]. intros [|[-> ->]]; [done|].
      destruct (lookup_lt_is_Some_2 t cur Hcur) as [? ?]. congruence.
Qed.

Lemma add_named y c : (c < length t)%nat -> node_named t' y c = node_named t y c.
Proof.
  intros [z Hz]%lookup_lt_is_Some. unfold node_named. by rewrite (add_old c z Hz), Hz.
Qed.

Lemma add_named_new y : node_named t' y new = bool_decide (x = y).
Proof. unfold node_named. by rewrite add_new. Qed.

Lemma child_valid i c : c ∈ node_children t i -> (c < length t)%nat.
Proof.
  unfold node_children. destruct (t !! i) as [z|] eqn:Hi; [|by intros ?%elem_of_nil]. intros Hc.
  destruct (tree_child _ Ht _ _ _ Hi Hc) as (y & Hy & _). by eapply lookup_lt_Some.
Qed.

Lemma add_tree_ok : tree_ok t'.
Proof.
  split.
  - destruct (tree_root _ Ht) as (y & Hy & Hp). eexists. by rewrite (add_old _ _ Hy).
  - intros i y p [[-> ->]|(z & Hz & ->)]%add_inv; simpl; [by intros [= <-]|by apply (tree_parent _ Ht)].
  - intros i y [[-> ->]|(z & Hz & ->)]%add_inv; simpl; [done|by apply (tree_orphan _ Ht)].
  - intros i y c [[-> ->]|(z & Hz & ->)]%add_inv; simpl; [by intros ?%elem_of_nil|]. intros Hc.
    assert (c ∈ children z \/ (i = cur /\ c = new)) as [Hc'|[-> ->]].
    { destruct (decide (i = cur)); [|by left]. apply elem_of_app in Hc as [|Hc%list_elem_of_singleton]; auto. }
    + destruct (tree_child _ Ht _ _ _ Hz Hc') as (w & Hw & Hp). eexists. by rewrite (add_old _ _ Hw).
    + eexists. by rewrite add_new.
  - intros c y i [[-> ->]|(z & Hz & ->)]%add_inv; simpl.
    + intros [= <-]. destruct (lookup_lt_is_Some_2 t cur Hcur) as [w Hw]. eexists. rewrite (add_old _ _ Hw).
      split; [done|]. simpl. rewrite decide_True by done. apply elem_of_app. right. by left.
    + intros Hp. destruct (tree_listed _ Ht _ _ _ Hz Hp) as (w & Hw & Hc). eexists. rewrite (add_old _ _ Hw).
      split; [done|]. simpl. destruct (decide (i = cur)); [apply elem_of_app; by left|done].
  - intros i y [[-> ->]|(z & Hz & ->)]%add_inv; simpl; [constructor|].
    pose proof (tree_nodup _ Ht i z Hz) as Hnd. destruct (decide (i = cur)) as [->|]; [|done].
    apply list.NoDup_app. split; [done|]. split; [|apply NoDup_singleton].
    intros c Hc ->%list_elem_of_singleton. destruct (tree_child _ Ht _ _ _ Hz Hc) as (w & Hw%lookup_lt_Some & _).
    lia.
  - intros i y c d cy dy Hi Hc Hd Hcy Hdy Hn.
    assert (c ∈ node_children t' i /\ d ∈ node_children t' i) as [Hc' Hd'] by (unfold node_children; by rewrite Hi).
    apply add_children in Hc' as [Hc'|[Hi1 ->]]; apply add_children in Hd' as [Hd'|[Hi2 ->]]; try done.
    + apply add_inv in Hcy as [[-> _]|(cz & Hcz & ->)]; [apply child_valid in Hc'; lia|].
      apply add_inv in Hdy as [[-> _]|(dz & Hdz & ->)]; [apply child_valid in Hd'; lia|].
      unfold node_children in Hc', Hd'. destruct (t !! i) as [iz|] eqn:Hiz; [|by apply elem_of_nil in Hc'].
      by eapply (tree_names _ Ht i iz c d cz dz).
    + subst i. pose proof (select_none Ht cur x c Hx Hc') as Hf. unfold node_named in Hf. pose proof (child_valid _ _ Hc').
      apply add_inv in Hcy as [[-> _]|(cz & Hcz & ->)]; [lia|]. rewrite Hcz in Hf.
      rewrite add_new in Hdy. injection Hdy as <-. simpl in Hn. by apply bool_decide_eq_false in Hf.
    + subst i. pose proof (select_none Ht cur x d Hx Hd') as Hf. unfold node_named in Hf. pose proof (child_valid _ _ Hd').
      apply add_inv in Hdy as [[-> _]|(dz & Hdz & ->)]; [lia|]. rewrite Hdz in Hf.
      rewrite add_new in Hcy. injection Hcy as <-. simpl in Hn. by apply bool_decide_eq_false in Hf.
Qed.

Lemma add_select i y :
  (i < length t)%nat ->
  select_child_by_name t' i y =
  if bool_decide (i = cur /\ y = x) then Some new else select_child_by_name t i y.
Proof.
  intros Hi. case_bool_decide as Hb.
  - destruct Hb as [-> ->]. apply (select_some add_tree_ok). split; [apply add_children; by right|].
    rewrite add_named_new. by apply bool_decide_eq_true.
  - destruct (select_child_by_name t i y) as [c|] eqn:Hs.
    + apply (select_some Ht) in Hs as [Hc Hn]. apply (select_some add_tree_ok).
      split; [apply add_children; by left|]. rewrite add_named; [done|by eapply child_valid].
    + destruct (select_child_by_name t' i y) as [c|] eqn:Hs'; [|done].
      apply (select_some add_tree_ok) in Hs' as [[Hc|[-> ->]]%add_children Hn].
      * rewrite add_named in Hn by by eapply child_valid. by rewrite (select_none Ht i y c Hs Hc) in Hn.
      * rewrite add_named_new in Hn. apply bool_decide_eq_true in Hn as ->. by destruct Hb.
Qed.
End add.

(** ** Insertion *)

(** [walk] that stops before the last name has found no child of that name. *)
Lemma walk_missing t i p c x : walk t i p = Some (c, Some x) -> select_child_by_name t c x = None.
Proof.
  revert i. induction p as [|y p IH]; intros i; simpl; [done|].
  destruct (select_child_by_name t i y) as [d|] eqn:Hd; [apply IH|]. destruct p; [|done]. by intros [= <- <-].
Qed.

Lemma get_step_missing t i n c x : _get t i n = Some (c, Some x) -> select_child_by_name t c x = None.
Proof.
  destruct n as [p|k p]; simpl; [apply walk_missing|].
  destruct (ascend t i (Z.to_nat k)); [apply walk_missing|done].
Qed.

Section found.
Context {t : Tree} (Ht : tree_ok t) (cur : NodeId) (x : Name) (o : Object).
Context (Hcur : (cur < length t)%nat) (Hx : select_child_by_name t cur x = None).
Let t' := add_child t cur x o.

Lemma add_select_new y : select_child_by_name t' (length t) y = None.
Proof.
  unfold select_child_by_name, node_children, t'. by rewrite (add_new cur x o).
Qed.

Lemma add_walk i p :
  (i < length t)%nat ->
  walk t' i p =
  match walk t i p with
  | Some (c, Some y) => if bool_decide (c = cur /\ y = x) then Some (length t, None) else Some (c, Some y)
  | Some (c, None) => Some (c, None)
  | None => walk t' i p
  end /\ (walk t i p = None -> forall c, walk t' i p <> Some (c, None)).
Proof.
  revert i. induction p as [|y p IH]; intros i Hi; [done|]. cbn [walk].
  unfold t'. rewrite (add_select Ht cur x o Hcur Hx i y Hi). fold t'.
  destruct (select_child_by_name t i y) as [d|] eqn:Hd.
  - case_bool_decide as Hb; [destruct Hb as [-> ->]; congruence|]. apply IH. by eapply (select_valid Ht).
  - case_bool_decide as Hb; destruct p as [|z p]; try done.
    + by rewrite (bool_decide_eq_true_2 _ Hb).
    + split; [done|]. intros _ c. simpl. rewrite add_select_new. by destruct p.
    + by rewrite (bool_decide_eq_false_2 _ Hb).
Qed.

Lemma add_parent i : (i < length t)%nat -> node_parent t' i = node_parent t i.
Proof.
  intros [y Hy]%lookup_lt_is_Some. unfold node_parent, t'. by rewrite (add_old cur x o i y Hy), Hy.
Qed.

Lemma add_ascend i k : (i < length t)%nat -> ascend t' i k = ascend t i k.
Proof.
  revert i. induction k as [|k IH]; intros i Hi; simpl; [done|]. rewrite (add_parent i Hi).
  destruct (node_parent t i) as [p|] eqn:Hp; [|done]. apply IH.
  apply (node_parent_valid Ht) in Hp. lia.
Qed.

Lemma add_get i n :
  (i < length t)%nat ->
  match _get t i n with
  | Some (c, None) => _get t' i n = Some (c, None)
  | Some (c, Some y) => c = cur -> y = x -> _get t' i n = Some (length t, None)
  | None => forall c, _get t' i n <> Some (c, None)
  end.
Proof.
  intros Hi. destruct n as [p|k p]; simpl.
  - destruct (add_walk ROOT p (root_valid Ht)) as [Hw Hn]. destruct (walk t ROOT p) as [[c [y|]]|]; [|done|by apply Hn].
    intros -> ->. rewrite Hw. by rewrite bool_decide_eq_true_2.
  - rewrite (add_ascend i _ Hi). destruct (ascend t i (Z.to_nat k)) as [d|] eqn:Hd; [|done].
    destruct (add_walk d p (ascend_valid Ht i _ d Hi Hd)) as [Hw Hn].
    destruct (walk t d p) as [[c [y|]]|]; [|done|by apply Hn].
    intros -> ->. rewrite Hw. by rewrite bool_decide_eq_true_2.
Qed.
End found.

(** What [get_or_insert] does: it finds a node, or adds one below a node that has no
    child of that name; either way [get] finds the result afterwards. *)
Lemma insert_from_ok t fuel i n o :
  tree_ok t -> (i < length t)%nat -> (i < fuel)%nat ->
  insert_from fuel t i n o = Some None \/
  (exists c, insert_from fuel t i n o = Some (Some (c, t)) /\ (c < length t)%nat /\
    forall k, (i < k)%nat -> get_from k t i n = Some (Some c)) \/
  (exists p x, insert_from fuel t i n o = Some (Some (length t, add_child t p x o)) /\
    (p < length t)%nat /\ select_child_by_name t p x = None /\
    forall k, (i < k)%nat -> get_from k (add_child t p x o) i n = Some (Some (length t))).
Proof.
  intros Ht. revert i. induction fuel as [|fuel IH]; intros i Hi Hf; [lia|]. cbn [insert_from].
  destruct (_get t i n) as [[c [x|]]|] eqn:Hg.
  - right; right. pose proof (get_step_valid Ht i n c _ Hi Hg). pose proof (get_step_missing _ _ _ _ _ Hg) as Hm.
    exists c, x. repeat split; try done. intros k Hk. destruct k as [|k]; [lia|]. cbn [get_from].
    pose proof (add_get Ht c x o ltac:(done) Hm i n Hi) as Ha. rewrite Hg in Ha. by rewrite Ha.
  - right; left. exists c. split; [done|]. split; [by eapply (get_step_valid Ht i n)|].
    intros k Hk. destruct k as [|k]; [lia|]. cbn [get_from]. by rewrite Hg.
  - case_bool_decide as Hr; [by left|]. destruct (node_parent t i) as [p|] eqn:Hp; [|by left].
    pose proof (node_parent_valid Ht i p Hp) as [Hlt _].
    destruct (IH p) as [->|[(c & -> & Hc & Hget)|(q & x & -> & Hq & Hm & Hget)]]; [lia|lia|by left| |].
    + right; left. exists c. split; [done|]. split; [done|]. intros k Hk. destruct k as [|k]; [lia|]. cbn [get_from].
      rewrite Hg, bool_decide_eq_false_2, Hp by done. apply Hget. lia.
    + right; right. exists q, x. repeat split; try done. intros k Hk. destruct k as [|k]; [lia|]. cbn [get_from].
      pose proof (add_get Ht q x o Hq Hm i n Hi) as Ha. rewrite Hg in Ha.
      assert (node_parent (add_child t q x o) i = Some p) as Hp' by (rewrite (add_parent q x o i Hi); done).
      rewrite bool_decide_eq_false_2 by done. rewrite Hp'.
      destruct (_get (add_child t q x o) i n) as [[c [y|]]|]; [|by destruct (Ha c)|]; apply Hget; lia.
Qed.
