(* ===== verification/AmlSafe.v ===== *)
(** * The AML parser: safety and termination

    [safe] says what holds after a parser function, allowing a panic and, if [nf]
    holds, spent fuel.  With [nf := False] and enough fuel it is termination.  The
    parser only adds to the name space, keeps its invariant, and only moves forward in
    the byte code. *)

From stdpp Require Import base tactics list.
From S2P Require Import Prelude CMonad Aml AmlTree.
Local Open Scope Z_scope.

(** The codes of the operators [RefOf] and [CondRefOf] occur nowhere, neither as operators
    nor inside of data and names. *)
Definition quiet (l : list Z) : Prop :=
  forall p q, l <> p ++ [0x71] ++ q /\ l <> p ++ [0x5B; 0x12] ++ q.

Lemma quiet_infix l l' p q : quiet l -> l = p ++ l' ++ q -> quiet l'.
Proof.
  intros Hq -> p' q'. split; intros ->.
  - destruct (Hq (p ++ p') (q' ++ q)) as [H _]. apply H. by rewrite <- !app_assoc.
  - destruct (Hq (p ++ p') (q' ++ q)) as [_ H]. apply H. by rewrite <- !app_assoc.
Qed.

Lemma quiet_suffix l l' : quiet l -> l' `suffix_of` l -> quiet l'.
Proof. intros Hq [p ->]. eapply (quiet_infix _ _ p []); [done|]. by rewrite app_nil_r. Qed.

Lemma quiet_take l n : quiet l -> quiet (take n l).
Proof. intros Hq. eapply (quiet_infix _ _ [] (drop n l)); [done|]. simpl. by rewrite take_drop. Qed.

Create HintDb aml.

(** [x ←? m ; k x]. *)
Abbreviation obind m k := (bind m (fun o => match o with Some x => k x | None => ret None end)).

Section safe.
Context (nf : Prop).

Definition safe {A} (m : M Parser A) (s : Parser) (Q : A -> Parser -> Prop) : Prop :=
  match m s with Ok (a, s') => Q a s' | Undef => True | NoFuel => nf end.

Lemma safe_bind {A B} (m : M Parser A) (k : A -> M Parser B) s Q :
  safe m s (fun a s' => safe (k a) s' Q) -> safe (bind m k) s Q.
Proof. unfold safe, bind. by destruct (m s) as [[a s']| |]. Qed.

Lemma safe_mono {A} (m : M Parser A) s (Q Q' : A -> Parser -> Prop) :
  safe m s Q -> (forall a s', Q a s' -> Q' a s') -> safe m s Q'.
Proof. unfold safe. destruct (m s) as [[a s']| |]; auto. Qed.

Lemma safe_defined_if b s (Q : unit -> Parser -> Prop) : (b = true -> Q tt s) -> safe (defined_if b) s Q.
Proof. unfold safe, defined_if. destruct b; [by intros H; apply H|done]. Qed.

(** A function that only consumes code, and one that consumes some when it succeeds. *)
Definition reads {A} (m : M Parser A) : Prop :=
  forall s, safe m s (fun _ s' => tree s' = tree s /\ code s' `suffix_of` code s).
Definition eats {A} (m : M Parser (option A)) : Prop :=
  forall s, safe m s (fun a s' => tree s' = tree s /\ code s' `suffix_of` code s /\
    (is_Some a -> (length (code s') < length (code s))%nat)).

(** The state of a parser whose current node is [cur]. *)
Definition at_node (cur : NodeId) (s : Parser) : Prop := tree_ok (tree s) /\ (cur < length (tree s))%nat.

Record moves (s s' : Parser) : Prop := {
  moves_tree : tree_ok (tree s');
  moves_grows : grows (tree s) (tree s');
  moves_code : code s' `suffix_of` code s
}.

(** [fuel] is enough for the code [l], and [k] is left. *)
Definition enough (fuel k : nat) (l : list Z) : Prop := nf \/ (quiet l /\ (2 * length l + k <= fuel)%nat).

Definition parses {A} (cur : NodeId) (fuel k : nat) (m : M Parser A) : Prop :=
  forall s, at_node cur s -> enough fuel k (code s) -> safe m s (fun _ s' => moves s s').

Lemma moves_refl s : tree_ok (tree s) -> moves s s.
Proof. intros. split; [done|apply grows_refl|done]. Qed.

Lemma moves_trans s1 s2 s3 : moves s1 s2 -> moves s2 s3 -> moves s1 s3.
Proof. intros [? ? ?] [? ? ?]. split; [done|by eapply grows_trans|by etrans]. Qed.

Lemma at_node_moves cur s s' : at_node cur s -> moves s s' -> at_node cur s'.
Proof. intros [? ?] [? ? ?]. split; [done|by eapply grows_valid]. Qed.

Lemma enough_suffix fuel k l l' : enough fuel k l -> l' `suffix_of` l -> enough fuel k l'.
Proof.
  intros [?|[Hq Hl]] Hs; [by left|right]. split; [by eapply quiet_suffix|].
  apply suffix_length in Hs. lia.
Qed.

Lemma enough_strict fuel k l l' :
  enough fuel k l -> l' `suffix_of` l -> (length l' < length l)%nat -> enough fuel (2 + k) l'.
Proof.
  intros [?|[Hq Hl]] Hs Hlt; [by left|right]. split; [by eapply quiet_suffix|]. lia.
Qed.

Lemma enough_less fuel k k' l : (k' <= k)%nat -> enough fuel k l -> enough fuel k' l.
Proof. intros ? [?|[Hq Hl]]; [by left|right]. split; [done|lia]. Qed.

Lemma enough_pred fuel k l : enough (S fuel) (S k) l -> enough fuel k l.
Proof. intros [?|[Hq Hl]]; [by left|right]. split; [done|lia]. Qed.

Lemma enough_take fuel k l n : enough fuel k l -> enough fuel k (take n l).
Proof.
  intros [?|[Hq Hl]]; [by left|right]. split; [by apply quiet_take|]. rewrite length_take. lia.
Qed.

(** *** Rules for readers *)

Lemma eats_reads {A} (m : M Parser (option A)) : eats m -> reads m.
Proof. intros H s. eapply safe_mono; [apply H|]. by intros a s' (? & ? & _). Qed.

Lemma reads_ret {A} (a : A) : reads (ret a).
Proof. by intros s. Qed.

Lemma reads_bind {A B} (m : M Parser A) (k : A -> M Parser B) :
  reads m -> (forall a, reads (k a)) -> reads (bind m k).
Proof.
  intros Hm Hk s. apply safe_bind. eapply safe_mono; [apply Hm|].
  intros a s1 (Ht & Hs). eapply safe_mono; [apply Hk|]. intros b s2 (Ht' & Hs').
  split; [congruence|by etrans].
Qed.

Lemma reads_obind {A B} (m : M Parser (option A)) (k : A -> M Parser (option B)) :
  reads m -> (forall a, reads (k a)) -> reads (obind m k).
Proof. intros Hm Hk. apply reads_bind; [done|]. intros [a|]; [apply Hk|apply reads_ret]. Qed.

Lemma eats_obind {A B} (m : M Parser (option A)) (k : A -> M Parser (option B)) :
  eats m -> (forall a, reads (k a)) -> eats (obind m k).
Proof.
  intros Hm Hk s. apply safe_bind. eapply safe_mono; [apply Hm|].
  intros [a|] s1 (Ht & Hs & Hl); [|by split; [|split; [|intros [? [=]]]]].
  eapply safe_mono; [apply Hk|]. intros b s2 (Ht' & Hs').
  split; [congruence|]. split; [by etrans|]. intros _. apply suffix_length in Hs'.
  specialize (Hl ltac:(eauto)). lia.
Qed.

Lemma reads_if {A} (b : bool) (m1 m2 : M Parser A) : reads m1 -> reads m2 -> reads (if b then m1 else m2).
Proof. by destruct b. Qed.
Lemma eats_if {A} (b : bool) (m1 m2 : M Parser (option A)) : eats m1 -> eats m2 -> eats (if b then m1 else m2).
Proof. by destruct b. Qed.

Lemma reads_defined_if b : reads (defined_if b).
Proof. intros s. by apply safe_defined_if. Qed.

Lemma reads_gets {A} (f : Parser -> A) : reads (gets f).
Proof. by intros s. Qed.

Lemma next_eats : eats next.
Proof.
  intros [l t]. unfold safe, next. run. simpl. destruct l as [|b l]; simpl.
  - split; [done|]. split; [done|]. by intros [? ?].
  - split; [done|]. split; [by exists [b]|]. lia.
Qed.

Lemma first_reads : reads first.
Proof. by intros s. Qed.

Lemma read_run n s :
  read n s = if n <=? Z.of_nat (length (code s))
    then Ok (take (Z.to_nat n) (code s), mkParser (drop (Z.to_nat n) (code s)) (tree s)) else Undef.
Proof. unfold read. run. by destruct (n <=? _). Qed.

Lemma read_reads n : reads (read n).
Proof.
  intros s. unfold safe. rewrite read_run. destruct (n <=? _); [|done]. split; [done|]. apply suffix_drop.
Qed.

Lemma read_le_reads n : reads (read_le n).
Proof. apply reads_bind; [apply read_reads|]. intros. apply reads_ret. Qed.

Lemma sub_reads a b : reads (sub a b).
Proof. apply reads_bind; [apply reads_defined_if|]. intros. apply reads_ret. Qed.

Lemma pkg_bytes_reads i n l : reads (pkg_bytes i n l).
Proof.
  revert i l. induction n as [|n IH]; intros i l; simpl; [apply reads_ret|].
  apply (reads_obind next); [apply eats_reads, next_eats|]. intros b. apply IH.
Qed.

Lemma pkg_length_eats : eats pkg_length.
Proof.
  apply (eats_obind next); [apply next_eats|]. intros b.
  apply (reads_obind (pkg_bytes _ _ _)); [apply pkg_bytes_reads|]. intros n. apply reads_ret.
Qed.

Lemma payload_length_reads l : reads (payload_length l).
Proof. apply reads_bind; [apply sub_reads|]. intros. apply sub_reads. Qed.

(** What reading does to a state, and consuming. *)
Abbreviation read_by s s' := (tree s' = tree s /\ code s' `suffix_of` code s).
Abbreviation eaten_by s s' :=
  (tree s' = tree s /\ code s' `suffix_of` code s /\ lt (length (code s')) (length (code s))).

Lemma next_then {A} (k : option Z -> M Parser A) s :
  code s <> [] -> (forall b, reads (k b)) -> safe (bind next k) s (fun _ s' => eaten_by s s').
Proof.
  destruct s as [[|b l] t]; [done|]. intros _ Hk. apply safe_bind. unfold safe at 1. simpl.
  eapply safe_mono; [apply Hk|]. simpl. intros a s' (? & Hs). split; [done|].
  split; [by apply suffix_cons_r|]. apply suffix_length in Hs. lia.
Qed.

Lemma read_eats n s :
  0 < n -> safe (read n) s (fun _ s' => eaten_by s s').
Proof.
  intros Hn. unfold safe. rewrite read_run. destruct (Z.leb_spec n (Z.of_nat (length (code s)))); [|done].
  split; [done|]. split; [apply suffix_drop|]. cbn [code]. rewrite length_drop. lia.
Qed.

Lemma eats_of {A} (m : M Parser (option A)) s :
  safe m s (fun _ s' => eaten_by s s') -> safe m s (fun a s' => tree s' = tree s /\ code s' `suffix_of` code s /\
    (is_Some a -> (length (code s') < length (code s))%nat)).
Proof. intros H. eapply safe_mono; [done|]. intros a s' (? & ? & ?). done. Qed.

Lemma namepath_eats : eats namepath.
Proof.
  intros s. unfold namepath. apply safe_bind. unfold safe at 1.
  change (first s) with (Ok (head (code s), s)). cbv iota beta.
  destruct (head (code s)) as [b|] eqn:Hh; [|split; [done|split; [done|by intros [? ?]]]].
  assert (code s <> []) as Hne by (by intros He; rewrite He in Hh).
  destruct (b =? 0); [|destruct (b =? 0x2E); [|destruct (b =? 0x2F); [|destruct (lead_char b)]]].
  - apply eats_of, next_then; [done|]. intros [?|]; apply reads_ret.
  - apply eats_of, next_then; [done|]. intros _. apply reads_bind; [apply read_reads|]. intros. apply reads_ret.
  - apply eats_of, next_then; [done|]. intros _. apply (reads_obind next); [apply eats_reads, next_eats|].
    intros n. apply reads_bind; [apply read_reads|]. intros. apply reads_ret.
  - apply eats_of. apply safe_bind. eapply safe_mono; [by apply read_eats|]. by intros a s' ?.
  - split; [done|]. split; [done|]. by intros [? ?].
Qed.

Lemma carets_reads l level s : code s = l -> safe (carets l level) s (fun _ s' => read_by s s').
Proof.
  revert level s. induction l as [|b l IH]; intros level s Hs; [by unfold safe|]. cbn [carets].
  destruct (b =? 0x5E); [|by unfold safe].
  apply safe_bind, safe_defined_if. intros _. apply safe_bind. unfold safe at 1. simpl.
  eapply safe_mono; [by apply IH|]. simpl. intros a s' [? ?]. split; [done|]. rewrite Hs.
  by apply suffix_cons_r.
Qed.

Lemma namestring_eats : eats namestring.
Proof.
  intros s. unfold namestring. apply safe_bind. unfold safe at 1. change (gets code s) with (Ok (code s, s)).
  cbv iota beta. apply safe_bind. eapply safe_mono; [by apply carets_reads|]. intros level s1 [Ht1 Hs1].
  assert (eats (obind first (fun b => if b =? 0x5C then (_ ← next ; obind namepath (fun p => ret (Some (Root p))))%c
    else obind namepath (fun p => ret (Some (Relative level p)))))) as H.
  { intros s2. apply safe_bind. unfold safe at 1. change (first s2) with (Ok (head (code s2), s2)). cbv iota beta.
    destruct (head (code s2)) as [b|] eqn:Hh; [|split; [done|split; [done|by intros [? ?]]]].
    assert (code s2 <> []) by (by intros He; rewrite He in Hh). destruct (b =? 0x5C).
    - apply eats_of, next_then; [done|]. intros _.
      apply (reads_obind namepath); [apply eats_reads, namepath_eats|]. intros. apply reads_ret.
    - apply (eats_obind namepath); [apply namepath_eats|]. intros. apply reads_ret. }
  eapply safe_mono; [apply H|]. intros a s2 (Ht2 & Hs2 & Hl).
  split; [congruence|]. split; [by etrans|]. intros Ha. specialize (Hl Ha). apply suffix_length in Hs1. lia.
Qed.

Lemma until_zero_suffix l : snd (until_zero l) `suffix_of` l.
Proof.
  induction l as [|b l IH]; simpl; [done|]. destruct (b =? 0); [by exists [b]|].
  destruct (until_zero l) as [u r]. by apply suffix_cons_r.
Qed.

Lemma string_bytes_reads : reads string_bytes.
Proof.
  intros [l t]. unfold safe, string_bytes. run. simpl. pose proof (until_zero_suffix l).
  by destruct (until_zero l).
Qed.

Lemma parse_buffer_reads : reads parse_buffer.
Proof.
  apply (reads_obind pkg_length); [apply eats_reads, pkg_length_eats|]. intros l.
  apply reads_bind; [apply payload_length_reads|]. intros n. apply reads_bind; [apply read_reads|].
  intros. apply reads_ret.
Qed.

(** An opcode has one or two bytes; those of [RefOf] and [CondRefOf] are known. *)
Lemma opcode_parse_safe s :
  safe opcode_parse s (fun r s' => read_by s s' /\ forall op, r = inl op ->
    lt (length (code s')) (length (code s)) /\
    (op = OpRefOf -> exists l, code s = 0x71 :: l) /\ (op = OpCondRefOf -> exists l, code s = 0x5B :: 0x12 :: l)).
Proof.
  destruct s as [[|b l] t]; [by unfold safe|]. unfold safe, opcode_parse, next. run. simpl.
  destruct (Z.eqb_spec b 0x5B) as [->|]; [|destruct (Z.eqb_spec b 0x92) as [->|]].
  - destruct l as [|e l]; simpl; [by split; [split; [|by exists [0x5B]]|]|].
    split; [split; [done|by exists [0x5B; e]]|]. intros op Hop. split; [lia|]. split.
    + intros ->. unfold from_ext in Hop. repeat case_match; done.
    + intros ->. exists l. unfold from_ext in Hop. repeat case_match; done.
  - destruct l as [|e l]; simpl; [by split; [split; [|by exists [0x92]]|]|].
    split; [split; [done|by exists [0x92; e]]|]. intros op Hop. split; [lia|].
    split; intros ->; unfold not_op in Hop; repeat case_match; done.
  - split; [split; [done|by exists [b]]|]. intros op Hop. split; [simpl; lia|].
    split; intros ->; unfold plain_opcode in Hop; repeat case_match; simplify_eq; by exists l.
Qed.

Lemma opcode_ok_eats : eats opcode_ok.
Proof.
  intros s. apply safe_bind. eapply safe_mono; [apply opcode_parse_safe|].
  intros [op|e] s' ([? ?] & Hop); (split; [done|]; split; [done|]); [|by intros [? ?]].
  intros _. by destruct (Hop op eq_refl).
Qed.

(** *** Rules for parsers *)

Section rules.
Context (cur : NodeId).

Lemma parses_safe {A} fuel k (m : M Parser A) s s0 :
  parses cur fuel k m -> at_node cur s0 -> moves s0 s -> enough fuel k (code s) ->
  safe m s (fun _ s' => moves s0 s').
Proof.
  intros Hm Hn Hs He. eapply safe_mono; [apply Hm; [by eapply at_node_moves|done]|].
  intros a s' ?. by eapply moves_trans.
Qed.

Lemma read_moves s s' : at_node cur s -> read_by s s' -> moves s s'.
Proof. intros [? _] [Ht Hs]. split; [by rewrite Ht|rewrite Ht; apply grows_refl|done]. Qed.

Lemma parses_reads {A} fuel k (m : M Parser A) : reads m -> parses cur fuel k m.
Proof.
  intros Hm s Hn _. eapply safe_mono; [apply Hm|]. intros a s' ?. by apply read_moves.
Qed.

Lemma parses_ret {A} fuel k (a : A) : parses cur fuel k (ret a).
Proof. apply parses_reads, reads_ret. Qed.

Lemma parses_undef {A} fuel k : parses cur fuel k (@undef Parser A).
Proof. by intros s _ _. Qed.

Lemma parses_bind {A B} fuel k (m : M Parser A) (h : A -> M Parser B) :
  parses cur fuel k m -> (forall a, parses cur fuel k (h a)) -> parses cur fuel k (bind m h).
Proof.
  intros Hm Hh s Hn He. apply safe_bind. eapply safe_mono; [by apply Hm|]. intros a s1 Hs1.
  eapply parses_safe; [apply Hh|done..|]. eapply enough_suffix; [done|apply Hs1].
Qed.

Lemma parses_rbind {A B} fuel k (m : M Parser A) (h : A -> M Parser B) :
  reads m -> (forall a, parses cur fuel k (h a)) -> parses cur fuel k (bind m h).
Proof. intros Hm. by apply parses_bind, parses_reads. Qed.

Lemma parses_obind {A B} fuel k (m : M Parser (option A)) (h : A -> M Parser (option B)) :
  parses cur fuel k m -> (forall a, parses cur fuel k (h a)) -> parses cur fuel k (obind m h).
Proof. intros Hm Hh. apply parses_bind; [done|]. intros [a|]; [apply Hh|apply parses_ret]. Qed.

Lemma parses_eats {A B} fuel k (m : M Parser (option A)) (h : A -> M Parser (option B)) :
  eats m -> (forall a, parses cur fuel (2 + k) (h a)) -> parses cur fuel k (obind m h).
Proof.
  intros Hm Hh s Hn He. apply safe_bind. eapply safe_mono; [apply Hm|]. intros [a|] s1 (Ht & Hs & Hl).
  - eapply parses_safe; [apply Hh|done|by apply read_moves|]. eapply enough_strict; eauto.
  - by apply read_moves.
Qed.

Lemma parses_more {A} fuel k k' (m : M Parser A) : (k <= k')%nat -> parses cur fuel k m -> parses cur fuel k' m.
Proof. intros Hk Hm s Hn He. apply Hm; [done|]. by eapply enough_less. Qed.

Lemma parses_succ {A} fuel k (m : M Parser A) : parses cur fuel k m -> parses cur (S fuel) (S k) m.
Proof. intros Hm s Hn He. apply Hm; [done|]. by apply enough_pred. Qed.

Lemma parses_if {A} fuel k (b : bool) (m1 m2 : M Parser A) :
  parses cur fuel k m1 -> parses cur fuel k m2 -> parses cur fuel k (if b then m1 else m2).
Proof. by destruct b. Qed.

(** A slice is parsed by itself; the rest of the code is what follows it. *)
Lemma slice_safe {A} n (p : M Parser (option A)) s s0 :
  moves s0 s ->
  safe p (mkParser (take (Z.to_nat n) (code s)) (tree s))
    (fun _ s' => tree_ok (tree s') /\ grows (tree s) (tree s')) ->
  safe (slice n p) s (fun _ s' => moves s0 s').
Proof.
  intros Hs Hp. unfold slice. apply safe_bind. unfold safe at 1. change (gets code s) with (Ok (code s, s)).
  cbv iota beta. apply safe_bind, safe_defined_if. intros _. apply safe_bind. unfold safe at 1. simpl.
  apply safe_bind. eapply safe_mono; [apply Hp|]. intros r s' [Ht Hg]. simpl.
  split; simpl; [done|by eapply grows_trans; [apply Hs|]|]. etrans; [apply suffix_drop|apply Hs].
Qed.

Lemma parses_slice {A} fuel k n (p : M Parser (option A)) :
  parses cur fuel k p -> parses cur fuel k (slice n p).
Proof.
  intros Hp s Hn He. apply slice_safe; [apply moves_refl, Hn|].
  eapply safe_mono; [apply Hp; [done|by apply enough_take]|]. intros a s' [? ? _]. done.
Qed.

(** *** The name space *)

Lemma get_safe s n : at_node cur s ->
  safe (get cur n) s (fun r s' => s' = s /\ forall c, r = Some c -> (c < length (tree s))%nat).
Proof.
  intros [Ht Hc]. unfold get. apply safe_bind. unfold safe at 1. change (gets tree s) with (Ok (tree s, s)).
  cbv iota beta. destruct (get_from_total Ht (S (length (tree s))) cur n Hc) as (r & -> & Hr); [lia|].
  by unfold safe.
Qed.

Lemma get_parses fuel k n : parses cur fuel k (get cur n).
Proof. intros s Hn _. eapply safe_mono; [by apply get_safe|]. intros r s' [-> _]. apply moves_refl, Hn. Qed.

Lemma get_or_insert_safe s n o : at_node cur s ->
  safe (get_or_insert cur n o) s (fun r s' => moves s s' /\ code s' = code s /\
    forall c, r = Some c -> (c < length (tree s'))%nat).
Proof.
  intros Hn. pose proof Hn as [Ht Hc]. unfold get_or_insert. apply safe_bind. unfold safe at 1.
  change (gets tree s) with (Ok (tree s, s)). cbv iota beta.
  destruct (insert_from_ok (tree s) (S (length (tree s))) cur n o Ht Hc) as
    [->|[(c & -> & Hcv & _)|(p & x & -> & Hp & Hx & _)]]; [lia| | |]; unfold safe; simpl.
  - by split; [apply moves_refl|].
  - split; [split; [done|apply grows_refl|done]|]. split; [done|]. by intros d [= <-].
  - split; [split; simpl; [by apply add_tree_ok|apply add_grows|done]|]. split; [done|].
    intros d [= <-]. rewrite add_length by done. lia.
Qed.

Lemma get_or_insert_parses fuel k n o : parses cur fuel k (get_or_insert cur n o).
Proof. intros s Hn _. eapply safe_mono; [by apply get_or_insert_safe|]. by intros r s' [? _]. Qed.

Lemma declare_parses fuel k n o : parses cur fuel k (declare cur n o).
Proof. apply (parses_obind _ _ (get_or_insert cur n o)); [apply get_or_insert_parses|]. intros. apply parses_ret. Qed.

(** *** Data and references *)

Section data.
Context (fuel : nat) (data : Opcode -> M Parser (option DataObject))
  (reference : Opcode -> M Parser (option ReferenceType)).
(** [k] is what the caller has left. *)
Context (k : nat).
Hypothesis data_parses : forall op, parses cur fuel (2 + k) (data op).
Hypothesis reference_parses : forall op, parses cur fuel (2 + k) (reference op).

Lemma code_back s s0 l : at_node cur s0 -> tree s = tree s0 -> l = code s0 -> safe (set_code l) s (fun _ s' => s' = s0).
Proof. intros _ Ht ->. unfold safe, set_code. run. rewrite Ht. by destruct s0. Qed.

Lemma term_arg_safe s :
  at_node cur s -> enough fuel k (code s) ->
  safe (term_arg_with cur data) s (fun r s' => moves s s' /\
    forall t, r = inl t -> (length (code s') < length (code s))%nat).
Proof.
  intros Hn He. unfold term_arg_with. apply safe_bind. unfold safe at 1.
  change (gets code s) with (Ok (code s, s)). cbv iota beta. apply safe_bind.
  eapply safe_mono; [apply opcode_parse_safe|]. intros r s1 ([Ht1 Hs1] & Hop).
  assert (moves s s1) as Hm1 by by apply (read_moves s s1 Hn).
  destruct r as [op|[b|]].
  - apply safe_bind. destruct (Hop op eq_refl) as (Hl & _).
    eapply safe_mono; [apply (data_parses op s1); [by eapply at_node_moves|by eapply enough_strict]|].
    intros d s2 Hm2. assert (moves s s2) by by eapply moves_trans.
    assert (length (code s2) < length (code s))%nat by (destruct Hm2 as [_ _ H2%suffix_length]; lia).
    destruct d; [done|]. destruct op; done.
  - apply safe_bind. eapply safe_mono; [by apply (code_back s1 s)|]. intros _ s2 ->.
    destruct (lead_char b); [|by split; [apply moves_refl, Hn|]]. apply safe_bind.
    eapply safe_mono; [apply namestring_eats|]. intros [n|] s3 (Ht3 & Hs3 & Hl3); [|by split; [apply (read_moves s s3 Hn)|]].
    assert (moves s s3) as Hm3 by by apply (read_moves s s3 Hn). apply safe_bind.
    eapply safe_mono; [apply get_safe; by eapply at_node_moves|]. intros [o|] s4 [-> _]; [|done].
    unfold safe; simpl. split; [done|]. intros _ _. apply Hl3. eauto.
  - apply safe_bind. eapply safe_mono; [by apply (code_back s1 s)|]. intros _ s2 ->. by split; [apply moves_refl, Hn|].
Qed.

Lemma term_value_safe s :
  at_node cur s -> enough fuel k (code s) ->
  safe (term_value_with cur data) s (fun r s' => moves s s' /\
    (is_Some r -> (length (code s') < length (code s))%nat)).
Proof.
  intros Hn He. apply safe_bind. eapply safe_mono; [by apply term_arg_safe|].
  intros [t|e] s1 [Hm Hl]; [|by split; [|intros [? [=]]]]. specialize (Hl t eq_refl).
  by destruct t; unfold safe; simpl.
Qed.

Lemma term_value_parses : parses cur fuel k (term_value_with cur data).
Proof. intros s Hn He. eapply safe_mono; [by apply term_value_safe|]. by intros r s' [? _]. Qed.

(** What comes after a value has some more fuel. *)
Lemma term_value_obind {B} (h : Evaluatable -> M Parser (option B)) :
  (forall e, parses cur fuel (2 + k) (h e)) -> parses cur fuel k (obind (term_value_with cur data) h).
Proof.
  intros Hh s Hn He. apply safe_bind. eapply safe_mono; [by apply term_value_safe|].
  intros [e|] s1 [Hm Hl]; [|done]. eapply parses_safe; [apply Hh|done|done|].
  eapply enough_strict; [done|apply Hm|eauto].
Qed.

Lemma data_ref_parses : parses cur fuel k (data_ref_with data reference).
Proof.
  apply (parses_eats _ _ opcode_ok); [apply opcode_ok_eats|]. intros op.
  apply parses_bind; [apply data_parses|]. intros [d|]; [apply parses_ret|].
  apply (parses_obind _ _ (reference op)); [apply reference_parses|]. intros. apply parses_ret.
Qed.

Lemma element_parses : parses cur fuel k (element_with cur data reference).
Proof.
  apply parses_bind; [apply data_ref_parses|]. intros [[d|e]|]; [apply parses_ret..|].
  apply (parses_obind _ _ namestring); [apply parses_reads, eats_reads, namestring_eats|]. intros n.
  apply (parses_obind _ _ (get cur n)); [apply get_parses|]. intros. apply parses_ret.
Qed.

Lemma elements_parses n : parses cur fuel k (elements_with cur data reference n).
Proof.
  induction n as [|n IH]; cbn [elements_with]; [apply parses_ret|].
  apply (parses_obind _ _ (element_with cur data reference)); [apply element_parses|]. intros e.
  apply (parses_obind _ _ (elements_with cur data reference n)); [apply IH|]. intros. apply parses_ret.
Qed.

Lemma package_parses : parses cur fuel k (package_with cur data reference).
Proof.
  apply (parses_obind _ _ pkg_length); [apply parses_reads, eats_reads, pkg_length_eats|]. intros l.
  apply (parses_obind _ _ next); [apply parses_reads, eats_reads, next_eats|]. intros n.
  apply parses_rbind; [apply payload_length_reads|]. intros size.
  apply parses_rbind; [apply sub_reads|]. intros. apply parses_slice, elements_parses.
Qed.

Lemma var_package_parses : parses cur fuel k (var_package_with cur data reference).
Proof.
  apply (parses_obind _ _ pkg_length); [apply parses_reads, eats_reads, pkg_length_eats|]. intros l.
  apply parses_rbind; [apply payload_length_reads|]. intros size. apply parses_slice.
  apply (parses_obind _ _ (term_value_with cur data)); [apply term_value_parses|]. intros n.
  apply (parses_obind _ _ (package_with cur data reference)); [apply package_parses|]. intros. apply parses_ret.
Qed.
End data.

Lemma simple_name_safe s : at_node cur s ->
  safe simple_name s (fun r s' => moves s s' /\ forall op, r = Some (inr op) -> s' = s /\
    (op = OpRefOf -> exists l, code s = 0x71 :: l) /\ (op = OpCondRefOf -> exists l, code s = 0x5B :: 0x12 :: l)).
Proof.
  intros Hn. unfold simple_name. apply safe_bind. unfold safe at 1.
  change (first s) with (Ok (head (code s), s)). cbv iota beta.
  destruct (head (code s)) as [b|] eqn:Hh; [|by split; [apply moves_refl, Hn|]].
  destruct (_ || _).
  - apply safe_bind. eapply safe_mono; [apply eats_reads, namestring_eats|].
    intros [n|] s1 H1; (split; [by apply (read_moves s s1 Hn)|done]).
  - apply safe_bind. unfold safe at 1. change (gets code s) with (Ok (code s, s)). cbv iota beta.
    apply safe_bind, safe_defined_if. intros _. apply safe_bind. unfold safe at 1. simpl.
    apply safe_bind. eapply safe_mono; [apply opcode_parse_safe|]. simpl. intros r s1 ([Ht1 _] & Hop).
    apply safe_bind. eapply safe_mono; [by apply (code_back s1 s)|]. intros _ s2 ->.
    destruct r as [op|e]; [|by split; [apply moves_refl, Hn|]]. destruct (Hop op eq_refl) as (_ & H1 & H2).
    assert (forall r : option (SuperName + Opcode), (r = Some (inr op) \/ forall op', r <> Some (inr op')) ->
      moves s s /\ (forall op', r = Some (inr op') -> s = s /\ (op' = OpRefOf -> exists l, code s = 0x71 :: l) /\
        (op' = OpCondRefOf -> exists l, code s = 0x5B :: 0x12 :: l))) as Hgo.
    { intros r Hr. split; [apply moves_refl, Hn|]. intros op' ->. destruct Hr as [[= ->]|Hr]; [|by destruct (Hr op')].
      split; [done|]. split; intros ->; [destruct (H1 eq_refl) as [l Hl]|destruct (H2 eq_refl) as [l Hl]];
        destruct (code s) as [|x [|y c]]; try done; simpl in Hl; simplify_eq; eauto. }
    destruct op; unfold safe; simpl; apply Hgo; first [by left | by right].
Qed.

Section references.
Context (fuel k : nat) (reference : Opcode -> M Parser (option ReferenceType)).
Hypothesis peek_parses : forall op, (nf \/ (op <> OpRefOf /\ op <> OpCondRefOf)) -> parses cur fuel k (reference op).

(** The opcode that was looked at is not the one of a reference, or fuel may run out. *)
Lemma peek_safe s op :
  at_node cur s -> enough fuel k (code s) ->
  (op = OpRefOf -> exists l, code s = 0x71 :: l) -> (op = OpCondRefOf -> exists l, code s = 0x5B :: 0x12 :: l) ->
  safe (reference op) s (fun _ s' => moves s s').
Proof.
  intros Hn He H1 H2. apply peek_parses; [|done|done]. destruct He as [?|[Hq _]]; [by left|right].
  split; intros ->; [destruct (H1 eq_refl) as [l Hl]|destruct (H2 eq_refl) as [l Hl]];
    destruct (Hq [] l) as [Ha Hb]; by rewrite Hl in Ha, Hb.
Qed.

Lemma source_parses : parses cur fuel k (source_with reference).
Proof.
  intros s Hn He. apply safe_bind. eapply safe_mono; [by apply simple_name_safe|].
  intros [[n|op]|] s1 [Hm Hop]; [done| |done]. destruct (Hop op eq_refl) as (-> & H1 & H2).
  apply safe_bind. eapply safe_mono; [by apply peek_safe|]. by intros [r|] s2 ?.
Qed.

Lemma target_parses : parses cur fuel k (target_with reference).
Proof.
  intros s Hn He. apply safe_bind. eapply safe_mono; [by apply simple_name_safe|].
  intros [[n|op]|] s1 [Hm Hop]; [done| |done]. destruct (Hop op eq_refl) as (-> & H1 & H2).
  assert (safe (obind (reference op) (fun r => ret (Some (Some (SuperNested r))))) s (fun _ s' => moves s s')) as H.
  { apply safe_bind. eapply safe_mono; [by apply peek_safe|]. by intros [r|] s2 ?. }
  destruct op; done.
Qed.
End references.
End rules.

Definition need (op : Opcode) : nat := match op with OpRefOf | OpCondRefOf => 2 | _ => 1 end.

Lemma parses_nf {A} cur fuel k fuel' k' (m : M Parser A) :
  nf -> parses cur fuel k m -> parses cur fuel' k' m.
Proof. intros Hnf Hm s Hn _. apply Hm; [done|]. by left. Qed.

Lemma data_reference_parses fuel cur op :
  parses cur fuel 1 (data_object fuel cur op) /\ parses cur fuel (need op) (reference_one fuel cur op).
Proof.
  revert op. induction fuel as [|fuel IH]; intros op.
  { assert (forall A k, (0 < k)%nat -> parses cur 0 k (@no_fuel Parser A)) as H0.
    { intros A k Hk s _ [?|[_ ?]]; [done|lia]. }
    split; apply H0; [lia|destruct op; simpl; lia]. }
  assert (forall op, parses cur (S fuel) 3 (data_object fuel cur op)) as Hd
    by (intros; by apply (parses_more _ _ 2), parses_succ, IH; lia).
  assert (forall op, parses cur (S fuel) 3 (reference_one fuel cur op)) as Hr.
  { intros op'. apply parses_succ, (parses_more _ _ (need op')); [|apply IH]. destruct op'; simpl; lia. }
  assert (forall k op, (1 < k)%nat -> nf \/ (op <> OpRefOf /\ op <> OpCondRefOf) ->
    parses cur (S fuel) k (reference_one fuel cur op)) as Hp.
  { intros k op' Hk [Hnf|[H1 H2]]; [by eapply parses_nf, IH|].
    apply (parses_more _ _ 2); [lia|]. apply parses_succ.
    replace 1%nat with (need op') by (by destruct op'). apply IH. }
  split.
  - destruct op; cbn [data_object]; try apply parses_ret.
    + apply (parses_obind _ _ _ next); [apply parses_reads, eats_reads, next_eats|]. intros. apply parses_ret.
    + apply (parses_obind _ _ _ (read_le 2)); [apply parses_reads, read_le_reads|]. intros. apply parses_ret.
    + apply (parses_obind _ _ _ (read_le 4)); [apply parses_reads, read_le_reads|]. intros. apply parses_ret.
    + apply (parses_obind _ _ _ (read_le 8)); [apply parses_reads, read_le_reads|]. intros. apply parses_ret.
    + apply parses_reads, string_bytes_reads.
    + apply (parses_obind _ _ _ parse_buffer); [apply parses_reads, parse_buffer_reads|]. intros. apply parses_ret.
    + apply (parses_obind _ _ _ (package_with _ _ _)); [by apply package_parses|]. intros. apply parses_ret.
    + by apply var_package_parses.
  - destruct op; cbn [reference_one need]; try apply parses_ret.
    + apply (parses_obind _ _ _ (source_with _)); [apply source_parses; intros; by apply Hp; [lia|]|].
      intros. apply parses_ret.
    + apply (parses_eats _ _ _ opcode_ok); [apply opcode_ok_eats|]. intros op.
      apply (parses_obind _ _ _ (reference_one _ _ _)); [apply Hr|]. intros. apply parses_ret.
    + apply term_value_obind; [done|]. intros s. apply term_value_obind.
      { intros. by apply (parses_more _ _ 3); [lia|]. }
      intros i. apply (parses_obind _ _ _ (target_with _)); [apply target_parses; intros; by apply Hp; [lia|]|].
      intros. apply parses_ret.
    + apply (parses_obind _ _ _ (source_with _)); [apply source_parses; intros; by apply Hp; [lia|]|]. intros s.
      apply (parses_obind _ _ _ (target_with _)); [apply target_parses; intros; by apply Hp; [lia|]|].
      intros. apply parses_ret.
Qed.

(** *** Fields *)

Section fields.
Context (cur : NodeId).

Definition moves_eating {A} (s : Parser) (r : option A) (s' : Parser) : Prop :=
  moves s s' /\ (is_Some r -> (length (code s') < length (code s))%nat).

Lemma next_first_safe {A} (m : option Z -> M Parser (option A)) s :
  at_node cur s -> code s <> [] -> (forall b, reads (m b)) ->
  safe (bind next m) s (moves_eating s).
Proof.
  intros Hn Hc Hm. eapply safe_mono; [by apply next_then|]. intros r s' (? & ? & ?).
  split; [by apply (read_moves cur)|done].
Qed.

Lemma named_field_safe a s :
  at_node cur s -> safe (named_field cur a) s (moves_eating s).
Proof.
  intros Hn. unfold named_field. apply safe_bind. eapply safe_mono; [by apply read_eats|].
  intros n s1 (Ht1 & Hs1 & Hl1). assert (moves s s1) as Hm1 by by apply (read_moves cur).
  apply safe_bind. eapply safe_mono; [apply eats_reads, pkg_length_eats|]. intros [l|] s2 [Ht2 Hs2].
  2: { split; [|by intros [? ?]]. apply (read_moves cur); [done|]. split; [congruence|by etrans]. }
  assert (moves s s2) as Hm2 by (apply (read_moves cur); [done|]; split; [congruence|by etrans]).
  assert (length (code s2) < length (code s))%nat as Hl2 by (apply suffix_length in Hs2; lia).
  apply safe_bind, safe_bind, safe_defined_if. intros _. unfold safe at 1. simpl.
  assert (forall o (a' : FieldUnitAttribute),
    safe (obind (get_or_insert cur (Relative 0 [n]) o) (fun _ => ret (Some a'))) s2 (moves_eating s)) as Hadd.
  { intros o a'. apply safe_bind. eapply safe_mono; [apply get_or_insert_safe; by eapply at_node_moves|].
    intros r s3 (Hm3 & Hc3 & _). assert (moves s s3) by by eapply moves_trans.
    destruct r; (split; [done|]); [intros _; by rewrite Hc3|by intros [? ?]]. }
  destruct (bank a) as [[bn bv]|]; [|apply Hadd]. apply safe_bind.
  eapply safe_mono; [apply get_safe; by eapply at_node_moves|]. intros [b|] s3 [-> _]; [apply Hadd|].
  split; [done|]. by intros [? ?].
Qed.

Lemma field_element_safe a s :
  at_node cur s -> safe (field_element cur a) s (moves_eating s).
Proof.
  intros Hn. unfold field_element. apply safe_bind. unfold safe at 1.
  change (first s) with (Ok (head (code s), s)). cbv iota beta.
  destruct (head (code s)) as [b|] eqn:Hh; [|by split; [apply moves_refl, Hn|intros [? ?]]].
  assert (code s <> []) by (by intros He; rewrite He in Hh).
  destruct (b =? 0); [|destruct (b =? 1); [|destruct (_ || _)]]; [| |done|by apply named_field_safe].
  - apply next_first_safe; [done..|]. intros _.
    apply (reads_obind pkg_length); [apply eats_reads, pkg_length_eats|]. intros. apply reads_ret.
  - apply next_first_safe; [done..|]. intros _.
    apply (reads_obind next); [apply eats_reads, next_eats|]. intros. apply reads_ret.
Qed.

Lemma field_list_safe k a s :
  at_node cur s -> nf \/ (length (code s) < k)%nat -> safe (field_list k cur a) s (fun _ s' => moves s s').
Proof.
  revert a s. induction k as [|k IH]; intros a s Hn Hk; [destruct Hk; [done|lia]|]. cbn [field_list].
  apply safe_bind. eapply safe_mono; [by apply field_element_safe|]. intros [a'|] s1 [Hm Hl]; [|done].
  eapply safe_mono; [apply IH; [by eapply at_node_moves|]|].
  - destruct Hk as [?|?]; [by left|right]. specialize (Hl ltac:(eauto)). lia.
  - intros r s2 ?. by eapply moves_trans.
Qed.

Lemma field_list_parses fuel a : parses cur fuel 1 (field_list fuel cur a).
Proof. intros s Hn He. apply field_list_safe; [done|]. destruct He as [?|[_ ?]]; [by left|right; lia]. Qed.
End fields.

(** *** Declarations *)

Section declarations.
Context (cur : NodeId) (fuel : nat).
Abbreviation fine m := (parses cur fuel 1 m).

Lemma namestring_parses {B} k (h : Namestring -> M Parser (option B)) :
  (forall n, parses cur fuel k (h n)) -> parses cur fuel k (obind namestring h).
Proof. intros. apply (parses_obind _ _ _ namestring); [apply parses_reads, eats_reads, namestring_eats|done]. Qed.

Lemma next_parses {B} k (h : Z -> M Parser (option B)) :
  (forall b, parses cur fuel k (h b)) -> parses cur fuel k (obind next h).
Proof. intros. apply (parses_obind _ _ _ next); [apply parses_reads, eats_reads, next_eats|done]. Qed.

Lemma pkg_length_parses {B} k (h : Z * Z -> M Parser (option B)) :
  (forall l, parses cur fuel k (h l)) -> parses cur fuel k (obind pkg_length h).
Proof. intros. apply (parses_obind _ _ _ pkg_length); [apply parses_reads, eats_reads, pkg_length_eats|done]. Qed.

Lemma value_parses {B} (h : Evaluatable -> M Parser (option B)) :
  (forall e, fine (h e)) -> fine (obind (term_value fuel cur) h).
Proof.
  intros. apply (parses_obind _ _ _ (term_value fuel cur)); [|done]. apply term_value_parses.
  intros op. apply (parses_more _ _ 1); [lia|]. apply data_reference_parses.
Qed.

Lemma get_obind {B} k n (h : NodeId -> M Parser (option B)) :
  (forall c, parses cur fuel k (h c)) -> parses cur fuel k (obind (get cur n) h).
Proof. intros. apply (parses_obind _ _ _ (get cur n)); [apply get_parses|done]. Qed.
End declarations.
End safe.

#[export] Hint Resolve declare_parses parses_ret field_list_parses parses_slice payload_length_reads
  sub_reads read_reads : aml.

(** One step of a declaration's parser. *)
Ltac fine_step :=
  first
    [ apply namestring_parses; intro | apply next_parses; intro | apply pkg_length_parses; intro
    | apply value_parses; intro | apply get_obind; intro
    | apply parses_rbind; [solve [eauto with aml]|intro]
    | apply parses_slice
    | match goal with |- parses _ _ _ _ (match ?x with _ => _ end) => destruct x end
    | solve [eauto with aml] ].

Section declared.
Context (nf : Prop) (cur : NodeId) (fuel : nat).
Abbreviation fine m := (parses nf cur fuel 1 m).

Lemma alias_parses : fine (alias_parse cur).
Proof. unfold alias_parse. repeat fine_step. Qed.

Lemma name_parses : fine (name_parse fuel cur).
Proof.
  unfold name_parse. apply namestring_parses. intros n.
  apply (parses_obind _ _ _ _ (data_ref fuel cur)); [|intros; apply declare_parses].
  apply data_ref_parses; intros op.
  - apply (parses_more _ _ _ 1); [lia|]. apply data_reference_parses.
  - apply (parses_more _ _ _ (need op)); [destruct op; simpl; lia|]. apply data_reference_parses.
Qed.

Lemma bank_field_parses : fine (bank_field_parse fuel cur).
Proof. unfold bank_field_parse. repeat fine_step. Qed.
Lemma create_fixed_parses f : fine (create_fixed_parse fuel cur f).
Proof. unfold create_fixed_parse. repeat fine_step. Qed.
Lemma create_arbitrary_parses : fine (create_arbitrary_parse fuel cur).
Proof. unfold create_arbitrary_parse. repeat fine_step. Qed.
Lemma data_region_parses : fine (data_region_parse fuel cur).
Proof. unfold data_region_parse. repeat fine_step. Qed.
Lemma op_region_parses : fine (op_region_parse fuel cur).
Proof. unfold op_region_parse. repeat fine_step. Qed.
Lemma field_parses : fine (field_parse fuel cur).
Proof. unfold field_parse. repeat fine_step. Qed.
Lemma method_parses : fine (method_parse cur).
Proof. unfold method_parse. repeat fine_step. Qed.
Lemma mutex_parses : fine (mutex_parse cur).
Proof. unfold mutex_parse. repeat fine_step. Qed.
Lemma external_parses : fine (external_parse cur).
Proof. unfold external_parse. repeat fine_step. Qed.
Lemma event_parses : fine (event_parse cur).
Proof. unfold event_parse. repeat fine_step. Qed.

(** What follows a declaration may have the new node as its current node. *)
Lemma inserted_parses {B} n o (h : NodeId -> M Parser (option B)) :
  (forall c s, at_node cur s -> at_node c s -> enough nf fuel 1 (code s) ->
    safe nf (h c) s (fun _ s' => moves s s')) ->
  fine (obind (get_or_insert cur n o) h).
Proof.
  intros Hh s Hn He. apply safe_bind. eapply safe_mono; [by apply get_or_insert_safe|].
  intros [c|] s1 (Hm & Hc & Hv); [|done].
  eapply safe_mono; [apply Hh; [by eapply at_node_moves| |by rewrite Hc]|].
  - split; [apply Hm|by apply Hv].
  - intros r s2 ?. by eapply moves_trans.
Qed.

Section lists.
Context (terms objects : NodeId -> M Parser (option unit)).
Hypothesis terms_parses : forall c, parses nf c fuel 1 (terms c).
Hypothesis objects_parses : forall c, parses nf c fuel 1 (objects c).

Lemma sized_parses l n (h : Z -> M Parser (option unit)) c :
  (forall size, parses nf c fuel 1 (h size)) ->
  parses nf c fuel 1 (bind (payload_length l) (fun size => bind (sub size n) h)).
Proof. intros. repeat (apply parses_rbind; [eauto with aml|intro]). done. Qed.

Lemma scope_parses o : fine (scope_parse terms o cur).
Proof.
  unfold scope_parse. do 2 fine_step. apply inserted_parses. intros c s _. revert s. apply sized_parses.
  intros size. apply parses_slice, (parses_obind _ _ _ _ (terms c)); [done|]. intros. apply parses_ret.
Qed.

Lemma power_res_parses : fine (power_res_parse terms cur).
Proof.
  unfold power_res_parse. do 3 fine_step.
  apply (parses_obind _ _ _ _ (read_le 2)); [apply parses_reads, read_le_reads|]. intros order.
  apply inserted_parses. intros c s _. revert s. apply sized_parses. intros size.
  apply parses_rbind; [eauto with aml|]. intros size'.
  apply parses_slice, (parses_obind _ _ _ _ (terms c)); [done|]. intros. apply parses_ret.
Qed.

Lemma processor_parses : fine (processor_parse objects cur).
Proof.
  unfold processor_parse. do 2 fine_step. apply inserted_parses. intros c s _. revert s. apply sized_parses.
  intros size. apply parses_slice, next_parses. intros _. apply parses_rbind; [eauto with aml|]. intros _.
  apply next_parses. intros _. apply (parses_obind _ _ _ _ (objects c)); [done|]. intros. apply parses_ret.
Qed.

Lemma object_parses op : fine (object_parse fuel terms objects cur op).
Proof.
  destruct op; cbn [object_parse];
    first [ apply parses_ret | apply alias_parses | apply name_parses | apply scope_parses
          | apply bank_field_parses | apply create_fixed_parses | apply create_arbitrary_parses
          | apply data_region_parses | apply op_region_parses | apply field_parses | apply method_parses
          | apply mutex_parses | apply external_parses | apply event_parses | apply power_res_parses
          | apply processor_parses ].
Qed.
End lists.
End declared.

Lemma lists_parse nf fuel cur :
  parses nf cur fuel 1 (term_list fuel cur) /\ parses nf cur fuel 1 (object_list fuel cur).
Proof.
  revert cur. induction fuel as [|fuel IH]; intros cur.
  { split; intros s _ [?|[_ ?]]; [done|lia|done|lia]. }
  assert (forall op, parses nf cur (S fuel) 3 (object_parse fuel (term_list fuel) (object_list fuel) cur op)) as Ho.
  { intros op. apply (parses_more _ _ _ 2); [lia|]. apply parses_succ, object_parses; intros c; apply IH. }
  assert (forall m, parses nf cur fuel 1 m -> parses nf cur (S fuel) 1 (bind opcode_ok (fun op =>
    match op with
    | None => ret (Some tt)
    | Some op => bind (object_parse fuel (term_list fuel) (object_list fuel) cur op)
        (fun r => match r with Some _ => m | None => ret (Some tt) end)
    end))) as Hall.
  { intros m Hm s Hn He. apply safe_bind. eapply safe_mono; [apply opcode_ok_eats|].
    intros [op|] s1 (Ht & Hs & Hl); [|by apply (read_moves cur)].
    eapply (parses_safe _ cur (S fuel) 3); [|done|by apply (read_moves cur)|by eapply enough_strict; eauto].
    apply parses_bind; [apply Ho|]. intros [?|]; [|apply parses_ret].
    apply (parses_more _ _ _ 2); [lia|]. by apply parses_succ. }
  split; cbn [term_list object_list]; apply Hall, IH.
Qed.

Lemma parse_safe nf s :
  at_node ROOT s -> nf \/ quiet (code s) -> safe nf parse s (fun _ s' => moves s s').
Proof.
  intros Hn Hq. unfold parse. apply safe_bind. unfold safe at 1.
  change (gets code s) with (Ok (code s, s)). cbv iota beta.
  destruct (code s) as [|b l] eqn:Hc; [by apply moves_refl, Hn|]. destruct (_ || _ || _ || _); [done|].
  rewrite <- Hc. apply safe_bind. eapply safe_mono; [apply lists_parse; [done|]|by intros r s' ?].
  rewrite Hc. destruct Hq as [?|Hq]; [by left|right]. split; [done|]. unfold fuel_for. simpl. lia.
Qed.
