(* ===== verification/AmlCode.v ===== *)
(** * AML byte code as the parser reads it

    An encoder for the basic items of the byte code (opcodes, package lengths, names,
    data), and the proof that the functions of [Aml] read back what it writes and leave
    what follows alone. *)

From stdpp Require Import base tactics list.
From S2P Require Import Prelude CMonad Aml AmlTree AmlSafe.
Local Open Scope Z_scope.

(** ** The encoder *)

Definition op_bytes (op : Opcode) : list Z :=
  match op with
  | OpZero => [0x00] | OpOne => [0x01] | OpAlias => [0x06] | OpName => [0x08] | OpByte => [0x0A]
  | OpWord => [0x0B] | OpDword => [0x0C] | OpString => [0x0D] | OpQword => [0x0E]
  | OpScope => [0x10] | OpBuffer => [0x11] | OpPackage => [0x12] | OpVarPackage => [0x13]
  | OpMethod => [0x14] | OpExternal => [0x15] | OpLocal n => [0x60 + n] | OpArg n => [0x68 + n]
  | OpStore => [0x70] | OpRefOf => [0x71] | OpAdd => [0x72] | OpConcat => [0x73]
  | OpSubtract => [0x74] | OpIncrement => [0x75] | OpDecrement => [0x76] | OpMultiply => [0x77]
  | OpDivide => [0x78] | OpShiftLeft => [0x79] | OpShiftRight => [0x7A] | OpAnd => [0x7B]
  | OpNand => [0x7C] | OpOr => [0x7D] | OpNor => [0x7E] | OpXor => [0x7F] | OpNot => [0x80]
  | OpFindSetLeftBit => [0x81] | OpFindSetRightBit => [0x82] | OpDerefOf => [0x83]
  | OpConcatRes => [0x84] | OpMod => [0x85] | OpNotify => [0x86] | OpSizeOf => [0x87]
  | OpIndex => [0x88] | OpMatch => [0x89] | OpCreateDwordField => [0x8A]
  | OpCreateWordField => [0x8B] | OpCreateByteField => [0x8C] | OpCreateBitField => [0x8D]
  | OpObjectType => [0x8E] | OpCreateQwordField => [0x8F] | OpLand => [0x90] | OpLor => [0x91]
  | OpLNotEqual => [0x92; 0x93] | OpLLessEqual => [0x92; 0x94] | OpLGreaterEqual => [0x92; 0x95]
  | OpLEqual => [0x93] | OpLGreater => [0x94] | OpLLess => [0x95] | OpToBuffer => [0x96]
  | OpToDecimalString => [0x97] | OpToHexString => [0x98] | OpToInteger => [0x99]
  | OpToString => [0x9C] | OpCopyObject => [0x9D] | OpMid => [0x9E] | OpContinue => [0x9F]
  | OpIf => [0xA0] | OpElse => [0xA1] | OpWhile => [0xA2] | OpNoop => [0xA3] | OpReturn => [0xA4]
  | OpBreak => [0xA5] | OpBreakPoint => [0xCC] | OpOnes => [0xFF]
  | OpMutex => [0x5B; 0x01] | OpEvent => [0x5B; 0x02] | OpCondRefOf => [0x5B; 0x12]
  | OpCreateField => [0x5B; 0x13] | OpLoadTable => [0x5B; 0x1F] | OpLoad => [0x5B; 0x20]
  | OpStall => [0x5B; 0x21] | OpSleep => [0x5B; 0x22] | OpAcquire => [0x5B; 0x23]
  | OpSignal => [0x5B; 0x24] | OpWait => [0x5B; 0x25] | OpReset => [0x5B; 0x26]
  | OpRelease => [0x5B; 0x27] | OpFromBcd => [0x5B; 0x28] | OpRevision => [0x5B; 0x30]
  | OpDebug => [0x5B; 0x31] | OpFatal => [0x5B; 0x32] | OpTimer => [0x5B; 0x33]
  | OpOpRegion => [0x5B; 0x80] | OpField => [0x5B; 0x81] | OpDevice => [0x5B; 0x82]
  | OpProcessor => [0x5B; 0x83] | OpPowerRes => [0x5B; 0x84] | OpThermalZone => [0x5B; 0x85]
  | OpIndexField => [0x5B; 0x86] | OpBankField => [0x5B; 0x87] | OpDataRegion => [0x5B; 0x88]
  end.

Definition op_ok (op : Opcode) : bool :=
  match op with
  | OpLocal n => (0 <=? n) && (n <? 8)
  | OpArg n => (0 <=? n) && (n <? 7)
  | _ => true
  end.

(** The low [k] bytes of a number. *)
Fixpoint le_encode (k : nat) (n : Z) : list Z :=
  match k with O => [] | S k => n mod 256 :: le_encode k (n / 256) end.

(** A number in the format of a package length with [k] more bytes. *)
Definition len_encode (k : nat) (n : Z) : list Z :=
  match k with
  | O => [n]
  | _ => (Z.of_nat k * 64 + n mod 16) :: le_encode k (n / 16)
  end.
Definition len_fits (k : nat) (n : Z) : bool :=
  (0 <=? n) && match k with O => n <? 64 | _ => n <? 2 ^ (4 + 8 * Z.of_nat k) end.

Definition least_width (f : nat -> bool) : nat :=
  if f 0%nat then 0 else if f 1%nat then 1 else if f 2%nat then 2 else 3.

Definition number_encode (n : Z) : list Z := len_encode (least_width (fun k => len_fits k n)) n.

(** A package: its length counts the bytes of the length. *)
Definition pkg_size (p : Z) (k : nat) : Z := p + 1 + Z.of_nat k.
Definition pkg_width (p : Z) : nat := least_width (fun k => len_fits k (pkg_size p k)).
Definition pkg_head (p : Z) : list Z := len_encode (pkg_width p) (pkg_size p (pkg_width p)).
Definition blen (l : list Z) : Z := Z.of_nat (length l).
Definition pkg_encode (body : list Z) : list Z := pkg_head (blen body) ++ body.

Definition seg_ok (x : Name) : bool :=
  bool_decide (length x = 4%nat) && match x with b :: _ => lead_char b | [] => false end.
Definition path_ok (p : list Name) : bool := forallb seg_ok p && (length p <=? 255)%nat.
Definition path_encode (p : list Name) : list Z :=
  match p with
  | [] => [0]
  | [x] => x
  | [x; y] => 0x2E :: x ++ y
  | _ => 0x2F :: Z.of_nat (length p) :: mjoin p
  end.

Definition name_ok (n : Namestring) : bool :=
  path_ok (path_of n) && match n with Root _ => true | Relative level _ => (0 <=? level) && (level <? 256) end.
Definition name_encode (n : Namestring) : list Z :=
  match n with
  | Root p => 0x5C :: path_encode p
  | Relative level p => replicate (Z.to_nat level) 0x5E ++ path_encode p
  end.

(** Constant data. *)
Inductive AmlData : Type :=
| AZero | AOne | AOnes | ARevision
| AByte (n : Z) | AWord (n : Z) | ADword (n : Z) | AQword (n : Z)
| AString (s : list Z)
| ABuffer (b : list Z)
| APackage (l : list AmlData).

Definition data_op (d : AmlData) : Opcode :=
  match d with
  | AZero => OpZero | AOne => OpOne | AOnes => OpOnes | ARevision => OpRevision
  | AByte _ => OpByte | AWord _ => OpWord | ADword _ => OpDword | AQword _ => OpQword
  | AString _ => OpString | ABuffer _ => OpBuffer | APackage _ => OpPackage
  end.

Fixpoint data_args (d : AmlData) : list Z :=
  match d with
  | AZero | AOne | AOnes | ARevision => []
  | AByte n => [n]
  | AWord n => le_encode 2 n
  | ADword n => le_encode 4 n
  | AQword n => le_encode 8 n
  | AString s => s ++ [0]
  | ABuffer b => pkg_encode b
  | APackage l => pkg_encode (Z.of_nat (length l) :: flat_map (fun d => op_bytes (data_op d) ++ data_args d) l)
  end.
Definition data_encode (d : AmlData) : list Z := op_bytes (data_op d) ++ data_args d.

Fixpoint data_value (d : AmlData) : DataObject :=
  match d with
  | AZero => DInteger 0 | AOne => DInteger 1 | AOnes => DInteger (2 ^ 64 - 1)
  | ARevision => DRevision
  | AByte n | AWord n | ADword n | AQword n => DInteger n
  | AString s => DString s
  | ABuffer b => DBuffer b
  | APackage l => DPackage (map (fun d => ElementData (data_value d)) l)
  end.

Definition below (n m : Z) : bool := (0 <=? n) && (n <? m).
Definition pkg_ok (body : list Z) : bool := blen body + 4 <? 2 ^ 28.

Fixpoint data_ok (d : AmlData) : bool :=
  match d with
  | AZero | AOne | AOnes | ARevision => true
  | AByte n => below n 256
  | AWord n => below n (2 ^ 16)
  | ADword n => below n (2 ^ 32)
  | AQword n => below n (2 ^ 64)
  | AString s => forallb (fun b => negb (b =? 0)) s
  | ABuffer b => pkg_ok b
  | APackage l =>
    (length l <=? 255)%nat && forallb data_ok l &&
    pkg_ok (Z.of_nat (length l) :: flat_map data_encode l)
  end.

(** An argument of an operator: a constant, or an argument or local of a method. *)
Inductive AmlArg : Type := ArgData (d : AmlData) | ArgArg (n : Z) | ArgLocal (n : Z).

Definition arg_encode (a : AmlArg) : list Z :=
  match a with
  | ArgData d => data_encode d
  | ArgArg n => op_bytes (OpArg n)
  | ArgLocal n => op_bytes (OpLocal n)
  end.
Definition arg_ok (a : AmlArg) : bool :=
  match a with
  | ArgData d => data_ok d | ArgArg n => op_ok (OpArg n) | ArgLocal n => op_ok (OpLocal n)
  end.
Definition arg_value (a : AmlArg) : Evaluatable :=
  match a with
  | ArgData d => EData (data_value d) | ArgArg n => EBuiltin (Arg n) | ArgLocal n => EBuiltin (Local n)
  end.

(** ** Reading it back *)

(** Run the first action of a sequence with the equation [H]. *)
Ltac parse_step H := rewrite (bind_ok _ _ _ _ _ H); cbv beta iota.

Section reading.
Context (t : Tree).
Abbreviation st l := (mkParser l t).

Lemma next_read b l : next (st (b :: l)) = Ok (Some b, st l).
Proof. reflexivity. Qed.

Lemma opcode_read op l : op_ok op = true -> opcode_parse (st (op_bytes op ++ l)) = Ok (inl op, st l).
Proof.
  destruct op; intros Hop; try reflexivity; simpl in Hop; apply andb_true_iff in Hop as [H1 H2].
  - assert (n = 0 \/ n = 1 \/ n = 2 \/ n = 3 \/ n = 4 \/ n = 5 \/ n = 6 \/ n = 7) as Hn by lia.
    repeat (destruct Hn as [->|Hn]; [reflexivity|]). by subst n.
  - assert (n = 0 \/ n = 1 \/ n = 2 \/ n = 3 \/ n = 4 \/ n = 5 \/ n = 6) as Hn by lia.
    repeat (destruct Hn as [->|Hn]; [reflexivity|]). by subst n.
Qed.

Lemma opcode_ok_read op l : op_ok op = true -> opcode_ok (st (op_bytes op ++ l)) = Ok (Some op, st l).
Proof. intros H. unfold opcode_ok. by parse_step (opcode_read op l H). Qed.

Lemma read_app x n l : blen x = n -> read n (st (x ++ l)) = Ok (x, st l).
Proof.
  intros <-. unfold blen. rewrite read_run. cbn [code tree].
  rewrite (proj2 (Z.leb_le _ _)) by (rewrite length_app; lia).
  by rewrite Nat2Z.id, take_app_length, drop_app_length.
Qed.

Lemma slice_app {A} x n (p : M Parser (option A)) l r s :
  blen x = n -> p (st x) = Ok (r, s) -> slice n p (st (x ++ l)) = Ok (r, mkParser l (tree s)).
Proof.
  intros <- Hp. unfold slice, blen, gets, bind at 1, defined_if. cbn [code].
  rewrite (proj2 (Z.leb_le _ _)) by (rewrite length_app; lia). unfold ret, bind, set_code, modify. cbn [tree].
  by rewrite Nat2Z.id, take_app_length, drop_app_length, Hp.
Qed.

Lemma le_encode_length k n : length (le_encode k n) = k.
Proof. revert n. induction k as [|k IH]; intros n; simpl; [done|]. by rewrite IH. Qed.

Lemma le_encode_value k n : 0 <= n < 256 ^ Z.of_nat k -> le_bytes (le_encode k n) = n.
Proof.
  revert n. induction k as [|k IH]; intros n Hn; simpl; [change (256 ^ Z.of_nat 0) with 1 in Hn; lia|].
  unfold le_bytes in IH. rewrite Nat2Z.inj_succ, Z.pow_succ_r in Hn by lia.
  pose proof (Z.div_mod n 256 ltac:(lia)).
  rewrite IH; [lia|]. split; [apply Z.div_pos; lia|apply Z.div_lt_upper_bound; lia].
Qed.

Lemma read_le_read k n l :
  0 <= n < 256 ^ Z.of_nat k -> read_le (Z.of_nat k) (st (le_encode k n ++ l)) = Ok (Some n, st l).
Proof.
  intros Hn. unfold read_le.
  parse_step (read_app (le_encode k n) (Z.of_nat k) l (f_equal Z.of_nat (le_encode_length k n))).
  by rewrite le_encode_value.
Qed.

(** *** Package lengths *)

Lemma lor_above i a b : 0 <= a < 2 ^ i -> 0 <= i -> 0 <= b -> Z.lor a (Z.shiftl b i) = a + b * 2 ^ i.
Proof. intros. rewrite Z.lor_comm, lor_shiftl_add by lia. lia. Qed.

Lemma pkg_bytes_read i k acc v l :
  (i + k <= 3)%nat -> 0 <= acc < 2 ^ (4 + 8 * Z.of_nat i) -> 0 <= v < 256 ^ Z.of_nat k ->
  pkg_bytes i k acc (st (le_encode k v ++ l)) = Ok (Some (acc + v * 2 ^ (4 + 8 * Z.of_nat i)), st l).
Proof.
  revert i acc v. induction k as [|k IH]; intros i acc v Hi Ha Hv.
  { change (256 ^ Z.of_nat 0) with 1 in Hv. simpl. assert (v = 0) as -> by lia. by rewrite Z.mul_0_l, Z.add_0_r. }
  cbn [pkg_bytes le_encode app]. parse_step (next_read (v mod 256) (le_encode k (v / 256) ++ l)).
  rewrite Nat2Z.inj_succ, Z.pow_succ_r in Hv by lia.
  pose proof (Z.mod_pos_bound v 256 ltac:(lia)) as Hb.
  assert (2 ^ (4 + 8 * Z.of_nat (S i)) = 256 * 2 ^ (4 + 8 * Z.of_nat i)) as Hp.
  { replace (4 + 8 * Z.of_nat (S i)) with (8 + (4 + 8 * Z.of_nat i)) by lia. by rewrite Z.pow_add_r by lia. }
  assert (2 ^ (4 + 8 * Z.of_nat i) <= 2 ^ 20) as Hle by (apply Z.pow_le_mono_r; lia).
  assert (wrap 32 (Z.shiftl (v mod 256) (4 + Z.of_nat i * 8)) = Z.shiftl (v mod 256) (4 + 8 * Z.of_nat i)) as ->.
  { replace (4 + Z.of_nat i * 8) with (4 + 8 * Z.of_nat i) by lia. apply wrap_small.
    rewrite Z.shiftl_mul_pow2 by lia. nia. }
  rewrite lor_above by lia. rewrite IH; [|lia|nia|split; [apply Z.div_pos; lia|apply Z.div_lt_upper_bound; lia]].
  rewrite Hp. pose proof (Z.div_mod v 256 ltac:(lia)). do 3 f_equal. nia.
Qed.

Lemma pkg_length_read k n l :
  (k <= 3)%nat -> len_fits k n = true -> pkg_length (st (len_encode k n ++ l)) = Ok (Some (n, Z.of_nat k), st l).
Proof.
  unfold len_fits. rewrite andb_true_iff. intros Hk [H0 Hf].
  assert (0 <= n) by lia. clear H0. unfold pkg_length. destruct k as [|k].
  - cbn [len_encode app]. parse_step (next_read n l).
    rewrite Z.shiftr_div_pow2, Z.div_small by (change (2 ^ 6) with 64; lia).
    simpl. change 63 with (Z.ones 6). rewrite Z.land_ones, Z.mod_small by lia. done.
  - pose proof (Z.mod_pos_bound n 16 ltac:(lia)) as Hm. set (b := Z.of_nat (S k) * 64 + n mod 16).
    assert (Z.shiftr b 6 = Z.of_nat (S k)) as Hs.
    { unfold b. rewrite Z.shiftr_div_pow2 by lia. change (2 ^ 6) with 64.
      rewrite Z.div_add_l, Z.div_small; lia. }
    assert (Z.land b 63 = n mod 16) as Hl.
    { unfold b. change 63 with (Z.ones 6). rewrite Z.land_ones by lia. change (2 ^ 6) with 64.
      rewrite Z.add_comm, Z.mod_add, Z.mod_small; lia. }
    unfold len_encode. fold b. cbn [app].
    parse_step (next_read b (le_encode (S k) (n / 16) ++ l)). cbv zeta.
    rewrite Hs, Hl, Nat2Z.id. rewrite Z.pow_add_r in Hf by lia. rewrite Z.pow_mul_r in Hf by lia.
    change (2 ^ 8) with 256 in Hf. change (2 ^ 4) with 16 in Hf.
    assert (pkg_bytes 0 (S k) (n mod 16) (st (le_encode (S k) (n / 16) ++ l)) = Ok (Some n, st l)) as Hb.
    { rewrite pkg_bytes_read; [|lia|change (2 ^ (4 + 8 * Z.of_nat 0)) with 16; lia|].
      - change (2 ^ (4 + 8 * Z.of_nat 0)) with 16. pose proof (Z.div_mod n 16 ltac:(lia)). do 3 f_equal. lia.
      - split; [apply Z.div_pos; lia|apply Z.div_lt_upper_bound; [lia|by apply Z.ltb_lt]]. }
    by parse_step Hb.
Qed.

Lemma least_width_ok f : f 3%nat = true -> f (least_width f) = true /\ (least_width f <= 3)%nat.
Proof.
  intros H3. unfold least_width.
  destruct (f 0%nat) eqn:?; [auto|]. destruct (f 1%nat) eqn:?; [auto|]. destruct (f 2%nat) eqn:?; auto.
Qed.

Lemma number_read n l :
  below n (2 ^ 28) = true -> exists k, pkg_length (st (number_encode n ++ l)) = Ok (Some (n, k), st l).
Proof.
  intros Hn. destruct (least_width_ok (fun k => len_fits k n)) as [Hf Hk]; [exact Hn|].
  eexists. by apply pkg_length_read.
Qed.

Definition pkg_len (p : Z) : Z * Z := (pkg_size p (pkg_width p), Z.of_nat (pkg_width p)).

Lemma pkg_head_read p l :
  0 <= p -> p + 4 < 2 ^ 28 -> pkg_length (st (pkg_head p ++ l)) = Ok (Some (pkg_len p), st l).
Proof.
  intros H0 Hp. destruct (least_width_ok (fun k => len_fits k (pkg_size p k))) as [Hf Hk].
  { apply andb_true_iff. unfold pkg_size. split; [apply Z.leb_le|apply Z.ltb_lt]; simpl; lia. }
  by apply pkg_length_read.
Qed.

Lemma sub_ok a b s : b <= a -> sub a b s = Ok (a - b, s).
Proof. intros H. unfold sub, defined_if. by rewrite (proj2 (Z.leb_le _ _) H). Qed.

Lemma payload_length_ok p s : 0 <= p -> payload_length (pkg_len p) s = Ok (p, s).
Proof.
  intros H. unfold payload_length, pkg_len, pkg_size. cbn [fst snd].
  parse_step (sub_ok (p + 1 + Z.of_nat (pkg_width p)) (Z.of_nat (pkg_width p)) s ltac:(lia)).
  rewrite sub_ok by lia. do 2 f_equal. lia.
Qed.

Lemma parse_buffer_read b l : pkg_ok b = true -> parse_buffer (st (pkg_encode b ++ l)) = Ok (Some b, st l).
Proof.
  unfold pkg_ok, pkg_encode, parse_buffer. intros Hb. assert (0 <= blen b) by (unfold blen; lia).
  rewrite <- app_assoc. parse_step (pkg_head_read (blen b) (b ++ l) ltac:(lia) ltac:(lia)).
  parse_step (payload_length_ok (blen b) (st (b ++ l)) ltac:(lia)).
  by parse_step (read_app b _ l eq_refl).
Qed.

(** *** Names *)

Lemma seg_ok_inv x : seg_ok x = true -> length x = 4%nat /\ exists b r, x = b :: r /\ lead_char b = true.
Proof.
  unfold seg_ok. rewrite andb_true_iff. intros [H1 H2]. apply bool_decide_eq_true in H1.
  split; [done|]. destruct x as [|b r]; [done|]. eauto.
Qed.

Lemma segs_length p : forallb seg_ok p = true -> length (mjoin p) = (4 * length p)%nat.
Proof.
  induction p as [|x p IH]; simpl; [done|]. rewrite andb_true_iff. intros [Hx Hp].
  apply seg_ok_inv in Hx as [Hx _]. rewrite length_app, IH, Hx by done. lia.
Qed.

Lemma chunks4_join p : forallb seg_ok p = true -> chunks4 (length p) (mjoin p) = p.
Proof.
  induction p as [|x p IH]; simpl; [done|]. rewrite andb_true_iff. intros [Hx Hp].
  apply seg_ok_inv in Hx as [Hx _]. by rewrite take_app_length', drop_app_length', IH.
Qed.

Lemma lead_char_not b : lead_char b = true -> b <> 0 /\ b <> 0x2E /\ b <> 0x2F /\ b <> 0x5C /\ b <> 0x5E.
Proof. unfold lead_char. lia. Qed.

Lemma lead_char_eqb b : lead_char b = true ->
  (b =? 0) = false /\ (b =? 0x2E) = false /\ (b =? 0x2F) = false /\ (b =? 0x5C) = false /\ (b =? 0x5E) = false.
Proof. intros H%lead_char_not. lia. Qed.

(** What a name begins with. *)
Lemma path_head p : path_ok p = true ->
  exists b r, path_encode p = b :: r /\ (b =? 0x5E) = false /\ (b =? 0x5C) = false.
Proof.
  unfold path_ok. rewrite andb_true_iff. intros [Hp _]. destruct p as [|x [|y [|z p]]]; simpl; [by eauto| |by eauto..].
  simpl in Hp. rewrite andb_true_r in Hp. apply seg_ok_inv in Hp as (_ & b & r & -> & Hb).
  apply lead_char_eqb in Hb as (? & ? & ? & ? & ?). eauto.
Qed.

Lemma first_read b l : first (st (b :: l)) = Ok (Some b, st (b :: l)).
Proof. reflexivity. Qed.

Lemma path_read p l : path_ok p = true -> namepath (st (path_encode p ++ l)) = Ok (Some p, st l).
Proof.
  unfold path_ok. rewrite andb_true_iff. intros [Hp Hl]. unfold namepath.
  pose proof (segs_length p Hp) as Hlen. pose proof (chunks4_join p Hp) as Hc.
  destruct p as [|x [|y [|z p]]].
  - done.
  - simpl in Hp. rewrite andb_true_r in Hp. pose proof (seg_ok_inv x Hp) as (Hx & b & r & -> & Hb).
    pose proof (lead_char_eqb b Hb) as (H1 & H2 & H3 & _). cbn [path_encode app].
    parse_step (first_read b (r ++ l)). rewrite H1, H2, H3, Hb.
    parse_step (read_app (b :: r) 4 l ltac:(unfold blen; rewrite Hx; done)).
    replace (mjoin [b :: r]) with (b :: r) in Hc by (simpl; by rewrite app_nil_r).
    change (length [b :: r]) with 1%nat in Hc. by rewrite Hc.
  - cbn [path_encode app]. parse_step (first_read 0x2E ((x ++ y) ++ l)). change (0x2E =? 0) with false.
    change (0x2E =? 0x2E) with true. cbv iota. parse_step (next_read 0x2E ((x ++ y) ++ l)).
    replace (mjoin [x; y]) with (x ++ y) in Hc, Hlen by (simpl; by rewrite app_nil_r).
    change (length [x; y]) with 2%nat in Hc, Hlen.
    parse_step (read_app (x ++ y) 8 l ltac:(unfold blen; rewrite Hlen; done)). by rewrite Hc.
  - set (q := x :: y :: z :: p) in *. change (path_encode q) with (0x2F :: Z.of_nat (length q) :: mjoin q).
    cbn [app]. parse_step (first_read 0x2F (Z.of_nat (length q) :: mjoin q ++ l)).
    change (0x2F =? 0) with false. change (0x2F =? 0x2E) with false. change (0x2F =? 0x2F) with true. cbv iota.
    parse_step (next_read 0x2F (Z.of_nat (length q) :: mjoin q ++ l)).
    parse_step (next_read (Z.of_nat (length q)) (mjoin q ++ l)).
    parse_step (read_app (mjoin q) (Z.of_nat (length q) * 4) l ltac:(unfold blen; rewrite Hlen; lia)).
    by rewrite Nat2Z.id, Hc.
Qed.

Lemma carets_read k level b r :
  (b =? 0x5E) = false -> 0 <= level -> level + Z.of_nat k < 256 ->
  carets (replicate k 0x5E ++ b :: r) level (st (replicate k 0x5E ++ b :: r)) = Ok (level + Z.of_nat k, st (b :: r)).
Proof.
  intros Hb. revert level. induction k as [|k IH]; intros level H0 Hk.
  - cbn [replicate app carets]. rewrite Hb. unfold ret. do 2 f_equal. lia.
  - cbn [replicate app carets]. change (0x5E =? 0x5E) with true. cbv iota.
    unfold defined_if at 1. rewrite (proj2 (Z.ltb_lt _ _)) by lia. unfold bind, ret, set_code, modify.
    cbn [tree]. rewrite IH by lia. do 2 f_equal. lia.
Qed.

Lemma name_read n l : name_ok n = true -> namestring (st (name_encode n ++ l)) = Ok (Some n, st l).
Proof.
  unfold name_ok. rewrite andb_true_iff. intros [Hp Hn]. unfold namestring.
  pose proof (path_head _ Hp) as (b & r & He & Hb1 & Hb2). pose proof (path_read _ l Hp) as Hr.
  destruct n as [p|level p]; cbn [path_of name_encode] in *.
  - cbn [app]. rewrite (bind_ok (gets code) _ _ _ _ eq_refl). cbn [code].
    parse_step (carets_read 0 0 0x5C (path_encode p ++ l) eq_refl ltac:(lia) ltac:(lia)).
    parse_step (first_read 0x5C (path_encode p ++ l)). change (0x5C =? 0x5C) with true. cbv iota.
    parse_step (next_read 0x5C (path_encode p ++ l)). by parse_step Hr.
  - rewrite (bind_ok (gets code) _ _ _ _ eq_refl). cbn [code]. rewrite <- app_assoc. rewrite He in Hr |- *. cbn [app] in *.
    pose proof (carets_read (Z.to_nat level) 0 b (r ++ l) Hb1 ltac:(lia) ltac:(lia)) as Hc. parse_step Hc.
    parse_step (first_read b (r ++ l)). rewrite Hb2. parse_step Hr. by rewrite Z.add_0_l, Z2Nat.id by lia.
Qed.

Lemma name_length n : name_ok n = true -> blen (name_encode n) = bytecode_length n.
Proof.
  unfold name_ok, blen, path_ok. rewrite !andb_true_iff. intros [[Hp _] Hn]. pose proof (segs_length _ Hp) as Hl.
  assert (Z.of_nat (length (path_encode (path_of n))) = path_bytecode_length (path_of n)) as H.
  { unfold path_bytecode_length. destruct (path_of n) as [|x [|y [|z p]]]; simpl in Hl |- *; [done| | |];
      rewrite ?app_nil_r, ?length_app in *; simpl; rewrite ?length_app; lia. }
  destruct n as [p|level p]; cbn [name_encode path_of bytecode_length] in *.
  - simpl. lia.
  - rewrite length_app, length_replicate. lia.
Qed.

(** *** Data *)

Lemma until_zero_app s l : forallb (fun b => negb (b =? 0)) s = true -> until_zero (s ++ 0 :: l) = (s, l).
Proof.
  induction s as [|b s IH]; simpl; [done|]. rewrite andb_true_iff, negb_true_iff. intros [-> Hs]. by rewrite IH.
Qed.

Lemma string_read s l :
  forallb (fun b => negb (b =? 0)) s = true -> string_bytes (st ((s ++ [0]) ++ l)) = Ok (Some (DString s), st l).
Proof.
  intros Hs. unfold string_bytes. rewrite <- app_assoc. cbn [app].
  rewrite (bind_ok (gets code) _ _ _ _ eq_refl). cbn [code]. by rewrite until_zero_app.
Qed.

Lemma data_op_ok d : op_ok (data_op d) = true.
Proof. by destruct d. Qed.

Lemma below_inv n m : below n m = true -> 0 <= n < m.
Proof. unfold below. lia. Qed.

Section elements.
Context (cur : NodeId) (data : Opcode -> M Parser (option DataObject))
  (reference : Opcode -> M Parser (option ReferenceType)).

Lemma data_ref_read d l :
  data (data_op d) (st (data_args d ++ l)) = Ok (Some (data_value d), st l) ->
  data_ref_with data reference (st (data_encode d ++ l)) = Ok (Some (inl (data_value d)), st l).
Proof.
  intros Hd. unfold data_ref_with, data_encode. rewrite <- app_assoc.
  parse_step (opcode_ok_read _ (data_args d ++ l) (data_op_ok d)). by parse_step Hd.
Qed.

Lemma elements_read ds l :
  (forall d l, d ∈ ds -> data (data_op d) (st (data_args d ++ l)) = Ok (Some (data_value d), st l)) ->
  elements_with cur data reference (length ds) (st (flat_map data_encode ds ++ l)) =
    Ok (Some (map (fun d => ElementData (data_value d)) ds), st l).
Proof.
  induction ds as [|d ds IH]; intros Hd; [done|]. cbn [length elements_with flat_map].
  assert (element_with cur data reference (st ((data_encode d ++ flat_map data_encode ds) ++ l)) =
    Ok (Some (ElementData (data_value d)), st (flat_map data_encode ds ++ l))) as He.
  { unfold element_with. rewrite <- app_assoc. 
    by parse_step (data_ref_read d (flat_map data_encode ds ++ l) (Hd d _ ltac:(left))). }
  parse_step He. rewrite (bind_ok _ _ _ _ _ (IH ltac:(intros; apply Hd; by right))). done.
Qed.

Lemma package_read ds l :
  (length ds <= 255)%nat -> pkg_ok (Z.of_nat (length ds) :: flat_map data_encode ds) = true ->
  (forall d l, d ∈ ds -> data (data_op d) (st (data_args d ++ l)) = Ok (Some (data_value d), st l)) ->
  package_with cur data reference (st (pkg_encode (Z.of_nat (length ds) :: flat_map data_encode ds) ++ l)) =
    Ok (Some (map (fun d => ElementData (data_value d)) ds), st l).
Proof.
  unfold pkg_ok. intros Hl Hp Hd. set (body := flat_map data_encode ds) in *. set (n := Z.of_nat (length ds)) in *.
  unfold package_with, pkg_encode. rewrite <- app_assoc. cbn [app].
  assert (blen (n :: body) = blen body + 1) as Hb by (unfold blen; simpl; lia). rewrite Hb in *.
  assert (0 <= blen body) by (unfold blen; lia).
  parse_step (pkg_head_read (blen body + 1) (n :: body ++ l) ltac:(lia) ltac:(lia)).
  parse_step (next_read n (body ++ l)).
  parse_step (payload_length_ok (blen body + 1) (st (body ++ l)) ltac:(lia)).
  parse_step (sub_ok (blen body + 1) 1 (st (body ++ l)) ltac:(lia)). unfold n. rewrite Nat2Z.id.
  rewrite (slice_app body _ _ l (Some (map (fun d => ElementData (data_value d)) ds)) (st [])); [done|lia|].
  rewrite <- (app_nil_r body). by apply elements_read.
Qed.
End elements.

Lemma flat_map_length (ds : list AmlData) d :
  d ∈ ds -> (length (data_encode d) <= length (flat_map data_encode ds))%nat.
Proof.
  induction 1 as [d ds|d e ds _ IH]; simpl; rewrite length_app; lia.
Qed.

Lemma forallb_elem {A} (f : A -> bool) l x : forallb f l = true -> x ∈ l -> f x = true.
Proof. intros Hf Hx. rewrite forallb_forall in Hf. apply Hf. by apply list_elem_of_In. Qed.

Lemma data_read fuel cur d l :
  data_ok d = true -> (length (data_encode d) <= fuel)%nat ->
  data_object fuel cur (data_op d) (st (data_args d ++ l)) = Ok (Some (data_value d), st l).
Proof.
  revert d l. induction fuel as [|fuel IH]; intros d l Hd Hf.
  { assert (0 < length (op_bytes (data_op d)))%nat by (destruct d; simpl; lia).
    unfold data_encode in Hf. rewrite length_app in Hf. lia. }
  destruct d as [| | | |n|n|n|n|s|b|ds]; cbn [data_op data_object data_args data_value]; try done.
  - apply below_inv in Hd. by rewrite (bind_ok _ _ _ _ _ (read_le_read 2 n l Hd)).
  - apply below_inv in Hd. by rewrite (bind_ok _ _ _ _ _ (read_le_read 4 n l Hd)).
  - apply below_inv in Hd. by rewrite (bind_ok _ _ _ _ _ (read_le_read 8 n l Hd)).
  - by apply string_read.
  - by rewrite (bind_ok _ _ _ _ _ (parse_buffer_read b l Hd)).
  - cbn [data_ok] in Hd. apply andb_true_iff in Hd as [[Hn%Nat.leb_le Hs]%andb_true_iff Hp].
    assert (forall d l, d ∈ ds -> data_object fuel cur (data_op d) (st (data_args d ++ l)) = Ok (Some (data_value d), st l)) as Hds.
    { intros d l' Hd. apply IH; [by eapply forallb_elem|]. apply flat_map_length in Hd.
      unfold data_encode in Hf at 1. cbn [data_op op_bytes data_args pkg_encode] in Hf.
      unfold pkg_encode in Hf. rewrite !length_app in Hf. cbn [length] in Hf. fold data_encode in Hf.
      change (flat_map (fun d => op_bytes (data_op d) ++ data_args d) ds) with (flat_map data_encode ds) in Hf. lia. }
    by rewrite (bind_ok _ _ _ _ _ (package_read cur _ (reference_one fuel cur) ds l Hn Hp Hds)).
Qed.

Lemma data_ref_ok fuel cur d l :
  data_ok d = true -> (length (data_encode d) <= fuel)%nat ->
  data_ref fuel cur (st (data_encode d ++ l)) = Ok (Some (inl (data_value d)), st l).
Proof. intros Hd Hf. apply data_ref_read. by apply data_read. Qed.

Lemma arg_read fuel cur a l :
  arg_ok a = true -> (length (arg_encode a) <= fuel)%nat ->
  term_value fuel cur (st (arg_encode a ++ l)) = Ok (Some (arg_value a), st l).
Proof.
  intros Ha Hf. unfold term_value, term_value_with.
  assert (term_arg_with cur (data_object fuel cur) (st (arg_encode a ++ l)) =
    Ok (inl match a with ArgData d => TDataObject (data_value d) | ArgArg n => TArg n | ArgLocal n => TLocal n end,
        st l)) as H.
  { unfold term_arg_with. rewrite (bind_ok (gets code) _ _ _ _ eq_refl). destruct a as [d|n|n]; cbn [arg_encode arg_ok] in *.
    - unfold data_encode. rewrite <- app_assoc.
      parse_step (opcode_read _ (data_args d ++ l) (data_op_ok d)). by parse_step (data_read fuel cur d l Ha Hf).
    - parse_step (opcode_read _ l Ha). by destruct fuel; [simpl in Hf; lia|].
    - parse_step (opcode_read _ l Ha). by destruct fuel; [simpl in Hf; lia|]. }
  parse_step H. by destruct a.
Qed.
End reading.
