(* ===== verification/AmlLoad.v ===== *)
(** * Loading a table is performing its declarations

    The declarations of a table as values, their byte code, and what they do to the name
    space when they are performed one after the other.  Parsing the byte code performs
    them: [terms_performed]. *)

From stdpp Require Import base tactics list.
From S2P Require Import Prelude CMonad Aml AmlTree AmlSafe AmlCode.
Local Close Scope c_scope.
Local Open Scope Z_scope.

(** ** Declarations *)

Inductive ScopeKind : Type := KScope | KDevice | KThermalZone.
Inductive CreateWidth : Type := WBit | WByte | WWord | WDword | WQword.

Inductive FieldItem : Type :=
| FReserved (n : Z)
| FAccess (flags : Z)
| FNamed (x : Name) (bits : Z).

Inductive Term : Type :=
| TmName (n : Namestring) (d : AmlData)
| TmAlias (n target : Namestring)
| TmScope (k : ScopeKind) (n : Namestring) (body : list Term)
| TmPowerRes (n : Namestring) (level order : Z) (body : list Term)
| TmProcessor (n : Namestring) (id address len : Z) (body : list Term)
| TmMethod (n : Namestring) (flags : Z) (body : list Z)
| TmMutex (n : Namestring) (flags : Z)
| TmEvent (n : Namestring)
| TmExternal (n : Namestring) (type args : Z)
| TmOpRegion (n : Namestring) (space : Z) (offset len : AmlArg)
| TmDataRegion (n : Namestring) (signature oem_id table_id : AmlArg)
| TmCreate (w : CreateWidth) (source index : AmlArg) (n : Namestring)
| TmCreateField (source index bits : AmlArg) (n : Namestring)
| TmField (region : Namestring) (flags : Z) (items : list FieldItem)
| TmBankField (region bank : Namestring) (value : AmlArg) (flags : Z) (items : list FieldItem).

(** ** Byte code *)

Definition scope_op (k : ScopeKind) : Opcode :=
  match k with KScope => OpScope | KDevice => OpDevice | KThermalZone => OpThermalZone end.
Definition create_op (w : CreateWidth) : Opcode :=
  match w with
  | WBit => OpCreateBitField | WByte => OpCreateByteField | WWord => OpCreateWordField
  | WDword => OpCreateDwordField | WQword => OpCreateQwordField
  end.

Definition term_op (x : Term) : Opcode :=
  match x with
  | TmName _ _ => OpName | TmAlias _ _ => OpAlias | TmScope k _ _ => scope_op k
  | TmPowerRes _ _ _ _ => OpPowerRes | TmProcessor _ _ _ _ _ => OpProcessor
  | TmMethod _ _ _ => OpMethod | TmMutex _ _ => OpMutex | TmEvent _ => OpEvent
  | TmExternal _ _ _ => OpExternal | TmOpRegion _ _ _ _ => OpOpRegion
  | TmDataRegion _ _ _ _ => OpDataRegion | TmCreate w _ _ _ => create_op w
  | TmCreateField _ _ _ _ => OpCreateField | TmField _ _ _ => OpField
  | TmBankField _ _ _ _ _ => OpBankField
  end.

Definition item_encode (f : FieldItem) : list Z :=
  match f with
  | FReserved n => 0 :: number_encode n
  | FAccess flags => [1; flags]
  | FNamed x bits => x ++ number_encode bits
  end.

Fixpoint term_args (x : Term) : list Z :=
  let all := flat_map (fun x => op_bytes (term_op x) ++ term_args x) in
  match x with
  | TmName n d => name_encode n ++ data_encode d
  | TmAlias n target => name_encode n ++ name_encode target
  | TmScope _ n body => pkg_encode (name_encode n ++ all body)
  | TmPowerRes n level order body =>
    pkg_encode (name_encode n ++ level :: le_encode 2 order ++ all body)
  | TmProcessor n id address len body =>
    pkg_encode (name_encode n ++ id :: le_encode 4 address ++ len :: all body)
  | TmMethod n flags body => pkg_encode (name_encode n ++ flags :: body)
  | TmMutex n flags => name_encode n ++ [flags]
  | TmEvent n => name_encode n
  | TmExternal n type args => name_encode n ++ [type; args]
  | TmOpRegion n space offset len => name_encode n ++ space :: arg_encode offset ++ arg_encode len
  | TmDataRegion n a b c => name_encode n ++ arg_encode a ++ arg_encode b ++ arg_encode c
  | TmCreate _ source index n => arg_encode source ++ arg_encode index ++ name_encode n
  | TmCreateField source index bits n =>
    arg_encode source ++ arg_encode index ++ arg_encode bits ++ name_encode n
  | TmField region flags items =>
    pkg_encode (name_encode region ++ flags :: flat_map item_encode items)
  | TmBankField region bank value flags items =>
    pkg_encode (name_encode region ++ name_encode bank ++ arg_encode value ++
      flags :: flat_map item_encode items)
  end.
Definition term_encode (x : Term) : list Z := op_bytes (term_op x) ++ term_args x.
Definition terms_encode (xs : list Term) : list Z := flat_map term_encode xs.

(** A field's name is not taken for one of the other items; the running bit position
    stays below 2^64 because a field list has less than 2^28 bytes. *)
Definition item_ok (f : FieldItem) : bool :=
  match f with
  | FReserved n => below n (2 ^ 28)
  | FAccess _ => true
  | FNamed x bits => seg_ok x && below bits (2 ^ 28)
  end.
Definition items_ok (items : list FieldItem) : bool :=
  forallb item_ok items && (Z.of_nat (length items) <? 2 ^ 28).

Fixpoint term_ok (x : Term) : bool :=
  (pkg_ok (term_args x) &&
  match x with
  | TmName n d => name_ok n && data_ok d
  | TmAlias n target => name_ok n && name_ok target
  | TmScope _ n body => name_ok n && forallb term_ok body
  | TmPowerRes n _ order body => name_ok n && below order (2 ^ 16) && forallb term_ok body
  | TmProcessor n _ _ _ body => name_ok n && forallb term_ok body
  | TmMethod n _ _ | TmMutex n _ | TmEvent n | TmExternal n _ _ => name_ok n
  | TmOpRegion n _ offset len => name_ok n && arg_ok offset && arg_ok len
  | TmDataRegion n a b c => name_ok n && arg_ok a && arg_ok b && arg_ok c
  | TmCreate _ source index n => arg_ok source && arg_ok index && name_ok n
  | TmCreateField source index bits n => arg_ok source && arg_ok index && arg_ok bits && name_ok n
  | TmField region _ items => name_ok region && items_ok items
  | TmBankField region bank value _ items => name_ok region && name_ok bank && arg_ok value && items_ok items
  end)%bool.

(** ** Performing declarations *)

Definition tree_get (t : Tree) (cur : NodeId) (n : Namestring) : option NodeId :=
  mjoin (get_from (S (length t)) t cur n).
Definition tree_insert (t : Tree) (cur : NodeId) (n : Namestring) (o : Object) : option (NodeId * Tree) :=
  mjoin (insert_from (S (length t)) t cur n o).
Definition tree_declare (t : Tree) (cur : NodeId) (n : Namestring) (o : Object) : option Tree :=
  snd <$> tree_insert t cur n o.

(** The items of a field; the state is the attributes, the bit position among them.  A
    field lies at the position after it. *)
Definition perform_item (cur : NodeId) (f : FieldItem) (a : FieldUnitAttribute) (t : Tree) :
    option (FieldUnitAttribute * Tree) :=
  match f with
  | FReserved n => Some (at_offset a (n * 8), t)
  | FAccess flags => a ← attribute_update a flags; Some (a, t)
  | FNamed x bits =>
    let a := at_offset a (bit_offset a + bits) in
    let unit := mkFieldUnit (operation_region a) (wrap 32 (bit_offset a)) bits (attr_access a)
      (lock_rule a) (attr_update a) in
    o ← match bank a with
        | Some (b, v) => (fun b => ObjBankField b v unit) <$> tree_get t cur b
        | None => Some (ObjFieldUnit unit)
        end;
    t ← tree_declare t cur (Relative 0 [x]) o;
    Some (a, t)
  end.

Definition scope_object (k : ScopeKind) : Object :=
  match k with KScope => ObjScope | KDevice => ObjDevice | KThermalZone => ObjThermalZone end.
Definition create_type (w : CreateWidth) : Evaluatable -> CreateFieldType :=
  match w with WBit => CfBit | WByte => CfByte | WWord => CfWord | WDword => CfDword | WQword => CfQword end.

(** Declarations up to the first one that fails. *)
Fixpoint perform_all (f : Term -> Tree -> option Tree) (xs : list Term) (t : Tree) : Tree :=
  match xs with
  | [] => t
  | x :: xs => match f x t with Some t => perform_all f xs t | None => t end
  end.

(** What the declarations do depends on what the items of a field list do. *)
Section perform.
Context (item : NodeId -> FieldItem -> FieldUnitAttribute -> Tree -> option (FieldUnitAttribute * Tree)).

Fixpoint items_with (cur : NodeId) (items : list FieldItem) (a : FieldUnitAttribute) (t : Tree) : Tree :=
  match items with
  | [] => t
  | f :: items =>
    match item cur f a t with Some (a, t) => items_with cur items a t | None => t end
  end.

(** Those inside of an object are performed at its node, and do not let it fail. *)
Fixpoint perform_with (cur : NodeId) (x : Term) (t : Tree) {struct x} : option Tree :=
  let inside n o body :=
    '(c, t) ← tree_insert t cur n o; Some (perform_all (perform_with c) body t) in
  match x with
  | TmName n d => tree_declare t cur n (ObjData (data_value d))
  | TmAlias n target => c ← tree_get t cur target; tree_declare t cur n (ObjAlias c)
  | TmScope k n body => inside n (scope_object k) body
  | TmPowerRes n level order body => inside n (ObjPowerResource level order) body
  | TmProcessor n _ _ _ body => inside n ObjProcessor body
  | TmMethod n flags body =>
    tree_declare t cur n (ObjMethod (Z.shiftr flags 4) (negb (Z.land flags 8 =? 0)) (Z.land flags 7) body)
  | TmMutex n flags => tree_declare t cur n (ObjMutex (Z.land flags 0x0F))
  | TmEvent n => tree_declare t cur n ObjEvent
  | TmExternal n type args => tree_declare t cur n (ObjExternal (external_type type) args)
  | TmOpRegion n space offset len =>
    tree_declare t cur n (ObjOperationRegion (region_space space) (arg_value offset) (arg_value len))
  | TmDataRegion n a b c =>
    tree_declare t cur n (ObjDataTableRegion (arg_value a) (arg_value b) (arg_value c))
  | TmCreate w source index n =>
    tree_declare t cur n (ObjCreateField (create_type w (arg_value index)) (arg_value source))
  | TmCreateField source index bits n =>
    tree_declare t cur n (ObjCreateField (CfArbitraryLength (arg_value index) (arg_value bits)) (arg_value source))
  | TmField region flags items =>
    r ← tree_get t cur region; a ← attribute_new r flags None; Some (items_with cur items a t)
  | TmBankField region bank value flags items =>
    r ← tree_get t cur region; a ← attribute_new r flags (Some (bank, arg_value value));
    Some (items_with cur items a t)
  end.
End perform.

(** What the parser does. *)
Abbreviation perform_items := (items_with perform_item).
Abbreviation perform := (perform_with perform_item).
Definition perform_terms (cur : NodeId) (xs : list Term) (t : Tree) : Tree := perform_all (perform cur) xs t.

(** ** Parsing performs *)

(** [m] consumes [x] and does to the name space what [o] says; when it fails it leaves
    the name space alone. *)
Definition performs (m : M Parser (option unit)) (x l : list Z) (t : Tree) (o : option Tree) : Prop :=
  match o with
  | Some t' => m (mkParser (x ++ l) t) = Ok (Some tt, mkParser l t')
  | None => exists l', m (mkParser (x ++ l) t) = Ok (None, mkParser l' t)
  end.

Section rules.
Context (cur : NodeId) (l : list Z) (t : Tree).
Abbreviation st l := (mkParser l t).

Lemma performs_step {A} (m : M Parser (option A)) h a x y o :
  m (st ((x ++ y) ++ l)) = Ok (Some a, st (y ++ l)) -> performs (h a) y l t o -> performs (obind m h) (x ++ y) l t o.
Proof. unfold performs. intros Hm H. rewrite (bind_ok _ _ _ _ _ Hm). done. Qed.

Lemma performs_bind {A} (m : M Parser A) h a x o :
  m (st (x ++ l)) = Ok (a, st (x ++ l)) -> performs (h a) x l t o -> performs (bind m h) x l t o.
Proof. unfold performs. intros Hm H. rewrite (bind_ok _ _ _ _ _ Hm). done. Qed.

Lemma performs_name h n y o :
  name_ok n = true -> performs (h n) y l t o -> performs (obind namestring h) (name_encode n ++ y) l t o.
Proof. intros Hn. apply performs_step. rewrite <- app_assoc. by apply name_read. Qed.

Lemma performs_last_name h n o :
  name_ok n = true -> performs (h n) [] l t o -> performs (obind namestring h) (name_encode n) l t o.
Proof. intros Hn Hh. rewrite <- (app_nil_r (name_encode n)). by apply performs_name. Qed.

Lemma performs_next h b y o : performs (h b) y l t o -> performs (obind next h) (b :: y) l t o.
Proof. by apply (performs_step next h b [b]). Qed.

Lemma performs_arg fuel h a y o :
  arg_ok a = true -> (length (arg_encode a) <= fuel)%nat ->
  performs (h (arg_value a)) y l t o -> performs (obind (term_value fuel cur) h) (arg_encode a ++ y) l t o.
Proof. intros Ha Hf. apply performs_step. rewrite <- app_assoc. by apply arg_read. Qed.

Lemma performs_last_arg fuel h a o :
  arg_ok a = true -> (length (arg_encode a) <= fuel)%nat ->
  performs (h (arg_value a)) [] l t o -> performs (obind (term_value fuel cur) h) (arg_encode a) l t o.
Proof. intros Ha Hf Hh. rewrite <- (app_nil_r (arg_encode a)). by apply performs_arg. Qed.

Lemma performs_pkg h body o :
  pkg_ok body = true -> performs (h (pkg_len (blen body))) body l t o ->
  performs (obind pkg_length h) (pkg_encode body) l t o.
Proof.
  unfold pkg_ok. intros Hb. apply performs_step. rewrite <- app_assoc. apply pkg_head_read; unfold blen in *; lia.
Qed.

Lemma performs_payload h p x o :
  0 <= p -> performs (h p) x l t o -> performs (bind (payload_length (pkg_len p)) h) x l t o.
Proof. intros Hp. by apply performs_bind, payload_length_ok. Qed.

Lemma performs_sub h a b x o : b <= a -> performs (h (a - b)) x l t o -> performs (bind (sub a b) h) x l t o.
Proof. intros Hab. by apply performs_bind, sub_ok. Qed.

Lemma performs_slice p x n s :
  blen x = n -> p (st x) = Ok (Some tt, s) -> performs (slice n p) x l t (Some (tree s)).
Proof. apply slice_app. Qed.

Lemma performs_slice_fails p x n s :
  blen x = n -> p (st x) = Ok (None, s) -> tree s = t -> performs (slice n p) x l t None.
Proof. intros Hn Hp <-. exists l. by apply slice_app. Qed.

Lemma performs_read h x y n o :
  blen x = n -> performs (h x) y l t o -> performs (bind (read n) h) (x ++ y) l t o.
Proof.
  unfold performs. intros Hn H. rewrite <- app_assoc. by rewrite (bind_ok _ _ _ _ _ (read_app t x n (y ++ l) Hn)).
Qed.

Lemma performs_last_read h x n o :
  blen x = n -> performs (h x) [] l t o -> performs (bind (read n) h) x l t o.
Proof. intros Hn Hh. rewrite <- (app_nil_r x) at 1. by apply performs_read. Qed.

(** *** The name space *)

Context (Ht : tree_ok t) (Hcur : (cur < length t)%nat).

Lemma get_run n c : get cur n (mkParser c t) = Ok (tree_get t cur n, mkParser c t).
Proof.
  unfold get, tree_get. rewrite (bind_ok (gets tree) _ _ _ _ eq_refl). cbn [tree].
  by destruct (get_from_total Ht (S (length t)) cur n Hcur) as (r & -> & _); [lia|].
Qed.

Lemma insert_run n o c :
  get_or_insert cur n o (mkParser c t) =
    Ok (fst <$> tree_insert t cur n o, mkParser c (default t (snd <$> tree_insert t cur n o))).
Proof.
  unfold get_or_insert, tree_insert. rewrite (bind_ok (gets tree) _ _ _ _ eq_refl). cbn [tree].
  by destruct (insert_from_ok t (S (length t)) cur n o Ht Hcur) as
    [->|[(? & -> & _)|(? & ? & -> & _)]]; [lia|..].
Qed.

Lemma tree_insert_ok n o c t' :
  tree_insert t cur n o = Some (c, t') -> tree_ok t' /\ (c < length t')%nat /\ grows t t'.
Proof.
  unfold tree_insert.
  destruct (insert_from_ok t (S (length t)) cur n o Ht Hcur) as
    [->|[(? & -> & ? & _)|(p & x & -> & Hp & Hx & _)]]; [lia|done| |]; simpl; intros [= <- <-].
  - repeat split; try done; try apply Ht. apply grows_refl.
  - split; [by apply add_tree_ok|]. split; [rewrite add_length by done; lia|apply add_grows].
Qed.

Lemma declare_performs n o : performs (declare cur n o) [] l t (tree_declare t cur n o).
Proof.
  unfold performs, declare, tree_declare. cbn [app].
  pose proof (insert_run n o l) as H. destruct (tree_insert t cur n o) as [[c t']|]; simpl in *.
  - by rewrite (bind_ok _ _ _ _ _ H).
  - exists l. by rewrite (bind_ok _ _ _ _ _ H).
Qed.

Lemma performs_get h n x (o : NodeId -> option Tree) :
  (forall c, performs (h c) x l t (o c)) -> performs (obind (get cur n) h) x l t (tree_get t cur n ≫= o).
Proof.
  intros H. pose proof (get_run n (x ++ l)) as Hg. destruct (tree_get t cur n) as [c|]; simpl.
  - specialize (H c). unfold performs in *. by rewrite (bind_ok _ _ _ _ _ Hg).
  - exists (x ++ l). by rewrite (bind_ok _ _ _ _ _ Hg).
Qed.

(** What follows an inserted node is parsed with the new name space. *)
Lemma performs_insert h n b x (o : NodeId -> Tree -> Tree) :
  (forall c t', tree_insert t cur n b = Some (c, t') -> performs (h c) x l t' (Some (o c t'))) ->
  performs (obind (get_or_insert cur n b) h) x l t ('(c, t') ← tree_insert t cur n b; Some (o c t')).
Proof.
  intros H. pose proof (insert_run n b (x ++ l)) as Hg. destruct (tree_insert t cur n b) as [[c t']|]; simpl in *.
  - specialize (H c t' eq_refl). simpl in H. by rewrite (bind_ok _ _ _ _ _ Hg).
  - exists (x ++ l). by rewrite (bind_ok _ _ _ _ _ Hg).
Qed.
End rules.

(** *** Fields *)

Section items.
Context (cur : NodeId).

Lemma seg_name_ok x : seg_ok x = true -> exists b r, x = b :: r /\ (b =? 0) = false /\ (b =? 1) = false /\
  ((b =? 2) || (b =? 3))%bool = false.
Proof.
  intros (_ & b & r & -> & Hb)%seg_ok_inv. exists b, r. split; [done|]. unfold lead_char in Hb.
  repeat split; lia.
Qed.

Definition item_room (a : FieldUnitAttribute) (n : Z) : Prop := 0 <= bit_offset a /\ bit_offset a + 2 ^ 28 * n < 2 ^ 64.

Lemma named_field_run t x bits a l :
  tree_ok t -> (cur < length t)%nat -> item_ok (FNamed x bits) = true -> item_room a 1 ->
  match perform_item cur (FNamed x bits) a t with
  | Some (a', t') => named_field cur a (mkParser (item_encode (FNamed x bits) ++ l) t) = Ok (Some a', mkParser l t')
  | None => exists l', named_field cur a (mkParser (item_encode (FNamed x bits) ++ l) t) = Ok (None, mkParser l' t)
  end.
Proof.
  intros Ht Hc [Hx Hb]%andb_true_iff Ho. apply seg_ok_inv in Hx as [Hx _].
  destruct (number_read t bits l Hb) as [w Hw]. apply below_inv in Hb. unfold item_room in Ho.
  unfold named_field. cbn [item_encode]. rewrite <- app_assoc.
  rewrite (bind_ok _ _ _ _ _ (read_app t x 4 (number_encode bits ++ l) ltac:(unfold blen; by rewrite Hx))).
  rewrite (bind_ok _ _ _ _ _ Hw). cbn [fst].
  assert (get_object a bits (mkParser l t) = Ok (mkFieldUnit (operation_region a) (wrap 32 (bit_offset a + bits)) bits
    (attr_access a) (lock_rule a) (attr_update a), at_offset a (bit_offset a + bits), mkParser l t)) as Hg.
  { unfold get_object, defined_if. rewrite (proj2 (Z.ltb_lt _ _)) by lia. unfold bind, ret.
    rewrite (wrap_small 32 bits); [done|]. split; [lia|]. apply Z.lt_trans with (2 ^ 28); lia. }
  rewrite (bind_ok _ _ _ _ _ Hg). cbv beta iota. cbn [perform_item operation_region bit_offset attr_access lock_rule attr_update bank at_offset].
  assert (forall o, match (t' ← tree_declare t cur (Relative 0 [x]) o; Some (at_offset a (bit_offset a + bits), t')) with
    | Some (a', t') => obind (get_or_insert cur (Relative 0 [x]) o) (fun _ => ret (Some (at_offset a (bit_offset a + bits))))
        (mkParser l t) = Ok (Some a', mkParser l t')
    | None => exists l', obind (get_or_insert cur (Relative 0 [x]) o) (fun _ => ret (Some (at_offset a (bit_offset a + bits))))
        (mkParser l t) = Ok (None, mkParser l' t)
    end) as Hadd.
  { intros o. pose proof (insert_run cur t Ht Hc (Relative 0 [x]) o l) as Hi. unfold tree_declare.
    destruct (tree_insert t cur (Relative 0 [x]) o) as [[c t']|]; simpl in *.
    - by rewrite (bind_ok _ _ _ _ _ Hi).
    - exists l. by rewrite (bind_ok _ _ _ _ _ Hi). }
  destruct (bank a) as [[b v]|]; [|apply Hadd]. pose proof (get_run cur t Ht Hc b l) as Hb'.
  destruct (tree_get t cur b) as [c|]; simpl.
  - rewrite (bind_ok _ _ _ _ _ Hb'). apply Hadd.
  - exists l. by rewrite (bind_ok _ _ _ _ _ Hb').
Qed.

Lemma field_element_run t f a l :
  tree_ok t -> (cur < length t)%nat -> item_ok f = true -> item_room a 1 ->
  match perform_item cur f a t with
  | Some (a', t') => field_element cur a (mkParser (item_encode f ++ l) t) = Ok (Some a', mkParser l t')
  | None => exists l', field_element cur a (mkParser (item_encode f ++ l) t) = Ok (None, mkParser l' t)
  end.
Proof.
  intros Ht Hc Hf Ho. destruct f as [n|flags|x bits].
  - destruct (number_read t n l Hf) as [w Hw]. unfold field_element. cbn [item_encode app perform_item].
    rewrite (bind_ok _ _ _ _ _ (first_read t 0 (number_encode n ++ l))). change (0 =? 0) with true. cbv iota.
    rewrite (bind_ok _ _ _ _ _ (next_read t 0 (number_encode n ++ l))). by rewrite (bind_ok _ _ _ _ _ Hw).
  - unfold field_element. cbn [item_encode app perform_item].
    rewrite (bind_ok _ _ _ _ _ (first_read t 1 (flags :: l))). change (1 =? 0) with false. change (1 =? 1) with true.
    cbv iota. rewrite (bind_ok _ _ _ _ _ (next_read t 1 (flags :: l))).
    rewrite (bind_ok _ _ _ _ _ (next_read t flags l)). destruct (attribute_update a flags); simpl; [done|by exists l].
  - pose proof (named_field_run t x bits a l Ht Hc Hf Ho) as Hr.
    apply andb_true_iff in Hf as [Hx _]. destruct (seg_name_ok x Hx) as (b & r & -> & H1 & H2 & H3).
    unfold field_element. revert Hr. cbn [item_encode app].
    rewrite (bind_ok _ _ _ _ _ (first_read t b ((r ++ number_encode bits) ++ l))). by rewrite H1, H2, H3.
Qed.

Lemma item_room_next t f a a' t' n :
  item_ok f = true -> 0 <= n < 2 ^ 28 -> item_room a (n + 1) -> perform_item cur f a t = Some (a', t') -> item_room a' n.
Proof.
  unfold item_room. intros Hf Hn Ho Hp. destruct f as [m|flags|x bits]; cbn [perform_item item_ok] in *.
  - apply below_inv in Hf. simplify_eq. cbn [bit_offset at_offset]. lia.
  - unfold attribute_update in Hp. destruct (decode_flags flags) as [[[? ?] ?]|]; simplify_eq/=. lia.
  - apply andb_true_iff in Hf as [_ Hb%below_inv].
    destruct (match bank _ with Some _ => _ | None => _ end) as [o|]; [|done]. simpl in Hp.
    destruct (tree_declare _ _ _ o); simplify_eq/=. lia.
Qed.

Lemma items_run items k a t :
  tree_ok t -> (cur < length t)%nat -> forallb item_ok items = true -> Z.of_nat (length items) < 2 ^ 28 ->
  item_room a (Z.of_nat (length items)) -> (length (flat_map item_encode items) < k)%nat ->
  exists l, field_list k cur a (mkParser (flat_map item_encode items) t) = Ok (Some tt, mkParser l (perform_items cur items a t)).
Proof.
  revert k a t. induction items as [|f items IH]; intros k a t Ht Hc Hok Hn Hr Hk; (destruct k as [|k]; [lia|]).
  { by exists []. }
  cbn [flat_map items_with field_list forallb length] in *. apply andb_true_iff in Hok as [Hf Hok].
  assert (item_room a 1) as Hr1 by (unfold item_room in *; lia).
  pose proof (field_element_run t f a (flat_map item_encode items) Ht Hc Hf Hr1) as Hrun.
  rewrite Nat2Z.inj_succ, <- Z.add_1_r in Hr. pose proof (item_room_next t f a) as Hnext.
  destruct (perform_item cur f a t) as [[a' t']|].
  - rewrite (bind_ok _ _ _ _ _ Hrun).
    pose proof (field_element_safe True cur a (mkParser (item_encode f ++ flat_map item_encode items) t) (conj Ht Hc)) as Hs.
    unfold safe in Hs. rewrite Hrun in Hs. destruct Hs as [[Ht' Hg _] Hl]. cbn [tree code] in *.
    specialize (Hl ltac:(eauto)). rewrite length_app in Hl, Hk.
    apply IH; [done|by eapply grows_valid|done|lia| |lia]. eapply Hnext; [done|lia|exact Hr|done].
  - destruct Hrun as [l' Hrun]. rewrite (bind_ok _ _ _ _ _ Hrun). by exists l'.
Qed.
End items.

(** *** Declarations *)

Lemma blen_app x y : blen (x ++ y) = blen x + blen y.
Proof. unfold blen. rewrite length_app. lia. Qed.
Lemma blen_cons b x : blen (b :: x) = 1 + blen x.
Proof. unfold blen. simpl. lia. Qed.
Lemma blen_pos x : 0 <= blen x.
Proof. unfold blen. lia. Qed.

(** The sizes of the parts of a package. *)
Ltac sizes :=
  repeat match goal with
  | H : name_ok ?n = true |- _ =>
    lazymatch goal with
    | _ : blen (name_encode n) = _ |- _ => fail
    | _ => pose proof (name_length n H)
    end
  end;
  rewrite ?blen_app, ?blen_cons, ?blen_app, ?blen_cons, ?blen_app in *;
  repeat match goal with
  | |- context [blen ?x] =>
    lazymatch goal with _ : 0 <= blen x |- _ => fail | _ => pose proof (blen_pos x) end
  end; lia.

Section terms.
Context (cur : NodeId) (fuel : nat) (l : list Z) (t : Tree).
Context (Ht : tree_ok t) (Hcur : (cur < length t)%nat).
Abbreviation here m x o := (performs m x l t o).

Lemma name_performs n d :
  name_ok n = true -> data_ok d = true -> (length (data_encode d) <= fuel)%nat ->
  here (name_parse fuel cur) (name_encode n ++ data_encode d) (tree_declare t cur n (ObjData (data_value d))).
Proof.
  intros Hn Hd Hf. apply performs_name; [done|]. rewrite <- (app_nil_r (data_encode d)).
  eapply (performs_step _ _ (data_ref fuel cur)); [rewrite <- app_assoc; by apply data_ref_ok|].
  by apply declare_performs.
Qed.

Lemma alias_performs n target :
  name_ok n = true -> name_ok target = true ->
  here (alias_parse cur) (name_encode n ++ name_encode target)
    (c ← tree_get t cur target; tree_declare t cur n (ObjAlias c)).
Proof.
  intros. apply performs_name; [done|]. apply performs_last_name; [done|].
  apply performs_get; [done..|]. intros c. by apply declare_performs.
Qed.

Lemma mutex_performs n flags :
  name_ok n = true -> here (mutex_parse cur) (name_encode n ++ [flags]) (tree_declare t cur n (ObjMutex (Z.land flags 0x0F))).
Proof. intros. apply performs_name; [done|]. apply performs_next. by apply declare_performs. Qed.

Lemma event_performs n : name_ok n = true -> here (event_parse cur) (name_encode n) (tree_declare t cur n ObjEvent).
Proof. intros. apply performs_last_name; [done|]. by apply declare_performs. Qed.

Lemma external_performs n type args :
  name_ok n = true ->
  here (external_parse cur) (name_encode n ++ [type; args]) (tree_declare t cur n (ObjExternal (external_type type) args)).
Proof. intros. apply performs_name; [done|]. do 2 apply performs_next. by apply declare_performs. Qed.

Lemma op_region_performs n space offset len :
  name_ok n = true -> arg_ok offset = true -> arg_ok len = true ->
  (length (arg_encode offset) <= fuel)%nat -> (length (arg_encode len) <= fuel)%nat ->
  here (op_region_parse fuel cur) (name_encode n ++ space :: arg_encode offset ++ arg_encode len)
    (tree_declare t cur n (ObjOperationRegion (region_space space) (arg_value offset) (arg_value len))).
Proof.
  intros. apply performs_name; [done|]. apply performs_next. apply performs_arg; [done..|].
  apply performs_last_arg; [done..|]. by apply declare_performs.
Qed.

Lemma data_region_performs n a b c :
  name_ok n = true -> arg_ok a = true -> arg_ok b = true -> arg_ok c = true ->
  (length (arg_encode a) <= fuel)%nat -> (length (arg_encode b) <= fuel)%nat -> (length (arg_encode c) <= fuel)%nat ->
  here (data_region_parse fuel cur) (name_encode n ++ arg_encode a ++ arg_encode b ++ arg_encode c)
    (tree_declare t cur n (ObjDataTableRegion (arg_value a) (arg_value b) (arg_value c))).
Proof.
  intros. apply performs_name; [done|]. do 2 (apply performs_arg; [done..|]).
  apply performs_last_arg; [done..|]. by apply declare_performs.
Qed.

Lemma create_fixed_performs f source index n :
  arg_ok source = true -> arg_ok index = true -> name_ok n = true ->
  (length (arg_encode source) <= fuel)%nat -> (length (arg_encode index) <= fuel)%nat ->
  here (create_fixed_parse fuel cur f) (arg_encode source ++ arg_encode index ++ name_encode n)
    (tree_declare t cur n (ObjCreateField (f (arg_value index)) (arg_value source))).
Proof.
  intros. do 2 (apply performs_arg; [done..|]). apply performs_last_name; [done|]. by apply declare_performs.
Qed.

Lemma create_arbitrary_performs source index bits n :
  arg_ok source = true -> arg_ok index = true -> arg_ok bits = true -> name_ok n = true ->
  (length (arg_encode source) <= fuel)%nat -> (length (arg_encode index) <= fuel)%nat ->
  (length (arg_encode bits) <= fuel)%nat ->
  here (create_arbitrary_parse fuel cur) (arg_encode source ++ arg_encode index ++ arg_encode bits ++ name_encode n)
    (tree_declare t cur n (ObjCreateField (CfArbitraryLength (arg_value index) (arg_value bits)) (arg_value source))).
Proof.
  intros. do 3 (apply performs_arg; [done..|]). apply performs_last_name; [done|]. by apply declare_performs.
Qed.

Lemma method_performs n flags body :
  name_ok n = true -> pkg_ok (name_encode n ++ flags :: body) = true ->
  here (method_parse cur) (pkg_encode (name_encode n ++ flags :: body))
    (tree_declare t cur n (ObjMethod (Z.shiftr flags 4) (negb (Z.land flags 8 =? 0)) (Z.land flags 7) body)).
Proof.
  intros. apply performs_pkg; [done|]. apply performs_name; [done|]. apply performs_next.
  apply performs_payload; [apply blen_pos|]. apply performs_sub; [sizes|]. apply performs_sub; [sizes|].
  apply performs_last_read; [sizes|]. by apply declare_performs.
Qed.

(** What is parsed in a slice may leave some of it over. *)
Definition inside (p : M Parser (option unit)) (x : list Z) (o : option Tree) : Prop :=
  exists l', p (mkParser x t) = Ok ((fun _ => tt) <$> o, mkParser l' (default t o)).

Lemma performs_inside p x n o : blen x = n -> inside p x o -> here (slice n p) x o.
Proof.
  intros Hn [l' Hp]. pose proof (slice_app t x n p l _ _ Hn Hp) as H. destruct o; [done|]. by exists l.
Qed.

Lemma inside_step {A} (m : M Parser (option A)) h a x y o :
  m (mkParser (x ++ y) t) = Ok (Some a, mkParser y t) -> inside (h a) y o -> inside (obind m h) (x ++ y) o.
Proof. intros Hm [l' Hh]. exists l'. by rewrite (bind_ok _ _ _ _ _ Hm). Qed.

Lemma inside_get h n x (o : NodeId -> option Tree) :
  (forall c, inside (h c) x (o c)) -> inside (obind (get cur n) h) x (tree_get t cur n ≫= o).
Proof.
  intros H. pose proof (get_run cur t Ht Hcur n x) as Hg. destruct (tree_get t cur n) as [c|]; simpl.
  - destruct (H c) as [l' Hl]. exists l'. by rewrite (bind_ok _ _ _ _ _ Hg).
  - exists x. by rewrite (bind_ok _ _ _ _ _ Hg).
Qed.

Lemma items_inside region flags (b : option (Namestring * Evaluatable)) items :
  items_ok items = true -> (length (flat_map item_encode items) < fuel)%nat ->
  inside (match attribute_new region flags b with Some a => field_list fuel cur a | None => ret None end)
    (flat_map item_encode items) (a ← attribute_new region flags b; Some (perform_items cur items a t)).
Proof.
  intros [Hi Hn%Z.ltb_lt]%andb_true_iff Hf. destruct (attribute_new region flags b) as [a|] eqn:Ha; simpl; [|by eexists].
  apply items_run; try done.
  unfold attribute_new in Ha. destruct (decode_flags flags) as [[[? ?] ?]|]; simplify_eq. unfold item_room. simpl. lia.
Qed.

Lemma field_performs n flags items :
  name_ok n = true -> items_ok items = true -> pkg_ok (name_encode n ++ flags :: flat_map item_encode items) = true ->
  (length (flat_map item_encode items) < fuel)%nat ->
  here (field_parse fuel cur) (pkg_encode (name_encode n ++ flags :: flat_map item_encode items))
    (r ← tree_get t cur n; a ← attribute_new r flags None; Some (perform_items cur items a t)).
Proof.
  intros Hn Hi Hp Hf. apply performs_pkg; [done|]. apply performs_name; [done|].
  apply performs_get; [done..|]. intros r. apply performs_payload; [apply blen_pos|]. apply performs_sub; [sizes|].
  apply performs_inside; [sizes|]. apply (inside_step next _ flags [flags]); [done|]. by apply items_inside.
Qed.

Lemma bank_field_performs n bank value flags items :
  name_ok n = true -> name_ok bank = true -> arg_ok value = true -> items_ok items = true ->
  pkg_ok (name_encode n ++ name_encode bank ++ arg_encode value ++ flags :: flat_map item_encode items) = true ->
  (length (arg_encode value) <= fuel)%nat -> (length (flat_map item_encode items) < fuel)%nat ->
  here (bank_field_parse fuel cur)
    (pkg_encode (name_encode n ++ name_encode bank ++ arg_encode value ++ flags :: flat_map item_encode items))
    (r ← tree_get t cur n; a ← attribute_new r flags (Some (bank, arg_value value)); Some (perform_items cur items a t)).
Proof.
  intros Hn Hb Ha Hi Hp Hv Hf. apply performs_pkg; [done|]. apply performs_payload; [apply blen_pos|].
  apply performs_inside; [done|]. eapply (inside_step namestring); [by apply name_read|].
  eapply (inside_step namestring); [by apply name_read|]. eapply (inside_step (term_value fuel cur)); [by apply arg_read|].
  eapply (inside_step next _ flags [flags]); [done|]. apply inside_get. intros r. by apply items_inside.
Qed.
End terms.

(** Objects with a body. *)
Section bodies.
Context (cur : NodeId) (fuel : nat) (l : list Z) (t : Tree).
Context (Ht : tree_ok t) (Hcur : (cur < length t)%nat).
Context (terms : NodeId -> M Parser (option unit)) (body : list Term).
Hypothesis terms_run : forall c t, tree_ok t -> (c < length t)%nat ->
  exists l', terms c (mkParser (terms_encode body) t) = Ok (Some tt, mkParser l' (perform_terms c body t)).
Abbreviation here m x o := (performs m x l t o).

Lemma body_run c t' :
  tree_ok t' -> (c < length t')%nat ->
  inside t' (obind (terms c) (fun _ => ret (Some tt))) (terms_encode body) (Some (perform_terms c body t')).
Proof. intros H1 H2. destruct (terms_run c t' H1 H2) as [l' Hl]. exists l'. by rewrite (bind_ok _ _ _ _ _ Hl). Qed.

Abbreviation inner n o := ('(c, t') ← tree_insert t cur n o; Some (perform_terms c body t')).

Lemma scope_performs o n :
  name_ok n = true -> pkg_ok (name_encode n ++ terms_encode body) = true ->
  here (scope_parse terms o cur) (pkg_encode (name_encode n ++ terms_encode body)) (inner n o).
Proof.
  intros Hn Hp. apply performs_pkg; [done|]. apply performs_name; [done|]. apply performs_insert; [done..|].
  intros c t' Hi. apply tree_insert_ok in Hi as (? & ? & _); [|done..].
  apply performs_payload; [apply blen_pos|]. apply performs_sub; [sizes|]. apply performs_inside; [sizes|].
  by apply body_run.
Qed.

Lemma power_res_performs n level order :
  name_ok n = true -> below order (2 ^ 16) = true ->
  pkg_ok (name_encode n ++ level :: le_encode 2 order ++ terms_encode body) = true ->
  here (power_res_parse terms cur) (pkg_encode (name_encode n ++ level :: le_encode 2 order ++ terms_encode body))
    (inner n (ObjPowerResource level order)).
Proof.
  intros Hn Ho%below_inv Hp. apply performs_pkg; [done|]. apply performs_name; [done|]. apply performs_next.
  eapply (performs_step _ _ (read_le 2)); [rewrite <- app_assoc; by apply (read_le_read t 2)|].
  apply performs_insert; [done..|]. intros c t' Hi. apply tree_insert_ok in Hi as (? & ? & _); [|done..].
  assert (blen (le_encode 2 order) = 2) by done.
  apply performs_payload; [apply blen_pos|]. do 2 (apply performs_sub; [sizes|]). apply performs_inside; [sizes|].
  by apply body_run.
Qed.

Lemma processor_performs n id address len :
  name_ok n = true -> pkg_ok (name_encode n ++ id :: le_encode 4 address ++ len :: terms_encode body) = true ->
  here (processor_parse terms cur) (pkg_encode (name_encode n ++ id :: le_encode 4 address ++ len :: terms_encode body))
    (inner n ObjProcessor).
Proof.
  intros Hn Hp. apply performs_pkg; [done|]. apply performs_name; [done|].
  apply performs_insert; [done..|]. intros c t' Hi. apply tree_insert_ok in Hi as (? & ? & _); [|done..].
  apply performs_payload; [apply blen_pos|]. apply performs_sub; [sizes|]. apply performs_inside; [sizes|].
  apply (inside_step _ next _ id [id]); [done|]. destruct (body_run c t') as [l' Hl]; [done..|]. exists l'.
  rewrite (bind_ok _ _ _ _ _ (read_app t' (le_encode 4 address) 4 (len :: terms_encode body) eq_refl)).
  by rewrite (bind_ok _ _ _ _ _ (next_read t' len (terms_encode body))).
Qed.
End bodies.

Lemma pkg_ok_body body : pkg_ok (pkg_encode body) = true -> pkg_ok body = true.
Proof. unfold pkg_ok, pkg_encode. rewrite blen_app. pose proof (blen_pos (pkg_head (blen body))). lia. Qed.

Lemma pkg_encode_length body : (length body < length (pkg_encode body))%nat.
Proof.
  unfold pkg_encode, pkg_head, len_encode. rewrite length_app.
  destruct (pkg_width _); simpl; lia.
Qed.

Lemma op_bytes_length op : (0 < length (op_bytes op))%nat.
Proof. destruct op; simpl; lia. Qed.

(** Split the conditions on a declaration, and bound the lengths of its parts. *)
Ltac split_ok H :=
  repeat match type of H with (_ && _)%bool = true => apply andb_true_iff in H as [H ?] end.
Ltac lengths H := repeat (rewrite ?length_app in H; cbn [length] in H).

(** One declaration, with what is known of the bodies. *)
Definition runs_terms (fuel : nat) (terms : NodeId -> M Parser (option unit)) : Prop :=
  forall c body t, tree_ok t -> (c < length t)%nat -> forallb term_ok body = true ->
    (length (terms_encode body) < fuel)%nat ->
    exists l', terms c (mkParser (terms_encode body) t) = Ok (Some tt, mkParser l' (perform_terms c body t)).

Lemma term_performs cur fuel terms objects x l t :
  tree_ok t -> (cur < length t)%nat -> term_ok x = true -> (length (term_args x) < fuel)%nat ->
  runs_terms fuel terms -> runs_terms fuel objects ->
  performs (object_parse fuel terms objects cur (term_op x)) (term_args x) l t (perform cur x t).
Proof.
  intros Ht Hc Hok Hf Hterms Hobjects.
  assert (pkg_ok (term_args x) = true) as Hp by (destruct x; exact (proj1 (andb_prop _ _ Hok))).
  destruct x; cbn [term_ok] in Hok; apply andb_true_iff in Hok as [_ Hok]; split_ok Hok;
    cbn [term_op object_parse perform_with term_args] in *;
    try (apply pkg_ok_body in Hp; match type of Hf with context [pkg_encode ?b] => pose proof (pkg_encode_length b) as Hl end);
    try lengths Hl; try lengths Hf.
  - apply name_performs; try done; lia.
  - by apply alias_performs.
  - assert (forall c t, tree_ok t -> (c < length t)%nat ->
      exists l', terms c (mkParser (terms_encode body) t) = Ok (Some tt, mkParser l' (perform_terms c body t))) as Hb.
    { intros. apply Hterms; try done. unfold terms_encode, term_encode. lia. }
    destruct k; by apply scope_performs.
  - apply power_res_performs; try done. intros. apply Hterms; try done. unfold terms_encode, term_encode. lia.
  - apply processor_performs; try done. intros. apply Hobjects; try done. unfold terms_encode, term_encode. lia.
  - by apply method_performs.
  - by apply mutex_performs.
  - by apply event_performs.
  - by apply external_performs.
  - apply op_region_performs; try done; lia.
  - apply data_region_performs; try done; lia.
  - destruct w; apply create_fixed_performs; try done; lia.
  - apply create_arbitrary_performs; try done; lia.
  - apply field_performs; try done; lia.
  - apply bank_field_performs; try done; lia.
Qed.

Lemma terms_performed fuel : runs_terms fuel (term_list fuel) /\ runs_terms fuel (object_list fuel).
Proof.
  induction fuel as [|fuel [IHt IHo]]; [by split; intros c body t _ _ _ ?; lia|].
  assert (forall m, runs_terms fuel m -> runs_terms (S fuel) (fun cur => bind opcode_ok (fun op =>
    match op with
    | None => ret (Some tt)
    | Some op => bind (object_parse fuel (term_list fuel) (object_list fuel) cur op)
        (fun r => match r with Some _ => m cur | None => ret (Some tt) end)
    end))) as Hall; [|by split; apply Hall].
  intros m Hm c body t Ht Hc Hok Hf. destruct body as [|x body]; [by exists []|].
  cbn [terms_encode flat_map] in *. fold (terms_encode body) in *. apply andb_true_iff in Hok as [Hx Hok].
  unfold term_encode in *. pose proof (op_bytes_length (term_op x)). lengths Hf.
  assert (op_ok (term_op x) = true) as Hop by (destruct x as [| |[]| | | | | | | | |[]| | |]; done).
  rewrite <- app_assoc. rewrite (bind_ok _ _ _ _ _ (opcode_ok_read t _ (term_args x ++ terms_encode body) Hop)).
  pose proof (term_performs c fuel (term_list fuel) (object_list fuel) x (terms_encode body) t Ht Hc Hx ltac:(lia) IHt IHo) as Hp.
  unfold perform_terms. cbn [perform_all]. unfold performs in Hp. destruct (perform c x t) as [t'|].
  - rewrite (bind_ok _ _ _ _ _ Hp).
    pose proof (object_parses True c fuel (term_list fuel) (object_list fuel) (fun c => proj1 (lists_parse True fuel c))
      (fun c => proj2 (lists_parse True fuel c)) (term_op x) (mkParser (term_args x ++ terms_encode body) t)
      (conj Ht Hc) (or_introl I)) as Hs.
    unfold safe in Hs. rewrite Hp in Hs. destruct Hs as [Ht' Hg _]. cbn [tree] in *.
    apply Hm; [done|by eapply grows_valid|done|lia].
  - destruct Hp as [l' Hp]. rewrite (bind_ok _ _ _ _ _ Hp). by exists l'.
Qed.
