(* ===== verification/AmlSpec.v ===== *)
(** * Declarations as the ACPI specification has them

    What a list of declarations means, with the fields of a region at the positions that
    the specification gives them, and the difference between that and what the parser
    enters: the bit positions of fields, and nothing else. *)

From stdpp Require Import base tactics list.
From S2P Require Import Prelude CMonad Aml AmlTree AmlLoad.
Local Close Scope c_scope.
Local Open Scope Z_scope.

(** ** Meaning *)

(** A field begins at the current bit position; fields and reserved bits advance it by their
    length.  Access fields are not among the declarations considered. *)
Definition mean_item (cur : NodeId) (f : FieldItem) (a : FieldUnitAttribute) (t : Tree) :
    option (FieldUnitAttribute * Tree) :=
  match f with
  | FReserved n => Some (at_offset a (bit_offset a + n), t)
  | FAccess _ => None
  | FNamed x bits =>
    let unit := mkFieldUnit (operation_region a) (bit_offset a) bits (attr_access a) (lock_rule a) (attr_update a) in
    o ← match bank a with
        | Some (b, v) => (fun b => ObjBankField b v unit) <$> tree_get t cur b
        | None => Some (ObjFieldUnit unit)
        end;
    t ← tree_declare t cur (Relative 0 [x]) o;
    Some (at_offset a (bit_offset a + bits), t)
  end.
Definition mean (cur : NodeId) (xs : list Term) (t : Tree) : Tree := perform_all (perform_with mean_item cur) xs t.

(** Declarations whose byte code the parser reads as the specification writes it: the two
    names of an alias are taken in the wrong order, and an access field is taken to be one
    byte shorter than it is. *)
Definition item_plain (f : FieldItem) : bool := match f with FAccess _ => false | _ => true end.
Fixpoint plain (x : Term) : bool :=
  match x with
  | TmAlias _ _ => false
  | TmScope _ _ body | TmPowerRes _ _ _ body | TmProcessor _ _ _ _ body => forallb plain body
  | TmField _ _ items | TmBankField _ _ _ _ items => forallb item_plain items
  | _ => true
  end.

(** ** Name spaces up to the positions of fields *)

Definition unit_erase (f : FieldUnit) : FieldUnit :=
  mkFieldUnit (fu_region f) 0 (fu_bit_length f) (fu_access f) (fu_lock f) (fu_update f).
Definition object_erase (o : Object) : Object :=
  match o with
  | ObjFieldUnit f => ObjFieldUnit (unit_erase f)
  | ObjBankField b v f => ObjBankField b v (unit_erase f)
  | o => o
  end.
Definition node_erase (x : NameSpace) : NameSpace := mkNode (name x) (object_erase (object x)) (children x) (parent x).
Definition erase (t : Tree) : Tree := map node_erase t.

Lemma erase_lookup t i : erase t !! i = node_erase <$> t !! i.
Proof. apply list_lookup_fmap. Qed.

Lemma erase_children t i : node_children (erase t) i = node_children t i.
Proof. unfold node_children. rewrite erase_lookup. by destruct (t !! i). Qed.

Lemma erase_parent t i : node_parent (erase t) i = node_parent t i.
Proof. unfold node_parent. rewrite erase_lookup. by destruct (t !! i). Qed.

Lemma erase_select t i x : select_child_by_name (erase t) i x = select_child_by_name t i x.
Proof.
  unfold select_child_by_name. rewrite erase_children. f_equal. apply list_filter_iff. intros c.
  unfold node_named. rewrite erase_lookup. by destruct (t !! c).
Qed.

Lemma erase_walk t i p : walk (erase t) i p = walk t i p.
Proof.
  revert i. induction p as [|x p IH]; intros i; [done|]. cbn [walk]. rewrite erase_select.
  destruct (select_child_by_name t i x); [apply IH|done].
Qed.

Lemma erase_ascend t i k : ascend (erase t) i k = ascend t i k.
Proof.
  revert i. induction k as [|k IH]; intros i; [done|]. cbn [ascend]. rewrite erase_parent.
  destruct (node_parent t i); [apply IH|done].
Qed.

Lemma erase_get_step t i n : _get (erase t) i n = _get t i n.
Proof.
  destruct n as [p|k p]; cbn [_get]; [apply erase_walk|]. rewrite erase_ascend.
  destruct (ascend t i (Z.to_nat k)); [apply erase_walk|done].
Qed.

Lemma erase_get t cur n : tree_get (erase t) cur n = tree_get t cur n.
Proof.
  unfold tree_get. f_equal. replace (length (erase t)) with (length t) by (symmetry; apply length_map).
  generalize (S (length t)). intros k. revert cur. induction k as [|k IH]; intros cur; [done|].
  cbn [get_from]. rewrite erase_get_step, erase_parent. destruct (_get t cur n) as [[c [x|]]|]; [|done|];
    (destruct (bool_decide (cur = ROOT)); [done|]; destruct (node_parent t cur); [apply IH|done]).
Qed.

Lemma erase_add t i x o : erase (add_child t i x o) = add_child (erase t) i x (object_erase o).
Proof.
  unfold erase, add_child. rewrite map_app, length_map. f_equal. apply list_eq. intros j.
  change (map node_erase) with (fmap (M := list) node_erase). rewrite list_lookup_fmap. destruct (decide (i = j)) as [<-|Hj].
  - rewrite !list_lookup_alter_eq, list_lookup_fmap. by destruct (t !! i).
  - by rewrite !list_lookup_alter_ne, list_lookup_fmap by done.
Qed.

Lemma erase_insert t cur n o :
  tree_insert (erase t) cur n (object_erase o) = prod_map id erase <$> tree_insert t cur n o.
Proof.
  unfold tree_insert. replace (length (erase t)) with (length t) by (symmetry; apply length_map).
  generalize (S (length t)). intros k. revert cur. induction k as [|k IH]; intros cur; [done|].
  cbn [insert_from]. rewrite erase_get_step, erase_parent. destruct (_get t cur n) as [[c [x|]]|]; [|done|].
  - cbn. rewrite erase_add. unfold prod_map, erase. cbn. by rewrite length_map.
  - destruct (bool_decide (cur = ROOT)); [done|]. destruct (node_parent t cur); [apply IH|done].
Qed.

(** ** The parser agrees with the meaning *)

Definition agree (t u : Tree) : Prop := erase t = erase u.
Definition agree_o (t u : option Tree) : Prop := erase <$> t = erase <$> u.

Lemma agree_get t u cur n : agree t u -> tree_get t cur n = tree_get u cur n.
Proof. intros H. by rewrite <- erase_get, H, erase_get. Qed.

Lemma agree_insert t u cur n o o' : agree t u -> object_erase o = object_erase o' ->
  prod_map id erase <$> tree_insert t cur n o = prod_map id erase <$> tree_insert u cur n o'.
Proof. intros H Ho. by rewrite <- !erase_insert, H, Ho. Qed.

Lemma agree_declare t u cur n o o' : agree t u -> object_erase o = object_erase o' ->
  agree_o (tree_declare t cur n o) (tree_declare u cur n o').
Proof.
  intros H Ho. pose proof (agree_insert t u cur n o o' H Ho) as Hi. unfold agree_o, tree_declare.
  destruct (tree_insert t cur n o) as [[? ?]|], (tree_insert u cur n o') as [[? ?]|]; simplify_eq/=; congruence.
Qed.

Lemma agree_all f g xs : Forall (fun x => forall t u, agree t u -> agree_o (f x t) (g x u)) xs ->
  forall t u, agree t u -> agree (perform_all f xs t) (perform_all g xs u).
Proof.
  induction 1 as [|x xs Hx _ IH]; intros t u H; [done|]. cbn [perform_all]. specialize (Hx t u H). unfold agree_o in Hx.
  destruct (f x t), (g x u); simplify_eq/=; [by apply IH|done].
Qed.

Local Arguments tree_get : simpl never.
Local Arguments tree_insert : simpl never.
Local Arguments tree_declare : simpl never.

(** The attributes are the same, the position apart. *)
Lemma agree_items cur items : forallb item_plain items = true -> forall a b t u,
  agree t u -> at_offset a 0 = at_offset b 0 ->
  agree (items_with perform_item cur items a t) (items_with mean_item cur items b u).
Proof.
  induction items as [|f items IH]; intros Hp a b t u H Hab; [done|].
  cbn [forallb] in Hp. apply andb_true_iff in Hp as [Hf Hp]. cbn [items_with].
  destruct f as [n|flags|x bits]; [by apply IH|done|]. destruct a as [r o ac lk up bk], b as [r' o' ac' lk' up' bk']. cbn in Hab. simplify_eq.
  cbn [perform_item mean_item at_offset operation_region bit_offset attr_access lock_rule attr_update bank].
  assert (forall obj obj', object_erase obj = object_erase obj' -> agree_o (tree_declare t cur (Relative 0 [x]) obj)
    (tree_declare u cur (Relative 0 [x]) obj')) as Hd by (intros; by apply agree_declare).
  destruct bk' as [[b v]|]; cbn; [rewrite (agree_get t u cur b H); destruct (tree_get u cur b) as [c|]; cbn; [|done]|];
    (match goal with |- context [tree_declare t cur _ ?obj] => match goal with |- context [tree_declare u cur _ ?obj'] =>
      specialize (Hd obj obj' eq_refl); unfold agree_o in Hd;
      destruct (tree_declare t cur (Relative 0 [x]) obj), (tree_declare u cur (Relative 0 [x]) obj') end end;
     simplify_eq/=; [by apply IH|done]).
Qed.

Lemma agree_inside t u cur n o (f g : NodeId -> Tree -> Tree) : agree t u ->
  (forall c t u, agree t u -> agree (f c t) (g c u)) ->
  agree_o ('(c, t) ← tree_insert t cur n o; Some (f c t)) ('(c, t) ← tree_insert u cur n o; Some (g c t)).
Proof.
  intros H Hfg. pose proof (agree_insert t u cur n o o H eq_refl) as Hi. unfold agree_o.
  destruct (tree_insert t cur n o) as [[c t']|], (tree_insert u cur n o) as [[c' u']|]; simplify_eq/=; [|done].
  f_equal. by apply Hfg.
Qed.

Lemma agree_field t u cur region flags b items : agree t u -> forallb item_plain items = true ->
  agree_o (r ← tree_get t cur region; a ← attribute_new r flags b; Some (items_with perform_item cur items a t))
          (r ← tree_get u cur region; a ← attribute_new r flags b; Some (items_with mean_item cur items a u)).
Proof.
  intros H Hp. rewrite (agree_get t u cur region H). unfold agree_o. destruct (tree_get u cur region) as [r|]; cbn; [|done].
  destruct (attribute_new r flags b) as [a|]; cbn; [|done]. f_equal. by apply agree_items.
Qed.

Lemma agree_perform x : plain x = true -> forall cur t u, agree t u ->
  agree_o (perform_with perform_item cur x t) (perform_with mean_item cur x u).
Proof.
  revert x. fix IH 1. intros x Hp cur t u H.
  assert (forall body, forallb plain body = true -> forall c t u, agree t u ->
    agree (perform_all (perform_with perform_item c) body t) (perform_all (perform_with mean_item c) body u)) as Hall.
  { intros body Hb c. apply agree_all. revert Hb. clear -IH.
    induction body as [|y body IHb]; intros Hb; [constructor|]. cbn [forallb] in Hb. apply andb_true_iff in Hb as [Hy Hb].
    constructor; [|by apply IHb]. intros t u. by apply IH. }
  destruct x; cbn [plain perform_with] in *; try done; try (by apply agree_declare);
    try (by apply agree_field).
  - apply agree_inside; [done|]. by apply Hall.
  - apply agree_inside; [done|]. by apply Hall.
  - apply agree_inside; [done|]. by apply Hall.
Qed.

(** What the parser enters for declarations without aliases and access fields is what they
    mean, up to the bit positions of fields. *)
Lemma perform_means cur xs t : forallb plain xs = true -> erase (perform_terms cur xs t) = erase (mean cur xs t).
Proof.
  intros Hp. apply agree_all; [|done]. apply Forall_forall. intros x Hx u v. apply agree_perform.
  by apply (proj1 (forallb_forall _ _) Hp), list_elem_of_In.
Qed.
