(* ===== verification/AmlFacts.v ===== *)
(** * The AML loader: theorems

    What the parser of src/acpi/aml does with a table: the declarations it performs, what
    it keeps, when it ends, and where it departs from the format. *)

From stdpp Require Import base tactics list.
From S2P Require Import Prelude CMonad Aml AmlTree AmlSafe AmlCode AmlLoad AmlSpec.
Local Close Scope c_scope.
Local Open Scope Z_scope.

Lemma tree_ok_root : tree_ok [NAMESPACE_ROOT].
Proof.
  split.
  - by exists NAMESPACE_ROOT.
  - by intros i x p [-> <-]%list_lookup_singleton_Some.
  - by intros i x [-> <-]%list_lookup_singleton_Some.
  - by intros i x c [-> <-]%list_lookup_singleton_Some ?%elem_of_nil.
  - by intros c y i [-> <-]%list_lookup_singleton_Some.
  - intros i x [-> <-]%list_lookup_singleton_Some. constructor.
  - by intros i x c d y z [-> <-]%list_lookup_singleton_Some ?%elem_of_nil.
Qed.

Lemma terms_start xs l b : forallb term_ok xs = true -> terms_encode xs = b :: l ->
  ((0x41 <=? b) && (b <? 0x5A) || (b =? 0x5E) || (b =? 0x5C) || (b =? 0x5F))%bool = false.
Proof.
  destruct xs as [|x xs]; [done|]. cbn [terms_encode flat_map]. unfold term_encode.
  intros _ H. destruct x as [| |[]| | | | | | | | |[]| | |]; cbn in H; simplify_eq; done.
Qed.

(** Parsing the byte code of declarations performs them. *)
Lemma table_performed t xs :
  tree_ok t -> xs <> [] -> forallb term_ok xs = true ->
  exists rest, parse (mkParser (terms_encode xs) t) = Ok (Some tt, mkParser rest (perform_terms ROOT xs t)).
Proof.
  intros Ht Hne Hok. assert (ROOT < length t)%nat as Hr by by apply root_valid.
  destruct (proj1 (terms_performed (fuel_for (length (terms_encode xs)))) ROOT xs t Ht Hr Hok) as [l Hl].
  { unfold fuel_for. lia. }
  destruct (terms_encode xs) as [|b r] eqn:He.
  { destruct xs as [|x xs]; [done|]. cbn [terms_encode flat_map] in He. unfold term_encode in He.
    pose proof (op_bytes_length (term_op x)). destruct (op_bytes (term_op x)); [simpl in *; lia|done]. }
  exists l. unfold parse. rewrite (bind_ok (gets code) _ _ _ _ eq_refl). cbn [code].
  rewrite (terms_start xs r b Hok He). by rewrite (bind_ok _ _ _ _ _ Hl).
Qed.


(** \_SB with a device, its data, a region with a field, and a method. *)
Definition seg (a b c d : Z) : Name := [a; b; c; d].



(** C10. Whatever bytes a table has, a parser that returns has kept the invariant of the
    name space (a tree below the root whose parents and children agree and in which no
    two children of a node share a name), and has only added to it: every node still has
    its name, its object, its parent and its old children, in order. *)
Theorem namespace_kept s r s' :
  tree_ok (tree s) -> parse s = Ok (r, s') -> tree_ok (tree s') /\ grows (tree s) (tree s').
Proof.
  intros Ht Hp. pose proof (parse_safe True s (conj Ht (root_valid Ht)) (or_introl I)) as H.
  unfold safe in H. rewrite Hp in H. by destruct H.
Qed.

(** A declaration, and then a byte that no declaration begins with. *)
Definition broken_code : list Z := [0x08; 0x41; 0x42; 0x43; 0x44; 0x01; 0xEE; 0x12].

Lemma namespace_kept_witness :
  tree_ok (tree (mkParser [0x12] [mkNode ROOT_NAME ObjScope [1%nat] None; mkNode (seg 0x41 0x42 0x43 0x44) (ObjData (DInteger 1)) [] (Some 0%nat)])).
Proof.
  apply (namespace_kept (mkParser broken_code [NAMESPACE_ROOT]) (Some tt)); [apply tree_ok_root|].
  vm_compute. reflexivity.
Defined.

(** C32. The parser ends on the byte code of every list of declarations with constant
    data, aliases and access fields included, and on every other sequence of bytes,
    well-formed or not, in which neither the byte 0x71 nor the pair 0x5B 0x12 occurs
    anywhere, in data and strings neither; these are the codes of RefOf and CondRefOf.
    Two steps per byte are enough. *)
Theorem parse_terminates s :
  tree_ok (tree s) ->
  quiet (code s) \/ (exists xs, xs <> [] /\ forallb term_ok xs = true /\ code s = terms_encode xs) ->
  parse s <> NoFuel.
Proof.
  intros Ht [Hq|(xs & Hne & Hok & He)] Hp.
  - pose proof (parse_safe False s (conj Ht (root_valid Ht)) (or_intror Hq)) as H. unfold safe in H. by rewrite Hp in H.
  - destruct s as [l t]. cbn [code tree] in *. subst l. destruct (table_performed t xs Ht Hne Hok) as [rest Hr].
    by rewrite Hr in Hp.
Qed.

Lemma quiet_without l : 0x71 ∉ l -> 0x5B ∉ l -> quiet l.
Proof.
  intros H1 H2 p q. split; intros ->; [apply H1|apply H2]; apply elem_of_app; right; left.
Qed.

Lemma parse_terminates_witness : parse (mkParser broken_code [NAMESPACE_ROOT]) <> NoFuel.
Proof.
  apply parse_terminates; [apply tree_ok_root|left]. apply quiet_without; intros Hin%list_elem_of_In; simpl in Hin; lia.
Defined.

(** Insertion and lookup are a round trip: what [get_or_insert] returns for a name is
    what [get] finds under the same name from the same node afterwards.  Either the name
    was found before and the name space is unchanged, or the node is new, carries the
    object, and the name was not among the children of its parent. *)
Theorem declared_found s cur n o c s' :
  tree_ok (tree s) -> (cur < length (tree s))%nat -> get_or_insert cur n o s = Ok (Some c, s') ->
  get cur n s' = Ok (Some c, s') /\
  ((s' = s /\ get cur n s = Ok (Some c, s)) \/
   exists p x, tree s' = add_child (tree s) p x o /\ select_child_by_name (tree s) p x = None /\
     tree s' !! c = Some (mkNode x o [] (Some p))).
Proof.
  destruct s as [l t]. cbn [tree]. intros Ht Hc Hrun.
  rewrite insert_run in Hrun by done. unfold tree_insert in Hrun.
  destruct (insert_from_ok t (S (length t)) cur n o Ht Hc) as
    [Hi|[(c' & Hi & Hv & Hg)|(p & x & Hi & Hp & Hx & Hg)]]; [lia|..]; rewrite Hi in Hrun; simplify_eq/=.
  - assert (get cur n (mkParser l t) = Ok (Some c, mkParser l t)) as Hget.
    { rewrite get_run by done. unfold tree_get. by rewrite Hg by lia. }
    auto.
  - split.
    + rewrite get_run; [|by apply add_tree_ok|rewrite add_length by done; lia].
      unfold tree_get. rewrite Hg; [done|]. rewrite add_length by done. lia.
    + right. exists p, x. split; [done|]. split; [done|]. unfold add_child. rewrite lookup_app_r by (rewrite length_alter; lia).
      by rewrite length_alter, Nat.sub_diag.
Qed.

Lemma declared_found_witness :
  exists s', get ROOT (Root [seg 0x5F 0x53 0x42 0x5F]) s' = Ok (Some 1%nat, s').
Proof.
  eexists. eapply (declared_found (mkParser [] [NAMESPACE_ROOT]) ROOT _ ObjScope 1%nat);
    [apply tree_ok_root|vm_compute; lia|vm_compute; reflexivity].
Defined.

(** C33. The opcode tables are read exactly: a parser at the code of an operator returns that
    operator and stands after it, and it returns an operator only where its code is. *)
Theorem opcode_exact op l t :
  (op_ok op = true -> opcode_parse (mkParser (op_bytes op ++ l) t) = Ok (inl op, mkParser l t)) /\
  (forall s, opcode_parse s = Ok (inl op, mkParser l t) -> op_ok op = true /\ s = mkParser (op_bytes op ++ l) t).
Proof.
  split; [apply opcode_read|]. intros [[|b c] t']; [done|]. unfold opcode_parse, next, bind, gets, set_code, modify. cbn.
  destruct (Z.eqb_spec b 0x5B) as [->|]; [|destruct (Z.eqb_spec b 0x92) as [->|]].
  - destruct c as [|e c]; [done|]. cbn. intros [= Hop <- <-].
    unfold from_ext in Hop. repeat case_match; by simplify_eq/=.
  - destruct c as [|e c]; [done|]. cbn. intros [= Hop <- <-].
    unfold not_op in Hop. repeat case_match; by simplify_eq/=.
  - destruct (plain_opcode b) as [op'|] eqn:Hop; [|done]. cbn. intros [= -> <- <-].
    unfold plain_opcode in Hop. repeat case_match; by simplify_eq/=.
Qed.

Lemma peek_reference b l t :
  simple_name (mkParser (0x71 :: b :: l) t) = Ok (Some (inr OpRefOf), mkParser (0x71 :: b :: l) t).
Proof.
  unfold simple_name. rewrite (bind_ok _ _ _ _ _ (first_read t 0x71 (b :: l))).
  change (lead_char 0x71 || (0x71 =? 0x5E) || (0x71 =? 0x5C))%bool with false. cbv iota.
  rewrite (bind_ok (gets code) _ _ _ _ eq_refl). cbn [code]. unfold defined_if.
  by rewrite (proj2 (Z.leb_le _ _)) by (cbn [length]; lia).
Qed.

Lemma reference_again fuel cur b l t : reference_one fuel cur OpRefOf (mkParser (0x71 :: b :: l) t) = NoFuel.
Proof.
  induction fuel as [|fuel IH]; [done|]. cbn [reference_one]. unfold source_with, bind at 1.
  rewrite (bind_ok _ _ _ _ _ (peek_reference b l t)). unfold bind. by rewrite IH.
Qed.

(** A reference to a reference makes the parser recurse for ever: the operator inside
    of RefOf is looked at and not consumed, so no amount of fuel is enough for a
    declaration of a name with the value RefOf(RefOf ...). *)
Theorem nested_reference_diverges fuel cur x b l t :
  seg_ok x = true -> term_list fuel cur (mkParser (op_bytes OpName ++ x ++ 0x71 :: 0x71 :: b :: l) t) = NoFuel.
Proof.
  intros Hx. destruct fuel as [|fuel]; [done|]. cbn [term_list].
  rewrite (bind_ok _ _ _ _ _ (opcode_ok_read t OpName (x ++ 0x71 :: 0x71 :: b :: l) eq_refl)).
  cbn [object_parse]. assert (name_ok (Relative 0 [x]) = true) as Hn.
  { unfold name_ok, path_ok. simpl. by rewrite Hx. }
  unfold name_parse. unfold bind at 1.
  rewrite (bind_ok _ _ _ _ _ (name_read t (Relative 0 [x]) (0x71 :: 0x71 :: b :: l) Hn)).
  assert (data_ref fuel cur (mkParser (0x71 :: 0x71 :: b :: l) t) = NoFuel) as Hd.
  { unfold data_ref, data_ref_with.
    rewrite (bind_ok _ _ _ _ _ (opcode_ok_read t OpRefOf (0x71 :: b :: l) eq_refl)). destruct fuel as [|fuel]; [done|].
    rewrite (bind_ok _ _ _ None (mkParser (0x71 :: b :: l) t)); [|done]. unfold bind. by rewrite reference_again. }
  unfold bind. by rewrite Hd.
Qed.

Lemma nested_reference_diverges_witness :
  term_list 1000 ROOT (mkParser [0x08; 0x41; 0x42; 0x43; 0x44; 0x71; 0x71; 0x60] [NAMESPACE_ROOT]) = NoFuel.
Proof. apply (nested_reference_diverges 1000 ROOT (seg 0x41 0x42 0x43 0x44) 0x60 []). vm_compute. reflexivity. Defined.

Lemma lead_char_plain b : lead_char b = true -> plain_opcode b = None.
Proof.
  intros Hb. assert (forallb (fun b => negb (lead_char b) || bool_decide (plain_opcode b = None))%bool
    (map Z.of_nat (seq 0 96)) = true) as H by (vm_compute; reflexivity).
  rewrite forallb_forall in H. specialize (H b). unfold lead_char in *.
  assert (In b (map Z.of_nat (seq 0 96))) as Hin.
  { apply in_map_iff. exists (Z.to_nat b). split; [lia|]. apply in_seq. lia. }
  specialize (H Hin). rewrite Hb in H. simpl in H. by apply bool_decide_eq_true in H.
Qed.

(** An element of a package that is a name loses its first character: the byte was
    consumed in the attempt to read an operator, and the name is read from the second
    byte on, so that the object another name stands for is entered, or none. *)
Theorem name_element_skips_byte cur data reference b l t :
  lead_char b = true ->
  element_with cur data reference (mkParser (b :: l) t) =
  bind namestring (fun n => match n with
    | Some n => bind (get cur n) (fun o => ret (ElementDirect <$> o))
    | None => ret None
    end) (mkParser l t).
Proof.
  intros Hb. pose proof (lead_char_plain b Hb) as Hp.
  assert (opcode_ok (mkParser (b :: l) t) = Ok (None, mkParser l t)) as Ho.
  { unfold opcode_ok, opcode_parse, bind. cbn.
    destruct (Z.eqb_spec b 0x5B) as [->|]; [done|]. destruct (Z.eqb_spec b 0x92) as [->|]; [done|]. by rewrite Hp. }
  unfold element_with, data_ref_with. unfold bind at 1. rewrite (bind_ok _ _ _ _ _ Ho). cbn.
  unfold bind. destruct (namestring (mkParser l t)) as [[[n|] s]| |]; [|done..].
  by destruct (get cur n s) as [[[o|] s']| |].
Qed.

(** The element ABCD, E..., where only BCDE is declared. *)
Lemma name_element_skips_byte_witness :
  element_with ROOT (data_object 9 ROOT) (reference_one 9 ROOT)
    (mkParser [0x41; 0x42; 0x43; 0x44; 0x45] (add_child [NAMESPACE_ROOT] ROOT (seg 0x42 0x43 0x44 0x45) ObjEvent)) =
  Ok (Some (ElementDirect 1%nat), mkParser [] (add_child [NAMESPACE_ROOT] ROOT (seg 0x42 0x43 0x44 0x45) ObjEvent)).
Proof.
  etransitivity; [apply (name_element_skips_byte ROOT (data_object 9 ROOT) (reference_one 9 ROOT) 0x41); vm_compute; reflexivity|].
  vm_compute. reflexivity.
Defined.
