(* ===== verification/Net.v ===== *)
(** * Packets and protocol headers (src/driver/network)

    Packet buffers (buffer.c), the checksums, Ethernet, IPv4, UDP and ICMP (ethernet.c,
    ipv4.c, udp.c, icmp.c), and the wrapping of a packet (conn.c).  A packet buffer is
    memory of its own: an address is an offset from [ptr], and an access outside of the
    allocated bytes is undefined. *)

From stdpp Require Import base tactics list.
From S2P Require Import Prelude CMonad.
Local Open Scope Z_scope.

Inductive ProtocolResult : Type :=
| PROTO_OK | PROTO_DROP | PROTO_ERROR_UNSUPPORT | PROTO_ERROR_EXCEED_MAX_SIZE
| PROTO_ERROR_NULL_PTR | PROTO_ERROR_CHECKSUM | PROTO_ERROR_CONNECT_FAILED
| PROTO_ERROR_SEND_FAILED | PROTO_ERROR_REBIND | PROTO_ERROR_PORT_CONFLICT
| PROTO_ERROR_CANNOT_FIND | PROTO_ERROR_NO_SPACE_LEFT | PROTO_ERROR_CANNOT_FIND_ROUTE
| PROTO_ERROR_NOT_CONNECTED | PROTO_ERROR_NET_UNREACHABLE | PROTO_ERROR_HOST_UNREACHABLE
| PROTO_ERROR_PORT_UNREACHABLE | PROTO_ERROR_OTHER.

(** ** Byte order (bits.h) *)

Definition SWAP_WORD (n : Z) : Z := Z.lor (Z.shiftl (Z.land n 0xff) 8) (Z.shiftr (Z.land n 0xff00) 8).
Definition SWAP_DWORD (n : Z) : Z :=
  Z.lor (u32 (Z.shiftl (SWAP_WORD (Z.land n 0xffff)) 16)) (SWAP_WORD (Z.shiftr (Z.land n 0xffff0000) 16)).
Abbreviation HOST2BE_WORD := SWAP_WORD.
Abbreviation BE2HOST_WORD := SWAP_WORD.
Abbreviation HOST2BE_DWORD := SWAP_DWORD.
Abbreviation BE2HOST_DWORD := SWAP_DWORD.

(** ** Packet buffers (buffer.c) *)

(** [room] is what was allocated at [ptr]; [bsize] is the field [size]. *)
Record NetBuffer : Type := mkNetBuffer {
  mem : Z -> Z; room : Z; bsize : Z; bhead : Z; bdata : Z; btail : Z
}.

Definition with_mem (m : Z -> Z) (b : NetBuffer) : NetBuffer :=
  mkNetBuffer m (room b) (bsize b) (bhead b) (bdata b) (btail b).
Definition with_head (h : Z) (b : NetBuffer) : NetBuffer :=
  mkNetBuffer (mem b) (room b) (bsize b) h (bdata b) (btail b).
Definition with_data (d : Z) (b : NetBuffer) : NetBuffer :=
  mkNetBuffer (mem b) (room b) (bsize b) (bhead b) d (btail b).
Definition with_tail (t : Z) (b : NetBuffer) : NetBuffer :=
  mkNetBuffer (mem b) (room b) (bsize b) (bhead b) (bdata b) t.

Definition inside (off n : Z) (b : NetBuffer) : bool := (0 <=? off) && (off + n <=? room b).

(** A load and a store of [w] bytes, least significant byte first. *)
Definition ld (w : nat) (off : Z) : M NetBuffer Z :=
  b ← gets id ; defined_if (inside off (Z.of_nat w) b) ;; ret (mem_load w (mem b) off).
Definition st (w : nat) (off v : Z) : M NetBuffer unit :=
  b ← gets id ; defined_if (inside off (Z.of_nat w) b) ;; modify (with_mem (mem_store w (mem b) off v)).

Definition bytes_at (m : Z -> Z) (off : Z) (n : nat) : list Z := map (fun i => m (off + Z.of_nat i)) (seq 0 n).
Fixpoint put_bytes (m : Z -> Z) (off : Z) (l : list Z) : Z -> Z :=
  match l with [] => m | x :: l => put_bytes (<[off := x]> m) (off + 1) l end.

Definition rd (off n : Z) : M NetBuffer (list Z) :=
  b ← gets id ; defined_if (inside off n b) ;; ret (bytes_at (mem b) off (Z.to_nat n)).
Definition wr (off : Z) (l : list Z) : M NetBuffer unit :=
  b ← gets id ; defined_if (inside off (Z.of_nat (length l)) b) ;; modify (with_mem (put_bytes (mem b) off l)).

(** [kmalloc] does not clear: [junk] is what the memory and the other fields hold. *)
Definition net_buffer_create (struct_ok ptr_ok : bool) (junk : NetBuffer) (n : Z) : option NetBuffer :=
  if struct_ok && ptr_ok then Some (mkNetBuffer (mem junk) n n (bhead junk) (bdata junk) (btail junk))
  else None.
Definition net_buffer_init (n h t : Z) : M NetBuffer unit :=
  modify (fun b => mkNetBuffer (mem b) (room b) n h h t).
Definition net_buffer_reset : M NetBuffer unit := modify (fun b => with_tail (bdata b) (with_head (bdata b) b)).
Definition net_buffer_clean_data : M NetBuffer unit := modify (fun b => with_tail (bdata b) b).
Definition net_buffer_header_alloc (n : Z) : M NetBuffer unit := modify (fun b => with_head (bhead b - n) b).
Definition net_buffer_header_free (n : Z) : M NetBuffer unit := modify (fun b => with_head (bhead b + n) b).
Definition net_buffer_tail_alloc (n : Z) : M NetBuffer unit := modify (fun b => with_tail (btail b + n) b).
Definition net_buffer_tail_free (n : Z) : M NetBuffer unit := modify (fun b => with_tail (btail b - n) b).
Definition net_buffer_data_alloc (n : Z) : M NetBuffer ProtocolResult :=
  b ← gets id ;
  if btail b + n >? bsize b then ret PROTO_ERROR_EXCEED_MAX_SIZE
  else modify (with_tail (btail b + n)) ;; ret PROTO_OK.
Definition net_buffer_put (n : Z) : M NetBuffer ProtocolResult :=
  b ← gets id ;
  if btail b + n >? bsize b then ret PROTO_ERROR_EXCEED_MAX_SIZE
  else modify (with_tail (btail b + n)) ;; ret PROTO_OK.
Definition NET_BUF_RESV_HEAD (n : Z) : M NetBuffer unit :=
  modify (fun b => with_head (bhead b + n) (with_data (bdata b + n) (with_tail (btail b + n) b))).

(** A packet that is dropped is freed: none of its bytes may be accessed any more. *)
Definition free_packet : M NetBuffer unit :=
  modify (fun b => mkNetBuffer (mem b) 0 (bsize b) (bhead b) (bdata b) (btail b)).

(** ** Checksums *)

(** [UDP_CHECKSUM_ADD], and the bodies of the loops of ipv4.c and icmp.c. *)
Definition CHECKSUM_ADD (sum d : Z) : Z :=
  let sum := u32 (sum + d) in
  if sum >? 0xFFFF then Z.land sum 0xFFFF + Z.shiftr sum 16 else sum.

(** [n] words from [off]. *)
Fixpoint sum_words (n : nat) (off sum : Z) : M NetBuffer Z :=
  match n with
  | O => ret sum
  | S n => d ← ld 2 off ; sum_words n (off + 2) (CHECKSUM_ADD sum d)
  end.

(** [~((uint16_t)sum)] as a [uint16_t]. *)
Definition complement16 (sum : Z) : Z := u16 (Z.lnot (u16 sum)).

Definition ipv4_checksum (hdr : Z) : M NetBuffer unit :=
  st 2 (hdr + 10) 0 ;;
  sum ← sum_words 10 hdr 0 ;
  st 2 (hdr + 10) (complement16 sum).

Definition icmp_checksum (hdr len : Z) : M NetBuffer Z :=
  st 2 (hdr + 2) 0 ;;
  sum ← sum_words (Z.to_nat (len / 2)) hdr 0 ;
  ret (complement16 sum).

(** The words of an address as the processor loads them. *)
Fixpoint sum_addr (l : list Z) (sum : Z) : Z :=
  match l with
  | a :: b :: l => sum_addr l (CHECKSUM_ADD sum (a + 256 * b))
  | _ => sum
  end.

Definition IP_PROTO_ICMP : Z := 1.
Definition IP_PROTO_TCP : Z := 6.
Definition IP_PROTO_UDP : Z := 17.

Definition udp_checksum (src dst : list Z) (hdr : Z) : M NetBuffer Z :=
  b ← gets id ;
  let len := u16 (btail b - bdata b) in
  st 2 (hdr + 6) 0 ;;
  let sum := sum_addr dst (sum_addr src 0) in
  let sum := CHECKSUM_ADD sum (HOST2BE_WORD IP_PROTO_UDP) in
  l ← ld 2 (hdr + 4) ;
  sum ← sum_words (Z.to_nat (len / 2)) hdr (CHECKSUM_ADD sum l) ;
  sum ← (if len mod 2 =? 0 then ret sum else x ← ld 1 (hdr + len - 1) ; ret (u32 (sum + x))) ;
  ret (complement16 (sum + Z.shiftr sum 16)).

(** *** tcp.c *)

(** [src_ip[j] << 8 | src_ip[j + 1]] and the same of [dst_ip], for [j = 0, 2, ...]. *)
Fixpoint sum_pseudo (src dst : list Z) (sum : Z) : Z :=
  match src, dst with
  | a :: b :: src, c :: d :: dst =>
    sum_pseudo src dst (u32 (u32 (sum + Z.lor (Z.shiftl a 8) b) + Z.lor (Z.shiftl c 8) d))
  | _, _ => sum
  end.

Definition fold16 (sum : Z) : Z := u32 (Z.shiftr sum 16 + Z.land sum 0xffff).
Definition high16 (sum : Z) : bool := truth (Z.land sum 0xffff0000).

Fixpoint sum_be_words (n : nat) (off sum : Z) : M NetBuffer Z :=
  match n with
  | O => ret sum
  | S n =>
    a ← ld 1 off ; b ← ld 1 (off + 1) ;
    let sum := u32 (sum + Z.lor (Z.shiftl a 8) b) in
    sum_be_words n (off + 2) (if high16 sum then fold16 sum else sum)
  end.

(** [while (sum & 0xffff0000)]. *)
Fixpoint fold_loop (fuel : nat) (sum : Z) : M NetBuffer Z :=
  if high16 sum then match fuel with O => no_fuel | S fuel => fold_loop fuel (fold16 sum) end
  else ret sum.

Definition tcp_checksum (hdr len : Z) (src dst : list Z) : M NetBuffer Z :=
  st 2 (hdr + 16) 0 ;;
  let sum := sum_pseudo src dst 0 in
  let sum := u32 (u32 (sum + IP_PROTO_TCP) + len) in
  sum ← sum_be_words (Z.to_nat (len / 2)) hdr sum ;
  sum ← (if len mod 2 =? 0 then ret sum
         else a ← ld 1 (hdr + len - 1) ; ret (u32 (sum + Z.shiftl a 8))) ;
  sum ← fold_loop 16 sum ;
  ret (Z.land (Z.lnot (u16 sum)) 0xffff).

(** ** Timers (timer.c)

    The list of a device's timers is not modelled, only whether a timer is in it. *)

Record Timer : Type := mkTimer { timer_device : bool; will_wrap : bool; timeout : Z; queued : bool }.

Definition timer_init (t : Timer) : Timer := mkTimer true (will_wrap t) 0 (queued t).
Definition timer_set_timeout (counter count : Z) (t : Timer) : Timer :=
  if timer_device t then
    let at_ := u32 (counter + count) in mkTimer true (negb (at_ >? counter)) at_ (queued t)
  else t.
Definition timer_callback_enable (t : Timer) : Timer :=
  if timer_device t then mkTimer true (will_wrap t) (timeout t) true else t.
Definition timer_callback_cancel (t : Timer) : Timer :=
  if timer_device t then mkTimer true (will_wrap t) (timeout t) false else t.
Definition timer_is_timeout (counter : Z) (t : Timer) : bool :=
  if will_wrap t then timeout t >=? counter else timeout t <=? counter.

Definition DIV_ROUND_UP (x step : Z) : Z := u32 (x + step - 1) / step.
Definition timer_count_ms (freq ms : Z) : Z :=
  if freq <? 1000 then DIV_ROUND_UP (u32 (ms * freq)) 1000 else DIV_ROUND_UP ms (freq / 1000).

(** ** Connections (conn.h, tcp.h) *)

Inductive ConnState : Type :=
| CONN_STATE_INIT | CONN_STATE_OPENING | CONN_STATE_OPENED | CONN_STATE_CLOSING
| CONN_STATE_CLOSED | CONN_STATE_HOST_UNREACHABLE | CONN_STATE_NET_UNREACHABLE.
Inductive PhyProtocol : Type := PHY_PROTO_NONE | PHY_PROTO_ETHERNET.
Inductive NetProtocol : Type := NET_PROTO_NONE | NET_PROTO_IPV4.
Inductive TransProtocol : Type := TRANS_PROTO_NONE | TRANS_PROTO_TCP | TRANS_PROTO_UDP.

Inductive TcpState : Type :=
| TCP_STATE_LISTEN | TCP_STATE_SYN_SENT | TCP_STATE_SYN_RECEIVED | TCP_STATE_ESTABLISHED
| TCP_STATE_FIN_WAIT1 | TCP_STATE_FIN_WAIT2 | TCP_STATE_CLOSE_WAIT | TCP_STATE_CLOSING
| TCP_STATE_LAST_ACK | TCP_STATE_TIME_WAIT | TCP_STATE_CLOSED.

#[global] Instance ConnState_eq_dec : EqDecision ConnState.
Proof. solve_decision. Defined.
#[global] Instance TcpState_eq_dec : EqDecision TcpState.
Proof. solve_decision. Defined.
#[global] Instance TransProtocol_eq_dec : EqDecision TransProtocol.
Proof. solve_decision. Defined.

(** A pointer to a window: none, an allocated block, a block that was freed, or one that was
    freed and has been handed out to somebody else since. *)
Inductive Window : Type := Null | Block (m : Z -> Z) (n : Z) | Freed | Reused.

Record SendSpace : Type := mkSend {
  unack : Z; snext : Z; swindow : Z; wl1 : Z; wl2 : Z; iss : Z; stotal : Z; remote_window_size : Z
}.
Record RecvSpace : Type := mkRecv { rnext : Z; rwindow : Z; irs : Z; rtotal : Z; rread : Z }.
Record Segment : Type := mkSegment { seq_ : Z; ack_ : Z; fin_seq : Z }.
Record Rtt : Type := mkRtt { send_time : Z; send_seq : Z; rttvar : Z; srtt : Z; rto : Z; retry_times : Z }.

Record Tcp : Type := mkTcp {
  state : TcpState; header : option Z; mss : Z;
  send : SendSpace; send_window : Window; recv : RecvSpace; recv_window : Window;
  cur : Segment; rtt : Rtt; timeout_timer : Timer
}.

Record Conn : Type := mkConn {
  cstate : ConnState; buffer : NetBuffer; phy_protocol : PhyProtocol; mac : list Z; pmtu : Z;
  net_protocol : NetProtocol; ip_id : Z; enable_fragment : Z; last_fragment : Z; frag_offset : Z;
  ip_header : option Z; local_ip : list Z; local_port : Z; remote_ip : list Z; remote_port : Z;
  listed : bool; trans_protocol : TransProtocol; udp_callback : bool; tcp : option Tcp
}.

Section setters.
Context (c : Conn).
Definition set_buffer (b : NetBuffer) : Conn :=
  mkConn (cstate c) b (phy_protocol c) (mac c) (pmtu c) (net_protocol c) (ip_id c) (enable_fragment c)
    (last_fragment c) (frag_offset c) (ip_header c) (local_ip c) (local_port c) (remote_ip c) (remote_port c)
    (listed c) (trans_protocol c) (udp_callback c) (tcp c).
Definition set_cstate (s : ConnState) : Conn :=
  mkConn s (buffer c) (phy_protocol c) (mac c) (pmtu c) (net_protocol c) (ip_id c) (enable_fragment c)
    (last_fragment c) (frag_offset c) (ip_header c) (local_ip c) (local_port c) (remote_ip c) (remote_port c)
    (listed c) (trans_protocol c) (udp_callback c) (tcp c).
Definition set_phy (a : list Z) (mtu : Z) : Conn :=
  mkConn (cstate c) (buffer c) PHY_PROTO_ETHERNET a mtu (net_protocol c) (ip_id c) (enable_fragment c)
    (last_fragment c) (frag_offset c) (ip_header c) (local_ip c) (local_port c) (remote_ip c) (remote_port c)
    (listed c) (trans_protocol c) (udp_callback c) (tcp c).
Definition set_pmtu (mtu : Z) : Conn :=
  mkConn (cstate c) (buffer c) (phy_protocol c) (mac c) mtu (net_protocol c) (ip_id c) (enable_fragment c)
    (last_fragment c) (frag_offset c) (ip_header c) (local_ip c) (local_port c) (remote_ip c) (remote_port c)
    (listed c) (trans_protocol c) (udp_callback c) (tcp c).
Definition set_fragment (p : NetProtocol) (id enable : Z) : Conn :=
  mkConn (cstate c) (buffer c) (phy_protocol c) (mac c) (pmtu c) p id enable 0 0
    (ip_header c) (local_ip c) (local_port c) (remote_ip c) (remote_port c)
    (listed c) (trans_protocol c) (udp_callback c) (tcp c).
Definition set_ip_header (h : option Z) : Conn :=
  mkConn (cstate c) (buffer c) (phy_protocol c) (mac c) (pmtu c) (net_protocol c) (ip_id c) (enable_fragment c)
    (last_fragment c) (frag_offset c) h (local_ip c) (local_port c) (remote_ip c) (remote_port c)
    (listed c) (trans_protocol c) (udp_callback c) (tcp c).
Definition set_local (ip : list Z) (port : Z) : Conn :=
  mkConn (cstate c) (buffer c) (phy_protocol c) (mac c) (pmtu c) (net_protocol c) (ip_id c) (enable_fragment c)
    (last_fragment c) (frag_offset c) (ip_header c) ip port (remote_ip c) (remote_port c)
    (listed c) (trans_protocol c) (udp_callback c) (tcp c).
Definition set_remote (ip : list Z) (port : Z) : Conn :=
  mkConn (cstate c) (buffer c) (phy_protocol c) (mac c) (pmtu c) (net_protocol c) (ip_id c) (enable_fragment c)
    (last_fragment c) (frag_offset c) (ip_header c) (local_ip c) (local_port c) ip port
    (listed c) (trans_protocol c) (udp_callback c) (tcp c).
Definition set_listed (l : bool) : Conn :=
  mkConn (cstate c) (buffer c) (phy_protocol c) (mac c) (pmtu c) (net_protocol c) (ip_id c) (enable_fragment c)
    (last_fragment c) (frag_offset c) (ip_header c) (local_ip c) (local_port c) (remote_ip c) (remote_port c)
    l (trans_protocol c) (udp_callback c) (tcp c).
Definition set_trans (p : TransProtocol) (callback : bool) : Conn :=
  mkConn (cstate c) (buffer c) (phy_protocol c) (mac c) (pmtu c) (net_protocol c) (ip_id c) (enable_fragment c)
    (last_fragment c) (frag_offset c) (ip_header c) (local_ip c) (local_port c) (remote_ip c) (remote_port c)
    (listed c) p callback (tcp c).
Definition set_tcp (t : option Tcp) : Conn :=
  mkConn (cstate c) (buffer c) (phy_protocol c) (mac c) (pmtu c) (net_protocol c) (ip_id c) (enable_fragment c)
    (last_fragment c) (frag_offset c) (ip_header c) (local_ip c) (local_port c) (remote_ip c) (remote_port c)
    (listed c) (trans_protocol c) (udp_callback c) t.
End setters.

(** An action on the buffer of a connection. *)
Definition on_buffer {A} (m : M NetBuffer A) : M Conn A := fun c =>
  match m (buffer c) with
  | Ok (a, b) => Ok (a, set_buffer c b)
  | Undef => Undef
  | NoFuel => NoFuel
  end.

(** ** Ethernet (ethernet.c) *)

Definition ETH_MTU : Z := 1500.
Definition ETH_MAX_FRAME_SIZE : Z := 1792.
Definition ETH_MIN_FRAME_SIZE : Z := 60.
Definition ETH_PROTO_TYPE_IPV4 : Z := 0x0800.
Definition ETH_PROTO_TYPE_ARP : Z := 0x0806.

Definition eth_register (mac_addr : list Z) : M Conn unit :=
  modify (fun c => set_phy c mac_addr ETH_MTU) ;; on_buffer (NET_BUF_RESV_HEAD 14).

Definition eth_wrap (mac_addr dst_addr : list Z) (protocol : Z) : M NetBuffer ProtocolResult :=
  net_buffer_header_alloc 14 ;;
  b ← gets id ;
  let hdr := bhead b in
  wr hdr dst_addr ;;
  wr (hdr + 6) mac_addr ;;
  let content_size := btail b - bhead b in
  if content_size >? ETH_MAX_FRAME_SIZE then ret PROTO_ERROR_EXCEED_MAX_SIZE
  else
    when (content_size <? ETH_MIN_FRAME_SIZE)
      (wr (btail b) (replicate (Z.to_nat (ETH_MIN_FRAME_SIZE - content_size)) 0)) ;;
    st 2 (hdr + 12) (HOST2BE_WORD protocol) ;;
    ret PROTO_OK.

Definition eth_broadcast_mac : list Z := replicate 6 0xff.

Definition eth_reply : M NetBuffer ProtocolResult :=
  b ← gets id ;
  dst ← rd (bhead b) 6 ;
  if bool_decide (dst = eth_broadcast_mac) then ret PROTO_ERROR_CANNOT_FIND_ROUTE
  else
    src ← rd (bhead b + 6) 6 ;
    wr (bhead b) src ;;
    wr (bhead b + 6) dst ;;
    ret PROTO_OK.

(** ** IPv4 (ipv4.c) *)

Definition NEIGH_BUCKET_SIZE : Z := 32.
Definition ipv4_hash (ip : list Z) : Z :=
  match ip with
  | [a; b; c; d] =>
    let ip32 := a + 256 * b + 65536 * c + 16777216 * d in
    Z.lxor ip32 (Z.shiftr ip32 16) mod NEIGH_BUCKET_SIZE
  | _ => 0
  end.

(** [device_ip] is used when there is no address. *)
Definition ipv4_register (device_ip : list Z) (ip_addr : option (list Z)) : M Conn unit :=
  modify (fun c => set_local (set_fragment c NET_PROTO_IPV4 0 0) (default device_ip ip_addr) (local_port c)) ;;
  on_buffer (NET_BUF_RESV_HEAD 20).

Definition ipv4_enable_fragment (id : Z) : M Conn unit :=
  modify (fun c => set_fragment c (net_protocol c) id 1).

Definition ipv4_wrap (protocol : Z) (dst_ip : option (list Z)) (ttl : Z) : M Conn ProtocolResult :=
  c ← gets id ;
  let size_ := u16 (btail (buffer c) - bhead (buffer c)) in
  on_buffer (net_buffer_header_alloc 20) ;;
  b ← gets buffer ;
  let hdr := bhead b in
  modify (fun c => set_ip_header c (Some hdr)) ;;
  on_buffer (
    st 1 hdr (Z.lor (Z.shiftl 4 4) (Z.shiftr 20 2)) ;;
    st 1 (hdr + 1) 0 ;;
    st 2 (hdr + 2) (HOST2BE_WORD (20 + size_)) ;;
    st 2 (hdr + 4) (HOST2BE_WORD (ip_id c)) ;;
    st 2 (hdr + 6) (HOST2BE_WORD
      (Z.lor (Z.lor (Z.shiftl (if enable_fragment c =? 0 then 1 else 0) 14) (Z.shiftl (last_fragment c) 15))
         (frag_offset c))) ;;
    st 1 (hdr + 8) ttl ;;
    st 1 (hdr + 9) protocol ;;
    st 2 (hdr + 10) 0 ;;
    wr (hdr + 12) (local_ip c) ;;
    wr (hdr + 16) (default (replicate 4 0xff) dst_ip) ;;
    ipv4_checksum hdr) ;;
  ret PROTO_OK.

Definition ipv4_rewrap : M Conn unit :=
  c ← gets id ;
  match ip_header c with
  | None => ret tt
  | Some hdr =>
    on_buffer (
      st 2 (hdr + 2) (HOST2BE_WORD (btail (buffer c) - hdr)) ;;
      st 2 (hdr + 10) 0 ;;
      ipv4_checksum hdr)
  end.

Definition ipv4_get_packet_length (hdr : Z) : M NetBuffer Z :=
  total_len ← ld 2 (hdr + 2) ;
  ver_len ← ld 1 hdr ;
  ret (u16 (BE2HOST_WORD total_len - Z.shiftl (Z.land ver_len 0x0F) 2)).

(** What [ipv4_recv] does before it gives the packet to the protocol: an error, or the
    protocol, the length, and the two addresses. *)
Record Ipv4Packet : Type := mkPacket { protocol : Z; packet_length : Z; src_ip : list Z; dst_ip : list Z }.

Definition ipv4_recv_header : M NetBuffer (ProtocolResult + Ipv4Packet) :=
  b ← gets id ;
  let hdr := bdata b in
  let size_ := btail b - bdata b in
  length_ ← ipv4_get_packet_length hdr ;
  if u64 size_ <? 20 then ret (inl PROTO_ERROR_UNSUPPORT)
  else
    ver_len ← ld 1 hdr ;
    if negb (Z.shiftr ver_len 4 =? 4) then ret (inl PROTO_ERROR_UNSUPPORT)
    else
      checksum ← ld 2 (hdr + 10) ;
      ok ← (if checksum =? 0 then ret true
            else ipv4_checksum hdr ;; computed ← ld 2 (hdr + 10) ; ret (computed =? checksum)) ;
      if negb ok then ret (inl PROTO_ERROR_CHECKSUM)
      else
        flags ← ld 2 (hdr + 6) ;
        let frag := HOST2BE_WORD flags in
        let mf := truth (Z.land frag 0x2000) in
        if truth (Z.land frag 0x1FFF) || mf then ret (inl PROTO_ERROR_UNSUPPORT)
        else
          modify (with_data (bdata b + 20)) ;;
          protocol_ ← ld 1 (hdr + 9) ;
          src ← rd (hdr + 12) 4 ;
          dst ← rd (hdr + 16) 4 ;
          ret (inr (mkPacket protocol_ length_ src dst)).

(** ** UDP (udp.c) *)

Definition ipv4_null_addr : list Z := replicate 4 0.
Definition ipv4_broadcast_addr : list Z := replicate 4 0xff.

Definition udp_register : M Conn unit :=
  modify (fun c => set_trans c TRANS_PROTO_UDP (udp_callback c)) ;; on_buffer (NET_BUF_RESV_HEAD 8).

Definition udp_set_callback (callback : bool) : M Conn unit :=
  modify (fun c =>
    if bool_decide (trans_protocol c = TRANS_PROTO_UDP) && callback then set_trans c TRANS_PROTO_UDP true else c).

Definition udp_wrap (src_port dst_port : Z) : M NetBuffer unit :=
  b ← gets id ;
  let size_ := u16 (btail b - bhead b) in
  net_buffer_header_alloc 8 ;;
  b ← gets id ;
  let hdr := bhead b in
  st 2 hdr (HOST2BE_WORD src_port) ;;
  st 2 (hdr + 2) (HOST2BE_WORD dst_port) ;;
  st 2 (hdr + 4) (HOST2BE_WORD (8 + size_)) ;;
  st 2 (hdr + 6) 0.

(** The port is entered and the connection is put into the list of bound ones. *)
Definition udp_bind (port : Z) : M Conn unit :=
  modify (fun c =>
    if listed c then c else set_cstate (set_listed (set_local c (local_ip c) port) true) CONN_STATE_OPENED).
Definition udp_unbind : M Conn unit :=
  modify (fun c => if listed c then set_cstate (set_listed c false) CONN_STATE_CLOSED else c).

Definition udp_match (c : Conn) (src_port dst_port : Z) (dst : list Z) : bool :=
  (local_port c =? dst_port) && ((remote_port c =? 0) || (remote_port c =? src_port)) &&
  (bool_decide (local_ip c = dst) || bool_decide (local_ip c = ipv4_null_addr) ||
   bool_decide (dst = ipv4_broadcast_addr)).

(** The list of bound connections is given; the answer says which one gets the packet. *)
Definition udp_recv (udp_lh : list Conn) (src dst : list Z) : M NetBuffer (ProtocolResult * option nat) :=
  b ← gets id ;
  let hdr := bdata b in
  let size_ := btail b - bdata b in
  len ← ld 2 (hdr + 4) ;
  let length_ := BE2HOST_WORD len in
  if length_ <? 8 then ret (PROTO_ERROR_UNSUPPORT, None)
  else if length_ >? size_ then ret (PROTO_ERROR_EXCEED_MAX_SIZE, None)
  else
    checksum ← ld 2 (hdr + 6) ;
    ok ← (if checksum =? 0 then ret true
          else computed ← udp_checksum src dst hdr ; ret (computed =? checksum)) ;
    if negb ok then ret (PROTO_ERROR_CHECKSUM, None)
    else
      modify (with_data (bdata b + 8)) ;;
      sp ← ld 2 hdr ;
      dp ← ld 2 (hdr + 2) ;
      match list_find (fun c => udp_match c (BE2HOST_WORD sp) (BE2HOST_WORD dp) dst = true) udp_lh with
      | Some (i, c) => if udp_callback c then ret (PROTO_OK, Some i) else free_packet ;; ret (PROTO_DROP, None)
      | None => free_packet ;; ret (PROTO_DROP, None)
      end.

(** ** ICMP (icmp.c) *)

(** What the handler of a message asks for. *)
Inductive IcmpAction : Type :=
| IcmpNone
| IcmpReply (packet : list Z)
| IcmpUnreachable (msg_header code : Z)
| IcmpUpdateMtu (msg_header mtu : Z).

(** [protocol_reply] with the one callback that [eth_recv] put on the stack. *)
Definition protocol_reply : M NetBuffer (ProtocolResult * option (list Z)) :=
  r ← eth_reply ;
  match r with
  | PROTO_OK => b ← gets id ; p ← rd (bhead b) (btail b - bhead b) ; ret (PROTO_OK, Some p)
  | _ => ret (r, None)
  end.

Definition icmp_recv_echo (ip_hdr : Z) : M NetBuffer (ProtocolResult * IcmpAction) :=
  b ← gets id ;
  let hdr := bdata b in
  if btail b - bdata b <? 8 then ret (PROTO_ERROR_UNSUPPORT, IcmpNone)
  else
    dst ← rd (ip_hdr + 16) 4 ;
    src ← rd (ip_hdr + 12) 4 ;
    wr (ip_hdr + 16) src ;;
    wr (ip_hdr + 12) dst ;;
    ipv4_checksum ip_hdr ;;
    st 1 hdr 0 ;;
    st 2 (hdr + 2) 0 ;;
    sum ← icmp_checksum hdr (btail b - bdata b) ;
    st 2 (hdr + 2) sum ;;
    r ← protocol_reply ;
    ret (PROTO_OK, match snd r with Some p => IcmpReply p | None => IcmpNone end).

(** [icmp_header + 8] is 64 bytes further. *)
Definition icmp_recv_unreachable (hdr : Z) : M NetBuffer (ProtocolResult * IcmpAction) :=
  code ← ld 1 (hdr + 1) ;
  if (code =? 0) || (code =? 1) || (code =? 2) || (code =? 3) then ret (PROTO_OK, IcmpUnreachable (hdr + 64) code)
  else if code =? 4 then mtu ← ld 2 (hdr + 6) ; ret (PROTO_OK, IcmpUpdateMtu (hdr + 64) (BE2HOST_WORD mtu))
  else ret (PROTO_ERROR_UNSUPPORT, IcmpNone).

Definition icmp_recv (ip_hdr : Z) : M NetBuffer (ProtocolResult * IcmpAction) :=
  b ← gets id ;
  let hdr := bdata b in
  if u64 (btail b - bdata b) <? 8 then ret (PROTO_ERROR_UNSUPPORT, IcmpNone)
  else
    checksum ← ld 2 (hdr + 2) ;
    computed ← icmp_checksum hdr (btail b - bdata b) ;
    if negb (computed =? checksum) then ret (PROTO_ERROR_CHECKSUM, IcmpNone)
    else
      type ← ld 1 hdr ;
      if type =? 8 then icmp_recv_echo ip_hdr
      else if type =? 3 then icmp_recv_unreachable hdr
      else ret (PROTO_ERROR_UNSUPPORT, IcmpNone).

(** ** Wrapping a packet (conn.c) *)

Inductive ProtocolLevel : Type :=
| PROTO_LEVEL_TRANSPORT | PROTO_LEVEL_NETWORK | PROTO_LEVEL_DATA_LINK | PROTO_LEVEL_PHYSICAL.

Definition ip_protocol (p : TransProtocol) : Z :=
  match p with TRANS_PROTO_UDP => IP_PROTO_UDP | TRANS_PROTO_TCP => IP_PROTO_TCP | TRANS_PROTO_NONE => 0 end.

Definition wrap_physical (dst_mac : list Z) : M Conn ProtocolResult :=
  c ← gets id ;
  match net_protocol c, phy_protocol c with
  | NET_PROTO_IPV4, PHY_PROTO_ETHERNET => on_buffer (eth_wrap (mac c) dst_mac ETH_PROTO_TYPE_IPV4)
  | _, _ => ret PROTO_ERROR_UNSUPPORT
  end.

(** [lookup_mac] is what the table of neighbours answers for an address; without an
    answer the destination stays zero.  The packet is wrapped for the layers below. *)
Definition conn_wrap (lookup_mac : list Z -> option (list Z)) (level : ProtocolLevel) : M Conn ProtocolResult :=
  c ← gets id ;
  match level with
  | PROTO_LEVEL_TRANSPORT | PROTO_LEVEL_NETWORK =>
    match net_protocol c with
    | NET_PROTO_IPV4 =>
      _ ← ipv4_wrap (ip_protocol (trans_protocol c)) (Some (remote_ip c)) 64 ;
      wrap_physical (default (replicate 6 0) (lookup_mac (remote_ip c)))
    | NET_PROTO_NONE => ret PROTO_ERROR_UNSUPPORT
    end
  | PROTO_LEVEL_DATA_LINK | PROTO_LEVEL_PHYSICAL => wrap_physical (replicate 6 0)
  end.
