(* ===== verification/NetSum.v ===== *)
(** * The Internet checksum

    The checksum of RFC 1071, a sum in ones' complement of big-endian words, and the
    four routines of the network stack that compute it, on words of either byte order. *)

From stdpp Require Import base tactics list.
From S2P Require Import Prelude CMonad Net.
Local Open Scope Z_scope.

(** ** Reference *)

Definition oadd (a b : Z) : Z := let s := a + b in if s >? 0xffff then s - 0xffff else s.

(** The big-endian words of a sequence of bytes; a last byte is padded with zero. *)
Fixpoint be_words (l : list Z) : list Z :=
  match l with
  | a :: b :: l => 256 * a + b :: be_words l
  | [a] => [256 * a]
  | [] => []
  end.
Definition inet_sum (l : list Z) : Z := foldr oadd 0 (be_words l).
Definition inet_checksum (l : list Z) : Z := 0xffff - inet_sum l.

(** ** Sums that stand for the same ones' complement number *)

(** [s] and [x] are equal modulo [2^16 - 1], and zero together. *)
Definition repr (s x : Z) : Prop := 0 <= s /\ s mod 0xffff = x mod 0xffff /\ (s = 0 <-> x = 0).

Definition total (l : list Z) : Z := foldr Z.add 0 (be_words l).

Create HintDb net.

Lemma repr_refl x : 0 <= x -> repr x x.
Proof. done. Qed.

Lemma repr_trans x y z : repr x y -> repr y z -> repr x z.
Proof. unfold repr. intuition congruence. Qed.

Lemma repr_add s x y : 0 <= x -> 0 <= y -> repr s x -> repr (s + y) (x + y).
Proof.
  intros Hx Hy (H0 & Hm & Hz). split; [lia|]. split; [|lia].
  rewrite (Z.add_mod s y), (Z.add_mod x y) by lia. by rewrite Hm.
Qed.

(** The carries are added at the low end. *)
Lemma repr_carry s : 0 <= s -> repr (s / 65536 + s mod 65536) s.
Proof.
  intros Hs. pose proof (Z.div_mod s 65536 ltac:(lia)) as He.
  pose proof (Z.mod_pos_bound s 65536 ltac:(lia)). pose proof (Z.div_pos s 65536 Hs ltac:(lia)).
  split; [lia|]. split; [|lia].
  replace (s mod 0xffff) with ((s / 65536 + s mod 65536 + s / 65536 * 0xffff) mod 0xffff) by (f_equal; lia).
  by rewrite Z.mod_add by lia.
Qed.

Lemma repr_unique s t x : repr s x -> repr t x -> s <= 0xffff -> t <= 0xffff -> s = t.
Proof.
  intros (Hs0 & Hs & Hsz) (Ht0 & Ht & Htz) Hs1 Ht1.
  destruct (decide (s = 0xffff)) as [->|]; destruct (decide (t = 0xffff)) as [->|]; [done| | |].
  - rewrite <- Hs in Ht. rewrite (Z.mod_small t) in Ht by lia. assert (t = 0) by (by rewrite Ht). lia.
  - rewrite <- Ht in Hs. rewrite (Z.mod_small s) in Hs by lia. assert (s = 0) by (by rewrite Hs). lia.
  - rewrite <- Ht in Hs. rewrite !Z.mod_small in Hs by lia. done.
Qed.

Lemma oadd_repr a b x : 0 <= b <= 0xffff -> 0 <= a <= 0xffff -> 0 <= x -> repr b x -> repr (oadd a b) (a + x).
Proof.
  intros Hb Ha Hx Hr. apply (repr_trans _ (a + b)).
  - unfold oadd. destruct (Z.gtb_spec (a + b) 0xffff); [|apply repr_refl; lia].
    split; [lia|]. split; [|lia].
    replace (a + b) with (a + b - 0xffff + 1 * 0xffff) at 2 by lia. by rewrite Z.mod_add by lia.
  - rewrite (Z.add_comm a b), (Z.add_comm a x). by apply repr_add; [lia|lia|].
Qed.

Lemma oadd_range a b : 0 <= a <= 0xffff -> 0 <= b <= 0xffff -> 0 <= oadd a b <= 0xffff.
Proof. intros. unfold oadd. destruct (Z.gtb_spec (a + b) 0xffff); lia. Qed.

Definition bytes (l : list Z) : Prop := Forall (fun x => 0 <= x < 256) l.

Lemma be_words_range l : bytes l -> Forall (fun w => 0 <= w <= 0xffff) (be_words l).
Proof.
  unfold bytes. revert l. fix IH 1. intros [|a [|b l]] H; simpl; [constructor| |].
  - inversion H; subst. constructor; [lia|constructor].
  - inversion H as [|? ? Ha H']; subst. inversion H' as [|? ? Hb H'']; subst.
    constructor; [lia|by apply IH].
Qed.

Lemma inet_sum_spec l : bytes l -> 0 <= inet_sum l <= 0xffff /\ repr (inet_sum l) (total l) /\ 0 <= total l.
Proof.
  intros H%be_words_range. unfold inet_sum, total. induction H as [|w ws Hw Hws IH]; simpl.
  - split; [lia|]. split; [by apply repr_refl|lia].
  - destruct IH as (IH1 & IH2 & IH3). split; [by apply oadd_range|]. split; [|lia]. by apply oadd_repr.
Qed.

(** Any folded sum that stands for the total is the sum of the reference. *)
Lemma inet_sum_unique s l : bytes l -> repr s (total l) -> s <= 0xffff -> s = inet_sum l.
Proof. intros Hl Hr Hs. destruct (inet_sum_spec l Hl) as (? & ? & ?). by eapply repr_unique; [..|lia]. Qed.

Lemma total_app l1 l2 : Nat.even (length l1) = true -> total (l1 ++ l2) = total l1 + total l2.
Proof.
  unfold total. revert l1. fix IH 1. intros [|a [|b l1]] H; simpl in *; [done|done|].
  rewrite IH by done. lia.
Qed.

Lemma total_nonneg l : bytes l -> 0 <= total l.
Proof. intros H. by apply inet_sum_spec. Qed.

Lemma bytes_at_bytes m off n : byte_mem m -> bytes (bytes_at m off n).
Proof. intros Hm. apply Forall_map, Forall_forall. intros i _. apply Hm. Qed.

Lemma bytes_at_length m off n : length (bytes_at m off n) = n.
Proof. unfold bytes_at. by rewrite length_map, length_seq. Qed.

Lemma bytes_at_S m off n : bytes_at m off (S n) = m off :: bytes_at m (off + 1) n.
Proof.
  unfold bytes_at. simpl. f_equal; [f_equal; lia|].
  rewrite <- seq_shift, map_map. apply map_ext. intros. f_equal. lia.
Qed.

Lemma bytes_at_app m off n k :
  bytes_at m off (n + k) = bytes_at m off n ++ bytes_at m (off + Z.of_nat n) k.
Proof.
  revert off. induction n as [|n IH]; intros off; simpl Nat.add.
  - simpl. f_equal. lia.
  - rewrite !bytes_at_S, IH. simpl. f_equal. f_equal. f_equal. lia.
Qed.

(** ** Accesses to a packet *)

Lemma ld_run w off b :
  inside off (Z.of_nat w) b = true -> ld w off b = Ok (mem_load w (mem b) off, b).
Proof. intros H. unfold ld. run. simpl. by rewrite H. Qed.

Lemma st_run w off v b :
  inside off (Z.of_nat w) b = true -> st w off v b = Ok (tt, with_mem (mem_store w (mem b) off v) b).
Proof. intros H. unfold st. run. simpl. by rewrite H. Qed.

Lemma inside_iff off n b : inside off n b = true <-> 0 <= off /\ off + n <= room b.
Proof. unfold inside. rewrite andb_true_iff, !Z.leb_le. done. Qed.

Lemma inside_with_mem off n m b : inside off n (with_mem m b) = inside off n b.
Proof. done. Qed.

Lemma mem_load_1 m a : mem_load 1 m a = m a.
Proof. simpl. lia. Qed.

Lemma mem_load_2 m a : mem_load 2 m a = m a + 256 * m (a + 1).
Proof. simpl. lia. Qed.

(** ** The checksum of TCP *)

Lemma high16_iff s : 0 <= s < 2 ^ 32 -> high16 s = (s >? 0xffff).
Proof.
  intros Hs. unfold high16, truth.
  assert (Z.land s 0xffff0000 = Z.shiftl (Z.shiftr s 16) 16) as ->.
  { change 0xffff0000 with (Z.shiftl (Z.ones 16) 16). apply Z.bits_inj'. intros i Hi.
    rewrite Z.land_spec, !Z.shiftl_spec by done.
    destruct (Z.ltb_spec i 16).
    - rewrite !(Z.testbit_neg_r _ (i - 16)) by lia. by rewrite andb_false_r.
    - rewrite Z.shiftr_spec, Z.testbit_ones_nonneg by lia. replace (i - 16 + 16) with i by lia.
      destruct (Z.ltb_spec (i - 16) 16); [by rewrite andb_true_r|].
      rewrite (testbit_small 32 s i) by lia. done. }
  rewrite Z.shiftl_mul_pow2, Z.shiftr_div_pow2 by lia. change (2 ^ 16) with 65536.
  pose proof (Z.div_mod s 65536 ltac:(lia)). pose proof (Z.mod_pos_bound s 65536 ltac:(lia)).
  destruct (Z.eqb_spec (s / 65536 * 65536) 0), (Z.gtb_spec s 0xffff); simpl; lia.
Qed.

Lemma fold16_eq s : 0 <= s < 2 ^ 32 -> fold16 s = s / 65536 + s mod 65536.
Proof.
  intros Hs. unfold fold16. rewrite land_ffff_wrap, Z.shiftr_div_pow2 by lia. unfold u32, wrap at 2.
  change (2 ^ 16) with 65536. apply wrap_small.
  pose proof (Z.mod_pos_bound s 65536 ltac:(lia)). pose proof (Z.div_pos s 65536 ltac:(lia) ltac:(lia)).
  pose proof (Z.div_lt_upper_bound s 65536 65536 ltac:(lia) ltac:(lia)). lia.
Qed.

(** One conditional fold: a small sum that stands for the same number. *)
Lemma fold_once s : 0 <= s < 2 ^ 24 ->
  let s' := if high16 s then fold16 s else s in repr s' s /\ 0 <= s' < 2 ^ 16 + 255.
Proof.
  intros Hs s'. subst s'. rewrite high16_iff by lia. destruct (Z.gtb_spec s 0xffff).
  - rewrite fold16_eq by lia. pose proof (Z.mod_pos_bound s 65536 ltac:(lia)).
    pose proof (Z.div_lt_upper_bound s 65536 256 ltac:(lia) ltac:(lia)).
    pose proof (Z.div_pos s 65536 ltac:(lia) ltac:(lia)).
    split; [apply repr_carry; lia|lia].
  - split; [apply repr_refl; lia|lia].
Qed.

Lemma be_word_eq a b : 0 <= b < 256 -> Z.lor (Z.shiftl a 8) b = 256 * a + b.
Proof. intros. rewrite lor_shiftl_add by lia. lia. Qed.

Lemma sum_be_words_spec n : forall off sum x b,
  byte_mem (mem b) -> inside off (2 * Z.of_nat n) b = true ->
  0 <= sum < 2 ^ 20 -> 0 <= x -> repr sum x ->
  exists s, sum_be_words n off sum b = Ok (s, b) /\ 0 <= s < 2 ^ 20 /\
    repr s (x + total (bytes_at (mem b) off (2 * n))).
Proof.
  induction n as [|n IH]; intros off sum x b Hm Hin Hs Hx Hr.
  - exists sum. split; [done|]. split; [done|]. unfold total. simpl. by rewrite Z.add_0_r.
  - rewrite inside_iff in Hin. pose proof (Hm off). pose proof (Hm (off + 1)).
    cbn [sum_be_words].
    rewrite (bind_ok _ _ _ _ _ (ld_run 1 off b ltac:(rewrite inside_iff; lia))).
    rewrite (bind_ok _ _ _ _ _ (ld_run 1 (off + 1) b ltac:(rewrite inside_iff; lia))).
    rewrite !mem_load_1, be_word_eq by done. set (w := 256 * mem b off + mem b (off + 1)).
    unfold u32. rewrite wrap_small by lia. cbv zeta.
    destruct (fold_once (sum + w) ltac:(lia)) as [Hf1 Hf2].
    destruct (IH (off + 2) (if high16 (sum + w) then fold16 (sum + w) else sum + w) (x + w) b) as (s & Hs1 & Hs2 & Hs3);
      [done|rewrite inside_iff; lia|lia|lia| |].
    + eapply repr_trans; [exact Hf1|]. by apply repr_add; [lia..|].
    + exists s. split; [done|]. split; [done|].
      replace (2 * S n)%nat with (S (S (2 * n))) by lia. rewrite !bytes_at_S.
      replace (off + 1 + 1) with (off + 2) by lia. unfold total in *. cbn [be_words foldr].
      by rewrite Z.add_assoc.
Qed.

(** Two folds are enough for a sum below [2 ^ 24]. *)
Lemma fold_loop_spec s b : 0 <= s < 2 ^ 24 ->
  exists t, fold_loop 16 s b = Ok (t, b) /\ 0 <= t <= 0xffff /\ repr t s.
Proof.
  intros Hs. cbn [fold_loop]. destruct (fold_once s Hs) as [Hr1 Hb1].
  rewrite high16_iff in * by lia. destruct (Z.gtb_spec s 0xffff); [|exists s; eauto using repr_refl with lia].
  revert Hr1 Hb1. generalize (fold16 s). intros s1 Hr1 Hb1.
  rewrite high16_iff by lia. destruct (Z.gtb_spec s1 0xffff); [|exists s1; split; [done|split; [lia|done]]].
  rewrite fold16_eq by lia.
  assert (s1 / 65536 = 1) as Hq by (symmetry; apply (Z.div_unique s1 65536 1 (s1 - 65536)); lia).
  pose proof (Z.div_mod s1 65536 ltac:(lia)). pose proof (repr_carry s1 ltac:(lia)) as Hc. rewrite Hq in *.
  assert (1 + s1 mod 65536 = s1 - 0xffff) as He by lia. rewrite He in *. clear He.
  exists (s1 - 0xffff). rewrite high16_iff by lia.
  destruct (Z.gtb_spec (s1 - 0xffff) 0xffff); [lia|]. split; [done|]. split; [lia|]. by eapply repr_trans.
Qed.

Lemma complement_land s : 0 <= s <= 0xffff -> Z.land (Z.lnot (u16 s)) 0xffff = 0xffff - s.
Proof.
  intros Hs. rewrite land_ffff_wrap. unfold u16. rewrite (wrap_small 16 s) by lia.
  rewrite wrap_neg; unfold Z.lnot; lia.
Qed.

Lemma complement16_eq s : 0 <= s <= 0xffff -> complement16 s = 0xffff - s.
Proof. intros. unfold complement16. rewrite <- complement_land by done. by rewrite land_ffff_wrap. Qed.

(** An address of four bytes. *)
Definition address (a : list Z) : Prop := length a = 4%nat /\ bytes a.

Lemma sum_pseudo_eq src dst : address src -> address dst ->
  sum_pseudo src dst 0 = total src + total dst /\ 0 <= total src < 2 ^ 17 /\ 0 <= total dst < 2 ^ 17.
Proof.
  intros [Hs Bs] [Hd Bd].
  destruct src as [|s0 [|s1 [|s2 [|s3 [|]]]]]; try discriminate Hs.
  destruct dst as [|d0 [|d1 [|d2 [|d3 [|]]]]]; try discriminate Hd.
  unfold bytes in *. repeat match goal with H : Forall _ (_ :: _) |- _ => inversion H; clear H; subst end.
  unfold total. simpl sum_pseudo. rewrite !be_word_eq by done. simpl.
  cbv beta in *. unfold u32.
  rewrite (wrap_small 32 (0 + _)) by lia. rewrite (wrap_small 32 (0 + _ + _)) by lia.
  rewrite (wrap_small 32 (0 + _ + _ + _)) by lia. rewrite wrap_small by lia. lia.
Qed.

(** The bytes of the pseudo header of RFC 793. *)
Definition pseudo_header (src dst : list Z) (proto len : Z) : list Z :=
  src ++ dst ++ [0; proto; len / 256; len mod 256].

Lemma total_pseudo src dst proto len l : address src -> address dst ->
  total (pseudo_header src dst proto len ++ l) = total src + total dst + proto + len + total l.
Proof.
  intros [Hs _] [Hd _]. unfold pseudo_header. rewrite <- !app_assoc.
  rewrite total_app by (by rewrite Hs). rewrite total_app by (by rewrite Hd).
  rewrite total_app by done. unfold total at 3. simpl. pose proof (Z.div_mod len 256 ltac:(lia)). lia.
Qed.

(** The odd byte at the end. *)
Lemma total_odd m off n :
  total (bytes_at m off (2 * n + 1)) = total (bytes_at m off (2 * n)) + 256 * m (off + Z.of_nat (2 * n)).
Proof.
  rewrite bytes_at_app, total_app.
  - f_equal. unfold total, bytes_at. simpl. rewrite !Z.add_0_r. done.
  - rewrite bytes_at_length. by rewrite Nat.even_mul.
Qed.

Definition tcp_clear (hdr : Z) (b : NetBuffer) : NetBuffer := with_mem (mem_store 2 (mem b) (hdr + 16) 0) b.

(** The sum of the words of a segment and of what may be left at its end. *)
Lemma segment_sum hdr len sum x b :
  byte_mem (mem b) -> 0 <= len -> inside hdr len b = true -> 0 <= sum < 2 ^ 20 -> 0 <= x -> repr sum x ->
  exists s, (sum ← sum_be_words (Z.to_nat (len / 2)) hdr sum ;
             if len mod 2 =? 0 then ret sum else a ← ld 1 (hdr + len - 1) ; ret (u32 (sum + Z.shiftl a 8))) b
    = Ok (s, b) /\ 0 <= s < 2 ^ 24 /\ repr s (x + total (bytes_at (mem b) hdr (Z.to_nat len))).
Proof.
  intros Hm Hlen Hin Hs Hx Hr. pose proof (Z.div_mod len 2 ltac:(lia)) as Hd.
  pose proof (Z.mod_pos_bound len 2 ltac:(lia)). pose proof (Z.div_pos len 2 Hlen ltac:(lia)).
  rewrite inside_iff in Hin.
  destruct (sum_be_words_spec (Z.to_nat (len / 2)) hdr sum x b) as (s & Hs1 & Hs2 & Hs3);
    [done|rewrite inside_iff; lia|done..|].
  rewrite (bind_ok _ _ _ _ _ Hs1). set (k := Z.to_nat (len / 2)) in *.
  destruct (Z.eqb_spec (len mod 2) 0).
  - exists s. replace (Z.to_nat len) with (2 * k)%nat by lia. split; [done|]. split; [lia|done].
  - rewrite (bind_ok _ _ _ _ _ (ld_run 1 (hdr + len - 1) b ltac:(rewrite inside_iff; lia))), mem_load_1.
    replace (Z.to_nat len) with (2 * k + 1)%nat by lia. rewrite total_odd.
    replace (hdr + len - 1) with (hdr + Z.of_nat (2 * k)) by lia. pose proof (Hm (hdr + Z.of_nat (2 * k))).
    set (v := mem b _) in *. rewrite Z.shiftl_mul_pow2 by lia. change (2 ^ 8) with 256.
    unfold u32. rewrite wrap_small by lia. exists (s + v * 256). split; [done|]. split; [lia|].
    rewrite Z.add_assoc, (Z.mul_comm v). apply repr_add; [|lia|done].
    pose proof (total_nonneg _ (bytes_at_bytes (mem b) hdr (2 * k) Hm)). lia.
Qed.

Lemma pseudo_bytes src dst proto len : address src -> address dst -> 0 <= proto < 256 -> 0 <= len < 2 ^ 16 ->
  bytes (pseudo_header src dst proto len).
Proof.
  intros [_ Hs] [_ Hd] Hp Hl. unfold bytes, pseudo_header in *. rewrite !Forall_app. repeat split; [done|done|].
  pose proof (Z.div_lt_upper_bound len 256 256 ltac:(lia) ltac:(lia)).
  pose proof (Z.div_pos len 256 ltac:(lia) ltac:(lia)). pose proof (Z.mod_pos_bound len 256 ltac:(lia)).
  repeat constructor; lia.
Qed.

Lemma tcp_checksum_run hdr len src dst b :
  byte_mem (mem b) -> 18 <= len < 2 ^ 16 -> inside hdr len b = true -> address src -> address dst ->
  tcp_checksum hdr len src dst b =
    Ok (inet_checksum (pseudo_header src dst IP_PROTO_TCP len ++ bytes_at (mem (tcp_clear hdr b)) hdr (Z.to_nat len)),
        tcp_clear hdr b).
Proof.
  intros Hm Hlen Hin Hsrc Hdst. unfold tcp_checksum.
  rewrite (bind_ok _ _ _ _ _ (st_run 2 (hdr + 16) 0 b ltac:(rewrite inside_iff in *; lia))). fold (tcp_clear hdr b).
  destruct (sum_pseudo_eq src dst Hsrc Hdst) as (-> & Hbs & Hbd). cbv zeta.
  set (x := total src + total dst + IP_PROTO_TCP + len).
  assert (u32 (u32 (total src + total dst + IP_PROTO_TCP) + len) = x) as ->.
  { unfold u32. rewrite wrap_add_l. subst x. apply wrap_small. unfold IP_PROTO_TCP. lia. }
  assert (byte_mem (mem (tcp_clear hdr b))) as Hm' by (by apply mem_store_byte_mem).
  destruct (segment_sum hdr len x x (tcp_clear hdr b)) as (s & Hs1 & Hs2 & Hs3);
    [done|lia|done|subst x; unfold IP_PROTO_TCP; lia|subst x; unfold IP_PROTO_TCP; lia|
     apply repr_refl; subst x; unfold IP_PROTO_TCP; lia|].
  rewrite <- bind_assoc, (bind_ok _ _ _ _ _ Hs1).
  destruct (fold_loop_spec s (tcp_clear hdr b) Hs2) as (t & Ht1 & Ht2 & Ht3).
  rewrite (bind_ok _ _ _ _ _ Ht1). unfold ret, inet_checksum. rewrite complement_land by done.
  rewrite <- (inet_sum_unique t); [done| | |lia].
  - apply Forall_app. split; [by apply pseudo_bytes; [..|unfold IP_PROTO_TCP; lia|lia]|by apply bytes_at_bytes].
  - rewrite total_pseudo by done. fold x. by eapply repr_trans.
Qed.

(** ** The checksum of IPv4, on words of the other byte order *)

Lemma SWAP_WORD_eq n : 0 <= n < 2 ^ 16 -> SWAP_WORD n = 256 * (n mod 256) + n / 256.
Proof.
  intros Hn. unfold SWAP_WORD. change 0xff with (Z.ones 8). rewrite Z.land_ones by lia.
  replace (Z.shiftr (Z.land n 0xff00) 8) with (n / 256).
  - rewrite lor_shiftl_add; [change (2 ^ 8) with 256; lia|lia|].
    split; [apply Z.div_pos; lia|apply Z.div_lt_upper_bound; lia].
  - change 0xff00 with (Z.shiftl (Z.ones 8) 8). rewrite Z.shiftr_land, Z.shiftr_shiftl_l by lia.
    change (Z.shiftl (Z.ones 8) (8 - 8)) with (Z.ones 8).
    rewrite Z.land_ones, Z.shiftr_div_pow2 by lia. change (2 ^ 8) with 256. symmetry. apply Z.mod_small.
    split; [apply Z.div_pos; lia|apply Z.div_lt_upper_bound; lia].
Qed.

(** A word below [2 ^ 16] is two bytes. *)
Lemma two_bytes n : 0 <= n < 2 ^ 16 ->
  exists h l, n = 256 * h + l /\ 0 <= h < 256 /\ 0 <= l < 256 /\ n / 256 = h /\ n mod 256 = l.
Proof.
  intros Hn. exists (n / 256), (n mod 256). pose proof (Z.div_mod n 256 ltac:(lia)).
  pose proof (Z.mod_pos_bound n 256 ltac:(lia)). pose proof (Z.div_pos n 256 ltac:(lia) ltac:(lia)).
  pose proof (Z.div_lt_upper_bound n 256 256 ltac:(lia) ltac:(lia)). lia.
Qed.

Lemma SWAP_WORD_bytes h l : 0 <= h < 256 -> 0 <= l < 256 -> SWAP_WORD (256 * h + l) = 256 * l + h.
Proof.
  intros Hh Hl. rewrite SWAP_WORD_eq by lia.
  rewrite <- (Z.div_unique (256 * h + l) 256 h l), <- (Z.mod_unique (256 * h + l) 256 h l); lia.
Qed.

Lemma SWAP_WORD_range n : 0 <= n < 2 ^ 16 -> 0 <= SWAP_WORD n < 2 ^ 16.
Proof. intros (h & l & -> & Hh & Hl & _)%two_bytes. rewrite SWAP_WORD_bytes; lia. Qed.

Lemma SWAP_WORD_involutive n : 0 <= n < 2 ^ 16 -> SWAP_WORD (SWAP_WORD n) = n.
Proof. intros (h & l & -> & Hh & Hl & _)%two_bytes. rewrite !SWAP_WORD_bytes; lia. Qed.

Lemma SWAP_WORD_complement n : 0 <= n <= 0xffff -> SWAP_WORD (0xffff - n) = 0xffff - SWAP_WORD n.
Proof.
  intros Hn. destruct (two_bytes n ltac:(lia)) as (h & l & -> & Hh & Hl & _).
  replace (0xffff - (256 * h + l)) with (256 * (255 - h) + (255 - l)) by lia.
  rewrite !SWAP_WORD_bytes; lia.
Qed.

(** Swapping is a multiplication by 256. *)
Lemma SWAP_WORD_repr n : 0 <= n <= 0xffff -> repr (SWAP_WORD n) (256 * n).
Proof.
  intros Hn. destruct (two_bytes n ltac:(lia)) as (h & l & -> & Hh & Hl & _).
  rewrite SWAP_WORD_bytes by done. split; [lia|]. split; [|lia].
  replace (256 * (256 * h + l)) with (256 * l + h + h * 0xffff) by lia. by rewrite Z.mod_add by lia.
Qed.

Lemma repr_mul k s x : 0 < k -> repr s x -> repr (k * s) (k * x).
Proof.
  intros Hk (H0 & Hm & Hz). split; [lia|]. split; [|lia].
  by rewrite (Z.mul_mod k s), (Z.mul_mod k x), Hm by lia.
Qed.

Lemma repr_65536 x : 0 <= x -> repr (65536 * x) x.
Proof.
  intros Hx. split; [lia|]. split; [|lia].
  replace (65536 * x) with (x + x * 0xffff) by lia. by rewrite Z.mod_add by lia.
Qed.

(** The sum of the words in the other byte order, swapped, is the sum. *)
Lemma repr_swapped s x : 0 <= s <= 0xffff -> 0 <= x -> repr s (256 * x) -> repr (SWAP_WORD s) x.
Proof.
  intros Hs Hx Hr. eapply repr_trans; [by apply SWAP_WORD_repr|].
  eapply repr_trans; [|by apply repr_65536].
  replace (65536 * x) with (256 * (256 * x)) by lia. by apply repr_mul.
Qed.

Lemma CHECKSUM_ADD_oadd s d : 0 <= s <= 0xffff -> 0 <= d <= 0xffff -> CHECKSUM_ADD s d = oadd d s.
Proof.
  intros Hs Hd. unfold CHECKSUM_ADD, oadd, u32. rewrite wrap_small by lia. rewrite (Z.add_comm d s).
  destruct (Z.gtb_spec (s + d) 0xffff); [|done].
  rewrite land_ffff_wrap, wrap_over by lia. rewrite Z.shiftr_div_pow2 by lia.
  rewrite <- (Z.div_unique (s + d) (2 ^ 16) 1 (s + d - 65536)) by lia. lia.
Qed.

Lemma sum_words_spec n : forall off sum x b,
  byte_mem (mem b) -> inside off (2 * Z.of_nat n) b = true ->
  0 <= sum <= 0xffff -> 0 <= x -> repr sum (256 * x) ->
  exists s, sum_words n off sum b = Ok (s, b) /\ 0 <= s <= 0xffff /\
    repr s (256 * (x + total (bytes_at (mem b) off (2 * n)))).
Proof.
  induction n as [|n IH]; intros off sum x b Hm Hin Hs Hx Hr.
  - exists sum. split; [done|]. split; [done|]. unfold total. simpl. by rewrite Z.add_0_r.
  - rewrite inside_iff in Hin. pose proof (Hm off) as Ha. pose proof (Hm (off + 1)) as Hb.
    cbn [sum_words].
    rewrite (bind_ok _ _ _ _ _ (ld_run 2 off b ltac:(rewrite inside_iff; lia))), mem_load_2.
    set (u := mem b off) in *. set (v := mem b (off + 1)) in *.
    rewrite CHECKSUM_ADD_oadd by lia.
    destruct (IH (off + 2) (oadd (u + 256 * v) sum) (x + (256 * u + v)) b) as (s & Hs1 & Hs2 & Hs3);
      [done|rewrite inside_iff; lia|apply oadd_range; lia|lia| |].
    + apply (repr_trans _ (u + 256 * v + 256 * x)); [apply oadd_repr; [lia|lia|lia|done]|].
      replace (256 * (x + (256 * u + v))) with (256 * x + 256 * (256 * u + v)) by lia.
      rewrite (Z.add_comm _ (256 * x)), !(Z.add_comm (256 * x)). apply repr_add; [lia|lia|].
      rewrite (Z.add_comm u), <- SWAP_WORD_bytes by done. apply SWAP_WORD_repr. lia.
    + exists s. split; [done|]. split; [done|].
      replace (2 * S n)%nat with (S (S (2 * n))) by lia. rewrite !bytes_at_S.
      replace (off + 1 + 1) with (off + 2) by lia. unfold total in *. cbn [be_words foldr].
      rewrite <- Z.add_assoc in Hs3. done.
Qed.

Definition ipv4_clear (hdr : Z) (b : NetBuffer) : NetBuffer := with_mem (mem_store 2 (mem b) (hdr + 10) 0) b.

(** The checksum of a header, the field itself taken as zero. *)
Definition header_checksum (m : Z -> Z) (hdr : Z) : Z :=
  inet_checksum (bytes_at (mem_store 2 m (hdr + 10) 0) hdr 20).

Lemma header_checksum_range m hdr : byte_mem m -> 0 <= header_checksum m hdr <= 0xffff.
Proof.
  intros Hm. unfold header_checksum, inet_checksum.
  destruct (inet_sum_spec _ (bytes_at_bytes _ hdr 20 (mem_store_byte_mem 2 m (hdr + 10) 0 Hm))). lia.
Qed.

Lemma ipv4_checksum_run hdr b :
  byte_mem (mem b) -> inside hdr 20 b = true ->
  ipv4_checksum hdr b =
    Ok (tt, with_mem (mem_store 2 (mem (ipv4_clear hdr b)) (hdr + 10) (HOST2BE_WORD (header_checksum (mem b) hdr))) b).
Proof.
  intros Hm Hin. unfold ipv4_checksum.
  rewrite (bind_ok _ _ _ _ _ (st_run 2 (hdr + 10) 0 b ltac:(rewrite inside_iff in *; lia))). fold (ipv4_clear hdr b).
  assert (byte_mem (mem (ipv4_clear hdr b))) as Hm' by (by apply mem_store_byte_mem).
  destruct (sum_words_spec 10 hdr 0 0 (ipv4_clear hdr b)) as (s & Hs1 & Hs2 & Hs3);
    [done|done|lia|lia|by apply repr_refl|].
  rewrite (bind_ok _ _ _ _ _ Hs1).
  rewrite (st_run 2 (hdr + 10) _ (ipv4_clear hdr b) ltac:(rewrite inside_iff in *; simpl in *; lia)).
  set (l := bytes_at (mem (ipv4_clear hdr b)) hdr 20) in *.
  assert (bytes l) as Hl by (by apply bytes_at_bytes).
  assert (SWAP_WORD s = inet_sum l) as Hsum.
  { apply inet_sum_unique; [done| |pose proof (SWAP_WORD_range s ltac:(lia)); lia].
    by apply repr_swapped; [..|apply total_nonneg|]. }
  replace (complement16 s) with (HOST2BE_WORD (header_checksum (mem b) hdr)); [done|].
  change (header_checksum (mem b) hdr) with (0xffff - inet_sum l).
  rewrite <- Hsum, SWAP_WORD_complement, SWAP_WORD_involutive;
    [by rewrite complement16_eq|lia|pose proof (SWAP_WORD_range s ltac:(lia)); lia].
Qed.

(** ** The checksums of ICMP and UDP *)

Lemma swapped_sum s l : bytes l -> 0 <= s <= 0xffff -> repr s (256 * total l) ->
  complement16 s = HOST2BE_WORD (inet_checksum l).
Proof.
  intros Hl Hs Hr. pose proof (SWAP_WORD_range s ltac:(lia)).
  assert (SWAP_WORD s = inet_sum l) as Hsum.
  { apply inet_sum_unique; [done|by apply repr_swapped; [..|apply total_nonneg|]|lia]. }
  unfold inet_checksum. rewrite <- Hsum, SWAP_WORD_complement, SWAP_WORD_involutive, complement16_eq; lia.
Qed.

Definition clear_at (off : Z) (b : NetBuffer) : NetBuffer := with_mem (mem_store 2 (mem b) off 0) b.

Lemma icmp_checksum_run hdr len b :
  byte_mem (mem b) -> 8 <= len -> len mod 2 = 0 -> inside hdr len b = true ->
  icmp_checksum hdr len b =
    Ok (HOST2BE_WORD (inet_checksum (bytes_at (mem (clear_at (hdr + 2) b)) hdr (Z.to_nat len))), clear_at (hdr + 2) b).
Proof.
  intros Hm Hl Hl2 Hin. rewrite inside_iff in Hin. unfold icmp_checksum. pose proof (Z.div_mod len 2 ltac:(lia)).
  rewrite (bind_ok _ _ _ _ _ (st_run 2 (hdr + 2) 0 b ltac:(rewrite inside_iff; lia))). fold (clear_at (hdr + 2) b).
  assert (byte_mem (mem (clear_at (hdr + 2) b))) as Hm' by (by apply mem_store_byte_mem).
  destruct (sum_words_spec (Z.to_nat (len / 2)) hdr 0 0 (clear_at (hdr + 2) b)) as (s & Hs1 & Hs2 & Hs3);
    [done|rewrite inside_iff; simpl; lia|lia|lia|by apply repr_refl|].
  rewrite (bind_ok _ _ _ _ _ Hs1). replace (2 * Z.to_nat (len / 2))%nat with (Z.to_nat len) in Hs3 by lia.
  unfold ret. by rewrite (swapped_sum s (bytes_at (mem (clear_at (hdr + 2) b)) hdr (Z.to_nat len))) by
    (done || by apply bytes_at_bytes).
Qed.

Lemma CHECKSUM_ADD_repr sum x w v : 0 <= sum <= 0xffff -> 0 <= x -> repr sum (256 * x) -> 0 <= v < 2 ^ 16 ->
  w = SWAP_WORD v -> 0 <= CHECKSUM_ADD sum w <= 0xffff /\ repr (CHECKSUM_ADD sum w) (256 * (x + v)).
Proof.
  intros Hs Hx Hr Hv ->. pose proof (SWAP_WORD_range v Hv). rewrite CHECKSUM_ADD_oadd by lia.
  split; [apply oadd_range; lia|]. apply (repr_trans _ (SWAP_WORD v + 256 * x)); [apply oadd_repr; [lia|lia|lia|done]|].
  replace (256 * (x + v)) with (256 * v + 256 * x) by lia. apply repr_add; [lia|lia|]. apply SWAP_WORD_repr. lia.
Qed.

Lemma sum_addr_repr a sum x : address a -> 0 <= sum <= 0xffff -> 0 <= x -> repr sum (256 * x) ->
  0 <= sum_addr a sum <= 0xffff /\ repr (sum_addr a sum) (256 * (x + total a)).
Proof.
  intros [Hl Hb] Hs Hx Hr. destruct a as [|a0 [|a1 [|a2 [|a3 [|]]]]]; try discriminate Hl.
  unfold bytes in Hb. repeat match goal with H : Forall _ (_ :: _) |- _ => inversion H; clear H; subst end.
  cbv beta in *. cbn [sum_addr]. unfold total. cbn [be_words foldr].
  destruct (CHECKSUM_ADD_repr sum x (a0 + 256 * a1) (256 * a0 + a1)) as [Hs1 Hr1];
    [done|done|done|lia|rewrite SWAP_WORD_bytes; lia|].
  destruct (CHECKSUM_ADD_repr _ (x + (256 * a0 + a1)) (a2 + 256 * a3) (256 * a2 + a3) Hs1 ltac:(lia) Hr1) as [Hs2 Hr2];
    [lia|rewrite SWAP_WORD_bytes; lia|].
  split; [done|]. by replace (x + (256 * a0 + a1 + (256 * a2 + a3 + 0))) with (x + (256 * a0 + a1) + (256 * a2 + a3)) by lia.
Qed.

(** The last byte of a datagram of odd length is the low byte of a word. *)
Lemma udp_last_byte sum x c : 0 <= sum <= 0xffff -> 0 <= x -> repr sum (256 * x) -> 0 <= c < 256 ->
  exists s, 0 <= s <= 0xffff /\ repr s (256 * (x + 256 * c)) /\
    u16 (u32 (sum + c) + Z.shiftr (u32 (sum + c)) 16) = s.
Proof.
  intros Hs Hx Hr Hc.
  destruct (CHECKSUM_ADD_repr sum x c (256 * c) Hs Hx Hr ltac:(lia)) as [Hs1 Hr1].
  { replace (256 * c) with (256 * c + 0) by lia. rewrite SWAP_WORD_bytes; lia. }
  eexists. split; [exact Hs1|]. split; [exact Hr1|]. rewrite CHECKSUM_ADD_oadd by lia.
  unfold u32. rewrite (wrap_small 32) by lia. rewrite Z.shiftr_div_pow2 by lia. change (2 ^ 16) with 65536. unfold oadd.
  rewrite (Z.add_comm c). destruct (Z.gtb_spec (sum + c) 0xffff).
  - assert ((sum + c) / 65536 = 1) as -> by (symmetry; apply (Z.div_unique _ _ _ (sum + c - 65536)); lia).
    unfold u16, wrap. symmetry. apply (Z.mod_unique _ _ 1); change (2 ^ 16) with 65536; lia.
  - rewrite (Z.div_small (sum + c)) by lia. unfold u16. rewrite wrap_small; lia.
Qed.

Lemma be_length_field m a : byte_mem m ->
  mem_load 2 m a = SWAP_WORD (256 * m a + m (a + 1)) /\ 0 <= 256 * m a + m (a + 1) < 2 ^ 16.
Proof.
  intros Hm. pose proof (Hm a). pose proof (Hm (a + 1)). rewrite mem_load_2, SWAP_WORD_bytes by lia. lia.
Qed.

(** The words of the datagram, its last byte and the last addition. *)
Lemma datagram_sum hdr len sum x b :
  byte_mem (mem b) -> 0 <= len -> inside hdr len b = true -> 0 <= sum <= 0xffff -> 0 <= x -> repr sum (256 * x) ->
  exists s, (sum ← sum_words (Z.to_nat (len / 2)) hdr sum ;
             sum ← (if len mod 2 =? 0 then ret sum else x ← ld 1 (hdr + len - 1) ; ret (u32 (sum + x))) ;
             ret (complement16 (sum + Z.shiftr sum 16))) b = Ok (complement16 s, b) /\
    0 <= s <= 0xffff /\ repr s (256 * (x + total (bytes_at (mem b) hdr (Z.to_nat len)))).
Proof.
  intros Hm Hlen Hin Hs Hx Hr. pose proof (Z.div_mod len 2 ltac:(lia)) as Hd.
  pose proof (Z.mod_pos_bound len 2 ltac:(lia)). pose proof (Z.div_pos len 2 Hlen ltac:(lia)).
  rewrite inside_iff in Hin.
  destruct (sum_words_spec (Z.to_nat (len / 2)) hdr sum x b) as (s & Hs1 & Hs2 & Hs3);
    [done|rewrite inside_iff; lia|done..|].
  rewrite (bind_ok _ _ _ _ _ Hs1). set (k := Z.to_nat (len / 2)) in *.
  pose proof (total_nonneg _ (bytes_at_bytes (mem b) hdr (2 * k) Hm)).
  destruct (Z.eqb_spec (len mod 2) 0).
  - exists s. replace (Z.to_nat len) with (2 * k)%nat by lia. split; [|done].
    unfold bind, ret. rewrite Z.shiftr_div_pow2, Z.div_small, Z.add_0_r by lia. done.
  - rewrite (bind_ok _ _ _ (u32 (s + mem b (hdr + len - 1))) b).
    2:{ rewrite (bind_ok _ _ _ _ _ (ld_run 1 (hdr + len - 1) b ltac:(rewrite inside_iff; lia))). by rewrite mem_load_1. }
    replace (Z.to_nat len) with (2 * k + 1)%nat by lia. rewrite total_odd.
    replace (hdr + len - 1) with (hdr + Z.of_nat (2 * k)) by lia.
    destruct (udp_last_byte s (x + total (bytes_at (mem b) hdr (2 * k))) (mem b (hdr + Z.of_nat (2 * k))))
      as (t & Ht1 & Ht2 & Ht3); [done|lia|done|apply Hm|].
    exists t. rewrite Z.add_assoc. split; [|done]. unfold ret, complement16. rewrite Ht3. unfold u16 at 3.
    by rewrite (wrap_small 16 t) by lia.
Qed.

Lemma udp_checksum_run src dst hdr b :
  byte_mem (mem b) -> address src -> address dst -> 8 <= btail b - bdata b < 2 ^ 16 ->
  inside hdr (btail b - bdata b) b = true ->
  let b' := clear_at (hdr + 6) b in
  udp_checksum src dst hdr b =
    Ok (HOST2BE_WORD (inet_checksum
          (pseudo_header src dst IP_PROTO_UDP (256 * mem b' (hdr + 4) + mem b' (hdr + 5)) ++
           bytes_at (mem b') hdr (Z.to_nat (btail b - bdata b)))), b').
Proof.
  intros Hm Hsrc Hdst Hlen Hin b'. unfold udp_checksum. rewrite (bind_ok (gets id) _ b b b eq_refl).
  remember (btail b - bdata b) as len eqn:Hlb. clear Hlb. unfold u16. rewrite (wrap_small 16 len) by lia. cbv zeta.
  rewrite inside_iff in Hin.
  rewrite (bind_ok _ _ _ _ _ (st_run 2 (hdr + 6) 0 b ltac:(rewrite inside_iff; lia))). fold (clear_at (hdr + 6) b).
  fold b'. assert (byte_mem (mem b')) as Hm' by (by apply mem_store_byte_mem).
  rewrite (bind_ok _ _ _ _ _ (ld_run 2 (hdr + 4) b' ltac:(rewrite inside_iff; simpl; lia))).
  destruct (be_length_field (mem b') (hdr + 4) Hm') as [Hf Hfr]. replace (hdr + 4 + 1) with (hdr + 5) in * by lia.
  set (f := 256 * mem b' (hdr + 4) + mem b' (hdr + 5)) in *. rewrite Hf.
  pose proof (total_nonneg src (proj2 Hsrc)). pose proof (total_nonneg dst (proj2 Hdst)).
  destruct (sum_addr_repr src 0 0 Hsrc ltac:(lia) ltac:(lia) (repr_refl 0 ltac:(lia))) as [R1 R1'].
  destruct (sum_addr_repr dst _ (0 + total src) Hdst R1 ltac:(lia) R1') as [R2 R2'].
  destruct (CHECKSUM_ADD_repr _ (0 + total src + total dst) (HOST2BE_WORD IP_PROTO_UDP) IP_PROTO_UDP R2 ltac:(lia) R2')
    as [R3 R3']; [done|done|].
  destruct (CHECKSUM_ADD_repr _ (0 + total src + total dst + IP_PROTO_UDP) (SWAP_WORD f) f R3
    ltac:(unfold IP_PROTO_UDP; lia) R3' Hfr eq_refl) as [R4 R4'].
  destruct (datagram_sum hdr len _ (0 + total src + total dst + IP_PROTO_UDP + f) b' Hm' ltac:(lia)
    ltac:(rewrite inside_iff; simpl; lia) R4 ltac:(unfold IP_PROTO_UDP; lia) R4') as (s & -> & Hs & Hr).
  rewrite (swapped_sum s (pseudo_header src dst IP_PROTO_UDP f ++ bytes_at (mem b') hdr (Z.to_nat len))); [done| |done|].
  - apply Forall_app. split; [by apply pseudo_bytes; [..|unfold IP_PROTO_UDP; lia|lia]|by apply bytes_at_bytes].
  - by rewrite total_pseudo, <- (Z.add_0_l (total src)) by done.
Qed.
