(* ===== verification/Tcp.v ===== *)
(** * TCP (src/driver/network/protocols/tcp.c)

    Connections as the code keeps them, with their packet buffers and windows; what is
    handed to the device and the wake-ups of the threads that wait for a change of state
    are recorded.  An operation that waits is split at the point where it waits. *)

From stdpp Require Import base tactics list.
From S2P Require Import Prelude CMonad Net.
Local Open Scope Z_scope.

Definition TCP_FLAG_FIN : Z := 0x01.
Definition TCP_FLAG_SYN : Z := 0x02.
Definition TCP_FLAG_RST : Z := 0x04.
Definition TCP_FLAG_PSH : Z := 0x08.
Definition TCP_FLAG_ACK : Z := 0x10.
Definition TCP_OPTION_END : Z := 0.
Definition TCP_OPTION_NOP : Z := 1.
Definition TCP_OPTION_MSS : Z := 2.
Definition TCP_MSL : Z := 120 * 1000.
Definition TOI_MAX : Z := 1.
Definition send_win_default_size : Z := 32768.
Definition recv_win_default_size : Z := 32768.
Definition min_ephemeral_port : Z := 32768.
Definition max_ephemeral_port : Z := 65535.
Definition tcp_max_retries : Z := 15.
Definition tcp_fin_timeout : Z := 60 * 1000.

(** ** State *)

Record World : Type := mkWorld {
  conn : Conn; rx : NetBuffer; now : Z; isn_counter : Z; sent : list (list Z); wakes : nat
}.

Definition set_conn (c : Conn) (w : World) : World :=
  mkWorld c (rx w) (now w) (isn_counter w) (sent w) (wakes w).
Definition set_rx (b : NetBuffer) (w : World) : World :=
  mkWorld (conn w) b (now w) (isn_counter w) (sent w) (wakes w).

Definition on_conn {A} (m : M Conn A) : M World A := fun w =>
  match m (conn w) with
  | Ok (a, c) => Ok (a, set_conn c w)
  | Undef => Undef
  | NoFuel => NoFuel
  end.
Definition on_buf {A} (m : M NetBuffer A) : M World A := on_conn (on_buffer m).
Definition on_rx {A} (m : M NetBuffer A) : M World A := fun w =>
  match m (rx w) with
  | Ok (a, b) => Ok (a, set_rx b w)
  | Undef => Undef
  | NoFuel => NoFuel
  end.

(** [tcp->...], through a pointer that must not be null. *)
Definition the_tcp : M World Tcp := w ← gets id ; of_option (tcp (conn w)).
Definition upd_tcp (f : Tcp -> Tcp) : M World unit :=
  t ← the_tcp ; modify (fun w => set_conn (set_tcp (conn w) (Some (f t))) w).

Definition set_state (s : TcpState) (t : Tcp) : Tcp :=
  mkTcp s (header t) (mss t) (send t) (send_window t) (recv t) (recv_window t) (cur t) (rtt t) (timeout_timer t).
Definition set_header (h : Z) (t : Tcp) : Tcp :=
  mkTcp (state t) (Some h) (mss t) (send t) (send_window t) (recv t) (recv_window t) (cur t) (rtt t) (timeout_timer t).
Definition set_mss (m : Z) (t : Tcp) : Tcp :=
  mkTcp (state t) (header t) m (send t) (send_window t) (recv t) (recv_window t) (cur t) (rtt t) (timeout_timer t).
Definition set_send (s : SendSpace) (t : Tcp) : Tcp :=
  mkTcp (state t) (header t) (mss t) s (send_window t) (recv t) (recv_window t) (cur t) (rtt t) (timeout_timer t).
Definition set_send_window (x : Window) (t : Tcp) : Tcp :=
  mkTcp (state t) (header t) (mss t) (send t) x (recv t) (recv_window t) (cur t) (rtt t) (timeout_timer t).
Definition set_recv (r : RecvSpace) (t : Tcp) : Tcp :=
  mkTcp (state t) (header t) (mss t) (send t) (send_window t) r (recv_window t) (cur t) (rtt t) (timeout_timer t).
Definition set_recv_window (x : Window) (t : Tcp) : Tcp :=
  mkTcp (state t) (header t) (mss t) (send t) (send_window t) (recv t) x (cur t) (rtt t) (timeout_timer t).
Definition set_cur (s : Segment) (t : Tcp) : Tcp :=
  mkTcp (state t) (header t) (mss t) (send t) (send_window t) (recv t) (recv_window t) s (rtt t) (timeout_timer t).
Definition set_rtt (r : Rtt) (t : Tcp) : Tcp :=
  mkTcp (state t) (header t) (mss t) (send t) (send_window t) (recv t) (recv_window t) (cur t) r (timeout_timer t).
Definition set_timer (x : Timer) (t : Tcp) : Tcp :=
  mkTcp (state t) (header t) (mss t) (send t) (send_window t) (recv t) (recv_window t) (cur t) (rtt t) x.

Definition set_seq (v : Z) (t : Tcp) : Tcp := set_cur (mkSegment (u32 v) (ack_ (cur t)) (fin_seq (cur t))) t.
Definition set_ack (v : Z) (t : Tcp) : Tcp := set_cur (mkSegment (seq_ (cur t)) (u32 v) (fin_seq (cur t))) t.
Definition set_fin_seq (v : Z) (t : Tcp) : Tcp := set_cur (mkSegment (seq_ (cur t)) (ack_ (cur t)) v) t.

Definition set_conn_state (s : ConnState) : M World unit := on_conn (modify (fun c => set_cstate c s)).

(** [kfree] of kmalloc.rs, for windows, which are whole pages: a null pointer is only reported,
    and pages that are free already are refused, which the caller does not see; pages with a
    new owner are taken from it. *)
Definition kfree (x : Window) : M World Window :=
  match x with Null => ret Null | Block _ _ | Freed => ret Freed | Reused => undef end.

(** Copies of [n] bytes to and from a window. *)
Definition win_write (x : Window) (off : Z) (l : list Z) : M World Window :=
  if (length l =? 0)%nat then ret x
  else match x with
       | Block m n =>
         defined_if ((0 <=? off) && (off + Z.of_nat (length l) <=? n)) ;; ret (Block (put_bytes m off l) n)
       | _ => undef
       end.
Definition win_read (x : Window) (off n : Z) : M World (list Z) :=
  if n =? 0 then ret []
  else match x with
       | Block m k => defined_if ((0 <=? off) && (0 <=? n) && (off + n <=? k)) ;; ret (bytes_at m off (Z.to_nat n))
       | _ => undef
       end.

Definition wait_queue_wake_all : M World unit :=
  modify (fun w => mkWorld (conn w) (rx w) (now w) (isn_counter w) (sent w) (S (wakes w))).

(** [NETWORK_SEND]: the device gets the bytes from [head] to [tail]. *)
Definition NETWORK_SEND : M World unit :=
  b ← gets (fun w => buffer (conn w)) ;
  p ← on_buf (rd (bhead b) (btail b - bhead b)) ;
  modify (fun w => mkWorld (conn w) (rx w) (now w) (isn_counter w) (sent w ++ [p]) (wakes w)).

(** ** Initial sequence numbers *)

(** fnv1_hash_32 of hash/fnv.c. *)
Definition fnv1_hash_32 (l : list Z) : Z :=
  fold_left (fun hash b => Z.lxor (u32 (hash * 0x01000193)) b) l 0x811c9dc5.

Definition tcp_generate_isn (pair : list Z) : M World Z :=
  modify (fun w => mkWorld (conn w) (rx w) (now w) (u32 (isn_counter w + 1)) (sent w) (wakes w)) ;;
  w ← gets id ;
  ret (u32 (u32 (now w + fnv1_hash_32 pair) + isn_counter w)).

(** ** The retransmission timer *)

Definition int_ok (x : Z) : bool := (- 2 ^ 31 <=? x) && (x <? 2 ^ 31).

Definition tcp_compute_retransmission_timer (r : Z) (x : Rtt) : option Rtt :=
  if r =? 0 then
    Some (if rttvar x =? 0 then mkRtt (send_time x) (send_seq x) (rttvar x) (srtt x) 1000 (retry_times x) else x)
  else
    let '(v, s) :=
      if rttvar x =? 0 then (Z.quot r 2, r)
      else (Z.quot (3 * rttvar x + Z.abs (srtt x - r)) 4, Z.quot (7 * srtt x + r) 8) in
    let o := s + Z.max 1000 (4 * v) in
    if (if rttvar x =? 0 then true
        else int_ok (3 * rttvar x) && int_ok (srtt x - r) && int_ok (3 * rttvar x + Z.abs (srtt x - r)) &&
             int_ok (7 * srtt x) && int_ok (7 * srtt x + r)) && int_ok (4 * v) && int_ok o
    then Some (mkRtt (send_time x) (send_seq x) v s (Z.min o (60 * 1000)) (retry_times x))
    else None.

Definition compute_rto (r : Z) : M World unit :=
  t ← the_tcp ; x ← of_option (tcp_compute_retransmission_timer r (rtt t)) ; upd_tcp (set_rtt x).

(** ** Sending *)

(** [tcp->header], which must have been set. *)
Definition the_header : M World Z := t ← the_tcp ; of_option (header t).

Section tcp.
(** The frequency of the timer, what [kmalloc] returns for a size, and the table of
    neighbours. *)
Context (freq : Z) (kmalloc : Z -> Window) (lookup_mac : list Z -> option (list Z)).

Definition set_rto_timeout (ms : Z) : M World unit :=
  w ← gets id ;
  upd_tcp (fun t =>
    set_timer (timer_callback_enable (timer_set_timeout (now w) (timer_count_ms freq ms) (timeout_timer t))) t).

Definition content_size (b : NetBuffer) : Z := btail b - bdata b.

Definition tcp_send_packet (option_size : Z) (with_timer : bool) : M World unit :=
  hdr ← the_header ;
  t ← the_tcp ;
  c ← gets conn ;
  on_buf (
    st 4 (hdr + 4) (HOST2BE_DWORD (seq_ (cur t))) ;;
    st 4 (hdr + 8) (HOST2BE_DWORD (ack_ (cur t))) ;;
    st 2 (hdr + 14) (HOST2BE_WORD (rwindow (recv t))) ;;
    st 1 (hdr + 12) (Z.shiftl (Z.shiftr (20 + option_size) 2) 4) ;;
    sum ← tcp_checksum hdr (content_size (buffer c) + 20) (local_ip c) (remote_ip c) ;
    st 2 (hdr + 16) sum ;;
    sum ← ld 2 (hdr + 16) ;
    st 2 (hdr + 16) (HOST2BE_WORD sum)) ;;
  w ← gets id ;
  (if send_time (rtt t) =? 0 then
     upd_tcp (fun t => set_rtt (mkRtt (u32 (now w)) (seq_ (cur t)) (rttvar (rtt t)) (srtt (rtt t)) (rto (rtt t))
                                  (retry_times (rtt t))) t)
   else ret tt) ;;
  flags ← on_buf (ld 1 (hdr + 13)) ;
  when (truth (Z.land flags TCP_FLAG_FIN)) (upd_tcp (fun t => set_fin_seq (seq_ (cur t)) t)) ;;
  t ← the_tcp ;
  when (with_timer && timer_is_timeout (now w) (timeout_timer t)) (set_rto_timeout (rto (rtt t))) ;;
  on_conn ipv4_rewrap ;;
  NETWORK_SEND.

Definition tcp_ack (option_size extra_flag : Z) : M World unit :=
  hdr ← the_header ;
  on_buf (st 1 (hdr + 13) extra_flag ;; f ← ld 1 (hdr + 13) ; st 1 (hdr + 13) (Z.lor f TCP_FLAG_ACK)) ;;
  tcp_send_packet option_size true.

Definition tcp_reset_conn : M World unit :=
  on_buf net_buffer_clean_data ;;
  upd_tcp (set_state TCP_STATE_CLOSED) ;;
  set_conn_state CONN_STATE_CLOSED ;;
  hdr ← the_header ;
  c ← gets conn ;
  on_buf (
    st 1 (hdr + 13) TCP_FLAG_RST ;;
    st 4 (hdr + 8) 0 ;;
    sum ← tcp_checksum hdr 20 (local_ip c) (remote_ip c) ;
    st 2 (hdr + 16) (HOST2BE_WORD sum)) ;;
  t ← the_tcp ;
  x ← kfree (send_window t) ; upd_tcp (set_send_window x) ;;
  x ← kfree (recv_window t) ; upd_tcp (set_recv_window x) ;;
  NETWORK_SEND ;;
  wait_queue_wake_all.

Definition tcp_reset : M World unit :=
  c ← gets conn ;
  match tcp c with
  | Some _ => when (bool_decide (trans_protocol c = TRANS_PROTO_TCP)) tcp_reset_conn
  | None => ret tt
  end.

(** ** Opening a connection *)

Definition tcp_register (zeroed : option Tcp) : M World unit :=
  c ← gets conn ;
  on_conn (modify (fun c => set_trans c TRANS_PROTO_TCP (udp_callback c))) ;;
  match tcp c, zeroed with
  | None, None => ret tt
  | None, Some t => on_conn (modify (fun c => set_tcp c (Some t))) ;; on_buf (NET_BUF_RESV_HEAD 20)
  | Some _, _ => on_buf (NET_BUF_RESV_HEAD 20)
  end.

(** [Tcp] as [kzalloc] leaves it. *)
Definition zero_tcp : Tcp :=
  mkTcp TCP_STATE_LISTEN None 0 (mkSend 0 0 0 0 0 0 0 0) Null (mkRecv 0 0 0 0 0) Null (mkSegment 0 0 0)
    (mkRtt 0 0 0 0 0 0) (mkTimer false false 0 false).

(** What [tcp_bind] and [tcp_listen] set up. *)
Definition tcp_setup (s : TcpState) : M World unit :=
  c ← gets conn ;
  upd_tcp (fun t =>
    set_recv (mkRecv 0 recv_win_default_size (irs (recv t)) recv_win_default_size 0)
      (set_recv_window (kmalloc recv_win_default_size)
        (set_state s (set_ack 0 (set_seq 0 (set_mss (s32 (pmtu c - 20 - 20)) t)))))) ;;
  upd_tcp (fun t => set_rtt (mkRtt (send_time (rtt t)) (send_seq (rtt t)) 0 0 0 (retry_times (rtt t))) t) ;;
  compute_rto 0 ;;
  upd_tcp (fun t => set_timer (timer_init (timeout_timer t)) t).

Definition tcp_handshake_finished (w : World) : bool :=
  match tcp (conn w) with
  | Some t =>
    bool_decide (state t = TCP_STATE_ESTABLISHED) || bool_decide (cstate (conn w) = CONN_STATE_CLOSED) ||
    bool_decide (cstate (conn w) = CONN_STATE_NET_UNREACHABLE) ||
    bool_decide (cstate (conn w) = CONN_STATE_HOST_UNREACHABLE)
  | None => false
  end.

(** [tcp_connect] from the choice of a port to the wait; [pair] are the bytes that are
    hashed, at the address of a local variable. *)
Definition tcp_connect_start (dst_ip : list Z) (dst_port : Z) (pair : list Z) : M World unit :=
  on_conn (modify (fun c => set_remote c dst_ip dst_port)) ;;
  isn ← tcp_generate_isn pair ;
  upd_tcp (fun t => set_seq isn (set_send (mkSend (unack (send t)) (snext (send t)) (swindow (send t)) (wl1 (send t))
    (wl2 (send t)) isn (stotal (send t)) (remote_window_size (send t))) t)) ;;
  on_buf (net_buffer_header_alloc 20) ;;
  hdr ← gets (fun w => bhead (buffer (conn w))) ;
  upd_tcp (set_header hdr) ;;
  t ← the_tcp ;
  c ← gets conn ;
  on_buf (
    st 2 hdr (HOST2BE_WORD (local_port c)) ;;
    st 2 (hdr + 2) (HOST2BE_WORD (remote_port c)) ;;
    st 4 (hdr + 4) (HOST2BE_DWORD (seq_ (cur t))) ;;
    st 4 (hdr + 8) 0 ;;
    st 1 (hdr + 12) (Z.shiftl ((20 + 4) / 4) 4) ;;
    st 1 (hdr + 13) TCP_FLAG_SYN ;;
    st 2 (hdr + 14) (HOST2BE_WORD (rwindow (recv t))) ;;
    st 2 (hdr + 18) 0 ;;
    st 1 (hdr + 20) TCP_OPTION_MSS ;;
    st 1 (hdr + 21) 4 ;;
    st 2 (hdr + 22) (HOST2BE_WORD (mss t)) ;;
    _ ← net_buffer_put 4 ;
    st 2 (hdr + 16) 0 ;;
    b ← gets id ;
    sum ← tcp_checksum hdr (20 + content_size b) (local_ip c) (remote_ip c) ;
    st 2 (hdr + 16) (HOST2BE_WORD sum)) ;;
  _ ← on_conn (conn_wrap lookup_mac PROTO_LEVEL_NETWORK) ;
  upd_tcp (set_state TCP_STATE_SYN_SENT) ;;
  set_conn_state CONN_STATE_OPENING ;;
  t ← the_tcp ;
  set_rto_timeout (rto (rtt t)) ;;
  NETWORK_SEND.

(** What [tcp_connect] and [tcp_listen] do after the wait. *)
Definition tcp_opened : M World ProtocolResult :=
  t ← the_tcp ;
  if bool_decide (state t <> TCP_STATE_ESTABLISHED) then ret PROTO_ERROR_CONNECT_FAILED
  else
    w ← gets id ;
    upd_tcp (fun t =>
      set_send_window (kmalloc send_win_default_size)
        (set_send (mkSend 0 0 (Z.min send_win_default_size (remote_window_size (send t))) (ack_ (cur t)) (seq_ (cur t))
                     (iss (send t)) send_win_default_size (remote_window_size (send t)))
          (set_rtt (mkRtt (u32 (now w)) (send_seq (rtt t)) (rttvar (rtt t)) (srtt (rtt t)) (rto (rtt t))
                      (retry_times (rtt t))) t))) ;;
    ret PROTO_OK.

(** [tcp_listen] up to the wait. *)
Definition tcp_listen_start : M World ProtocolResult :=
  c ← gets conn ;
  match tcp c with
  | None => ret PROTO_ERROR_NULL_PTR
  | Some t =>
    if bool_decide (state t <> TCP_STATE_CLOSED) then ret PROTO_ERROR_REBIND
    else
      on_buf (net_buffer_header_alloc 20) ;;
      hdr ← gets (fun w => bhead (buffer (conn w))) ;
      upd_tcp (set_header hdr) ;;
      tcp_setup TCP_STATE_LISTEN ;;
      set_conn_state CONN_STATE_OPENING ;;
      _ ← on_conn (conn_wrap lookup_mac PROTO_LEVEL_NETWORK) ;
      ret PROTO_OK
  end.

(** ** Sending and receiving data *)

(** C's [MIN] and [MAX] of an [int] and a [uint32_t]: the comparison is unsigned. *)
Definition umin (a b : Z) : Z := if u32 a <? u32 b then u32 a else u32 b.

Definition upd_send (f : SendSpace -> SendSpace) : M World unit := upd_tcp (fun t => set_send (f (send t)) t).
Definition with_unack (v : Z) (s : SendSpace) : SendSpace :=
  mkSend v (snext s) (swindow s) (wl1 s) (wl2 s) (iss s) (stotal s) (remote_window_size s).
Definition with_snext (v : Z) (s : SendSpace) : SendSpace :=
  mkSend (unack s) v (swindow s) (wl1 s) (wl2 s) (iss s) (stotal s) (remote_window_size s).
Definition with_swindow (v : Z) (s : SendSpace) : SendSpace :=
  mkSend (unack s) (snext s) v (wl1 s) (wl2 s) (iss s) (stotal s) (remote_window_size s).

(** [x % y] of [uint32_t]. *)
Definition umod (x y : Z) : M World Z := defined_if (negb (y =? 0)) ;; ret (u32 x mod y).

(** The first part of [tcp_send_data]: [buf] goes into the send window. *)
Definition tcp_store_data (used space : Z) (buf : list Z) : M World unit :=
  t ← the_tcp ;
  let length_ := Z.of_nat (length buf) in
  let s := send t in
  x ← (if unack s <? snext s then
         let size1 := s32 (umin length_ (u32 (stotal s - snext s))) in
         let size2 := Z.max (length_ - size1) 0 in
         x ← win_write (send_window t) (snext s) (take (Z.to_nat size1) buf) ;
         win_write x 0 (take (Z.to_nat size2) (drop (Z.to_nat size1) buf))
       else
         win_write (send_window t) (snext s) (take (Z.to_nat (Z.min length_ space)) buf)) ;
  upd_tcp (set_send_window x) ;;
  n ← umod (snext s + length_) (stotal s) ;
  upd_send (with_snext n).

(** The second part: what the window and the segment size allow goes into the packet. *)
Definition tcp_fill_packet (used : Z) : M World Z :=
  on_buf net_buffer_clean_data ;;
  t ← the_tcp ;
  b ← gets (fun w => buffer (conn w)) ;
  let s := send t in
  let max := s32 (umin (mss t) (swindow s)) in
  if unack s <? snext s then
    let size_ := Z.min max used in
    l ← win_read (send_window t) (unack s) size_ ;
    on_buf (wr (bdata b) l) ;;
    n ← umod (unack s + size_) (stotal s) ;
    upd_send (with_unack n) ;;
    ret size_
  else
    let size1 := s32 (umin max (u32 (stotal s - unack s))) in
    let m := umin (max - size1) (snext s) in
    let size2 := s32 (umin m (used - size1)) in
    l1 ← win_read (send_window t) (unack s) size1 ;
    on_buf (wr (bdata b) l1) ;;
    l2 ← win_read (send_window t) 0 size2 ;
    on_buf (wr (bdata b + size1) l2) ;;
    n ← umod (snext s + size1 + size2) (stotal s) ;
    upd_send (with_snext n) ;;
    ret (size1 + size2).

Definition tcp_send_data (buf : list Z) : M World ProtocolResult :=
  c ← gets conn ;
  match buf, tcp c with
  | [], _ | _, None => ret PROTO_ERROR_NULL_PTR
  | _, Some t =>
    let length_ := Z.of_nat (length buf) in
    let s := send t in
    let used := s32 (snext s - unack s) in
    let used := if used >=? 0 then used else s32 (used + stotal s) in
    let space := s32 (stotal s - used) in
    if space <? length_ then ret PROTO_ERROR_NO_SPACE_LEFT
    else
      tcp_store_data used space buf ;;
      total_size ← tcp_fill_packet (used + length_) ;
      _ ← on_buf (net_buffer_put (u16 total_size)) ;
      hdr ← the_header ;
      on_buf (st 1 (hdr + 13) TCP_FLAG_PSH ;; f ← ld 1 (hdr + 13) ; st 1 (hdr + 13) (Z.lor f TCP_FLAG_ACK)) ;;
      tcp_send_packet 0 true ;;
      ret PROTO_OK
  end.

Definition with_rread (v : Z) (r : RecvSpace) : RecvSpace := mkRecv (rnext r) (rwindow r) (irs r) (rtotal r) v.

(** At most [len] bytes; the bytes that were copied. *)
Definition tcp_recv_data (len : Z) : M World (ProtocolResult * list Z) :=
  c ← gets conn ;
  match tcp c with
  | None => ret (PROTO_ERROR_NULL_PTR, [])
  | Some t =>
    let r := recv t in
    l ← (if rnext r >=? rread r then
           let n := umin len (u32 (rnext r - rread r)) in
           l ← win_read (recv_window t) (rread r) (s32 n) ;
           upd_tcp (set_recv (with_rread (u32 (rread r + s32 n)) r)) ;;
           ret l
         else
           let size1 := s32 (umin len (u32 (rtotal r - rread r))) in
           let size2 := s32 (umin (len - size1) (rnext r)) in
           l1 ← win_read (recv_window t) (rread r) size1 ;
           l2 ← win_read (recv_window t) 0 size2 ;
           upd_tcp (set_recv (with_rread (u32 (rread r + size1 + size2)) r)) ;;
           ret (l1 ++ l2)) ;
    ret (match l, cstate c with
         | [], (CONN_STATE_INIT | CONN_STATE_OPENING | CONN_STATE_CLOSED) => PROTO_ERROR_NOT_CONNECTED
         | [], CONN_STATE_NET_UNREACHABLE => PROTO_ERROR_NET_UNREACHABLE
         | [], CONN_STATE_HOST_UNREACHABLE => PROTO_ERROR_HOST_UNREACHABLE
         | _, _ => PROTO_OK
         end, l)
  end.

(** The loop at the start only ends when the data that was sent is acknowledged. *)
Definition tcp_half_close : M World ProtocolResult :=
  t ← the_tcp ;
  if unack (send t) <? snext (send t) then no_fuel
  else
    on_buf net_buffer_clean_data ;;
    hdr ← the_header ;
    on_buf (st 1 (hdr + 13) (Z.lor TCP_FLAG_FIN TCP_FLAG_ACK)) ;;
    upd_tcp (set_state TCP_STATE_FIN_WAIT1) ;;
    set_conn_state CONN_STATE_CLOSING ;;
    _ ← kfree (send_window t) ;
    upd_send (with_swindow 0) ;;
    upd_tcp (set_send_window Null) ;;
    tcp_send_packet 0 true ;;
    ret PROTO_OK.

Definition tcp_shut_read : M World unit :=
  t ← the_tcp ; _ ← kfree (recv_window t) ; upd_tcp (set_recv_window Null).

(** [how] is 0 to stop writing, 1 reading, 2 both. *)
Definition tcp_shutdown (how : Z) : M World ProtocolResult :=
  c ← gets conn ;
  if bool_decide (trans_protocol c <> TRANS_PROTO_TCP) then ret PROTO_ERROR_UNSUPPORT
  else match tcp c with
       | None => ret PROTO_ERROR_NULL_PTR
       | Some _ =>
         if how =? 1 then tcp_shut_read ;; ret PROTO_OK
         else if how =? 0 then _ ← tcp_half_close ; ret PROTO_OK
         else if how =? 2 then tcp_shut_read ;; _ ← tcp_half_close ; ret PROTO_OK
         else ret PROTO_ERROR_UNSUPPORT
       end.

(** ** Receiving segments *)

(** The header of the segment that was received; [hdr] is its place in [rx]. *)
Definition rx8 (off : Z) : M World Z := on_rx (ld 1 off).
Definition rx16 (off : Z) : M World Z := x ← on_rx (ld 2 off) ; ret (BE2HOST_WORD x).
Definition rx32 (off : Z) : M World Z := x ← on_rx (ld 4 off) ; ret (BE2HOST_DWORD x).

Definition tcp_ack_handler (hdr length_ : Z) : M World unit :=
  seq ← rx32 (hdr + 4) ;
  ack ← rx32 (hdr + 8) ;
  when (length_ >? 0) (
    t ← the_tcp ;
    w ← gets id ;
    when ((ack >=? send_seq (rtt t)) && negb (send_seq (rtt t) =? 0)) (
      compute_rto (s32 (now w - send_time (rtt t))) ;;
      upd_tcp (fun t => set_rtt (mkRtt (send_time (rtt t)) 0 (rttvar (rtt t)) (srtt (rtt t)) (rto (rtt t))
                                   (retry_times (rtt t))) t)) ;;
    t ← the_tcp ;
    match recv_window t with
    | Null => ret tt
    | x =>
      let r := recv t in
      let size1 := s32 (umin (u32 (rtotal r - rnext r)) length_) in
      let size2 := length_ - size1 in
      l1 ← on_rx (rd (bdata (rx w)) size1) ;
      x ← win_write x (rnext r) l1 ;
      l2 ← on_rx (rd (bdata (rx w) + size1) size2) ;
      x ← win_write x 0 l2 ;
      n ← umod (u32 (rnext r + length_)) (rtotal r) ;
      upd_tcp (fun t => set_recv (mkRecv n (u32 (rwindow r - length_)) (irs r) (rtotal r) (rread r))
                          (set_recv_window x t))
    end ;;
    upd_send (fun s => mkSend (unack s) (snext s) (swindow s) seq (wl2 s) (iss s) (stotal s) (remote_window_size s)) ;;
    upd_tcp (set_ack (seq + length_)) ;;
    tcp_ack 0 0) ;;
  t ← the_tcp ;
  let acked := u32 (ack - wl2 (send t)) in
  when (acked >? 0) (
    n ← umod (unack (send t) + acked) (stotal (send t)) ;
    upd_send (fun s => mkSend n (snext s) (swindow s) (wl1 s) ack (iss s) (stotal s) (remote_window_size s)) ;;
    upd_tcp (fun t => set_seq (seq_ (cur t) + acked) t) ;;
    on_buf net_buffer_clean_data).

(** The index of the MSS option, or [TOI_MAX]; one unit of fuel per option. *)
Fixpoint options_loop (fuel : nat) (options options_size i mss_index : Z) : M World Z :=
  match fuel with
  | O => no_fuel
  | S fuel =>
    if i <? options_size then
      kind ← rx8 (options + i) ;
      let i := i + 1 in
      if kind =? TCP_OPTION_END then ret mss_index
      else if kind =? TCP_OPTION_NOP then options_loop fuel options options_size i mss_index
      else if i >=? options_size then ret mss_index
      else
        length_ ← rx8 (options + i) ;
        if i + length_ - 1 >? options_size then ret mss_index
        else
          let mss_index := if kind =? TCP_OPTION_MSS then i + 1 else mss_index in
          options_loop fuel options options_size (i + length_ - 1) mss_index
    else ret mss_index
  end.

Definition tcp_options_handler (fuel : nat) (hdr : Z) : M World Z :=
  data_offset ← rx8 (hdr + 12) ;
  let options_size := s32 (Z.shiftr (Z.land data_offset 0xf0) 2 - 20) in
  if options_size <=? 0 then ret TOI_MAX
  else options_loop fuel (hdr + 20) options_size 0 TOI_MAX.

Definition take_mss (hdr mss_index : Z) : M World unit :=
  when (mss_index <? TOI_MAX) (
    m ← rx16 (hdr + 20 + mss_index) ;
    upd_tcp (fun t => set_mss (Z.min m (mss t)) t)).

Definition cancel_timer : M World unit :=
  upd_tcp (fun t => set_timer (timer_callback_cancel (timeout_timer t)) t).

(** The bytes of [conn_info] that are hashed: two endpoints and four bytes of padding. *)
Definition conn_pair (c : Conn) : list Z :=
  local_ip c ++ [local_port c mod 256; local_port c / 256] ++
  remote_ip c ++ [remote_port c mod 256; remote_port c / 256] ++ replicate 4 0.

(** A SYN in the state LISTEN. *)
Definition rx_listen (hdr mss_index seq : Z) (src_ip : list Z) : M World unit :=
  take_mss hdr mss_index ;;
  src_port ← rx16 hdr ;
  on_conn (modify (fun c => set_remote c src_ip src_port)) ;;
  c ← gets conn ;
  ip ← of_option (ip_header c) ;
  on_buf (wr (ip + 16) src_ip) ;;
  own ← the_header ;
  on_buf (st 2 own (HOST2BE_WORD (local_port c)) ;; st 2 (own + 2) (HOST2BE_WORD (remote_port c))) ;;
  isn ← tcp_generate_isn (conn_pair c) ;
  window ← rx16 (hdr + 14) ;
  upd_tcp (fun t =>
    set_state TCP_STATE_SYN_RECEIVED
      (set_send (mkSend (unack (send t)) (snext (send t)) (swindow (send t)) (wl1 (send t)) (wl2 (send t)) isn
                   (stotal (send t)) window)
        (set_recv (mkRecv (rnext (recv t)) (rwindow (recv t)) seq (rtotal (recv t)) (rread (recv t)))
          (set_ack (seq + 1) (set_seq isn t))))) ;;
  on_buf net_buffer_clean_data ;;
  t ← the_tcp ;
  on_rx (st 1 (hdr + 20) TCP_OPTION_MSS ;; st 1 (hdr + 21) 4 ;; st 2 (hdr + 22) (HOST2BE_WORD (mss t))) ;;
  _ ← on_buf (net_buffer_put 4) ;
  tcp_ack 4 TCP_FLAG_SYN.

(** The acknowledgement of our SYN; [None] when it is wrong and the connection is reset. *)
Definition rx_syn_acked (ack_flag : bool) (ack : Z) : M World (option unit) :=
  t ← the_tcp ;
  if ack_flag then
    if negb (ack =? u32 (seq_ (cur t) + 1)) then tcp_reset_conn ;; ret None
    else
      upd_tcp (set_seq ack) ;;
      set_conn_state CONN_STATE_OPENED ;;
      upd_tcp (set_state TCP_STATE_ESTABLISHED) ;;
      ret (Some tt)
  else ret (Some tt).

Definition rx_syn_sent (hdr mss_index seq ack : Z) (syn_flag ack_flag : bool) : M World unit :=
  if negb syn_flag then tcp_reset_conn
  else
    window ← rx16 (hdr + 14) ;
    upd_tcp (fun t =>
      set_state TCP_STATE_SYN_RECEIVED
        (set_send (mkSend (unack (send t)) (snext (send t)) (swindow (send t)) (wl1 (send t)) (wl2 (send t))
                     (iss (send t)) (stotal (send t)) window)
          (set_recv (mkRecv (rnext (recv t)) (rwindow (recv t)) seq (rtotal (recv t)) (rread (recv t)))
            (set_ack (seq + 1) t)))) ;;
    take_mss hdr mss_index ;;
    cancel_timer ;;
    r ← rx_syn_acked ack_flag ack ;
    match r with
    | None => ret tt
    | Some _ => on_buf net_buffer_clean_data ;; tcp_ack 0 0
    end.

Definition rx_syn_received (hdr mss_index ack : Z) (ack_flag : bool) : M World unit :=
  take_mss hdr mss_index ;;
  cancel_timer ;;
  r ← rx_syn_acked ack_flag ack ;
  match r with
  | None => ret tt
  | Some _ => on_buf net_buffer_clean_data
  end.

Definition rx_established (hdr length_ ack : Z) (fin_flag : bool) : M World unit :=
  tcp_ack_handler hdr length_ ;;
  when fin_flag (
    upd_tcp (set_seq ack) ;;
    upd_tcp (fun t => set_state TCP_STATE_CLOSE_WAIT (set_ack (ack_ (cur t) + 1) t)) ;;
    set_conn_state CONN_STATE_CLOSING ;;
    on_buf net_buffer_clean_data ;;
    tcp_ack 0 0).

(** [ack_flag && ack > tcp->cur.fin_seq]. *)
Definition fin_acked (ack_flag : bool) (ack : Z) : M World bool :=
  t ← the_tcp ; ret (ack_flag && (ack >? fin_seq (cur t))).

Definition rx_closing (hdr length_ ack : Z) (ack_flag : bool) : M World unit :=
  when ack_flag (tcp_ack_handler hdr length_) ;;
  acked ← fin_acked ack_flag ack ;
  when acked (upd_tcp (set_seq ack) ;; upd_tcp (set_state TCP_STATE_TIME_WAIT)) ;;
  on_buf net_buffer_clean_data ;;
  tcp_ack 0 (if acked then TCP_FLAG_FIN else 0).

Definition rx_fin_wait1 (hdr length_ ack : Z) (ack_flag fin_flag : bool) : M World unit :=
  when ack_flag (tcp_ack_handler hdr length_) ;;
  acked ← fin_acked ack_flag ack ;
  when acked (
    upd_tcp (set_seq ack) ;;
    upd_tcp (set_state TCP_STATE_FIN_WAIT2) ;;
    cancel_timer ;;
    set_rto_timeout tcp_fin_timeout) ;;
  when fin_flag (upd_tcp (fun t => set_state TCP_STATE_CLOSING (set_ack (ack_ (cur t) + 1) t))).

Definition rx_fin_wait2 (hdr length_ : Z) (ack_flag fin_flag : bool) : M World unit :=
  when ack_flag (tcp_ack_handler hdr length_) ;;
  when fin_flag (
    upd_tcp (fun t => set_state TCP_STATE_TIME_WAIT (set_ack (ack_ (cur t) + 1) t)) ;;
    cancel_timer ;;
    set_rto_timeout (2 * TCP_MSL) ;;
    on_buf net_buffer_clean_data ;;
    tcp_ack 0 TCP_FLAG_ACK).

Definition rx_last_ack (ack : Z) (ack_flag : bool) : M World unit :=
  acked ← fin_acked ack_flag ack ;
  when acked (
    upd_tcp (set_seq ack) ;; upd_tcp (set_state TCP_STATE_CLOSED) ;; set_conn_state CONN_STATE_CLOSED).

Definition flag (flags bit : Z) : bool := truth (Z.land flags bit).

Definition tcp_rx_handler (fuel : nat) (hdr length_ : Z) (src_ip : list Z) : M World unit :=
  flags ← rx8 (hdr + 13) ;
  seq ← rx32 (hdr + 4) ;
  ack ← rx32 (hdr + 8) ;
  let syn_flag := flag flags TCP_FLAG_SYN in
  let ack_flag := flag flags TCP_FLAG_ACK in
  let fin_flag := flag flags TCP_FLAG_FIN in
  when (flag flags TCP_FLAG_RST) (upd_tcp (set_state TCP_STATE_CLOSED) ;; set_conn_state CONN_STATE_CLOSED) ;;
  mss_index ← tcp_options_handler fuel hdr ;
  t ← the_tcp ;
  match state t with
  | TCP_STATE_CLOSED | TCP_STATE_CLOSE_WAIT | TCP_STATE_TIME_WAIT => tcp_reset_conn
  | TCP_STATE_LISTEN => when syn_flag (rx_listen hdr mss_index seq src_ip)
  | TCP_STATE_SYN_SENT => rx_syn_sent hdr mss_index seq ack syn_flag ack_flag
  | TCP_STATE_SYN_RECEIVED => rx_syn_received hdr mss_index ack ack_flag
  | TCP_STATE_ESTABLISHED => rx_established hdr length_ ack fin_flag
  | TCP_STATE_CLOSING => rx_closing hdr length_ ack ack_flag
  | TCP_STATE_FIN_WAIT1 => rx_fin_wait1 hdr length_ ack ack_flag fin_flag
  | TCP_STATE_FIN_WAIT2 => rx_fin_wait2 hdr length_ ack_flag fin_flag
  | TCP_STATE_LAST_ACK => rx_last_ack ack ack_flag
  end ;;
  wait_queue_wake_all.

(** ** The retransmission timeout *)

Definition tcp_timeout_handler : M World unit :=
  t ← the_tcp ;
  match state t with
  | TCP_STATE_SYN_SENT | TCP_STATE_SYN_RECEIVED | TCP_STATE_ESTABLISHED | TCP_STATE_FIN_WAIT1 =>
    let x := rtt t in
    let retries := retry_times x + 1 in
    defined_if (int_ok retries) ;;
    if retries <? tcp_max_retries then
      defined_if (int_ok (Z.shiftl (rto x) 1)) ;;
      let o := Z.min (Z.shiftl (rto x) 1) (60 * 1000) in
      let o := if bool_decide (state t = TCP_STATE_SYN_SENT) || bool_decide (state t = TCP_STATE_SYN_RECEIVED)
               then Z.min o (3 * 1000) else o in
      upd_tcp (set_rtt (mkRtt (send_time x) (send_seq x) (rttvar x) (srtt x) o retries)) ;;
      set_rto_timeout o ;;
      tcp_send_packet 0 true
    else
      upd_tcp (set_rtt (mkRtt (send_time x) (send_seq x) (rttvar x) (srtt x) (rto x) retries)) ;;
      tcp_reset_conn
  | TCP_STATE_FIN_WAIT2 => tcp_reset_conn
  | TCP_STATE_TIME_WAIT =>
    upd_tcp (set_state TCP_STATE_CLOSED) ;;
    set_conn_state CONN_STATE_CLOSED ;;
    _ ← kfree (recv_window t) ;
    upd_tcp (set_recv_window Null)
  | _ => ret tt
  end ;;
  wait_queue_wake_all.

(** ** All connections *)

(** [tcp_lh] lists the bound connections by their numbers. *)
Record Net : Type := mkNet {
  conns : list Conn; tcp_lh : list nat;
  net_rx : NetBuffer; net_now : Z; net_isn : Z; net_sent : list (list Z); net_wakes : nat
}.

Definition on_number {A} (i : nat) (m : M World A) : M Net A := fun n =>
  match conns n !! i with
  | None => Undef
  | Some c =>
    match m (mkWorld c (net_rx n) (net_now n) (net_isn n) (net_sent n) (net_wakes n)) with
    | Ok (a, w) =>
      Ok (a, mkNet (<[i := conn w]> (conns n)) (tcp_lh n) (rx w) (now w) (isn_counter w) (sent w) (wakes w))
    | Undef => Undef
    | NoFuel => NoFuel
    end
  end.

Definition on_net_rx {A} (m : M NetBuffer A) : M Net A := fun n =>
  match m (net_rx n) with
  | Ok (a, b) => Ok (a, mkNet (conns n) (tcp_lh n) b (net_now n) (net_isn n) (net_sent n) (net_wakes n))
  | Undef => Undef
  | NoFuel => NoFuel
  end.

Definition conn_number (i : nat) : M Net Conn := n ← gets id ; of_option (conns n !! i).

(** Another connection stands in the way: it has the port, or another address. *)
Definition port_conflict (c : Conn) (port : Z) (other : Conn) : bool :=
  (local_port other =? port) || negb (bool_decide (local_ip other = local_ip c)).

Definition tcp_bind (i : nat) (port : Z) : M Net ProtocolResult :=
  c ← conn_number i ;
  match tcp c with
  | None => ret PROTO_ERROR_NULL_PTR
  | Some _ =>
    if listed c then ret PROTO_ERROR_REBIND
    else
      n ← gets id ;
      others ← of_option (mapM (fun j => conns n !! j) (tcp_lh n)) ;
      if existsb (port_conflict c port) others then ret PROTO_ERROR_PORT_CONFLICT
      else
        on_number i (on_conn (modify (fun c => set_listed (set_local c (local_ip c) port) true)) ;;
                     tcp_setup TCP_STATE_CLOSED) ;;
        modify (fun n => mkNet (conns n) (tcp_lh n ++ [i]) (net_rx n) (net_now n) (net_isn n) (net_sent n) (net_wakes n)) ;;
        ret PROTO_OK
  end.

(** The search for a port that is free; an error other than a conflict is returned. *)
Fixpoint ephemeral_loop (count : nat) (i : nat) (port : Z) : M Net (option ProtocolResult) :=
  match count with
  | O => ret None
  | S count =>
    r ← tcp_bind i port ;
    match r with
    | PROTO_OK => ret None
    | PROTO_ERROR_PORT_CONFLICT => ephemeral_loop count i (u16 (port + 1))
    | r => ret (Some r)
    end
  end.

(** [tcp_connect] up to the wait; [rand] is the random number. *)
Definition tcp_connect (i : nat) (dst_ip : list Z) (dst_port rand : Z) (pair : list Z) : M Net (option ProtocolResult) :=
  c ← conn_number i ;
  match tcp c with
  | None => ret (Some PROTO_ERROR_NULL_PTR)
  | Some t =>
    e ← (if bool_decide (state t <> TCP_STATE_CLOSED) then
           let port := u16 (min_ephemeral_port + u16 rand mod (max_ephemeral_port - min_ephemeral_port)) in
           ephemeral_loop (Z.to_nat (max_ephemeral_port - min_ephemeral_port + 1)) i port
         else ret None) ;
    match e with
    | Some r => ret (Some r)
    | None => on_number i (tcp_connect_start dst_ip dst_port pair) ;; ret None
    end
  end.

(** Whose segment it is. *)
Definition tcp_match (c : Conn) (src_port dst_port : Z) (src dst : list Z) : bool :=
  (local_port c =? dst_port) && ((remote_port c =? src_port) || (remote_port c =? 0)) &&
  bool_decide (local_ip c = dst) &&
  (bool_decide (remote_ip c = src) || bool_decide (remote_ip c = ipv4_null_addr)).

(** The first connection of the list that a test accepts. *)
Fixpoint find_number (test : Conn -> M Net bool) (l : list nat) : M Net (option nat) :=
  match l with
  | [] => ret None
  | i :: l =>
    c ← conn_number i ;
    ok ← test c ;
    if ok then ret (Some i) else find_number test l
  end.

(** The segment lies at [data] of the received packet. *)
Definition tcp_recv (fuel : nat) (length_ : Z) (src dst : list Z) : M Net ProtocolResult :=
  b ← gets net_rx ;
  let hdr := bdata b in
  offset ← on_net_rx (ld 1 (hdr + 12)) ;
  let header_length := Z.shiftr offset 4 * 4 in
  if header_length <? 20 then ret PROTO_ERROR_UNSUPPORT
  else
    checksum ← on_net_rx (ld 2 (hdr + 16)) ;
    computed ← on_net_rx (tcp_checksum hdr length_ src dst) ;
    if negb (HOST2BE_WORD computed =? checksum) then ret PROTO_ERROR_CHECKSUM
    else
      on_net_rx (modify (with_data (hdr + header_length))) ;;
      src_port ← on_net_rx (ld 2 hdr) ;
      dst_port ← on_net_rx (ld 2 (hdr + 2)) ;
      l ← gets tcp_lh ;
      r ← find_number (fun c => ret (tcp_match c (BE2HOST_WORD src_port) (BE2HOST_WORD dst_port) src dst)) l ;
      match r with
      | Some i => on_number i (tcp_rx_handler fuel hdr (length_ - header_length) src) ;; ret PROTO_OK
      | None => on_net_rx free_packet ;; ret PROTO_DROP
      end.

(** ICMP errors: [ip] is the place of the IP header in the message. *)
(** What is done to the connection that was found. *)
Definition conn_unreachable (code : Z) : M World unit :=
  (if code =? 0 then tcp_reset_conn ;; set_conn_state CONN_STATE_NET_UNREACHABLE
   else if code =? 1 then tcp_reset_conn ;; set_conn_state CONN_STATE_HOST_UNREACHABLE
   else ret tt) ;;
  wait_queue_wake_all.

Definition tcp_notify_unreachable (ip code : Z) : M Net unit :=
  let test c :=
    dst_port ← on_net_rx (ld 2 (ip + 22)) ;
    src_port ← on_net_rx (ld 2 (ip + 20)) ;
    if (local_port c =? BE2HOST_WORD dst_port) && (remote_port c =? BE2HOST_WORD src_port) then
      dst ← on_net_rx (rd (ip + 16) 4) ;
      src ← on_net_rx (rd (ip + 12) 4) ;
      ret (bool_decide (local_ip c = dst) && bool_decide (remote_ip c = src))
    else ret false in
  l ← gets tcp_lh ;
  r ← find_number test l ;
  match r with
  | None => ret tt
  | Some i =>
    on_number i (conn_unreachable code)
  end.

Definition IPv4_DEFAULT_MSS : Z := 536.

(** The new MTU of a connection. *)
Definition conn_update_mtu (mtu : Z) : M World unit :=
  c ← gets conn ;
  if (mtu <? pmtu c) && (mtu >? 0) then
    let mtu := Z.min (Z.max IPv4_DEFAULT_MSS mtu) (pmtu c) in
    on_conn (modify (fun c => set_pmtu c mtu)) ;;
    upd_tcp (set_mss (s32 (mtu - 20 - 20))) ;;
    when (bool_decide (cstate c = CONN_STATE_OPENED)) (
      t ← the_tcp ;
      on_buf (modify (fun b => with_tail (Z.min (btail b) (bdata b + mss t)) b)) ;;
      on_conn ipv4_rewrap ;;
      NETWORK_SEND)
  else when (mtu >? pmtu c) (
    on_conn (modify (fun c => set_pmtu c mtu)) ;;
    upd_tcp (set_mss (s32 (mtu - 20 - 20)))).

(** The first connection of the list, whichever the message is about. *)
Definition tcp_update_mtu (mtu : Z) : M Net unit :=
  n ← gets id ;
  match tcp_lh n with
  | [] => ret tt
  | i :: _ =>
    on_number i (conn_update_mtu mtu)
  end.

(** ** Receiving a packet (ipv4.c) *)

(** [udp_lh] are the connections that are bound to UDP ports; the message of
    [udp_notify_unreachable] has no effect. *)
Definition ipv4_recv (fuel : nat) (udp_lh : list Conn) : M Net ProtocolResult :=
  hdr ← gets (fun n => bdata (net_rx n)) ;
  r ← on_net_rx ipv4_recv_header ;
  match r with
  | inl e => ret e
  | inr p =>
    if protocol p =? IP_PROTO_UDP then
      r ← on_net_rx (udp_recv udp_lh (src_ip p) (dst_ip p)) ; ret (fst r)
    else if protocol p =? IP_PROTO_TCP then tcp_recv fuel (packet_length p) (src_ip p) (dst_ip p)
    else if protocol p =? IP_PROTO_ICMP then
      r ← on_net_rx (icmp_recv hdr) ;
      match snd r with
      | IcmpNone => ret tt
      | IcmpReply q =>
        modify (fun n => mkNet (conns n) (tcp_lh n) (net_rx n) (net_now n) (net_isn n) (net_sent n ++ [q]) (net_wakes n))
      | IcmpUnreachable m code => tcp_notify_unreachable m code
      | IcmpUpdateMtu m mtu => tcp_update_mtu mtu
      end ;;
      ret (fst r)
    else ret PROTO_ERROR_UNSUPPORT
  end.
End tcp.
