(* ===== verification/TcpWire.v ===== *)
(** * Segments on the wire

    What [tcp_send_packet] gives to the device is a packet that [ipv4_recv] of the peer
    accepts and hands to the connection it is for. *)

From stdpp Require Import base tactics list functions.
From S2P Require Import Prelude CMonad Net NetSum Tcp.
Local Open Scope Z_scope.

(** ** Memory *)

Lemma mem_store_inside w : forall m m' a v x,
  a <= x < a + Z.of_nat w -> mem_store w m a v x = mem_store w m' a v x.
Proof.
  induction w as [|w IH]; intros m m' a v x Hx; [lia|]. cbn [mem_store].
  destruct (decide (a = x)) as [->|]; [by rewrite !fn_lookup_insert|].
  rewrite !fn_lookup_insert_ne by done. apply IH. lia.
Qed.

Lemma mem_store_shift w : forall m m' a a' v n,
  (forall i, 0 <= i < n -> m (a + i) = m' (a' + i)) ->
  forall k i, 0 <= i < n -> mem_store w m (a + k) v (a + i) = mem_store w m' (a' + k) v (a' + i).
Proof.
  induction w as [|w IH]; intros m m' a a' v n H k i Hi; cbn [mem_store]; [by apply H|].
  destruct (decide (k = i)) as [->|]; [by rewrite !fn_lookup_insert|].
  rewrite !fn_lookup_insert_ne by lia. rewrite <- !Z.add_assoc. by apply (IH _ _ _ _ _ n).
Qed.

Lemma mem_load_shift w : forall m m' a a' n k,
  (forall i, 0 <= i < n -> m (a + i) = m' (a' + i)) -> 0 <= k -> k + Z.of_nat w <= n ->
  mem_load w m (a + k) = mem_load w m' (a' + k).
Proof.
  induction w as [|w IH]; intros m m' a a' n k H Hk Hn; cbn [mem_load]; [done|].
  rewrite (H k) by lia. rewrite <- !Z.add_assoc. rewrite (IH m m' a a' n (k + 1)) by (done || lia). done.
Qed.

Lemma bytes_at_ext n : forall m m' a a',
  (forall i, 0 <= i < Z.of_nat n -> m (a + i) = m' (a' + i)) -> bytes_at m a n = bytes_at m' a' n.
Proof. intros m m' a a' H. apply map_ext_in. intros i Hi%in_seq. apply H. lia. Qed.

Lemma bytes_at_lookup m a n x : bytes_at m a n = x -> forall i, 0 <= i < Z.of_nat n -> x !! Z.to_nat i = Some (m (a + i)).
Proof.
  intros <- i Hi. unfold bytes_at. rewrite list_lookup_fmap, lookup_seq_lt by lia. simpl. f_equal. f_equal. lia.
Qed.

Lemma bytes_at_inj m m' a a' n :
  bytes_at m a n = bytes_at m' a' n -> forall i, 0 <= i < Z.of_nat n -> m (a + i) = m' (a' + i).
Proof.
  intros H i Hi. pose proof (bytes_at_lookup m a n _ eq_refl i Hi) as H1.
  pose proof (bytes_at_lookup m' a' n _ eq_refl i Hi) as H2. rewrite H in H1. congruence.
Qed.

(** ** A packet in memory *)

Definition segment_checksum (m : Z -> Z) (hdr len : Z) (src dst : list Z) : Z :=
  inet_checksum (pseudo_header src dst IP_PROTO_TCP len ++ bytes_at (mem_store 2 m (hdr + 16) 0) hdr (Z.to_nat len)).

(** What the headers of a segment say; [h_opt] is the size of the options. *)
Record Head : Type := mkHead {
  h_src : list Z; h_dst : list Z; h_sport : Z; h_dport : Z; h_seq : Z; h_ack : Z; h_flags : Z; h_opt : Z
}.

Record head_ok (h : Head) : Prop := {
  ho_src : address (h_src h); ho_dst : address (h_dst h);
  ho_sport : 0 <= h_sport h < 2 ^ 16; ho_dport : 0 <= h_dport h < 2 ^ 16;
  ho_opt : 0 <= h_opt h <= 40; ho_opt4 : h_opt h mod 4 = 0
}.

(** At [a] lies an IPv4 packet of [n] bytes with a TCP segment. *)
Record packet (m : Z -> Z) (a n : Z) (h : Head) : Prop := {
  pk_ver : m a = 0x45;
  pk_len : mem_load 2 m (a + 2) = HOST2BE_WORD n;
  pk_frag : Z.land (HOST2BE_WORD (mem_load 2 m (a + 6))) 0x3fff = 0;
  pk_proto : m (a + 9) = IP_PROTO_TCP;
  pk_sum : mem_load 2 m (a + 10) = HOST2BE_WORD (header_checksum m a);
  pk_src : bytes_at m (a + 12) 4 = h_src h;
  pk_dst : bytes_at m (a + 16) 4 = h_dst h;
  pk_sport : mem_load 2 m (a + 20) = HOST2BE_WORD (h_sport h);
  pk_dport : mem_load 2 m (a + 22) = HOST2BE_WORD (h_dport h);
  pk_seq : mem_load 4 m (a + 24) = HOST2BE_DWORD (h_seq h);
  pk_ack : mem_load 4 m (a + 28) = HOST2BE_DWORD (h_ack h);
  pk_off : m (a + 32) = (20 + h_opt h) * 4;
  pk_flags : m (a + 33) = h_flags h;
  pk_tcp : mem_load 2 m (a + 36) = HOST2BE_WORD (segment_checksum m (a + 20) (n - 20) (h_src h) (h_dst h))
}.

Lemma packet_shift m m' a a' n h :
  40 <= n -> (forall i, 0 <= i < n -> m (a + i) = m' (a' + i)) -> packet m a n h -> packet m' a' n h.
Proof.
  intros Hn H [].
  assert (forall w k, 0 <= k -> k + Z.of_nat w <= 40 -> mem_load w m (a + k) = mem_load w m' (a' + k)) as Hl.
  { intros w k Hk Hw. by apply (mem_load_shift w _ _ _ _ n); [|lia|lia]. }
  assert (forall k j, 0 <= k -> k + Z.of_nat j <= n -> bytes_at m (a + k) j = bytes_at m' (a' + k) j) as Hb.
  { intros k j Hk Hj. apply bytes_at_ext. intros i Hi. rewrite <- !Z.add_assoc. apply H. lia. }
  split; rewrite <- ?Hl, <- ?Hb, <- ?(H 9), <- ?(H 32), <- ?(H 33) by lia; try done.
  - rewrite <- (Z.add_0_r a'), <- H, Z.add_0_r by lia. done.
  - rewrite pk_sum0. f_equal. unfold header_checksum. f_equal. apply bytes_at_ext. intros i Hi.
    by apply (mem_store_shift 2 _ _ _ _ _ n); [|lia].
  - rewrite pk_tcp0. f_equal. unfold segment_checksum. do 2 f_equal. apply bytes_at_ext. intros i Hi.
    rewrite <- !Z.add_assoc. by apply (mem_store_shift 2 _ _ _ _ _ n); [|lia].
Qed.

(** ** Receiving *)

(** The same packet after reads and writes that leave the bytes as they are, but perhaps
    for those in [skip]. *)
Record same_but (skip : Z -> Prop) (data : Z) (b b' : NetBuffer) : Prop := {
  sb_mem : forall x, ~ skip x -> mem b' x = mem b x;
  sb_bytes : byte_mem (mem b');
  sb_room : room b' = room b;
  sb_head : bhead b' = bhead b;
  sb_tail : btail b' = btail b;
  sb_data : bdata b' = data
}.

Lemma store_back m a x : byte_mem m ->
  mem_store 2 (mem_store 2 m a 0) a (mem_load 2 m a) x = m x.
Proof.
  intros Hm. pose proof (Hm a). pose proof (Hm (a + 1)). rewrite mem_load_2.
  assert ((m a + 256 * m (a + 1)) mod 256 = m a /\ (m a + 256 * m (a + 1)) / 256 = m (a + 1)) as [E1 E2].
  { rewrite <- (Z.mod_unique _ 256 (m (a + 1)) (m a)), <- (Z.div_unique _ 256 (m (a + 1)) (m a)); lia. }
  cbn [mem_store]. rewrite E1, E2.
  destruct (decide (a = x)) as [<-|]; [by rewrite fn_lookup_insert|]. rewrite fn_lookup_insert_ne by done.
  destruct (decide (a + 1 = x)) as [<-|]; [rewrite fn_lookup_insert; apply Z.mod_small; lia|].
  rewrite fn_lookup_insert_ne by done. by rewrite !fn_lookup_insert_ne by done.
Qed.

(** A header whose checksum is right passes the check of [ipv4_recv], also a checksum of
    zero, which is not checked. *)
Lemma ipv4_check_run hdr b : byte_mem (mem b) -> inside hdr 20 b = true ->
  mem_load 2 (mem b) (hdr + 10) = HOST2BE_WORD (header_checksum (mem b) hdr) ->
  exists b', (checksum ← ld 2 (hdr + 10) ;
    (if checksum =? 0 then ret true
     else ipv4_checksum hdr ;; computed ← ld 2 (hdr + 10) ; ret (computed =? checksum))) b = Ok (true, b') /\
    same_but (fun _ => False) (bdata b) b b'.
Proof.
  intros Hm Hin Hsum. pose proof Hin as Hin'. rewrite inside_iff in Hin.
  rewrite (bind_ok _ _ _ _ _ (ld_run 2 (hdr + 10) b ltac:(rewrite inside_iff; lia))).
  destruct (Z.eqb_spec (mem_load 2 (mem b) (hdr + 10)) 0) as [|Hz]; [by exists b|].
  rewrite (bind_ok _ _ _ _ _ (ipv4_checksum_run hdr b Hm Hin')). rewrite <- Hsum.
  change (mem (ipv4_clear hdr b)) with (mem_store 2 (mem b) (hdr + 10) 0).
  set (b' := with_mem _ b). exists b'.
  assert (byte_mem (mem b')) as Hm' by (by apply mem_store_byte_mem, mem_store_byte_mem).
  assert (forall x, mem b' x = mem b x) as Hx by (intros x; by apply store_back).
  rewrite (bind_ok _ _ _ _ _ (ld_run 2 (hdr + 10) b' ltac:(rewrite inside_iff; simpl; lia))).
  rewrite !mem_load_2, !Hx, Z.eqb_refl. done.
Qed.

Lemma rd_run off n b : inside off n b = true -> rd off n b = Ok (bytes_at (mem b) off (Z.to_nat n), b).
Proof. intros H. unfold rd. run. simpl. by rewrite H. Qed.

Lemma ipv4_get_packet_length_run a n b : byte_mem (mem b) -> inside a 20 b = true -> 20 <= n < 2 ^ 16 ->
  mem b a = 0x45 -> mem_load 2 (mem b) (a + 2) = HOST2BE_WORD n ->
  ipv4_get_packet_length a b = Ok (n - 20, b).
Proof.
  intros Hm Hin Hn Hv Hl. rewrite inside_iff in Hin. unfold ipv4_get_packet_length.
  rewrite (bind_ok _ _ _ _ _ (ld_run 2 (a + 2) b ltac:(rewrite inside_iff; lia))).
  rewrite (bind_ok _ _ _ _ _ (ld_run 1 a b ltac:(rewrite inside_iff; lia))).
  rewrite Hl, mem_load_1, Hv, SWAP_WORD_involutive by lia. unfold ret, u16.
  change (Z.shiftl (Z.land 69 15) 2) with 20. by rewrite wrap_small by lia.
Qed.

(** The fields of the packet stay when the memory stays. *)
Lemma frag_clear x : Z.land x 0x3fff = 0 -> truth (Z.land x 0x1fff) = false /\ truth (Z.land x 0x2000) = false.
Proof.
  intros H. change 0x1fff with (Z.land 0x3fff 0x1fff). change 0x2000 with (Z.land 0x3fff 0x2000).
  by rewrite !Z.land_assoc, H, !Z.land_0_l.
Qed.

Lemma packet_same m m' a n h : 40 <= n -> (forall x, m' x = m x) -> packet m a n h -> packet m' a n h.
Proof. intros Hn Hx. apply packet_shift; [done|]. intros. by rewrite Hx. Qed.

Lemma ipv4_recv_header_run n h b :
  byte_mem (mem b) -> 40 <= n < 2 ^ 16 -> inside (bdata b) n b = true -> bdata b + n <= btail b < bdata b + 2 ^ 32 ->
  packet (mem b) (bdata b) n h ->
  exists b', ipv4_recv_header b = Ok (inr (mkPacket IP_PROTO_TCP (n - 20) (h_src h) (h_dst h)), b') /\
    same_but (fun _ => False) (bdata b + 20) b b'.
Proof.
  intros Hm Hn Hin Ht P. set (a := bdata b) in *. pose proof Hin as Hin'. rewrite inside_iff in Hin.
  assert (inside a 20 b = true) as Hi20 by (rewrite inside_iff; lia).
  unfold ipv4_recv_header. rewrite (bind_ok (gets id) _ b b b eq_refl). cbv zeta. fold a.
  rewrite (bind_ok _ _ _ _ _ (ipv4_get_packet_length_run a n b Hm Hi20 ltac:(lia) (pk_ver _ _ _ _ P) (pk_len _ _ _ _ P))).
  unfold u64 at 1. rewrite wrap_small by lia. destruct (Z.ltb_spec (btail b - a) 20); [lia|].
  rewrite (bind_ok _ _ _ _ _ (ld_run 1 a b ltac:(rewrite inside_iff; lia))).
  rewrite mem_load_1, (pk_ver _ _ _ _ P). change (negb (Z.shiftr 69 4 =? 4)) with false. cbv iota.
  destruct (ipv4_check_run a b Hm Hi20 (pk_sum _ _ _ _ P)) as (b1 & H1 & S1).
  rewrite <- bind_assoc, (bind_ok _ _ _ _ _ H1). cbn [negb].
  destruct S1 as [Sm Sb Sr Sh St Sd].
  assert (packet (mem b1) a n h) as P1
    by (apply (packet_same (mem b)); [lia|intros; by apply Sm; intros []|done]).
  rewrite (bind_ok _ _ _ _ _ (ld_run 2 (a + 6) b1 ltac:(rewrite inside_iff; lia))).
  destruct (frag_clear _ (pk_frag _ _ _ _ P1)) as [-> ->]. cbn [orb].
  set (b2 := with_data (a + 20) b1). rewrite (bind_ok (modify (with_data (a + 20))) _ b1 tt b2 eq_refl).
  rewrite (bind_ok _ _ _ _ _ (ld_run 1 (a + 9) b2 ltac:(rewrite inside_iff; simpl; lia))).
  rewrite (bind_ok _ _ _ _ _ (rd_run (a + 12) 4 b2 ltac:(rewrite inside_iff; simpl; lia))).
  rewrite (bind_ok _ _ _ _ _ (rd_run (a + 16) 4 b2 ltac:(rewrite inside_iff; simpl; lia))).
  rewrite mem_load_1. change (mem b2) with (mem b1). change (Z.to_nat 4) with 4%nat.
  rewrite (pk_proto _ _ _ _ P1), (pk_src _ _ _ _ P1), (pk_dst _ _ _ _ P1).
  exists b2. done.
Qed.

Definition set_net_rx (n : Net) (b : NetBuffer) : Net :=
  mkNet (conns n) (tcp_lh n) b (net_now n) (net_isn n) (net_sent n) (net_wakes n).

Lemma on_net_rx_run {A} (m : M NetBuffer A) n a b :
  m (net_rx n) = Ok (a, b) -> on_net_rx m n = Ok (a, set_net_rx n b).
Proof. intros H. unfold on_net_rx. by rewrite H. Qed.

Lemma set_net_rx_same n : set_net_rx n (net_rx n) = n.
Proof. by destruct n. Qed.

Lemma on_net_rx_read {A} (m : M NetBuffer A) n a :
  m (net_rx n) = Ok (a, net_rx n) -> on_net_rx m n = Ok (a, n).
Proof. intros H. by rewrite (on_net_rx_run _ _ _ _ H), set_net_rx_same. Qed.

Lemma find_number_run (test : Conn -> bool) n l1 i l2 c :
  Forall (fun j => j <> i /\ exists d, conns n !! j = Some d /\ test d = false) l1 ->
  conns n !! i = Some c -> test c = true ->
  find_number (fun c => ret (test c)) (l1 ++ i :: l2) n = Ok (Some i, n).
Proof.
  intros Hl Hc Ht. induction Hl as [|j l1 (_ & d & Hd & Hf) _ IH]; cbn [app find_number].
  - unfold conn_number. run. simpl. rewrite Hc. simpl. run. by rewrite Ht.
  - unfold conn_number. run. simpl. rewrite Hd. simpl. run. rewrite Hf. exact IH.
Qed.

Lemma segment_checksum_range m hdr len src dst : byte_mem m -> 18 <= len < 2 ^ 16 -> address src -> address dst ->
  0 <= segment_checksum m hdr len src dst <= 0xffff.
Proof.
  intros Hm Hl Hs Hd. unfold segment_checksum, inet_checksum.
  destruct (inet_sum_spec (pseudo_header src dst IP_PROTO_TCP len ++
    bytes_at (mem_store 2 m (hdr + 16) 0) hdr (Z.to_nat len))) as [? _]; [|lia].
  apply Forall_app. split; [by apply pseudo_bytes; [..|unfold IP_PROTO_TCP; lia|lia]|].
  by apply bytes_at_bytes, mem_store_byte_mem.
Qed.

Section recv.
Context (freq : Z) (fuel : nat).

(** The packet is for the first connection of the list that matches. *)
Definition head_match (h : Head) (c : Conn) : bool := tcp_match c (h_sport h) (h_dport h) (h_src h) (h_dst h).

(** No connection before [i] in the list takes the packet. *)
Definition first_others (n : Net) (i : nat) (h : Head) : Prop :=
  exists l1 l2, tcp_lh n = l1 ++ i :: l2 /\
    Forall (fun j => j <> i /\ exists d, conns n !! j = Some d /\ head_match h d = false) l1.

Definition addressee (n : Net) (i : nat) (h : Head) : Prop :=
  first_others n i h /\ exists c, conns n !! i = Some c /\ head_match h c = true.

Lemma tcp_recv_run k h i n :
  let b := net_rx n in let a := bdata b - 20 in
  byte_mem (mem b) -> head_ok h -> 40 + h_opt h <= k < 2 ^ 16 -> inside a k b = true ->
  packet (mem b) a k h -> addressee n i h ->
  exists b', tcp_recv freq fuel (k - 20) (h_src h) (h_dst h) n =
      (on_number i (tcp_rx_handler freq fuel (a + 20) (k - 40 - h_opt h) (h_src h)) ;; ret PROTO_OK) (set_net_rx n b') /\
    same_but (fun x => a + 36 <= x < a + 38) (a + 40 + h_opt h) b b'.
Proof.
  intros b a Hm [Hs Hd Hsp Hdp Ho Ho4] Hk Hin P ((l1 & l2 & Hl & Hf) & c & Hc & Ht).
  set (opt := h_opt h) in *. rewrite inside_iff in Hin. pose proof P as []. fold opt in pk_off0.
  assert (bdata b = a + 20) as Hda by (subst a; lia). clearbody a.
  unfold tcp_recv. rewrite (bind_ok (gets net_rx) _ n b n eq_refl). cbv zeta. rewrite Hda.
  assert (forall w x, a <= x -> x + Z.of_nat w <= a + k -> on_net_rx (ld w x) n = Ok (mem_load w (mem b) x, n)) as Hld.
  { intros w x Hx1 Hx2. apply on_net_rx_read, ld_run. rewrite inside_iff. fold b. lia. }
  rewrite (bind_ok _ _ _ _ _ (Hld 1%nat (a + 20 + 12) ltac:(lia) ltac:(lia))), mem_load_1.
  replace (a + 20 + 12) with (a + 32) by lia. rewrite pk_off0.
  assert (Z.shiftr ((20 + opt) * 4) 4 * 4 = 20 + opt) as Hh.
  { rewrite Z.shiftr_div_pow2 by lia. pose proof (Z.div_mod opt 4 ltac:(lia)).
    rewrite <- (Z.div_unique ((20 + opt) * 4) (2 ^ 4) (5 + opt / 4) 0); lia. }
  rewrite Hh. destruct (Z.ltb_spec (20 + opt) 20); [lia|].
  rewrite (bind_ok _ _ _ _ _ (Hld 2%nat (a + 20 + 16) ltac:(lia) ltac:(lia))).
  replace (a + 20 + 16) with (a + 36) by lia. rewrite pk_tcp0.
  assert (inside (a + 20) (k - 20) b = true) as Hin2 by (rewrite inside_iff; lia).
  rewrite (bind_ok _ _ _ _ _ (on_net_rx_run _ n _ _ (tcp_checksum_run _ (k - 20) _ _ b Hm ltac:(lia) Hin2 Hs Hd))).
  change (inet_checksum _) with (segment_checksum (mem b) (a + 20) (k - 20) (h_src h) (h_dst h)). rewrite Z.eqb_refl. cbn [negb].
  set (b1 := tcp_clear (a + 20) b). set (b2 := with_data (a + 20 + (20 + opt)) b1).
  rewrite (bind_ok _ _ _ _ _ (on_net_rx_run (modify (with_data (a + 20 + (20 + opt)))) (set_net_rx n b1) tt b2 eq_refl)).
  set (n2 := set_net_rx (set_net_rx n b1) b2).
  assert (forall x, a + 20 <= x -> x + 2 <= a + 36 -> on_net_rx (ld 2 x) n2 = Ok (mem_load 2 (mem b) x, n2)) as Hld2.
  { intros x Hx1 Hx2. apply on_net_rx_read. subst n2. cbn [net_rx set_net_rx].
    rewrite ld_run by (rewrite inside_iff; simpl; lia). do 2 f_equal. apply mem_load_store_other. lia. }
  rewrite (bind_ok _ _ _ _ _ (Hld2 (a + 20) ltac:(lia) ltac:(lia))).
  rewrite (bind_ok _ _ _ _ _ (Hld2 (a + 20 + 2) ltac:(lia) ltac:(lia))).
  replace (a + 20 + 2) with (a + 22) by lia. rewrite pk_sport0, pk_dport0, !SWAP_WORD_involutive by done.
  rewrite (bind_ok (gets tcp_lh) _ n2 (tcp_lh n) n2 eq_refl), Hl.
  rewrite (bind_ok _ _ _ _ _ (find_number_run (head_match h) n2 l1 i l2 c Hf Hc Ht)).
  exists b2. split.
  - replace (k - 20 - (20 + opt)) with (k - 40 - opt) by lia. done.
  - split; [|by apply mem_store_byte_mem|done..|simpl; lia].
    intros x Hx. apply mem_store_outside. lia.
Qed.

Lemma ipv4_recv_run udp_lh k h i n :
  let b := net_rx n in let a := bdata b in
  byte_mem (mem b) -> head_ok h -> 40 + h_opt h <= k < 2 ^ 16 -> inside a k b = true ->
  a + k <= btail b < a + 2 ^ 32 -> packet (mem b) a k h -> addressee n i h ->
  exists b', ipv4_recv freq fuel udp_lh n =
      (on_number i (tcp_rx_handler freq fuel (a + 20) (k - 40 - h_opt h) (h_src h)) ;; ret PROTO_OK) (set_net_rx n b') /\
    same_but (fun x => a + 36 <= x < a + 38) (a + 40 + h_opt h) b b'.
Proof.
  intros b a Hm Hh Hk Hin Ht P Hi. pose proof (ho_opt h Hh). unfold ipv4_recv.
  rewrite (bind_ok (gets (fun n => bdata (net_rx n))) _ n a n eq_refl).
  destruct (ipv4_recv_header_run k h b Hm ltac:(lia) Hin Ht P) as (b1 & H1 & S1).
  rewrite (bind_ok _ _ _ _ _ (on_net_rx_run _ n _ _ H1)).
  cbn [protocol packet_length src_ip dst_ip]. change (IP_PROTO_TCP =? IP_PROTO_UDP) with false.
  change (IP_PROTO_TCP =? IP_PROTO_TCP) with true. cbv iota.
  destruct S1 as [Sm Sb Sr Sh St Sd].
  assert (bdata b1 - 20 = a) as Ha by lia.
  destruct (tcp_recv_run k h i (set_net_rx n b1)) as (b2 & H2 & S2);
    cbn [net_rx set_net_rx]; rewrite ?Ha; try done.
  - rewrite inside_iff in *. lia.
  - apply (packet_same (mem b)); [lia|intros; by apply Sm; intros []|done].
  - cbn [net_rx set_net_rx] in *. rewrite Ha in *. exists b2. split; [by rewrite H2|].
    destruct S2 as [Tm Tb Tr Th Tt Td]. split; [|done|congruence..|done].
    intros x Hx. rewrite Tm by done. by apply Sm; intros [].
Qed.
End recv.

(** ** Sending *)

(** Stores to bytes of the packet; [keep] are the bytes they do not touch. *)
Ltac outside := rewrite ?mem_store_outside by lia.

Lemma mem_store_1 m a v x : mem_store 1 m a v x = if decide (a = x) then v mod 256 else m x.
Proof.
  cbn [mem_store]. destruct (decide (a = x)) as [->|]; [apply fn_lookup_insert|by apply fn_lookup_insert_ne].
Qed.

(** The checksum is entered into the segment, and the field does not count. *)
Lemma segment_checksum_ext m m' hdr len src dst : 18 <= len ->
  (forall x, hdr <= x < hdr + len -> x < hdr + 16 \/ hdr + 18 <= x -> m x = m' x) ->
  segment_checksum m hdr len src dst = segment_checksum m' hdr len src dst.
Proof.
  intros Hl H. unfold segment_checksum. do 2 f_equal. apply bytes_at_ext. intros i Hi.
  destruct (decide (16 <= i < 18)); [apply mem_store_inside; lia|]. outside. apply H; lia.
Qed.

Lemma header_checksum_ext m m' hdr :
  (forall x, hdr <= x < hdr + 20 -> x < hdr + 10 \/ hdr + 12 <= x -> m x = m' x) ->
  header_checksum m hdr = header_checksum m' hdr.
Proof.
  intros H. unfold header_checksum. f_equal. apply bytes_at_ext. intros i Hi.
  destruct (decide (10 <= i < 12)); [apply mem_store_inside; lia|]. outside. apply H; lia.
Qed.

Lemma st_at w off v m b : inside off (Z.of_nat w) b = true ->
  st w off v (with_mem m b) = Ok (tt, with_mem (mem_store w m off v) b).
Proof. apply (st_run w off v (with_mem m b)). Qed.

Lemma ld_at w off m b : inside off (Z.of_nat w) b = true ->
  ld w off (with_mem m b) = Ok (mem_load w m off, with_mem m b).
Proof. apply (ld_run w off (with_mem m b)). Qed.

(** Double words are swapped like words. *)
Lemma SWAP_DWORD_eq n : 0 <= n < 2 ^ 32 ->
  SWAP_DWORD n = 65536 * SWAP_WORD (n mod 65536) + SWAP_WORD (n / 65536).
Proof.
  intros Hn. unfold SWAP_DWORD. change 0xffff with (Z.ones 16). rewrite Z.land_ones by lia. change (2 ^ 16) with 65536.
  pose proof (Z.mod_pos_bound n 65536 ltac:(lia)) as Hl.
  assert (0 <= n / 65536 < 65536) as Hh by (split; [apply Z.div_pos; lia|apply Z.div_lt_upper_bound; lia]).
  pose proof (SWAP_WORD_range (n mod 65536) Hl). pose proof (SWAP_WORD_range (n / 65536) Hh).
  replace (Z.shiftr (Z.land n 0xffff0000) 16) with (n / 65536).
  - unfold u32. rewrite wrap_small by (rewrite Z.shiftl_mul_pow2 by lia; lia).
    rewrite lor_shiftl_add; lia.
  - change 0xffff0000 with (Z.shiftl (Z.ones 16) 16). rewrite Z.shiftr_land, Z.shiftr_shiftl_l by lia.
    change (Z.shiftl (Z.ones 16) (16 - 16)) with (Z.ones 16).
    rewrite Z.land_ones, Z.shiftr_div_pow2 by lia. symmetry. by apply Z.mod_small.
Qed.

Lemma two_words n : 0 <= n < 2 ^ 32 ->
  exists h l, n = 65536 * h + l /\ 0 <= h < 2 ^ 16 /\ 0 <= l < 2 ^ 16.
Proof.
  intros Hn. exists (n / 65536), (n mod 65536). pose proof (Z.div_mod n 65536 ltac:(lia)).
  pose proof (Z.mod_pos_bound n 65536 ltac:(lia)). pose proof (Z.div_pos n 65536 ltac:(lia) ltac:(lia)).
  pose proof (Z.div_lt_upper_bound n 65536 65536 ltac:(lia) ltac:(lia)). lia.
Qed.

Lemma SWAP_DWORD_words h l : 0 <= h < 2 ^ 16 -> 0 <= l < 2 ^ 16 ->
  SWAP_DWORD (65536 * h + l) = 65536 * SWAP_WORD l + SWAP_WORD h.
Proof.
  intros Hh Hl. rewrite SWAP_DWORD_eq by lia.
  rewrite <- (Z.div_unique (65536 * h + l) 65536 h l), <- (Z.mod_unique (65536 * h + l) 65536 h l); lia.
Qed.

Lemma SWAP_DWORD_range n : 0 <= n < 2 ^ 32 -> 0 <= SWAP_DWORD n < 2 ^ 32.
Proof.
  intros (h & l & -> & Hh & Hl)%two_words. rewrite SWAP_DWORD_words by done.
  pose proof (SWAP_WORD_range h Hh). pose proof (SWAP_WORD_range l Hl). lia.
Qed.

Lemma SWAP_DWORD_involutive n : 0 <= n < 2 ^ 32 -> SWAP_DWORD (SWAP_DWORD n) = n.
Proof.
  intros (h & l & -> & Hh & Hl)%two_words. pose proof (SWAP_WORD_range h Hh). pose proof (SWAP_WORD_range l Hl).
  by rewrite !SWAP_DWORD_words, !SWAP_WORD_involutive.
Qed.

(** The fields of the header that change with every segment. *)
Lemma header_fields_run hdr seq ack win opt len src dst b :
  byte_mem (mem b) -> 0 <= opt <= 40 -> opt mod 4 = 0 -> 20 <= len < 2 ^ 16 -> inside hdr len b = true ->
  address src -> address dst ->
  exists m, (st 4 (hdr + 4) seq ;; st 4 (hdr + 8) ack ;; st 2 (hdr + 14) win ;;
             st 1 (hdr + 12) (Z.shiftl (Z.shiftr (20 + opt) 2) 4) ;;
             sum ← tcp_checksum hdr len src dst ;
             st 2 (hdr + 16) sum ;; sum ← ld 2 (hdr + 16) ; st 2 (hdr + 16) (HOST2BE_WORD sum)) b = Ok (tt, with_mem m b) /\
    byte_mem m /\ (forall x, x < hdr + 4 \/ hdr + 18 <= x \/ x = hdr + 13 -> m x = mem b x) /\
    mem_load 4 m (hdr + 4) = u32 seq /\ mem_load 4 m (hdr + 8) = u32 ack /\ m (hdr + 12) = (20 + opt) * 4 /\
    mem_load 2 m (hdr + 16) = HOST2BE_WORD (segment_checksum m hdr len src dst).
Proof.
  intros Hm Ho Ho4 Hl Hin Hs Hd. rewrite inside_iff in Hin.
  assert (forall w x, hdr <= x -> x + Z.of_nat w <= hdr + len -> inside x (Z.of_nat w) b = true) as Hi.
  { intros w x Hx1 Hx2. rewrite inside_iff. lia. }
  rewrite (bind_ok _ _ _ _ _ (st_run 4 (hdr + 4) seq b (Hi 4%nat (hdr + 4) ltac:(lia) ltac:(lia)))).
  rewrite (bind_ok _ _ _ _ _ (st_at 4 (hdr + 8) ack _ b (Hi 4%nat (hdr + 8) ltac:(lia) ltac:(lia)))).
  rewrite (bind_ok _ _ _ _ _ (st_at 2 (hdr + 14) win _ b (Hi 2%nat (hdr + 14) ltac:(lia) ltac:(lia)))).
  rewrite (bind_ok _ _ _ _ _ (st_at 1 (hdr + 12) _ _ b (Hi 1%nat (hdr + 12) ltac:(lia) ltac:(lia)))).
  set (m4 := mem_store 1 _ (hdr + 12) _).
  assert (byte_mem m4) as Hm4 by (by do 4 apply mem_store_byte_mem).
  rewrite (bind_ok _ _ _ _ _ (tcp_checksum_run hdr len src dst (with_mem m4 b) Hm4 ltac:(lia)
    ltac:(rewrite inside_iff; simpl; lia) Hs Hd)).
  change (inet_checksum _) with (segment_checksum m4 hdr len src dst).
  pose proof (segment_checksum_range m4 hdr len src dst Hm4 ltac:(lia) Hs Hd) as Hr.
  set (k := segment_checksum m4 hdr len src dst) in *.
  change (tcp_clear hdr (with_mem m4 b)) with (with_mem (mem_store 2 m4 (hdr + 16) 0) b).
  pose proof (Hi 2%nat (hdr + 16) ltac:(lia) ltac:(lia)) as Hi16.
  rewrite (bind_ok _ _ _ _ _ (st_at 2 (hdr + 16) k _ b Hi16)), (bind_ok _ _ _ _ _ (ld_at 2 (hdr + 16) _ b Hi16)).
  rewrite mem_load_store_same. rewrite wrap_small by (change (8 * Z.of_nat 2) with 16; lia).
  rewrite (st_at 2 (hdr + 16) (SWAP_WORD k) _ b Hi16). set (m7 := mem_store 2 _ (hdr + 16) (SWAP_WORD k)).
  exists m7. split; [done|]. split; [by do 3 apply mem_store_byte_mem|].
  assert (forall x, x < hdr + 16 \/ hdr + 18 <= x -> m7 x = m4 x) as H7 by (intros; subst m7; by outside).
  assert (forall w k, k + Z.of_nat w <= hdr + 12 -> mem_load w m7 k = mem_load w m4 k) as H7l
    by (intros; apply mem_load_ext; intros; apply H7; lia).
  split; [|split; [|split; [|split]]].
  - intros x Hx. rewrite H7 by lia. subst m4. rewrite mem_store_1. destruct (decide _); [lia|]. by outside.
  - rewrite H7l by lia. subst m4. rewrite !mem_load_store_other by lia. apply mem_load_store_same.
  - rewrite H7l by lia. subst m4. rewrite !mem_load_store_other by lia. apply mem_load_store_same.
  - rewrite H7 by lia. subst m4. rewrite mem_store_1, decide_True by done.
    rewrite Z.shiftl_mul_pow2, Z.shiftr_div_pow2 by lia. pose proof (Z.div_mod opt 4 ltac:(lia)).
    rewrite <- (Z.div_unique (20 + opt) (2 ^ 2) (5 + opt / 4) 0) by lia.
    change (2 ^ 4) with 16. rewrite Z.mod_small; lia.
  - subst m7. rewrite mem_load_store_same. pose proof (SWAP_WORD_range k ltac:(lia)).
    rewrite wrap_small by (change (8 * Z.of_nat 2) with 16; lia). f_equal.
    apply segment_checksum_ext; [lia|]. intros x Hx Hx'. symmetry. by apply H7.
Qed.

(** [ipv4_rewrap] on the buffer. *)
Lemma rewrap_run ip k b : byte_mem (mem b) -> inside ip 20 b = true -> 0 <= k < 2 ^ 16 ->
  exists m, (st 2 (ip + 2) (HOST2BE_WORD k) ;; st 2 (ip + 10) 0 ;; ipv4_checksum ip) b = Ok (tt, with_mem m b) /\
    byte_mem m /\ (forall x, ~ (ip + 2 <= x < ip + 4 \/ ip + 10 <= x < ip + 12) -> m x = mem b x) /\
    mem_load 2 m (ip + 2) = HOST2BE_WORD k /\ mem_load 2 m (ip + 10) = HOST2BE_WORD (header_checksum m ip).
Proof.
  intros Hm Hin Hk. rewrite inside_iff in Hin.
  rewrite (bind_ok _ _ _ _ _ (st_run 2 (ip + 2) _ b ltac:(rewrite inside_iff; lia))).
  rewrite (bind_ok _ _ _ _ _ (st_at 2 (ip + 10) 0 _ b ltac:(rewrite inside_iff; lia))).
  set (m2 := mem_store 2 _ (ip + 10) 0).
  assert (byte_mem m2) as Hm2 by (by do 2 apply mem_store_byte_mem).
  rewrite (ipv4_checksum_run ip (with_mem m2 b) Hm2) by (rewrite inside_iff; simpl; lia).
  change (mem (ipv4_clear ip (with_mem m2 b))) with (mem_store 2 m2 (ip + 10) 0). cbn [mem with_mem].
  set (v := header_checksum m2 ip).
  set (m := mem_store 2 _ (ip + 10) (SWAP_WORD v)).
  pose proof (header_checksum_range m2 ip Hm2) as Hv. fold v in Hv.
  exists m. split; [done|]. split; [by do 2 apply mem_store_byte_mem|]. split; [|split].
  - intros x Hx. subst m m2. by outside.
  - subst m m2. rewrite !mem_load_store_other by lia. rewrite mem_load_store_same.
    apply wrap_small. by apply SWAP_WORD_range.
  - subst m. rewrite mem_load_store_same, wrap_small by (apply SWAP_WORD_range; lia). f_equal.
    apply header_checksum_ext. intros x Hx Hx'. by outside.
Qed.

(** A connection whose packet buffer holds the Ethernet, IPv4 and TCP headers. *)
Record wired (c : Conn) (t : Tcp) (hdr : Z) : Prop := {
  w_tcp : tcp c = Some t;
  w_header : header t = Some hdr;
  w_ip : ip_header c = Some (hdr - 20);
  w_head : bhead (buffer c) = hdr - 34;
  w_data : bdata (buffer c) = hdr + 20;
  w_low : 34 <= hdr;
  w_tail : bdata (buffer c) <= btail (buffer c) <= room (buffer c);
  w_size : btail (buffer c) - (hdr - 20) < 2 ^ 16;
  w_bytes : byte_mem (mem (buffer c));
  w_ver : mem (buffer c) (hdr - 20) = 0x45;
  w_frag : Z.land (HOST2BE_WORD (mem_load 2 (mem (buffer c)) (hdr - 14))) 0x3fff = 0;
  w_proto : mem (buffer c) (hdr - 11) = IP_PROTO_TCP;
  w_src : bytes_at (mem (buffer c)) (hdr - 8) 4 = local_ip c;
  w_dst : bytes_at (mem (buffer c)) (hdr - 4) 4 = remote_ip c;
  w_seq : 0 <= seq_ (cur t) < 2 ^ 32;
  w_ack : 0 <= ack_ (cur t) < 2 ^ 32;
  w_local : address (local_ip c);
  w_remote : address (remote_ip c);
  w_sport : mem_load 2 (mem (buffer c)) hdr = HOST2BE_WORD (local_port c);
  w_dport : mem_load 2 (mem (buffer c)) (hdr + 2) = HOST2BE_WORD (remote_port c)
}.

Lemma bytes_at_same m m' a n : (forall x, a <= x < a + Z.of_nat n -> m x = m' x) -> bytes_at m a n = bytes_at m' a n.
Proof. intros H. apply bytes_at_ext. intros. apply H. lia. Qed.

(** The headers stay when only fields of the segment, and the length and the checksum of
    the packet, are written. *)
Lemma wired_mem c t t' hdr m :
  wired c t hdr -> header t' = header t -> 0 <= seq_ (cur t') < 2 ^ 32 -> 0 <= ack_ (cur t') < 2 ^ 32 -> byte_mem m ->
  (forall x, x < hdr + 4 -> ~ (hdr - 18 <= x < hdr - 16 \/ hdr - 10 <= x < hdr - 8) -> m x = mem (buffer c) x) ->
  wired (set_tcp (set_buffer c (with_mem m (buffer c))) (Some t')) t' hdr.
Proof.
  intros [] Ht Hq Ha Hm Hx. set (c' := set_tcp _ _). change (mem (buffer c')) with m in *.
  assert (forall w k, k + Z.of_nat w <= hdr + 4 -> (k + Z.of_nat w <= hdr - 18 \/ hdr - 16 <= k) ->
    (k + Z.of_nat w <= hdr - 10 \/ hdr - 8 <= k) -> mem_load w m k = mem_load w (mem (buffer c)) k) as Hl
    by (intros; apply mem_load_ext; intros; apply Hx; lia).
  assert (forall n k, k + Z.of_nat n <= hdr + 4 -> hdr - 8 <= k -> bytes_at m k n = bytes_at (mem (buffer c)) k n) as Hb
    by (intros; apply bytes_at_same; intros; apply Hx; lia).
  split; change (mem (buffer c')) with m; rewrite ?Hl, ?Hb by lia; try done; rewrite ?Hx by lia; congruence.
Qed.

Section send.
Context (freq : Z).

Lemma on_conn_run {A} (m : M Conn A) w a c : m (conn w) = Ok (a, c) -> on_conn m w = Ok (a, set_conn c w).
Proof. intros H. unfold on_conn. by rewrite H. Qed.

Lemma on_buf_run {A} (m : M NetBuffer A) w a b :
  m (buffer (conn w)) = Ok (a, b) -> on_buf m w = Ok (a, set_conn (set_buffer (conn w) b) w).
Proof. intros H. apply on_conn_run. unfold on_buffer. by rewrite H. Qed.

Lemma upd_tcp_run f w t :
  tcp (conn w) = Some t -> upd_tcp f w = Ok (tt, set_conn (set_tcp (conn w) (Some (f t))) w).
Proof. intros H. unfold upd_tcp, the_tcp. run. simpl. by rewrite H. Qed.

Lemma the_tcp_run w t : tcp (conn w) = Some t -> the_tcp w = Ok (t, w).
Proof. intros H. unfold the_tcp. run. simpl. by rewrite H. Qed.

Lemma the_header_run w t h : tcp (conn w) = Some t -> header t = Some h -> the_header w = Ok (h, w).
Proof. intros H Hh. unfold the_header. rewrite (bind_ok _ _ _ _ _ (the_tcp_run w t H)). by rewrite Hh. Qed.

(** The same connection but for the measured times, the timer and the number of the FIN. *)
Record alike (t t' : Tcp) : Prop := {
  k_header : header t' = header t;
  k_state : state t' = state t;
  k_recv : recv t' = recv t;
  k_recv_window : recv_window t' = recv_window t;
  k_send : send t' = send t;
  k_send_window : send_window t' = send_window t;
  k_mss : mss t' = mss t;
  k_seq : seq_ (cur t') = seq_ (cur t);
  k_ack : ack_ (cur t') = ack_ (cur t)
}.

Lemma alike_refl t : alike t t.
Proof. done. Qed.

Lemma alike_trans t1 t2 t3 : alike t1 t2 -> alike t2 t3 -> alike t1 t3.
Proof. intros [] []. split; congruence. Qed.

Definition only_tcp {A} (m : M World A) : Prop :=
  forall w t, tcp (conn w) = Some t ->
    exists a t', m w = Ok (a, set_conn (set_tcp (conn w) (Some t')) w) /\ alike t t'.

Lemma set_tcp_same c t : tcp c = Some t -> set_tcp c (Some t) = c.
Proof. intros H. destruct c. simpl in *. by subst. Qed.

Lemma set_conn_same w : set_conn (conn w) w = w.
Proof. by destruct w. Qed.

Lemma only_tcp_ret {A} (a : A) : only_tcp (ret a).
Proof. intros w t H. exists a, t. by rewrite set_tcp_same, set_conn_same by done. Qed.

Lemma only_tcp_bind {A B} (m : M World A) (k : A -> M World B) :
  only_tcp m -> (forall a, only_tcp (k a)) -> only_tcp (bind m k).
Proof.
  intros Hm Hk w t H. destruct (Hm w t H) as (a & t1 & E1 & L1).
  destruct (Hk a _ t1 (eq_refl : tcp (conn (set_conn (set_tcp (conn w) (Some t1)) w)) = Some t1)) as (b & t2 & E2 & L2).
  exists b, t2. rewrite (bind_ok _ _ _ _ _ E1), E2. split; [done|]. by eapply alike_trans.
Qed.

Lemma only_tcp_upd f : (forall t, alike t (f t)) -> only_tcp (upd_tcp f).
Proof. intros Hf w t H. exists tt, (f t). by rewrite (upd_tcp_run f w t H). Qed.

Lemma only_tcp_the_tcp : only_tcp the_tcp.
Proof. intros w t H. exists t, t. by rewrite (the_tcp_run w t H), set_tcp_same, set_conn_same. Qed.

Lemma only_tcp_gets {A} (f : World -> A) : only_tcp (gets f).
Proof. intros w t H. exists (f w), t. by rewrite set_tcp_same, set_conn_same. Qed.

Lemma only_tcp_when b m : only_tcp m -> only_tcp (when b m).
Proof. intros. destruct b; [done|apply only_tcp_ret]. Qed.

Lemma only_tcp_set_rto_timeout ms : only_tcp (set_rto_timeout freq ms).
Proof. apply only_tcp_bind; [apply only_tcp_gets|]. intros. by apply only_tcp_upd. Qed.
End send.
#[export] Hint Resolve only_tcp_ret only_tcp_bind only_tcp_the_tcp only_tcp_gets only_tcp_when
  only_tcp_set_rto_timeout : net.

(** The effects of sending a segment. *)
Record sends (w w' : World) (t t' : Tcp) (p : list Z) : Prop := {
  s_sent : sent w' = sent w ++ [p];
  s_rx : rx w' = rx w;
  s_wakes : wakes w' = wakes w;
  s_now : now w' = now w;
  s_conn : conn w' = set_tcp (set_buffer (conn w) (with_mem (mem (buffer (conn w'))) (buffer (conn w)))) (Some t');
  s_alike : alike t t'
}.

Lemma only_tcp_step {A B} (m : M World A) (k : A -> M World B) c w t :
  only_tcp m -> tcp c = Some t ->
  exists a t', bind m k (set_conn c w) = k a (set_conn (set_tcp c (Some t')) w) /\ alike t t'.
Proof.
  intros Hm Ht. destruct (Hm (set_conn c w) t Ht) as (a & t' & E & ?). exists a, t'.
  by rewrite (bind_ok _ _ _ _ _ E).
Qed.

Ltac only_tcp_go t Ht t' H :=
  match goal with
  | |- context [bind ?m ?k (set_conn ?c ?w)] =>
    let E := fresh in
    let Hm := fresh in
    assert (only_tcp m) as Hm by
      (first [apply only_tcp_when|idtac];
       first [apply only_tcp_set_rto_timeout
             |by apply only_tcp_upd
             |case_match; [by apply only_tcp_upd|apply only_tcp_ret]]);
    destruct (only_tcp_step m k c w t Hm Ht) as (? & t' & E & H); rewrite E; clear E Hm
  end.

(** The last steps: length and checksum of the packet, and the device. *)
Lemma finish_run w c ip :
  let b := buffer c in
  ip_header c = Some ip -> byte_mem (mem b) -> 0 <= bhead b <= ip -> ip + 20 <= btail b <= room b ->
  btail b - ip < 2 ^ 16 ->
  exists m, (on_conn ipv4_rewrap ;; NETWORK_SEND) (set_conn c w) =
      Ok (tt, mkWorld (set_buffer c (with_mem m b)) (rx w) (now w) (isn_counter w)
               (sent w ++ [bytes_at m (bhead b) (Z.to_nat (btail b - bhead b))]) (wakes w)) /\
    byte_mem m /\ (forall x, ~ (ip + 2 <= x < ip + 4 \/ ip + 10 <= x < ip + 12) -> m x = mem b x) /\
    mem_load 2 m (ip + 2) = HOST2BE_WORD (btail b - ip) /\
    mem_load 2 m (ip + 10) = HOST2BE_WORD (header_checksum m ip).
Proof.
  intros b Hip Hm Hh Ht Hs.
  destruct (rewrap_run ip (btail b - ip) b) as (m & E & Hm' & Hx & Hl & Hc);
    [done|rewrite inside_iff; lia|lia|].
  exists m. split; [|done].
  assert (ipv4_rewrap c = Ok (tt, set_buffer c (with_mem m b))) as Hr.
  { unfold ipv4_rewrap. rewrite (bind_ok (gets id) _ c c c eq_refl), Hip. unfold on_buffer. fold b. by rewrite E. }
  rewrite (bind_ok _ _ _ _ _ (on_conn_run ipv4_rewrap (set_conn c w) _ _ Hr)).
  set (w1 := set_conn (set_buffer c (with_mem m b)) (set_conn c w)).
  unfold NETWORK_SEND. rewrite (bind_ok (gets (fun w => buffer (conn w))) _ w1 (with_mem m b) w1 eq_refl).
  rewrite (bind_ok _ _ _ _ _ (on_buf_run _ w1 _ _ (rd_run (bhead b) (btail b - bhead b) (with_mem m b)
    ltac:(rewrite inside_iff; simpl; lia)))). done.
Qed.

(** The headers of the next segment. *)
Definition head_of (c : Conn) (t : Tcp) (flags opt : Z) : Head :=
  mkHead (local_ip c) (remote_ip c) (local_port c) (remote_port c) (seq_ (cur t)) (ack_ (cur t)) flags opt.

(** The bytes of a packet whose segment and then whose header were completed. *)
Lemma sent_packet c t hdr m1 m opt :
  let n := btail (buffer c) - (hdr - 20) in
  let h := head_of c t (mem (buffer c) (hdr + 13)) opt in
  wired c t hdr ->
  (forall x, x < hdr + 4 \/ hdr + 18 <= x \/ x = hdr + 13 -> m1 x = mem (buffer c) x) ->
  mem_load 4 m1 (hdr + 4) = HOST2BE_DWORD (seq_ (cur t)) -> mem_load 4 m1 (hdr + 8) = HOST2BE_DWORD (ack_ (cur t)) ->
  m1 (hdr + 12) = (20 + opt) * 4 ->
  mem_load 2 m1 (hdr + 16) = HOST2BE_WORD (segment_checksum m1 hdr (n - 20) (local_ip c) (remote_ip c)) ->
  (forall x, ~ (hdr - 18 <= x < hdr - 16 \/ hdr - 10 <= x < hdr - 8) -> m x = m1 x) ->
  mem_load 2 m (hdr - 18) = HOST2BE_WORD n ->
  mem_load 2 m (hdr - 10) = HOST2BE_WORD (header_checksum m (hdr - 20)) ->
  packet m (hdr - 20) n h.
Proof.
  intros n h [] X1 Q1 A1 O1 S1 X2 L2 S2.
  assert (forall x, x < hdr + 4 -> ~ (hdr - 18 <= x < hdr - 16 \/ hdr - 10 <= x < hdr - 8) ->
    m x = mem (buffer c) x) as X by (intros; rewrite X2, X1 by lia; done).
  assert (forall w k, hdr - 8 <= k -> mem_load w m k = mem_load w m1 k) as X2l
    by (intros; apply mem_load_ext; intros; apply X2; lia).
  split; cbn [h head_of h_src h_dst h_sport h_dport h_seq h_ack h_flags h_opt].
  - rewrite X by lia. done.
  - replace (hdr - 20 + 2) with (hdr - 18) by lia. done.
  - replace (hdr - 20 + 6) with (hdr - 14) by lia. rewrite (mem_load_ext 2 m (mem (buffer c))); [done|].
    intros. apply X; lia.
  - replace (hdr - 20 + 9) with (hdr - 11) by lia. rewrite X by lia. done.
  - replace (hdr - 20 + 10) with (hdr - 10) by lia. done.
  - replace (hdr - 20 + 12) with (hdr - 8) by lia. rewrite <- w_src0. apply bytes_at_same. intros. apply X; lia.
  - replace (hdr - 20 + 16) with (hdr - 4) by lia. rewrite <- w_dst0. apply bytes_at_same. intros. apply X; lia.
  - replace (hdr - 20 + 20) with hdr by lia. rewrite <- w_sport0. apply mem_load_ext. intros. apply X; lia.
  - replace (hdr - 20 + 22) with (hdr + 2) by lia. rewrite <- w_dport0. apply mem_load_ext. intros. apply X; lia.
  - replace (hdr - 20 + 24) with (hdr + 4) by lia. rewrite X2l by lia. done.
  - replace (hdr - 20 + 28) with (hdr + 8) by lia. rewrite X2l by lia. done.
  - replace (hdr - 20 + 32) with (hdr + 12) by lia. rewrite X2 by lia. done.
  - replace (hdr - 20 + 33) with (hdr + 13) by lia. rewrite X2, X1 by lia. done.
  - replace (hdr - 20 + 36) with (hdr + 16) by lia. replace (hdr - 20 + 20) with hdr by lia.
    rewrite X2l by lia. rewrite S1. f_equal.
    apply segment_checksum_ext; [subst n; lia|]. intros x Hx _. symmetry. apply X2. lia.
Qed.

Section send_packet.
Context (freq : Z).

Lemma tcp_send_packet_run opt timer w t hdr :
  wired (conn w) t hdr -> 0 <= opt <= 40 -> opt mod 4 = 0 -> opt <= btail (buffer (conn w)) - (hdr + 20) ->
  let n := btail (buffer (conn w)) - (hdr - 20) in
  exists w' t' p, tcp_send_packet freq opt timer w = Ok (tt, w') /\
    wired (conn w') t' hdr /\ sends w w' t t' p /\
    p = bytes_at (mem (buffer (conn w'))) (hdr - 34) (Z.to_nat (n + 14)) /\
    packet (mem (buffer (conn w'))) (hdr - 20) n (head_of (conn w) t (mem (buffer (conn w)) (hdr + 13)) opt) /\
    (forall x, hdr + 18 <= x -> mem (buffer (conn w')) x = mem (buffer (conn w)) x).
Proof.
  intros W Ho Ho4 Ht n. pose proof W as []. set (c := conn w) in *. set (b := buffer c) in *.
  unfold tcp_send_packet.
  rewrite (bind_ok _ _ _ _ _ (the_header_run w t hdr w_tcp0 w_header0)).
  rewrite (bind_ok _ _ _ _ _ (the_tcp_run w t w_tcp0)).
  rewrite (bind_ok (gets conn) _ w c w eq_refl). cbv zeta. fold b.
  assert (20 <= content_size b + 20 < 2 ^ 16) as Hlen by (unfold content_size; lia).
  assert (inside hdr (content_size b + 20) b = true) as Hin by (rewrite inside_iff; unfold content_size; lia).
  edestruct header_fields_run as (m1 & E1 & B1 & X1 & Q1 & A1 & O1 & S1);
    [exact w_bytes0|exact Ho|exact Ho4|exact Hlen|exact Hin|exact w_local0|exact w_remote0|].
  rewrite (bind_ok _ _ _ _ _ (on_buf_run _ w _ _ E1)). set (c1 := set_buffer c (with_mem m1 b)).
  rewrite (bind_ok (gets id) _ (set_conn c1 w) (set_conn c1 w) (set_conn c1 w) eq_refl). fold c.
  only_tcp_go t w_tcp0 t1 H1. set (c2 := set_tcp c1 (Some t1)).
  assert (on_buf (ld 1 (hdr + 13)) (set_conn c2 w) = Ok (mem_load 1 m1 (hdr + 13), set_conn c2 w)) as Hf.
  { apply (on_buf_run _ (set_conn c2 w) _ (with_mem m1 b)), ld_at. rewrite inside_iff in *. lia. }
  rewrite (bind_ok _ _ _ _ _ Hf). only_tcp_go t1 (eq_refl : tcp c2 = Some t1) t2 H2.
  set (c3 := set_tcp c2 (Some t2)).
  rewrite (bind_ok _ _ _ _ _ (the_tcp_run (set_conn c3 w) t2 eq_refl)).
  only_tcp_go t2 (eq_refl : tcp c3 = Some t2) t3 H3. set (c4 := set_tcp c3 (Some t3)).
  destruct (finish_run w c4 (hdr - 20)) as (m2 & -> & B2 & X2 & L2 & S2);
    [exact w_ip0|exact B1|simpl; fold b; lia..|]. change (buffer c4) with (with_mem m1 b) in *.
  change (bhead (with_mem m1 b)) with (bhead b) in *. change (btail (with_mem m1 b)) with (btail b) in *.
  change (mem (with_mem m1 b)) with m1 in *. rewrite w_head0.
  replace (btail b - (hdr - 34)) with (n + 14) by lia.
  eexists _, t3, _. split; [done|]. split; [|split; [|split; [done|split]]].
  - assert (alike t t3) as [] by eauto using alike_trans.
    apply (wired_mem c t t3 hdr m2); [done|done|congruence|congruence|done|]. intros y Hy1 Hy2. by rewrite X2, X1 by lia.
  - split; [done..|]. eauto using alike_trans.
  - pose proof (sent_packet c t hdr m1 m2 opt W X1) as Hp. apply Hp; try done.
    + rewrite Q1. by apply wrap_small, SWAP_DWORD_range.
    + rewrite A1. by apply wrap_small, SWAP_DWORD_range.
    + fold b. rewrite S1. unfold content_size. do 2 f_equal. lia.
    + intros y Hy. apply X2. lia.
    + by replace (hdr - 18) with (hdr - 20 + 2) by lia.
    + by replace (hdr - 10) with (hdr - 20 + 10) by lia.
  - intros y Hy. simpl. rewrite X2, X1 by lia. done.
Qed.
End send_packet.

(** ** From one host to the other *)

(** The frame [p] is in a receive buffer, and [data] is behind its Ethernet header. *)
Record carries (b : NetBuffer) (p : list Z) : Prop := {
  ca_bytes : byte_mem (mem b);
  ca_frame : bytes_at (mem b) (bdata b - 14) (length p) = p;
  ca_low : 14 <= bdata b;
  ca_tail : bdata b - 14 + Z.of_nat (length p) <= btail b <= room b;
  ca_high : btail b < bdata b + 2 ^ 32
}.

(** A segment in the buffer of the handler: its header is at [hdr], its data at [data]. *)
Record arrived (b : NetBuffer) (hdr n : Z) (h : Head) : Prop := {
  ar_bytes : byte_mem (mem b);
  ar_inside : 0 <= hdr /\ hdr + 20 + h_opt h + n <= room b;
  ar_data : bdata b = hdr + 20 + h_opt h;
  ar_sport : mem_load 2 (mem b) hdr = HOST2BE_WORD (h_sport h);
  ar_seq : mem_load 4 (mem b) (hdr + 4) = HOST2BE_DWORD (h_seq h);
  ar_ack : mem_load 4 (mem b) (hdr + 8) = HOST2BE_DWORD (h_ack h);
  ar_off : mem b (hdr + 12) = (20 + h_opt h) * 4;
  ar_flags : mem b (hdr + 13) = h_flags h
}.

Section deliver.
Context (freq : Z) (fuel : nat) (udp_lh : list Conn).

(** A frame with a packet of the sender's memory is given to the addressee. *)
Lemma deliver m a k h b i n :
  40 + h_opt h <= k < 2 ^ 16 -> head_ok h -> packet m a k h ->
  carries b (bytes_at m (a - 14) (Z.to_nat (k + 14))) -> addressee n i h ->
  exists b', ipv4_recv freq fuel udp_lh (set_net_rx n b) =
      (on_number i (tcp_rx_handler freq fuel (bdata b + 20) (k - 40 - h_opt h) (h_src h)) ;; ret PROTO_OK)
        (set_net_rx n b') /\
    arrived b' (bdata b + 20) (k - 40 - h_opt h) h /\
    (forall i, 20 <= i < k - 20 -> mem b' (bdata b + 20 + i) = m (a + 20 + i)).
Proof.
  intros Hk Hh P [Cb Cf Cl Ct Ch] Hi. pose proof (ho_opt h Hh). rewrite bytes_at_length in *.
  assert (forall i, 0 <= i < k -> m (a + i) = mem b (bdata b + i)) as Hx.
  { intros j Hj. pose proof (bytes_at_inj _ _ _ _ (Z.to_nat (k + 14)) Cf (14 + j) ltac:(lia)) as E.
    replace (bdata b - 14 + (14 + j)) with (bdata b + j) in E by lia.
    replace (a - 14 + (14 + j)) with (a + j) in E by lia. done. }
  pose proof (packet_shift m (mem b) a (bdata b) k h ltac:(lia) Hx P) as P'.
  destruct (ipv4_recv_run freq fuel udp_lh k h i (set_net_rx n b)) as (b' & E & []);
    [done|done|lia|rewrite inside_iff; simpl; lia|simpl; lia|done|done|].
  cbn [net_rx set_net_rx] in *. exists b'. split; [done|]. destruct P'. split.
  - assert (forall w j, 20 <= j -> j + Z.of_nat w <= 36 -> mem_load w (mem b') (bdata b + j) = mem_load w (mem b) (bdata b + j)) as Hl
      by (intros; apply mem_load_ext; intros; apply sb_mem0; lia).
    split; rewrite <- ?Z.add_assoc; rewrite ?Hl by lia; rewrite ?sb_mem0 by lia; try done; lia.
  - intros j Hj. rewrite sb_mem0 by lia. rewrite <- !Z.add_assoc, Hx by lia. done.
Qed.
End deliver.
