(* ===== verification/TcpOpen.v ===== *)
(** * Opening a connection

    The handlers of the three segments of a handshake, run on connections whose packet
    buffers hold their headers. *)

From stdpp Require Import base tactics list functions.
From S2P Require Import Prelude CMonad Net NetSum Tcp TcpWire.
Local Open Scope Z_scope.

(** ** The parts of a handler *)

Section parts.
Context (freq : Z).

Lemma tcp_ack_run opt extra w t hdr :
  wired (conn w) t hdr -> 0 <= opt <= 40 -> opt mod 4 = 0 -> opt <= btail (buffer (conn w)) - (hdr + 20) ->
  0 <= extra < 256 -> 
  let n := btail (buffer (conn w)) - (hdr - 20) in
  exists w' t' p, tcp_ack freq opt extra w = Ok (tt, w') /\
    wired (conn w') t' hdr /\ sends w w' t t' p /\
    p = bytes_at (mem (buffer (conn w'))) (hdr - 34) (Z.to_nat (n + 14)) /\
    packet (mem (buffer (conn w'))) (hdr - 20) n (head_of (conn w) t (Z.lor extra TCP_FLAG_ACK mod 256) opt) /\
    (forall x, hdr + 18 <= x -> mem (buffer (conn w')) x = mem (buffer (conn w)) x).
Proof.
  intros W Ho Ho4 Ht He n. pose proof W as []. set (c := conn w) in *. set (b := buffer c) in *.
  unfold tcp_ack. rewrite (bind_ok _ _ _ _ _ (the_header_run w t hdr w_tcp w_header)).
  assert (inside (hdr + 13) 1 b = true) as Hi by (rewrite inside_iff; lia).
  set (m := mem_store 1 (mem_store 1 (mem b) (hdr + 13) extra) (hdr + 13) (Z.lor extra TCP_FLAG_ACK)).
  assert (on_buf (st 1 (hdr + 13) extra ;; f ← ld 1 (hdr + 13) ; st 1 (hdr + 13) (Z.lor f TCP_FLAG_ACK)) w =
    Ok (tt, set_conn (set_buffer c (with_mem m b)) w)) as E.
  { apply on_buf_run. fold c b. rewrite (bind_ok _ _ _ _ _ (st_run 1 _ _ _ Hi)), (bind_ok _ _ _ _ _ (ld_at 1 _ _ _ Hi)).
    rewrite mem_load_store_same, wrap_small by done. by rewrite (st_at 1 _ _ _ _ Hi). }
  rewrite (bind_ok _ _ _ _ _ E). set (c1 := set_buffer c (with_mem m b)).
  assert (wired c1 t hdr) as W1.
  { pose proof (wired_mem c t t hdr m W eq_refl ltac:(done) ltac:(done)) as Hw.
    rewrite set_tcp_same in Hw by exact w_tcp. apply Hw; [by do 2 apply mem_store_byte_mem|].
    intros x Hx _. subst m. by rewrite !mem_store_outside by lia. }
  destruct (tcp_send_packet_run freq opt true (set_conn c1 w) t hdr W1 Ho Ho4 Ht) as (w' & t' & p & E' & W' & [] & Hp & P & X).
  exists w', t', p. split; [done|]. split; [done|]. split; [done|]. split; [done|]. split.
  - replace (Z.lor extra TCP_FLAG_ACK mod 256) with (mem (buffer (conn (set_conn c1 w))) (hdr + 13)); [exact P|].
    change (m (hdr + 13) = Z.lor extra TCP_FLAG_ACK mod 256). subst m. rewrite mem_store_1. by rewrite decide_True.
  - intros x Hx. rewrite X by done. change (m x = mem b x). subst m. by rewrite !mem_store_outside by lia.
Qed.

(** Steps from a world whose connection was set. *)
Lemma on_conn_at {A} (m : M Conn A) c w a c' : m c = Ok (a, c') -> on_conn m (set_conn c w) = Ok (a, set_conn c' w).
Proof. apply (on_conn_run m (set_conn c w)). Qed.

Lemma on_buf_at {A} (m : M NetBuffer A) c w a b :
  m (buffer c) = Ok (a, b) -> on_buf m (set_conn c w) = Ok (a, set_conn (set_buffer c b) w).
Proof. apply (on_buf_run m (set_conn c w)). Qed.

Lemma upd_tcp_at f c w t : tcp c = Some t -> upd_tcp f (set_conn c w) = Ok (tt, set_conn (set_tcp c (Some (f t))) w).
Proof. apply (upd_tcp_run f (set_conn c w)). Qed.

Lemma on_rx_at {A} (m : M NetBuffer A) c w a b :
  m (rx w) = Ok (a, b) -> on_rx m (set_conn c w) = Ok (a, set_conn c (set_rx b w)).
Proof. intros H. unfold on_rx. simpl. by rewrite H. Qed.

Lemma on_rx_read {A} (m : M NetBuffer A) w a : m (rx w) = Ok (a, rx w) -> on_rx m w = Ok (a, w).
Proof. intros H. unfold on_rx. rewrite H. by destruct w. Qed.

Lemma rx8_run off w : inside off 1 (rx w) = true -> rx8 off w = Ok (mem (rx w) off, w).
Proof. intros H. apply on_rx_read. rewrite (ld_run 1 off _ H). by rewrite mem_load_1. Qed.

Lemma rx16_run off v w : inside off 2 (rx w) = true -> mem_load 2 (mem (rx w)) off = HOST2BE_WORD v ->
  0 <= v < 2 ^ 16 -> rx16 off w = Ok (v, w).
Proof.
  intros H Hv Hr. unfold rx16. rewrite (bind_ok _ _ _ _ _ (on_rx_read _ w _ (ld_run 2 off _ H))), Hv.
  by rewrite SWAP_WORD_involutive.
Qed.

Lemma rx16_some off w : byte_mem (mem (rx w)) -> inside off 2 (rx w) = true ->
  exists v, rx16 off w = Ok (v, w) /\ 0 <= v < 2 ^ 16.
Proof.
  intros Hm H. exists (HOST2BE_WORD (mem_load 2 (mem (rx w)) off)).
  pose proof (mem_load_range 2 (mem (rx w)) off Hm) as Hr. change (8 * Z.of_nat 2) with 16 in Hr.
  split; [|by apply SWAP_WORD_range].
  apply rx16_run; [done|by rewrite SWAP_WORD_involutive|by apply SWAP_WORD_range].
Qed.

Lemma rx32_run off v w : inside off 4 (rx w) = true -> mem_load 4 (mem (rx w)) off = HOST2BE_DWORD v ->
  0 <= v < 2 ^ 32 -> rx32 off w = Ok (v, w).
Proof.
  intros H Hv Hr. unfold rx32. rewrite (bind_ok _ _ _ _ _ (on_rx_read _ w _ (ld_run 4 off _ H))), Hv.
  by rewrite SWAP_DWORD_involutive.
Qed.

(** ** Options *)

Definition no_options (w : World) (hdr : Z) : Prop := mem (rx w) (hdr + 12) = 20 * 4.
(** Four bytes: the option of the segment size, or the end of the options at once. *)
Definition mss_option (w : World) (hdr : Z) : Prop :=
  mem (rx w) (hdr + 12) = 24 * 4 /\ mem (rx w) (hdr + 20) = TCP_OPTION_MSS /\ mem (rx w) (hdr + 21) = 4.
Definition end_option (w : World) (hdr : Z) : Prop :=
  mem (rx w) (hdr + 12) = 24 * 4 /\ mem (rx w) (hdr + 20) = TCP_OPTION_END.

Lemma options_run fuel hdr w :
  inside hdr 24 (rx w) = true -> (2 <= fuel)%nat -> mss_option w hdr \/ end_option w hdr ->
  exists i, tcp_options_handler fuel hdr w = Ok (i, w) /\ TOI_MAX <= i.
Proof.
  intros Hin Hf H. rewrite inside_iff in Hin. unfold tcp_options_handler.
  rewrite (bind_ok _ _ _ _ _ (rx8_run (hdr + 12) w ltac:(rewrite inside_iff; lia))).
  assert (mem (rx w) (hdr + 12) = 96) as -> by (by destruct H as [[] | []]).
  change (s32 (Z.shiftr (Z.land 96 240) 2 - 20)) with 4. change (4 <=? 0) with false. cbv iota zeta.
  destruct fuel as [|[|fuel]]; [lia|lia|]. cbn [options_loop]. change (0 <? 4) with true. cbv iota.
  rewrite Z.add_0_r. rewrite (bind_ok _ _ _ _ _ (rx8_run (hdr + 20) w ltac:(rewrite inside_iff; lia))).
  destruct H as [(_ & -> & H21)|(_ & ->)]; cbv beta iota zeta delta [TCP_OPTION_MSS TCP_OPTION_END TCP_OPTION_NOP].
  - change (2 =? 0) with false. change (2 =? 1) with false. cbv iota. change (0 + 1 >=? 4) with false. cbv iota.
    rewrite (bind_ok _ _ _ _ _ (rx8_run (hdr + 20 + (0 + 1)) w ltac:(rewrite inside_iff; lia))).
    replace (hdr + 20 + (0 + 1)) with (hdr + 21) by lia. rewrite H21. by exists 2.
  - by exists TOI_MAX.
Qed.

Lemma no_options_run fuel hdr w :
  inside hdr 20 (rx w) = true -> no_options w hdr -> tcp_options_handler fuel hdr w = Ok (TOI_MAX, w).
Proof.
  intros Hin H. rewrite inside_iff in Hin. unfold tcp_options_handler.
  rewrite (bind_ok _ _ _ _ _ (rx8_run (hdr + 12) w ltac:(rewrite inside_iff; lia))). by rewrite H.
Qed.

Lemma take_mss_skip hdr i w : TOI_MAX <= i -> take_mss hdr i w = Ok (tt, w).
Proof. intros H. unfold take_mss. destruct (Z.ltb_spec i TOI_MAX); [lia|done]. Qed.
End parts.

(** ** A SYN for a connection that listens *)

(** The headers that do not depend on the peer are in the packet buffer. *)
Record prepared (c : Conn) (t : Tcp) (hdr : Z) : Prop := {
  p_tcp : tcp c = Some t;
  p_header : header t = Some hdr;
  p_ip : ip_header c = Some (hdr - 20);
  p_head : bhead (buffer c) = hdr - 34;
  p_data : bdata (buffer c) = hdr + 20;
  p_low : 34 <= hdr;
  p_size : hdr + 24 <= bsize (buffer c);
  p_room : hdr + 24 <= room (buffer c);
  p_bytes : byte_mem (mem (buffer c));
  p_ver : mem (buffer c) (hdr - 20) = 0x45;
  p_frag : Z.land (HOST2BE_WORD (mem_load 2 (mem (buffer c)) (hdr - 14))) 0x3fff = 0;
  p_proto : mem (buffer c) (hdr - 11) = IP_PROTO_TCP;
  p_src : bytes_at (mem (buffer c)) (hdr - 8) 4 = local_ip c;
  p_local : address (local_ip c);
  p_port : 0 <= local_port c < 2 ^ 16
}.

Lemma put_bytes_outside l : forall m a x, x < a \/ a + Z.of_nat (length l) <= x -> put_bytes m a l x = m x.
Proof.
  induction l as [|y l IH]; intros m a x Hx; simpl in *; [done|].
  rewrite IH by lia. by rewrite fn_lookup_insert_ne by lia.
Qed.

Lemma bytes_at_put l : forall m a, bytes_at (put_bytes m a l) a (length l) = l.
Proof.
  induction l as [|y l IH]; intros m a; [done|]. cbn [length put_bytes]. rewrite bytes_at_S, IH.
  rewrite put_bytes_outside by lia. by rewrite fn_lookup_insert.
Qed.

Lemma put_bytes_byte_mem l : forall m a, byte_mem m -> bytes l -> byte_mem (put_bytes m a l).
Proof.
  induction l as [|y l IH]; intros m a Hm Hl; [done|]. inversion Hl; subst. apply IH; [|done].
  intros x. destruct (decide (a = x)) as [<-|]; [by rewrite fn_lookup_insert|by rewrite fn_lookup_insert_ne].
Qed.

Lemma wr_run off l b :
  inside off (Z.of_nat (length l)) b = true -> wr off l b = Ok (tt, with_mem (put_bytes (mem b) off l) b).
Proof. intros H. unfold wr. run. simpl. by rewrite H. Qed.

(** *** Sequences of bytes in memory *)

Definition lies (m : Z -> Z) (a : Z) (l : list Z) : Prop := bytes_at m a (length l) = l.

Lemma lies_app m a l1 l2 : lies m a (l1 ++ l2) <-> lies m a l1 /\ lies m (a + Z.of_nat (length l1)) l2.
Proof.
  unfold lies. rewrite length_app, bytes_at_app. split.
  - intros H. apply app_inj_1 in H; [done|]. apply bytes_at_length.
  - by intros [-> ->].
Qed.

Lemma lies_cons m a x l : lies m a (x :: l) <-> m a = x /\ lies m (a + 1) l.
Proof. unfold lies. cbn [length]. rewrite bytes_at_S. split; [by intros [= -> ->]|by intros [-> ->]]. Qed.

Lemma lies_same m m' a l : (forall x, a <= x < a + Z.of_nat (length l) -> m' x = m x) -> lies m a l -> lies m' a l.
Proof. unfold lies. intros H Hl. rewrite <- Hl at 2. by apply bytes_at_same. Qed.

Lemma lies_put m a l : lies (put_bytes m a l) a l.
Proof. apply bytes_at_put. Qed.

Lemma lies_put_other m a l b l' :
  b + Z.of_nat (length l') <= a \/ a + Z.of_nat (length l) <= b -> lies m b l' -> lies (put_bytes m a l) b l'.
Proof. intros H. apply lies_same. intros x Hx. apply put_bytes_outside. lia. Qed.

Lemma lies_store_other n m a v b l' :
  b + Z.of_nat (length l') <= a \/ a + Z.of_nat n <= b -> lies m b l' -> lies (mem_store n m a v) b l'.
Proof. intros H. apply lies_same. intros x Hx. apply mem_store_outside. lia. Qed.

Lemma lies_be_word m a v : 0 <= v < 2 ^ 16 -> lies (mem_store 2 m a (HOST2BE_WORD v)) a [v / 256; v mod 256].
Proof.
  intros Hv. rewrite SWAP_WORD_eq by done.
  pose proof (Z.mod_pos_bound v 256 ltac:(lia)). pose proof (Z.div_pos v 256 ltac:(lia) ltac:(lia)).
  pose proof (Z.div_lt_upper_bound v 256 256 ltac:(lia) ltac:(lia)).
  unfold lies, bytes_at. simpl. rewrite Z.add_0_r, fn_lookup_insert.
  rewrite fn_lookup_insert_ne by lia. replace (a + Z.of_nat 1) with (a + 1) by lia. rewrite fn_lookup_insert.
  rewrite (Z.mul_comm 256), Z.div_add_l, (Z.div_small (v / 256)), Z.add_0_r by lia.
  rewrite (Z.add_comm (v mod 256 * 256)), Z.mod_add, (Z.mod_small (v / 256)), (Z.mod_small (v mod 256)) by lia. done.
Qed.

Lemma lies_byte m a v : 0 <= v < 256 -> lies (mem_store 1 m a v) a [v].
Proof.
  intros Hv. unfold lies, bytes_at. simpl. rewrite Z.add_0_r, fn_lookup_insert. by rewrite Z.mod_small.
Qed.

Lemma rd_lies off l b : lies (mem b) off l -> inside off (Z.of_nat (length l)) b = true ->
  rd off (Z.of_nat (length l)) b = Ok (l, b).
Proof. intros Hl Hi. rewrite rd_run by done. by rewrite Nat2Z.id, Hl. Qed.

Lemma load_lies2 m a x y : lies m a [x; y] -> mem_load 2 m a = x + 256 * y.
Proof. rewrite !lies_cons. intros (<- & <- & _). apply mem_load_2. Qed.

Ltac lies_auto := repeat first
  [ apply lies_put | apply lies_be_word; lia | apply lies_byte; lia
  | apply lies_put_other; [rewrite ?length_replicate; cbn [length]; lia|]
  | apply lies_store_other; [rewrite ?length_replicate; cbn [length]; lia|] ].

(** The address and the ports of the peer are entered. *)
Definition peer_mem (m : Z -> Z) (hdr : Z) (ip : list Z) (lport rport : Z) : Z -> Z :=
  mem_store 2 (mem_store 2 (put_bytes m (hdr - 4) ip) hdr (HOST2BE_WORD lport)) (hdr + 2) (HOST2BE_WORD rport).

Lemma peer_wired c t hdr ip port t' :
  let b := buffer c in
  let m := peer_mem (mem b) hdr ip (local_port c) port in
  prepared c t hdr -> address ip -> 0 <= port < 2 ^ 16 -> header t' = Some hdr ->
  0 <= seq_ (cur t') < 2 ^ 32 -> 0 <= ack_ (cur t') < 2 ^ 32 ->
  wired (set_tcp (set_buffer (set_remote c ip port) (with_tail (hdr + 24) (with_mem m b))) (Some t')) t' hdr.
Proof.
  intros b m [] [Hl Hb] Hp Ht Hq Ha. fold b in p_head0, p_data0, p_size0, p_room0, p_bytes0, p_ver0, p_frag0, p_proto0, p_src0.
  assert (forall x, x < hdr - 4 -> m x = mem b x) as Hx.
  { intros x Hx. unfold m, peer_mem. by rewrite !mem_store_outside, put_bytes_outside by lia. }
  split; try done; simpl; fold b; try lia.
  - subst m. by do 2 apply mem_store_byte_mem; apply put_bytes_byte_mem.
  - rewrite Hx by lia. done.
  - rewrite !Hx by lia. exact p_frag0.
  - rewrite Hx by lia. done.
  - rewrite <- p_src0. apply bytes_at_same. intros. apply Hx. lia.
  - replace ip with (bytes_at (put_bytes (mem b) (hdr - 4) ip) (hdr - 4) 4); [|rewrite <- Hl; apply bytes_at_put].
    apply bytes_at_same. intros x Hx'. unfold m, peer_mem. by rewrite !mem_store_outside by lia.
  - change (mem_load 2 m hdr = HOST2BE_WORD (local_port c)). unfold m, peer_mem.
    rewrite mem_load_store_other by lia. rewrite mem_load_store_same. by apply wrap_small, SWAP_WORD_range.
  - change (mem_load 2 m (hdr + 2) = HOST2BE_WORD port). unfold m, peer_mem.
    rewrite mem_load_store_same. by apply wrap_small, SWAP_WORD_range.
Qed.

Section listen.
Context (freq : Z).

Definition next_isn (w : World) (pair : list Z) : Z :=
  u32 (u32 (now w + fnv1_hash_32 pair) + u32 (isn_counter w + 1)).

(** The effects of the handlers that answer with one segment. *)
Record answers (w w' : World) (p : list Z) (m : Z -> Z) (hdr k : Z) (h : Head) : Prop := {
  an_sent : sent w' = sent w ++ [p];
  an_now : now w' = now w;
  an_frame : p = bytes_at m (hdr - 34) (Z.to_nat (k + 14));
  an_packet : packet m (hdr - 20) k h
}.

(** The option that is written into the received segment. *)
Lemma reply_option_run rhdr v b : inside rhdr 24 b = true ->
  exists b', (st 1 (rhdr + 20) TCP_OPTION_MSS ;; st 1 (rhdr + 21) 4 ;; st 2 (rhdr + 22) (HOST2BE_WORD v)) b = Ok (tt, b').
Proof.
  intros H. rewrite inside_iff in H. eexists.
  rewrite (bind_ok _ _ _ _ _ (st_run 1 (rhdr + 20) _ b ltac:(rewrite inside_iff; lia))).
  rewrite (bind_ok _ _ _ _ _ (st_at 1 (rhdr + 21) _ _ b ltac:(rewrite inside_iff; lia))).
  apply st_at. rewrite inside_iff; lia.
Qed.

(** The peer's address and the ports are put into the headers. *)
Lemma note_peer_run {A} w t hdr src port (k : Conn -> M World A) :
  let c := conn w in let b := buffer c in let c1 := set_remote c src port in
  prepared c t hdr -> address src ->
  (on_conn (modify (fun c => set_remote c src port)) ;;
   c ← gets conn ;
   ip ← of_option (ip_header c) ;
   on_buf (wr (ip + 16) src) ;;
   own ← the_header ;
   on_buf (st 2 own (HOST2BE_WORD (local_port c)) ;; st 2 (own + 2) (HOST2BE_WORD (remote_port c))) ;;
   k c) w =
  k c1 (set_conn (set_buffer c1 (with_mem (peer_mem (mem b) hdr src (local_port c) port) b)) w).
Proof.
  intros c b c1 [] [Hsl Hsb]. fold b in p_head0, p_data0, p_size0, p_room0.
  rewrite (bind_ok _ _ _ _ _ (on_conn_run (modify (fun c => set_remote c src port)) w tt _ eq_refl)). fold c c1.
  rewrite (bind_ok (gets conn) _ (set_conn c1 w) c1 (set_conn c1 w) eq_refl).
  change (ip_header c1) with (ip_header c). rewrite p_ip0.
  rewrite (bind_ok (of_option (Some (hdr - 20))) _ (set_conn c1 w) (hdr - 20) (set_conn c1 w) eq_refl).
  replace (hdr - 20 + 16) with (hdr - 4) by lia.
  assert (inside (hdr - 4) (Z.of_nat (length src)) b = true) as Hi1 by (rewrite inside_iff, Hsl; lia).
  rewrite (bind_ok _ _ _ _ _ (on_buf_at _ c1 w _ _ (wr_run (hdr - 4) src b Hi1))).
  set (c2 := set_buffer c1 (with_mem (put_bytes (mem b) (hdr - 4) src) b)).
  rewrite (bind_ok _ _ _ _ _ (the_header_run (set_conn c2 w) t hdr p_tcp0 p_header0)).
  set (m := peer_mem (mem b) hdr src (local_port c) port).
  assert ((st 2 hdr (HOST2BE_WORD (local_port c1)) ;; st 2 (hdr + 2) (HOST2BE_WORD (remote_port c1))) (buffer c2) =
    Ok (tt, with_mem m b)) as E1.
  { change (buffer c2) with (with_mem (put_bytes (mem b) (hdr - 4) src) b).
    rewrite (bind_ok _ _ _ _ _ (st_at 2 hdr _ _ b ltac:(rewrite inside_iff; lia))).
    apply st_at. rewrite inside_iff; lia. }
  by rewrite (bind_ok _ _ _ _ _ (on_buf_at _ c2 w _ _ E1)).
Qed.

Lemma rx_listen_run w t hdr h rhdr n i :
  let c := conn w in
  prepared c t hdr -> arrived (rx w) rhdr n h -> head_ok h -> h_opt h = 4 -> 0 <= n ->
  0 <= h_seq h < 2 ^ 32 -> TOI_MAX <= i ->
  let isn := next_isn w (conn_pair (set_remote c (h_src h) (h_sport h))) in
  exists w' t' p m, rx_listen freq rhdr i (h_seq h) (h_src h) w = Ok (tt, w') /\
    wired (conn w') t' hdr /\ state t' = TCP_STATE_SYN_RECEIVED /\ seq_ (cur t') = isn /\
    ack_ (cur t') = u32 (h_seq h + 1) /\
    local_ip (conn w') = local_ip c /\ local_port (conn w') = local_port c /\
    remote_ip (conn w') = h_src h /\ remote_port (conn w') = h_sport h /\
    answers w w' p m hdr 44
      (mkHead (local_ip c) (h_src h) (local_port c) (h_sport h) isn (u32 (h_seq h + 1)) 0x12 4) /\
    (forall x, hdr + 20 <= x -> m x = mem (buffer c) x).
Proof.
  intros c Pc [] [] Ho Hn Hq Hi isn. pose proof Pc as []. set (b := buffer c) in *.
  rewrite Ho in *.
  unfold rx_listen. rewrite (bind_ok _ _ _ _ _ (take_mss_skip rhdr i w Hi)).
  rewrite (bind_ok _ _ _ _ _ (rx16_run rhdr (h_sport h) w ltac:(rewrite inside_iff; lia) ar_sport ho_sport)).
  rewrite (note_peer_run w t hdr (h_src h) (h_sport h) _ Pc ho_src). cbv zeta. fold c b.
  set (c1 := set_remote c (h_src h) (h_sport h)) in *.
  set (m := peer_mem (mem b) hdr (h_src h) (local_port c) (h_sport h)). set (c3 := set_buffer c1 (with_mem m b)).
  set (w3 := mkWorld c (rx w) (now w) (u32 (isn_counter w + 1)) (sent w) (wakes w)).
  assert (tcp_generate_isn (conn_pair c1) (set_conn c3 w) = Ok (isn, set_conn c3 w3)) as E2 by done.
  rewrite (bind_ok _ _ _ _ _ E2).
  destruct (rx16_some (rhdr + 14) (set_conn c3 w3) ar_bytes ltac:(rewrite inside_iff; simpl; lia)) as (win & E3 & _).
  rewrite (bind_ok _ _ _ _ _ E3), (bind_ok _ _ _ _ _ (upd_tcp_at _ c3 w3 t p_tcp0)). set (t1 := set_state _ _).
  set (c4 := set_tcp c3 (Some t1)).
  rewrite (bind_ok _ _ _ _ _ (on_buf_at net_buffer_clean_data c4 w3 tt _ eq_refl)).
  change (set_buffer c4 _) with (set_buffer c4 (with_tail (bdata b) (with_mem m b))). rewrite p_data0.
  set (c5 := set_buffer c4 (with_tail (hdr + 20) (with_mem m b))).
  rewrite (bind_ok _ _ _ _ _ (the_tcp_run (set_conn c5 w3) t1 eq_refl)).
  destruct (reply_option_run rhdr (mss t1) (rx w) ltac:(rewrite inside_iff; lia)) as (rx' & E4).
  rewrite (bind_ok _ _ _ _ _ (on_rx_at _ c5 w3 _ _ E4)).
  assert (net_buffer_put 4 (buffer c5) = Ok (PROTO_OK, with_tail (hdr + 20 + 4) (with_mem m b))) as E5.
  { unfold net_buffer_put. run. simpl. fold b. destruct (Z.gtb_spec (hdr + 20 + 4) (bsize b)); [lia|done]. }
  rewrite (bind_ok _ _ _ _ _ (on_buf_at _ c5 (set_rx rx' w3) _ _ E5)).
  replace (hdr + 20 + 4) with (hdr + 24) by lia. set (w6 := set_conn _ (set_rx rx' w3)).
  assert (wired (conn w6) t1 hdr) as W6.
  { apply (peer_wired c t hdr (h_src h) (h_sport h) t1 Pc ho_src ho_sport); [done| |];
      (unfold u32; apply wrap_range; lia). }
  destruct (tcp_ack_run freq 4 TCP_FLAG_SYN w6 t1 hdr W6) as (w' & t' & p & E & W' & [] & Hp & P & X);
    [lia|done|simpl; lia|done|].
  exists w', t', p, (mem (buffer (conn w'))). rewrite s_conn at 2 3 4 5. destruct s_alike.
  split; [exact E|]. split; [exact W'|]. split; [done|]. split; [rewrite k_seq; apply wrap_wrap|]. split; [done|].
  do 4 (split; [done|]). split.
  - split; [done|done| |].
    + rewrite Hp. f_equal. simpl. lia.
    + replace 44 with (btail (buffer (conn w6)) - (hdr - 20)) by (simpl; lia).
      replace isn with (seq_ (cur t1)) by apply wrap_wrap. exact P.
  - intros x Hx. rewrite X by lia. change (m x = mem b x). unfold m, peer_mem.
    rewrite !mem_store_outside by lia. apply put_bytes_outside. destruct ho_src as [Hsl _]. lia.
Qed.
End listen.

(** ** The acknowledgement of a SYN *)

(** The headers stay when the record of the connection, its state and the tail change. *)
Lemma wired_tail c t t' hdr s tail :
  wired c t hdr -> header t' = header t -> 0 <= seq_ (cur t') < 2 ^ 32 -> 0 <= ack_ (cur t') < 2 ^ 32 ->
  hdr + 20 <= tail <= btail (buffer c) ->
  wired (set_tcp (set_buffer (set_cstate c s) (with_tail tail (buffer c))) (Some t')) t' hdr.
Proof. intros [] Hh Hq Ha Ht. split; try done; simpl; try congruence; lia. Qed.

Definition after_ack (ack : Z) (t : Tcp) : Tcp := set_state TCP_STATE_ESTABLISHED (set_seq ack t).

Lemma rx_syn_acked_run ack c w t :
  tcp c = Some t -> ack = u32 (seq_ (cur t) + 1) ->
  rx_syn_acked true ack (set_conn c w) =
    Ok (Some tt, set_conn (set_tcp (set_cstate c CONN_STATE_OPENED) (Some (after_ack ack t))) w).
Proof.
  intros Ht ->. unfold rx_syn_acked. rewrite (bind_ok _ _ _ _ _ (the_tcp_run (set_conn c w) t Ht)).
  rewrite Z.eqb_refl. cbn [negb]. rewrite (bind_ok _ _ _ _ _ (upd_tcp_at _ c w t Ht)).
  set (c1 := set_tcp c _). unfold set_conn_state.
  rewrite (bind_ok _ _ _ _ _ (on_conn_at (modify (fun c => set_cstate c CONN_STATE_OPENED)) c1 w tt _ eq_refl)).
  set (c2 := set_cstate c1 _).
  by rewrite (bind_ok _ _ _ _ _ (upd_tcp_at (set_state TCP_STATE_ESTABLISHED) c2 w _ eq_refl)).
Qed.

Section acked.
Context (freq : Z).

Lemma cancel_timer_at c w t : tcp c = Some t ->
  cancel_timer (set_conn c w) =
    Ok (tt, set_conn (set_tcp c (Some (set_timer (timer_callback_cancel (timeout_timer t)) t))) w).
Proof. intros H. unfold cancel_timer. by rewrite (upd_tcp_at _ c w t H). Qed.

Lemma rx_syn_received_run w t hdr rhdr i ack :
  wired (conn w) t hdr -> TOI_MAX <= i -> ack = u32 (seq_ (cur t) + 1) ->
  exists w' t', rx_syn_received rhdr i ack true w = Ok (tt, w') /\ wired (conn w') t' hdr /\
    state t' = TCP_STATE_ESTABLISHED /\ cstate (conn w') = CONN_STATE_OPENED /\ seq_ (cur t') = ack /\
    ack_ (cur t') = ack_ (cur t) /\ sent w' = sent w.
Proof.
  intros W Hi Ha. pose proof W as []. unfold rx_syn_received.
  rewrite (bind_ok _ _ _ _ _ (take_mss_skip rhdr i w Hi)), <- (set_conn_same w). set (c := conn w) in *.
  rewrite (bind_ok _ _ _ _ _ (cancel_timer_at c w t w_tcp)). set (t1 := set_timer _ t). set (c1 := set_tcp c (Some t1)).
  rewrite (bind_ok _ _ _ _ _ (rx_syn_acked_run ack c1 w t1 eq_refl Ha)). set (t2 := after_ack ack t1).
  set (c2 := set_tcp _ (Some t2)). eexists _, t2. split; [by apply on_buf_at|].
  assert (0 <= ack < 2 ^ 32) as Hr by (subst ack; unfold u32; apply wrap_range; lia).
  split; [|split; [done|split; [done|split; [by apply wrap_small|done]]]].
  refine (wired_tail c t t2 hdr CONN_STATE_OPENED (bdata (buffer c)) W eq_refl _ _ _); [|done|lia].
  simpl. unfold u32. apply wrap_range. lia.
Qed.

Lemma rx_syn_sent_run w t hdr h rhdr n i :
  let c := conn w in
  wired c t hdr -> arrived (rx w) rhdr n h -> head_ok h -> 0 <= n ->
  h_ack h = u32 (seq_ (cur t) + 1) -> TOI_MAX <= i ->
  exists w' t' p m, rx_syn_sent freq rhdr i (h_seq h) (h_ack h) true true w = Ok (tt, w') /\
    wired (conn w') t' hdr /\ state t' = TCP_STATE_ESTABLISHED /\ cstate (conn w') = CONN_STATE_OPENED /\
    seq_ (cur t') = h_ack h /\ ack_ (cur t') = u32 (h_seq h + 1) /\
    answers w w' p m hdr 40 (mkHead (local_ip c) (remote_ip c) (local_port c) (remote_port c) (h_ack h)
      (u32 (h_seq h + 1)) TCP_FLAG_ACK 0).
Proof.
  intros c W [] [] Hn Ha Hi. pose proof W as []. unfold rx_syn_sent. cbn [negb].
  destruct (rx16_some (rhdr + 14) w ar_bytes ltac:(rewrite inside_iff; lia)) as (win & E1 & _).
  rewrite (bind_ok _ _ _ _ _ E1), <- (set_conn_same w). fold c.
  rewrite (bind_ok _ _ _ _ _ (upd_tcp_at _ c w t w_tcp)). set (t1 := set_state _ _).
  set (c1 := set_tcp c (Some t1)). rewrite (bind_ok _ _ _ _ _ (take_mss_skip rhdr i (set_conn c1 w) Hi)).
  rewrite (bind_ok _ _ _ _ _ (cancel_timer_at c1 w t1 eq_refl)). set (t2 := set_timer _ t1). set (c2 := set_tcp c1 (Some t2)).
  rewrite (bind_ok _ _ _ _ _ (rx_syn_acked_run (h_ack h) c2 w t2 eq_refl Ha)). set (t3 := after_ack (h_ack h) t2).
  set (c3 := set_tcp _ (Some t3)).
  rewrite (bind_ok _ _ _ _ _ (on_buf_at net_buffer_clean_data c3 w tt _ eq_refl)). set (c4 := set_buffer c3 _).
  assert (0 <= h_ack h < 2 ^ 32) as Hr by (rewrite Ha; unfold u32; apply wrap_range; lia).
  assert (wired c4 t3 hdr) as W4.
  { refine (wired_tail c t t3 hdr CONN_STATE_OPENED (bdata (buffer c)) W eq_refl _ _ _);
      [simpl; unfold u32; apply wrap_range; lia..|lia]. }
  destruct (tcp_ack_run freq 0 0 (set_conn c4 w) t3 hdr W4) as (w' & t' & p & E & W' & [] & Hp & P & X);
    [lia|done|simpl; lia|done|]. destruct s_alike.
  exists w', t', p, (mem (buffer (conn w'))).
  assert (seq_ (cur t3) = h_ack h) as Hq by (by apply wrap_small).
  assert (btail (buffer (conn (set_conn c4 w))) - (hdr - 20) = 40) as Hk by (simpl; lia).
  rewrite Hk in *. split; [exact E|]. split; [exact W'|]. split; [by rewrite k_state|].
  split; [by rewrite s_conn|]. split; [by rewrite k_seq|]. split; [by rewrite k_ack|].
  split; [done|done|done|]. unfold head_of in P. by rewrite Hq in P.
Qed.
End acked.

(** ** The first segment *)

(** A segment at [hdr] without its checksum checks out when the checksum is entered. *)
Lemma checksum_entered m hdr len src dst :
  byte_mem m -> 18 <= len < 2 ^ 16 -> address src -> address dst ->
  let m' := mem_store 2 (mem_store 2 m (hdr + 16) 0) (hdr + 16) (HOST2BE_WORD (segment_checksum m hdr len src dst)) in
  mem_load 2 m' (hdr + 16) = HOST2BE_WORD (segment_checksum m' hdr len src dst).
Proof.
  intros Hm Hl Hs Hd m'. pose proof (segment_checksum_range m hdr len src dst Hm Hl Hs Hd).
  unfold m' at 1. rewrite mem_load_store_same, wrap_small by (apply SWAP_WORD_range; lia). f_equal.
  apply segment_checksum_ext; [lia|]. intros x Hx Hx'. unfold m'. by rewrite !mem_store_outside by lia.
Qed.

Definition syn_block (hdr lport rport seq win mss : Z) (src dst : list Z) : M NetBuffer unit :=
  st 2 hdr (HOST2BE_WORD lport) ;;
  st 2 (hdr + 2) (HOST2BE_WORD rport) ;;
  st 4 (hdr + 4) (HOST2BE_DWORD seq) ;;
  st 4 (hdr + 8) 0 ;;
  st 1 (hdr + 12) (Z.shiftl ((20 + 4) / 4) 4) ;;
  st 1 (hdr + 13) TCP_FLAG_SYN ;;
  st 2 (hdr + 14) win ;;
  st 2 (hdr + 18) 0 ;;
  st 1 (hdr + 20) TCP_OPTION_MSS ;;
  st 1 (hdr + 21) 4 ;;
  st 2 (hdr + 22) mss ;;
  _ ← net_buffer_put 4 ;
  st 2 (hdr + 16) 0 ;;
  b ← gets id ;
  sum ← tcp_checksum hdr (20 + content_size b) src dst ;
  st 2 (hdr + 16) (HOST2BE_WORD sum).

(** What the header of a SYN says, and its option. *)
Record syn_segment (m : Z -> Z) (hdr lport rport seq : Z) (src dst : list Z) : Prop := {
  sy_sport : mem_load 2 m hdr = HOST2BE_WORD lport;
  sy_dport : mem_load 2 m (hdr + 2) = HOST2BE_WORD rport;
  sy_seq : mem_load 4 m (hdr + 4) = HOST2BE_DWORD seq;
  sy_ack : mem_load 4 m (hdr + 8) = HOST2BE_DWORD 0;
  sy_off : m (hdr + 12) = 24 * 4;
  sy_flags : m (hdr + 13) = TCP_FLAG_SYN;
  sy_kind : m (hdr + 20) = TCP_OPTION_MSS;
  sy_length : m (hdr + 21) = 4;
  sy_tcp : mem_load 2 m (hdr + 16) = HOST2BE_WORD (segment_checksum m hdr 24 src dst)
}.

(** Loads from memory after stores elsewhere, and from the last store. *)
Ltac loads := repeat first
  [ rewrite mem_load_store_other by lia
  | rewrite mem_load_store_same
  | rewrite mem_store_outside by lia
  | rewrite mem_store_1, decide_True by lia ].

Lemma syn_block_run hdr lport rport seq win mss src dst b :
  byte_mem (mem b) -> inside hdr 24 b = true -> bdata b = hdr + 20 -> btail b = hdr + 20 -> hdr + 24 <= bsize b ->
  address src -> address dst -> 0 <= lport < 2 ^ 16 -> 0 <= rport < 2 ^ 16 -> 0 <= seq < 2 ^ 32 ->
  exists m, syn_block hdr lport rport seq win mss src dst b = Ok (tt, with_tail (hdr + 24) (with_mem m b)) /\
    byte_mem m /\ (forall x, x < hdr \/ hdr + 24 <= x -> m x = mem b x) /\
    syn_segment m hdr lport rport seq src dst.
Proof.
  intros Hm Hin Hd Ht Hb Hs Hds Hl Hr Hq. rewrite inside_iff in Hin.
  assert (forall w x, hdr <= x -> x + Z.of_nat w <= hdr + 24 -> inside x (Z.of_nat w) b = true) as Hi
    by (intros; rewrite inside_iff; lia).
  unfold syn_block.
  rewrite (bind_ok _ _ _ _ _ (st_run 2 hdr _ b (Hi 2%nat hdr ltac:(lia) ltac:(lia)))).
  do 10 (match goal with
         | |- context [bind (st ?w ?x ?v) _ _] =>
           rewrite (bind_ok _ _ _ _ _ (st_at w x v _ b (Hi w x ltac:(lia) ltac:(lia))))
         end).
  set (m1 := mem_store 2 _ (hdr + 22) mss).
  set (b1 := with_tail (hdr + 24) b).
  assert (net_buffer_put 4 (with_mem m1 b) = Ok (PROTO_OK, with_mem m1 b1)) as E1.
  { unfold net_buffer_put. run. simpl. rewrite Ht. destruct (Z.gtb_spec (hdr + 20 + 4) (bsize b)); [lia|].
    unfold with_tail, with_mem, b1. simpl. do 3 f_equal. lia. }
  rewrite (bind_ok _ _ _ _ _ E1).
  assert (inside (hdr + 16) 2 b1 = true) as Hi16 by (rewrite inside_iff; simpl; lia).
  rewrite (bind_ok _ _ _ _ _ (st_at 2 (hdr + 16) 0 m1 b1 Hi16)). set (m2 := mem_store 2 m1 (hdr + 16) 0).
  rewrite (bind_ok (gets id) _ (with_mem m2 b1) (with_mem m2 b1) (with_mem m2 b1) eq_refl).
  replace (20 + content_size (with_mem m2 b1)) with 24 by (unfold content_size; simpl; lia).
  assert (byte_mem m2) as Hm2 by (by do 12 apply mem_store_byte_mem).
  rewrite (bind_ok _ _ _ _ _ (tcp_checksum_run hdr 24 src dst (with_mem m2 b1) Hm2 ltac:(lia)
    ltac:(rewrite inside_iff; simpl; lia) Hs Hds)).
  change (inet_checksum _) with (segment_checksum m2 hdr 24 src dst).
  rewrite (st_at 2 (hdr + 16) _ (mem_store 2 m2 (hdr + 16) 0) b1 Hi16).
  exists (mem_store 2 (mem_store 2 m2 (hdr + 16) 0) (hdr + 16) (HOST2BE_WORD (segment_checksum m2 hdr 24 src dst))).
  split; [done|]. split; [by do 2 apply mem_store_byte_mem|]. split.
  - intros x Hx. subst m2 m1. by rewrite !mem_store_outside by lia.
  - split; [| | | | | | | |by apply checksum_entered; [|lia| |]]; subst m2 m1; loads; try done.
    + by apply wrap_small, SWAP_WORD_range.
    + by apply wrap_small, SWAP_WORD_range.
    + by apply wrap_small, SWAP_DWORD_range.
Qed.

(** ** Wrapping *)

(** The fields of an IPv4 header of [n] bytes of packet. *)
Record ip_fields (m : Z -> Z) (ip n proto : Z) (src dst : list Z) : Prop := {
  if_ver : m ip = 0x45;
  if_len : mem_load 2 m (ip + 2) = HOST2BE_WORD n;
  if_frag : Z.land (HOST2BE_WORD (mem_load 2 m (ip + 6))) 0x3fff = 0;
  if_proto : m (ip + 9) = proto;
  if_sum : mem_load 2 m (ip + 10) = HOST2BE_WORD (header_checksum m ip);
  if_src : bytes_at m (ip + 12) 4 = src;
  if_dst : bytes_at m (ip + 16) 4 = dst
}.

Lemma ip_fields_same m m' ip n proto src dst : (forall x, ip <= x < ip + 20 -> m' x = m x) ->
  ip_fields m ip n proto src dst -> ip_fields m' ip n proto src dst.
Proof.
  intros Hx [].
  assert (forall w k, ip <= k -> k + Z.of_nat w <= ip + 20 -> mem_load w m' k = mem_load w m k) as Hl
    by (intros; apply mem_load_ext; intros; apply Hx; lia).
  assert (forall j k, ip <= k -> k + Z.of_nat j <= ip + 20 -> bytes_at m' k j = bytes_at m k j) as Hb
    by (intros; apply bytes_at_same; intros; apply Hx; lia).
  split; rewrite ?Hl, ?Hb by lia; rewrite ?Hx by lia; try done.
  rewrite if_sum0. f_equal. apply header_checksum_ext. intros. symmetry. apply Hx. lia.
Qed.

Lemma mem_load_put_other w m a l x : x + Z.of_nat w <= a \/ a + Z.of_nat (length l) <= x ->
  mem_load w (put_bytes m a l) x = mem_load w m x.
Proof. intros H. apply mem_load_ext. intros. apply put_bytes_outside. lia. Qed.

Lemma header_entered m ip : byte_mem m ->
  let m' := mem_store 2 (mem_store 2 m (ip + 10) 0) (ip + 10) (HOST2BE_WORD (header_checksum m ip)) in
  mem_load 2 m' (ip + 10) = HOST2BE_WORD (header_checksum m' ip).
Proof.
  intros Hm m'. pose proof (header_checksum_range m ip Hm).
  unfold m' at 1. rewrite mem_load_store_same, wrap_small by (apply SWAP_WORD_range; lia). f_equal.
  apply header_checksum_ext. intros x Hx Hx'. unfold m'. by rewrite !mem_store_outside by lia.
Qed.

Lemma bytes_entered m m0 a l : length l = 4%nat ->
  (forall x, a <= x < a + 4 -> m x = put_bytes m0 a l x) -> bytes_at m a 4 = l.
Proof.
  intros Hl H. rewrite <- (bytes_at_put l m0 a), Hl at 1. apply bytes_at_same. intros. by apply H.
Qed.

Definition ip_block (ip n id flags ttl proto : Z) (src dst : list Z) : M NetBuffer unit :=
  st 1 ip (Z.lor (Z.shiftl 4 4) (Z.shiftr 20 2)) ;;
  st 1 (ip + 1) 0 ;;
  st 2 (ip + 2) (HOST2BE_WORD n) ;;
  st 2 (ip + 4) id ;;
  st 2 (ip + 6) flags ;;
  st 1 (ip + 8) ttl ;;
  st 1 (ip + 9) proto ;;
  st 2 (ip + 10) 0 ;;
  wr (ip + 12) src ;;
  wr (ip + 16) dst ;;
  ipv4_checksum ip.

Lemma wr_at off l m b : inside off (Z.of_nat (length l)) b = true ->
  wr off l (with_mem m b) = Ok (tt, with_mem (put_bytes m off l) b).
Proof. apply (wr_run off l (with_mem m b)). Qed.

Ltac wire_loads := repeat first
  [ rewrite mem_load_store_other by lia
  | rewrite mem_load_put_other by lia
  | rewrite mem_load_store_same
  | rewrite mem_store_outside by lia
  | rewrite put_bytes_outside by lia
  | rewrite mem_store_1, decide_True by lia ].

Lemma ip_block_run ip n id flags ttl proto src dst b :
  byte_mem (mem b) -> inside ip 20 b = true -> 0 <= n < 2 ^ 16 -> address src -> address dst -> 0 <= proto < 256 ->
  Z.land (HOST2BE_WORD (u16 flags)) 0x3fff = 0 ->
  exists m, ip_block ip n id flags ttl proto src dst b = Ok (tt, with_mem m b) /\ byte_mem m /\
    (forall x, x < ip \/ ip + 20 <= x -> m x = mem b x) /\ ip_fields m ip n proto src dst.
Proof.
  intros Hm Hin Hn [Hsl Hsb] [Hdl Hdb] Hp Hf. rewrite inside_iff in Hin.
  assert (forall w x, ip <= x -> x + Z.of_nat w <= ip + 20 -> inside x (Z.of_nat w) b = true) as Hi
    by (intros; rewrite inside_iff; lia).
  unfold ip_block.
  rewrite (bind_ok _ _ _ _ _ (st_run 1 ip _ b (Hi 1%nat ip ltac:(lia) ltac:(lia)))).
  do 7 (match goal with
        | |- context [bind (st ?w ?x ?v) _ _] =>
          rewrite (bind_ok _ _ _ _ _ (st_at w x v _ b (Hi w x ltac:(lia) ltac:(lia))))
        end).
  rewrite (bind_ok _ _ _ _ _ (wr_at (ip + 12) src _ b ltac:(rewrite inside_iff, Hsl; lia))).
  rewrite (bind_ok _ _ _ _ _ (wr_at (ip + 16) dst _ b ltac:(rewrite inside_iff, Hdl; lia))).
  set (m1 := put_bytes _ (ip + 16) dst).
  assert (byte_mem m1) as Hm1.
  { subst m1. by do 2 (apply put_bytes_byte_mem; [|done]); do 8 apply mem_store_byte_mem. }
  rewrite (ipv4_checksum_run ip (with_mem m1 b) Hm1) by (rewrite inside_iff; simpl; lia).
  exists (mem_store 2 (mem_store 2 m1 (ip + 10) 0) (ip + 10) (HOST2BE_WORD (header_checksum m1 ip))).
  split; [done|]. split; [by do 2 apply mem_store_byte_mem|]. split.
  - intros x Hx. subst m1. by rewrite !mem_store_outside, !put_bytes_outside, !mem_store_outside by lia.
  - split; [| | | |by apply header_entered| |]; subst m1; wire_loads; try done.
    + by apply wrap_small, SWAP_WORD_range.
    + by apply Z.mod_small.
    + eapply bytes_entered; [done|]. intros x Hx. by rewrite !mem_store_outside, put_bytes_outside by lia.
    + eapply bytes_entered; [done|]. intros x Hx. by rewrite !mem_store_outside by lia.
Qed.

(** A connection that was registered with Ethernet, IPv4 and TCP. *)
Record layered (c : Conn) : Prop := {
  l_phy : phy_protocol c = PHY_PROTO_ETHERNET;
  l_net : net_protocol c = NET_PROTO_IPV4;
  l_trans : trans_protocol c = TRANS_PROTO_TCP;
  l_last : last_fragment c = 0;
  l_offset : frag_offset c = 0;
  l_mac : length (mac c) = 6%nat /\ bytes (mac c);
  l_local : address (local_ip c)
}.

Lemma on_buffer_run {A} (m : M NetBuffer A) c a b : m (buffer c) = Ok (a, b) -> on_buffer m c = Ok (a, set_buffer c b).
Proof. intros H. unfold on_buffer. by rewrite H. Qed.

Lemma ipv4_wrap_run c dst :
  let b := buffer c in let ip := bhead b - 20 in let n := btail b - bhead b in
  layered c -> address dst -> byte_mem (mem b) -> inside ip 20 b = true -> 0 <= n < 2 ^ 15 ->
  exists m, ipv4_wrap IP_PROTO_TCP (Some dst) 64 c =
      Ok (PROTO_OK, set_ip_header (set_buffer c (with_head ip (with_mem m b))) (Some ip)) /\ byte_mem m /\
    (forall x, x < ip \/ ip + 20 <= x -> m x = mem b x) /\ ip_fields m ip (20 + n) IP_PROTO_TCP (local_ip c) dst.
Proof.
  intros b ip n [] Hd Hm Hin Hn.
  set (flags := HOST2BE_WORD (Z.lor (Z.lor (Z.shiftl (if enable_fragment c =? 0 then 1 else 0) 14)
    (Z.shiftl (last_fragment c) 15)) (frag_offset c))).
  destruct (ip_block_run ip (20 + n) (HOST2BE_WORD (ip_id c)) flags 64 IP_PROTO_TCP (local_ip c) dst (with_head ip b))
    as (m & E & Hm' & Hx & Hf); [done|done|lia|done|done|done| |].
  { subst flags. rewrite l_last0, l_offset0. by destruct (enable_fragment c =? 0). }
  exists m. split; [|done]. unfold ipv4_wrap. rewrite (bind_ok (gets id) _ c c c eq_refl). cbv zeta. fold b.
  unfold u16 at 1. rewrite wrap_small by lia.
  rewrite (bind_ok _ _ _ _ _ (on_buffer_run (net_buffer_header_alloc 20) c tt (with_head ip b) eq_refl)).
  set (c1 := set_buffer c (with_head ip b)).
  rewrite (bind_ok (gets buffer) _ c1 (with_head ip b) c1 eq_refl). cbn [bhead with_head].
  set (c2 := set_ip_header c1 (Some ip)).
  rewrite (bind_ok (modify (fun c => set_ip_header c (Some ip))) _ c1 tt c2 eq_refl).
  by rewrite (bind_ok _ _ _ _ _ (on_buffer_run _ c2 tt (with_mem m (with_head ip b)) E)).
Qed.

Lemma put_zeros n : forall m a x, a <= x < a + Z.of_nat n -> put_bytes m a (replicate n 0) x = 0.
Proof.
  induction n as [|n IH]; intros m a x Hx; [lia|]. cbn [replicate put_bytes].
  destruct (decide (x = a)) as [->|]; [|apply IH; lia].
  rewrite put_bytes_outside by lia. apply fn_lookup_insert.
Qed.

(** The Ethernet header lies before [head], and short frames are padded behind [tail]. *)
Lemma eth_wrap_run src dst proto b :
  let h := bhead b - 14 in
  byte_mem (mem b) -> length src = 6%nat -> bytes src -> length dst = 6%nat -> bytes dst ->
  0 <= h -> bhead b <= btail b -> btail b - h <= ETH_MAX_FRAME_SIZE -> btail b + 46 <= room b ->
  exists m, eth_wrap src dst proto b = Ok (PROTO_OK, with_head h (with_mem m b)) /\ byte_mem m /\
    (forall x, h + 14 <= x < btail b -> m x = mem b x) /\ (forall x, btail b <= x < h + 60 -> m x = 0) /\
    lies m h dst /\ lies m (h + 6) src /\ (0 <= proto < 2 ^ 16 -> lies m (h + 12) [proto / 256; proto mod 256]).
Proof.
  intros h Hm Hsl Hsb Hdl Hdb Hh Ht Hmax Hr. unfold eth_wrap, ETH_MAX_FRAME_SIZE, ETH_MIN_FRAME_SIZE in *.
  set (b1 := with_head h b). rewrite (bind_ok (net_buffer_header_alloc 14) _ b tt b1 eq_refl).
  rewrite (bind_ok (gets id) _ b1 b1 b1 eq_refl). change (bhead b1) with h. change (btail b1) with (btail b).
  rewrite (bind_ok _ _ _ _ _ (wr_run h dst b1 ltac:(rewrite inside_iff, Hdl; simpl; lia))).
  rewrite (bind_ok _ _ _ _ _ (wr_at (h + 6) src _ b1 ltac:(rewrite inside_iff, Hsl; simpl; lia))).
  set (m1 := put_bytes (put_bytes (mem b1) h dst) (h + 6) src). cbv zeta.
  assert (byte_mem m1) as Hm1 by (by do 2 (apply put_bytes_byte_mem; [|done])).
  destruct (Z.gtb_spec (btail b - h) 1792); [lia|].
  set (pad := replicate (Z.to_nat (60 - (btail b - h))) 0).
  set (m2 := if btail b - h <? 60 then put_bytes m1 (btail b) pad else m1).
  assert (when (btail b - h <? 60) (wr (btail b) pad) (with_mem m1 b1) = Ok (tt, with_mem m2 b1)) as E.
  { subst m2. destruct (Z.ltb_spec (btail b - h) 60); [|done].
    apply wr_at. rewrite inside_iff. subst pad. rewrite length_replicate. simpl. lia. }
  assert (byte_mem m2) as Hm2.
  { subst m2. case_match; [|done]. apply put_bytes_byte_mem; [done|]. apply Forall_replicate. lia. }
  rewrite (bind_ok _ _ _ _ _ E).
  rewrite (bind_ok _ _ _ _ _ (st_at 2 (h + 12) _ m2 b1 ltac:(rewrite inside_iff; simpl; lia))).
  exists (mem_store 2 m2 (h + 12) (HOST2BE_WORD proto)). split; [done|]. split; [by apply mem_store_byte_mem|].
  assert (forall x, x < btail b -> m2 x = m1 x) as Hm21.
  { intros x Hx. subst m2. case_match; [|done]. by rewrite put_bytes_outside by lia. }
  split; [|split; [|split; [|split]]].
  - intros x Hx. rewrite mem_store_outside, Hm21 by lia. subst m1. by rewrite !put_bytes_outside by lia.
  - intros x Hx. rewrite mem_store_outside by lia. subst m2. destruct (Z.ltb_spec (btail b - h) 60); [|lia].
    apply put_zeros. lia.
  - apply lies_store_other; [lia|]. apply (lies_same m1); [intros x Hx; apply Hm21; lia|]. subst m1.
    apply lies_put_other; [lia|]. apply lies_put.
  - apply lies_store_other; [lia|]. apply (lies_same m1); [intros x Hx; apply Hm21; lia|]. apply lies_put.
  - intros Hp. by apply lies_be_word.
Qed.

Section connect.
Context (freq : Z) (lookup_mac : list Z -> option (list Z)).
Hypothesis lookup_mac_ok : forall ip a, lookup_mac ip = Some a -> length a = 6%nat /\ bytes a.

Lemma next_hop_mac ip : length (default (replicate 6 0) (lookup_mac ip)) = 6%nat /\
  bytes (default (replicate 6 0) (lookup_mac ip)).
Proof.
  destruct (lookup_mac ip) as [a|] eqn:E; simpl; [by eapply lookup_mac_ok|].
  split; [done|]. repeat constructor; lia.
Qed.

Lemma conn_wrap_run c :
  let b := buffer c in let ip := bhead b - 20 in let n := btail b - bhead b in
  layered c -> address (remote_ip c) -> byte_mem (mem b) -> 14 <= ip -> 0 <= n <= 1500 -> btail b + 46 <= room b ->
  exists m, conn_wrap lookup_mac PROTO_LEVEL_NETWORK c =
      Ok (PROTO_OK, set_ip_header (set_buffer c (with_head (ip - 14) (with_mem m b))) (Some ip)) /\ byte_mem m /\
    (forall x, ip + 20 <= x < btail b -> m x = mem b x) /\ (forall x, btail b <= x < ip + 46 -> m x = 0) /\
    ip_fields m ip (20 + n) IP_PROTO_TCP (local_ip c) (remote_ip c).
Proof.
  intros b ip n L Hd Hm Hip Hn Hr.
  assert (inside ip 20 b = true) as Hin by (rewrite inside_iff; unfold ip, n in *; lia).
  destruct (ipv4_wrap_run c (remote_ip c) L Hd Hm Hin ltac:(unfold n, b in *; lia)) as (m1 & E1 & Hm1 & X1 & F1).
  fold b ip n in E1, X1, F1.
  destruct (next_hop_mac (remote_ip c)) as [Hl Hb]. set (dst := default _ _) in *.
  set (b1 := with_head ip (with_mem m1 b)) in *. pose proof L as [].
  destruct (eth_wrap_run (mac c) dst ETH_PROTO_TYPE_IPV4 b1) as (m2 & E2 & Hm2 & X2 & Z2 & _);
    [done|by destruct l_mac0|by destruct l_mac0|done|done|unfold ETH_MAX_FRAME_SIZE, ip, n in *; simpl; lia..|].
  exists m2. split; [|split; [done|split; [|split]]].
  - unfold conn_wrap. rewrite (bind_ok (gets id) _ c c c eq_refl), l_net0, l_trans0.
    rewrite (bind_ok _ _ _ _ _ E1). fold dst. set (c1 := set_ip_header _ _).
    unfold wrap_physical. rewrite (bind_ok (gets id) _ c1 c1 c1 eq_refl).
    change (net_protocol c1) with (net_protocol c). change (phy_protocol c1) with (phy_protocol c).
    rewrite l_net0, l_phy0. change (mac c1) with (mac c). by rewrite (on_buffer_run _ c1 _ _ E2).
  - intros x Hx. rewrite X2 by (simpl; lia). apply X1. lia.
  - intros x Hx. apply Z2. simpl. lia.
  - apply (ip_fields_same m1); [|done]. intros x Hx. apply X2. unfold ip, n in *. simpl. lia.
Qed.

(** A connection that is bound to a port and has nothing in its packet buffer. *)
Record ready (c : Conn) (t : Tcp) (hdr : Z) : Prop := {
  r_layered : layered c;
  r_tcp : tcp c = Some t;
  r_head : bhead (buffer c) = hdr + 20;
  r_data : bdata (buffer c) = hdr + 20;
  r_tail : btail (buffer c) = hdr + 20;
  r_low : 34 <= hdr;
  r_size : hdr + 24 <= bsize (buffer c);
  r_room : hdr + 70 <= room (buffer c);
  r_bytes : byte_mem (mem (buffer c));
  r_port : 0 <= local_port c < 2 ^ 16;
  r_ack : 0 <= ack_ (cur t) < 2 ^ 32
}.

(** A SYN behind an IPv4 header is a packet. *)
Lemma syn_packet m hdr lport rport seq src dst :
  ip_fields m (hdr - 20) 44 IP_PROTO_TCP src dst -> syn_segment m hdr lport rport seq src dst ->
  packet m (hdr - 20) 44 (mkHead src dst lport rport seq 0 TCP_FLAG_SYN 4).
Proof.
  intros [] []. replace (hdr - 20 + 10) with (hdr - 10) in * by lia.
  split; cbn [h_src h_dst h_sport h_dport h_seq h_ack h_flags h_opt]; try done;
    [by replace (hdr - 20 + 10) with (hdr - 10) by lia| | | | | | |].
  - by replace (hdr - 20 + 20) with hdr by lia.
  - by replace (hdr - 20 + 22) with (hdr + 2) by lia.
  - by replace (hdr - 20 + 24) with (hdr + 4) by lia.
  - by replace (hdr - 20 + 28) with (hdr + 8) by lia.
  - by replace (hdr - 20 + 32) with (hdr + 12) by lia.
  - by replace (hdr - 20 + 33) with (hdr + 13) by lia.
  - by replace (hdr - 20 + 36) with (hdr + 16) by lia; replace (hdr - 20 + 20) with hdr by lia.
Qed.

Lemma syn_segment_same m m' hdr lport rport seq src dst : (forall x, hdr <= x < hdr + 24 -> m' x = m x) ->
  syn_segment m hdr lport rport seq src dst -> syn_segment m' hdr lport rport seq src dst.
Proof.
  intros Hx [].
  assert (forall w k, hdr <= k -> k + Z.of_nat w <= hdr + 24 -> mem_load w m' k = mem_load w m k) as Hl
    by (intros; apply mem_load_ext; intros; apply Hx; lia).
  split; rewrite ?Hl by lia; rewrite ?Hx by lia; try done.
  rewrite sy_tcp0. f_equal. apply segment_checksum_ext; [lia|]. intros. symmetry. apply Hx. lia.
Qed.

(** ... and its headers are in place for the segments to come. *)
Lemma syn_wired c t hdr seq :
  let b := buffer c in
  tcp c = Some t -> header t = Some hdr -> ip_header c = Some (hdr - 20) -> 34 <= hdr ->
  bhead b = hdr - 34 -> bdata b = hdr + 20 -> btail b = hdr + 24 -> btail b <= room b -> byte_mem (mem b) ->
  0 <= seq_ (cur t) < 2 ^ 32 -> 0 <= ack_ (cur t) < 2 ^ 32 -> address (local_ip c) -> address (remote_ip c) ->
  ip_fields (mem b) (hdr - 20) 44 IP_PROTO_TCP (local_ip c) (remote_ip c) ->
  syn_segment (mem b) hdr (local_port c) (remote_port c) seq (local_ip c) (remote_ip c) ->
  wired c t hdr.
Proof.
  intros b Ht Hh Hip Hlow Hbh Hbd Hbt Hr Hm Hq Ha Hl Hrm [] []. split; fold b; try done; try lia.
  - by replace (hdr - 14) with (hdr - 20 + 6) by lia.
  - by replace (hdr - 11) with (hdr - 20 + 9) by lia.
  - by replace (hdr - 8) with (hdr - 20 + 12) by lia.
  - by replace (hdr - 4) with (hdr - 20 + 16) by lia.
Qed.

(** [tcp_connect] after the SYN is in the packet buffer. *)
Definition connect_rest : M World unit :=
  _ ← on_conn (conn_wrap lookup_mac PROTO_LEVEL_NETWORK) ;
  upd_tcp (set_state TCP_STATE_SYN_SENT) ;;
  set_conn_state CONN_STATE_OPENING ;;
  t ← the_tcp ;
  set_rto_timeout freq (rto (rtt t)) ;;
  NETWORK_SEND.

Lemma connect_rest_run c t w hdr :
  let b := buffer c in
  layered c -> tcp c = Some t -> address (remote_ip c) -> 34 <= hdr -> byte_mem (mem b) ->
  bhead b = hdr -> bdata b = hdr + 20 -> btail b = hdr + 24 -> hdr + 70 <= room b ->
  0 <= local_port c < 2 ^ 16 -> 0 <= remote_port c < 2 ^ 16 -> header t = Some hdr ->
  0 <= seq_ (cur t) < 2 ^ 32 -> 0 <= ack_ (cur t) < 2 ^ 32 ->
  syn_segment (mem b) hdr (local_port c) (remote_port c) (seq_ (cur t)) (local_ip c) (remote_ip c) ->
  exists w' t' m, connect_rest (set_conn c w) = Ok (tt, w') /\
    wired (conn w') t' hdr /\ state t' = TCP_STATE_SYN_SENT /\ seq_ (cur t') = seq_ (cur t) /\
    conn w' = set_tcp (set_cstate (set_ip_header (set_buffer c (with_head (hdr - 34) (with_mem m b))) (Some (hdr - 20)))
      CONN_STATE_OPENING) (Some t') /\
    syn_segment m hdr (local_port c) (remote_port c) (seq_ (cur t)) (local_ip c) (remote_ip c) /\
    answers w w' (bytes_at m (hdr - 34) 58) m hdr 44
      (mkHead (local_ip c) (remote_ip c) (local_port c) (remote_port c) (seq_ (cur t)) 0 TCP_FLAG_SYN 4).
Proof.
  intros b L Ht Hd Hlow Hm Hh Hda Hta Hr Hlp Hrp Hth Hq Ha S. unfold connect_rest.
  destruct (conn_wrap_run c L Hd Hm) as (m1 & E1 & Hm1 & X1 & _ & F1); fold b; [lia..|].
  fold b in E1, X1, F1. rewrite Hh in *. replace (hdr - 20 - 14) with (hdr - 34) in * by lia.
  replace (20 + (btail b - hdr)) with 44 in F1 by lia.
  rewrite (bind_ok _ _ _ _ _ (on_conn_at _ c w _ _ E1)). set (c1 := set_ip_header _ _).
  rewrite (bind_ok _ _ _ _ _ (upd_tcp_at _ c1 w t Ht)). set (t1 := set_state _ t). set (c2 := set_tcp c1 (Some t1)).
  unfold set_conn_state.
  rewrite (bind_ok _ _ _ _ _ (on_conn_at (modify (fun c => set_cstate c CONN_STATE_OPENING)) c2 w tt _ eq_refl)).
  set (c3 := set_cstate c2 _).
  rewrite (bind_ok _ _ _ _ _ (the_tcp_run (set_conn c3 w) t1 eq_refl)).
  destruct (only_tcp_step (set_rto_timeout freq (rto (rtt t1))) (fun _ => NETWORK_SEND) c3 w t1
    (only_tcp_set_rto_timeout freq _) eq_refl) as (_ & t2 & -> & []).
  set (c4 := set_tcp c3 (Some t2)). set (b4 := with_head (hdr - 34) (with_mem m1 b)).
  assert (NETWORK_SEND (set_conn c4 w) = Ok (tt, mkWorld c4 (rx w) (now w) (isn_counter w)
    (sent w ++ [bytes_at m1 (hdr - 34) 58]) (wakes w))) as E2.
  { unfold NETWORK_SEND.
    rewrite (bind_ok (gets (fun w => buffer (conn w))) _ (set_conn c4 w) b4 (set_conn c4 w) eq_refl).
    change (bhead b4) with (hdr - 34). change (btail b4) with (btail b). rewrite Hta.
    replace (hdr + 24 - (hdr - 34)) with 58 by lia.
    by rewrite (bind_ok _ _ _ _ _ (on_buf_at _ c4 w _ _ (rd_run (hdr - 34) 58 b4 ltac:(rewrite inside_iff; simpl; lia)))). }
  assert (syn_segment m1 hdr (local_port c) (remote_port c) (seq_ (cur t)) (local_ip c) (remote_ip c)) as S1.
  { apply (syn_segment_same (mem b)); [|done]. intros x Hx. apply X1. lia. }
  eexists _, t2, m1. split; [exact E2|]. split; [|split; [done|split; [done|split; [done|split; [done|]]]]].
  - apply (syn_wired c4 t2 hdr (seq_ (cur t))); try done;
      [by rewrite k_header|simpl; fold b; lia|by rewrite k_seq|by rewrite k_ack|by destruct L].
  - split; [done|done|done|]. by apply syn_packet.
Qed.

Lemma tcp_connect_start_run w t hdr dst port pair :
  let c := conn w in
  ready c t hdr -> address dst -> 0 <= port < 2 ^ 16 ->
  let isn := next_isn w pair in
  exists w' t' m, tcp_connect_start freq lookup_mac dst port pair w = Ok (tt, w') /\
    wired (conn w') t' hdr /\ state t' = TCP_STATE_SYN_SENT /\ cstate (conn w') = CONN_STATE_OPENING /\
    seq_ (cur t') = isn /\ local_ip (conn w') = local_ip c /\ local_port (conn w') = local_port c /\
    remote_ip (conn w') = dst /\ remote_port (conn w') = port /\
    m (hdr + 20) = TCP_OPTION_MSS /\ m (hdr + 21) = 4 /\
    answers w w' (bytes_at m (hdr - 34) 58) m hdr 44
      (mkHead (local_ip c) dst (local_port c) port isn 0 TCP_FLAG_SYN 4).
Proof.
  intros c [] Hd Hp isn. set (b := buffer c) in *. unfold tcp_connect_start.
  rewrite (bind_ok _ _ _ _ _ (on_conn_run (modify (fun c => set_remote c dst port)) w tt _ eq_refl)). fold c.
  set (c1 := set_remote c dst port).
  set (w1 := mkWorld c (rx w) (now w) (u32 (isn_counter w + 1)) (sent w) (wakes w)).
  assert (tcp_generate_isn pair (set_conn c1 w) = Ok (isn, set_conn c1 w1)) as E1 by done.
  rewrite (bind_ok _ _ _ _ _ E1), (bind_ok _ _ _ _ _ (upd_tcp_at _ c1 w1 t r_tcp0)). set (c2 := set_tcp c1 _).
  rewrite (bind_ok _ _ _ _ _ (on_buf_at (net_buffer_header_alloc 20) c2 w1 tt _ eq_refl)).
  change (set_buffer c2 _) with (set_buffer c2 (with_head (bhead b - 20) b)). rewrite r_head0.
  replace (hdr + 20 - 20) with hdr by lia. set (b3 := with_head hdr b). set (c3 := set_buffer c2 b3).
  rewrite (bind_ok (gets (fun w => bhead (buffer (conn w)))) _ (set_conn c3 w1) hdr (set_conn c3 w1) eq_refl).
  rewrite (bind_ok _ _ _ _ _ (upd_tcp_at _ c3 w1 _ eq_refl)). set (t4 := set_header hdr _). set (c4 := set_tcp c3 (Some t4)).
  rewrite (bind_ok _ _ _ _ _ (the_tcp_run (set_conn c4 w1) t4 eq_refl)).
  rewrite (bind_ok (gets conn) _ (set_conn c4 w1) c4 (set_conn c4 w1) eq_refl).
  assert (seq_ (cur t4) = isn) as Hisn by apply wrap_wrap.
  assert (0 <= isn < 2 ^ 32) as Hr by (unfold isn, next_isn, u32; apply wrap_range; lia).
  destruct (syn_block_run hdr (local_port c) port isn (HOST2BE_WORD (rwindow (recv t4))) (HOST2BE_WORD (mss t4))
    (local_ip c) dst b3) as (m & E & Hm & X & S); [done|rewrite inside_iff; simpl; fold b; lia|done|done|done|
    by destruct r_layered0|done|done|done|done|].
  rewrite <- Hisn in E at 1.
  rewrite (bind_ok _ _ _ _ _ (on_buf_at _ c4 w1 tt _ E)). set (c5 := set_buffer c4 _).
  destruct (connect_rest_run c5 t4 w1 hdr) as (w' & t' & m' & E5 & W' & St & Sq & Cn & S' & A'); try done;
    [by destruct r_layered0|by rewrite Hisn|by rewrite Hisn|].
  exists w', t', m'. rewrite Hisn in *. destruct S', A'.
  rewrite Cn at 2 3 4 5 6. split; [exact E5|]. do 10 (split; [done|]). done.
Qed.
End connect.

(** ** Listening *)

Section listen_start.
Context (kmalloc : Z -> Window) (lookup_mac : list Z -> option (list Z)).
Hypothesis lookup_mac_ok : forall ip a, lookup_mac ip = Some a -> length a = 6%nat /\ bytes a.

Lemma tcp_setup_run s c w t :
  tcp c = Some t ->
  exists t', tcp_setup kmalloc s (set_conn c w) = Ok (tt, set_conn (set_tcp c (Some t')) w) /\
    state t' = s /\ header t' = header t /\ seq_ (cur t') = 0 /\ ack_ (cur t') = 0 /\
    recv t' = mkRecv 0 recv_win_default_size (irs (recv t)) recv_win_default_size 0 /\
    recv_window t' = kmalloc recv_win_default_size.
Proof.
  intros Ht. unfold tcp_setup. rewrite (bind_ok (gets conn) _ (set_conn c w) c (set_conn c w) eq_refl).
  rewrite (bind_ok _ _ _ _ _ (upd_tcp_at _ c w t Ht)). set (c1 := set_tcp c _).
  rewrite (bind_ok _ _ _ _ _ (upd_tcp_at _ c1 w _ eq_refl)). set (t2 := set_rtt _ _). set (c2 := set_tcp c1 (Some t2)).
  unfold compute_rto. rewrite bind_assoc, (bind_ok _ _ _ _ _ (the_tcp_run (set_conn c2 w) t2 eq_refl)).
  set (x := mkRtt (send_time (rtt t2)) (send_seq (rtt t2)) 0 0 1000 (retry_times (rtt t2))).
  rewrite bind_assoc, (bind_ok (of_option (tcp_compute_retransmission_timer 0 (rtt t2))) _ (set_conn c2 w) x (set_conn c2 w) eq_refl).
  rewrite (bind_ok _ _ _ _ _ (upd_tcp_at (set_rtt x) c2 w t2 eq_refl)). set (c3 := set_tcp c2 _).
  rewrite (upd_tcp_at _ c3 w _ eq_refl). eexists. split; [done|]. done.
Qed.

Lemma tcp_listen_start_run w t hdr :
  let c := conn w in
  ready c t hdr -> state t = TCP_STATE_CLOSED -> address (remote_ip c) ->
  exists w' t', tcp_listen_start kmalloc lookup_mac w = Ok (PROTO_OK, w') /\
    prepared (conn w') t' hdr /\ state t' = TCP_STATE_LISTEN /\ mem (buffer (conn w')) (hdr + 20) = TCP_OPTION_END /\
    local_ip (conn w') = local_ip c /\ local_port (conn w') = local_port c /\
    remote_ip (conn w') = remote_ip c /\ remote_port (conn w') = remote_port c.
Proof.
  intros c [] Hs Ha. set (b := buffer c) in *. unfold tcp_listen_start.
  rewrite (bind_ok (gets conn) _ w c w eq_refl), r_tcp0, Hs. 
  rewrite bool_decide_eq_false_2 by tauto.
  rewrite (bind_ok _ _ _ _ _ (on_buf_run (net_buffer_header_alloc 20) w tt _ eq_refl)). fold c.
  change (set_buffer c _) with (set_buffer c (with_head (bhead b - 20) b)). rewrite r_head0.
  replace (hdr + 20 - 20) with hdr by lia. set (b1 := with_head hdr b). set (c1 := set_buffer c b1).
  rewrite (bind_ok (gets (fun w => bhead (buffer (conn w)))) _ (set_conn c1 w) hdr (set_conn c1 w) eq_refl).
  rewrite (bind_ok _ _ _ _ _ (upd_tcp_at _ c1 w t r_tcp0)). set (c2 := set_tcp c1 _).
  destruct (tcp_setup_run TCP_STATE_LISTEN c2 w _ eq_refl) as (t3 & E3 & S3 & H3 & Q3 & A3 & _).
  rewrite (bind_ok _ _ _ _ _ E3). set (c3 := set_tcp c2 (Some t3)). unfold set_conn_state.
  rewrite (bind_ok _ _ _ _ _ (on_conn_at (modify (fun c => set_cstate c CONN_STATE_OPENING)) c3 w tt _ eq_refl)).
  set (c4 := set_cstate c3 _).
  destruct (conn_wrap_run lookup_mac lookup_mac_ok c4) as (m & E & Hm & X & Z & []);
    [by destruct r_layered0|done|done|simpl; fold b; lia..|].
  change (buffer c4) with b1 in *. change (bhead b1) with hdr in *. change (btail b1) with (btail b) in *.
  rewrite (bind_ok _ _ _ _ _ (on_conn_at _ c4 w _ _ E)). set (c5 := set_ip_header _ _).
  eexists _, t3. split; [done|]. split; [|split; [done|split; [apply Z; lia|done]]].
  split; try done; cbn [conn set_conn]; change (mem (buffer c5)) with m.
  - simpl. lia.
  - simpl. fold b. lia.
  - by replace (hdr - 14) with (hdr - 20 + 6) by lia.
  - by replace (hdr - 11) with (hdr - 20 + 9) by lia.
  - by replace (hdr - 8) with (hdr - 20 + 12) by lia.
  - by destruct r_layered0.
Qed.
End listen_start.
