(* ===== verification/TcpShake.v ===== *)
(** * The handshake between two hosts

    Each host is a [Net]; a frame that one host gave to its device is put into a receive
    buffer of the other one. *)

From stdpp Require Import base tactics list functions.
From S2P Require Import Prelude CMonad Net NetSum Tcp TcpWire TcpOpen.
Local Open Scope Z_scope.

(** ** One connection of a host *)

Definition world_of (n : Net) (c : Conn) : World :=
  mkWorld c (net_rx n) (net_now n) (net_isn n) (net_sent n) (net_wakes n).
Definition net_of (n : Net) (i : nat) (w : World) : Net :=
  mkNet (<[i := conn w]> (conns n)) (tcp_lh n) (rx w) (now w) (isn_counter w) (sent w) (wakes w).

Lemma on_number_run {A} i (m : M World A) n c a w :
  conns n !! i = Some c -> m (world_of n c) = Ok (a, w) -> on_number i m n = Ok (a, net_of n i w).
Proof. intros Hc Hm. unfold on_number. rewrite Hc. fold (world_of n c). by rewrite Hm. Qed.

Lemma net_of_lookup n i w c : conns n !! i = Some c -> conns (net_of n i w) !! i = Some (conn w).
Proof. intros H. apply list_lookup_insert_eq. by eapply lookup_lt_Some. Qed.

(** The four values that select a connection. *)
Lemma first_others_net_of n n' i w h h' :
  conns n' = conns n -> tcp_lh n' = tcp_lh n ->
  (forall d, head_match h' d = head_match h d) -> first_others n i h -> first_others (net_of n' i w) i h'.
Proof.
  intros Hc Hl Hh (l1 & l2 & E & H). exists l1, l2. split; [simpl; congruence|].
  eapply Forall_impl; [|exact H]. intros j (Hj & d & Hd & Hm). split; [done|]. exists d.
  simpl. rewrite Hc, list_lookup_insert_ne by done. by rewrite Hh.
Qed.

(** ** The handler up to the state *)

Section handler.
Context (freq : Z) (fuel : nat).

Lemma rx_handler_run w t hdr n h src i :
  tcp (conn w) = Some t -> arrived (rx w) hdr n h -> 0 <= n -> 0 <= h_opt h ->
  0 <= h_seq h < 2 ^ 32 -> 0 <= h_ack h < 2 ^ 32 ->
  flag (h_flags h) TCP_FLAG_RST = false -> tcp_options_handler fuel hdr w = Ok (i, w) ->
  tcp_rx_handler freq fuel hdr n src w =
    (match state t with
     | TCP_STATE_CLOSED | TCP_STATE_CLOSE_WAIT | TCP_STATE_TIME_WAIT => tcp_reset_conn
     | TCP_STATE_LISTEN => when (flag (h_flags h) TCP_FLAG_SYN) (rx_listen freq hdr i (h_seq h) src)
     | TCP_STATE_SYN_SENT =>
       rx_syn_sent freq hdr i (h_seq h) (h_ack h) (flag (h_flags h) TCP_FLAG_SYN) (flag (h_flags h) TCP_FLAG_ACK)
     | TCP_STATE_SYN_RECEIVED => rx_syn_received hdr i (h_ack h) (flag (h_flags h) TCP_FLAG_ACK)
     | TCP_STATE_ESTABLISHED => rx_established freq hdr n (h_ack h) (flag (h_flags h) TCP_FLAG_FIN)
     | TCP_STATE_CLOSING => rx_closing freq hdr n (h_ack h) (flag (h_flags h) TCP_FLAG_ACK)
     | TCP_STATE_FIN_WAIT1 =>
       rx_fin_wait1 freq hdr n (h_ack h) (flag (h_flags h) TCP_FLAG_ACK) (flag (h_flags h) TCP_FLAG_FIN)
     | TCP_STATE_FIN_WAIT2 =>
       rx_fin_wait2 freq hdr n (flag (h_flags h) TCP_FLAG_ACK) (flag (h_flags h) TCP_FLAG_FIN)
     | TCP_STATE_LAST_ACK => rx_last_ack (h_ack h) (flag (h_flags h) TCP_FLAG_ACK)
     end ;; wait_queue_wake_all) w.
Proof.
  intros Ht [] Hn Ho Hs Ha Hr Hi. unfold tcp_rx_handler.
  rewrite (bind_ok _ _ _ _ _ (rx8_run (hdr + 13) w ltac:(rewrite inside_iff; lia))), ar_flags.
  rewrite (bind_ok _ _ _ _ _ (rx32_run (hdr + 4) (h_seq h) w ltac:(rewrite inside_iff; lia) ar_seq Hs)).
  rewrite (bind_ok _ _ _ _ _ (rx32_run (hdr + 8) (h_ack h) w ltac:(rewrite inside_iff; lia) ar_ack Ha)).
  rewrite Hr. rewrite (bind_ok (when false _) _ w tt w eq_refl), (bind_ok _ _ _ _ _ Hi).
  by rewrite (bind_ok _ _ _ _ _ (the_tcp_run w t Ht)).
Qed.
End handler.

(** ** The steps *)

Definition endpoints (src dst : list Z) (sport dport : Z) : Head := mkHead src dst sport dport 0 0 0 0.

(** A connection in a handshake, and the frame it sent last. *)
Record shaking (n : Net) (i : nat) (c : Conn) (t : Tcp) (hdr : Z) (s : TcpState) (seq : Z)
    (lip rip : list Z) (lport rport : Z) : Prop := {
  sh_conn : conns n !! i = Some c;
  sh_wired : wired c t hdr;
  sh_state : state t = s;
  sh_seq : seq_ (cur t) = seq;
  sh_lip : local_ip c = lip;
  sh_rip : remote_ip c = rip;
  sh_lport : local_port c = lport;
  sh_rport : remote_port c = rport
}.

Lemma head_ok_mk src dst sport dport seq ack flags opt :
  address src -> address dst -> 0 <= sport < 2 ^ 16 -> 0 <= dport < 2 ^ 16 -> opt = 0 \/ opt = 4 ->
  head_ok (mkHead src dst sport dport seq ack flags opt).
Proof. intros ? ? ? ? Ho. split; try done; destruct Ho; simpl; subst; done. Qed.

Section steps.
Context (freq : Z) (fuel : nat) (udp_lh : list Conn).
Context (lookup_mac : list Z -> option (list Z)).
Hypothesis fuel_ok : (2 <= fuel)%nat.
Hypothesis lookup_mac_ok : forall ip a, lookup_mac ip = Some a -> length a = 6%nat /\ bytes a.

Lemma connect_step n i c t hdr dst port pair :
  conns n !! i = Some c -> ready c t hdr -> address dst -> 0 <= port < 2 ^ 16 ->
  exists n' c' t' p m isn, on_number i (tcp_connect_start freq lookup_mac dst port pair) n = Ok (tt, n') /\
    net_sent n' = net_sent n ++ [p] /\ 0 <= isn < 2 ^ 32 /\
    shaking n' i c' t' hdr TCP_STATE_SYN_SENT isn (local_ip c) dst (local_port c) port /\
    p = bytes_at m (hdr - 20 - 14) (Z.to_nat (44 + 14)) /\
    packet m (hdr - 20) 44 (mkHead (local_ip c) dst (local_port c) port isn 0 TCP_FLAG_SYN 4) /\
    m (hdr - 20 + 40) = TCP_OPTION_MSS /\ m (hdr - 20 + 41) = 4 /\
    (forall h, first_others n i h -> first_others n' i h).
Proof.
  intros Hc R Hd Hp.
  destruct (tcp_connect_start_run freq lookup_mac lookup_mac_ok (world_of n c) t hdr dst port pair R Hd Hp)
    as (w & t' & m & E & W & St & _ & Sq & Li & Lp & Ri & Rp & O1 & O2 & []).
  eexists (net_of n i w), (conn w), t', _, m, (next_isn (world_of n c) pair).
  split; [by eapply on_number_run|]. split; [exact an_sent|]. split; [unfold next_isn, u32; apply wrap_range; lia|].
  split; [by split; [eapply net_of_lookup|..]|].
  replace (hdr - 20 - 14) with (hdr - 34) by lia. split; [done|]. split; [done|].
  replace (hdr - 20 + 40) with (hdr + 20) by lia. replace (hdr - 20 + 41) with (hdr + 21) by lia.
  split; [done|]. split; [done|]. intros h. by apply first_others_net_of.
Qed.

Lemma listen_start_step kmalloc n j c t hdr :
  conns n !! j = Some c -> ready c t hdr -> state t = TCP_STATE_CLOSED -> address (remote_ip c) ->
  exists n' c' t', on_number j (tcp_listen_start kmalloc lookup_mac) n = Ok (PROTO_OK, n') /\
    conns n' !! j = Some c' /\ prepared c' t' hdr /\ state t' = TCP_STATE_LISTEN /\
    mem (buffer c') (hdr + 20) = TCP_OPTION_END /\ local_ip c' = local_ip c /\ local_port c' = local_port c /\
    remote_ip c' = remote_ip c /\ remote_port c' = remote_port c /\
    (forall h, first_others n j h -> first_others n' j h).
Proof.
  intros Hc R Hs Ha.
  destruct (tcp_listen_start_run kmalloc lookup_mac lookup_mac_ok (world_of n c) t hdr R Hs Ha)
    as (w & t' & E & P & St & O & Li & Lp & Ri & Rp).
  exists (net_of n j w), (conn w), t'. split; [by eapply on_number_run|]. split; [by eapply net_of_lookup|].
  do 7 (split; [done|]). intros h. by apply first_others_net_of.
Qed.

(** A handler that ends well, with the threads that wait woken up. *)
Definition woken (w : World) : World := mkWorld (conn w) (rx w) (now w) (isn_counter w) (sent w) (S (wakes w)).

Lemma handled i n c (H m : M World unit) w :
  conns n !! i = Some c -> H (world_of n c) = (m ;; wait_queue_wake_all) (world_of n c) ->
  m (world_of n c) = Ok (tt, w) ->
  (on_number i H ;; ret PROTO_OK) n = Ok (PROTO_OK, net_of n i (woken w)).
Proof.
  intros Hc HH Hm. rewrite (bind_ok _ _ _ _ _ Hm) in HH.
  by rewrite (bind_ok _ _ _ _ _ (on_number_run i H n c tt (woken w) Hc HH)).
Qed.

Lemma listen_step n j c t hdr m a src sport seq f :
  let h := mkHead src (local_ip c) sport (local_port c) seq 0 TCP_FLAG_SYN 4 in
  conns n !! j = Some c -> prepared c t hdr -> state t = TCP_STATE_LISTEN ->
  remote_ip c = ipv4_null_addr -> remote_port c = 0 ->
  address src -> 0 <= sport < 2 ^ 16 -> 0 <= seq < 2 ^ 32 ->
  packet m a 44 h -> m (a + 40) = TCP_OPTION_MSS -> m (a + 41) = 4 ->
  carries f (bytes_at m (a - 14) (Z.to_nat (44 + 14))) -> first_others n j h ->
  exists n' c' t' p m' isn, ipv4_recv freq fuel udp_lh (set_net_rx n f) = Ok (PROTO_OK, n') /\
    net_sent n' = net_sent n ++ [p] /\ 0 <= isn < 2 ^ 32 /\
    shaking n' j c' t' hdr TCP_STATE_SYN_RECEIVED isn (local_ip c) src (local_port c) sport /\
    ack_ (cur t') = u32 (seq + 1) /\
    p = bytes_at m' (hdr - 20 - 14) (Z.to_nat (44 + 14)) /\
    packet m' (hdr - 20) 44 (mkHead (local_ip c) src (local_port c) sport isn (u32 (seq + 1)) 0x12 4) /\
    m' (hdr - 20 + 40) = mem (buffer c) (hdr + 20) /\
    (forall h, first_others n j h -> first_others n' j h).
Proof.
  intros h Hc P Hs Hri Hrp Ha Hsp Hq Hp O1 O2 C F. pose proof P as [].
  assert (head_ok h) as Hh by (apply head_ok_mk; auto).
  assert (addressee n j h) as Hi.
  { split; [done|]. exists c. split; [done|]. unfold head_match, tcp_match, h. cbn [h_src h_dst h_sport h_dport].
    rewrite Z.eqb_refl, Hrp, Hri, orb_true_r, !bool_decide_eq_true_2, orb_true_r by done. done. }
  destruct (deliver freq fuel udp_lh m a 44 h f j n ltac:(simpl; lia) Hh Hp C Hi) as (b & -> & Ar & X).
  set (rhdr := bdata f + 20) in *. cbn [h_opt h] in *.
  set (w := world_of (set_net_rx n b) c).
  destruct (options_run fuel rhdr w) as (k & Ek & Hk);
    [destruct Ar; rewrite inside_iff; simpl in *; lia|done| |].
  { left. split; [apply Ar|]. split; [rewrite <- O1|rewrite <- O2]; simpl.
    - replace (a + 40) with (a + 20 + 20) by lia. apply X. lia.
    - replace (a + 41) with (a + 20 + 21) by lia. apply X. lia. }
  destruct (rx_listen_run freq w t hdr h rhdr 0 k P Ar Hh eq_refl ltac:(lia) Hq Hk)
    as (w' & t' & p & m' & E & W & St & Sq & Ac & Li & Lp & Ri & Rp & [] & X').
  exists (net_of (set_net_rx n b) j (woken w')), (conn w'), t', p, m', (next_isn w (conn_pair (set_remote c src sport))). split.
  { change (44 - 40 - 4) with 0. apply (handled j (set_net_rx n b) c _ (rx_listen freq rhdr k (h_seq h) (h_src h)) w' Hc); [|exact E].
    fold w. rewrite (rx_handler_run freq fuel w t rhdr 0 h (h_src h) k), Hs by (done || apply Ar || simpl; lia). done. }
  split; [exact an_sent|]. split; [unfold next_isn, u32; apply wrap_range; lia|].
  split; [by split; [exact (net_of_lookup (set_net_rx n b) j (woken w') c Hc)|..]|]. split; [done|].
  replace (hdr - 20 - 14) with (hdr - 34) by lia. split; [done|]. split; [done|].
  replace (hdr - 20 + 40) with (hdr + 20) by lia. split; [apply X'; lia|].
  intros h'. by apply first_others_net_of.
Qed.

(** A segment from the peer matches the connection to it. *)
Lemma peer_match n i c t hdr s q lip rip lport rport h :
  shaking n i c t hdr s q lip rip lport rport ->
  h_src h = rip -> h_dst h = lip -> h_sport h = rport -> h_dport h = lport -> first_others n i h -> addressee n i h.
Proof.
  intros [] H1 H2 H3 H4 F. split; [done|]. exists c. split; [done|]. unfold head_match, tcp_match.
  rewrite H1, H2, H3, H4, sh_lip0, sh_rip0, sh_lport0, sh_rport0, !Z.eqb_refl, !bool_decide_eq_true_2 by done. done.
Qed.

Lemma syn_ack_step n i c t hdr isn lip rip lport rport m a seq f :
  let h := mkHead rip lip rport lport seq (u32 (isn + 1)) 0x12 4 in
  shaking n i c t hdr TCP_STATE_SYN_SENT isn lip rip lport rport ->
  0 <= lport < 2 ^ 16 -> 0 <= rport < 2 ^ 16 -> 0 <= seq < 2 ^ 32 ->
  packet m a 44 h -> m (a + 40) = TCP_OPTION_END ->
  carries f (bytes_at m (a - 14) (Z.to_nat (44 + 14))) -> first_others n i h ->
  exists n' c' t' p m', ipv4_recv freq fuel udp_lh (set_net_rx n f) = Ok (PROTO_OK, n') /\
    net_sent n' = net_sent n ++ [p] /\
    shaking n' i c' t' hdr TCP_STATE_ESTABLISHED (u32 (isn + 1)) (local_ip c') (remote_ip c') (local_port c') (remote_port c') /\
    ack_ (cur t') = u32 (seq + 1) /\ cstate c' = CONN_STATE_OPENED /\
    p = bytes_at m' (hdr - 20 - 14) (Z.to_nat (40 + 14)) /\
    packet m' (hdr - 20) 40 (mkHead lip rip lport rport (u32 (isn + 1)) (u32 (seq + 1)) TCP_FLAG_ACK 0).
Proof.
  intros h Sh Hl Hr Hq Hp O C F. pose proof Sh as []. pose proof sh_wired0 as [].
  assert (head_ok h) as Hh by (apply head_ok_mk; auto; congruence).
  pose proof (peer_match n i c t hdr _ _ _ _ _ _ h Sh eq_refl eq_refl eq_refl eq_refl F) as Hi.
  destruct (deliver freq fuel udp_lh m a 44 h f i n ltac:(simpl; lia) Hh Hp C Hi) as (b & -> & Ar & X).
  set (rhdr := bdata f + 20) in *. cbn [h_opt h] in *. change (44 - 40 - 4) with 0 in *.
  set (w := world_of (set_net_rx n b) c).
  assert (0 <= h_ack h < 2 ^ 32) as Ha by (simpl; unfold u32; apply wrap_range; lia).
  destruct (options_run fuel rhdr w) as (k & Ek & Hk);
    [destruct Ar; rewrite inside_iff; simpl in *; lia|done| |].
  { right. split; [apply Ar|]. rewrite <- O. simpl. replace (a + 40) with (a + 20 + 20) by lia. apply X. lia. }
  destruct (rx_syn_sent_run freq w t hdr h rhdr 0 k sh_wired0 Ar Hh ltac:(lia) ltac:(by rewrite sh_seq0) Hk)
    as (w' & t' & p & m' & E & W & St & Cs & Sq & Ac & []).
  exists (net_of (set_net_rx n b) i (woken w')), (conn w'), t', p, m'. split.
  { apply (handled i (set_net_rx n b) c _ (rx_syn_sent freq rhdr k (h_seq h) (h_ack h) true true) w' sh_conn0); [|exact E].
    fold w. rewrite (rx_handler_run freq fuel w t rhdr 0 h (h_src h) k), sh_state0 by (done || apply Ar || simpl; lia). done. }
  split; [exact an_sent|].
  split; [by split; [exact (net_of_lookup (set_net_rx n b) i (woken w') c sh_conn0)|..]|]. split; [done|]. split; [done|].
  replace (hdr - 20 - 14) with (hdr - 34) by lia. split; [done|].
  change (conn w) with c in an_packet. rewrite sh_lip0, sh_rip0, sh_lport0, sh_rport0 in an_packet. exact an_packet.
Qed.

Lemma ack_step n j c t hdr isn lip rip lport rport m a seq f :
  let h := mkHead rip lip rport lport seq (u32 (isn + 1)) TCP_FLAG_ACK 0 in
  shaking n j c t hdr TCP_STATE_SYN_RECEIVED isn lip rip lport rport ->
  0 <= lport < 2 ^ 16 -> 0 <= rport < 2 ^ 16 -> 0 <= seq < 2 ^ 32 ->
  packet m a 40 h -> carries f (bytes_at m (a - 14) (Z.to_nat (40 + 14))) -> first_others n j h ->
  exists n' c' t', ipv4_recv freq fuel udp_lh (set_net_rx n f) = Ok (PROTO_OK, n') /\
    conns n' !! j = Some c' /\ tcp c' = Some t' /\ state t' = TCP_STATE_ESTABLISHED /\ cstate c' = CONN_STATE_OPENED /\
    seq_ (cur t') = u32 (isn + 1) /\ ack_ (cur t') = ack_ (cur t).
Proof.
  intros h Sh Hl Hr Hq Hp C F. pose proof Sh as []. pose proof sh_wired0 as [].
  assert (head_ok h) as Hh by (apply head_ok_mk; auto; congruence).
  pose proof (peer_match n j c t hdr _ _ _ _ _ _ h Sh eq_refl eq_refl eq_refl eq_refl F) as Hi.
  destruct (deliver freq fuel udp_lh m a 40 h f j n ltac:(simpl; lia) Hh Hp C Hi) as (b & -> & Ar & X).
  set (rhdr := bdata f + 20) in *. cbn [h_opt h] in *. change (40 - 40 - 0) with 0 in *.
  set (w := world_of (set_net_rx n b) c).
  assert (0 <= h_ack h < 2 ^ 32) as Ha by (simpl; unfold u32; apply wrap_range; lia).
  assert (tcp_options_handler fuel rhdr w = Ok (TOI_MAX, w)) as Ek.
  { apply no_options_run; [destruct Ar; rewrite inside_iff; simpl in *; lia|apply Ar]. }
  destruct (rx_syn_received_run w t hdr rhdr TOI_MAX (h_ack h) sh_wired0 ltac:(lia) ltac:(by rewrite sh_seq0))
    as (w' & t' & E & W & St & Cs & Sq & Ac & _).
  exists (net_of (set_net_rx n b) j (woken w')), (conn w'), t'. split.
  { apply (handled j (set_net_rx n b) c _ (rx_syn_received rhdr TOI_MAX (h_ack h) true) w' sh_conn0); [|exact E].
    fold w. rewrite (rx_handler_run freq fuel w t rhdr 0 h (h_src h) TOI_MAX), sh_state0
      by (done || apply Ar || simpl; lia). done. }
  split; [exact (net_of_lookup (set_net_rx n b) j (woken w') c sh_conn0)|]. by split; [apply W|].
Qed.
End steps.
