(* ===== verification/TcpStep.v ===== *)
(** * The states of a connection

    Which operations change the state of a connection and the number of retries, and how. *)

From stdpp Require Import base tactics list functions sets.
From S2P Require Import Prelude CMonad Net NetSum Tcp TcpWire.
Local Open Scope Z_scope.

Section keeps.
Context (R : TcpState -> Z -> Prop).

(** The connection has a record of TCP whose state and number of retries are in [R]. *)
Definition tcp_in (w : World) : Prop :=
  exists t, tcp (conn w) = Some t /\ R (state t) (retry_times (rtt t)).

(** Actions on a connection that leave the record alone. *)
Definition same_tcp {A} (m : M Conn A) : Prop := forall c a c', m c = Ok (a, c') -> tcp c' = tcp c.

Lemma same_tcp_bind {A B} (m : M Conn A) (k : A -> M Conn B) :
  same_tcp m -> (forall a, same_tcp (k a)) -> same_tcp (bind m k).
Proof. intros Hm Hk c b c' (a & c1 & H1 & H2)%bind_inv. rewrite (Hk _ _ _ _ H2). by eapply Hm. Qed.

Lemma same_tcp_ret {A} (a : A) : same_tcp (ret a).
Proof. by intros c b c' [= <- <-]. Qed.

Lemma same_tcp_gets {A} (f : Conn -> A) : same_tcp (gets f).
Proof. by intros c b c' [= <- <-]. Qed.

Lemma same_tcp_modify f : (forall c, tcp (f c) = tcp c) -> same_tcp (modify f).
Proof. intros H c b c' [= <- <-]. apply H. Qed.

Lemma same_tcp_on_buffer {A} (m : M NetBuffer A) : same_tcp (on_buffer m).
Proof. intros c a c'. unfold on_buffer. destruct (m (buffer c)) as [[? ?]| |]; by intros [= <- <-]. Qed.

Lemma same_tcp_ipv4_rewrap : same_tcp ipv4_rewrap.
Proof.
  apply same_tcp_bind; [apply same_tcp_gets|]. intros c. destruct (ip_header c); [|apply same_tcp_ret].
  apply same_tcp_on_buffer.
Qed.

Lemma same_tcp_wrap_physical dst : same_tcp (wrap_physical dst).
Proof.
  apply same_tcp_bind; [apply same_tcp_gets|]. intros c.
  destruct (net_protocol c); [|destruct (phy_protocol c)]; first [apply same_tcp_ret|apply same_tcp_on_buffer].
Qed.

Lemma same_tcp_ipv4_wrap p d ttl : same_tcp (ipv4_wrap p d ttl).
Proof.
  unfold ipv4_wrap.
  repeat (apply same_tcp_bind; [first [apply same_tcp_gets|by apply same_tcp_modify|apply same_tcp_on_buffer]|intros]).
  apply same_tcp_ret.
Qed.

Lemma same_tcp_conn_wrap lookup_mac level : same_tcp (conn_wrap lookup_mac level).
Proof.
  unfold conn_wrap. apply same_tcp_bind; [apply same_tcp_gets|]. intros c.
  destruct level; [destruct (net_protocol c)..| |]; try apply same_tcp_ret; try apply same_tcp_wrap_physical;
    (apply same_tcp_bind; [apply same_tcp_ipv4_wrap|intros; apply same_tcp_wrap_physical]).
Qed.

Lemma keeps_on_conn {A} (m : M Conn A) : same_tcp m -> keeps tcp_in (on_conn m).
Proof.
  intros Hm w a w' (t & Ht & HR). unfold on_conn. destruct (m (conn w)) as [[b c]| |] eqn:E; [|done|done].
  intros [= <- <-]. exists t. simpl. by rewrite (Hm _ _ _ E).
Qed.

Lemma keeps_on_buf {A} (m : M NetBuffer A) : keeps tcp_in (on_buf m).
Proof. apply keeps_on_conn, same_tcp_on_buffer. Qed.

Lemma keeps_on_rx {A} (m : M NetBuffer A) : keeps tcp_in (on_rx m).
Proof.
  intros w a w' HI. unfold on_rx. destruct (m (rx w)) as [[b c]| |]; [|done|done]. by intros [= <- <-].
Qed.

Lemma keeps_the_tcp : keeps tcp_in the_tcp.
Proof. apply keeps_bind; [apply keeps_gets|intros; apply keeps_of_option]. Qed.

Lemma keeps_upd_tcp f :
  (forall t, state (f t) = state t /\ retry_times (rtt (f t)) = retry_times (rtt t)) -> keeps tcp_in (upd_tcp f).
Proof.
  intros Hf w a w' (t & Ht & HR). rewrite (upd_tcp_run f w t Ht). intros [= <- <-]. exists (f t).
  split; [done|]. by destruct (Hf t) as [-> ->].
Qed.

Lemma keeps_wake : keeps tcp_in wait_queue_wake_all.
Proof. by apply keeps_modify. Qed.

Lemma keeps_kfree x : keeps tcp_in (kfree x).
Proof. destruct x; first [apply keeps_ret|apply keeps_undef]. Qed.

Lemma keeps_win_write x off l : keeps tcp_in (win_write x off l).
Proof.
  unfold win_write. apply keeps_if; [apply keeps_ret|]. destruct x; try apply keeps_undef.
  apply keeps_bind; [apply keeps_defined_if|intros; apply keeps_ret].
Qed.

Lemma keeps_win_read x off n : keeps tcp_in (win_read x off n).
Proof.
  unfold win_read. apply keeps_if; [apply keeps_ret|]. destruct x; try apply keeps_undef.
  apply keeps_bind; [apply keeps_defined_if|intros; apply keeps_ret].
Qed.
End keeps.

#[export] Hint Resolve keeps_on_buf keeps_on_rx keeps_the_tcp keeps_wake keeps_kfree keeps_win_write
  keeps_win_read : spec.

(** Split a goal along the structure of the operation; the leaves are actions that leave
    the state and the number of retries alone. *)
Ltac tcp_auto := repeat first
  [ solve [eauto 2 with spec nocore]
  | by apply keeps_upd_tcp
  | apply keeps_on_conn, same_tcp_ipv4_rewrap
  | apply keeps_on_conn, same_tcp_conn_wrap
  | by apply keeps_on_conn, same_tcp_modify
  | by apply keeps_modify
  | progress keeps_step ].

Section operations.
Context (R : TcpState -> Z -> Prop).
Context (freq : Z) (kmalloc : Z -> Window) (lookup_mac : list Z -> option (list Z)).

Lemma keeps_NETWORK_SEND : keeps (tcp_in R) NETWORK_SEND.
Proof. unfold NETWORK_SEND. tcp_auto. Qed.

Lemma keeps_set_conn_state s : keeps (tcp_in R) (set_conn_state s).
Proof. unfold set_conn_state. tcp_auto. Qed.

Lemma keeps_the_header : keeps (tcp_in R) the_header.
Proof. unfold the_header. tcp_auto. Qed.

Lemma keeps_set_rto_timeout ms : keeps (tcp_in R) (set_rto_timeout freq ms).
Proof. unfold set_rto_timeout. tcp_auto. Qed.

Lemma keeps_cancel_timer : keeps (tcp_in R) cancel_timer.
Proof. unfold cancel_timer. tcp_auto. Qed.

Lemma keeps_upd_send f : keeps (tcp_in R) (upd_send f).
Proof. unfold upd_send. tcp_auto. Qed.

Lemma keeps_umod x y : keeps (tcp_in R) (umod x y).
Proof. unfold umod. tcp_auto. Qed.

Lemma keeps_tcp_generate_isn pair : keeps (tcp_in R) (tcp_generate_isn pair).
Proof. unfold tcp_generate_isn. tcp_auto. Qed.

Lemma keeps_rx8 off : keeps (tcp_in R) (rx8 off).
Proof. unfold rx8. tcp_auto. Qed.

Lemma keeps_rx16 off : keeps (tcp_in R) (rx16 off).
Proof. unfold rx16. tcp_auto. Qed.

Lemma keeps_rx32 off : keeps (tcp_in R) (rx32 off).
Proof. unfold rx32. tcp_auto. Qed.

Lemma compute_retries r x y :
  tcp_compute_retransmission_timer r x = Some y -> retry_times y = retry_times x.
Proof.
  unfold tcp_compute_retransmission_timer. destruct (r =? 0); [intros [= <-]; by case_match|].
  destruct (rttvar x =? 0); case_match; intros [= <-]; done.
Qed.

Lemma keeps_compute_rto r : keeps (tcp_in R) (compute_rto r).
Proof.
  intros w a w' (t & Ht & HR). unfold compute_rto. rewrite (bind_ok _ _ _ _ _ (the_tcp_run w t Ht)).
  destruct (tcp_compute_retransmission_timer r (rtt t)) as [x|] eqn:E; [|done].
  rewrite (bind_ok (of_option (Some x)) _ w x w eq_refl), (upd_tcp_run _ w t Ht).
  intros [= <- <-]. exists (set_rtt x t). split; [done|]. simpl. by rewrite (compute_retries _ _ _ E).
Qed.
End operations.

#[export] Hint Resolve keeps_NETWORK_SEND keeps_set_conn_state keeps_the_header keeps_set_rto_timeout
  keeps_cancel_timer keeps_upd_send keeps_umod keeps_tcp_generate_isn keeps_rx8 keeps_rx16 keeps_rx32
  keeps_compute_rto : spec.

Section compound.
Context (R : TcpState -> Z -> Prop).
Context (freq : Z) (kmalloc : Z -> Window) (lookup_mac : list Z -> option (list Z)).

Lemma keeps_tcp_send_packet opt timer : keeps (tcp_in R) (tcp_send_packet freq opt timer).
Proof. unfold tcp_send_packet. tcp_auto. Qed.

Lemma keeps_tcp_ack opt extra : keeps (tcp_in R) (tcp_ack freq opt extra).
Proof. unfold tcp_ack. tcp_auto. apply keeps_tcp_send_packet. Qed.

Lemma keeps_tcp_ack_handler hdr n : keeps (tcp_in R) (tcp_ack_handler freq hdr n).
Proof. unfold tcp_ack_handler. tcp_auto; apply keeps_tcp_ack. Qed.

Lemma keeps_take_mss hdr i : keeps (tcp_in R) (take_mss hdr i).
Proof. unfold take_mss. tcp_auto. Qed.

Lemma keeps_options_loop fuel : forall options size i x, keeps (tcp_in R) (options_loop fuel options size i x).
Proof. induction fuel as [|fuel IH]; intros; cbn [options_loop]; tcp_auto; apply IH. Qed.

Lemma keeps_tcp_options_handler fuel hdr : keeps (tcp_in R) (tcp_options_handler fuel hdr).
Proof. unfold tcp_options_handler. tcp_auto. apply keeps_options_loop. Qed.

Lemma keeps_tcp_store_data used space buf : keeps (tcp_in R) (tcp_store_data used space buf).
Proof. unfold tcp_store_data. tcp_auto. Qed.

Lemma keeps_tcp_fill_packet used : keeps (tcp_in R) (tcp_fill_packet used).
Proof. unfold tcp_fill_packet. tcp_auto. Qed.

Lemma keeps_tcp_send_data buf : keeps (tcp_in R) (tcp_send_data freq buf).
Proof.
  unfold tcp_send_data. destruct buf; tcp_auto; first [apply keeps_tcp_store_data|apply keeps_tcp_fill_packet|apply keeps_tcp_send_packet].
Qed.

Lemma keeps_tcp_recv_data len : keeps (tcp_in R) (tcp_recv_data len).
Proof. unfold tcp_recv_data. tcp_auto. Qed.

Lemma keeps_tcp_opened : keeps (tcp_in R) (tcp_opened kmalloc).
Proof. unfold tcp_opened. tcp_auto. Qed.
End compound.

#[export] Hint Resolve keeps_tcp_send_packet keeps_tcp_ack keeps_tcp_ack_handler keeps_take_mss
  keeps_tcp_options_handler keeps_tcp_send_data keeps_tcp_recv_data keeps_tcp_opened : spec.

(** ** Changes of the state *)

(** The state is one of [l] and the number of retries is [r]. *)
Abbreviation among l r := (tcp_in (fun s k => s ∈ l /\ k = r)).

Implicit Types l : list TcpState.

Lemma spec_upd_tcp R R' f :
  (forall t, R (state t) (retry_times (rtt t)) -> R' (state (f t)) (retry_times (rtt (f t)))) ->
  spec (tcp_in R) (upd_tcp f) (fun _ => tcp_in R').
Proof.
  intros Hf w a w' (t & Ht & HR). rewrite (upd_tcp_run f w t Ht). intros [= <- <-]. exists (f t).
  split; [done|]. by apply Hf.
Qed.

Lemma among_weaken l l' r w : l ⊆ l' -> among l r w -> among l' r w.
Proof. intros Hl (t & Ht & Hs & Hr). exists t. split; [done|]. split; [by apply Hl|done]. Qed.

(** The state becomes [s]. *)
Lemma spec_goto l r s f : (forall t, state (f t) = s /\ retry_times (rtt (f t)) = retry_times (rtt t)) ->
  spec (among l r) (upd_tcp f) (fun _ => among [s] r).
Proof.
  intros Hf. apply spec_upd_tcp. intros t [_ Hr]. destruct (Hf t) as [-> ->]. split; [set_solver|done].
Qed.

Lemma spec_then {A B} I (m : M World A) (k : A -> M World B) (Q : B -> World -> Prop) :
  keeps I m -> (forall a, spec I (k a) Q) -> spec I (bind m k) Q.
Proof. intros. by eapply spec_bind. Qed.

Section segment.
Context (freq : Z).

Lemma spec_tcp_reset_conn l r : spec (among l r) tcp_reset_conn (fun _ => among [TCP_STATE_CLOSED] r).
Proof.
  unfold tcp_reset_conn. apply spec_then; [tcp_auto|intros]. eapply spec_bind; [by apply (spec_goto _ _ TCP_STATE_CLOSED)|]. intros. tcp_auto.
Qed.

(** The state after the acknowledgement of a SYN. *)
Lemma spec_rx_syn_acked s r ack_flag ack :
  spec (among [s] r) (rx_syn_acked ack_flag ack) (fun o =>
    match o with
    | None => fun w => ack_flag = true /\ among [TCP_STATE_CLOSED] r w
    | Some _ => among [if ack_flag then TCP_STATE_ESTABLISHED else s] r
    end).
Proof.
  unfold rx_syn_acked. apply spec_then; [tcp_auto|]. intros t.
  destruct ack_flag; [|by apply spec_ret]. case_match.
  - eapply spec_bind; [apply spec_tcp_reset_conn|]. intros. by apply spec_ret.
  - apply spec_then; [tcp_auto|intros]. apply spec_then; [tcp_auto|intros].
    eapply spec_bind; [by apply (spec_goto _ _ TCP_STATE_ESTABLISHED)|]. intros. by apply spec_ret.
Qed.

Lemma spec_rx_listen hdr i seq src r :
  spec (among [TCP_STATE_LISTEN] r) (rx_listen freq hdr i seq src) (fun _ => among [TCP_STATE_SYN_RECEIVED] r).
Proof.
  unfold rx_listen. do 10 (apply spec_then; [tcp_auto|intros]).
  eapply spec_bind; [by apply (spec_goto _ _ TCP_STATE_SYN_RECEIVED)|]. intros. tcp_auto.
Qed.

Lemma spec_rx_syn_received hdr i ack ack_flag r :
  spec (among [TCP_STATE_SYN_RECEIVED] r) (rx_syn_received hdr i ack ack_flag) (fun _ =>
    among (if ack_flag then [TCP_STATE_ESTABLISHED; TCP_STATE_CLOSED] else [TCP_STATE_SYN_RECEIVED]) r).
Proof.
  unfold rx_syn_received. do 2 (apply spec_then; [tcp_auto|intros]).
  eapply spec_bind; [apply spec_rx_syn_acked|]. intros [|].
  - eapply spec_weaken; [apply keeps_on_buf|]. intros ? w. apply among_weaken. destruct ack_flag; set_solver.
  - apply spec_ret. intros w [-> H]. eapply among_weaken; [|exact H]. set_solver.
Qed.

Lemma spec_rx_syn_sent hdr i seq ack syn_flag ack_flag r :
  spec (among [TCP_STATE_SYN_SENT] r) (rx_syn_sent freq hdr i seq ack syn_flag ack_flag) (fun _ =>
    among (if negb syn_flag then [TCP_STATE_CLOSED]
           else if ack_flag then [TCP_STATE_ESTABLISHED; TCP_STATE_CLOSED] else [TCP_STATE_SYN_RECEIVED]) r).
Proof.
  unfold rx_syn_sent. destruct syn_flag; cbn [negb]; [|apply spec_tcp_reset_conn].
  apply spec_then; [tcp_auto|intros]. eapply spec_bind; [by apply (spec_goto _ _ TCP_STATE_SYN_RECEIVED)|intros].
  do 2 (apply spec_then; [tcp_auto|intros]). eapply spec_bind; [apply spec_rx_syn_acked|]. intros [|].
  - eapply spec_weaken; [tcp_auto|]. intros ? w. apply among_weaken. destruct ack_flag; set_solver.
  - apply spec_ret. intros w [-> H]. eapply among_weaken; [|exact H]. set_solver.
Qed.

Lemma spec_when I b (m : M World unit) (Q : unit -> World -> Prop) :
  (b = true -> spec I m Q) -> (b = false -> forall w, I w -> Q tt w) -> spec I (when b m) Q.
Proof. intros H1 H2. destruct b; [by apply H1|]. by apply spec_ret, H2. Qed.

Lemma spec_rx_established hdr n ack fin_flag r :
  spec (among [TCP_STATE_ESTABLISHED] r) (rx_established freq hdr n ack fin_flag) (fun _ =>
    among (if fin_flag then [TCP_STATE_CLOSE_WAIT] else [TCP_STATE_ESTABLISHED]) r).
Proof.
  unfold rx_established. apply spec_then; [tcp_auto|intros]. apply spec_when; intros ->; [|done].
  apply spec_then; [tcp_auto|intros]. eapply spec_bind; [by apply (spec_goto _ _ TCP_STATE_CLOSE_WAIT)|]. intros. tcp_auto.
Qed.

Lemma spec_fin_acked l r ack_flag ack :
  spec (among l r) (fin_acked ack_flag ack) (fun b w => among l r w /\ (b = true -> ack_flag = true)).
Proof.
  unfold fin_acked. apply spec_then; [tcp_auto|intros]. apply spec_ret. intros w H. split; [done|].
  by intros [-> _]%andb_true_iff.
Qed.

Lemma spec_when_acked l s r ack_flag b (m : M World unit) :
  spec (among l r) m (fun _ => among [s] r) ->
  spec (fun w => among l r w /\ (b = true -> ack_flag = true)) (when b m) (fun _ =>
    among (if ack_flag : bool then s :: l else l) r).
Proof.
  intros Hm. apply spec_when.
  - intros ->. intros w a w' [H Ha] E. rewrite (Ha eq_refl). eapply among_weaken; [|by eapply Hm]. set_solver.
  - intros -> w [H _]. eapply among_weaken; [|exact H]. destruct ack_flag; set_solver.
Qed.

Lemma spec_rx_closing hdr n ack ack_flag r :
  spec (among [TCP_STATE_CLOSING] r) (rx_closing freq hdr n ack ack_flag) (fun _ =>
    among (if ack_flag then [TCP_STATE_TIME_WAIT; TCP_STATE_CLOSING] else [TCP_STATE_CLOSING]) r).
Proof.
  unfold rx_closing. apply spec_then; [tcp_auto|intros]. eapply spec_bind; [apply spec_fin_acked|]. intros b.
  eapply spec_bind; [apply (spec_when_acked _ TCP_STATE_TIME_WAIT)|intros; tcp_auto].
  apply spec_then; [tcp_auto|intros]. by apply spec_goto.
Qed.

Lemma spec_rx_fin_wait1 hdr n ack ack_flag fin_flag r :
  spec (among [TCP_STATE_FIN_WAIT1] r) (rx_fin_wait1 freq hdr n ack ack_flag fin_flag) (fun _ =>
    among (if fin_flag then [TCP_STATE_CLOSING]
           else if ack_flag then [TCP_STATE_FIN_WAIT2; TCP_STATE_FIN_WAIT1] else [TCP_STATE_FIN_WAIT1]) r).
Proof.
  unfold rx_fin_wait1. apply spec_then; [tcp_auto|intros]. eapply spec_bind; [apply spec_fin_acked|]. intros b.
  eapply spec_bind; [apply (spec_when_acked _ TCP_STATE_FIN_WAIT2)|intros].
  - apply spec_then; [tcp_auto|intros]. eapply spec_bind; [by apply (spec_goto _ _ TCP_STATE_FIN_WAIT2)|]. intros. tcp_auto.
  - apply spec_when; intros ->; [by apply spec_goto|done].
Qed.

Lemma spec_rx_fin_wait2 hdr n ack_flag fin_flag r :
  spec (among [TCP_STATE_FIN_WAIT2] r) (rx_fin_wait2 freq hdr n ack_flag fin_flag) (fun _ =>
    among (if fin_flag then [TCP_STATE_TIME_WAIT] else [TCP_STATE_FIN_WAIT2]) r).
Proof.
  unfold rx_fin_wait2. apply spec_then; [tcp_auto|intros]. apply spec_when; intros ->; [|done].
  eapply spec_bind; [by apply (spec_goto _ _ TCP_STATE_TIME_WAIT)|]. intros. tcp_auto.
Qed.

Lemma spec_rx_last_ack ack ack_flag r :
  spec (among [TCP_STATE_LAST_ACK] r) (rx_last_ack ack ack_flag) (fun _ =>
    among (if ack_flag then [TCP_STATE_CLOSED; TCP_STATE_LAST_ACK] else [TCP_STATE_LAST_ACK]) r).
Proof.
  unfold rx_last_ack. eapply spec_bind; [apply spec_fin_acked|]. intros b.
  apply (spec_when_acked _ TCP_STATE_CLOSED). apply spec_then; [tcp_auto|intros].
  eapply spec_bind; [by apply (spec_goto _ _ TCP_STATE_CLOSED)|]. intros. tcp_auto.
Qed.

(** ** The diagram of a segment *)

(** The arrows of the diagram in tcp.h that a received segment takes. *)
Definition segment_arrow (syn ack fin : bool) (s s' : TcpState) : bool :=
  match s, s' with
  | TCP_STATE_LISTEN, TCP_STATE_SYN_RECEIVED | TCP_STATE_SYN_SENT, TCP_STATE_SYN_RECEIVED => syn
  | TCP_STATE_SYN_SENT, TCP_STATE_ESTABLISHED => syn && ack
  | TCP_STATE_SYN_RECEIVED, TCP_STATE_ESTABLISHED => ack
  | TCP_STATE_ESTABLISHED, TCP_STATE_CLOSE_WAIT | TCP_STATE_FIN_WAIT1, TCP_STATE_CLOSING
  | TCP_STATE_FIN_WAIT2, TCP_STATE_TIME_WAIT => fin
  | TCP_STATE_FIN_WAIT1, TCP_STATE_FIN_WAIT2 | TCP_STATE_CLOSING, TCP_STATE_TIME_WAIT
  | TCP_STATE_LAST_ACK, TCP_STATE_CLOSED => ack
  | _, _ => false
  end.

(** When a segment may reset the connection, which the diagram does not show. *)
Definition segment_resets (rst syn ack : bool) (s : TcpState) : bool :=
  rst ||
  match s with
  | TCP_STATE_CLOSED | TCP_STATE_CLOSE_WAIT | TCP_STATE_TIME_WAIT => true
  | TCP_STATE_SYN_SENT => negb syn || ack
  | TCP_STATE_SYN_RECEIVED => ack
  | _ => false
  end.

(** The states that the code may leave a connection in. *)
Definition next_states (rst syn ack fin : bool) (s : TcpState) : list TcpState :=
  if rst then [TCP_STATE_CLOSED]
  else match s with
       | TCP_STATE_CLOSED | TCP_STATE_CLOSE_WAIT | TCP_STATE_TIME_WAIT => [TCP_STATE_CLOSED]
       | TCP_STATE_LISTEN => if syn then [TCP_STATE_SYN_RECEIVED] else [TCP_STATE_LISTEN]
       | TCP_STATE_SYN_SENT =>
         if negb syn then [TCP_STATE_CLOSED]
         else if ack then [TCP_STATE_ESTABLISHED; TCP_STATE_CLOSED] else [TCP_STATE_SYN_RECEIVED]
       | TCP_STATE_SYN_RECEIVED =>
         if ack then [TCP_STATE_ESTABLISHED; TCP_STATE_CLOSED] else [TCP_STATE_SYN_RECEIVED]
       | TCP_STATE_ESTABLISHED => if fin then [TCP_STATE_CLOSE_WAIT] else [TCP_STATE_ESTABLISHED]
       | TCP_STATE_CLOSING => if ack then [TCP_STATE_TIME_WAIT; TCP_STATE_CLOSING] else [TCP_STATE_CLOSING]
       | TCP_STATE_FIN_WAIT1 =>
         if fin then [TCP_STATE_CLOSING]
         else if ack then [TCP_STATE_FIN_WAIT2; TCP_STATE_FIN_WAIT1] else [TCP_STATE_FIN_WAIT1]
       | TCP_STATE_FIN_WAIT2 => if fin then [TCP_STATE_TIME_WAIT] else [TCP_STATE_FIN_WAIT2]
       | TCP_STATE_LAST_ACK => if ack then [TCP_STATE_CLOSED; TCP_STATE_LAST_ACK] else [TCP_STATE_LAST_ACK]
       end.

(** The handler from the point where the flags are known. *)
Lemma spec_dispatch hdr n src i seq ack syn_flag ack_flag fin_flag s r t :
  state t = s ->
  spec (among [s] r) (match state t with
    | TCP_STATE_CLOSED | TCP_STATE_CLOSE_WAIT | TCP_STATE_TIME_WAIT => tcp_reset_conn
    | TCP_STATE_LISTEN => when syn_flag (rx_listen freq hdr i seq src)
    | TCP_STATE_SYN_SENT => rx_syn_sent freq hdr i seq ack syn_flag ack_flag
    | TCP_STATE_SYN_RECEIVED => rx_syn_received hdr i ack ack_flag
    | TCP_STATE_ESTABLISHED => rx_established freq hdr n ack fin_flag
    | TCP_STATE_CLOSING => rx_closing freq hdr n ack ack_flag
    | TCP_STATE_FIN_WAIT1 => rx_fin_wait1 freq hdr n ack ack_flag fin_flag
    | TCP_STATE_FIN_WAIT2 => rx_fin_wait2 freq hdr n ack_flag fin_flag
    | TCP_STATE_LAST_ACK => rx_last_ack ack ack_flag
    end) (fun _ => among (next_states false syn_flag ack_flag fin_flag s) r).
Proof.
  intros <-. destruct (state t); cbn [next_states];
    eauto using spec_tcp_reset_conn, spec_rx_syn_sent, spec_rx_syn_received, spec_rx_established, spec_rx_closing,
      spec_rx_fin_wait1, spec_rx_fin_wait2, spec_rx_last_ack.
  apply spec_when; intros ->; [apply spec_rx_listen|done].
Qed.
End segment.

Section handler.
Context (freq : Z).

Lemma rx8_inv off w v w' : rx8 off w = Ok (v, w') -> v = mem (rx w) off /\ w' = w.
Proof.
  unfold rx8, on_rx, ld. run. simpl. change (Z.of_nat 1) with 1. destruct (inside off 1 (rx w)); [|done]. intros [= <- <-].
  split; [lia|by destruct w].
Qed.

Lemma among_state s r w t : among [s] r w -> tcp (conn w) = Some t -> state t = s.
Proof. intros (t' & Ht' & Hs & _) Ht. rewrite Ht in Ht'. injection Ht' as ->. set_solver. Qed.

(** From the options on, in a known state. *)
Lemma spec_rest fuel hdr n src seq ack syn_flag ack_flag fin_flag s r :
  spec (among [s] r) (mss_index ← tcp_options_handler fuel hdr ; t ← the_tcp ;
    match state t with
    | TCP_STATE_CLOSED | TCP_STATE_CLOSE_WAIT | TCP_STATE_TIME_WAIT => tcp_reset_conn
    | TCP_STATE_LISTEN => when syn_flag (rx_listen freq hdr mss_index seq src)
    | TCP_STATE_SYN_SENT => rx_syn_sent freq hdr mss_index seq ack syn_flag ack_flag
    | TCP_STATE_SYN_RECEIVED => rx_syn_received hdr mss_index ack ack_flag
    | TCP_STATE_ESTABLISHED => rx_established freq hdr n ack fin_flag
    | TCP_STATE_CLOSING => rx_closing freq hdr n ack ack_flag
    | TCP_STATE_FIN_WAIT1 => rx_fin_wait1 freq hdr n ack ack_flag fin_flag
    | TCP_STATE_FIN_WAIT2 => rx_fin_wait2 freq hdr n ack_flag fin_flag
    | TCP_STATE_LAST_ACK => rx_last_ack ack ack_flag
    end ;; wait_queue_wake_all) (fun _ => among (next_states false syn_flag ack_flag fin_flag s) r).
Proof.
  apply spec_then; [tcp_auto|]. intros i w a w' Hw (t & w1 & Ht & Hk)%bind_inv.
  pose proof Hw as (t0 & Ht0 & _). rewrite (the_tcp_run w t0 Ht0) in Ht. injection Ht as <- <-.
  pose proof (among_state _ _ _ _ Hw Ht0) as Hs.
  apply bind_inv in Hk as ([] & w2 & H1 & H2).
  pose proof (spec_dispatch freq hdr n src i seq ack syn_flag ack_flag fin_flag s r t0 Hs _ _ _ Hw H1) as Hd.
  exact (keeps_wake _ _ _ _ Hd H2).
Qed.

(** A segment moves a connection along the diagram. *)
Lemma rx_handler_states fuel hdr n src w t w' :
  let flags := mem (rx w) (hdr + 13) in
  tcp (conn w) = Some t -> tcp_rx_handler freq fuel hdr n src w = Ok (tt, w') ->
  among (next_states (flag flags TCP_FLAG_RST) (flag flags TCP_FLAG_SYN) (flag flags TCP_FLAG_ACK)
           (flag flags TCP_FLAG_FIN) (state t)) (retry_times (rtt t)) w'.
Proof.
  intros flags Ht. unfold tcp_rx_handler. intros (f & w1 & [-> ->]%rx8_inv & H)%bind_inv. fold flags in H.
  assert (among [state t] (retry_times (rtt t)) w) as Hw by (exists t; split; [done|split; [set_solver|done]]).
  clearbody flags.
  match type of H with
  | ?m w = _ =>
    enough (spec (among [state t] (retry_times (rtt t))) m (fun _ =>
      among (next_states (flag flags TCP_FLAG_RST) (flag flags TCP_FLAG_SYN) (flag flags TCP_FLAG_ACK)
               (flag flags TCP_FLAG_FIN) (state t)) (retry_times (rtt t)))) as HS by exact (HS w tt w' Hw H)
  end.
  apply spec_then; [tcp_auto|]. intros seq. apply spec_then; [tcp_auto|]. intros ack.
  destruct (flag flags TCP_FLAG_RST); cbn [when].
  - eapply spec_bind; [|intros; apply (spec_rest _ _ _ _ _ _ _ _ _ TCP_STATE_CLOSED)].
    eapply spec_bind; [by apply (spec_goto _ _ TCP_STATE_CLOSED)|]. intros. tcp_auto.
  - apply spec_then; [tcp_auto|]. intros. apply spec_rest.
Qed.
End handler.

(** What the diagram allows for the states that the code may reach. *)
Lemma next_states_diagram rst syn ack fin s s' :
  s' ∈ next_states rst syn ack fin s ->
  (s' = s \/ segment_arrow syn ack fin s s' = true \/ s' = TCP_STATE_CLOSED /\ segment_resets rst syn ack s = true) /\
  (rst = false -> s = TCP_STATE_LISTEN -> syn = true -> s' = TCP_STATE_SYN_RECEIVED) /\
  (rst = false -> s = TCP_STATE_ESTABLISHED -> fin = true -> s' = TCP_STATE_CLOSE_WAIT) /\
  (rst = false -> s = TCP_STATE_FIN_WAIT1 -> fin = true -> s' = TCP_STATE_CLOSING) /\
  (rst = false -> s = TCP_STATE_FIN_WAIT2 -> fin = true -> s' = TCP_STATE_TIME_WAIT) /\
  (s = TCP_STATE_CLOSE_WAIT \/ s = TCP_STATE_TIME_WAIT -> s' = TCP_STATE_CLOSED).
Proof.
  intros H. destruct rst; cbn [next_states] in H.
  - apply list_elem_of_singleton in H as ->. split_and!; try done. right; right. done.
  - destruct s, syn, ack, fin; cbn [next_states negb] in H;
      rewrite ?elem_of_cons, elem_of_nil in H; destruct_or? H; subst; try done; split_and!; try done;
      first [by left|right; by left|right; by right|by intros [?|?]].
Qed.

(** ** All operations *)

(** The pages of the windows that were freed are handed out to somebody else. *)
Definition reused (x : Window) : Window := match x with Freed => Reused | x => x end.
Definition reuse (t : Tcp) : Tcp := set_recv_window (reused (recv_window t)) (set_send_window (reused (send_window t)) t).

Section reachable.
Context (freq : Z) (kmalloc : Z -> Window) (lookup_mac : list Z -> option (list Z)).

(** What may happen to a connection: a segment in any receive buffer, the timer, the calls
    of its users, the two messages of ICMP, time, and that pages which it freed get a new
    owner. *)
Inductive tcp_step : World -> World -> Prop :=
| step_segment b fuel hdr n src w w' :
    tcp_rx_handler freq fuel hdr n src (set_rx b w) = Ok (tt, w') -> tcp_step w w'
| step_timeout w w' : tcp_timeout_handler freq w = Ok (tt, w') -> tcp_step w w'
| step_bind port w w' :
    (on_conn (modify (fun c => set_listed (set_local c (local_ip c) port) true)) ;; tcp_setup kmalloc TCP_STATE_CLOSED) w
      = Ok (tt, w') -> tcp_step w w'
| step_listen r w w' : tcp_listen_start kmalloc lookup_mac w = Ok (r, w') -> tcp_step w w'
| step_connect dst port pair w w' : tcp_connect_start freq lookup_mac dst port pair w = Ok (tt, w') -> tcp_step w w'
| step_opened r w w' : tcp_opened kmalloc w = Ok (r, w') -> tcp_step w w'
| step_send buf r w w' : tcp_send_data freq buf w = Ok (r, w') -> tcp_step w w'
| step_recv len r w w' : tcp_recv_data len w = Ok (r, w') -> tcp_step w w'
| step_shutdown how r w w' : tcp_shutdown freq how w = Ok (r, w') -> tcp_step w w'
| step_reset w w' : tcp_reset w = Ok (tt, w') -> tcp_step w w'
| step_unreachable code w w' : conn_unreachable code w = Ok (tt, w') -> tcp_step w w'
| step_mtu mtu w w' : conn_update_mtu mtu w = Ok (tt, w') -> tcp_step w w'
| step_reuse w w' : upd_tcp reuse w = Ok (tt, w') -> tcp_step w w'
| step_tick n w w' : w' = mkWorld (conn w) (rx w) n (isn_counter w) (sent w) (wakes w) -> tcp_step w w'.

(** No connection waits for the last acknowledgement, and retries are never forgotten. *)
Definition never_last (r0 : Z) (s : TcpState) (r : Z) : Prop := s <> TCP_STATE_LAST_ACK /\ r0 <= r.

Lemma keeps_goto r0 f s : s <> TCP_STATE_LAST_ACK ->
  (forall t, state (f t) = s /\ retry_times (rtt (f t)) = retry_times (rtt t)) -> keeps (tcp_in (never_last r0)) (upd_tcp f).
Proof.
  intros Hs Hf. apply spec_upd_tcp. intros t [_ Hr]. destruct (Hf t) as [-> ->]. done.
Qed.

Ltac goto_auto := repeat first
  [ progress tcp_auto
  | match goal with
    | |- spec _ (upd_tcp (set_state ?s)) _ => by apply (keeps_goto _ _ s)
    end ].

Lemma keeps_reset_conn r0 : keeps (tcp_in (never_last r0)) tcp_reset_conn.
Proof. unfold tcp_reset_conn. goto_auto. Qed.

Lemma keeps_tcp_setup r0 s : s <> TCP_STATE_LAST_ACK -> keeps (tcp_in (never_last r0)) (tcp_setup kmalloc s).
Proof.
  intros Hs. unfold tcp_setup. apply keeps_bind; [tcp_auto|intros c].
  apply keeps_bind; [by apply (keeps_goto _ _ s)|]. intros. tcp_auto.
Qed.

Lemma keeps_half_close r0 : keeps (tcp_in (never_last r0)) (tcp_half_close freq).
Proof. unfold tcp_half_close. goto_auto. Qed.

Lemma keeps_shutdown r0 how : keeps (tcp_in (never_last r0)) (tcp_shutdown freq how).
Proof.
  unfold tcp_shutdown, tcp_shut_read. apply keeps_bind; [tcp_auto|]. intros c. apply keeps_if; [tcp_auto|].
  destruct (tcp c); goto_auto; apply keeps_half_close.
Qed.

Lemma spec_retry r0 t o n : r0 <= retry_times (rtt t) <= n -> state t <> TCP_STATE_LAST_ACK ->
  let x := rtt t in
  spec (tcp_in (fun s r => s = state t /\ r = retry_times (rtt t)))
    (upd_tcp (set_rtt (mkRtt (send_time x) (send_seq x) (rttvar x) (srtt x) o n))) (fun _ => tcp_in (never_last r0)).
Proof. intros Hr Hs x. apply spec_upd_tcp. intros t' [Hs' _]. split; simpl; [congruence|lia]. Qed.

Lemma spec_retransmit r0 t : r0 <= retry_times (rtt t) -> state t <> TCP_STATE_LAST_ACK ->
  let x := rtt t in
  let retries := retry_times x + 1 in
  let I := tcp_in (fun s r => s = state t /\ r = retry_times (rtt t)) in
  spec I (defined_if (int_ok retries) ;;
    if retries <? tcp_max_retries then
      defined_if (int_ok (Z.shiftl (rto x) 1)) ;;
      let o := Z.min (Z.shiftl (rto x) 1) (60 * 1000) in
      let o := if bool_decide (state t = TCP_STATE_SYN_SENT) || bool_decide (state t = TCP_STATE_SYN_RECEIVED)
               then Z.min o (3 * 1000) else o in
      upd_tcp (set_rtt (mkRtt (send_time x) (send_seq x) (rttvar x) (srtt x) o retries)) ;;
      set_rto_timeout freq o ;;
      tcp_send_packet freq 0 true
    else
      upd_tcp (set_rtt (mkRtt (send_time x) (send_seq x) (rttvar x) (srtt x) (rto x) retries)) ;;
      tcp_reset_conn) (fun _ => tcp_in (never_last r0)).
Proof.
  intros Hr Hs x retries I. apply (spec_then I); [tcp_auto|intros]. case_match.
  - apply (spec_then I); [tcp_auto|intros]. cbv zeta. eapply spec_bind; [by apply (spec_retry r0); [unfold retries, x; lia|]|]. intros. tcp_auto.
  - eapply spec_bind; [by apply (spec_retry r0); [unfold retries, x; lia|]|]. intros. apply keeps_reset_conn.
Qed.

Lemma keeps_timeout r0 : keeps (tcp_in (never_last r0)) (tcp_timeout_handler freq).
Proof.
  intros w a w' (t & Ht & Hs & Hr). unfold tcp_timeout_handler.
  rewrite (bind_ok _ _ _ _ _ (the_tcp_run w t Ht)).
  set (I := tcp_in (fun s r => s = state t /\ r = retry_times (rtt t))).
  assert (I w) as Hw by (by exists t).
  assert (forall w, I w -> tcp_in (never_last r0) w) as HI.
  { intros w1 (t1 & Ht1 & Es & Er). exists t1. split; [done|]. split; congruence. }
  intros ([] & w1 & H1 & H2)%bind_inv. enough (tcp_in (never_last r0) w1) as H by (by apply (keeps_wake _ _ _ _ H H2)).
  pose proof (spec_retransmit r0 t Hr Hs w tt w1 Hw) as HT.
  destruct (state t) eqn:Es; try done; try (apply HT; exact H1); try (injection H1 as <-; by apply HI).
  - exact (keeps_reset_conn r0 w tt w1 (HI w Hw) H1).
  - revert H1. apply (keeps_bind (tcp_in (never_last r0))); [by apply (keeps_goto _ _ TCP_STATE_CLOSED)|intros; tcp_auto|by apply HI].
Qed.

Lemma keeps_segment r0 fuel hdr n src : keeps (tcp_in (never_last r0)) (tcp_rx_handler freq fuel hdr n src).
Proof.
  intros w [] w' (t & Ht & Hs & Hr) H.
  destruct (rx_handler_states freq fuel hdr n src w t w' Ht H) as (t' & Ht' & Hin & Hr').
  exists t'. split; [done|]. split; [|lia]. intros E. rewrite E in Hin. revert Hin Hs. unfold next_states.
  repeat case_match; set_solver.
Qed.

Lemma keeps_listen_start r0 : keeps (tcp_in (never_last r0)) (tcp_listen_start kmalloc lookup_mac).
Proof.
  unfold tcp_listen_start. apply keeps_bind; [tcp_auto|]. intros c. destruct (tcp c); [|tcp_auto].
  goto_auto. by apply keeps_tcp_setup.
Qed.

Lemma keeps_connect_start r0 dst port pair :
  keeps (tcp_in (never_last r0)) (tcp_connect_start freq lookup_mac dst port pair).
Proof. unfold tcp_connect_start. goto_auto. Qed.

Lemma keeps_reset r0 : keeps (tcp_in (never_last r0)) tcp_reset.
Proof.
  unfold tcp_reset. apply keeps_bind; [tcp_auto|]. intros c. destruct (tcp c); tcp_auto. apply keeps_reset_conn.
Qed.

Lemma keeps_update_mtu r0 mtu : keeps (tcp_in (never_last r0)) (conn_update_mtu mtu).
Proof. unfold conn_update_mtu. tcp_auto. Qed.

Lemma step_keeps r0 w w' : tcp_step w w' -> tcp_in (never_last r0) w -> tcp_in (never_last r0) w'.
Proof.
  intros H HI. destruct H as [b ? ? ? ? w w' H|w w' H|? w w' H|? w w' H|? ? ? w w' H|? w w' H|? ? w w' H|? ? w w' H|
    ? ? w w' H|w w' H|? w w' H|? w w' H|w w' H|? w w' H].
  - exact (keeps_segment r0 _ _ _ _ (set_rx b w) tt w' HI H).
  - exact (keeps_timeout r0 _ _ _ HI H).
  - revert H. apply keeps_bind; [tcp_auto|intros; by apply keeps_tcp_setup|done].
  - exact (keeps_listen_start r0 _ _ _ HI H).
  - exact (keeps_connect_start r0 _ _ _ _ _ _ HI H).
  - exact (keeps_tcp_opened _ _ _ _ _ HI H).
  - exact (keeps_tcp_send_data _ _ _ _ _ _ HI H).
  - exact (keeps_tcp_recv_data _ _ _ _ _ HI H).
  - exact (keeps_shutdown r0 _ _ _ _ HI H).
  - exact (keeps_reset r0 _ _ _ HI H).
  - revert H. apply keeps_bind; [|intros; tcp_auto|done].
    repeat apply keeps_if; [..|tcp_auto]; (apply keeps_bind; [apply keeps_reset_conn|intros; tcp_auto]).
  - exact (keeps_update_mtu r0 _ _ _ _ HI H).
  - revert H. by apply (spec_upd_tcp (never_last r0) (never_last r0) reuse).
  - by subst w'.
Qed.
End reachable.
