(* ===== verification/TcpData.v ===== *)
(** * Options and data of segments

    When the loop over the options ends, what happens after a reset, and the receive
    window as a queue of bytes. *)

From stdpp Require Import base tactics list list_numbers functions.
From S2P Require Import Prelude CMonad Net NetSum Tcp TcpWire TcpOpen TcpStep.
Local Open Scope Z_scope.

(** ** Options *)

(** [plain k]: an option with a length. *)
Definition plain (k : Z) : Prop := k <> TCP_OPTION_END /\ k <> TCP_OPTION_NOP.

(** The walk over the [n] bytes of options, from [i] on, meets an option of length zero. *)
Inductive zero_option (opt : Z -> Z) (n : Z) : Z -> Prop :=
| zero_here i : i + 1 < n -> plain (opt i) -> opt (i + 1) = 0 -> zero_option opt n i
| zero_nop i : i < n -> opt i = TCP_OPTION_NOP -> zero_option opt n (i + 1) -> zero_option opt n i
| zero_skip i : i + 1 < n -> plain (opt i) -> 0 < opt (i + 1) -> i + opt (i + 1) <= n ->
    zero_option opt n (i + opt (i + 1)) -> zero_option opt n i.

Section options.
Context (w : World) (o n : Z).
Hypothesis Hin : inside o n (rx w) = true.
Hypothesis Hbytes : byte_mem (mem (rx w)).

Definition opt (i : Z) : Z := mem (rx w) (o + i).

Lemma opt_read i : 0 <= i < n -> rx8 (o + i) w = Ok (opt i, w).
Proof. intros Hi. rewrite inside_iff in Hin. apply rx8_run. rewrite inside_iff. lia. Qed.

(** One turn of the loop. *)
Lemma options_end fuel i x : n <= i -> options_loop (S fuel) o n i x w = Ok (x, w).
Proof. intros Hi. cbn [options_loop]. destruct (Z.ltb_spec i n); [lia|done]. Qed.

Lemma options_turn fuel i x : 0 <= i < n ->
  options_loop (S fuel) o n i x w =
    if opt i =? TCP_OPTION_END then Ok (x, w)
    else if opt i =? TCP_OPTION_NOP then options_loop fuel o n (i + 1) x w
    else if i + 1 >=? n then Ok (x, w)
    else if i + opt (i + 1) >? n then Ok (x, w)
    else options_loop fuel o n (i + opt (i + 1)) (if opt i =? TCP_OPTION_MSS then i + 2 else x) w.
Proof.
  intros Hi. cbn [options_loop]. destruct (Z.ltb_spec i n); [|lia].
  rewrite (bind_ok _ _ _ _ _ (opt_read i Hi)). cbv zeta.
  destruct (opt i =? TCP_OPTION_END); [done|]. destruct (opt i =? TCP_OPTION_NOP); [done|].
  destruct (Z.geb_spec (i + 1) n); [done|].
  rewrite (bind_ok _ _ _ _ _ (opt_read (i + 1) ltac:(lia))).
  replace (i + 1 + opt (i + 1) - 1) with (i + opt (i + 1)) by lia. replace (i + 1 + 1) with (i + 2) by lia.
  by destruct (i + opt (i + 1) >? n).
Qed.

Lemma zero_option_range i : zero_option opt n i -> i < n.
Proof. destruct 1; lia. Qed.

Lemma zero_option_loops i : zero_option opt n i -> 0 <= i -> forall fuel x, options_loop fuel o n i x w = NoFuel.
Proof.
  induction 1 as [i Hi [H0 H1] Hz|i Hi H1 H IH|i Hi [H0 H1] Hp Hn H IH]; intros Hi0 fuel x.
  - revert x. induction fuel as [|fuel IH]; intros x; [done|]. rewrite options_turn by lia.
    rewrite (proj2 (Z.eqb_neq _ _) H0), (proj2 (Z.eqb_neq _ _) H1), Hz, Z.add_0_r.
    destruct (Z.geb_spec (i + 1) n); [lia|]. destruct (Z.gtb_spec i n); [lia|]. apply IH.
  - destruct fuel as [|fuel]; [done|]. rewrite options_turn, H1 by lia. apply IH. lia.
  - destruct fuel as [|fuel]; [done|]. rewrite options_turn by lia.
    rewrite (proj2 (Z.eqb_neq _ _) H0), (proj2 (Z.eqb_neq _ _) H1).
    destruct (Z.geb_spec (i + 1) n); [lia|]. destruct (Z.gtb_spec (i + opt (i + 1)) n); [lia|]. apply IH. lia.
Qed.

(** Every other walk goes forward. *)
Lemma options_halt fuel : forall i x, 0 <= i -> Z.max 0 (n - i) < Z.of_nat fuel -> TOI_MAX <= x -> ~ zero_option opt n i ->
  exists r, options_loop fuel o n i x w = Ok (r, w) /\ TOI_MAX <= r.
Proof.
  induction fuel as [|fuel IH]; intros i x Hi Hf Hx Hz; [lia|].
  destruct (Z.leb_spec n i); [by rewrite options_end; eauto|]. rewrite options_turn by lia.
  destruct (Z.eqb_spec (opt i) TCP_OPTION_END) as [|H0]; [by eauto|].
  destruct (Z.eqb_spec (opt i) TCP_OPTION_NOP) as [H1|H1].
  - apply IH; [lia..|done|]. intros Hz'. apply Hz. by apply zero_nop.
  - destruct (Z.geb_spec (i + 1) n); [by eauto|]. destruct (Z.gtb_spec (i + opt (i + 1)) n); [by eauto|].
    pose proof (Hbytes (o + (i + 1)) : 0 <= opt (i + 1) < 256) as Hb.
    destruct (decide (opt (i + 1) = 0)) as [E|]; [destruct Hz; by apply zero_here; [lia|split|]|].
    apply IH; [lia|lia|unfold TOI_MAX in *; case_match; lia|]. intros Hz'. apply Hz. by apply zero_skip; [lia|split|lia|lia|].
Qed.
End options.

(** The options of a segment whose header is at [hdr]. *)
Definition options_size (w : World) (hdr : Z) : Z := Z.shiftr (Z.land (mem (rx w) (hdr + 12)) 0xf0) 2 - 20.

Lemma options_size_range w hdr : byte_mem (mem (rx w)) -> -20 <= options_size w hdr <= 40.
Proof.
  intros H. unfold options_size. pose proof (H (hdr + 12)) as Hb.
  assert (Forall (fun k => -20 <= Z.shiftr (Z.land k 0xf0) 2 - 20 <= 40) (seqZ 0 256)) as Hk by by_decide.
  rewrite Forall_forall in Hk. apply Hk, list_elem_of_In, elem_of_seqZ. lia.
Qed.

Lemma options_handler_eq fuel hdr w : byte_mem (mem (rx w)) -> inside hdr 20 (rx w) = true ->
  tcp_options_handler fuel hdr w =
    if options_size w hdr <=? 0 then Ok (TOI_MAX, w)
    else options_loop fuel (hdr + 20) (options_size w hdr) 0 TOI_MAX w.
Proof.
  intros Hb Hin. rewrite inside_iff in Hin. pose proof (options_size_range w hdr Hb) as Hr.
  unfold tcp_options_handler. rewrite (bind_ok _ _ _ _ _ (rx8_run (hdr + 12) w ltac:(rewrite inside_iff; lia))).
  cbv zeta. fold (options_size w hdr). unfold s32. rewrite sext_small by lia.
  by destruct (options_size w hdr <=? 0).
Qed.

Lemma options_handler_halts fuel hdr w :
  byte_mem (mem (rx w)) -> inside hdr (20 + Z.max 0 (options_size w hdr)) (rx w) = true -> (41 <= fuel)%nat ->
  ~ zero_option (opt w (hdr + 20)) (options_size w hdr) 0 ->
  exists i, tcp_options_handler fuel hdr w = Ok (i, w) /\ TOI_MAX <= i.
Proof.
  intros Hb Hin Hf Hz. pose proof (options_size_range w hdr Hb). rewrite inside_iff in Hin.
  rewrite options_handler_eq by (done || rewrite inside_iff; lia).
  destruct (Z.leb_spec (options_size w hdr) 0); [by exists TOI_MAX|].
  apply options_halt; [rewrite inside_iff; lia|done|lia|lia|lia|done].
Qed.

Lemma options_handler_hangs fuel hdr w :
  byte_mem (mem (rx w)) -> inside hdr (20 + Z.max 0 (options_size w hdr)) (rx w) = true ->
  zero_option (opt w (hdr + 20)) (options_size w hdr) 0 -> tcp_options_handler fuel hdr w = NoFuel.
Proof.
  intros Hb Hin Hz. pose proof (zero_option_range _ _ _ _ Hz). rewrite inside_iff in Hin.
  rewrite options_handler_eq by (done || rewrite inside_iff; lia).
  destruct (Z.leb_spec (options_size w hdr) 0); [lia|].
  apply zero_option_loops; [rewrite inside_iff; lia|done|lia].
Qed.

(** ** After a reset *)

(** The record of the connection is in [P]. *)
Definition has (P : Tcp -> Prop) (w : World) : Prop := exists t, tcp (conn w) = Some t /\ P t.

Section has.
Context (P : Tcp -> Prop).

Lemma has_on_conn {A} (m : M Conn A) : same_tcp m -> keeps (has P) (on_conn m).
Proof.
  intros Hm w a w' (t & Ht & HP). unfold on_conn. destruct (m (conn w)) as [[b c]| |] eqn:E; [|done|done].
  intros [= <- <-]. exists t. simpl. by rewrite (Hm _ _ _ E).
Qed.

Lemma has_on_buf {A} (m : M NetBuffer A) : keeps (has P) (on_buf m).
Proof. apply has_on_conn, same_tcp_on_buffer. Qed.

Lemma has_upd_tcp P' f : (forall t, P t -> P' (f t)) -> spec (has P) (upd_tcp f) (fun _ => has P').
Proof.
  intros Hf w a w' (t & Ht & HP). rewrite (upd_tcp_run f w t Ht). intros [= <- <-]. exists (f t). auto.
Qed.

Lemma has_the_tcp : spec (has P) the_tcp (fun t w => has P w /\ P t).
Proof.
  intros w a w' (t & Ht & HP). rewrite (the_tcp_run w t Ht). intros [= <- <-]. split; [by exists t|done].
Qed.

Lemma has_set_conn_state s : keeps (has P) (set_conn_state s).
Proof. by apply has_on_conn, same_tcp_modify. Qed.

Lemma has_the_header : keeps (has P) the_header.
Proof.
  eapply spec_bind; [apply has_the_tcp|]. intros t. eapply spec_pre; [|apply keeps_of_option]. by intros ? [].
Qed.

Lemma has_NETWORK_SEND : keeps (has P) NETWORK_SEND.
Proof.
  unfold NETWORK_SEND. apply keeps_bind; [apply keeps_gets|intros].
  apply keeps_bind; [apply has_on_buf|intros]. by apply keeps_modify.
Qed.
End has.

Lemma spec_fact {A} (I : World -> Prop) (F : Prop) (m : M World A) Q :
  (F -> spec I m Q) -> spec (fun w => I w /\ F) m Q.
Proof. intros H w a w' [HI HF]. by apply H. Qed.

Lemma free_then {A} I x (k : Window -> M World A) Q :
  (x <> Reused -> spec I (k (if x is Null then Null else Freed)) Q) -> spec I (bind (kfree x) k) Q.
Proof. intros H. destruct x; [by apply H..|]. by intros w a w' _ [=]. Qed.

Lemma spec_then_upd {A} P P' f (k : M World A) Q :
  (forall t, P t -> P' (f t)) -> spec (has P') k Q -> spec (has P) (upd_tcp f ;; k) Q.
Proof. intros Hf Hk. eapply spec_bind; [by apply has_upd_tcp|]. by intros. Qed.

(** [tcp_reset_conn] frees both windows. *)
Lemma reset_spec s r :
  spec (has (fun t => send_window t = s /\ recv_window t = r)) tcp_reset_conn (fun _ w =>
    s <> Reused /\ r <> Reused /\
    has (fun t => state t = TCP_STATE_CLOSED /\ send_window t = (if s is Null then Null else Freed) /\
                  recv_window t = (if r is Null then Null else Freed)) w).
Proof.
  unfold tcp_reset_conn. apply spec_then; [apply has_on_buf|intros].
  set (P := fun t => state t = TCP_STATE_CLOSED /\ send_window t = s /\ recv_window t = r).
  eapply (spec_bind _ _ _ (fun _ => has P)); [apply has_upd_tcp; by intros t [? ?]|intros].
  do 4 (apply spec_then; [first [apply has_set_conn_state|apply has_the_header|apply keeps_gets|apply has_on_buf]|intros]).
  eapply spec_bind; [apply has_the_tcp|]. intros t. apply spec_fact. intros (_ & -> & ->).
  apply free_then. intros Hs. apply spec_then_upd with (P' := fun t => state t = TCP_STATE_CLOSED /\
    send_window t = (if s is Null then Null else Freed) /\ recv_window t = r); [by intros t' (? & _ & ?)|].
  apply free_then. intros Hr. eapply spec_bind.
  - apply has_upd_tcp with (P' := fun t => state t = TCP_STATE_CLOSED /\
      send_window t = (if s is Null then Null else Freed) /\ recv_window t = (if r is Null then Null else Freed)).
    by intros t' (? & ? & _).
  - intros. apply spec_then; [apply has_NETWORK_SEND|intros].
    eapply spec_weaken; [by apply keeps_modify|]. done.
Qed.

(** A reset of a connection whose windows belong to somebody else is undefined. *)
Lemma reset_twice w t a w' : tcp (conn w) = Some t -> send_window t = Reused \/ recv_window t = Reused ->
  tcp_reset_conn w <> Ok (a, w').
Proof.
  intros Ht Hf E. destruct (reset_spec (send_window t) (recv_window t) w a w') as (? & ? & _); [by exists t|done|].
  by destruct Hf.
Qed.

Definition closed_reused (t : Tcp) : Prop :=
  state t = TCP_STATE_CLOSED /\ (send_window t = Reused \/ recv_window t = Reused).

Lemma has_rx (P : Tcp -> Prop) {A} (m : M NetBuffer A) : keeps (has P) (on_rx m).
Proof.
  intros w a w' HI. unfold on_rx. destruct (m (rx w)) as [[b c]| |]; [|done|done]. by intros [= <- <-].
Qed.

Lemma has_rx32 P off : keeps (has P) (rx32 off).
Proof. apply keeps_bind; [apply has_rx|intros; apply keeps_ret]. Qed.

Lemma has_options fuel P : forall o n i x, keeps (has P) (options_loop fuel o n i x).
Proof.
  induction fuel as [|fuel IH]; intros; cbn [options_loop]; [apply keeps_no_fuel|].
  repeat first [apply IH|apply keeps_ret|apply has_rx|progress keeps_step].
Qed.

Lemma has_options_handler fuel P hdr : keeps (has P) (tcp_options_handler fuel hdr).
Proof.
  unfold tcp_options_handler. apply keeps_bind; [apply has_rx|intros].
  apply keeps_if; [apply keeps_ret|apply has_options].
Qed.

Lemma reset_never : spec (has closed_reused) tcp_reset_conn (fun _ _ => False).
Proof. intros w a w' (t & Ht & _ & Hf) E. by eapply reset_twice. Qed.

(** Nor has such a connection a defined reaction to a segment once it is closed. *)
Lemma segment_never freq fuel hdr n src :
  spec (has closed_reused) (tcp_rx_handler freq fuel hdr n src) (fun _ _ => False).
Proof.
  unfold tcp_rx_handler. apply spec_then; [apply has_rx|intros flags].
  do 2 (apply spec_then; [apply has_rx32|intros]). cbv zeta. apply spec_then.
  { apply keeps_when, keeps_bind; [apply has_upd_tcp; by intros t []|intros; apply has_set_conn_state]. }
  intros. apply spec_then; [apply has_options_handler|intros].
  eapply spec_bind; [apply has_the_tcp|]. intros t. apply spec_fact. intros [-> _].
  eapply spec_bind; [apply reset_never|]. by intros ? w ? w' [].
Qed.

(** ** Round-trip times *)

(** The measured times stay below [2 ^ 24] milliseconds. *)
Definition rtt_ok (x : Rtt) : Prop := 0 <= srtt x <= 2 ^ 24 /\ 0 <= rttvar x <= 2 ^ 24.

Lemma quot_bounds a b : 0 <= a -> 0 < b -> 0 <= Z.quot a b /\ b * Z.quot a b <= a.
Proof.
  intros Ha Hb. rewrite Z.quot_div_nonneg by lia. pose proof (Z.div_pos a b Ha Hb).
  pose proof (Z.mul_div_le a b Hb). lia.
Qed.

Lemma int_ok_small x : - 2 ^ 31 <= x < 2 ^ 31 -> int_ok x = true.
Proof. intros H. unfold int_ok. rewrite andb_true_iff, Z.leb_le, Z.ltb_lt. lia. Qed.

(** A measurement has a defined result with times in the bounds, and a timeout between one
    second and one minute. *)
Lemma compute_rtt r x : rtt_ok x -> 0 <= r <= 2 ^ 24 ->
  exists y, tcp_compute_retransmission_timer r x = Some y /\ rtt_ok y /\
    send_time y = send_time x /\ send_seq y = send_seq x /\ retry_times y = retry_times x /\
    (r <> 0 -> 1000 <= rto y <= 60000).
Proof.
  intros [Hs Hv] Hr. unfold tcp_compute_retransmission_timer.
  destruct (Z.eqb_spec r 0); [eexists; split; [done|]; by destruct (rttvar x =? 0)|].
  destruct (Z.eqb_spec (rttvar x) 0).
  - destruct (quot_bounds r 2 ltac:(lia) ltac:(lia)) as [? ?].
    rewrite !int_ok_small by lia. eexists. split; [done|]. unfold rtt_ok. simpl. lia.
  - destruct (quot_bounds (3 * rttvar x + Z.abs (srtt x - r)) 4 ltac:(lia) ltac:(lia)) as [? ?].
    destruct (quot_bounds (7 * srtt x + r) 8 ltac:(lia) ltac:(lia)) as [? ?].
    rewrite !int_ok_small by lia. eexists. split; [done|]. unfold rtt_ok. simpl. lia.
Qed.

(** ** The receive window as a queue *)

(** The bytes [l] were received and [r] of them were read. *)
Record holds (t : Tcp) (l : list Z) (r : Z) : Prop := {
  q_window : exists m, recv_window t = Block m recv_win_default_size /\ bytes_at m 0 (length l) = l;
  q_total : rtotal (recv t) = recv_win_default_size;
  q_next : rnext (recv t) = Z.of_nat (length l);
  q_fits : Z.of_nat (length l) < recv_win_default_size;
  q_read : rread (recv t) = r;
  q_range : 0 <= r <= Z.of_nat (length l)
}.

Lemma holds_alike t t' l r : alike t t' -> holds t l r -> holds t' l r.
Proof. intros [] [(m & Hm & Hl)]. split; [by exists m; split; [congruence|]|congruence..|done]. Qed.

Lemma bytes_at_slice m n a k : 0 <= a -> a + Z.of_nat k <= Z.of_nat n ->
  bytes_at m a k = take k (drop (Z.to_nat a) (bytes_at m 0 n)).
Proof.
  intros Ha Hk. replace n with (Z.to_nat a + (k + (n - Z.to_nat a - k)))%nat at 1 by lia.
  rewrite bytes_at_app, drop_app_length' by (by rewrite bytes_at_length).
  rewrite bytes_at_app, take_app_length' by (by rewrite bytes_at_length).
  f_equal. lia.
Qed.

(** Reading takes the oldest bytes that were not read. *)
Lemma tcp_recv_data_run k w t l r :
  tcp (conn w) = Some t -> holds t l r -> 0 <= k < 2 ^ 31 ->
  let d := take (Z.to_nat k) (drop (Z.to_nat r) l) in
  exists res w' t', tcp_recv_data k w = Ok ((res, d), w') /\ tcp (conn w') = Some t' /\
    holds t' l (r + Z.of_nat (length d)) /\ (d <> [] -> res = PROTO_OK).
Proof.
  intros Ht [(m & Hm & Hl) Hto Hnx Hf Hrd Hr] Hk d. unfold recv_win_default_size in *.
  assert (length d = Z.to_nat (Z.min k (Z.of_nat (length l) - r))) as Hd.
  { subst d. rewrite length_take, length_drop. lia. }
  unfold tcp_recv_data. rewrite (bind_ok (gets conn) _ w (conn w) w eq_refl), Ht. cbv zeta.
  destruct (Z.geb_spec (rnext (recv t)) (rread (recv t))); [|lia]. rewrite Hnx, Hrd.
  set (n := Z.min k (Z.of_nat (length l) - r)).
  assert (umin k (u32 (Z.of_nat (length l) - r)) = n) as ->.
  { unfold umin, u32. rewrite !(wrap_small 32) by (rewrite ?wrap_small; lia).
    destruct (Z.ltb_spec k (Z.of_nat (length l) - r)); lia. }
  assert (s32 n = n) as -> by (apply sext_small; lia).
  assert (win_read (recv_window t) r n w = Ok (d, w)) as Hw.
  { unfold win_read. destruct (Z.eqb_spec n 0); [destruct d; [done|simpl in Hd; lia]|]. rewrite Hm. run.
    destruct (Z.leb_spec 0 r), (Z.leb_spec 0 n), (Z.leb_spec (r + n) 32768); try lia. simpl. do 2 f_equal.
    rewrite (bytes_at_slice m (length l)) by lia. rewrite Hl. subst d. unfold n.
    destruct (Z.leb_spec k (Z.of_nat (length l) - r)); [do 2 f_equal; lia|].
    rewrite !take_ge by (rewrite length_drop; lia). done. }
  rewrite bind_assoc, (bind_ok _ _ _ _ _ Hw), bind_assoc, (bind_ok _ _ _ _ _ (upd_tcp_run _ w t Ht)).
  eexists _, _, _. split; [done|]. split; [done|]. split.
  - split; simpl; try done; [by exists m| |lia]. unfold u32. rewrite wrap_small; lia.
  - by destruct d.
Qed.

(** *** Storing a segment *)

(** The state of the sending side and the headers are not touched. *)
Record stored (t t' : Tcp) : Prop := {
  st_header : header t' = header t;
  st_state : state t' = state t;
  st_send : send t' = send t;
  st_send_window : send_window t' = send_window t;
  st_cur : cur t' = cur t;
  st_rtt : rtt t' = rtt t
}.

(** What [tcp_ack_handler] does with the [n] bytes of a segment. *)
Definition store_segment (t : Tcp) (b : NetBuffer) (n : Z) : M World unit :=
  match recv_window t with
  | Null => ret tt
  | x =>
    let r := recv t in
    let size1 := s32 (umin (u32 (rtotal r - rnext r)) n) in
    let size2 := n - size1 in
    l1 ← on_rx (rd (bdata b) size1) ;
    x ← win_write x (rnext r) l1 ;
    l2 ← on_rx (rd (bdata b + size1) size2) ;
    x ← win_write x 0 l2 ;
    k ← umod (u32 (rnext r + n)) (rtotal r) ;
    upd_tcp (fun t => set_recv (mkRecv k (u32 (rwindow r - n)) (irs r) (rtotal r) (rread r)) (set_recv_window x t))
  end.

Lemma store_segment_run w c t l r n :
  let b := rx w in let d := bytes_at (mem b) (bdata b) (Z.to_nat n) in
  tcp c = Some t -> holds t l r -> 0 < n -> inside (bdata b) n b = true ->
  Z.of_nat (length l) + n < recv_win_default_size ->
  exists t', store_segment t b n (set_conn c w) = Ok (tt, set_conn (set_tcp c (Some t')) w) /\
    holds t' (l ++ d) r /\ stored t t'.
Proof.
  intros b d Ht [(m & Hm & Hl) Hto Hnx Hf Hrd Hr] Hn Hin Hfit. unfold recv_win_default_size in *.
  assert (Z.of_nat (length d) = n) as Hd by (subst d; rewrite bytes_at_length; lia).
  pose proof Hin as Hin'. rewrite inside_iff in Hin.
  unfold store_segment. rewrite Hm. cbv zeta. rewrite Hto, Hnx.
  assert (s32 (umin (u32 (32768 - Z.of_nat (length l))) n) = n) as ->.
  { unfold umin, u32. rewrite !(wrap_small 32) by (rewrite ?wrap_small; lia).
    destruct (Z.ltb_spec (32768 - Z.of_nat (length l)) n); [lia|]. apply sext_small; lia. }
  replace (n - n) with 0 by lia. set (w1 := set_conn c w).
  rewrite (bind_ok _ _ _ _ _ (on_rx_read _ w1 _ (rd_run (bdata b) n b Hin'))). fold d.
  set (m' := put_bytes m (Z.of_nat (length l)) d).
  assert (win_write (Block m 32768) (Z.of_nat (length l)) d w1 = Ok (Block m' 32768, w1)) as Hw.
  { unfold win_write. destruct (Nat.eqb_spec (length d) 0); [lia|]. rewrite Hd. run.
    destruct (Z.leb_spec 0 (Z.of_nat (length l))), (Z.leb_spec (Z.of_nat (length l) + n) 32768); [done|lia..]. }
  rewrite (bind_ok _ _ _ _ _ Hw).
  rewrite (bind_ok _ _ _ _ _ (on_rx_read _ w1 _ (rd_run (bdata b + n) 0 b ltac:(rewrite inside_iff; lia)))).
  rewrite (bind_ok (win_write (Block m' 32768) 0 (bytes_at (mem b) (bdata b + n) (Z.to_nat 0))) _ w1 (Block m' 32768) w1 eq_refl).
  assert (umod (u32 (Z.of_nat (length l) + n)) 32768 w1 = Ok (Z.of_nat (length l) + n, w1)) as Hu.
  { unfold umod. run. simpl. do 2 f_equal. unfold u32. rewrite !(wrap_small 32) by (rewrite ?wrap_small; lia).
    apply Z.mod_small. lia. }
  rewrite (bind_ok _ _ _ _ _ Hu). rewrite (upd_tcp_at _ c w t Ht). eexists. split; [done|]. split; [|done].
  split; simpl; unfold recv_win_default_size; rewrite ?length_app; try lia; try done.
  exists m'. split; [done|]. rewrite bytes_at_app. f_equal.
  - rewrite <- Hl at 2. apply bytes_at_same. intros x Hx. apply put_bytes_outside. lia.
  - rewrite Z.add_0_l. apply bytes_at_put.
Qed.

Lemma wired_tcp c t t' hdr :
  wired c t hdr -> header t' = header t -> 0 <= seq_ (cur t') < 2 ^ 32 -> 0 <= ack_ (cur t') < 2 ^ 32 ->
  wired (set_tcp c (Some t')) t' hdr.
Proof. intros [] Hh Hq Ha. split; try done. congruence. Qed.

(** The same connection, with times that were measured. *)
Lemma measure_run b r c w t : tcp c = Some t -> rtt_ok (rtt t) -> 0 <= r <= 2 ^ 24 ->
  exists t', when b (compute_rto r ;;
      upd_tcp (fun t => set_rtt (mkRtt (send_time (rtt t)) 0 (rttvar (rtt t)) (srtt (rtt t)) (rto (rtt t))
                                   (retry_times (rtt t))) t)) (set_conn c w)
    = Ok (tt, set_conn (set_tcp c (Some t')) w) /\ alike t t'.
Proof.
  intros Ht Hx Hr. destruct b; cbn [when]; [|exists t; by rewrite set_tcp_same].
  destruct (compute_rtt r (rtt t) Hx Hr) as (y & Hy & _). unfold compute_rto.
  rewrite bind_assoc, (bind_ok _ _ _ _ _ (the_tcp_run (set_conn c w) t Ht)).
  rewrite bind_assoc, Hy, (bind_ok (of_option (Some y)) _ (set_conn c w) y (set_conn c w) eq_refl).
  rewrite (bind_ok _ _ _ _ _ (upd_tcp_at _ c w t Ht)). set (c1 := set_tcp c _).
  rewrite (upd_tcp_at _ c1 w _ eq_refl). eexists. by split; [done|].
Qed.

(** The numbers that the segment acknowledges. *)
Definition note_acked (ack : Z) : M World unit :=
  t ← the_tcp ;
  let acked := u32 (ack - wl2 (send t)) in
  when (acked >? 0) (
    n ← umod (unack (send t) + acked) (stotal (send t)) ;
    upd_send (fun s => mkSend n (snext s) (swindow s) (wl1 s) ack (iss s) (stotal s) (remote_window_size s)) ;;
    upd_tcp (fun t => set_seq (seq_ (cur t) + acked) t) ;;
    on_buf net_buffer_clean_data).

Lemma note_acked_run ack w t hdr : wired (conn w) t hdr -> stotal (send t) <> 0 ->
  exists w' t', note_acked ack w = Ok (tt, w') /\ wired (conn w') t' hdr /\ state t' = state t /\
    recv t' = recv t /\ recv_window t' = recv_window t /\ ack_ (cur t') = ack_ (cur t) /\ sent w' = sent w.
Proof.
  intros W Hs. pose proof W as []. unfold note_acked. rewrite (bind_ok _ _ _ _ _ (the_tcp_run w t w_tcp)). cbv zeta.
  destruct (u32 (ack - wl2 (send t)) >? 0); cbn [when]; [|exists w, t; done].
  set (acked := u32 _).
  assert (umod (unack (send t) + acked) (stotal (send t)) w =
    Ok (u32 (unack (send t) + acked) mod stotal (send t), w)) as Hu.
  { unfold umod. destruct (Z.eqb_spec (stotal (send t)) 0); [done|]. done. }
  rewrite (bind_ok _ _ _ _ _ Hu). unfold upd_send.
  rewrite (bind_ok _ _ _ _ _ (upd_tcp_run _ w t w_tcp)). set (c1 := set_tcp _ _).
  rewrite (bind_ok _ _ _ _ _ (upd_tcp_at _ c1 w _ eq_refl)). set (t2 := set_seq _ _). set (c2 := set_tcp c1 (Some t2)).
  eexists _, t2. split; [by apply on_buf_at|]. split; [|done].
  refine (wired_tail (conn w) t t2 hdr (cstate (conn w)) (bdata (buffer (conn w))) W eq_refl _ _ _);
    [simpl; unfold u32; apply wrap_range; lia|done|lia].
Qed.

Lemma note_acked_zero ack w t : tcp (conn w) = Some t -> stotal (send t) = 0 -> 0 < u32 (ack - wl2 (send t)) ->
  note_acked ack w = Undef.
Proof.
  intros Ht Hs Ha. unfold note_acked. rewrite (bind_ok _ _ _ _ _ (the_tcp_run w t Ht)). cbv zeta.
  destruct (Z.gtb_spec (u32 (ack - wl2 (send t))) 0); [|lia]. cbn [when]. rewrite Hs. done.
Qed.

Section established.
Context (freq : Z).

(** What [tcp_ack_handler] does for a segment with data, up to the acknowledged numbers. *)
Definition take_data (n seq ack : Z) : M World unit :=
  t ← the_tcp ;
  w ← gets id ;
  when ((ack >=? send_seq (rtt t)) && negb (send_seq (rtt t) =? 0)) (
    compute_rto (s32 (now w - send_time (rtt t))) ;;
    upd_tcp (fun t => set_rtt (mkRtt (send_time (rtt t)) 0 (rttvar (rtt t)) (srtt (rtt t)) (rto (rtt t))
                                 (retry_times (rtt t))) t)) ;;
  t ← the_tcp ;
  store_segment t (rx w) n ;;
  upd_send (fun s => mkSend (unack s) (snext s) (swindow s) seq (wl2 s) (iss s) (stotal s) (remote_window_size s)) ;;
  upd_tcp (set_ack (seq + n)) ;;
  tcp_ack freq 0 0.

Lemma take_data_run w t hdr rhdr h n l r ack :
  let b := rx w in let d := bytes_at (mem b) (bdata b) (Z.to_nat n) in
  wired (conn w) t hdr -> arrived b rhdr n h -> 0 < n -> 0 <= h_opt h -> holds t l r ->
  Z.of_nat (length l) + n < recv_win_default_size ->
  rtt_ok (rtt t) -> 0 <= now w - send_time (rtt t) <= 2 ^ 24 ->
  exists w' t' p, take_data n (h_seq h) ack w = Ok (tt, w') /\ wired (conn w') t' hdr /\
    holds t' (l ++ d) r /\ state t' = state t /\ ack_ (cur t') = u32 (h_seq h + n) /\
    stotal (send t') = stotal (send t) /\ sent w' = sent w ++ [p].
Proof.
  intros b d W [] Hn Ho Q Hfit Hx Hnow. pose proof W as []. unfold take_data.
  rewrite (bind_ok _ _ _ _ _ (the_tcp_run w t w_tcp)), (bind_ok (gets id) _ w w w eq_refl).
  assert (s32 (now w - send_time (rtt t)) = now w - send_time (rtt t)) as -> by (apply sext_small; lia).
  destruct (measure_run ((ack >=? send_seq (rtt t)) && negb (send_seq (rtt t) =? 0)) (now w - send_time (rtt t))
    (conn w) w t w_tcp Hx Hnow) as (t1 & E1 & L1). rewrite set_conn_same in E1.
  rewrite (bind_ok _ _ _ _ _ E1). set (c1 := set_tcp (conn w) (Some t1)).
  rewrite (bind_ok _ _ _ _ _ (the_tcp_run (set_conn c1 w) t1 eq_refl)).
  destruct (store_segment_run w c1 t1 l r n eq_refl (holds_alike _ _ _ _ L1 Q) Hn
    ltac:(rewrite inside_iff; fold b; lia) Hfit) as (t2 & E2 & Q2 & S2). fold b d in E2, Q2.
  rewrite (bind_ok _ _ _ _ _ E2). set (c2 := set_tcp c1 (Some t2)). unfold upd_send.
  rewrite (bind_ok _ _ _ _ _ (upd_tcp_at _ c2 w t2 eq_refl)). set (c3 := set_tcp c2 _).
  rewrite (bind_ok _ _ _ _ _ (upd_tcp_at _ c3 w _ eq_refl)). set (t4 := set_ack _ _). set (c4 := set_tcp c3 (Some t4)).
  destruct L1, S2.
  assert (wired c4 t4 hdr) as W4.
  { refine (wired_tcp (conn w) t t4 hdr W _ _ _); simpl; [congruence|by rewrite st_cur0, k_seq|].
    unfold u32. apply wrap_range. lia. }
  destruct (tcp_ack_run freq 0 0 (set_conn c4 w) t4 hdr W4) as (w' & t' & p & E & W' & [] & Hp & P & X);
    [lia|done|destruct W4; simpl in *; lia|done|].
  exists w', t', p. pose proof s_alike as []. split; [exact E|]. split; [exact W'|].
  split; [eapply holds_alike; [exact s_alike|]; by destruct Q2|].
  rewrite k_state0, k_ack0, k_send0. simpl. split; [congruence|]. split; [done|]. split; [congruence|done].
Qed.

(** A segment with data in the order of the stream. *)
Lemma established_run w t hdr rhdr h n l r :
  let b := rx w in let d := bytes_at (mem b) (bdata b) (Z.to_nat n) in
  wired (conn w) t hdr -> arrived b rhdr n h -> 0 < n -> 0 <= h_opt h -> holds t l r ->
  0 <= h_seq h < 2 ^ 32 -> 0 <= h_ack h < 2 ^ 32 ->
  Z.of_nat (length l) + n < recv_win_default_size -> stotal (send t) <> 0 ->
  rtt_ok (rtt t) -> 0 <= now w - send_time (rtt t) <= 2 ^ 24 ->
  exists w' t' p, rx_established freq rhdr n (h_ack h) false w = Ok (tt, w') /\ wired (conn w') t' hdr /\
    holds t' (l ++ d) r /\ state t' = state t /\ ack_ (cur t') = u32 (h_seq h + n) /\ sent w' = sent w ++ [p].
Proof.
  intros b d W Ar Hn Ho Q Hq Ha Hfit Hs Hx Hnow.
  destruct (take_data_run w t hdr rhdr h n l r (h_ack h) W Ar Hn Ho Q Hfit Hx Hnow)
    as (w1 & t1 & p & E1 & W1 & Q1 & St1 & Ak1 & To1 & Se1). fold b d in Q1.
  destruct (note_acked_run (h_ack h) w1 t1 hdr W1 ltac:(congruence)) as (w2 & t2 & E2 & W2 & St2 & R2 & Rw2 & Ak2 & Se2).
  exists w2, t2, p. split; [|split; [done|split; [|split; [congruence|split; congruence]]]].
  - unfold rx_established, tcp_ack_handler. destruct Ar.
    rewrite bind_assoc, (bind_ok _ _ _ _ _ (rx32_run (rhdr + 4) (h_seq h) w ltac:(rewrite inside_iff; fold b; lia) ar_seq Hq)).
    rewrite bind_assoc, (bind_ok _ _ _ _ _ (rx32_run (rhdr + 8) (h_ack h) w ltac:(rewrite inside_iff; fold b; lia) ar_ack Ha)).
    destruct (Z.gtb_spec n 0); [|lia]. cbn [when].
    rewrite bind_assoc, (bind_ok _ _ _ _ _ E1). by rewrite (bind_ok _ _ _ _ _ E2).
  - destruct Q1 as [(m & Hm & Hl)]. split; try congruence; [exists m; split; congruence|done..].
Qed.
End established.
