(* ===== verification/TcpFacts.v ===== *)
(** * The network stack: properties *)

From stdpp Require Import base tactics list functions relations.
From S2P Require Import Prelude CMonad Net NetSum Tcp TcpWire TcpOpen TcpShake TcpStep TcpData.
Local Open Scope Z_scope.

(** The record of TCP of a connection of a host. *)
Definition host_tcp (n : Net) (i : nat) : option Tcp :=
  match conns n !! i with Some c => tcp c | None => None end.

(** The state of a connection of a host. *)
Definition in_state (n : Net) (i : nat) (s : TcpState) : Prop := exists t, host_tcp n i = Some t /\ state t = s.

(** Both ends are open, and each one expects the number that the other one sends next. *)
Definition synchronised (n n' : Net) (i j : nat) : Prop :=
  exists t t', host_tcp n i = Some t /\ host_tcp n' j = Some t' /\
    state t = TCP_STATE_ESTABLISHED /\ state t' = TCP_STATE_ESTABLISHED /\
    seq_ (cur t) = ack_ (cur t') /\ seq_ (cur t') = ack_ (cur t).

(** Two hosts before a handshake: the connections [a] and [b] are bound to ports, and no
    other connection takes their segments. *)
Record shake_ready (A B : Net) (i j : nat) (a b : Conn) (ta tb : Tcp) (hdra hdrb : Z) : Prop := {
  re_a : conns A !! i = Some a;
  re_b : conns B !! j = Some b;
  re_ready : ready a ta hdra;
  re_ready' : ready b tb hdrb;
  re_closed : state tb = TCP_STATE_CLOSED;
  re_rip : remote_ip b = ipv4_null_addr;
  re_rport : remote_port b = 0;
  re_firsta : first_others A i (endpoints (local_ip b) (local_ip a) (local_port b) (local_port a));
  re_firstb : first_others B j (endpoints (local_ip a) (local_ip b) (local_port a) (local_port b))
}.

(** C11. Two hosts complete the handshake: [tcp_listen] on one, [tcp_connect] on the other;
    the segment that it sends is accepted and answered by the listener's host, the answer
    opens the connection of the first host, and its acknowledgement opens the one of the
    listener, with sequence numbers that agree.  The frames may lie in any receive buffers;
    nothing is lost. *)
Theorem handshake (freqa freqb : Z) (fuel : nat) (kmalloc : Z -> Window) (maca macb : list Z -> option (list Z))
    (udpa udpb : list Conn) (A B : Net) (i j : nat) (a b : Conn) (ta tb : Tcp) (hdra hdrb : Z) (pair : list Z)
    (fuel_ok : (2 <= fuel)%nat)
    (maca_ok : forall ip m, maca ip = Some m -> length m = 6%nat /\ bytes m)
    (macb_ok : forall ip m, macb ip = Some m -> length m = 6%nat /\ bytes m)
    (R : shake_ready A B i j a b ta tb hdra hdrb) :
  exists B0, on_number j (tcp_listen_start kmalloc macb) B = Ok (PROTO_OK, B0) /\ in_state B0 j TCP_STATE_LISTEN /\
  exists A1 p1, on_number i (tcp_connect_start freqa maca (local_ip b) (local_port b) pair) A = Ok (tt, A1) /\
    net_sent A1 = net_sent A ++ [p1] /\ in_state A1 i TCP_STATE_SYN_SENT /\
  forall f1, carries f1 p1 ->
  exists B1 p2, ipv4_recv freqb fuel udpb (set_net_rx B0 f1) = Ok (PROTO_OK, B1) /\
    net_sent B1 = net_sent B0 ++ [p2] /\ in_state B1 j TCP_STATE_SYN_RECEIVED /\
  forall f2, carries f2 p2 ->
  exists A2 p3, ipv4_recv freqa fuel udpa (set_net_rx A1 f2) = Ok (PROTO_OK, A2) /\
    net_sent A2 = net_sent A1 ++ [p3] /\ in_state A2 i TCP_STATE_ESTABLISHED /\
  forall f3, carries f3 p3 ->
  exists B2, ipv4_recv freqb fuel udpb (set_net_rx B1 f3) = Ok (PROTO_OK, B2) /\ synchronised A2 B2 i j.
Proof.
  destruct R. pose proof (l_local _ (r_layered _ _ _ re_ready'0)) as Hlb.
  pose proof (r_port _ _ _ re_ready'0) as Hpb. pose proof re_ready0 as []. pose proof r_layered as [].
  assert (address (remote_ip b)) as Hn by (rewrite re_rip0; split; [done|repeat constructor; lia]).
  destruct (listen_start_step macb macb_ok kmalloc B j b tb hdrb)
    as (B0 & b0 & tb0 & E0 & Hb0 & P0 & St0 & O0 & Li & Lp & Ri & Rp & K0); [done..|].
  exists B0. split; [done|]. pose proof P0 as [].
  split; [exists tb0; unfold host_tcp; rewrite Hb0; done|].
  destruct (connect_step freqa fuel maca fuel_ok maca_ok A i a ta hdra (local_ip b) (local_port b) pair)
    as (A1 & a1 & ta1 & p1 & m1 & isna & E1 & S1 & I1 & Sh1 & F1 & P1 & O1 & O1' & K1); [done..|].
  exists A1, p1. split; [done|]. split; [done|].
  assert (forall n i c t hdr s q x y u v, shaking n i c t hdr s q x y u v -> host_tcp n i = Some t) as Hh.
  { intros ? ? ? ? ? ? ? ? ? ? ? [Hc [] ]. unfold host_tcp. by rewrite Hc. }
  split; [exists ta1; split; [by eapply Hh|apply Sh1]|]. intros f1 C1. rewrite F1 in C1.
  rewrite <- Li, <- Lp in *.
  destruct (listen_step freqb fuel udpb fuel_ok B0 j b0 tb0 hdrb m1 (hdra - 20) (local_ip a) (local_port a) isna f1)
    as (B1 & b1 & tb1 & p2 & m2 & isnb & E2 & S2 & I2 & Sh2 & A2q & F2 & P2 & O2 & K2);
    [done|done|done|congruence|congruence|done..|by apply K0|].
  exists B1, p2. split; [done|]. split; [done|].
  split; [exists tb1; split; [by eapply Hh|apply Sh2]|]. intros f2 C2. rewrite F2 in C2.
  destruct (syn_ack_step freqa fuel udpa fuel_ok A1 i a1 ta1 hdra isna (local_ip a) (local_ip b0) (local_port a) (local_port b0)
    m2 (hdrb - 20) isnb f2) as (A2 & a2 & ta2 & p3 & m3 & E3 & S3 & Sh3 & A3q & _ & F3 & P3);
    [done..|by rewrite O2|done|by apply K1|].
  exists A2, p3. split; [done|]. split; [done|].
  split; [exists ta2; split; [by eapply Hh|apply Sh3]|]. intros f3 C3. rewrite F3 in C3.
  destruct (ack_step freqb fuel udpb fuel_ok B1 j b1 tb1 hdrb isnb (local_ip b0) (local_ip a) (local_port b0) (local_port a)
    m3 (hdra - 20) (u32 (isna + 1)) f3) as (B2 & b2 & tb2 & E4 & Hb2 & Ht2 & St2 & _ & Q2 & Ak2);
    [done..|unfold u32; apply wrap_range; lia|done|done|by apply K2, K0|].
  exists B2. split; [done|]. exists ta2, tb2. split; [by eapply Hh|].
  split; [by unfold host_tcp; rewrite Hb2|]. split; [apply Sh3|]. split; [done|].
  rewrite Ak2, A2q, A3q, Q2. by split; [apply Sh3|].
Qed.

(** *** Hosts for the witnesses *)

(** A new connection is registered with Ethernet, IPv4 and TCP, and bound to a port. *)
Definition blank : Conn :=
  mkConn CONN_STATE_INIT (mkNetBuffer (fun _ => 0) 1792 1792 0 0 0) PHY_PROTO_NONE [] 0 NET_PROTO_NONE 0 0 0 0
    None [] 0 ipv4_null_addr 0 false TRANS_PROTO_NONE false None.

Definition heap (n : Z) : Window := Block (fun _ => 0) n.

Definition open_host (mac ip : list Z) (port : Z) : res (ProtocolResult * Net) :=
  match (on_conn (eth_register mac) ;; on_conn (ipv4_register [] (Some ip)) ;; tcp_register (Some zero_tcp))
          (mkWorld blank (mkNetBuffer (fun _ => 0) 0 0 0 0 0) 7 0 [] 0) with
  | Ok (_, w) => tcp_bind heap 0 port (mkNet [conn w] [] (rx w) (now w) (isn_counter w) (sent w) (wakes w))
  | Undef => Undef
  | NoFuel => NoFuel
  end.

Definition no_net : Net := mkNet [] [] (mkNetBuffer (fun _ => 0) 0 0 0 0 0) 0 0 [] 0.
Definition host (mac ip : list Z) (port : Z) : Net := Eval vm_compute in
  match open_host mac ip port with Ok (_, n) => n | _ => no_net end.
Definition host_conn (mac ip : list Z) (port : Z) : Conn := default blank (conns (host mac ip port) !! 0%nat).
Definition host_state (mac ip : list Z) (port : Z) : Tcp := default zero_tcp (tcp (host_conn mac ip port)).

Lemma host_ready mac ip port :
  length mac = 6%nat -> bytes mac -> address ip -> 0 <= port < 2 ^ 16 ->
  ready (host_conn mac ip port) (host_state mac ip port) 34.
Proof. intros. by split. Qed.

Definition mac1 : list Z := [2; 0; 0; 0; 0; 1].
Definition mac2 : list Z := [2; 0; 0; 0; 0; 2].
Definition ip1 : list Z := [10; 0; 0; 1].
Definition ip2 : list Z := [10; 0; 0; 2].

Ltac small_bytes := repeat constructor; lia.

Lemma handshake_witness :
  let A := host mac1 ip1 40000 in let B := host mac2 ip2 80 in
  (2 <= 2)%nat /\ shake_ready A B 0 0 (host_conn mac1 ip1 40000) (host_conn mac2 ip2 80)
    (host_state mac1 ip1 40000) (host_state mac2 ip2 80) 34 34 /\
  exists B0, on_number 0 (tcp_listen_start heap (fun _ => Some mac1)) B = Ok (PROTO_OK, B0) /\
    in_state B0 0 TCP_STATE_LISTEN.
Proof.
  assert (shake_ready (host mac1 ip1 40000) (host mac2 ip2 80) 0 0 (host_conn mac1 ip1 40000) (host_conn mac2 ip2 80)
    (host_state mac1 ip1 40000) (host_state mac2 ip2 80) 34 34) as R.
  { split; try done.
    - apply host_ready; [done|small_bytes|split; [done|small_bytes]|lia].
    - apply host_ready; [done|small_bytes|split; [done|small_bytes]|lia].
    - by exists [], [].
    - by exists [], []. }
  split; [lia|]. split; [exact R|].
  destruct (handshake 100 100 2 heap (fun _ => Some mac2) (fun _ => Some mac1) [] [] _ _ 0 0 _ _ _ _ 34 34 []
    ltac:(lia) ltac:(intros ? ? [= <-]; split; [done|small_bytes])
    ltac:(intros ? ? [= <-]; split; [done|small_bytes]) R) as (B0 & E & S & _).
  exists B0. exact (conj E S).
Defined.

(** ** Segments *)

(** C12. What [tcp_send_packet] hands to the device is accepted by [ipv4_recv] of the host it
    is for, whichever receive buffer it lies in: both checksums hold, and the connection
    that it is addressed to gets it, with the sender's sequence numbers and its data. *)
Theorem segment_delivered (freq freq' : Z) (fuel : nat) (udp_lh : list Conn) (opt : Z) (timer : bool) (w : World)
    (t : Tcp) (hdr : Z) (n : Net) (i : nat)
    (W : wired (conn w) t hdr) (Hopt : 0 <= opt <= 40 /\ opt mod 4 = 0)
    (Hlen : opt <= btail (buffer (conn w)) - (hdr + 20))
    (Hlocal : 0 <= local_port (conn w) < 2 ^ 16) (Hremote : 0 <= remote_port (conn w) < 2 ^ 16)
    (Haddr : addressee n i (endpoints (local_ip (conn w)) (remote_ip (conn w)) (local_port (conn w)) (remote_port (conn w)))) :
  let len := btail (buffer (conn w)) - (hdr + 20) - opt in
  exists w' p, tcp_send_packet freq opt timer w = Ok (tt, w') /\ sent w' = sent w ++ [p] /\
  forall f, carries f p ->
  exists b, ipv4_recv freq' fuel udp_lh (set_net_rx n f) =
      (on_number i (tcp_rx_handler freq' fuel (bdata f + 20) len (local_ip (conn w))) ;; ret PROTO_OK) (set_net_rx n b) /\
    BE2HOST_DWORD (mem_load 4 (mem b) (bdata f + 20 + 4)) = seq_ (cur t) /\
    BE2HOST_DWORD (mem_load 4 (mem b) (bdata f + 20 + 8)) = ack_ (cur t) /\
    bytes_at (mem b) (bdata b) (Z.to_nat len) = bytes_at (mem (buffer (conn w))) (hdr + 20 + opt) (Z.to_nat len).
Proof.
  intros len. destruct Hopt as [Ho Ho4]. pose proof W as [].
  destruct (tcp_send_packet_run freq opt timer w t hdr W Ho Ho4 Hlen) as (w' & t' & p & E & W' & [] & Hp & P & X).
  exists w', p. split; [done|]. split; [done|]. intros f C. rewrite Hp in C.
  replace (hdr - 34) with (hdr - 20 - 14) in C by lia. set (h := head_of _ _ _ _) in P.
  assert (head_ok h) as Hh by done.
  destruct (deliver freq' fuel udp_lh (mem (buffer (conn w'))) (hdr - 20) (btail (buffer (conn w)) - (hdr - 20)) h f i n
    ltac:(simpl; lia) Hh P C Haddr) as (b & Eb & [] & Xb).
  cbn [h_opt h_src h_seq h_ack h head_of] in *. exists b.
  split; [by replace len with (btail (buffer (conn w)) - (hdr - 20) - 40 - opt) by lia|].
  rewrite ar_seq, ar_ack, !SWAP_DWORD_involutive by done. split; [done|]. split; [done|].
  apply bytes_at_ext. intros k Hk. rewrite ar_data.
  replace (bdata f + 20 + 20 + opt + k) with (bdata f + 20 + (20 + opt + k)) by lia. rewrite Xb by lia.
  rewrite X by lia. f_equal. lia.
Qed.

(** The first host after [tcp_connect]. *)
Definition syn_world : World :=
  let w := world_of (host mac1 ip1 40000) (host_conn mac1 ip1 40000) in
  match tcp_connect_start 100 (fun _ => Some mac2) ip2 80 [] w with Ok (_, w') => w' | _ => w end.

Lemma address1 : address ip1.
Proof. split; [done|small_bytes]. Qed.
Lemma address2 : address ip2.
Proof. split; [done|small_bytes]. Qed.
Lemma bytes_mac1 : bytes mac1.
Proof. small_bytes. Qed.
Lemma bytes_mac2 : bytes mac2.
Proof. small_bytes. Qed.

Lemma syn_world_wired : exists t, wired (conn syn_world) t 34 /\ state t = TCP_STATE_SYN_SENT /\
  local_ip (conn syn_world) = ip1 /\ local_port (conn syn_world) = 40000 /\
  remote_ip (conn syn_world) = ip2 /\ remote_port (conn syn_world) = 80.
Proof.
  set (w := world_of (host mac1 ip1 40000) (host_conn mac1 ip1 40000)).
  assert (ready (conn w) (host_state mac1 ip1 40000) 34) as Hr
    by (apply host_ready; [done|exact bytes_mac1|exact address1|lia]).
  destruct (tcp_connect_start_run 100 (fun _ => Some mac2) ltac:(intros ? ? [= <-]; split; [done|exact bytes_mac2])
    w (host_state mac1 ip1 40000) 34 ip2 80 [] Hr address2 ltac:(lia))
    as (w' & t' & m & E & W & St & _ & _ & Li & Lp & Ri & Rp & _).
  assert (syn_world = w') as -> by (unfold syn_world; fold w; cbv zeta; by rewrite E).
  exists t'. exact (conj W (conj St (conj Li (conj Lp (conj Ri Rp))))).
Qed.

Lemma wired_length c t hdr : wired c t hdr -> 0 <= btail (buffer c) - (hdr + 20).
Proof. intros []. lia. Qed.

Lemma segment_delivered_witness :
  exists t, wired (conn syn_world) t 34 /\
  exists w' p, tcp_send_packet 100 0 true syn_world = Ok (tt, w') /\ sent w' = sent syn_world ++ [p].
Proof.
  assert (0 <= 0 <= 40 /\ 0 mod 4 = 0) as Ho by done.
  assert (0 <= 40000 < 2 ^ 16) as H1 by lia. assert (0 <= 80 < 2 ^ 16) as H2 by lia.
  assert (addressee (host mac2 ip2 80) 0 (endpoints ip1 ip2 40000 80)) as Ha
    by (split; [by exists [], []|by exists (host_conn mac2 ip2 80)]).
  destruct syn_world_wired as (t & W & _ & Li & Lp & Ri & Rp). exists t. split; [exact W|].
  rewrite <- Li, <- Lp, <- Ri, <- Rp in Ha. rewrite <- Lp in H1. rewrite <- Rp in H2.
  destruct (segment_delivered 100 100 2 [] 0 true syn_world t 34 (host mac2 ip2 80) 0 W Ho
    (wired_length _ _ _ W) H1 H2 Ha) as (w' & p & E & S & _).
  exists w', p. exact (conj E S).
Defined.

(** ** Checksums *)

(** C14. The checksums are the ones of RFC 1071, over the bytes in network order with the field
    of the checksum cleared: of the header for IPv4, of the message for ICMP when its length
    is even, of pseudo header and segment for TCP, and of pseudo header and datagram for UDP.
    The code of TCP returns the value in the order of the host, the others in the order of
    the network. *)
Theorem checksums_exact (b : NetBuffer) (hdr len : Z) (src dst : list Z)
    (Hm : byte_mem (mem b)) (Hlen : 20 <= len < 2 ^ 16) (Hin : inside hdr len b = true)
    (Hsrc : address src) (Hdst : address dst) :
  let data b := bytes_at (mem b) hdr (Z.to_nat len) in
  ipv4_checksum hdr b =
    Ok (tt, with_mem (mem_store 2 (mem (clear_at (hdr + 10) b)) (hdr + 10)
      (HOST2BE_WORD (inet_checksum (bytes_at (mem (clear_at (hdr + 10) b)) hdr 20)))) b) /\
  (len mod 2 = 0 ->
    icmp_checksum hdr len b = Ok (HOST2BE_WORD (inet_checksum (data (clear_at (hdr + 2) b))), clear_at (hdr + 2) b)) /\
  tcp_checksum hdr len src dst b =
    Ok (inet_checksum (pseudo_header src dst IP_PROTO_TCP len ++ data (clear_at (hdr + 16) b)), clear_at (hdr + 16) b) /\
  (btail b - bdata b = len -> mem b (hdr + 4) = len / 256 -> mem b (hdr + 5) = len mod 256 ->
    udp_checksum src dst hdr b =
      Ok (HOST2BE_WORD (inet_checksum (pseudo_header src dst IP_PROTO_UDP len ++ data (clear_at (hdr + 6) b))),
          clear_at (hdr + 6) b)).
Proof.
  intros data. split; [|split; [|split]].
  - rewrite ipv4_checksum_run by (done || (rewrite inside_iff in *; lia)). done.
  - intros H2. by apply icmp_checksum_run; [|lia|..].
  - by apply tcp_checksum_run; [|lia|..].
  - intros Hl H4 H5. rewrite udp_checksum_run by (done || congruence || lia). rewrite Hl.
    assert (256 * mem (clear_at (hdr + 6) b) (hdr + 4) + mem (clear_at (hdr + 6) b) (hdr + 5) = len) as ->; [|done].
    cbn [clear_at with_mem mem]. rewrite !mem_store_outside, H4, H5 by lia. pose proof (Z.div_mod len 256). lia.
Qed.

Definition zeros (n : Z) : NetBuffer := mkNetBuffer (fun _ => 0) n n 0 0 0.

Lemma checksums_exact_witness :
  byte_mem (mem (zeros 20)) /\ inside 0 20 (zeros 20) = true /\
  icmp_checksum 0 20 (zeros 20) = Ok (0xffff, clear_at 2 (zeros 20)).
Proof.
  assert (byte_mem (mem (zeros 20))) as Hm by (intros x; simpl; lia).
  split; [exact Hm|]. split; [reflexivity|].
  rewrite (proj1 (proj2 (checksums_exact (zeros 20) 0 20 ip1 ip2 Hm ltac:(lia) eq_refl address1 address2)) eq_refl).
  reflexivity.
Defined.

(** ** Options *)

Lemma rx32_reads off w : inside off 4 (rx w) = true -> exists v, rx32 off w = Ok (v, w).
Proof.
  intros H. unfold rx32. eexists. rewrite (bind_ok _ _ _ _ _ (on_rx_read _ w _ (ld_run 4 off (rx w) H))). done.
Qed.

(** C27. The loop over the options of a segment ends unless it meets an option of length zero,
    in at most 41 turns, and with an index that is at least [TOI_MAX]: the size of segments
    that the other host announces is never taken.  With an option of length zero the handler
    of the segment does not end. *)
Theorem options_terminate (freq : Z) (w : World) (t : Tcp) (hdr : Z)
    (Ht : tcp (conn w) = Some t) (Hm : byte_mem (mem (rx w)))
    (Hin : inside hdr (20 + Z.max 0 (options_size w hdr)) (rx w) = true) :
  let zero := zero_option (opt w (hdr + 20)) (options_size w hdr) 0 in
  (~ zero -> forall fuel, (41 <= fuel)%nat ->
     exists i, tcp_options_handler fuel hdr w = Ok (i, w) /\ take_mss hdr i w = Ok (tt, w)) /\
  (zero -> forall fuel n src, tcp_rx_handler freq fuel hdr n src w = NoFuel).
Proof.
  intros zero. split.
  - intros Hz fuel Hf. destruct (options_handler_halts fuel hdr w Hm Hin Hf Hz) as (i & E & Hi).
    exists i. split; [done|]. unfold take_mss. destruct (Z.ltb_spec i TOI_MAX); [lia|done].
  - intros Hz fuel n src. pose proof Hin as Hin'. rewrite inside_iff in Hin. unfold tcp_rx_handler.
    rewrite (bind_ok _ _ _ _ _ (rx8_run (hdr + 13) w ltac:(rewrite inside_iff; lia))).
    destruct (rx32_reads (hdr + 4) w ltac:(rewrite inside_iff; lia)) as (seq & E1). rewrite (bind_ok _ _ _ _ _ E1).
    destruct (rx32_reads (hdr + 8) w ltac:(rewrite inside_iff; lia)) as (ack & E2). rewrite (bind_ok _ _ _ _ _ E2).
    cbv zeta. destruct (flag _ TCP_FLAG_RST); cbn [when].
    + unfold set_conn_state. rewrite bind_assoc, (bind_ok _ _ _ _ _ (upd_tcp_run _ w t Ht)), (bind_ok _ _ _ _ _ (on_conn_at _ _ w _ _ eq_refl)).
      unfold bind at 1. by rewrite options_handler_hangs.
    + rewrite (bind_ok (ret tt) _ w tt w eq_refl). unfold bind at 1. by rewrite options_handler_hangs.
Qed.

(** A world with one connection that has a record of TCP, and a segment in the receive buffer. *)
Definition plain_conn : Conn := set_tcp blank (Some zero_tcp).
Definition plain_world (m : Z -> Z) : World := mkWorld plain_conn (mkNetBuffer m 64 64 0 0 0) 7 0 [] 0.

(** The only option has the kind 3 and the length 0. *)
Definition zero_length_option (a : Z) : Z := if a =? 12 then 0x60 else if a =? 20 then 3 else 0.

Lemma options_terminate_witness :
  let w := plain_world zero_length_option in
  tcp (conn w) = Some zero_tcp /\ byte_mem (mem (rx w)) /\ options_size w 0 = 4 /\
  forall fuel, tcp_rx_handler 100 fuel 0 0 ip1 w = NoFuel.
Proof.
  assert (byte_mem zero_length_option) as Hm.
  { intros x. unfold zero_length_option. repeat case_match; lia. }
  split; [reflexivity|]. split; [exact Hm|]. split; [reflexivity|]. intros fuel.
  apply (options_terminate 100 (plain_world zero_length_option) zero_tcp 0 eq_refl Hm eq_refl).
  apply zero_here; [reflexivity|split; intros [=]|reflexivity].
Defined.

(** ** States *)

(** C25. A segment takes a connection along the arrows of the diagram in tcp.h or resets it:
    whenever the handler returns, the state is the one before, or the one at the end of an
    arrow for the flags of the segment ([segment_arrow]), or CLOSED after a reset, which
    happens only as [segment_resets] says.  The arrows for a SYN in LISTEN and for a FIN are
    always taken.  Against the diagram, any segment in CLOSE_WAIT or TIME_WAIT closes the
    connection. *)
Theorem segment_diagram (freq : Z) (fuel : nat) (hdr n : Z) (src : list Z) (w w' : World) (t : Tcp)
    (Ht : tcp (conn w) = Some t) (E : tcp_rx_handler freq fuel hdr n src w = Ok (tt, w')) :
  let flags := mem (rx w) (hdr + 13) in
  let rst := flag flags TCP_FLAG_RST in
  let syn := flag flags TCP_FLAG_SYN in
  let ack := flag flags TCP_FLAG_ACK in
  let fin := flag flags TCP_FLAG_FIN in
  exists t', tcp (conn w') = Some t' /\
    (state t' = state t \/ segment_arrow syn ack fin (state t) (state t') = true \/
      state t' = TCP_STATE_CLOSED /\ segment_resets rst syn ack (state t) = true) /\
    (rst = false -> state t = TCP_STATE_LISTEN -> syn = true -> state t' = TCP_STATE_SYN_RECEIVED) /\
    (rst = false -> state t = TCP_STATE_ESTABLISHED -> fin = true -> state t' = TCP_STATE_CLOSE_WAIT) /\
    (rst = false -> state t = TCP_STATE_FIN_WAIT1 -> fin = true -> state t' = TCP_STATE_CLOSING) /\
    (rst = false -> state t = TCP_STATE_FIN_WAIT2 -> fin = true -> state t' = TCP_STATE_TIME_WAIT) /\
    (state t = TCP_STATE_CLOSE_WAIT \/ state t = TCP_STATE_TIME_WAIT -> state t' = TCP_STATE_CLOSED).
Proof.
  intros flags rst syn ack fin. destruct (rx_handler_states freq fuel hdr n src w t w' Ht E) as (t' & Ht' & Hs & _).
  exists t'. split; [done|]. by apply next_states_diagram.
Qed.

(** C26. The state LAST_ACK, which the diagram in tcp.h has between CLOSE_WAIT and CLOSED, is
    never reached: no sequence of operations on a connection (segments with any content, the
    timer, calls of the users, the messages of ICMP for unreachable hosts and for a new MTU)
    takes it there, since a shutdown in CLOSE_WAIT leads to FIN_WAIT1.  The count of retries
    never goes down. *)
Theorem no_last_ack (freq : Z) (kmalloc : Z -> Window) (lookup_mac : list Z -> option (list Z)) (w w' : World) (t : Tcp)
    (H : rtc (tcp_step freq kmalloc lookup_mac) w w') (Ht : tcp (conn w) = Some t)
    (Hs : state t <> TCP_STATE_LAST_ACK) :
  exists t', tcp (conn w') = Some t' /\ state t' <> TCP_STATE_LAST_ACK /\ retry_times (rtt t) <= retry_times (rtt t').
Proof.
  assert (tcp_in (never_last (retry_times (rtt t))) w) as HI by (exists t; split; [done|split; [done|lia]]).
  clear Ht Hs. set (r0 := retry_times (rtt t)) in *. clearbody r0. induction H as [w|w w1 w2 H1 _ IH]; [by destruct HI as (t' & ? & ? & ?); eauto|].
  apply IH. by eapply step_keeps.
Qed.

Lemma no_last_ack_witness :
  exists w', rtc (tcp_step 100 heap (fun _ => Some mac2)) (plain_world (fun _ => 0)) w' /\
  exists t', tcp (conn w') = Some t' /\ state t' <> TCP_STATE_LAST_ACK.
Proof.
  assert (tcp_step 100 heap (fun _ => Some mac2) (plain_world (fun _ => 0))
    (mkWorld plain_conn (mkNetBuffer (fun _ => 0) 64 64 0 0 0) 8 0 [] 0)) as H by (by apply step_tick with (n := 8)).
  eexists. split; [exact (rtc_once _ _ H)|].
  destruct (no_last_ack 100 heap (fun _ => Some mac2) _ _ zero_tcp (rtc_once _ _ H) eq_refl ltac:(intros [=]))
    as (t' & H1 & H2 & _).
  exists t'. exact (conj H1 H2).
Defined.

(** ** Errors *)






(** C31. A segment that acknowledges something is undefined in the state ESTABLISHED as long as
    [tcp_opened] has not set the size of the send window: a division by zero. *)
Theorem early_ack_divides (freq : Z) (fuel : nat) (w : World) (t : Tcp) (hdr : Z) (h : Head) (src : list Z) (i : Z)
    (Ht : tcp (conn w) = Some t) (Hs : state t = TCP_STATE_ESTABLISHED) (Hz : stotal (send t) = 0)
    (Har : arrived (rx w) hdr 0 h) (Hopt : 0 <= h_opt h) (Hseq : 0 <= h_seq h < 2 ^ 32) (Hack : 0 <= h_ack h < 2 ^ 32)
    (Hrst : flag (h_flags h) TCP_FLAG_RST = false) (Hi : tcp_options_handler fuel hdr w = Ok (i, w))
    (Hnew : h_ack h <> wl2 (send t)) (Hwl : 0 <= wl2 (send t) < 2 ^ 32) :
  tcp_rx_handler freq fuel hdr 0 src w = Undef.
Proof.
  rewrite (rx_handler_run freq fuel w t hdr 0 h src i) by (done || lia). rewrite Hs.
  assert (note_acked (h_ack h) w = Undef) as HU.
  { apply (note_acked_zero _ _ t Ht Hz). pose proof (wrap_range 32 (h_ack h - wl2 (send t)) ltac:(lia)) as Hr.
    unfold u32 in *. destruct (decide (wrap 32 (h_ack h - wl2 (send t)) = 0)) as [E|]; [|lia].
    unfold wrap in E. apply Z.mod_divide in E as [q E]; [|lia]. assert (q = 0) by lia. lia. }
  unfold rx_established, tcp_ack_handler. destruct Har.
  assert (forall off v, mem_load 4 (mem (rx w)) off = HOST2BE_DWORD v -> 0 <= v < 2 ^ 32 ->
    0 <= off <= hdr + 16 -> rx32 off w = Ok (v, w)) as Hrd.
  { intros off v Hv Hb Ho. apply rx32_run; [rewrite inside_iff; lia|done..]. }
  rewrite !bind_assoc, (bind_ok _ _ _ _ _ (Hrd (hdr + 4) (h_seq h) ar_seq Hseq ltac:(lia))).
  rewrite !bind_assoc, (bind_ok _ _ _ _ _ (Hrd (hdr + 8) (h_ack h) ar_ack Hack ltac:(lia))).
  unfold when at 1. rewrite !bind_assoc. cbn [Z.gtb Z.compare]. rewrite (bind_ok (ret tt) _ w tt w eq_refl).
  unfold bind at 1. fold (note_acked (h_ack h)). by rewrite HU.
Qed.

(** ** Times *)

(** C39. A sequence of round-trip times, each of them between 0 and 2^24, is computed
    without overflow if the smoothed time and the variance are in that range at the
    beginning, and after a measurement that is not zero the timeout of retransmission is
    between one second and one minute. *)
Theorem rto_bounds (x : Rtt) (rs : list Z) (r : Z)
    (Hx : rtt_ok x) (Hrs : Forall (fun r => 0 <= r <= 2 ^ 24) rs) (Hr : 0 < r <= 2 ^ 24) :
  exists y z, foldl (fun o r => o ≫= tcp_compute_retransmission_timer r) (Some x) rs = Some y /\
    tcp_compute_retransmission_timer r y = Some z /\ rtt_ok z /\ 1000 <= rto z <= 60000.
Proof.
  revert x Hx. induction Hrs as [|r1 rs Hr1 _ IH]; intros x Hx.
  - destruct (compute_rtt r x Hx ltac:(lia)) as (z & E & Hz & _ & _ & _ & Hb). exists x, z.
    split; [done|]. split; [done|]. split; [done|]. apply Hb. lia.
  - destruct (compute_rtt r1 x Hx Hr1) as (y & E & Hy & _). cbn [foldl mbind option_bind]. rewrite E. by apply IH.
Qed.

Lemma rto_bounds_witness :
  let x := mkRtt 0 0 0 0 0 0 in
  rtt_ok x /\ exists y z, foldl (fun o r => o ≫= tcp_compute_retransmission_timer r) (Some x) [30; 0; 250] = Some y /\
    tcp_compute_retransmission_timer 9000 y = Some z /\ 1000 <= rto z <= 60000.
Proof.
  assert (rtt_ok (mkRtt 0 0 0 0 0 0)) as Hx by (split; simpl; lia). split; [exact Hx|].
  destruct (rto_bounds _ [30; 0; 250] 9000 Hx ltac:(repeat constructor; lia) ltac:(lia)) as (y & z & E1 & E2 & _ & B).
  exists y, z. exact (conj E1 (conj E2 B)).
Defined.

(** ** The stream of bytes *)

(** A connection that is open takes a segment. *)
Record open_for (w : World) (t : Tcp) (hdr rhdr n : Z) (h : Head) (l : list Z) (r : Z) : Prop := {
  of_wired : wired (conn w) t hdr;
  of_state : state t = TCP_STATE_ESTABLISHED;
  of_opened : stotal (send t) <> 0;
  of_queue : holds t l r;
  of_rtt : rtt_ok (rtt t);
  of_now : 0 <= now w - send_time (rtt t) <= 2 ^ 24;
  of_arrived : arrived (rx w) rhdr n h;
  of_size : 0 < n;
  of_fits : Z.of_nat (length l) + n < recv_win_default_size;
  of_opt : 0 <= h_opt h;
  of_seq : 0 <= h_seq h < 2 ^ 32;
  of_ack : 0 <= h_ack h < 2 ^ 32;
  of_rst : flag (h_flags h) TCP_FLAG_RST = false;
  of_fin : flag (h_flags h) TCP_FLAG_FIN = false
}.

Lemma stream_run freq fuel w t hdr rhdr n h l r src i :
  open_for w t hdr rhdr n h l r -> tcp_options_handler fuel rhdr w = Ok (i, w) ->
  exists w' t' p, tcp_rx_handler freq fuel rhdr n src w = Ok (tt, w') /\ tcp (conn w') = Some t' /\
    state t' = TCP_STATE_ESTABLISHED /\
    holds t' (l ++ bytes_at (mem (rx w)) (bdata (rx w)) (Z.to_nat n)) r /\
    ack_ (cur t') = u32 (h_seq h + n) /\ sent w' = sent w ++ [p].
Proof.
  intros [] Hi. pose proof of_wired0 as [].
  destruct (established_run freq w t hdr rhdr h n l r) as (w1 & t1 & p & E & W1 & Q1 & S1 & A1 & P1); [done..|].
  exists (mkWorld (conn w1) (rx w1) (now w1) (isn_counter w1) (sent w1) (S (wakes w1))), t1, p.
  split; [|split; [apply W1|split; [congruence|done]]].
  rewrite (rx_handler_run freq fuel w t rhdr n h src i) by (done || lia). rewrite of_state0, of_fin0.
  by rewrite (bind_ok _ _ _ _ _ E).
Qed.


(** An open connection, and a segment with one byte. *)
Definition letter (a : Z) : Z := if a =? 12 then 0x50 else if a =? 13 then 0x10 else if a =? 20 then 65 else 0.
Definition letter_head : Head := mkHead ip2 ip1 0 0 0 0 0x10 0.
Definition opened_tcp (size : Z) (t : Tcp) : Tcp :=
  set_state TCP_STATE_ESTABLISHED
    (set_send (mkSend 0 0 0 0 1 0 size 0)
      (set_recv (mkRecv 0 32768 0 recv_win_default_size 0)
        (set_recv_window (heap recv_win_default_size) (set_rtt (mkRtt 7 0 0 0 1000 0) t)))).
Definition open_world (size : Z) (t : Tcp) : World :=
  mkWorld (set_tcp (conn syn_world) (Some (opened_tcp size t))) (mkNetBuffer letter 64 64 0 20 21) 7 0 [] 0.

Lemma letter_bytes : byte_mem letter.
Proof. intros x. unfold letter. repeat case_match; lia. Qed.

Lemma letter_arrived size t n : 0 <= n <= 1 -> arrived (rx (open_world size t)) 0 n letter_head.
Proof.
  intros Hn. split; [exact letter_bytes|simpl; lia|reflexivity..].
Qed.

Lemma letter_options freq size t : tcp_options_handler freq 0 (open_world size t) = Ok (TOI_MAX, open_world size t).
Proof. reflexivity. Qed.

Lemma open_world_ok : exists t, open_for (open_world 1000 t) (opened_tcp 1000 t) 34 0 1 letter_head [] 0.
Proof.
  assert (holds (opened_tcp 1000 zero_tcp) [] 0) as Q.
  { split; [by eexists|reflexivity..|simpl; lia]. }
  assert (rtt_ok (mkRtt 7 0 0 0 1000 0)) as R by (split; simpl; lia).
  assert (0 <= 7 - 7 <= 2 ^ 24) as N by lia.
  assert (forall t, arrived (rx (open_world 1000 t)) 0 1 letter_head) as Ar by (intros t; apply letter_arrived; lia).
  destruct syn_world_wired as (t & W & _). specialize (Ar t). exists t. split.
  - exact (wired_tcp (conn syn_world) t (opened_tcp 1000 t) 34 W eq_refl (w_seq _ _ _ W) (w_ack _ _ _ W)).
  - reflexivity.
  - intros [=].
  - destruct Q as [a b c d e f]. exact (Build_holds (opened_tcp 1000 t) [] 0 a b c d e f).
  - exact R.
  - exact N.
  - exact Ar.
  - reflexivity.
  - reflexivity.
  - exact (Z.le_refl 0).
  - split; [exact (Z.le_refl 0)|reflexivity].
  - split; [exact (Z.le_refl 0)|reflexivity].
  - reflexivity.
  - reflexivity.
Qed.


Lemma segment_diagram_witness :
  exists t w', tcp_rx_handler 100 2 0 1 ip2 (open_world 1000 t) = Ok (tt, w') /\
  exists t', tcp (conn w') = Some t' /\ state t' = TCP_STATE_ESTABLISHED.
Proof.
  destruct open_world_ok as (t & O). exists t.
  destruct (stream_run 100 2 _ _ _ _ _ _ _ _ ip2 TOI_MAX O (letter_options 2 1000 t)) as (w' & _ & _ & E & _).
  exists w'. split; [exact E|].
  destruct (segment_diagram 100 2 0 1 ip2 (open_world 1000 t) w' (opened_tcp 1000 t) eq_refl E) as (t' & Ht & Hs & _).
  exists t'. split; [exact Ht|]. destruct Hs as [Hs|[Hs|[_ Hs]]]; [exact Hs| |discriminate Hs].
  destruct (state t'); discriminate Hs.
Defined.

Lemma early_ack_divides_witness :
  tcp_rx_handler 100 2 0 0 ip2 (open_world 0 zero_tcp) = Undef.
Proof.
  assert (0 <= 0 < 2 ^ 32) as H0 by lia. assert (0 <= 1 < 2 ^ 32) as H1 by lia. assert (0 <> 1) as Hn by lia.
  assert (0 <= 0 <= 1) as Hz by lia.
  exact (early_ack_divides 100 2 (open_world 0 zero_tcp) (opened_tcp 0 zero_tcp) 0 letter_head ip2 TOI_MAX eq_refl eq_refl
    eq_refl (letter_arrived 0 zero_tcp 0 Hz) (Z.le_refl 0) H0 H0 eq_refl (letter_options 2 0 zero_tcp) Hn H1).
Defined.
