(* ===== verification/Arp.v ===== *)
(** * Neighbours, ARP and address conflicts

    src/driver/network/neighbour.c, protocols/ipv4/arp.c, protocols/ipv4/acd.c, the
    functions of ipv4.c that use the table of neighbours, and the reception of Ethernet
    frames.  The state is one host: its device with the table, and its connections.  The
    operations are those of one thread at a time; [ArpThreads] interleaves their critical
    sections. *)

From stdpp Require Import base tactics list.
From S2P Require Import Prelude CMonad Net Tcp.
Local Open Scope Z_scope.

(** ** State *)

Inductive NeighbourState : Type :=
| NEIGH_STATE_NONE | NEIGH_STATE_WAITING | NEIGH_STATE_REACHABLE | NEIGH_STATE_STALE | NEIGH_STATE_FAILED.
Inductive NetworkDeviceType : Type := NETWORK_TYPE_UNKNOWN | NETWORK_TYPE_ETHERNET.
Inductive AcdState : Type := ACD_STATE_NONE | ACD_STATE_PROBE | ACD_STATE_ANNOUNCE | ACD_STATE_CONFLICT.

#[global] Instance NeighbourState_eq_dec : EqDecision NeighbourState.
Proof. solve_decision. Defined.
#[global] Instance AcdState_eq_dec : EqDecision AcdState.
Proof. solve_decision. Defined.

(** [ip_length] is the length of the address; [ops] says whether the operations are set. *)
Record NeighbourEntry : Type := mkEntry {
  e_lock : bool; key : Z; e_state : NeighbourState; hlen : Z; haddr : list Z; ops : bool; ip_addr : list Z
}.

(** The entries are numbered in the order of their creation; a bucket lists numbers. *)
Record Device : Type := mkDevice {
  dtype : NetworkDeviceType; mac_addr : list Z;
  dev_ip : list Z; subnet_mask : list Z; gateway_ip : list Z;
  arp_buffer : NetBuffer;
  acd_timer : Timer; probe_count : Z; announce_count : Z; acd_state : AcdState;
  acd_conflict_callback : bool; conflicts : nat;
  entries : list NeighbourEntry; buckets : list (list nat)
}.

Record Host : Type := mkHost { dev : Device; net : Net }.

Section setters.
Context (d : Device).
Definition set_dev_ip (ip mask gw : list Z) : Device :=
  mkDevice (dtype d) (mac_addr d) ip mask gw (arp_buffer d) (acd_timer d) (probe_count d) (announce_count d)
    (acd_state d) (acd_conflict_callback d) (conflicts d) (entries d) (buckets d).
Definition set_arp_buffer (b : NetBuffer) : Device :=
  mkDevice (dtype d) (mac_addr d) (dev_ip d) (subnet_mask d) (gateway_ip d) b (acd_timer d) (probe_count d)
    (announce_count d) (acd_state d) (acd_conflict_callback d) (conflicts d) (entries d) (buckets d).
Definition set_acd (t : Timer) (p a : Z) (s : AcdState) : Device :=
  mkDevice (dtype d) (mac_addr d) (dev_ip d) (subnet_mask d) (gateway_ip d) (arp_buffer d) t p a s
    (acd_conflict_callback d) (conflicts d) (entries d) (buckets d).
Definition set_conflicts (k : nat) : Device :=
  mkDevice (dtype d) (mac_addr d) (dev_ip d) (subnet_mask d) (gateway_ip d) (arp_buffer d) (acd_timer d)
    (probe_count d) (announce_count d) (acd_state d) (acd_conflict_callback d) k (entries d) (buckets d).
Definition set_table (l : list NeighbourEntry) (bs : list (list nat)) : Device :=
  mkDevice (dtype d) (mac_addr d) (dev_ip d) (subnet_mask d) (gateway_ip d) (arp_buffer d) (acd_timer d)
    (probe_count d) (announce_count d) (acd_state d) (acd_conflict_callback d) (conflicts d) l bs.
End setters.

Definition upd_dev (f : Device -> Device) : M Host unit := modify (fun h => mkHost (f (dev h)) (net h)).

Definition on_net {A} (m : M Net A) : M Host A := fun h =>
  match m (net h) with
  | Ok (a, n) => Ok (a, mkHost (dev h) n)
  | Undef => Undef
  | NoFuel => NoFuel
  end.
Definition on_frame {A} (m : M NetBuffer A) : M Host A := on_net (on_net_rx m).
Definition on_arp {A} (m : M NetBuffer A) : M Host A := fun h =>
  match m (arp_buffer (dev h)) with
  | Ok (a, b) => Ok (a, mkHost (set_arp_buffer (dev h) b) (net h))
  | Undef => Undef
  | NoFuel => NoFuel
  end.

(** [device->ops->send]. *)
Definition dev_send (p : list Z) : M Host unit :=
  on_net (modify (fun n => mkNet (conns n) (tcp_lh n) (net_rx n) (net_now n) (net_isn n) (net_sent n ++ [p]) (net_wakes n))).

(** ** neighbour.c *)

Definition neighbour_init : M Host unit :=
  upd_dev (fun d => set_table d (entries d) (replicate (Z.to_nat NEIGH_BUCKET_SIZE) [])).

Definition entry_at (i : nat) : M Host NeighbourEntry := h ← gets id ; of_option (entries (dev h) !! i).
Definition upd_entry (i : nat) (f : NeighbourEntry -> NeighbourEntry) : M Host unit :=
  e ← entry_at i ; upd_dev (fun d => set_table d (<[i := f e]> (entries d)) (buckets d)).

Definition set_lock (l : bool) (e : NeighbourEntry) : NeighbourEntry :=
  mkEntry l (key e) (e_state e) (hlen e) (haddr e) (ops e) (ip_addr e).
Definition set_e_state (s : NeighbourState) (e : NeighbourEntry) : NeighbourEntry :=
  mkEntry (e_lock e) (key e) s (hlen e) (haddr e) (ops e) (ip_addr e).
Definition set_hlen (n : Z) (e : NeighbourEntry) : NeighbourEntry :=
  mkEntry (e_lock e) (key e) (e_state e) n (haddr e) (ops e) (ip_addr e).
(** The first bytes of the array are replaced. *)
Definition set_haddr (a : list Z) (e : NeighbourEntry) : NeighbourEntry :=
  mkEntry (e_lock e) (key e) (e_state e) (hlen e) (a ++ drop (length a) (haddr e)) (ops e) (ip_addr e).

(** [spin_lock] does not return while the lock is taken. *)
Definition spin_lock (i : nat) : M Host unit :=
  e ← entry_at i ; if e_lock e then no_fuel else upd_entry i (set_lock true).
Definition spin_unlock (i : nat) : M Host unit := upd_entry i (set_lock false).

Definition bucket (k : Z) : M Host (list nat) := h ← gets id ; of_option (buckets (dev h) !! Z.to_nat k).

Section neighbours.
(** Whether [kzalloc] has memory, and the argument of [udp_recv] and [tcp_recv]. *)
Context (kzalloc_ok : bool).

Definition neighbour_entry_create (hash_key : Z) (addr : list Z) : M Host (option nat) :=
  if kzalloc_ok then
    let hash_key := hash_key mod NEIGH_BUCKET_SIZE in
    h ← gets id ;
    let e := mkEntry false hash_key NEIGH_STATE_NONE 0 (replicate 8 0)
               (match dtype (dev h) with NETWORK_TYPE_ETHERNET => true | NETWORK_TYPE_UNKNOWN => false end) addr in
    let i := length (entries (dev h)) in
    l ← bucket hash_key ;
    upd_dev (fun d => set_table d (entries d ++ [e]) (<[Z.to_nat hash_key := l ++ [i]]> (buckets d))) ;;
    ret (Some i)
  else ret None.

Fixpoint find_entry (ip : list Z) (l : list nat) : M Host (option nat) :=
  match l with
  | [] => ret None
  | i :: l => e ← entry_at i ; if bool_decide (ip_addr e = ip) then ret (Some i) else find_entry ip l
  end.

Definition neighbour_table_try_lookup (hash_key : Z) (ip : list Z) : M Host (option nat) :=
  l ← bucket (hash_key mod NEIGH_BUCKET_SIZE) ; find_entry ip l.

(** ** arp.c: requests *)

(** The message: who asks, and for which addresses. *)
Definition arp_fill (src_h src_p dst_p : list Z) : M NetBuffer unit :=
  net_buffer_reset ;;
  b ← gets id ;
  let hdr := bdata b in
  st 2 hdr (HOST2BE_WORD 1) ;;
  st 2 (hdr + 2) (HOST2BE_WORD ETH_PROTO_TYPE_IPV4) ;;
  st 1 (hdr + 4) 6 ;;
  st 1 (hdr + 5) 4 ;;
  st 2 (hdr + 6) (HOST2BE_WORD 1) ;;
  wr (hdr + 8) src_h ;;
  wr (hdr + 14) src_p ;;
  wr (hdr + 18) (replicate 6 0) ;;
  wr (hdr + 24) dst_p ;;
  _ ← net_buffer_put 28 ;
  _ ← eth_wrap src_h eth_broadcast_mac ETH_PROTO_TYPE_ARP ;
  ret tt.

Definition arp_network_send : M Host unit :=
  p ← on_arp (b ← gets id ; rd (bhead b) (btail b - bhead b)) ; dev_send p.

Definition arp_send_request (i : nat) : M Host unit :=
  h ← gets id ;
  e ← entry_at i ;
  defined_if (4 <=? length (ip_addr e))%nat ;;
  on_arp (arp_fill (mac_addr (dev h)) (dev_ip (dev h)) (take 4 (ip_addr e))) ;;
  upd_entry i (set_e_state NEIGH_STATE_WAITING) ;;
  arp_network_send.

Definition arp_announce (ip : list Z) : M Host unit :=
  h ← gets id ;
  on_arp (arp_fill (mac_addr (dev h)) ip ip) ;;
  arp_network_send.

(** Without memory the null pointer is dereferenced, and so are operations not set.  The lock
    of the bucket is held during the search and during the insertion, not in between; what
    other threads do there is the subject of [ArpThreads]. *)
Definition neighbour_table_lookup (hash_key : Z) (ip : list Z) : M Host nat :=
  r ← neighbour_table_try_lookup hash_key ip ;
  match r with
  | Some i => ret i
  | None =>
    r ← neighbour_entry_create hash_key ip ;
    i ← of_option r ;
    e ← entry_at i ;
    defined_if (ops e) ;;
    arp_send_request i ;;
    ret i
  end.

(** ** acd.c *)

Definition ACD_PROBE_WAIT : Z := 1.
Definition ACD_PROBE_NUM : Z := 3.
Definition ACD_PROBE_MIN : Z := 1.
Definition ACD_ANNOUNCE_WAIT : Z := 2.
Definition ACD_ANNOUNCE_NUM : Z := 2.
Definition ACD_ANNOUNCE_INTERVAL : Z := 2.

(** The timer is set, and the counts and the state. *)
Definition acd_arm (ticks p a : Z) (s : AcdState) : M Host unit :=
  h ← gets id ;
  upd_dev (fun d => set_acd d (timer_callback_enable (timer_set_timeout (net_now (net h)) ticks (acd_timer d))) p a s).

Definition acd_probe : M Host unit :=
  h ← gets id ; acd_arm (ACD_PROBE_WAIT * 1000) 0 (announce_count (dev h)) ACD_STATE_PROBE.
Definition acd_announce : M Host unit :=
  h ← gets id ; acd_arm (ACD_ANNOUNCE_WAIT * 1000) (probe_count (dev h)) 0 ACD_STATE_ANNOUNCE.

Definition acd_timer_callback : M Host unit :=
  h ← gets id ;
  let d := dev h in
  match acd_state d with
  | ACD_STATE_PROBE =>
    if probe_count d <? ACD_PROBE_NUM then
      acd_arm (ACD_PROBE_MIN * 1000) (u8 (probe_count d + 1)) (announce_count d) ACD_STATE_PROBE ;;
      i ← neighbour_table_lookup (ipv4_hash (dev_ip d)) (dev_ip d) ;
      arp_send_request i
    else acd_announce
  | ACD_STATE_ANNOUNCE =>
    if announce_count d <? ACD_ANNOUNCE_NUM then
      acd_arm (ACD_ANNOUNCE_INTERVAL * 1000) (probe_count d) (u8 (announce_count d + 1)) ACD_STATE_ANNOUNCE ;;
      arp_announce (dev_ip d)
    else upd_dev (fun d => set_acd d (acd_timer d) (probe_count d) (announce_count d) ACD_STATE_NONE)
  | _ => ret tt
  end.

(** The calls of the callback are counted. *)
Definition acd_conflict_detected : M Host ProtocolResult :=
  upd_dev (fun d => set_acd d (timer_callback_cancel (acd_timer d)) (probe_count d) (announce_count d) ACD_STATE_CONFLICT) ;;
  upd_dev (fun d => if acd_conflict_callback d then set_conflicts d (S (conflicts d)) else d) ;;
  ret PROTO_OK.

(** ** arp.c: reception *)

(** The loop over a bucket; an entry that is found stays locked. *)
Fixpoint merge_loop (ip : list Z) (l : list nat) : M Host (option nat) :=
  match l with
  | [] => ret None
  | i :: l =>
    spin_lock i ;;
    e ← entry_at i ;
    if bool_decide (ip_addr e = ip) then ret (Some i) else spin_unlock i ;; merge_loop ip l
  end.

(** The hardware address that the message is for is ours, all of them or none. *)
Definition arp_for_us (dst_h mac : list Z) : bool :=
  bool_decide (dst_h = mac) || bool_decide (dst_h = eth_broadcast_mac) || bool_decide (dst_h = replicate 6 0).

(** The entry, which is locked, learns the address, and a request is answered. *)
Definition arp_learn (i : nat) (hdr : Z) (src_p mac : list Z) : M Host ProtocolResult :=
  src_h ← on_frame (rd (hdr + 8) 6) ;
  upd_entry i (fun e => set_haddr src_h (set_hlen 6 (set_e_state NEIGH_STATE_REACHABLE e))) ;;
  spin_unlock i ;;
  opcode ← on_frame (ld 2 (hdr + 6)) ;
  when (BE2HOST_WORD opcode =? 1) (
    h ← gets id ;
    on_frame (
      wr (hdr + 18) src_h ;;
      wr (hdr + 24) src_p ;;
      wr (hdr + 8) mac ;;
      wr (hdr + 14) (dev_ip (dev h)) ;;
      st 2 (hdr + 6) (HOST2BE_WORD 2)) ;;
    p ← on_frame (b ← gets id ; rd (bhead b) (btail b - bhead b)) ;
    dev_send p) ;;
  ret PROTO_OK.

(** What is done with a message whose types are supported, from the search on. *)
Definition arp_merge (hdr : Z) (src_p mac : list Z) : M Host ProtocolResult :=
  let hash_key := ipv4_hash src_p mod NEIGH_BUCKET_SIZE in
  l ← bucket hash_key ;
  found ← merge_loop src_p l ;
  h ← gets id ;
  dst_p ← on_frame (rd (hdr + 24) 4) ;
  if negb (bool_decide (dst_p = dev_ip (dev h))) then ret PROTO_OK
  else
    r ← (match found with
         | Some i => ret (Some i)
         | None =>
           r ← neighbour_entry_create hash_key src_p ;
           match r with Some i => spin_lock i ;; ret (Some i) | None => ret None end
         end) ;
    match r with
    | None => ret PROTO_ERROR_OTHER
    | Some i => arp_learn i hdr src_p mac
    end.

(** Once the lengths are known to be 6 and 4, the positions of the addresses are fixed. *)
Definition arp_recv : M Host ProtocolResult :=
  hdr ← on_frame (gets bdata) ;
  h ← gets id ;
  htype ← on_frame (ld 2 hdr) ;
  hl ← on_frame (ld 1 (hdr + 4)) ;
  pl ← on_frame (ld 1 (hdr + 5)) ;
  match dtype (dev h) with
  | NETWORK_TYPE_UNKNOWN => ret PROTO_ERROR_UNSUPPORT
  | NETWORK_TYPE_ETHERNET =>
    if negb ((BE2HOST_WORD htype =? 1) && (hl =? 6)) then ret PROTO_ERROR_UNSUPPORT
    else
      dst_h ← on_frame (rd (hdr + 8 + hl + pl) 6) ;
      if negb (arp_for_us dst_h (mac_addr (dev h))) then ret PROTO_ERROR_UNSUPPORT
      else
        ptype ← on_frame (ld 2 (hdr + 2)) ;
        if negb ((BE2HOST_WORD ptype =? ETH_PROTO_TYPE_IPV4) && (pl =? 4)) then ret PROTO_ERROR_UNSUPPORT
        else
          src_p ← on_frame (rd (hdr + 14) 4) ;
          (if bool_decide (src_p = dev_ip (dev h)) then _ ← acd_conflict_detected ; ret tt else ret tt) ;;
          arp_merge hdr src_p (mac_addr (dev h))
  end.

(** ** ipv4.c: the table of neighbours *)

Definition ipv4_neigh_update (mac : list Z) : M Host unit :=
  hdr ← on_frame (gets bdata) ;
  ip ← on_frame (rd (hdr + 12) 4) ;
  if bool_decide (ip = ipv4_null_addr) || bool_decide (ip = ipv4_broadcast_addr) then ret tt
  else
    r ← neighbour_table_try_lookup (ipv4_hash ip) ip ;
    r ← (match r with Some i => ret (Some i) | None => neighbour_entry_create (ipv4_hash ip) ip end) ;
    match r with
    | None => ret tt
    | Some i =>
      spin_lock i ;;
      upd_entry i (fun e => set_haddr mac (set_e_state NEIGH_STATE_REACHABLE e)) ;;
      spin_unlock i
    end.

Definition same_subnet (mask a b : list Z) : bool :=
  bool_decide (zip_with Z.land a mask = zip_with Z.land b mask).

(** [ipv4_lookup_mac] up to the wait for an answer; an error, or the entry. *)
Definition ipv4_lookup_start (ip : list Z) : M Host (ProtocolResult + nat) :=
  h ← gets id ;
  let d := dev h in
  if same_subnet (subnet_mask d) ip (gateway_ip d) then
    i ← neighbour_table_lookup (ipv4_hash ip) ip ; ret (inr i)
  else if bool_decide (gateway_ip d = ipv4_null_addr) then ret (inl PROTO_ERROR_CANNOT_FIND_ROUTE)
  else i ← neighbour_table_lookup (ipv4_hash (gateway_ip d)) (gateway_ip d) ; ret (inr i).

(** After the wait: the loop goes on as long as the entry is waiting. *)
Definition ipv4_lookup_end (i : nat) : M Host (list Z) :=
  e ← entry_at i ;
  if bool_decide (e_state e = NEIGH_STATE_WAITING) then no_fuel else ret (haddr e).

(** ** ethernet.c: reception *)

Section receive.
Context (freq : Z) (fuel : nat) (udp_lh : list Conn).

Definition eth_recv : M Host ProtocolResult :=
  b ← on_frame (gets id) ;
  let hdr := bdata b in
  let size_ := btail b - bdata b in
  if size_ <? 14 then ret PROTO_ERROR_UNSUPPORT
  else if size_ >? ETH_MAX_FRAME_SIZE then ret PROTO_ERROR_EXCEED_MAX_SIZE
  else
    on_frame (modify (with_data (hdr + 14))) ;;
    type ← on_frame (ld 2 (hdr + 12)) ;
    if BE2HOST_WORD type =? ETH_PROTO_TYPE_IPV4 then
      mac ← on_frame (rd (hdr + 6) 6) ;
      ipv4_neigh_update mac ;;
      on_net (ipv4_recv freq fuel udp_lh)
    else if BE2HOST_WORD type =? ETH_PROTO_TYPE_ARP then arp_recv
    else ret PROTO_ERROR_UNSUPPORT.

(** [protocol_recv] of network.c. *)
Definition protocol_recv (type : NetworkDeviceType) : M Host ProtocolResult :=
  match type with
  | NETWORK_TYPE_ETHERNET => eth_recv
  | NETWORK_TYPE_UNKNOWN => ret PROTO_ERROR_UNSUPPORT
  end.
End receive.
End neighbours.
