(* ===== verification/ArpTable.v ===== *)
(** * The table of neighbours

    Every entry is in the bucket of its address, and in an execution of operations one after
    the other every address has at most one entry; all operations of a host keep this. *)

From stdpp Require Import base tactics list sets relations.
From S2P Require Import Prelude CMonad Net Tcp Arp.
Local Open Scope Z_scope.

(** ** The invariant *)

(** The bucket of an address. *)
Definition slot (ip : list Z) : nat := Z.to_nat (ipv4_hash ip mod NEIGH_BUCKET_SIZE).

Record table_wf (ips : list (list Z)) (bs : list (list nat)) : Prop := {
  tw_len : length bs = Z.to_nat NEIGH_BUCKET_SIZE;
  tw_in : forall k l i, bs !! k = Some l -> i ∈ l -> exists ip, ips !! i = Some ip /\ slot ip = k;
  tw_all : forall i ip, ips !! i = Some ip -> exists l, bs !! slot ip = Some l /\ i ∈ l;
  tw_ips : NoDup ips;
  tw_nodup : forall k l, bs !! k = Some l -> NoDup l
}.

Lemma slot_range ip : (slot ip < Z.to_nat NEIGH_BUCKET_SIZE)%nat.
Proof. unfold slot, NEIGH_BUCKET_SIZE. pose proof (Z.mod_pos_bound (ipv4_hash ip) 32 ltac:(lia)). lia. Qed.

(** The part that does not depend on how operations overlap: every entry is in the bucket of
    its address, once, and nothing else is there. *)
Record placed (ips : list (list Z)) (bs : list (list nat)) : Prop := {
  pl_len : length bs = Z.to_nat NEIGH_BUCKET_SIZE;
  pl_in : forall k l i, bs !! k = Some l -> i ∈ l -> exists ip, ips !! i = Some ip /\ slot ip = k;
  pl_all : forall i ip, ips !! i = Some ip -> exists l, bs !! slot ip = Some l /\ i ∈ l;
  pl_nodup : forall k l, bs !! k = Some l -> NoDup l
}.

Lemma table_wf_placed ips bs : table_wf ips bs <-> placed ips bs /\ NoDup ips.
Proof. split; [intros []; by repeat split|intros [[] ?]; by split]. Qed.

Lemma placed_empty : placed [] (replicate (Z.to_nat NEIGH_BUCKET_SIZE) []).
Proof.
  split; [done| |done|].
  - intros k l i [-> _]%lookup_replicate. set_solver.
  - intros k l [-> _]%lookup_replicate. constructor.
Qed.

Lemma table_wf_empty : table_wf [] (replicate (Z.to_nat NEIGH_BUCKET_SIZE) []).
Proof. apply table_wf_placed. split; [apply placed_empty|constructor]. Qed.

(** A new entry goes to the end of its bucket. *)
Lemma placed_insert ips bs ip l :
  placed ips bs -> bs !! slot ip = Some l -> placed (ips ++ [ip]) (<[slot ip := l ++ [length ips]]> bs).
Proof.
  intros [] Hl. pose proof (lookup_lt_Some _ _ _ Hl) as Hlt.
  assert (forall k l i, bs !! k = Some l -> i ∈ l -> (i < length ips)%nat) as Hlen.
  { intros k l' i Hk Hi. destruct (pl_in0 _ _ _ Hk Hi) as (ip' & Hip & _). by eapply lookup_lt_Some. }
  split.
  - by rewrite length_insert.
  - intros k l' i Hk Hi. apply list_lookup_insert_Some in Hk as [(<- & <- & _)|(Hne & Hk)].
    + apply elem_of_app in Hi as [Hi|Hi%list_elem_of_singleton].
      * destruct (pl_in0 _ _ _ Hl Hi) as (ip' & Hip & Hs). exists ip'. split; [by apply lookup_app_l_Some|done].
      * subst i. exists ip. split; [by rewrite lookup_app_r, Nat.sub_diag|done].
    + destruct (pl_in0 _ _ _ Hk Hi) as (ip' & Hip & Hs). exists ip'. split; [by apply lookup_app_l_Some|done].
  - intros i ip' Hip. apply lookup_app_Some in Hip as [Hip|[Hge Hip]].
    + destruct (pl_all0 _ _ Hip) as (l' & Hl' & Hi). destruct (decide (slot ip' = slot ip)) as [E|Hne].
      * rewrite E in *. exists (l ++ [length ips]). split; [by apply list_lookup_insert_eq|].
        rewrite Hl in Hl'. injection Hl' as ->. set_solver.
      * exists l'. split; [by rewrite list_lookup_insert_ne|done].
    + apply list_lookup_singleton_Some in Hip as [Hi <-]. exists (l ++ [length ips]).
      split; [by apply list_lookup_insert_eq|]. assert (i = length ips) as -> by lia. set_solver.
  - intros k l' Hk. apply list_lookup_insert_Some in Hk as [(<- & <- & _)|(Hne & Hk)]; [|by eapply pl_nodup0].
    apply NoDup_app. split; [by eapply pl_nodup0|]. split; [|apply NoDup_singleton].
    intros i Hi ->%list_elem_of_singleton. specialize (Hlen _ _ _ Hl Hi). lia.
Qed.

Lemma table_wf_insert ips bs ip l :
  table_wf ips bs -> ip ∉ ips -> bs !! slot ip = Some l ->
  table_wf (ips ++ [ip]) (<[slot ip := l ++ [length ips]]> bs).
Proof.
  intros [Hp Hnd]%table_wf_placed Hn Hl. apply table_wf_placed. split; [by apply placed_insert|].
  apply NoDup_app. split; [done|]. split; [set_solver|]. apply NoDup_singleton.
Qed.

(** ** Operations that leave the table as it is *)

Definition ips (d : Device) : list (list Z) := ip_addr <$> entries d.

(** The table of the host. *)
Definition table (il : list (list Z)) (bs : list (list nat)) (h : Host) : Prop :=
  ips (dev h) = il /\ buckets (dev h) = bs.

Definition wf (h : Host) : Prop := table_wf (ips (dev h)) (buckets (dev h)).

Section frame.
Context (il : list (list Z)) (bs : list (list nat)).

Lemma table_on_net {A} (m : M Net A) : keeps (table il bs) (on_net m).
Proof. intros h a h' H. unfold on_net. destruct (m (net h)) as [[]| |]; [|done|done]. by intros [= <- <-]. Qed.

Lemma table_on_frame {A} (m : M NetBuffer A) : keeps (table il bs) (on_frame m).
Proof. apply table_on_net. Qed.

Lemma table_on_arp {A} (m : M NetBuffer A) : keeps (table il bs) (on_arp m).
Proof. intros h a h' H. unfold on_arp. destruct (m _) as [[]| |]; [|done|done]. by intros [= <- <-]. Qed.

Lemma table_upd_dev f : (forall d, ips (f d) = ips d /\ buckets (f d) = buckets d) -> keeps (table il bs) (upd_dev f).
Proof. intros Hf. apply keeps_modify. intros h [<- <-]. exact (Hf (dev h)). Qed.

Lemma table_entry_at i :
  spec (table il bs) (entry_at i) (fun e h => table il bs h /\ il !! i = Some (ip_addr e)).
Proof.
  intros h e h' [<- <-]. unfold entry_at, bind, gets, id. destruct (entries (dev h) !! i) as [e'|] eqn:E; [|done].
  intros [= <- <-]. split; [done|]. unfold ips. by rewrite list_lookup_fmap, E.
Qed.

Lemma table_keeps_entry_at i : keeps (table il bs) (entry_at i).
Proof. eapply spec_weaken; [apply table_entry_at|]. by intros ? ? []. Qed.

Lemma table_upd_entry i f : (forall e, ip_addr (f e) = ip_addr e) -> keeps (table il bs) (upd_entry i f).
Proof.
  intros Hf. eapply spec_bind; [apply table_entry_at|]. intros e h a h' [[Hi Hb] He]. unfold upd_dev, modify.
  intros [= <- <-]. split; [|done]. unfold ips in *. simpl. rewrite list_fmap_insert, Hf, Hi.
  by apply list_insert_id.
Qed.

Lemma table_spin_lock i : keeps (table il bs) (spin_lock i).
Proof.
  apply keeps_bind; [apply table_keeps_entry_at|]. intros e. destruct (e_lock e); [apply keeps_no_fuel|].
  by apply table_upd_entry.
Qed.

Lemma table_bucket k :
  spec (table il bs) (bucket k) (fun l h => table il bs h /\ bs !! Z.to_nat k = Some l).
Proof.
  intros h l h' [<- <-]. unfold bucket, bind, gets, id. destruct (buckets (dev h) !! Z.to_nat k) eqn:E; [|done].
  by intros [= <- <-].
Qed.

Lemma table_send p : keeps (table il bs) (dev_send p).
Proof. apply table_on_net. Qed.
End frame.

Create HintDb arp.
#[export] Hint Resolve table_on_net table_on_frame table_on_arp table_keeps_entry_at table_spin_lock table_send : arp.
#[export] Hint Extern 2 (spec _ (gets _) _) => apply keeps_gets : arp.
#[export] Hint Extern 2 (spec _ (ret _) _) => apply keeps_ret : arp.
#[export] Hint Extern 2 (spec _ (defined_if _) _) => apply keeps_defined_if : arp.
#[export] Hint Extern 3 (spec _ (upd_entry _ _) _) => apply table_upd_entry; done : arp.
#[export] Hint Extern 3 (spec _ (spin_unlock _) _) => apply table_upd_entry; done : arp.
#[export] Hint Extern 3 (spec _ (upd_dev _) _) => apply table_upd_dev; done : arp.

Ltac arp_auto := repeat first [solve [eauto 2 with arp nocore] | apply keeps_bind; [|intros]].

Section specs.
Context (kzalloc_ok : bool).

(** What a search in a bucket finds. *)
Definition found (il : list (list Z)) (l : list nat) (ip : list Z) (r : option nat) : Prop :=
  match r with
  | Some i => i ∈ l /\ il !! i = Some ip
  | None => forall i, i ∈ l -> il !! i <> Some ip
  end.

Lemma found_cons_ne il i l ip ip' r : il !! i = Some ip' -> ip' <> ip -> found il l ip r -> found il (i :: l) ip r.
Proof.
  intros Hi Hne. destruct r as [j|]; simpl.
  - intros [Hj Hip]. split; [by right|done].
  - intros H j [->|Hj]%elem_of_cons; [congruence|by apply H].
Qed.

Lemma spec_find_entry il bs ip l :
  spec (table il bs) (find_entry ip l) (fun r h => table il bs h /\ found il l ip r).
Proof.
  induction l as [|i l IH]; cbn [find_entry].
  - apply spec_ret. intros h H. split; [done|]. intros i Hi. by apply not_elem_of_nil in Hi.
  - eapply spec_bind; [apply table_entry_at|]. intros e. case_bool_decide as Hip.
    + apply spec_ret. intros h [H He]. split; [done|]. split; [by left|congruence].
    + intros h r h' [H He] Hr. destruct (IH h r h' H Hr) as [H' Hf]. split; [done|]. by eapply found_cons_ne.
Qed.

Lemma spec_merge_loop il bs ip l :
  spec (table il bs) (merge_loop ip l) (fun r h => table il bs h /\ found il l ip r).
Proof.
  induction l as [|i l IH]; cbn [merge_loop].
  - apply spec_ret. intros h H. split; [done|]. intros i Hi. by apply not_elem_of_nil in Hi.
  - eapply spec_bind; [apply table_spin_lock|]. intros []. eapply spec_bind; [apply table_entry_at|]. intros e.
    case_bool_decide as Hip.
    + apply spec_ret. intros h [H He]. split; [done|]. split; [by left|congruence].
    + intros h r h' [H He] (u & h1 & Hu & Hr)%bind_inv.
      assert (table il bs h1) as H1 by (eapply (table_upd_entry il bs i (set_lock false)); done).
      destruct (IH h1 r h' H1 Hr) as [H' Hf]. split; [done|]. by eapply found_cons_ne.
Qed.

(** What is not in its bucket is not in the table. *)
Lemma found_absent il bs ip l : table_wf il bs -> bs !! slot ip = Some l -> found il l ip None -> ip ∉ il.
Proof.
  intros [] Hl Hf Hin. apply list_elem_of_lookup in Hin as [i Hi].
  destruct (tw_all0 _ _ Hi) as (l' & Hl' & Hi'). rewrite Hl in Hl'. injection Hl' as <-. by apply (Hf i).
Qed.

(** What the creation of an entry does to the table. *)
Lemma create_table il bs ip k : k mod NEIGH_BUCKET_SIZE = ipv4_hash ip mod NEIGH_BUCKET_SIZE ->
  spec (table il bs) (neighbour_entry_create kzalloc_ok k ip) (fun r h =>
    table il bs h \/ exists l, bs !! slot ip = Some l /\ table (il ++ [ip]) (<[slot ip := l ++ [length il]]> bs) h).
Proof.
  intros Hk h r h' HT. unfold neighbour_entry_create. destruct kzalloc_ok.
  2:{ intros [= <- <-]. by left. }
  rewrite Hk. intros (h1 & h1' & [= <- <-] & (l & h2 & Hb & (u & h3 & Hu & [= <- <-])%bind_inv)%bind_inv)%bind_inv.
  destruct (table_bucket il bs _ _ _ _ HT Hb) as [[Hi Hbs] Hl]. destruct HT as [Hi0 _].
  right. exists l. split; [done|]. injection Hu as _ <-. unfold table, ips in *. cbn [dev set_table entries buckets].
  rewrite fmap_app, Hi, Hbs. by replace (length (entries (dev h))) with (length il) by (rewrite <- Hi0; apply length_fmap).
Qed.

Lemma spec_create il bs ip k : table_wf il bs -> ip ∉ il -> k mod NEIGH_BUCKET_SIZE = ipv4_hash ip mod NEIGH_BUCKET_SIZE ->
  spec (table il bs) (neighbour_entry_create kzalloc_ok k ip) (fun r h => wf h).
Proof.
  intros Hwf Hn Hk. eapply spec_weaken; [by apply create_table|].
  intros r h [[Hi Hb]|(l & Hl & [Hi Hb])]; unfold wf; rewrite Hi, Hb; [done|by apply table_wf_insert].
Qed.

Lemma wf_of_table {A} (m : M Host A) : (forall il bs, keeps (table il bs) m) -> keeps wf m.
Proof.
  intros Hm h a h' H E. destruct (Hm _ _ h a h' (conj eq_refl eq_refl) E) as [Hi Hb]. unfold wf. by rewrite Hi, Hb.
Qed.

Lemma spec_try_lookup il bs ip k : k mod NEIGH_BUCKET_SIZE = ipv4_hash ip mod NEIGH_BUCKET_SIZE ->
  spec (table il bs) (neighbour_table_try_lookup k ip) (fun r h => table il bs h /\
    exists l, bs !! slot ip = Some l /\ found il l ip r).
Proof.
  intros Hk. unfold neighbour_table_try_lookup. rewrite Hk. eapply spec_bind; [apply table_bucket|].
  intros l h r h' [H Hl] Hr. destruct (spec_find_entry il bs ip l h r h' H Hr). eauto.
Qed.

Lemma table_fill_send il bs i : keeps (table il bs) (arp_send_request i).
Proof. unfold arp_send_request, arp_network_send. arp_auto. Qed.

Lemma table_announce il bs ip : keeps (table il bs) (arp_announce ip).
Proof. unfold arp_announce, arp_network_send. arp_auto. Qed.

Lemma table_arm il bs n p a s : keeps (table il bs) (acd_arm n p a s).
Proof. unfold acd_arm. arp_auto. Qed.

Lemma table_conflict il bs : keeps (table il bs) acd_conflict_detected.
Proof.
  unfold acd_conflict_detected. arp_auto. apply table_upd_dev. intros d. by destruct (acd_conflict_callback d).
Qed.

(** A search that finds nothing may be followed by the creation of an entry. *)
Lemma wf_search {A} (m : M Host (option nat)) (k : option nat -> M Host A) ip :
  (forall il bs, spec (table il bs) m (fun r h => table il bs h /\ exists l, bs !! slot ip = Some l /\ found il l ip r)) ->
  (forall i, keeps wf (k (Some i))) ->
  (forall il bs, table_wf il bs -> ip ∉ il -> spec (table il bs) (k None) (fun _ => wf)) ->
  keeps wf (bind m k).
Proof.
  intros Hm Hs Hn h a h' H (r & h1 & Hr & Hk)%bind_inv.
  destruct (Hm _ _ h r h1 (conj eq_refl eq_refl) Hr) as [HT (l & Hl & Hf)].
  destruct r as [i|].
  - apply (Hs i h1 a h'); [|done]. destruct HT as [Hi Hb]. unfold wf. by rewrite Hi, Hb.
  - by eapply Hn; [exact H|eapply found_absent|exact HT|].
Qed.

Lemma wf_table_lookup ip : keeps wf (neighbour_table_lookup kzalloc_ok (ipv4_hash ip) ip).
Proof.
  unfold neighbour_table_lookup. apply (wf_search _ _ ip).
  - intros il bs. by apply spec_try_lookup.
  - intros i. apply keeps_ret.
  - intros il bs Hwf Hn. eapply spec_bind; [by apply spec_create|]. intros r. apply wf_of_table. intros.
    apply keeps_bind; [apply keeps_of_option|]. intros. arp_auto.
Qed.

Lemma wf_neigh_update mac : keeps wf (ipv4_neigh_update kzalloc_ok mac).
Proof.
  unfold ipv4_neigh_update. apply keeps_bind; [apply wf_of_table; eauto with arp|]. intros hdr.
  apply keeps_bind; [apply wf_of_table; eauto with arp|]. intros ip. apply keeps_if; [apply keeps_ret|].
  assert (forall r, keeps wf (match r with
    | None => ret tt
    | Some i => spin_lock i ;; upd_entry i (fun e => set_haddr mac (set_e_state NEIGH_STATE_REACHABLE e)) ;; spin_unlock i
    end)) as Hr.
  { intros [i|]; [|apply keeps_ret]. apply wf_of_table. intros. arp_auto. }
  apply (wf_search _ _ ip).
  - intros il bs. by apply spec_try_lookup.
  - intros i. apply keeps_bind; [apply keeps_ret|intros r; apply Hr].
  - intros il bs Hwf Hn. eapply spec_bind; [by apply spec_create|]. intros r. apply Hr.
Qed.

Lemma table_learn il bs i hdr src_p mac : keeps (table il bs) (arp_learn i hdr src_p mac).
Proof.
  unfold arp_learn. do 4 (apply keeps_bind; [eauto with arp|intros]). apply keeps_bind; [apply keeps_when; arp_auto|intros; apply keeps_ret].
Qed.

Lemma wf_arp_merge hdr src_p mac : keeps wf (arp_merge kzalloc_ok hdr src_p mac).
Proof.
  unfold arp_merge. cbv zeta. intros h a h' H E. rewrite <- bind_assoc in E. revert h a h' H E.
  refine (wf_search _ _ src_p _ _ _).
  - intros il bs. eapply spec_bind; [apply table_bucket|]. intros l h r h' [H Hl] Hr.
    destruct (spec_merge_loop il bs src_p l h r h' H Hr). eauto.
  - intros i. apply wf_of_table. intros il bs. apply keeps_bind; [arp_auto|intros h].
    apply keeps_bind; [arp_auto|intros d]. apply keeps_if; [apply keeps_ret|].
    apply keeps_bind; [apply keeps_ret|]. intros [j|]; [apply table_learn|apply keeps_ret].
  - intros il bs Hwf Hn. apply (spec_bind _ _ _ (fun _ => table il bs)); [arp_auto|intros h].
    apply (spec_bind _ _ _ (fun _ => table il bs)); [arp_auto|intros d]. destruct (negb _).
    { apply spec_ret. intros h' [Hi Hb]. unfold wf. by rewrite Hi, Hb. }
    apply (spec_bind _ _ _ (fun _ => wf)).
    + eapply spec_bind; [apply spec_create; [done|done|apply Z.mod_mod; done]|]. intros [i|]; [|apply keeps_ret].
      apply wf_of_table. intros. arp_auto.
    + intros [i|]; [|apply keeps_ret]. apply wf_of_table. intros. apply table_learn.
Qed.

Lemma wf_arp_recv : keeps wf (arp_recv kzalloc_ok).
Proof.
  unfold arp_recv. do 5 (apply keeps_bind; [apply wf_of_table; intros; arp_auto|intros]).
  destruct (dtype _); [apply keeps_ret|]. apply keeps_if; [apply keeps_ret|].
  apply keeps_bind; [apply wf_of_table; intros; arp_auto|intros dst_h]. apply keeps_if; [apply keeps_ret|].
  apply keeps_bind; [apply wf_of_table; intros; arp_auto|intros]. apply keeps_if; [apply keeps_ret|].
  apply keeps_bind; [apply wf_of_table; intros; arp_auto|intros src_p]. apply keeps_bind; [|intros; apply wf_arp_merge].
  apply keeps_if; [|apply keeps_ret]. apply wf_of_table. intros. apply keeps_bind; [apply table_conflict|intros; apply keeps_ret].
Qed.

Lemma wf_eth_recv freq fuel udp_lh : keeps wf (eth_recv kzalloc_ok freq fuel udp_lh).
Proof.
  unfold eth_recv. apply keeps_bind; [apply wf_of_table; intros; arp_auto|intros b].
  do 2 (apply keeps_if; [apply keeps_ret|]). do 2 (apply keeps_bind; [apply wf_of_table; intros; arp_auto|intros]).
  apply keeps_if.
  - apply keeps_bind; [apply wf_of_table; intros; arp_auto|intros mac].
    apply keeps_bind; [apply wf_neigh_update|intros; apply wf_of_table; eauto with arp].
  - apply keeps_if; [apply wf_arp_recv|apply keeps_ret].
Qed.

Lemma wf_acd_timer : keeps wf (acd_timer_callback kzalloc_ok).
Proof.
  unfold acd_timer_callback. apply keeps_bind; [apply keeps_gets|intros h]. destruct (acd_state (dev h)); try apply keeps_ret.
  - apply keeps_if.
    + apply keeps_bind; [apply wf_of_table; intros; apply table_arm|intros].
      apply keeps_bind; [apply wf_table_lookup|intros; apply wf_of_table; intros; apply table_fill_send].
    + unfold acd_announce. apply wf_of_table. intros. arp_auto.
  - apply wf_of_table. intros. apply keeps_if; [|arp_auto].
    apply keeps_bind; [apply table_arm|intros; apply table_announce].
Qed.

Lemma wf_lookup_start ip : keeps wf (ipv4_lookup_start kzalloc_ok ip).
Proof.
  unfold ipv4_lookup_start. apply keeps_bind; [apply keeps_gets|intros h]. cbv zeta.
  repeat first [apply keeps_ret | apply keeps_if | apply keeps_bind; [apply wf_table_lookup|intros]].
Qed.
End specs.
