(* ===== verification/ArpWire.v ===== *)
(** * ARP messages

    A request as it lies in the frame, and what the host that gets a message does. *)

From stdpp Require Import base tactics list functions.
From S2P Require Import Prelude CMonad Net NetSum Tcp TcpWire TcpOpen Arp ArpTable.
Local Open Scope Z_scope.

(** ** Frames *)

Definition arp_message (op : Z) (src_h src_p dst_h dst_p : list Z) : list Z :=
  [0; 1; 8; 0; 6; 4; 0; op] ++ src_h ++ src_p ++ dst_h ++ dst_p.
Definition arp_frame (dst src : list Z) (op : Z) (src_h src_p dst_h dst_p : list Z) : list Z :=
  dst ++ src ++ [8; 6] ++ arp_message op src_h src_p dst_h dst_p.

(** A hardware address. *)
Definition mac_ok (a : list Z) : Prop := length a = 6%nat /\ bytes a.

Lemma eth_broadcast_ok : mac_ok eth_broadcast_mac.
Proof. split; [done|]. repeat constructor; lia. Qed.

(** Where the parts of a message lie. *)
Lemma lies_message m a op src_h src_p dst_h dst_p :
  length src_h = 6%nat -> length src_p = 4%nat -> length dst_h = 6%nat -> length dst_p = 4%nat ->
  lies m a (arp_message op src_h src_p dst_h dst_p) <->
  lies m a [0; 1] /\ lies m (a + 2) [8; 0] /\ lies m (a + 4) [6] /\ lies m (a + 5) [4] /\ lies m (a + 6) [0; op] /\
  lies m (a + 8) src_h /\ lies m (a + 14) src_p /\ lies m (a + 18) dst_h /\ lies m (a + 24) dst_p.
Proof.
  intros H1 H2 H3 H4. unfold arp_message.
  change ([0; 1; 8; 0; 6; 4; 0; op] ++ src_h ++ src_p ++ dst_h ++ dst_p) with
    ([0; 1] ++ [8; 0] ++ [6] ++ [4] ++ [0; op] ++ src_h ++ src_p ++ dst_h ++ dst_p).
  rewrite !lies_app, H1, H2, H3. cbn [length].
  replace (a + Z.of_nat 2) with (a + 2) by lia. replace (a + 2 + Z.of_nat 2) with (a + 4) by lia.
  replace (a + 4 + Z.of_nat 1) with (a + 5) by lia. replace (a + 5 + Z.of_nat 1) with (a + 6) by lia.
  replace (a + 6 + Z.of_nat 2) with (a + 8) by lia. replace (a + 8 + Z.of_nat 6) with (a + 14) by lia.
  replace (a + 14 + Z.of_nat 4) with (a + 18) by lia. replace (a + 18 + Z.of_nat 6) with (a + 24) by lia. done.
Qed.

Lemma lies_frame m a dst src op src_h src_p dst_h dst_p : length dst = 6%nat -> length src = 6%nat ->
  lies m a (arp_frame dst src op src_h src_p dst_h dst_p) <->
  lies m a dst /\ lies m (a + 6) src /\ lies m (a + 12) [8; 6] /\ lies m (a + 14) (arp_message op src_h src_p dst_h dst_p).
Proof.
  intros H1 H2. unfold arp_frame. rewrite !lies_app, H1, H2. cbn [length].
  replace (a + Z.of_nat 6) with (a + 6) by lia. replace (a + 6 + Z.of_nat 6) with (a + 12) by lia.
  replace (a + 12 + Z.of_nat 2) with (a + 14) by lia. done.
Qed.

(** ** A request *)

(** The buffer of the device for requests. *)
Record arp_ready (b : NetBuffer) : Prop := {
  ar_low : 14 <= bdata b;
  ar_room : bdata b + 74 <= room b;
  ar_size : bdata b + 28 <= bsize b;
  ar_mem : byte_mem (mem b)
}.

Lemma arp_fill_run src_h src_p dst_p b : arp_ready b -> mac_ok src_h -> address src_p -> address dst_p ->
  exists b', arp_fill src_h src_p dst_p b = Ok (tt, b') /\ arp_ready b' /\
    bhead b' = bdata b - 14 /\ btail b' = bdata b + 28 /\ bdata b' = bdata b /\
    lies (mem b') (bdata b - 14) (arp_frame eth_broadcast_mac src_h 1 src_h src_p (replicate 6 0) dst_p).
Proof.
  intros [] [Hh Hhb] [Hp Hpb] [Hd Hdb]. unfold arp_fill. set (b1 := with_tail (bdata b) (with_head (bdata b) b)).
  rewrite (bind_ok net_buffer_reset _ b tt b1 eq_refl), (bind_ok (gets id) _ b1 b1 b1 eq_refl). cbv zeta.
  change (bdata b1) with (bdata b). set (a := bdata b) in *.
  assert (forall off n, a <= off -> off + n <= a + 28 -> inside off n b1 = true) as Hin.
  { intros off n Ho Hn. rewrite inside_iff. simpl. lia. }
  rewrite (bind_ok _ _ _ _ _ (st_run 2 a _ b1 ltac:(apply Hin; lia))).
  rewrite (bind_ok _ _ _ _ _ (st_at 2 (a + 2) _ _ b1 ltac:(apply Hin; lia))).
  rewrite (bind_ok _ _ _ _ _ (st_at 1 (a + 4) _ _ b1 ltac:(apply Hin; lia))).
  rewrite (bind_ok _ _ _ _ _ (st_at 1 (a + 5) _ _ b1 ltac:(apply Hin; lia))).
  rewrite (bind_ok _ _ _ _ _ (st_at 2 (a + 6) _ _ b1 ltac:(apply Hin; lia))).
  rewrite (bind_ok _ _ _ _ _ (wr_at (a + 8) src_h _ b1 ltac:(apply Hin; rewrite ?Hh; lia))).
  rewrite (bind_ok _ _ _ _ _ (wr_at (a + 14) src_p _ b1 ltac:(apply Hin; rewrite ?Hp; lia))).
  rewrite (bind_ok _ _ _ _ _ (wr_at (a + 18) (replicate 6 0) _ b1 ltac:(apply Hin; rewrite ?length_replicate; lia))).
  rewrite (bind_ok _ _ _ _ _ (wr_at (a + 24) dst_p _ b1 ltac:(apply Hin; rewrite ?Hd; lia))).
  set (m := put_bytes _ (a + 24) dst_p).
  assert (byte_mem m) as Hm.
  { subst m. repeat first [apply put_bytes_byte_mem; [|done || by apply Forall_replicate]|apply mem_store_byte_mem]. done. }
  assert (lies m a (arp_message 1 src_h src_p (replicate 6 0) dst_p)) as Hl.
  { apply lies_message; [done..|]. subst m. unfold ETH_PROTO_TYPE_IPV4. repeat split; lies_auto. }
  clearbody m. set (b2 := with_tail (a + 28) (with_mem m b1)).
  assert (net_buffer_put 28 (with_mem m b1) = Ok (PROTO_OK, b2)) as Hput.
  { unfold net_buffer_put. run. simpl. fold a. destruct (Z.gtb_spec (a + 28) (bsize b)); [lia|done]. }
  rewrite (bind_ok _ _ _ _ _ Hput).
  destruct (eth_wrap_run src_h eth_broadcast_mac ETH_PROTO_TYPE_ARP b2) as (m' & E & Hm' & X & _ & L1 & L2 & L3);
    [done|done|done|apply eth_broadcast_ok|apply eth_broadcast_ok|unfold ETH_MAX_FRAME_SIZE; simpl; fold a; lia..|].
  change (bhead b2) with a in *. rewrite (bind_ok _ _ _ _ _ E). eexists. split; [done|].
  split; [split; simpl; fold a; (lia || done)|]. do 3 (split; [done|]).
  apply lies_frame; [done|done|]. split; [done|]. split; [done|]. split; [by apply L3|].
  replace (a - 14 + 14) with a by lia. apply (lies_same m); [|done]. intros x Hx. apply X. revert Hx.
  unfold arp_message. rewrite !length_app, Hh, Hp, Hd. simpl. lia.
Qed.

(** ** Reception *)

Definition host_rx (h : Host) (b : NetBuffer) : Host := mkHost (dev h) (set_net_rx (net h) b).

Lemma on_frame_run {A} (m : M NetBuffer A) h a b : m (net_rx (net h)) = Ok (a, b) -> on_frame m h = Ok (a, host_rx h b).
Proof. intros E. unfold on_frame, on_net, on_net_rx. by rewrite E. Qed.

Lemma on_frame_read {A} (m : M NetBuffer A) h a : m (net_rx (net h)) = Ok (a, net_rx (net h)) -> on_frame m h = Ok (a, h).
Proof. intros E. rewrite (on_frame_run _ _ _ _ E). by destruct h as [d []]. Qed.

(** *** Entries *)

Definition put_entry (i : nat) (e : NeighbourEntry) (h : Host) : Host :=
  mkHost (set_table (dev h) (<[i := e]> (entries (dev h))) (buckets (dev h))) (net h).

Lemma entry_at_run i e h : entries (dev h) !! i = Some e -> entry_at i h = Ok (e, h).
Proof. intros E. unfold entry_at, bind, gets, id. by rewrite E. Qed.

Lemma upd_entry_run i f e h : entries (dev h) !! i = Some e -> upd_entry i f h = Ok (tt, put_entry i (f e) h).
Proof. intros E. unfold upd_entry. by rewrite (bind_ok _ _ _ _ _ (entry_at_run i e h E)). Qed.

Lemma put_entry_at i e0 e h : entries (dev h) !! i = Some e0 -> entries (dev (put_entry i e h)) !! i = Some e.
Proof. intros E. apply list_lookup_insert_eq. by eapply lookup_lt_Some. Qed.

Lemma put_entry_twice i e e' h : put_entry i e (put_entry i e' h) = put_entry i e h.
Proof. unfold put_entry, set_table. simpl. by rewrite list_insert_insert_eq. Qed.

Lemma put_entry_same i e h : entries (dev h) !! i = Some e -> put_entry i e h = h.
Proof. intros E. destruct h as [[] n]. unfold put_entry, set_table. simpl in *. by rewrite list_insert_id. Qed.

Lemma spin_lock_run i e h : entries (dev h) !! i = Some e -> e_lock e = false ->
  spin_lock i h = Ok (tt, put_entry i (set_lock true e) h).
Proof.
  intros E Hl. unfold spin_lock. rewrite (bind_ok _ _ _ _ _ (entry_at_run i e h E)), Hl. by apply upd_entry_run.
Qed.

Lemma spin_lock_taken i e h : entries (dev h) !! i = Some e -> e_lock e = true -> spin_lock i h = NoFuel.
Proof. intros E Hl. unfold spin_lock. by rewrite (bind_ok _ _ _ _ _ (entry_at_run i e h E)), Hl. Qed.

Lemma set_lock_back e : e_lock e = false -> set_lock false (set_lock true e) = e.
Proof. destruct e; simpl; intros ->; done. Qed.

(** No entry is locked. *)
Definition all_free (h : Host) : Prop := forall i e, entries (dev h) !! i = Some e -> e_lock e = false.

Definition lock_found (r : option nat) (h : Host) : Host :=
  match r with
  | Some i => match entries (dev h) !! i with Some e => put_entry i (set_lock true e) h | None => h end
  | None => h
  end.

Lemma merge_loop_run ip h l : all_free h -> Forall (fun i => is_Some (entries (dev h) !! i)) l ->
  exists r, merge_loop ip l h = Ok (r, lock_found r h) /\ found (ips (dev h)) l ip r.
Proof.
  intros Hf. induction 1 as [|i l [e He] _ (r & IH & Hr)]; cbn [merge_loop].
  { exists None. split; [done|]. intros i Hi. by apply not_elem_of_nil in Hi. }
  assert (ips (dev h) !! i = Some (ip_addr e)) as Hip by (unfold ips; by rewrite list_lookup_fmap, He).
  rewrite (bind_ok _ _ _ _ _ (spin_lock_run i e h He (Hf i e He))).
  rewrite (bind_ok _ _ _ _ _ (entry_at_run i _ _ (put_entry_at i e _ h He))). case_bool_decide as Hb; simpl in Hb.
  - exists (Some i). split; [simpl; by rewrite He|]. split; [by left|congruence].
  - unfold spin_unlock. rewrite (bind_ok _ _ _ _ _ (upd_entry_run i _ _ _ (put_entry_at i e _ h He))).
    rewrite put_entry_twice, set_lock_back, put_entry_same by eauto. exists r. split; [done|]. by eapply found_cons_ne.
Qed.

Lemma bucket_run h ip : wf h ->
  exists l, bucket (ipv4_hash ip mod NEIGH_BUCKET_SIZE) h = Ok (l, h) /\ buckets (dev h) !! slot ip = Some l /\
    Forall (fun i => is_Some (entries (dev h) !! i)) l.
Proof.
  intros []. destruct (lookup_lt_is_Some_2 (buckets (dev h)) (slot ip)) as [l Hl]; [rewrite tw_len; apply slot_range|].
  exists l. split; [unfold bucket, bind, gets, id; fold (slot ip); by rewrite Hl|]. split; [done|].
  apply Forall_forall. intros i Hi%list_elem_of_In. destruct (tw_in _ _ _ Hl Hi) as (ip' & Hip & _).
  unfold ips in Hip. rewrite list_lookup_fmap in Hip. by destruct (entries (dev h) !! i).
Qed.

(** *** A message in the receive buffer *)

Record message (b : NetBuffer) (op : Z) (src_h src_p dst_h dst_p : list Z) : Prop := {
  me_lies : lies (mem b) (bdata b) (arp_message op src_h src_p dst_h dst_p);
  me_src : mac_ok src_h; me_ip : address src_p; me_dst : mac_ok dst_h; me_dip : address dst_p;
  me_op : 0 <= op < 256;
  me_low : 0 <= bhead b <= bdata b;
  me_tail : bdata b + 28 <= btail b <= room b
}.

Definition learnt (src_h : list Z) (e : NeighbourEntry) : NeighbourEntry :=
  set_lock false (set_haddr src_h (set_hlen 6 (set_e_state NEIGH_STATE_REACHABLE e))).

Lemma be_op op : 0 <= op < 256 -> BE2HOST_WORD (0 + 256 * op) = op.
Proof. intros H. replace (0 + 256 * op) with (256 * op + 0) by lia. rewrite SWAP_WORD_bytes; lia. Qed.

(** The request becomes the answer. *)
Lemma arp_answer_run b src_h src_p dst_h dst_p mac ip :
  message b 1 src_h src_p dst_h dst_p -> mac_ok mac -> address ip ->
  let hdr := bdata b in
  exists m, (wr (hdr + 18) src_h ;; wr (hdr + 24) src_p ;; wr (hdr + 8) mac ;; wr (hdr + 14) ip ;;
             st 2 (hdr + 6) (HOST2BE_WORD 2)) b = Ok (tt, with_mem m b) /\
    lies m hdr (arp_message 2 mac ip src_h src_p) /\ (forall x, x < hdr \/ hdr + 28 <= x -> m x = mem b x).
Proof.
  intros [Hl [Hh _] [Hp _] [Hd _] [Hi _] _ Hlow Ht] [Hm _] [Ha _] hdr.
  apply lies_message in Hl as (L1 & L2 & L3 & L4 & _); [|done..]. fold hdr in L1, L2, L3, L4.
  assert (forall off n, hdr <= off -> off + n <= hdr + 28 -> inside off n b = true) as Hin.
  { intros off n Ho Hn. rewrite inside_iff. fold hdr in Hlow, Ht. lia. }
  rewrite (bind_ok _ _ _ _ _ (wr_run (hdr + 18) src_h b ltac:(apply Hin; lia))).
  rewrite (bind_ok _ _ _ _ _ (wr_at (hdr + 24) src_p _ b ltac:(apply Hin; lia))).
  rewrite (bind_ok _ _ _ _ _ (wr_at (hdr + 8) mac _ b ltac:(apply Hin; lia))).
  rewrite (bind_ok _ _ _ _ _ (wr_at (hdr + 14) ip _ b ltac:(apply Hin; lia))).
  rewrite (st_at 2 (hdr + 6) _ _ b ltac:(apply Hin; lia)). eexists. split; [done|]. split.
  - apply lies_message; [done..|]. repeat split; lies_auto; done.
  - intros x Hx. rewrite mem_store_outside, !put_bytes_outside by lia. done.
Qed.

(** The frame from [head] to [tail] is sent. *)
Definition sent_frame (h : Host) (b : NetBuffer) : Host :=
  mkHost (dev h) (mkNet (conns (net h)) (tcp_lh (net h)) b (net_now (net h)) (net_isn (net h))
    (net_sent (net h) ++ [bytes_at (mem b) (bhead b) (Z.to_nat (btail b - bhead b))]) (net_wakes (net h))).

Lemma arp_learn_run i h e op src_h src_p dst_h dst_p mac :
  let b := net_rx (net h) in
  entries (dev h) !! i = Some e -> message b op src_h src_p dst_h dst_p -> mac_ok mac -> address (dev_ip (dev h)) ->
  let h1 := put_entry i (learnt src_h e) h in
  exists h', arp_learn i (bdata b) src_p mac h = Ok (PROTO_OK, h') /\
    if op =? 1 then exists m, h' = sent_frame h1 (with_mem m b) /\
      lies m (bdata b) (arp_message 2 mac (dev_ip (dev h)) src_h src_p) /\ (forall x, x < bdata b \/ bdata b + 28 <= x -> m x = mem b x)
    else h' = h1.
Proof.
  intros b He Hmsg Hmac Hip h1. pose proof Hmsg as [Hl [Hh _] [Hp _] [Hd _] [Hi _] Hop Hlow Ht].
  apply lies_message in Hl as (_ & _ & _ & _ & L5 & L6 & _); [|done..].
  unfold arp_learn. pose proof (rd_lies (bdata b + 8) src_h b L6) as Hrd. rewrite Hh in Hrd.
  rewrite (bind_ok _ _ _ _ _ (on_frame_read _ h _ (Hrd ltac:(rewrite inside_iff; lia)))).
  rewrite (bind_ok _ _ _ _ _ (upd_entry_run i _ e h He)). unfold spin_unlock.
  rewrite (bind_ok _ _ _ _ _ (upd_entry_run i _ _ _ (put_entry_at i e _ h He))), put_entry_twice.
  fold (learnt src_h e). fold h1.
  rewrite (bind_ok _ _ _ _ _ (on_frame_read _ h1 _ (ld_run 2 (bdata b + 6) b ltac:(rewrite inside_iff; lia)))).
  rewrite (load_lies2 _ _ _ _ L5), be_op by done. destruct (Z.eqb_spec op 1) as [->|]; cbn [when]; [|by eexists].
  destruct (arp_answer_run b src_h src_p dst_h dst_p mac (dev_ip (dev h)) Hmsg Hmac Hip) as (m & E & Hm & Hx).
  rewrite bind_assoc, (bind_ok (gets id) _ h1 h1 h1 eq_refl). change (dev_ip (dev h1)) with (dev_ip (dev h)).
  rewrite bind_assoc, (bind_ok _ _ _ _ _ (on_frame_run _ h1 _ _ E)). set (b1 := with_mem m b) in *.
  assert ((b ← gets id ; rd (bhead b) (btail b - bhead b)) b1 =
    Ok (bytes_at m (bhead b) (Z.to_nat (btail b - bhead b)), b1)) as E2.
  { rewrite (bind_ok (gets id) _ b1 b1 b1 eq_refl). apply (rd_run _ _ b1). rewrite inside_iff. simpl. fold b. lia. }
  rewrite bind_assoc, (bind_ok _ _ _ _ _ (on_frame_read _ (host_rx h1 b1) _ E2)).
  eexists. split; [done|]. exists m. done.
Qed.

(** The host [h'] has learnt from [h]'s message the address [src_h] of [src_p]. *)
Record learns (h h' : Host) (op : Z) (src_h src_p mac : list Z) (i : nat) : Prop := {
  le_entry : exists e, entries (dev h') !! i = Some (learnt src_h e) /\ ip_addr e = src_p /\ length (haddr e) = 8%nat;
  le_found : forall j, ips (dev h) !! j = Some src_p -> j = i;
  le_dev : dev h' = set_table (dev h) (entries (dev h')) (buckets (dev h'));
  le_free : all_free h';
  le_net :
    let b := net_rx (net h) in
    if op =? 1 then exists m, net h' = net (sent_frame h (with_mem m b)) /\
      lies m (bdata b) (arp_message 2 mac (dev_ip (dev h)) src_h src_p) /\ (forall x, x < bdata b \/ bdata b + 28 <= x -> m x = mem b x)
    else net h' = net h
}.

(** The arrays for hardware addresses have eight bytes. *)
Definition haddrs (h : Host) : Prop := forall i e, entries (dev h) !! i = Some e -> length (haddr e) = 8%nat.

Lemma all_free_put i e h : all_free h -> e_lock e = false -> all_free (put_entry i e h).
Proof.
  intros Hf He j e' Hj. apply list_lookup_insert_Some in Hj as [(_ & <- & _)|[_ Hj]]; [done|]. by eapply Hf.
Qed.

(** From a host whose entry is locked, to one that has learnt. *)
Lemma learns_from h h0 i e op src_h src_p dst_h dst_p mac :
  let b := net_rx (net h) in
  message b op src_h src_p dst_h dst_p -> mac_ok mac -> address (dev_ip (dev h)) ->
  all_free h -> dev h0 = set_table (dev h) (entries (dev h0)) (buckets (dev h0)) -> net h0 = net h ->
  entries (dev h0) !! i = Some e -> ip_addr e = src_p -> length (haddr e) = 8%nat ->
  (forall j e', entries (dev h0) !! j = Some e' -> j <> i -> e_lock e' = false) ->
  (forall j, ips (dev h) !! j = Some src_p -> j = i) ->
  exists h', arp_learn i (bdata b) src_p mac h0 = Ok (PROTO_OK, h') /\ learns h h' op src_h src_p mac i.
Proof.
  intros b Hmsg Hmac Hip Hf Hd Hn He Hp Hl Hother Hj. subst b. rewrite <- Hn in *.
  assert (dev_ip (dev h0) = dev_ip (dev h)) as Hip0 by (by rewrite Hd).
  destruct (arp_learn_run i h0 e op src_h src_p dst_h dst_p mac He Hmsg Hmac ltac:(by rewrite Hip0)) as (h' & E & Hop).
  exists h'. split; [done|]. set (h1 := put_entry i (learnt src_h e) h0) in *.
  assert (dev h' = dev h1) as Hd1 by (destruct (op =? 1); [by destruct Hop as (m & -> & _)|by subst h']).
  split; unfold all_free; rewrite ?Hd1.
  - exists e. split; [by eapply put_entry_at|done].
  - done.
  - unfold h1, put_entry. cbn [dev]. by rewrite Hd.
  - intros j e' Hj'. apply list_lookup_insert_Some in Hj' as [(_ & <- & _)|[Hne Hj']]; [done|by eapply Hother].
  - rewrite <- Hn. destruct (op =? 1); [|by subst h']. destruct Hop as (m & -> & Hm & Hx). exists m.
    rewrite Hip0 in Hm. split; [|done]. unfold sent_frame. simpl. by rewrite Hn.
Qed.

Lemma create_run h ip k : wf h -> dtype (dev h) = NETWORK_TYPE_ETHERNET ->
  k mod NEIGH_BUCKET_SIZE = ipv4_hash ip mod NEIGH_BUCKET_SIZE ->
  exists l, buckets (dev h) !! slot ip = Some l /\
  neighbour_entry_create true k ip h =
    Ok (Some (length (entries (dev h))),
        mkHost (set_table (dev h)
          (entries (dev h) ++ [mkEntry false (ipv4_hash ip mod NEIGH_BUCKET_SIZE) NEIGH_STATE_NONE 0 (replicate 8 0) true ip])
          (<[slot ip := l ++ [length (entries (dev h))]]> (buckets (dev h)))) (net h)).
Proof.
  intros Hwf Ht Hk. destruct (bucket_run h ip Hwf) as (l & E & Hl & _). exists l. split; [done|].
  unfold neighbour_entry_create. rewrite Hk.
  rewrite (bind_ok (gets id) _ h h h eq_refl), Ht. cbv zeta. by rewrite (bind_ok _ _ _ _ _ E).
Qed.

Lemma ips_lookup d i e : entries d !! i = Some e -> ips d !! i = Some (ip_addr e).
Proof. intros E. unfold ips. by rewrite list_lookup_fmap, E. Qed.

Lemma ips_lookup_inv d i ip : ips d !! i = Some ip -> exists e, entries d !! i = Some e /\ ip_addr e = ip.
Proof.
  unfold ips. rewrite list_lookup_fmap. destruct (entries d !! i) as [e|]; [|done]. intros [= <-]. by exists e.
Qed.

(** The entry was found and is locked. *)
Lemma merge_found h i e op src_h src_p dst_h mac :
  let b := net_rx (net h) in
  wf h -> all_free h -> haddrs h -> message b op src_h src_p dst_h (dev_ip (dev h)) -> mac_ok mac ->
  entries (dev h) !! i = Some e -> ip_addr e = src_p ->
  exists h', arp_learn i (bdata b) src_p mac (put_entry i (set_lock true e) h) = Ok (PROTO_OK, h') /\
    learns h h' op src_h src_p mac i.
Proof.
  intros b Hwf Hf Hh8 Hmsg Hmac He Hpe.
  eapply (learns_from h (put_entry i (set_lock true e) h) i (set_lock true e)); try done.
  - apply Hmsg.
  - by eapply put_entry_at.
  - exact (Hh8 i e He).
  - intros j e' Hj Hne. apply list_lookup_insert_Some in Hj as [(-> & _)|[_ Hj]]; [done|by eapply Hf].
  - intros j Hj. pose proof (tw_ips _ _ Hwf) as Hnd. eapply NoDup_lookup; [exact Hnd|exact Hj|].
    rewrite (ips_lookup _ _ _ He). by rewrite Hpe.
Qed.

(** The address is new. *)
Lemma merge_new h op src_h src_p dst_h mac :
  let b := net_rx (net h) in
  wf h -> all_free h -> dtype (dev h) = NETWORK_TYPE_ETHERNET ->
  message b op src_h src_p dst_h (dev_ip (dev h)) -> mac_ok mac -> (forall j, ips (dev h) !! j <> Some src_p) ->
  exists i h', (r ← neighbour_entry_create true (ipv4_hash src_p mod NEIGH_BUCKET_SIZE) src_p ;
                r ← match r with Some i => spin_lock i ;; ret (Some i) | None => ret None end ;
                match r with None => ret PROTO_ERROR_OTHER | Some i => arp_learn i (bdata b) src_p mac end) h
    = Ok (PROTO_OK, h') /\ learns h h' op src_h src_p mac i.
Proof.
  intros b Hwf Hf Hty Hmsg Hmac Hnew. set (j := length (entries (dev h))).
  destruct (create_run h src_p _ Hwf Hty (Z.mod_mod (ipv4_hash src_p) NEIGH_BUCKET_SIZE ltac:(done))) as (l' & _ & Ec). fold j in Ec.
  set (e0 := mkEntry false _ NEIGH_STATE_NONE 0 (replicate 8 0) true src_p) in Ec. set (h2 := mkHost _ (net h)) in Ec.
  assert (entries (dev h2) !! j = Some e0) as He0 by (simpl; by rewrite lookup_app_r, Nat.sub_diag).
  rewrite (bind_ok _ _ _ _ _ Ec), bind_assoc, (bind_ok _ _ _ _ _ (spin_lock_run j e0 h2 He0 eq_refl)).
  set (h3 := put_entry j (set_lock true e0) h2). rewrite (bind_ok (ret (Some j)) _ h3 (Some j) h3 eq_refl). exists j.
  eapply (learns_from h h3 j (set_lock true e0)); try done.
  - apply Hmsg.
  - by eapply put_entry_at.
  - intros k e' Hk Hne. apply list_lookup_insert_Some in Hk as [(-> & _)|[_ Hk]]; [done|].
    simpl in Hk. apply lookup_app_Some in Hk as [Hk|[Hge Hk]]; [by eapply Hf|].
    apply list_lookup_singleton_Some in Hk as [Hk _]. unfold j in Hne. lia.
  - intros k Hk. by apply Hnew in Hk.
Qed.

Lemma arp_merge_run h op src_h src_p dst_h mac :
  let b := net_rx (net h) in
  wf h -> all_free h -> haddrs h -> dtype (dev h) = NETWORK_TYPE_ETHERNET ->
  message b op src_h src_p dst_h (dev_ip (dev h)) -> mac_ok mac ->
  exists i h', arp_merge true (bdata b) src_p mac h = Ok (PROTO_OK, h') /\ learns h h' op src_h src_p mac i.
Proof.
  intros b Hwf Hf Hh8 Hty Hmsg Hmac. unfold arp_merge. cbv zeta.
  destruct (bucket_run h src_p Hwf) as (l & Eb & Hl & Hall). rewrite (bind_ok _ _ _ _ _ Eb).
  destruct (merge_loop_run src_p h l Hf Hall) as (r & Er & Hr). rewrite (bind_ok _ _ _ _ _ Er).
  set (h1 := lock_found r h). rewrite (bind_ok (gets id) _ h1 h1 h1 eq_refl).
  assert (net h1 = net h) as Hn by (unfold h1, lock_found; repeat case_match; done).
  assert (dev_ip (dev h1) = dev_ip (dev h)) as Hip by (unfold h1, lock_found; repeat case_match; done).
  pose proof Hmsg as [Hm [Hsl _] [Hpl _] [Hdl _] [Hil _] _ Hlow Ht].
  apply lies_message in Hm as (_ & _ & _ & _ & _ & _ & _ & _ & L9); [|done..].
  pose proof (rd_lies (bdata b + 24) (dev_ip (dev h)) b L9) as Hrd. rewrite Hil in Hrd.
  assert (on_frame (rd (bdata b + 24) 4) h1 = Ok (dev_ip (dev h), h1)) as Erd.
  { apply on_frame_read. rewrite Hn. fold b. apply Hrd. rewrite inside_iff. lia. }
  rewrite (bind_ok _ _ _ _ _ Erd), Hip, bool_decide_true by done. cbn [negb].
  assert (forall j, ips (dev h) !! j = Some src_p -> found (ips (dev h)) l src_p (Some j)) as Hin.
  { intros j Hj. destruct Hwf. destruct (tw_all j src_p Hj) as (l' & Hl' & Hjl). rewrite Hl in Hl'. injection Hl' as <-. done. }
  destruct r as [i|].
  - destruct Hr as [_ Hip']. apply ips_lookup_inv in Hip' as (e & He & Hpe).
    rewrite (bind_ok (ret (Some i)) _ h1 (Some i) h1 eq_refl). exists i. unfold h1, lock_found. rewrite He.
    by eapply merge_found.
  - rewrite bind_assoc. change h1 with h. eapply merge_new; try done. intros j Hj.
    destruct (Hin j Hj) as [Hkl _]. by apply (Hr j).
Qed.

(** *** The frame and the message *)

Lemma arp_recv_run kz h op src_h src_p dst_h dst_p :
  let b := net_rx (net h) in
  dtype (dev h) = NETWORK_TYPE_ETHERNET -> message b op src_h src_p dst_h dst_p ->
  arp_for_us dst_h (mac_addr (dev h)) = true -> src_p <> dev_ip (dev h) ->
  arp_recv kz h = arp_merge kz (bdata b) src_p (mac_addr (dev h)) h.
Proof.
  intros b Hty [Hl [Hh _] [Hp _] [Hd _] [Hi _] _ Hlow Ht] Hus Hne. set (a := bdata b) in *.
  apply lies_message in Hl as (L1 & L2 & L3 & L4 & _ & _ & L7 & L8 & _); [|done..].
  assert (forall off n, a <= off -> off + n <= a + 28 -> inside off n b = true) as Hin.
  { intros off n Ho Hn. rewrite inside_iff. lia. }
  assert (forall w off, a <= off -> off + Z.of_nat w <= a + 28 -> on_frame (ld w off) h = Ok (mem_load w (mem b) off, h)) as Hld.
  { intros w off Ho Hn. apply on_frame_read, ld_run. by apply Hin. }
  assert (forall off l, lies (mem b) off l -> a <= off -> off + Z.of_nat (length l) <= a + 28 ->
    on_frame (rd off (Z.of_nat (length l))) h = Ok (l, h)) as Hrd.
  { intros off l Hl Ho Hn. apply on_frame_read, rd_lies; [done|]. by apply Hin. }
  unfold arp_recv. rewrite (bind_ok _ _ _ _ _ (on_frame_read (gets bdata) h a eq_refl)).
  rewrite (bind_ok (gets id) _ h h h eq_refl), (bind_ok _ _ _ _ _ (Hld 2%nat a ltac:(lia) ltac:(lia))).
  rewrite (bind_ok _ _ _ _ _ (Hld 1%nat (a + 4) ltac:(lia) ltac:(lia))).
  rewrite (bind_ok _ _ _ _ _ (Hld 1%nat (a + 5) ltac:(lia) ltac:(lia))), Hty, !mem_load_1.
  apply lies_cons in L3 as [-> _]. apply lies_cons in L4 as [-> _].
  rewrite (load_lies2 _ _ _ _ L1), be_op by lia. cbn [Z.eqb Pos.eqb andb negb].
  replace (a + 8 + 6 + 4) with (a + 18) by lia. pose proof (Hrd (a + 18) dst_h L8) as E. rewrite Hd in E.
  rewrite (bind_ok _ _ _ _ _ (E ltac:(lia) ltac:(lia))), Hus. cbn [negb].
  rewrite (bind_ok _ _ _ _ _ (Hld 2%nat (a + 2) ltac:(lia) ltac:(lia))), (load_lies2 _ _ _ _ L2).
  change (BE2HOST_WORD (8 + 256 * 0) =? ETH_PROTO_TYPE_IPV4) with true. cbn [andb negb Z.eqb Pos.eqb].
  pose proof (Hrd (a + 14) src_p L7) as E2. rewrite Hp in E2.
  rewrite (bind_ok _ _ _ _ _ (E2 ltac:(lia) ltac:(lia))), bool_decide_false by done. done.
Qed.

(** The frame [p] fills a receive buffer. *)
Record framed (f : NetBuffer) (p : list Z) : Prop := {
  fr_lies : lies (mem f) (bdata f) p;
  fr_head : bhead f = bdata f;
  fr_low : 0 <= bdata f;
  fr_tail : btail f = bdata f + Z.of_nat (length p);
  fr_room : btail f <= room f;
  fr_size : Z.of_nat (length p) <= ETH_MAX_FRAME_SIZE
}.

Lemma frame_length dst src op src_h src_p dst_h dst_p :
  length dst = 6%nat -> length src = 6%nat -> length src_h = 6%nat -> length src_p = 4%nat ->
  length dst_h = 6%nat -> length dst_p = 4%nat -> length (arp_frame dst src op src_h src_p dst_h dst_p) = 42%nat.
Proof. intros. unfold arp_frame, arp_message. rewrite !length_app. simpl. lia. Qed.

(** A frame that starts with an ARP message is given to [arp_recv]. *)
Lemma eth_arp_run kz freq fuel udp_lh h f dst src op src_h src_p dst_h dst_p pad :
  framed f (arp_frame dst src op src_h src_p dst_h dst_p ++ pad) ->
  mac_ok dst -> mac_ok src -> mac_ok src_h -> address src_p -> mac_ok dst_h -> address dst_p -> 0 <= op < 256 ->
  let f' := with_data (bdata f + 14) f in
  eth_recv kz freq fuel udp_lh (host_rx h f) = arp_recv kz (host_rx h f') /\ message f' op src_h src_p dst_h dst_p.
Proof.
  intros [Hl Hh Hlow Ht Hr Hs] [Hdst _] [Hsrc _] Hsh Hsp Hdh Hdp Hop f'.
  pose proof (frame_length dst src op src_h src_p dst_h dst_p Hdst Hsrc (proj1 Hsh) (proj1 Hsp) (proj1 Hdh) (proj1 Hdp)) as Hlen.
  rewrite length_app, Hlen in *. apply lies_app in Hl as [Hl _].
  apply lies_frame in Hl as (_ & _ & L & Lm); [|done..]. unfold ETH_MAX_FRAME_SIZE in Hs.
  split; [|split; simpl; try done; lia].
  unfold eth_recv. rewrite (bind_ok _ _ _ _ _ (on_frame_read (gets id) (host_rx h f) f eq_refl)). cbv zeta.
  unfold ETH_MAX_FRAME_SIZE. destruct (Z.ltb_spec (btail f - bdata f) 14); [lia|].
  destruct (Z.gtb_spec (btail f - bdata f) 1792); [lia|].
  rewrite (bind_ok _ _ _ _ _ (on_frame_run (modify (with_data (bdata f + 14))) (host_rx h f) tt f' eq_refl)).
  change (host_rx (host_rx h f) f') with (host_rx h f').
  rewrite (bind_ok _ _ _ _ _ (on_frame_read _ (host_rx h f') _
    (ld_run 2 (bdata f + 12) f' ltac:(rewrite inside_iff; simpl; lia)))).
  change (mem f') with (mem f). by rewrite (load_lies2 _ _ _ _ L).
Qed.

(** ** Asking for an address *)

Lemma arp_send_request_run i e h :
  entries (dev h) !! i = Some e -> address (ip_addr e) -> arp_ready (arp_buffer (dev h)) ->
  mac_ok (mac_addr (dev h)) -> address (dev_ip (dev h)) ->
  exists b', arp_send_request i h = Ok (tt,
    mkHost (set_arp_buffer (set_table (dev h) (<[i := set_e_state NEIGH_STATE_WAITING e]> (entries (dev h))) (buckets (dev h))) b')
      (mkNet (conns (net h)) (tcp_lh (net h)) (net_rx (net h)) (net_now (net h)) (net_isn (net h))
        (net_sent (net h) ++ [arp_frame eth_broadcast_mac (mac_addr (dev h)) 1 (mac_addr (dev h)) (dev_ip (dev h))
                                (replicate 6 0) (ip_addr e)]) (net_wakes (net h)))) /\
    arp_ready b'.
Proof.
  intros He [Hl Hb] Hr Hm Hi. unfold arp_send_request.
  rewrite (bind_ok (gets id) _ h h h eq_refl), (bind_ok _ _ _ _ _ (entry_at_run i e h He)), Hl.
  rewrite (bind_ok (defined_if (4 <=? 4)%nat) _ h tt h eq_refl). rewrite take_ge by lia.
  destruct (arp_fill_run _ _ (ip_addr e) _ Hr Hm Hi (conj Hl Hb)) as (b' & E & Hr' & Hh & Ht & Hd & L). exists b'.
  set (h1 := mkHost (set_arp_buffer (dev h) b') (net h)).
  assert (on_arp (arp_fill (mac_addr (dev h)) (dev_ip (dev h)) (ip_addr e)) h = Ok (tt, h1)) as E1
    by (unfold on_arp; by rewrite E).
  rewrite (bind_ok _ _ _ _ _ E1), (bind_ok _ _ _ _ _ (upd_entry_run i _ e h1 He)).
  set (h2 := put_entry i _ h1). unfold arp_network_send.
  set (p := arp_frame _ _ _ _ _ _ _) in L |- *. set (a := bdata (arp_buffer (dev h))) in *.
  assert (length p = 42%nat) as Hp by (apply frame_length; [done|apply Hm|apply Hm|apply Hi|done|done]).
  assert (on_arp (b ← gets id ; rd (bhead b) (btail b - bhead b)) h2 = Ok (p, h2)) as E2.
  { unfold on_arp. change (arp_buffer (dev h2)) with b'. rewrite (bind_ok (gets id) _ b' b' b' eq_refl), Hh, Ht.
    replace (a + 28 - (a - 14)) with (Z.of_nat (length p)) by lia. destruct Hr'.
    rewrite rd_lies; [done|done|]. rewrite inside_iff. lia. }
  rewrite (bind_ok _ _ _ _ _ E2). by split.
Qed.

Lemma find_entry_run ip h l : Forall (fun i => is_Some (entries (dev h) !! i)) l ->
  exists r, find_entry ip l h = Ok (r, h) /\ found (ips (dev h)) l ip r.
Proof.
  induction 1 as [|i l [e He] _ (r & IH & Hr)]; cbn [find_entry].
  { exists None. split; [done|]. intros i Hi. by apply not_elem_of_nil in Hi. }
  rewrite (bind_ok _ _ _ _ _ (entry_at_run i e h He)). pose proof (ips_lookup _ _ _ He) as Hip. case_bool_decide as Hb.
  - exists (Some i). split; [done|]. split; [by left|congruence].
  - exists r. split; [done|]. by eapply found_cons_ne.
Qed.

(** A search finds the entry of the address, if there is one. *)
Lemma try_lookup_run h ip : wf h ->
  exists r, neighbour_table_try_lookup (ipv4_hash ip) ip h = Ok (r, h) /\
    (forall i, r = Some i <-> ips (dev h) !! i = Some ip).
Proof.
  intros Hwf. destruct (bucket_run h ip Hwf) as (l & Eb & Hl & Hall). unfold neighbour_table_try_lookup.
  rewrite (bind_ok _ _ _ _ _ Eb). destruct (find_entry_run ip h l Hall) as (r & E & Hr). exists r. split; [done|].
  intros i. split; [intros ->; apply Hr|]. intros Hi. destruct Hwf.
  destruct r as [j|]; simpl in Hr.
  - f_equal. eapply NoDup_lookup; [exact tw_ips|apply Hr|exact Hi].
  - destruct (tw_all i ip Hi) as (l' & Hl' & Hil). rewrite Hl in Hl'. injection Hl' as <-. by apply Hr in Hil.
Qed.

(** A host that can ask for addresses and answer. *)
Record host_up (h : Host) (mac ip : list Z) : Prop := {
  hr_wf : wf h; hr_free : all_free h; hr_haddrs : haddrs h;
  hr_type : dtype (dev h) = NETWORK_TYPE_ETHERNET;
  hr_mac : mac_addr (dev h) = mac; hr_mac_ok : mac_ok mac;
  hr_ip : dev_ip (dev h) = ip; hr_ip_ok : address ip;
  hr_arp : arp_ready (arp_buffer (dev h))
}.

(** The request for an address that is not known. *)
Lemma table_lookup_run h mac ip dst :
  host_up h mac ip -> address dst -> (forall j, ips (dev h) !! j <> Some dst) ->
  exists i h', neighbour_table_lookup true (ipv4_hash dst) dst h = Ok (i, h') /\ host_up h' mac ip /\
    (exists e, entries (dev h') !! i = Some e /\ e_state e = NEIGH_STATE_WAITING /\ ip_addr e = dst /\ haddr e = replicate 8 0) /\
    net_sent (net h') = net_sent (net h) ++ [arp_frame eth_broadcast_mac mac 1 mac ip (replicate 6 0) dst].
Proof.
  intros [] Hd Hnew. unfold neighbour_table_lookup.
  destruct (try_lookup_run h dst hr_wf0) as (r & E & Hr). rewrite (bind_ok _ _ _ _ _ E).
  destruct r as [i|]; [by destruct (Hnew i); apply Hr|].
  destruct (create_run h dst _ hr_wf0 hr_type0 eq_refl) as (l & Hl & Ec). set (j := length (entries (dev h))) in Ec.
  set (e0 := mkEntry false _ NEIGH_STATE_NONE 0 (replicate 8 0) true dst) in Ec. set (h2 := mkHost _ (net h)) in Ec.
  assert (entries (dev h2) !! j = Some e0) as He0 by (simpl; by rewrite lookup_app_r, Nat.sub_diag).
  rewrite (bind_ok _ _ _ _ _ Ec), (bind_ok (of_option (Some j)) _ h2 j h2 eq_refl).
  rewrite (bind_ok _ _ _ _ _ (entry_at_run j e0 h2 He0)), (bind_ok (defined_if (ops e0)) _ h2 tt h2 eq_refl).
  destruct (arp_send_request_run j e0 h2 He0 Hd hr_arp0) as (b' & Es & Hb'); [by rewrite <- hr_mac0 in hr_mac_ok0|by rewrite <- hr_ip0 in hr_ip_ok0|].
  assert (wf h2) as Hw2.
  { eapply (spec_create true (ips (dev h)) (buckets (dev h)) dst (ipv4_hash dst)); [done| |done| |exact Ec]; [|done].
    intros [k Hk]%list_elem_of_lookup. by apply Hnew in Hk. }
  assert (table (ips (dev h2)) (buckets (dev h2)) h2) as HT by done.
  destruct (table_fill_send _ _ j h2 _ _ HT Es) as [HT1 HT2].
  rewrite (bind_ok _ _ _ _ _ Es). eexists j, _. split; [done|]. split; [split; try done|].
  - unfold wf. by rewrite HT1, HT2.
  - intros k e Hk. apply list_lookup_insert_Some in Hk as [(_ & <- & _)|[_ Hk]]; [done|].
    simpl in Hk. apply lookup_app_Some in Hk as [Hk|[_ [_ <-]%list_lookup_singleton_Some]]; [by eapply hr_free0|done].
  - intros k e Hk. apply list_lookup_insert_Some in Hk as [(_ & <- & _)|[_ Hk]]; [done|].
    simpl in Hk. apply lookup_app_Some in Hk as [Hk|[_ [_ <-]%list_lookup_singleton_Some]]; [by eapply hr_haddrs0|done].
  - split; [|simpl; by rewrite hr_mac0, hr_ip0].
    eexists. split; [apply list_lookup_insert_eq; by eapply lookup_lt_Some|done].
Qed.
