(* ===== verification/ArpFacts.v ===== *)
(** * Neighbours and ARP: properties *)

From stdpp Require Import base tactics list functions relations.
From S2P Require Import Prelude CMonad Net NetSum Tcp TcpWire TcpOpen Arp ArpTable ArpWire.
Local Open Scope Z_scope.

(** ** Hosts of an example *)

Definition lan_mac (n : Z) : list Z := [2; 0; 0; 0; 0; n].
Definition lan_ip (n : Z) : list Z := [10; 0; 0; n].

(** A host of 10.0.0.0/24 that knows nobody, and one that knows 10.0.0.2. *)
Definition lan_device (n : Z) (es : list NeighbourEntry) (bs : list (list nat)) : Device :=
  mkDevice NETWORK_TYPE_ETHERNET (lan_mac n) (lan_ip n) [255; 255; 255; 0] (lan_ip 254)
    (mkNetBuffer (fun _ => 0) 1792 1792 14 14 14) (mkTimer true false 0 false) 0 0 ACD_STATE_NONE true 0 es bs.
Definition lan_net : Net := mkNet [] [] (mkNetBuffer (fun _ => 0) 0 0 0 0 0) 0 0 [] 0.
Definition no_buckets : list (list nat) := replicate (Z.to_nat NEIGH_BUCKET_SIZE) [].
Definition lan_host (n : Z) : Host := mkHost (lan_device n [] no_buckets) lan_net.
Definition known_entry : NeighbourEntry :=
  mkEntry false (ipv4_hash (lan_ip 2)) NEIGH_STATE_REACHABLE 6 (lan_mac 2 ++ [0; 0]) true (lan_ip 2).
Definition lan_knows2 (n : Z) : Host :=
  mkHost (lan_device n [known_entry] (<[slot (lan_ip 2) := [0%nat]]> no_buckets)) lan_net.

Lemma lan_mac_ok n : 0 <= n < 256 -> mac_ok (lan_mac n).
Proof. intros H. split; [done|]. repeat constructor; lia. Qed.

Lemma lan_ip_ok n : 0 <= n < 256 -> address (lan_ip n).
Proof. intros H. split; [done|]. repeat constructor; lia. Qed.

Lemma lan_arp_ready : arp_ready (mkNetBuffer (fun _ => 0) 1792 1792 14 14 14).
Proof. split; simpl; [lia..|]. intros x. lia. Qed.

Lemma lan_host_up n : 0 <= n < 256 -> host_up (lan_host n) (lan_mac n) (lan_ip n).
Proof.
  intros H. split; try done; auto using lan_mac_ok, lan_ip_ok, lan_arp_ready. apply table_wf_empty.
Qed.

Lemma lan_knows2_up n : 0 <= n < 256 -> host_up (lan_knows2 n) (lan_mac n) (lan_ip n).
Proof.
  intros H. split; try done; auto using lan_mac_ok, lan_ip_ok, lan_arp_ready.
  - apply (table_wf_insert [] no_buckets (lan_ip 2) []); [apply table_wf_empty|set_solver|].
    apply lookup_replicate. split; [done|apply slot_range].
  - by intros [|i] e [= <-].
  - by intros [|i] e [= <-].
Qed.

(** A receive buffer with these bytes. *)
Definition rx_frame (l : list Z) : NetBuffer :=
  mkNetBuffer (fun x => nth (Z.to_nat x) l 0) 1792 1792 0 0 (Z.of_nat (length l)).

(** ** The table *)

(** What may happen to a host: frames of any content, searches, the probes for its address,
    a new configuration, and whatever changes its connections. *)
Inductive host_step : Host -> Host -> Prop :=
| hs_frame kz freq fuel udp_lh b r h h' : eth_recv kz freq fuel udp_lh (host_rx h b) = Ok (r, h') -> host_step h h'
| hs_lookup kz ip r h h' : ipv4_lookup_start kz ip h = Ok (r, h') -> host_step h h'
| hs_probe h h' : acd_probe h = Ok (tt, h') -> host_step h h'
| hs_announce h h' : acd_announce h = Ok (tt, h') -> host_step h h'
| hs_timer kz h h' : acd_timer_callback kz h = Ok (tt, h') -> host_step h h'
| hs_configure ip mask gw h : host_step h (mkHost (set_dev_ip (dev h) ip mask gw) (net h))
| hs_net n h : host_step h (mkHost (dev h) n).

Lemma host_step_wf h h' : host_step h h' -> wf h -> wf h'.
Proof.
  intros H Hw. destruct H as [kz freq fuel udp_lh b r h h' E|kz ip r h h' E|h h' E|h h' E|kz h h' E|ip mask gw h|n h].
  - by eapply (wf_eth_recv kz freq fuel udp_lh (host_rx h b)).
  - by eapply (wf_lookup_start kz ip h).
  - injection E as <-. exact Hw.
  - injection E as <-. exact Hw.
  - by eapply (wf_acd_timer kz h).
  - exact Hw.
  - exact Hw.
Qed.

(** As long as the operations are done one after the other, the table of neighbours is a map
    from addresses: each address has at most one entry, and a search finds it exactly if
    there is one. *)
Theorem neighbours_unique (h0 h h' : Host) (ip : list Z)
    (Hempty : entries (dev h0) = []) (Hinit : neighbour_init h0 = Ok (tt, h)) (H : rtc host_step h h') :
  exists r, neighbour_table_try_lookup (ipv4_hash ip) ip h' = Ok (r, h') /\
    (forall i, r = Some i <-> exists e, entries (dev h') !! i = Some e /\ ip_addr e = ip).
Proof.
  assert (wf h) as Hw.
  { injection Hinit as <-. unfold wf, ips. simpl. rewrite Hempty. apply table_wf_empty. }
  assert (wf h') as Hw'.
  { clear Hinit. induction H as [|h h1 h' H1 _ IH]; [done|]. apply IH. by eapply host_step_wf. }
  destruct (try_lookup_run h' ip Hw') as (r & E & Hr). exists r. split; [done|]. intros i. rewrite Hr. split.
  - apply ips_lookup_inv.
  - intros (e & He & <-). by apply ips_lookup.
Qed.

Lemma neighbours_unique_witness :
  let h := lan_host 1 in
  let h' := match ipv4_lookup_start true (lan_ip 2) h with Ok (_, h') => h' | _ => h end in
  entries (dev h) = [] /\ neighbour_init h = Ok (tt, h) /\ rtc host_step h h' /\
  neighbour_table_try_lookup (ipv4_hash (lan_ip 2)) (lan_ip 2) h' = Ok (Some 0%nat, h').
Proof.
  cbv zeta. set (h' := match _ with Ok (_, h') => h' | _ => _ end).
  assert (ipv4_lookup_start true (lan_ip 2) (lan_host 1) = Ok (inr 0%nat, h')) as E by (vm_compute; reflexivity).
  pose proof (rtc_once _ _ (hs_lookup true (lan_ip 2) _ (lan_host 1) h' E)) as H.
  destruct (neighbours_unique (lan_host 1) (lan_host 1) h' (lan_ip 2) eq_refl eq_refl H) as (r & Er & Hr).
  assert (exists e, entries (dev h') !! 0%nat = Some e /\ ip_addr e = lan_ip 2) as He
    by (eexists; split; vm_compute; reflexivity).
  rewrite (proj2 (Hr 0%nat) He) in Er. exact (conj eq_refl (conj eq_refl (conj H Er))).
Defined.

(** ** Resolution *)

(** The host knows the hardware address. *)
Definition knows (h : Host) (ip mac : list Z) : Prop :=
  exists i e, entries (dev h) !! i = Some e /\ ip_addr e = ip /\ e_state e = NEIGH_STATE_REACHABLE /\ take 6 (haddr e) = mac.

Lemma take_mac (mac l : list Z) : length mac = 6%nat -> take 6 (mac ++ l) = mac.
Proof. intros H. by rewrite take_app_length'. Qed.

(** The frame after its message was replaced. *)
Lemma answer_frame f m mac mac' ip ip' pad dst_h dst_p :
  mac_ok mac -> mac_ok mac' -> address ip -> address ip' -> mac_ok dst_h -> address dst_p ->
  framed f (arp_frame eth_broadcast_mac mac' 1 mac' ip' dst_h dst_p ++ pad) ->
  lies m (bdata f + 14) (arp_message 2 mac ip mac' ip') ->
  (forall x, x < bdata f + 14 \/ bdata f + 14 + 28 <= x -> m x = mem f x) ->
  bytes_at m (bhead f) (Z.to_nat (btail f - bhead f)) = arp_frame eth_broadcast_mac mac' 2 mac ip mac' ip' ++ pad.
Proof.
  intros [Hm _] [Hm' _] [Hi _] [Hi' _] [Hd _] [Hdp _] [Fl Fh Fb Ft _ _] Lm X.
  assert (length (arp_frame eth_broadcast_mac mac' 1 mac' ip' dst_h dst_p) = 42%nat) as N1 by (by apply frame_length).
  assert (length (arp_frame eth_broadcast_mac mac' 2 mac ip mac' ip') = 42%nat) as N2 by (by apply frame_length).
  rewrite length_app, N1 in Ft. rewrite Fh.
  replace (Z.to_nat (btail f - bdata f)) with (length (arp_frame eth_broadcast_mac mac' 2 mac ip mac' ip' ++ pad))
    by (rewrite length_app, N2; lia).
  change (lies m (bdata f) (arp_frame eth_broadcast_mac mac' 2 mac ip mac' ip' ++ pad)).
  apply lies_app in Fl as [Fl Fp]. rewrite N1 in Fp. apply lies_frame in Fl as (L1 & L2 & L3 & _); [|done..].
  apply lies_app. rewrite N2. split; [apply lies_frame; [done..|]; repeat split; [| | |done]|];
    (eapply lies_same; [|eassumption]; intros x Hx; apply X; simpl in Hx; lia).
Qed.

(** A host that is asked for its address answers; what follows the message stays. *)
Lemma request_answered freq fuel udp_lh h mac ip f mac' ip' pad :
  host_up h mac ip -> mac_ok mac' -> address ip' -> ip' <> ip ->
  framed f (arp_frame eth_broadcast_mac mac' 1 mac' ip' (replicate 6 0) ip ++ pad) ->
  exists h', eth_recv true freq fuel udp_lh (host_rx h f) = Ok (PROTO_OK, h') /\ knows h' ip' mac' /\
    net_sent (net h') = net_sent (net h) ++ [arp_frame eth_broadcast_mac mac' 2 mac ip mac' ip' ++ pad].
Proof.
  intros [] Hm Hi Hne F. assert (mac_ok (replicate 6 0)) as Hz by (split; [done|repeat constructor; lia]).
  destruct (eth_arp_run true freq fuel udp_lh h f eth_broadcast_mac mac' 1 mac' ip' (replicate 6 0) ip pad)
    as [-> Hmsg]; [done|apply eth_broadcast_ok|done..|].
  set (h1 := host_rx h (with_data (bdata f + 14) f)) in *. rewrite <- hr_ip, <- hr_mac in *.
  rewrite (arp_recv_run true h1 1 mac' ip' (replicate 6 0) (dev_ip (dev h)));
    [|done|done|unfold arp_for_us; by rewrite (bool_decide_true (replicate 6 0 = replicate 6 0)), orb_true_r|done].
  destruct (arp_merge_run h1 1 mac' ip' (replicate 6 0) (mac_addr (dev h1))) as (i & h' & E & [He _ _ _ Hn]); [done..|].
  exists h'. split; [done|]. split.
  - destruct He as (e & He & Hp & _). exists i, (learnt mac' e). split; [done|]. split; [done|]. split; [done|].
    apply take_mac, Hm.
  - destruct Hn as (m & -> & Lm & X). simpl in Lm, X.
    rewrite <- (answer_frame f m (mac_addr (dev h)) mac' (dev_ip (dev h)) ip' pad (replicate 6 0) (dev_ip (dev h))); done.
Qed.

(** The answer is taken by the host that asked. *)
Lemma answer_taken freq fuel udp_lh h mac ip f mac' ip' pad i e :
  host_up h mac ip -> mac_ok mac' -> address ip' -> ip' <> ip ->
  framed f (arp_frame eth_broadcast_mac mac 2 mac' ip' mac ip ++ pad) ->
  entries (dev h) !! i = Some e -> ip_addr e = ip' ->
  exists h' e', eth_recv true freq fuel udp_lh (host_rx h f) = Ok (PROTO_OK, h') /\ net_sent (net h') = net_sent (net h) /\
    entries (dev h') !! i = Some (learnt mac' e').
Proof.
  intros [] Hm Hi Hne F Hei Hip.
  destruct (eth_arp_run true freq fuel udp_lh h f eth_broadcast_mac mac 2 mac' ip' mac ip pad)
    as [-> Hmsg]; [done|apply eth_broadcast_ok|done..|].
  set (h1 := host_rx h (with_data (bdata f + 14) f)) in *. rewrite <- hr_ip, <- hr_mac in *.
  rewrite (arp_recv_run true h1 2 mac' ip' (mac_addr (dev h)) (dev_ip (dev h)));
    [|done|done|unfold arp_for_us; by rewrite bool_decide_true|done].
  destruct (arp_merge_run h1 2 mac' ip' (mac_addr (dev h)) (mac_addr (dev h1))) as (j & h' & E & [He Hf _ _ Hn]); [done..|].
  destruct He as (e' & He & _). rewrite (Hf i) by (rewrite <- Hip; by apply ips_lookup). exists h', e'.
  split; [done|]. split; [by rewrite Hn|done].
Qed.

(** C19. Address resolution: a host that does not know the hardware address of another one in
    its subnet sends a request and waits; the host that is asked learns the address of the
    first one and answers, and the answer, in whatever receive buffer, gives the first host
    the address it waited for.  The answer carries the Ethernet header of the request. *)
Theorem address_resolved (freqa freqb : Z) (fuel : nat) (udpa udpb : list Conn) (A B : Host) (maca ipa macb ipb : list Z)
    (RA : host_up A maca ipa) (RB : host_up B macb ipb) (Hne : ipa <> ipb)
    (Hsub : same_subnet (subnet_mask (dev A)) ipb (gateway_ip (dev A)) = true)
    (Hnew : forall j, ips (dev A) !! j <> Some ipb) :
  exists i A1 p1, ipv4_lookup_start true ipb A = Ok (inr i, A1) /\
    net_sent (net A1) = net_sent (net A) ++ [p1] /\ ipv4_lookup_end i A1 = NoFuel /\
  forall f1 pad1, framed f1 (p1 ++ pad1) ->
  exists B1 p2, eth_recv true freqb fuel udpb (host_rx B f1) = Ok (PROTO_OK, B1) /\
    net_sent (net B1) = net_sent (net B) ++ [p2] /\ knows B1 ipa maca /\ take 14 p2 = take 14 p1 /\
  forall f2 pad2, framed f2 (p2 ++ pad2) ->
  exists A2 mac, eth_recv true freqa fuel udpa (host_rx A1 f2) = Ok (PROTO_OK, A2) /\
    ipv4_lookup_end i A2 = Ok (mac, A2) /\ take 6 mac = macb.
Proof.
  pose proof RA as []. pose proof RB as [].
  destruct (table_lookup_run A maca ipa ipb RA) as (i & A1 & E1 & R1 & (e & He & Hs & Hp & _) & S1); [done|done|].
  exists i, A1. eexists. split; [unfold ipv4_lookup_start; rewrite (bind_ok (gets id) _ A A A eq_refl); cbv zeta;
    by rewrite Hsub, (bind_ok _ _ _ _ _ E1)|]. split; [exact S1|].
  split; [unfold ipv4_lookup_end; rewrite (bind_ok _ _ _ _ _ (entry_at_run i e A1 He)), Hs; done|].
  intros f1 pad1 F1. destruct (request_answered freqb fuel udpb B macb ipb f1 maca ipa pad1) as (B1 & E2 & K & S2); [done..|].
  exists B1. eexists. split; [exact E2|]. split; [exact S2|]. split; [exact K|]. split.
  { unfold arp_frame. pose proof (proj1 hr_mac_ok). rewrite <- !app_assoc.
    rewrite !(app_assoc eth_broadcast_mac maca), !(app_assoc _ [8; 6]), !take_app_length'; [done|..];
      rewrite !length_app; simpl; lia. }
  intros f2 pad2 F2. rewrite <- app_assoc in F2.
  destruct (answer_taken freqa fuel udpa A1 maca ipa f2 macb ipb (pad1 ++ pad2) i e) as (A2 & e' & E3 & _ & He'); [done..|].
  exists A2. eexists. split; [exact E3|]. unfold ipv4_lookup_end.
  rewrite (bind_ok _ _ _ _ _ (entry_at_run i _ A2 He')). split; [done|]. apply take_mac, hr_mac_ok0.
Qed.

Lemma address_resolved_witness :
  host_up (lan_host 1) (lan_mac 1) (lan_ip 1) /\ host_up (lan_host 2) (lan_mac 2) (lan_ip 2) /\ lan_ip 1 <> lan_ip 2 /\
  exists i A1 p1, ipv4_lookup_start true (lan_ip 2) (lan_host 1) = Ok (inr i, A1) /\ net_sent (net A1) = [p1].
Proof.
  pose proof (lan_host_up 1 ltac:(lia)) as R1. pose proof (lan_host_up 2 ltac:(lia)) as R2.
  assert (lan_ip 1 <> lan_ip 2) as Hne by done.
  destruct (address_resolved 100 100 0 [] [] _ _ _ _ _ _ R1 R2 Hne eq_refl ltac:(done)) as (i & A1 & p1 & E & S & _).
  exact (conj R1 (conj R2 (conj Hne (ex_intro _ i (ex_intro _ A1 (ex_intro _ p1 (conj E S))))))).
Defined.

(** ** Locks *)

(** A frame with an IPv4 packet from [src]. *)
Record ipv4_frame (f : NetBuffer) (src : list Z) : Prop := {
  if_type : lies (mem f) (bdata f + 12) [8; 0];
  if_src : lies (mem f) (bdata f + 26) src;
  if_low : 0 <= bdata f;
  if_size : 34 <= btail f - bdata f <= ETH_MAX_FRAME_SIZE;
  if_room : btail f <= room f
}.

(** A message that is not for this host, from a neighbour that it knows. *)
Lemma foreign_merged h op src_h src_p dst_h dst_p mac i e :
  let b := net_rx (net h) in
  wf h -> all_free h -> message b op src_h src_p dst_h dst_p -> dst_p <> dev_ip (dev h) ->
  entries (dev h) !! i = Some e -> ip_addr e = src_p ->
  arp_merge true (bdata b) src_p mac h = Ok (PROTO_OK, put_entry i (set_lock true e) h).
Proof.
  intros b Hwf Hf [Hl [Hh _] [Hp _] [Hd _] [Hi _] _ Hlow Ht] Hne He Hpe. unfold arp_merge. cbv zeta.
  destruct (bucket_run h src_p Hwf) as (l & Eb & Hl' & Hall). rewrite (bind_ok _ _ _ _ _ Eb).
  destruct (merge_loop_run src_p h l Hf Hall) as (r & Er & Hr). rewrite (bind_ok _ _ _ _ _ Er).
  assert (ips (dev h) !! i = Some src_p) as Hip by (rewrite <- Hpe; by apply ips_lookup).
  destruct Hwf. destruct r as [j|].
  2:{ destruct (tw_all i src_p Hip) as (l' & Hl2 & Hil). rewrite Hl' in Hl2. injection Hl2 as <-. by apply Hr in Hil. }
  assert (j = i) as -> by (eapply NoDup_lookup; [exact tw_ips|apply Hr|exact Hip]).
  simpl lock_found. rewrite He. set (h1 := put_entry i (set_lock true e) h).
  rewrite (bind_ok (gets id) _ h1 h1 h1 eq_refl).
  apply lies_message in Hl as (_ & _ & _ & _ & _ & _ & _ & _ & L9); [|done..].
  pose proof (rd_lies (bdata b + 24) dst_p b L9) as Hrd. rewrite Hi in Hrd.
  rewrite (bind_ok _ _ _ _ _ (on_frame_read _ h1 _ (Hrd ltac:(rewrite inside_iff; lia)))), bool_decide_false; done.
Qed.

(** The packet of a neighbour whose entry is locked. *)
Lemma locked_hangs kz freq fuel udp_lh h f src i e :
  wf h -> entries (dev h) !! i = Some e -> ip_addr e = src -> e_lock e = true ->
  ipv4_frame f src -> length src = 4%nat -> src <> ipv4_null_addr -> src <> ipv4_broadcast_addr ->
  eth_recv kz freq fuel udp_lh (host_rx h f) = NoFuel.
Proof.
  intros Hwf He Hp Hl [L1 L2 Hlow Hs Hr] H4 Hn Hb. unfold eth_recv, ETH_MAX_FRAME_SIZE in *.
  rewrite (bind_ok _ _ _ _ _ (on_frame_read (gets id) (host_rx h f) f eq_refl)). cbv zeta.
  destruct (Z.ltb_spec (btail f - bdata f) 14); [lia|]. destruct (Z.gtb_spec (btail f - bdata f) 1792); [lia|].
  set (f' := with_data (bdata f + 14) f).
  rewrite (bind_ok _ _ _ _ _ (on_frame_run (modify (with_data (bdata f + 14))) (host_rx h f) tt f' eq_refl)).
  change (host_rx (host_rx h f) f') with (host_rx h f'). set (h1 := host_rx h f').
  rewrite (bind_ok _ _ _ _ _ (on_frame_read _ h1 _ (ld_run 2 (bdata f + 12) f' ltac:(rewrite inside_iff; simpl; lia)))).
  change (mem f') with (mem f). rewrite (load_lies2 _ _ _ _ L1).
  change (BE2HOST_WORD (8 + 256 * 0) =? ETH_PROTO_TYPE_IPV4) with true. cbv iota.
  rewrite (bind_ok _ _ _ _ _ (on_frame_read _ h1 _ (rd_run (bdata f + 6) 6 f' ltac:(rewrite inside_iff; simpl; lia)))).
  enough (forall mac, ipv4_neigh_update kz mac h1 = NoFuel) as E by (unfold bind at 1; by rewrite E).
  intros mac. unfold ipv4_neigh_update.
  rewrite (bind_ok _ _ _ _ _ (on_frame_read (gets bdata) h1 (bdata f + 14) eq_refl)).
  pose proof (rd_lies (bdata f + 26) src f' L2) as Hrd. rewrite H4 in Hrd. replace (bdata f + 14 + 12) with (bdata f + 26) by lia.
  rewrite (bind_ok _ _ _ _ _ (on_frame_read _ h1 _ (Hrd ltac:(rewrite inside_iff; simpl; lia)))).
  rewrite !bool_decide_false by done. cbn [orb].
  destruct (try_lookup_run h1 src Hwf) as (r & E & Hlook). rewrite (bind_ok _ _ _ _ _ E).
  assert (r = Some i) as -> by (apply Hlook; rewrite <- Hp; by apply ips_lookup).
  rewrite (bind_ok (ret (Some i)) _ h1 (Some i) h1 eq_refl). unfold bind at 1. by rewrite (spin_lock_taken i e h1 He Hl).
Qed.

(** C29. An ARP message of a known neighbour that is about another host (as every request in
    the subnet is) leaves the entry of the neighbour locked; from then on the reception of
    any IPv4 packet of this neighbour does not return. *)
Theorem foreign_message_locks (freq : Z) (fuel : nat) (udp_lh : list Conn) (h : Host) (mac ip : list Z) (i : nat)
    (e : NeighbourEntry) (f : NetBuffer) (dst src : list Z) (op : Z) (src_h src_p dst_h dst_p pad : list Z)
    (R : host_up h mac ip) (He : entries (dev h) !! i = Some e) (Hp : ip_addr e = src_p)
    (F : framed f (arp_frame dst src op src_h src_p dst_h dst_p ++ pad))
    (Hdst : mac_ok dst) (Hsrc : mac_ok src) (Hsh : mac_ok src_h) (Hsp : address src_p) (Hdh : mac_ok dst_h)
    (Hdp : address dst_p) (Hop : 0 <= op < 256)
    (Hus : arp_for_us dst_h mac = true) (Hne : src_p <> ip) (Hother : dst_p <> ip)
    (Hnull : src_p <> ipv4_null_addr) (Hbc : src_p <> ipv4_broadcast_addr) :
  exists h', eth_recv true freq fuel udp_lh (host_rx h f) = Ok (PROTO_OK, h') /\
    forall kz freq' fuel' udp_lh' f', ipv4_frame f' src_p -> eth_recv kz freq' fuel' udp_lh' (host_rx h' f') = NoFuel.
Proof.
  destruct (eth_arp_run true freq fuel udp_lh h f dst src op src_h src_p dst_h dst_p pad) as [E Hmsg]; [done..|].
  pose proof R as []. set (h1 := host_rx h (with_data (bdata f + 14) f)) in *. rewrite <- hr_ip, <- hr_mac in *.
  exists (put_entry i (set_lock true e) h1).
  assert (eth_recv true freq fuel udp_lh (host_rx h f) = Ok (PROTO_OK, put_entry i (set_lock true e) h1)) as Eh.
  { rewrite E, (arp_recv_run true h1 op src_h src_p dst_h dst_p) by done. by eapply (foreign_merged h1). }
  split; [done|]. intros kz freq' fuel' udp_lh' f' F'.
  apply (locked_hangs kz freq' fuel' udp_lh' _ f' src_p i (set_lock true e)); try done.
  - by eapply (wf_eth_recv true freq fuel udp_lh (host_rx h f)).
  - by eapply (put_entry_at i e).
  - apply Hsp.
Qed.

Definition foreign_request : list Z :=
  arp_frame eth_broadcast_mac (lan_mac 2) 1 (lan_mac 2) (lan_ip 2) (replicate 6 0) (lan_ip 3).
Definition packet_from2 : NetBuffer := rx_frame (lan_mac 1 ++ lan_mac 2 ++ [8; 0] ++ replicate 12 0 ++ lan_ip 2 ++ lan_ip 1).

Lemma foreign_message_locks_witness :
  let h := lan_knows2 1 in
  host_up h (lan_mac 1) (lan_ip 1) /\ framed (rx_frame foreign_request) foreign_request /\
  ipv4_frame packet_from2 (lan_ip 2) /\
  exists h', eth_recv true 100 0 [] (host_rx h (rx_frame foreign_request)) = Ok (PROTO_OK, h') /\
    eth_recv true 100 0 [] (host_rx h' packet_from2) = NoFuel.
Proof.
  cbv zeta. pose proof (lan_knows2_up 1 ltac:(lia)) as R.
  assert (framed (rx_frame foreign_request) (foreign_request ++ [])) as F by (rewrite app_nil_r; by split; vm_compute).
  assert (ipv4_frame packet_from2 (lan_ip 2)) as P by (by split; vm_compute).
  pose proof (lan_mac_ok 2 ltac:(lia)) as M2. pose proof (lan_ip_ok 2 ltac:(lia)) as I2.
  destruct (foreign_message_locks 100 0 [] _ _ _ 0%nat known_entry _ eth_broadcast_mac (lan_mac 2) 1 (lan_mac 2) (lan_ip 2)
    (replicate 6 0) (lan_ip 3) [] R eq_refl eq_refl F eth_broadcast_ok M2 M2 I2
    ltac:(split; [done|repeat constructor; lia]) (lan_ip_ok 3 ltac:(lia)) ltac:(lia) eq_refl ltac:(done) ltac:(done)
    ltac:(done) ltac:(done)) as (h' & E & H).
  rewrite app_nil_r in F. exact (conj R (conj F (conj P (ex_intro _ h' (conj E (H true 100 0%nat [] _ P)))))).
Defined.
