(* ===== verification/ArpThreads.v ===== *)
(** * The table of neighbours under threads that overlap

    A bucket is locked for each search and for each insertion, but not from the one to the
    other.  Here the operations on the table are cut into the pieces that are done under a
    lock, and the pieces of several threads interleave. *)

From stdpp Require Import base tactics list functions relations.
From S2P Require Import Prelude CMonad Net NetSum Tcp TcpWire TcpOpen Arp ArpTable ArpWire ArpFacts.
Local Open Scope Z_scope.

(** ** Threads *)

(** What is left of a thread: nothing, or a section that nobody interrupts and that says what
    is left afterwards. *)
Inductive thread : Type := Done | Sect (m : M Host thread).

Section threads.
Context (kzalloc_ok : bool).

(** [neighbour_table_lookup]: the search, the new entry, the request. *)
Definition lookup_thread (ip : list Z) : thread :=
  Sect (r ← neighbour_table_try_lookup (ipv4_hash ip) ip ;
    match r with
    | Some _ => ret Done
    | None => ret (
      Sect (r ← neighbour_entry_create kzalloc_ok (ipv4_hash ip) ip ;
        i ← of_option r ;
        ret (Sect (e ← entry_at i ; defined_if (ops e) ;; arp_send_request i ;; ret Done))))
    end).

(** [ipv4_neigh_update] for a packet from [ip]: the search, the new entry, the address. *)
Definition update_thread (ip mac : list Z) : thread :=
  let learn i :=
    Sect (spin_lock i ;; upd_entry i (fun e => set_haddr mac (set_e_state NEIGH_STATE_REACHABLE e)) ;;
      spin_unlock i ;; ret Done) in
  Sect (r ← neighbour_table_try_lookup (ipv4_hash ip) ip ;
    match r with
    | Some i => ret (learn i)
    | None => ret (
      Sect (r ← neighbour_entry_create kzalloc_ok (ipv4_hash ip) ip ;
        ret (match r with Some i => learn i | None => Done end)))
    end).

(** [arp_recv] from the search on; the entry that was found is locked. *)
Definition merge_thread (hdr : Z) (src_p mac : list Z) : thread :=
  let hash_key := ipv4_hash src_p mod NEIGH_BUCKET_SIZE in
  let learn i := Sect (arp_learn i hdr src_p mac ;; ret Done) in
  Sect (l ← bucket hash_key ; found ← merge_loop src_p l ;
    ret (Sect (h ← gets id ; dst_p ← on_frame (rd (hdr + 24) 4) ;
      if negb (bool_decide (dst_p = dev_ip (dev h))) then ret Done
      else match found with
           | Some i => ret (learn i)
           | None => ret (
             Sect (r ← neighbour_entry_create kzalloc_ok hash_key src_p ;
               ret (match r with Some i => Sect (spin_lock i ;; ret (learn i)) | None => Done end)))
           end))).
End threads.

(** A thread that runs without interruption. *)
Fixpoint alone (t : thread) : M Host unit := fun h =>
  match t with
  | Done => Ok (tt, h)
  | Sect m =>
    match m h with
    | Ok (t, h) => alone t h
    | Undef => Undef
    | NoFuel => NoFuel
    end
  end.

(** *** Alone, they are the operations *)

Lemma alone_lookup kz ip h :
  alone (lookup_thread kz ip) h = (neighbour_table_lookup kz (ipv4_hash ip) ip ;; ret tt)%c h.
Proof.
  unfold lookup_thread, neighbour_table_lookup, bind. cbn [alone].
  destruct (neighbour_table_try_lookup _ _ h) as [[[i|] h1]| |]; [done| |done|done]. cbn [alone ret].
  destruct (neighbour_entry_create _ _ _ h1) as [[[i|] h2]| |]; [|done|done|done]. cbn [alone of_option ret].
  destruct (entry_at i h2) as [[e h3]| |]; [|done|done].
  destruct (defined_if (ops e) h3) as [[[] h4]| |]; [|done|done].
  by destruct (arp_send_request i h4) as [[[] h5]| |].
Qed.

Lemma alone_update kz mac h :
  ipv4_neigh_update kz mac h =
    (hdr ← on_frame (gets bdata) ;
     ip ← on_frame (rd (hdr + 12) 4) ;
     if bool_decide (ip = ipv4_null_addr) || bool_decide (ip = ipv4_broadcast_addr) then ret tt
     else alone (update_thread kz ip mac))%c h.
Proof.
  unfold ipv4_neigh_update, update_thread, bind. destruct (on_frame (gets bdata) h) as [[hdr h0]| |]; [|done|done].
  destruct (on_frame (rd (hdr + 12) 4) h0) as [[ip h1]| |]; [|done|done].
  destruct (_ || _); [done|]. cbn [alone].
  destruct (neighbour_table_try_lookup _ _ h1) as [[[i|] h2]| |]; [| |done|done]; cbn [alone ret].
  - destruct (spin_lock i h2) as [[[] h3]| |]; [|done|done].
    destruct (upd_entry i _ h3) as [[[] h4]| |]; [|done|done]. by destruct (spin_unlock i h4) as [[[] h5]| |].
  - destruct (neighbour_entry_create _ _ _ h2) as [[[i|] h3]| |]; [|done|done|done]; cbn [alone ret].
    destruct (spin_lock i h3) as [[[] h4]| |]; [|done|done].
    destruct (upd_entry i _ h4) as [[[] h5]| |]; [|done|done]. by destruct (spin_unlock i h5) as [[[] h6]| |].
Qed.

Lemma alone_merge kz hdr src_p mac h :
  alone (merge_thread kz hdr src_p mac) h = (arp_merge kz hdr src_p mac ;; ret tt)%c h.
Proof.
  unfold merge_thread, arp_merge, bind. cbn [alone].
  destruct (bucket _ h) as [[l h1]| |]; [|done|done].
  destruct (merge_loop src_p l h1) as [[found h2]| |]; [|done|done]. cbn [alone ret gets].
  destruct (on_frame (rd (hdr + 24) 4) h2) as [[dst_p h3]| |]; [|done|done].
  destruct (negb _); [done|]. destruct found as [i|]; cbn [alone ret].
  - by destruct (arp_learn i hdr src_p mac h3) as [[? h4]| |].
  - destruct (neighbour_entry_create _ _ _ h3) as [[[i|] h4]| |]; [|done|done|done]. cbn [alone ret].
    destruct (spin_lock i h4) as [[[] h5]| |]; [|done|done]. cbn [alone ret].
    by destruct (arp_learn i hdr src_p mac h5) as [[? h6]| |].
Qed.

(** ** Interleavings *)

Definition Pool : Type := Host * list thread.

(** A section of one of the threads is done; a thread for a packet that is sent or received
    is started; or something is done that leaves the table alone: a frame arrives, the
    address of the host changes, entries and connections are used. *)
Inductive pool_step : Pool -> Pool -> Prop :=
| ps_section j m t h h' ts : ts !! j = Some (Sect m) -> m h = Ok (t, h') -> pool_step (h, ts) (h', <[j := t]> ts)
| ps_lookup kz ip h ts : pool_step (h, ts) (h, ts ++ [lookup_thread kz ip])
| ps_update kz ip mac h ts : pool_step (h, ts) (h, ts ++ [update_thread kz ip mac])
| ps_merge kz hdr src_p mac h ts : pool_step (h, ts) (h, ts ++ [merge_thread kz hdr src_p mac])
| ps_other h h' ts : table (ips (dev h)) (buckets (dev h)) h' -> pool_step (h, ts) (h', ts).

Definition in_place (h : Host) : Prop := placed (ips (dev h)) (buckets (dev h)).

(** All sections of a thread keep the entries in place. *)
Inductive safe : thread -> Prop :=
| safe_done : safe Done
| safe_sect m : (forall h t h', in_place h -> m h = Ok (t, h') -> in_place h' /\ safe t) -> safe (Sect m).

Lemma in_place_table {A} (m : M Host A) : (forall il bs, keeps (table il bs) m) -> keeps in_place m.
Proof.
  intros Hm h a h' H E. destruct (Hm _ _ h a h' (conj eq_refl eq_refl) E) as [Hi Hb]. unfold in_place. by rewrite Hi, Hb.
Qed.

Lemma in_place_create kz k ip : k mod NEIGH_BUCKET_SIZE = ipv4_hash ip mod NEIGH_BUCKET_SIZE ->
  keeps in_place (neighbour_entry_create kz k ip).
Proof.
  intros Hk h r h' H E. unfold in_place.
  destruct (create_table kz _ _ ip k Hk h r h' (conj eq_refl eq_refl) E) as [[-> ->]|(l & Hl & [-> ->])]; [done|].
  by apply placed_insert.
Qed.

Lemma in_place_search k ip : keeps in_place (neighbour_table_try_lookup k ip).
Proof.
  apply in_place_table. intros il bs. eapply keeps_bind.
  - eapply spec_weaken; [apply table_bucket|]. by intros ? ? [].
  - intros l. eapply spec_weaken; [apply spec_find_entry|]. by intros ? ? [].
Qed.

Lemma safe_then {A} (m : M Host A) (k : A -> M Host thread) :
  keeps in_place m -> (forall a, safe (Sect (k a))) -> safe (Sect (bind m k)).
Proof.
  intros Hm Hk. constructor. intros h t h' H (a & h1 & E1 & E2)%bind_inv.
  specialize (Hk a). inversion Hk as [|? Hs]; subst. eapply Hs; [by eapply Hm|done].
Qed.

Lemma safe_ret t : safe t -> safe (Sect (ret t)).
Proof. intros Ht. constructor. by intros h t' h' H [= <- <-]. Qed.

Ltac safe_auto := repeat first
  [ apply safe_done | apply safe_ret
  | apply safe_then; [solve [apply in_place_search | by apply in_place_create | apply keeps_of_option
                            | apply in_place_table; intros; eauto 2 using table_learn, table_fill_send with arp nocore]|intros] ].

Lemma safe_lookup kz ip : safe (lookup_thread kz ip).
Proof. unfold lookup_thread. safe_auto. destruct a; safe_auto. Qed.

Lemma safe_update kz ip mac : safe (update_thread kz ip mac).
Proof. unfold update_thread. safe_auto. destruct a; safe_auto. destruct a; safe_auto. Qed.

Lemma in_place_merge ip l : keeps in_place (merge_loop ip l).
Proof. apply in_place_table. intros il bs. eapply spec_weaken; [apply spec_merge_loop|]. by intros ? ? []. Qed.

Lemma in_place_bucket k : keeps in_place (bucket k).
Proof. apply in_place_table. intros il bs. eapply spec_weaken; [apply table_bucket|]. by intros ? ? []. Qed.

Lemma safe_merge kz hdr src_p mac : safe (merge_thread kz hdr src_p mac).
Proof.
  unfold merge_thread. cbv zeta. apply safe_then; [apply in_place_bucket|intros l].
  apply safe_then; [apply in_place_merge|intros found]. safe_auto. destruct (negb _); [safe_auto|].
  destruct found as [i|]; [safe_auto|]. apply safe_ret, safe_then; [|intros [i|]; safe_auto].
  apply in_place_create, Z.mod_mod. done.
Qed.

Lemma pool_step_safe p p' : pool_step p p' ->
  in_place p.1 /\ Forall safe p.2 -> in_place p'.1 /\ Forall safe p'.2.
Proof.
  intros H [Hp Ht]. destruct H as [j m t h h' ts Hj E|kz ip h ts|kz ip mac h ts|kz hdr src_p mac h ts|h h' ts [Hi Hb]];
    cbn [fst snd] in *.
  - pose proof (Forall_lookup_1 _ _ _ _ Ht Hj) as Hs. inversion Hs as [|? Hm]; subst.
    destruct (Hm h t h' Hp E) as [Hp' Hs']. split; [done|]. by apply Forall_insert.
  - split; [done|]. apply Forall_app. split; [done|]. constructor; [apply safe_lookup|done].
  - split; [done|]. apply Forall_app. split; [done|]. constructor; [apply safe_update|done].
  - split; [done|]. apply Forall_app. split; [done|]. constructor; [apply safe_merge|done].
  - split; [|done]. unfold in_place. by rewrite Hi, Hb.
Qed.

Lemma pool_safe p p' : rtc pool_step p p' -> in_place p.1 -> p.2 = [] -> in_place p'.1.
Proof.
  intros H Hp Ht. enough (in_place p'.1 /\ Forall safe p'.2) as [? _] by done.
  assert (in_place p.1 /\ Forall safe p.2) as HI by (rewrite Ht; by split). clear Hp Ht.
  induction H as [|p p1 p' H1 _ IH]; [done|]. by eapply IH, pool_step_safe.
Qed.

Lemma search_in_place h ip : in_place h ->
  exists r, neighbour_table_try_lookup (ipv4_hash ip) ip h = Ok (r, h) /\
    match r with Some i => ips (dev h) !! i = Some ip | None => ip ∉ ips (dev h) end.
Proof.
  intros []. assert (is_Some (buckets (dev h) !! slot ip)) as [l Hl]
    by (apply lookup_lt_is_Some; rewrite pl_len; apply slot_range).
  assert (bucket (ipv4_hash ip mod NEIGH_BUCKET_SIZE) h = Ok (l, h)) as Eb.
  { unfold bucket, bind, gets, id. fold (slot ip). unfold of_option. by rewrite Hl. }
  unfold neighbour_table_try_lookup. rewrite (bind_ok _ _ _ _ _ Eb).
  destruct (find_entry_run ip h l) as (r & E & Hr).
  { apply Forall_forall. intros i Hi. destruct (pl_in _ _ _ Hl Hi) as (ip' & Hip & _).
    unfold ips in Hip. rewrite list_lookup_fmap in Hip. destruct (entries (dev h) !! i); [eauto|done]. }
  exists r. split; [done|]. destruct r as [i|]; [apply Hr|]. intros [i Hi]%list_elem_of_lookup.
  destruct (pl_all i ip Hi) as (l' & Hl' & Hil). rewrite Hl in Hl'. injection Hl' as <-. by apply (Hr i).
Qed.

(** C20. However the threads overlap that send and receive packets, starting from an empty
    table: a search for an address succeeds exactly if the table has an entry for it, and
    what it returns is such an entry. *)
Theorem neighbours_found (h0 h h' : Host) (ts : list thread) (ip : list Z)
    (Hempty : entries (dev h0) = []) (Hinit : neighbour_init h0 = Ok (tt, h)) (H : rtc pool_step (h, []) (h', ts)) :
  exists r, neighbour_table_try_lookup (ipv4_hash ip) ip h' = Ok (r, h') /\
    (is_Some r <-> exists i e, entries (dev h') !! i = Some e /\ ip_addr e = ip) /\
    (forall i, r = Some i -> exists e, entries (dev h') !! i = Some e /\ ip_addr e = ip).
Proof.
  assert (in_place h) as Hp.
  { injection Hinit as <-. unfold in_place, ips. simpl. rewrite Hempty. apply placed_empty. }
  pose proof (pool_safe _ _ H Hp eq_refl) as Hp'. cbn [fst] in Hp'.
  destruct (search_in_place h' ip Hp') as (r & E & Hr). exists r. split; [done|].
  assert (forall i, r = Some i -> exists e, entries (dev h') !! i = Some e /\ ip_addr e = ip) as Hs.
  { intros i ->. by apply ips_lookup_inv. }
  split; [|done]. split; [intros [i ->]; exists i; by apply Hs|]. intros (i & e & He & Hip).
  destruct r as [j|]; [eauto|]. destruct Hr. apply list_elem_of_lookup. exists i. rewrite <- Hip. by apply ips_lookup.
Qed.

(** The sections in the order of a schedule, a list of indices of threads. *)
Fixpoint run_pool (js : list nat) (p : Pool) : option Pool :=
  match js with
  | [] => Some p
  | j :: js =>
    match p.2 !! j with
    | Some (Sect m) => match m p.1 with Ok (t, h) => run_pool js (h, <[j := t]> p.2) | _ => None end
    | _ => None
    end
  end.

Lemma run_pool_steps js p p' : run_pool js p = Some p' -> rtc pool_step p p'.
Proof.
  revert p. induction js as [|j js IH]; intros [h ts]; cbn [run_pool fst snd]; [by intros [= ->]|].
  destruct (ts !! j) as [[|m]|] eqn:Ej; [done| |done]. destruct (m h) as [[t h1]| |] eqn:Em; [|done|done].
  intros H. econstructor; [by eapply ps_section|]. by apply IH.
Qed.

(** Two threads of one host look for the same address. *)
Definition two_lookups : list thread := [lookup_thread true (lan_ip 2); lookup_thread true (lan_ip 2)].

Lemma two_lookups_start h : rtc pool_step (h, []) (h, two_lookups).
Proof. eapply rtc_l; [apply (ps_lookup true (lan_ip 2))|]. apply rtc_once, (ps_lookup true (lan_ip 2)). Qed.

Definition overlapped (js : list nat) : Host :=
  match run_pool js (lan_host 1, two_lookups) with Some p => p.1 | None => lan_host 1 end.

Lemma neighbours_found_witness :
  let h' := overlapped [0; 1; 0; 1; 0; 1]%nat in
  entries (dev (lan_host 1)) = [] /\ neighbour_init (lan_host 1) = Ok (tt, lan_host 1) /\
  rtc pool_step (lan_host 1, []) (h', [Done; Done]) /\
  exists i, neighbour_table_try_lookup (ipv4_hash (lan_ip 2)) (lan_ip 2) h' = Ok (Some i, h').
Proof.
  cbv zeta. set (h' := overlapped _).
  assert (run_pool [0; 1; 0; 1; 0; 1]%nat (lan_host 1, two_lookups) = Some (h', [Done; Done])) as E by (vm_compute; reflexivity).
  pose proof (rtc_trans _ _ _ (two_lookups_start (lan_host 1)) (run_pool_steps _ _ _ E)) as H.
  destruct (neighbours_found (lan_host 1) (lan_host 1) h' [Done; Done] (lan_ip 2) eq_refl eq_refl H) as (r & Er & [_ Hr] & _).
  assert (exists i e, entries (dev h') !! i = Some e /\ ip_addr e = lan_ip 2) as He
    by (exists 0%nat; eexists; split; vm_compute; reflexivity).
  destruct (Hr He) as [i ->]. exact (conj eq_refl (conj eq_refl (conj H (ex_intro _ i Er)))).
Defined.

(** The host after the answer to its request. *)
Definition answered (h : Host) : Host :=
  match eth_recv true 1 1 [] (host_rx h (rx_frame (arp_frame (lan_mac 1) (lan_mac 2) 2 (lan_mac 2) (lan_ip 2) (lan_mac 1) (lan_ip 1)))) with
  | Ok (_, h) => h
  | _ => h
  end.

(** C30. The lock of the bucket is released between the search and the insertion.  So two
    threads that look for one address can both find nothing, and both create an entry for
    it.  The answer is merged into the first entry only: one of the two threads gets the
    address, the other one goes on waiting; one after the other, they share the entry. *)
Theorem neighbours_raced :
  exists h, rtc pool_step (lan_host 1, []) (h, [Done; Done]) /\
    map ip_addr (entries (dev h)) = [lan_ip 2; lan_ip 2] /\
    (exists mac, ipv4_lookup_end 0 (answered h) = Ok (mac, answered h) /\ take 6 mac = lan_mac 2) /\
    ipv4_lookup_end 1 (answered h) = NoFuel /\
    (exists mac, ipv4_lookup_end 0 (answered (overlapped [0; 0; 0; 1]%nat)) = Ok (mac, answered (overlapped [0; 0; 0; 1]%nat)) /\
       take 6 mac = lan_mac 2).
Proof.
  exists (overlapped [0; 1; 0; 1; 0; 1]%nat). split; [|split; [|split; [|split]]].
  - eapply rtc_trans; [apply two_lookups_start|]. apply (run_pool_steps [0; 1; 0; 1; 0; 1]%nat). vm_compute. reflexivity.
  - vm_compute. reflexivity.
  - eexists. split; vm_compute; reflexivity.
  - vm_compute. reflexivity.
  - eexists. split; vm_compute; reflexivity.
Qed.
